(* ===== verification/_CoqProject ===== *)
-Q . S2P
Prelude.v
RustStd.v
BTree.v
Libs.v
Serde.v
Concrete.v
ValueMap.v
Nip44.v
Event.v
Frame.v
Relay.v
RelayHandle.v
GiftWrap.v
Keys.v
Dedup.v
DmInbox.v
RelayList.v
RelayCache.v
Routing.v
Pool.v
Runtime.v
Discovery.v
Profile.v
Nip11.v
Account.v
Hosted.v
ServerAuth.v
Storage.v
Service.v
Session.v
SessionRun.v
Host.v
ServerProcess.v
ServerNip05.v
Nip05.v
Confirmation.v
Ipc.v
Store.v
Migration.v
Daemon.v
IpcServer.v
Instance.v
HostedClient.v
HostedHandle.v
ServerCli.v
Chat.v
Core.v
Lifecycle.v
Pairing.v
Ctl.v
CommandLine.v
ChatHandle.v
DaemonRun.v
Tui.v
Terminal.v
TerminalGuard.v
LocalClients.v
