(* ===== verification/Prelude.v ===== *)
(** * OmaChat: a verification development

    OmaChat is a Nostr messenger: a client daemon that keeps its keys in a sealed store and
    exchanges end-to-end encrypted direct messages over relays, and a small server that
    lets accounts claim a handle and bind it to a Nostr key. This library models the Rust
    crates of the repository ([crates/]) and proves what makes them correct.

    ** How the program is modelled

    A pure function is a Rocq function; a fallible one returns [result], with [let?] for
    the [?] operator; code that mutates a state is a function [SE S E A] from the state to
    a result and the new state, with [let!], so that the state survives an error. A
    machine integer is a [Z] with the saturating, checked or wrapping operation the source
    uses. A Rust [String] is the string of its UTF-8 bytes. Actors are step functions over
    explicit inputs: what the operating system, the network, the clock and the randomness
    answer is an input or a tape in the state, so every run is a function and a theorem
    about all inputs is a theorem about all interleavings of them.

    Crates that are not in the repository are type classes of [Libs] (hashes, signatures,
    ciphers, hex, base64, bech32, JSON text, URLs); a second class states the documented
    behaviour that is relied on, and [Concrete] has instances of all of them, with which
    the witnesses evaluate.

    ** Files

    - [Prelude], [RustStd], [BTree], [Libs], [Serde], [Concrete]: the result and state
      monads with their Hoare rules and tactics, Rust's [str], [char], integer parsing and
      [BTreeMap], the interfaces, derived (de)serialisation, the instances.
    - Cryptographic core ([omachat-crypto]): [Nip44] (payload encryption and padding),
      [Keys] (npub, nsec, BIP-340 secrets), [Account] (handles, display names, device
      identities).
    - Nostr client library ([omachat-nostr]): [Event] (NIP-01), [Frame] (relay frames and
      NIP-42 answers), [Relay] (the actor of one connection, from [relay.rs]), [RelayHandle]
      (its users, with the bounded command queue), [GiftWrap]
      (NIP-59), [Dedup] and [DmInbox] (the inbox), [RelayList] ([discovery.rs],
      [relay_list.rs], [dm_relay_list.rs], [inbox.rs]), [RelayCache] (both verified
      caches), [Routing] (the plan of a publication), [Pool] ([pool.rs],
      [dm_delivery.rs]), [Discovery] (the three discovery modules), [Profile] (the four
      profile modules), [Nip11] (the bounded HTTP client and relay documents), [Nip05]
      (handle resolution).
    - Handle server ([omachat-proto/hosted.rs], [omachat-server]): [Hosted] (signed
      transcripts and frames), [ServerAuth], [Storage] (the SQLite tables as finite maps),
      [Service] (the actor), [Session] (the WebSocket handshake and request loop),
      [SessionRun] (a session from its admission to its report), [Host]
      (connection admission), [ServerNip05] (the HTTP lookup).
    - Server processes: [ServerProcess] ([process.rs], [prepare_data_dir] and the start of
      [omachat-serverd]) and [ServerCli] ([omachat-server-cli], the operator's client).
    - Inbox runtime: [Runtime] ([dm_inbox_runtime.rs], the pool and the inbox together).
    - Client daemon ([omachat-proto/ipc.rs], [omachat-store], [omachatd]): [Ipc] (requests
      and the line decoder), [ValueMap] (objects as maps), [IpcServer] (responses, events
      and the clients of the socket), [Instance] (the lock, the socket and the processes
      that compete for them, as system calls on a directory), [Store] (the sealed store
      over a file tree with faults and crashes), [Migration] (the store moved to another
      provider, over three directories), [Confirmation], [Daemon] (configuration
      and event hub), [HostedClient] ([hosted_service.rs]: handshake, session and
      reconnection with the handle server), [HostedHandle] (its handle), [Chat]
      ([nostr_chat.rs]), [ChatHandle] (its handle and queue), [Core] ([core.rs]:
      every command, the panic erasure, reload and shutdown).
    - Local clients: [Ctl] ([omachat-ctl/lib.rs]), [Tui] ([omachat-tui]: model, rendering,
      input), [TerminalGuard] (the terminal's modes), [CommandLine] (the three command
      lines and the start of the daemon).
    - Compositions: [Lifecycle] (runs of the core under every interleaving), [DaemonRun]
      (the process around it, with its signals, up to its exit), [Pairing] (the
      core's proof and the server that checks it), [Terminal] (a terminal or [omachat-ctl]
      on the daemon itself), [LocalClients] (replies that do not fit, reloads, names).

    A component takes the ones it calls as they are: [Session] runs [Service], which runs
    [Storage]; [Nip05] reads through [Nip11] what [ServerNip05] and [Service] answer;
    [Chat] runs [Store], [Pool], [Nip05] and [GiftWrap]; [Core] runs [Chat], [Store],
    [Confirmation] and [HostedClient]; [Ctl] and [Tui] are clients of a type class of peers
    of which [IpcServer] with [Core] is an instance.

    ** What is shown

    - The server. The database invariant holds after every request: handles and keys have
      one owner ([Service.service_invariant]), and a handle never changes hands ([handle_permanent]); a binding
      changes only with a fresh proof signed by the key and the device
      ([binding_changes_need_proof]), whose signed text determines every field
      ([Hosted.proof_transcript_injective]), and a proof is not accepted twice while its
      nonce is kept ([proof_not_replayable]). A session is given an account only after a
      device signature over this handshake ([Session.authenticate_sound]), asks the service
      only for that device and leaves no subscription ([SessionRun.session_acts_for_device]),
      answers each
      request once, and is admitted within the connection limits ([Host.host_admission]).
    - Messages. What [create_gift_wrap] makes is opened by its recipient, and what opens
      is authentic ([GiftWrap]); NIP-44 decrypts what it encrypts and nothing with a wrong
      tag; the inbox delivers a message once ([DmInbox], with [Dedup] refining an abstract
      window); an event verifies exactly when its fields, identifier and signature do
      ([Event.verify_exact]). When the daemon reports a message as sent, a relay accepted
      its wrap, the recipient's daemon files it under the sender's key, and the sender's
      other device files the same entry ([Chat.chat_end_to_end]); what a successful request
      changed survives a restart or a crash ([chat_durable]).
    - Relays. The actor of a connection with a signer never sends application data on a
      session that still has to authenticate ([Relay.relay_fails_closed]), answers each command once and
      truthfully to its callers ([Relay.relay_answers_once], [RelayHandle.relay_calls_truthful]),
      subscribes again after a reconnection ([relay_resubscribes]) and backs off within bounds; the pool's view
      of its subscriptions is sound, a delivery counts only authenticated relays
      ([Pool.delivery_quorum_authenticated]) and its wait terminates. Discovery returns the
      best valid event seen; the cache of relay lists converges whatever the order; a
      routed plan goes only to relays the recipient published ([Routing], [RelayList]).
    - Files and local clients. A record write that is cut anywhere leaves the old record
      or the new one ([Store.write_crash_safe]), and a migration cut anywhere loses no record
      and no key that opens one ([Migration.migration_keeps_records]); an erased store answers nothing any more;
      a confirmation is redeemed once; the line decoder is exact whatever the segmentation
      ([Ipc.decoder_exact]) and each client is answered in the order of its requests
      ([IpcServer.ipc_replies_in_order]); a subscriber of the event hub sees no gap
      ([Daemon.hub_no_gaps]). One daemon serves at a time and a new one starts after any
      end of the others ([Instance.single_instance], [daemon_restarts]).
    - The daemon. A completed panic erasure is for good ([Lifecycle.panic_erase_final]), it
      starts only with a confirmation ([erase_needs_confirmation]), and it ends
      ([panic_cleanup_terminates]); typed at a terminal it does both
      ([Terminal.panic_from_terminal]). The process waits for it before it exits, and exits
      after it ([DaemonRun.exit_waits_for_erasure], [erasure_ends_process]). Concurrent
      calls of the chat behave as one sequence, as [Core] runs them, and none has an effect
      after its shutdown ([ChatHandle.chat_calls_linearized], [chat_shutdown_final]);
      [quiesce] returns exactly when the hosted transport has ended
      ([HostedHandle.quiesce_exact]). The daemon and the server agree on the account of a
      handshake ([HostedClient.hosted_handshake_agrees]), the daemon signs only for the
      pinned server ([hosted_transport_authentic]), and the proof it makes is the one the
      server accepts ([Pairing.bind_proof_accepted]). The inbox reads only from relays that
      authenticated the user ([Runtime.inbox_reads_authenticated]).
    - Local clients. A terminal shows the daemon's history, when it attaches and when it
      attaches again ([Terminal.terminal_shows_history]),
      its model stays well formed ([Tui.ui_invariant]) and it draws within its area
      ([Tui.render_within]), and the terminal gets its modes back however the program ends
      ([TerminalGuard.terminal_restored]); the command lines accept exactly their grammar
      ([CommandLine.ctl_grammar], [ServerProcess.server_args_exact]).
    - Lookups. A client that resolves a handle against this server gets the bound key, or
      the server's error status when there is none, whatever the segmentation of the bytes
      once the host has seen the first line whole ([Nip05.nip05_end_to_end],
      [Nip11.response_pieces]).
    - Defects. Some theorems state what the code does wrong: a proof dated ahead that is
      replayed ([Service.future_proof_replayed]), a migration or a first run that cannot
      be resumed, a key record that is overwritten, a chunk size that panics, a lookup
      taken for a WebSocket, two discovery loops that break ties in opposite ways, a
      readiness loop that spins, a message that returns after its eviction, a contact
      reported as saved that no file holds ([Chat.unsaved_contact_reported]), a history that
      no longer fits a line ([LocalClients.history_must_fit_line]), a race of two daemons
      ([Instance.two_daemons_race]), a reload without effect, a store that comes up empty or
      outlives its erasure after an interrupted migration ([Migration]).

    ** Fuel

    Loops whose recursion is not structural take a fuel that the callers set from the
    length of their input: [Ipc.drain] and [Nip11.decode_chunks] consume at least one byte
    per turn and start with more fuel than bytes, [Pool.wait_loop] and [Chat.deliver]
    consume at least one arrival per turn ([Pool.wait_terminates] shows that more fuel
    changes nothing), and [GiftWrap.random_secret_key_loop] has the 128 tries of the source.

    ** Not modelled

    Sockets, TLS, SOCKS and the WebSocket codec, whose results are inputs; the wait of
    timers, the delivery of signals and the choice of the task that runs next, which are
    inputs too; the cell buffer of the terminal; help and version texts and
    most texts of errors that only reach a log; the desktop shell, packaging, the probe of
    [omachat-store/examples] and the fuzz targets. *)

From Stdlib Require Export ZArith Lia Bool.
From Stdlib Require Import Strings.Byte Ascii String.
From stdpp Require Export base option list strings gmap fin_maps numbers sorting.

#[export] Set Default Proof Using "Type".

(** ** The [Result] of Rust and its early returns *)

Inductive result (E A : Type) : Type :=
| Ok (a : A)
| Err (e : E).
Arguments Ok {E A} a.
Arguments Err {E A} e.

#[export] Instance result_eq_dec {E A} `{!EqDecision E, !EqDecision A} :
  EqDecision (result E A).
Proof. solve_decision. Defined.

Definition rbind {E A B} (c : result E A) (k : A -> result E B) : result E B :=
  match c with Ok a => k a | Err e => Err e end.

Definition map_err {E F A} (f : E -> F) (c : result E A) : result F A :=
  match c with Ok a => Ok a | Err e => Err (f e) end.

Definition ok_or {E A} (e : E) (o : option A) : result E A :=
  match o with Some a => Ok a | None => Err e end.

Definition is_ok {E A} (c : result E A) : bool :=
  match c with Ok _ => true | Err _ => false end.

Definition result_ok {E A} (c : result E A) : option A :=
  match c with Ok a => Some a | Err _ => None end.

Declare Scope rust_scope.
Delimit Scope rust_scope with rust.
(** [let? x := c in k] is the source's [let x = c?; k]. *)
Notation "'let?' x := c 'in' k" := (rbind c (fun x => k))
  (at level 10, x pattern, c at level 99, k at level 200,
   format "'[v' 'let?'  x  :=  c  'in' '/' k ']'") : rust_scope.
(** [fail_if b with e ;; k] is the source's [if b { return Err(e); } k]. *)
Notation "'fail_if' b 'with' e ;; k" := (if b then Err e else k)
  (at level 10, b at level 99, e at level 99, k at level 200,
   format "'[v' 'fail_if'  b  'with'  e  ;; '/' k ']'") : rust_scope.
Open Scope rust_scope.

(** Fallible code over a mutable state: the state survives an error. *)
Definition SE (S E A : Type) : Type := S -> result E A * S.
Definition se_ret {S E A} (r : result E A) : SE S E A := fun s => (r, s).
Definition se_bind {S E A B} (c : SE S E A) (k : A -> SE S E B) : SE S E B :=
  fun s => match c s with
           | (Ok a, s') => k a s'
           | (Err e, s') => (Err e, s')
           end.
Notation "'let!' x := c 'in' k" := (se_bind c (fun x => k))
  (at level 10, x pattern, c at level 99, k at level 200,
   format "'[v' 'let!'  x  :=  c  'in' '/' k ']'") : rust_scope.

(** [.map_err(f)] on such a computation, and running one on a part of the state. *)
Definition se_map_err {S E F A} (f : E -> F) (c : SE S E A) : SE S F A :=
  fun s => (map_err f (c s).1, (c s).2).
Definition se_zoom {S T E A} (get : S -> T) (put : T -> S -> S) (c : SE T E A) : SE S E A :=
  fun s => ((c (get s)).1, put (c (get s)).2 s).

(** [keeps I c]: whatever [c] returns, an invariant of the state survives it. *)
Definition keeps {S E A} (I : S -> Prop) (c : SE S E A) : Prop := forall s, I s -> I (c s).2.

Lemma keeps_ret {S E A} (I : S -> Prop) (r : result E A) : keeps I (se_ret r).
Proof. by intros s Hs. Qed.
Lemma keeps_bind {S E A B} (I : S -> Prop) (c : SE S E A) (k : A -> SE S E B) :
  keeps I c -> (forall a, keeps I (k a)) -> keeps I (se_bind c k).
Proof.
  intros Hc Hk s Hs. unfold se_bind. specialize (Hc s Hs).
  destruct (c s) as [[a|e] s']; simpl in *; [by apply Hk | done].
Qed.
Lemma keeps_map_err {S E F A} (I : S -> Prop) (f : E -> F) (c : SE S E A) :
  keeps I c -> keeps I (se_map_err f c).
Proof. intros Hc s Hs. by apply Hc. Qed.

Lemma keeps_bind_ret {S E A B} (I : S -> Prop) (r : result E A) (k : A -> SE S E B) :
  (forall a, r = Ok a -> keeps I (k a)) -> keeps I (se_bind (se_ret r) k).
Proof. intros Hk s Hs. unfold se_bind, se_ret. destruct r; [by apply Hk | done]. Qed.

(** [hoare P c Q R]: from a state in [P], [c] ends with a value in [Q] or an error in [R]. *)
Definition hoare {S E A} (P : S -> Prop) (c : SE S E A) (Q : A -> S -> Prop) (R : S -> Prop) : Prop :=
  forall s, P s -> match c s with (Ok a, s') => Q a s' | (Err _, s') => R s' end.

Lemma hoare_bind {S E A B} (P : S -> Prop) (c : SE S E A) (k : A -> SE S E B) Q Q' R :
  hoare P c Q R -> (forall a, hoare (Q a) (k a) Q' R) -> hoare P (se_bind c k) Q' R.
Proof.
  intros Hc Hk s Hs. unfold se_bind. specialize (Hc s Hs). destruct (c s) as [[a|e] s']; [by apply Hk | done].
Qed.

Lemma hoare_map_err {S E F A} (P : S -> Prop) (f : E -> F) (c : SE S E A) Q R :
  hoare P c Q R -> hoare P (se_map_err f c) Q R.
Proof. intros Hc s Hs. specialize (Hc s Hs). unfold se_map_err. by destruct (c s) as [[a|e] s']. Qed.

Lemma se_bind_cases {S E A B} (c : SE S E A) (k : A -> SE S E B) s r s' :
  se_bind c k s = (r, s') ->
  (exists e, c s = (Err e, s') /\ r = Err e) \/ (exists a s1, c s = (Ok a, s1) /\ k a s1 = (r, s')).
Proof.
  unfold se_bind. destruct (c s) as [[a|e] s1]; [eauto | intros [= <- <-]; eauto].
Qed.

Lemma se_map_err_cases {S E F A} (f : E -> F) (c : SE S E A) s r s' :
  se_map_err f c s = (r, s') -> exists r', c s = (r', s') /\ r = map_err f r'.
Proof. unfold se_map_err. destruct (c s) as [r' s1]. simpl. intros [= <- <-]. eauto. Qed.

Lemma se_map_err_ok_inv {S E F A} (f : E -> F) (c : SE S E A) s a s' :
  se_map_err f c s = (Ok a, s') -> c s = (Ok a, s').
Proof.
  unfold se_map_err. destruct (c s) as [[x|e] s1]; simpl; [by intros [= -> ->] | discriminate].
Qed.

Lemma se_bind_ok_inv {S E A B} (c : SE S E A) (k : A -> SE S E B) s b s' :
  se_bind c k s = (Ok b, s') -> exists a s1, c s = (Ok a, s1) /\ k a s1 = (Ok b, s').
Proof. unfold se_bind. destruct (c s) as [[a|e] s1]; [eauto | discriminate]. Qed.

Lemma rbind_ok_inv {E A B} (c : result E A) (k : A -> result E B) b :
  rbind c k = Ok b -> exists a, c = Ok a /\ k a = Ok b.
Proof. destruct c; simpl; [eauto | discriminate]. Qed.

Lemma rbind_err_inv {E A B} (c : result E A) (k : A -> result E B) e :
  rbind c k = Err e -> c = Err e \/ exists a, c = Ok a /\ k a = Err e.
Proof. destruct c; simpl; [eauto | by intros [= ->]; left]. Qed.

Lemma map_err_ok_inv {E F A} (f : E -> F) (c : result E A) a :
  map_err f c = Ok a -> c = Ok a.
Proof. destruct c; simpl; congruence. Qed.

Lemma map_err_err_inv {E F A} (f : E -> F) (c : result E A) e :
  map_err f c = Err e -> exists e', c = Err e' /\ e = f e'.
Proof. destruct c; simpl; [discriminate | intros [= <-]; eauto]. Qed.

Lemma ok_or_ok_inv {E A} (e : E) (o : option A) a :
  ok_or e o = Ok a -> o = Some a.
Proof. destruct o; simpl; congruence. Qed.

Lemma fail_if_ok_inv {E A} (b : bool) (e : E) (k : result E A) a :
  (if b then Err e else k) = Ok a -> b = false /\ k = Ok a.
Proof. destruct b; [discriminate | auto]. Qed.

(** [inv_ok] peels the early returns off every hypothesis [_ = Ok _]. *)
Ltac inv_ok :=
  repeat match goal with
  | H : rbind _ _ = Ok _ |- _ =>
      let a := fresh "a" in let Ha := fresh "Ha" in
      apply rbind_ok_inv in H; destruct H as (a & Ha & H)
  | H : se_bind _ _ _ = (Ok _, _) |- _ =>
      let a := fresh "a" in let s := fresh "s" in let Ha := fresh "Ha" in
      apply se_bind_ok_inv in H; destruct H as (a & s & Ha & H)
  | H : se_map_err _ _ _ = (Ok _, _) |- _ => apply se_map_err_ok_inv in H
  | H : se_ret _ _ = (Ok _, _) |- _ => injection H; clear H; intros; subst
  | H : map_err _ _ = Ok _ |- _ => apply map_err_ok_inv in H
  | H : ok_or _ _ = Ok _ |- _ => apply ok_or_ok_inv in H
  | H : (if _ then Err _ else _) = Ok _ |- _ =>
      let Hb := fresh "Hb" in apply fail_if_ok_inv in H; destruct H as [Hb H]
  | H : Ok _ = Ok _ |- _ => injection H; clear H; intros; subst
  | H : Err _ = Ok _ |- _ => discriminate H
  end.

(** [split_bools] turns boolean connectives in hypotheses into facts. *)
Ltac split_bools :=
  repeat match goal with
  | H : (_ || _)%bool = false |- _ => apply orb_false_iff in H; destruct H
  | H : (_ && _)%bool = true |- _ => apply andb_true_iff in H; destruct H
  | H : negb _ = false |- _ => apply negb_false_iff in H
  | H : negb _ = true |- _ => apply negb_true_iff in H
  | H : bool_decide _ = true |- _ => apply bool_decide_eq_true in H
  | H : bool_decide _ = false |- _ => apply bool_decide_eq_false in H
  | H : (_ =? _)%Z = true |- _ => apply Z.eqb_eq in H
  | H : (_ =? _)%Z = false |- _ => apply Z.eqb_neq in H
  | H : (_ <? _)%Z = true |- _ => apply Z.ltb_lt in H
  | H : (_ <? _)%Z = false |- _ => apply Z.ltb_ge in H
  | H : (_ <=? _)%Z = true |- _ => apply Z.leb_le in H
  | H : (_ <=? _)%Z = false |- _ => apply Z.leb_gt in H
  end.

(** ** Machine integers

    Unsigned integers are [Z] values kept in range by the operations the source
    uses: the saturating and checked ones below. *)

Definition u8_max : Z := 255.
Definition u16_max : Z := 65535.
Definition u32_max : Z := 4294967295.
Definition u64_max : Z := 18446744073709551615.
Definition u128_max : Z := 340282366920938463463374607431768211455.
Definition i64_max : Z := 9223372036854775807.
(** [usize] is 64 bits wide on every target the program ships for. *)
Definition usize_max : Z := u64_max.

Definition in_u64 (z : Z) : Prop := (0 <= z <= u64_max)%Z.

Definition saturating_add (m a b : Z) : Z := Z.min m (a + b).
Definition saturating_sub (a b : Z) : Z := Z.max 0 (a - b).
Definition saturating_mul (m a b : Z) : Z := Z.min m (a * b).
Definition checked_add (m a b : Z) : option Z :=
  if (a + b <=? m)%Z then Some (a + b)%Z else None.
Definition checked_sub (a b : Z) : option Z :=
  if (b <=? a)%Z then Some (a - b)%Z else None.
Definition checked_mul (m a b : Z) : option Z :=
  if (a * b <=? m)%Z then Some (a * b)%Z else None.
Definition checked_div (a b : Z) : option Z :=
  if (b =? 0)%Z then None else Some (a / b)%Z.

Lemma saturating_add_in_u64 a b :
  in_u64 a -> in_u64 b -> in_u64 (saturating_add u64_max a b).
Proof. unfold in_u64, saturating_add; lia. Qed.

Lemma saturating_sub_in_u64 a b :
  in_u64 a -> in_u64 b -> in_u64 (saturating_sub a b).
Proof. unfold in_u64, saturating_sub; lia. Qed.

Ltac unfold_ints :=
  unfold in_u64, saturating_add, saturating_sub, saturating_mul, usize_max,
    u8_max, u16_max, u32_max, u64_max, u128_max, i64_max in *.

(** The length of a vector or slice, as the [usize] the source computes with. *)
Definition zlen {A} (l : list A) : Z := Z.of_nat (length l).
(** [str::len]: the number of UTF-8 bytes. *)
Definition slen (s : string) : Z := Z.of_nat (String.length s).

Lemma zlen_nonneg {A} (l : list A) : (0 <= zlen l)%Z.
Proof. unfold zlen; lia. Qed.
Lemma zlen_app {A} (l1 l2 : list A) : zlen (l1 ++ l2) = (zlen l1 + zlen l2)%Z.
Proof. unfold zlen; rewrite length_app; lia. Qed.
Lemma zlen_cons {A} (x : A) l : zlen (x :: l) = (1 + zlen l)%Z.
Proof. unfold zlen; simpl; lia. Qed.
Lemma slen_nonneg s : (0 <= slen s)%Z.
Proof. unfold slen; lia. Qed.

Create HintDb omachat.
Create Rewrite HintDb omachat.
#[export] Hint Resolve keeps_ret keeps_bind keeps_map_err : omachat.
#[export] Hint Resolve zlen_nonneg slen_nonneg saturating_add_in_u64
  saturating_sub_in_u64 : omachat.
#[export] Hint Rewrite @zlen_app @zlen_cons : omachat.

(** ** Generic list facts *)

Lemma take_drop_split {A} (n : nat) (l1 l2 : list A) :
  length l1 = n -> take n (l1 ++ l2) = l1 /\ drop n (l1 ++ l2) = l2.
Proof. intros <-; by rewrite take_app_length, drop_app_length. Qed.

Lemma NoDup_snoc {A} (l : list A) x : NoDup l -> x ∉ l -> NoDup (l ++ [x]).
Proof.
  intros Hl Hx. apply NoDup_app; repeat split; [done | | apply NoDup_singleton].
  intros y Hy Hyx. apply list_elem_of_singleton in Hyx; by subst.
Qed.
