(* ===== verification/RustStd.v ===== *)
(** * The parts of Rust's standard library the sources use

    Bytes, big-endian integers, [str] and [char] methods. A Rust [String] is a
    [string] holding its UTF-8 bytes, one [ascii] per byte, so that [slen] is
    [str::len]; a [Vec<u8>], a slice or an array is a [list byte]. *)

From Stdlib Require Import Strings.Byte Ascii String.
From stdpp Require Import pretty.
From S2P Require Import Prelude.
Local Open Scope Z_scope.

Abbreviation bytes := (list byte).

#[export] Instance byte_eq_dec : EqDecision byte := Byte.byte_eq_dec.
#[export] Program Instance byte_countable : Countable byte :=
  inj_countable Byte.to_N Byte.of_N _.
Next Obligation. apply Byte.of_to_N. Qed.

Definition byte_val (b : byte) : Z := Z.of_N (Byte.to_N b).
Definition byte_of_Z (z : Z) : byte := default x00 (Byte.of_N (Z.to_N (z mod 256))).

Lemma byte_val_range b : 0 <= byte_val b < 256.
Proof. unfold byte_val. pose proof (Byte.to_N_bounded b). lia. Qed.

Lemma byte_val_of_Z z : byte_val (byte_of_Z z) = z mod 256.
Proof.
  unfold byte_val, byte_of_Z.
  assert (0 <= z mod 256 < 256) by (apply Z.mod_pos_bound; lia).
  destruct (Byte.of_N (Z.to_N (z mod 256))) eqn:E; simpl.
  - apply Byte.to_of_N in E. rewrite E. lia.
  - apply Byte.of_N_None_iff in E. lia.
Qed.

Lemma byte_val_inj b1 b2 : byte_val b1 = byte_val b2 -> b1 = b2.
Proof.
  unfold byte_val. intros H%N2Z.inj.
  pose proof (Byte.of_to_N b1). pose proof (Byte.of_to_N b2). congruence.
Qed.

Lemma byte_of_Z_val b : byte_of_Z (byte_val b) = b.
Proof.
  apply byte_val_inj. rewrite byte_val_of_Z.
  apply Z.mod_small, byte_val_range.
Qed.

(** ** [to_be_bytes] and [from_be_bytes] of the unsigned integers *)

Fixpoint be_bytes (n : nat) (z : Z) : bytes :=
  match n with
  | O => []
  | S n => be_bytes n (z / 256) ++ [byte_of_Z z]
  end.

Definition from_be_bytes (l : bytes) : Z :=
  fold_left (fun acc b => acc * 256 + byte_val b) l 0.

(** [u64::from_le_bytes] *)
Fixpoint from_le_bytes (l : bytes) : Z :=
  match l with
  | [] => 0
  | b :: l => byte_val b + 256 * from_le_bytes l
  end.

Lemma length_be_bytes n z : length (be_bytes n z) = n.
Proof. revert z; induction n; intros z; simpl; rewrite ?length_app, ?IHn; simpl; lia. Qed.

Lemma from_be_bytes_snoc l b : from_be_bytes (l ++ [b]) = from_be_bytes l * 256 + byte_val b.
Proof. unfold from_be_bytes. by rewrite fold_left_app. Qed.

Lemma from_be_bytes_be_bytes n z : 0 <= z -> from_be_bytes (be_bytes n z) = z mod 256 ^ Z.of_nat n.
Proof.
  revert z; induction n as [|n IH]; intros z Hz; [by rewrite Z.mod_1_r|].
  simpl be_bytes. rewrite from_be_bytes_snoc, IH, byte_val_of_Z by (apply Z.div_pos; lia).
  rewrite Nat2Z.inj_succ, Z.pow_succ_r by lia.
  rewrite Z.rem_mul_r; [lia | lia | apply Z.pow_pos_nonneg; lia].
Qed.

Lemma be_bytes_small n z : 0 <= z < 256 ^ Z.of_nat n -> from_be_bytes (be_bytes n z) = z.
Proof. intros ?. rewrite from_be_bytes_be_bytes by lia. by apply Z.mod_small. Qed.

Lemma be_bytes_inj n z1 z2 :
  0 <= z1 < 256 ^ Z.of_nat n -> 0 <= z2 < 256 ^ Z.of_nat n ->
  be_bytes n z1 = be_bytes n z2 -> z1 = z2.
Proof. intros H1 H2 H. rewrite <- (be_bytes_small n z1), <- (be_bytes_small n z2); congruence. Qed.

Lemma from_be_bytes_nonneg l : 0 <= from_be_bytes l.
Proof.
  induction l as [|b l IH] using rev_ind; [done|].
  rewrite from_be_bytes_snoc. pose proof (byte_val_range b). lia.
Qed.

Lemma be_bytes_from_be_bytes l : be_bytes (length l) (from_be_bytes l) = l.
Proof.
  induction l as [|b l IH] using rev_ind; [done|].
  rewrite length_app, Nat.add_comm, from_be_bytes_snoc. simpl.
  pose proof (byte_val_range b).
  rewrite Z.div_add_l, Z.div_small, Z.add_0_r, IH by lia. f_equal. f_equal.
  apply byte_val_inj. rewrite byte_val_of_Z, Z.add_comm, Z.mod_add by lia.
  by apply Z.mod_small.
Qed.

Lemma from_be_bytes_lt l : from_be_bytes l < 256 ^ zlen l.
Proof.
  rewrite <- (be_bytes_from_be_bytes l) at 1.
  rewrite from_be_bytes_be_bytes by apply from_be_bytes_nonneg.
  apply Z.mod_pos_bound, Z.pow_pos_nonneg; unfold zlen; lia.
Qed.

Lemma from_le_bytes_bound l : 0 <= from_le_bytes l < 256 ^ zlen l.
Proof.
  unfold zlen; induction l as [|b l IH]; [simpl; lia|]. simpl from_le_bytes.
  pose proof (byte_val_range b). cbn [length]. rewrite Nat2Z.inj_succ, Z.pow_succ_r; lia.
Qed.

(** ** [str] and its bytes *)

Definition as_bytes (s : string) : bytes := list_byte_of_string s.
Definition of_bytes (l : bytes) : string := string_of_list_byte l.

Lemma of_bytes_as_bytes s : of_bytes (as_bytes s) = s.
Proof. apply string_of_list_byte_of_string. Qed.
Lemma as_bytes_of_bytes l : as_bytes (of_bytes l) = l.
Proof. apply list_byte_of_string_of_list_byte. Qed.
Lemma as_bytes_inj s1 s2 : as_bytes s1 = as_bytes s2 -> s1 = s2.
Proof. intros H. rewrite <- (of_bytes_as_bytes s1), H. apply of_bytes_as_bytes. Qed.

Lemma zlen_as_bytes s : zlen (as_bytes s) = slen s.
Proof.
  unfold zlen, slen, as_bytes, list_byte_of_string. rewrite length_map.
  f_equal. induction s; simpl; congruence.
Qed.
Lemma slen_of_bytes l : slen (of_bytes l) = zlen l.
Proof. by rewrite <- zlen_as_bytes, as_bytes_of_bytes. Qed.
Lemma as_bytes_nil s : as_bytes s = [] -> s = ""%string.
Proof. intros H. apply as_bytes_inj. by rewrite H. Qed.
Lemma slen_0 s : slen s = 0 -> s = ""%string.
Proof. destruct s; unfold slen; simpl; [done|lia]. Qed.

(** [u8::is_ascii_digit] and friends *)
Definition in_range (lo hi v : Z) : bool := (lo <=? v) && (v <=? hi).
Definition is_ascii_digit (b : byte) : bool := in_range 48 57 (byte_val b).
Definition is_ascii_lowercase (b : byte) : bool := in_range 97 122 (byte_val b).
Definition is_ascii_uppercase (b : byte) : bool := in_range 65 90 (byte_val b).
Definition is_ascii_alphanumeric (b : byte) : bool :=
  is_ascii_digit b || is_ascii_lowercase b || is_ascii_uppercase b.
Definition is_ascii_hexdigit (b : byte) : bool :=
  is_ascii_digit b || in_range 97 102 (byte_val b) || in_range 65 70 (byte_val b).
(** [byte.is_ascii_digit() || (b'a'..=b'f').contains(&byte)] *)
Definition is_lower_hex_byte (b : byte) : bool :=
  is_ascii_digit b || in_range 97 102 (byte_val b).
Definition ascii_lower (b : byte) : byte :=
  if is_ascii_uppercase b then byte_of_Z (byte_val b + 32) else b.

(** [value.bytes().all(p)] *)
Definition bytes_all (p : byte -> bool) (s : string) : bool := forallb p (as_bytes s).
Definition to_ascii_lowercase (s : string) : string := of_bytes (map ascii_lower (as_bytes s)).

(** [str::starts_with] on a [char] or [&str]; [slice::starts_with] *)
Fixpoint bytes_prefix (p l : bytes) : bool :=
  match p, l with
  | [], _ => true
  | a :: p, b :: l => Byte.eqb a b && bytes_prefix p l
  | _ :: _, [] => false
  end.
Definition starts_with (p s : string) : bool := bytes_prefix (as_bytes p) (as_bytes s).
Definition strip_prefix (p s : string) : option string :=
  if starts_with p s then Some (of_bytes (drop (length (as_bytes p)) (as_bytes s))) else None.

Lemma bytes_prefix_spec p l : bytes_prefix p l = true <-> exists k, l = p ++ k.
Proof.
  revert l; induction p as [|a p IH]; intros l; simpl; [naive_solver|].
  destruct l as [|b l]; [split; [done | intros [? ?]; done]|].
  rewrite andb_true_iff.
  split.
  - intros [Hab [k ->]%IH]. exists k. f_equal.
    symmetry. by apply Byte.byte_dec_bl.
  - intros [k [= -> ->]]. split; [by apply Byte.byte_dec_lb | apply IH; eauto].
Qed.

Lemma as_bytes_app s1 s2 : as_bytes (s1 ++ s2)%string = as_bytes s1 ++ as_bytes s2.
Proof.
  unfold as_bytes, list_byte_of_string. induction s1 as [|a s1 IH]; [done|].
  simpl. f_equal. exact IH.
Qed.

Lemma strip_prefix_spec p s r : strip_prefix p s = Some r <-> s = (p ++ r)%string.
Proof.
  unfold strip_prefix, starts_with. split.
  - case_match eqn:E; [|done]. apply bytes_prefix_spec in E as [k E]. intros [= <-].
    apply as_bytes_inj. by rewrite as_bytes_app, as_bytes_of_bytes, E, drop_app_length.
  - intros ->. rewrite as_bytes_app, (proj2 (bytes_prefix_spec _ _)) by eauto.
    by rewrite drop_app_length, of_bytes_as_bytes.
Qed.

(** [str::split_once] on a one-byte separator, on bytes *)
Fixpoint split_once (sep : byte) (l : bytes) : option (bytes * bytes) :=
  match l with
  | [] => None
  | b :: l =>
      if Byte.eqb b sep then Some ([], l)
      else match split_once sep l with
           | Some (h, t) => Some (b :: h, t)
           | None => None
           end
  end.

Lemma split_once_some sep l a r : split_once sep l = Some (a, r) -> l = a ++ sep :: r.
Proof.
  revert a. induction l as [|b l IH]; intros a; cbn [split_once]; [done|]. destruct (Byte.eqb b sep) eqn:E.
  - apply Byte.byte_dec_bl in E as ->. by intros [= <- <-].
  - destruct (split_once sep l) as [[a' r']|]; [|done]. intros [= <- <-]. cbn. f_equal. by apply IH.
Qed.

(** [str::split] on a one-byte separator: at least one piece *)
Fixpoint split_on (sep : byte) (l : bytes) : list bytes :=
  match l with
  | [] => [[]]
  | b :: l =>
      if Byte.eqb b sep then [] :: split_on sep l
      else match split_on sep l with
           | h :: t => (b :: h) :: t
           | [] => [[b]]
           end
  end.

(** [slice.windows(n).any(|window| window == pattern)]; [str::contains] *)
Fixpoint contains (pattern l : bytes) : bool :=
  bytes_prefix pattern l || match l with [] => false | _ :: l => contains pattern l end.

Lemma contains_app pattern a l : contains pattern (a ++ pattern ++ l) = true.
Proof.
  induction a as [|b a IH]; [|cbn [app contains]; rewrite IH; apply orb_true_r].
  cbn [app]. assert (bytes_prefix pattern (pattern ++ l) = true) as H by (apply bytes_prefix_spec; eauto).
  destruct pattern as [|c pattern]; cbn [app contains] in *; [by destruct l | by rewrite H].
Qed.

Lemma contains_inv pattern l : contains pattern l = true -> exists a r, l = a ++ pattern ++ r.
Proof.
  induction l as [|b l IH]; cbn [contains]; intros H; apply orb_true_iff in H as [H|H]; try done.
  - apply bytes_prefix_spec in H as [k ->]. by exists [], k.
  - apply bytes_prefix_spec in H as [k ->]. by exists [], k.
  - destruct (IH H) as (a & r & ->). by exists (b :: a), r.
Qed.

(** ** UTF-8: [str::chars] and [String::from_utf8] *)

Definition is_cont (b : byte) : bool := in_range 128 191 (byte_val b).
Definition cont_bits (b : byte) : Z := byte_val b - 128.

Fixpoint utf8_decode (l : bytes) : option (list Z) :=
  match l with
  | [] => Some []
  | b0 :: l1 =>
      let v0 := byte_val b0 in
      if v0 <? 128 then cons v0 <$> utf8_decode l1
      else if in_range 194 223 v0 then
        match l1 with
        | b1 :: l2 =>
            if is_cont b1 then cons ((v0 - 192) * 64 + cont_bits b1) <$> utf8_decode l2
            else None
        | [] => None
        end
      else if in_range 224 239 v0 then
        match l1 with
        | b1 :: b2 :: l3 =>
            let lo := if v0 =? 224 then 160 else 128 in
            let hi := if v0 =? 237 then 159 else 191 in
            if in_range lo hi (byte_val b1) && is_cont b2 then
              cons ((v0 - 224) * 4096 + cont_bits b1 * 64 + cont_bits b2) <$> utf8_decode l3
            else None
        | _ => None
        end
      else if in_range 240 244 v0 then
        match l1 with
        | b1 :: b2 :: b3 :: l4 =>
            let lo := if v0 =? 240 then 144 else 128 in
            let hi := if v0 =? 244 then 143 else 191 in
            if in_range lo hi (byte_val b1) && is_cont b2 && is_cont b3 then
              cons ((v0 - 240) * 262144 + cont_bits b1 * 4096 + cont_bits b2 * 64 + cont_bits b3)
                <$> utf8_decode l4
            else None
        | _ => None
        end
      else None
  end.

(** The invariant every Rust [String] carries. *)
Definition utf8_valid (s : string) : bool :=
  match utf8_decode (as_bytes s) with Some _ => true | None => false end.

Definition chars (s : string) : list Z := default [] (utf8_decode (as_bytes s)).

Definition from_utf8 (l : bytes) : option string :=
  match utf8_decode l with Some _ => Some (of_bytes l) | None => None end.

Lemma from_utf8_as_bytes s : utf8_valid s = true -> from_utf8 (as_bytes s) = Some s.
Proof.
  unfold utf8_valid, from_utf8. destruct (utf8_decode _); [|done].
  intros _. by rewrite of_bytes_as_bytes.
Qed.

Lemma from_utf8_inv l s : from_utf8 l = Some s -> as_bytes s = l /\ utf8_valid s = true.
Proof.
  unfold from_utf8, utf8_valid. destruct (utf8_decode l) eqn:E; [|done].
  intros [= <-]. by rewrite as_bytes_of_bytes, E.
Qed.

Lemma utf8_decode_ascii l :
  forallb (fun b => byte_val b <? 128) l = true -> utf8_decode l = Some (map byte_val l).
Proof.
  induction l as [|b l IH]; [done|]. simpl. intros [Hb Hl]%andb_true_iff.
  by rewrite Hb, IH by done.
Qed.

(** [char::is_control] is the Unicode category Cc. *)
Definition is_control (c : Z) : bool := in_range 0 31 c || in_range 127 159 c.
(** [char::is_whitespace] is the Unicode property White_Space. *)
Definition is_whitespace (c : Z) : bool :=
  in_range 9 13 c || (c =? 32) || (c =? 133) || (c =? 160) || (c =? 5760)
  || in_range 8192 8202 c || (c =? 8232) || (c =? 8233) || (c =? 8239)
  || (c =? 8287) || (c =? 12288).

Fixpoint drop_whitespace (cs : list Z) : list Z :=
  match cs with
  | c :: cs' => if is_whitespace c then drop_whitespace cs' else cs
  | [] => []
  end.
(** [str::trim], on the characters *)
Definition trim_chars (cs : list Z) : list Z :=
  reverse (drop_whitespace (reverse (drop_whitespace cs))).
(** [value.trim() == value] *)
Definition is_trimmed (s : string) : bool := bool_decide (trim_chars (chars s) = chars s).

(** The length in bytes of the white-space character UTF-8 text starts with, or zero. *)
Definition ws_len (l : bytes) : nat :=
  match map byte_val (take 3 l) with
  | a :: rest =>
      if in_range 9 13 a || (a =? 32) then 1%nat
      else match rest with
      | b :: rest =>
          if (a =? 194) && is_whitespace b then 2%nat
          else match rest with
          | [c] => if in_range 224 239 a && is_whitespace ((a - 224) * 4096 + (b - 128) * 64 + (c - 128))
                   then 3%nat else 0%nat
          | _ => 0%nat
          end
      | [] => 0%nat
      end
  | [] => 0%nat
  end.

Fixpoint skip_whitespace (fuel : nat) (l : bytes) : bytes :=
  match fuel, ws_len l with
  | S fuel, S n => skip_whitespace fuel (drop (S n) l)
  | _, _ => l
  end.

Fixpoint all_whitespace (fuel : nat) (l : bytes) : bool :=
  match l, fuel with
  | [], _ => true
  | _, S fuel => match ws_len l with S n => all_whitespace fuel (drop (S n) l) | O => false end
  | _, O => false
  end.
Fixpoint trim_end (l : bytes) : bytes :=
  match l with
  | [] => []
  | b :: r => if all_whitespace (length l) l then [] else b :: trim_end r
  end.
(** [str::trim], on bytes *)
Definition trim (l : bytes) : bytes := trim_end (skip_whitespace (length l) l).

(** The first occurrence of a pattern: what comes before it, and after *)
Fixpoint split_first (pattern l : bytes) : option (bytes * bytes) :=
  if bytes_prefix pattern l then Some ([], drop (length pattern) l)
  else match l with
       | [] => None
       | b :: l => p ← split_first pattern l; Some (b :: p.1, p.2)
       end.

Fixpoint split_all (fuel : nat) (pattern l : bytes) : list bytes :=
  match split_first pattern l, fuel with
  | Some (piece, rest), S fuel => piece :: split_all fuel pattern rest
  | _, _ => [l]
  end.
(** [str::split] on a non-empty pattern *)
Definition split_str (pattern l : bytes) : list bytes := split_all (length l) pattern l.

(** [str::eq_ignore_ascii_case] *)
Definition eq_ignore_ascii_case (a b : bytes) : bool := bool_decide (map ascii_lower a = map ascii_lower b).

(** [from_str_radix] and [parse] of an unsigned integer of at most [m]: a leading plus sign
    is accepted, and at least one digit is needed *)
Definition parse_digit (radix : Z) (b : byte) : option Z :=
  let v := byte_val b in
  let d := if in_range 48 57 v then v - 48
           else if in_range 97 122 v then v - 87
           else if in_range 65 90 v then v - 55
           else radix in
  if d <? radix then Some d else None.
Definition parse_digits (radix m : Z) (l : bytes) : option Z :=
  match l with
  | [] => None
  | _ => foldl (fun acc b => a ← acc; d ← parse_digit radix b; checked_add m (a * radix) d) (Some 0) l
  end.
Definition parse_uint (radix m : Z) (l : bytes) : option Z :=
  match l with
  | x2b :: rest => parse_digits radix m rest
  | _ => parse_digits radix m l
  end.

Lemma parse_digit_range radix b d : parse_digit radix b = Some d -> 0 <= d < radix.
Proof.
  unfold parse_digit. pose proof (byte_val_range b). unfold in_range.
  destruct (_ <? radix) eqn:E; [|done]. intros [= <-]. split_bools. repeat case_match; split_bools; lia.
Qed.

Lemma parse_digits_range radix m l v : 0 <= m -> parse_digits radix m l = Some v -> 0 <= v <= m.
Proof.
  intros Hm. unfold parse_digits. destruct l as [|b0 l0]; [done|]. generalize (b0 :: l0). clear b0 l0. intros l.
  assert (forall acc, (forall a, acc = Some a -> 0 <= a <= m) ->
    foldl (fun acc b => a ← acc; d ← parse_digit radix b; checked_add m (a * radix) d) acc l = Some v -> 0 <= v <= m) as H.
  { induction l as [|b l IH]; intros acc Hacc; [exact (Hacc v)|]. cbn [foldl]. apply IH.
    intros a. destruct acc as [a0|]; [|done]. cbn. destruct (parse_digit radix b) as [d|] eqn:Ed; [|done]. cbn.
    apply parse_digit_range in Ed. specialize (Hacc a0 eq_refl). unfold checked_add. case_match; [|done].
    intros [= <-]. split_bools. nia. }
  apply H. intros a [= <-]. lia.
Qed.

Lemma parse_uint_range radix m l v : 0 <= m -> parse_uint radix m l = Some v -> 0 <= v <= m.
Proof. intros Hm. unfold parse_uint. destruct l as [|[] l]; by apply parse_digits_range. Qed.

(** ** [std::net] *)

(** [std::net::IpAddr], the address as a number *)
Inductive IpAddr := V4 (a : Z) | V6 (a : Z).

#[export] Instance IpAddr_eq_dec : EqDecision IpAddr.
Proof. solve_decision. Defined.
#[export] Instance IpAddr_countable : Countable IpAddr.
Proof.
  refine (inj_countable' (fun i => match i with V4 a => inl a | V6 a => inr a end)
    (fun s => match s with inl a => V4 a | inr a => V6 a end) _).
  by intros [].
Defined.

(** [IpAddr::is_loopback]: 127.0.0.0/8 and ::1 *)
Definition is_loopback (ip : IpAddr) : bool :=
  match ip with V4 a => Z.shiftr a 24 =? 127 | V6 a => a =? 1 end.

(** A decimal octet: one to three digits, no leading zero, at most 255. *)
Definition parse_octet (l : bytes) : option Z :=
  if forallb is_ascii_digit l && in_range 1 3 (zlen l)
     && (bool_decide (l = [x30]) || negb (bool_decide (head l = Some x30))) then
    let v := fold_left (fun a b => a * 10 + (byte_val b - 48)) l 0 in
    if v <=? 255 then Some v else None
  else None.

Definition parse_ipv4 (l : bytes) : option Z :=
  match split_on x2e l with
  | [a; b; c; d] =>
      a ← parse_octet a; b ← parse_octet b; c ← parse_octet c; d ← parse_octet d;
      Some (((a * 256 + b) * 256 + c) * 256 + d)
  | _ => None
  end.

(** A group of an IPv6 address: one to four hexadecimal digits. *)
Definition hex_digit_value (b : byte) : option Z :=
  let v := byte_val b in
  if in_range 48 57 v then Some (v - 48)
  else if in_range 97 102 v then Some (v - 87)
  else if in_range 65 70 v then Some (v - 55)
  else None.
Definition parse_group (l : bytes) : option Z :=
  if in_range 1 4 (zlen l) then
    fold_left (fun a b => a ← a; d ← hex_digit_value b; Some (a * 16 + d)) l (Some 0)
  else None.

(** The groups of one side of an IPv6 address; an IPv4 address may stand for the last two
    when [tail]. *)
Fixpoint parse_groups (tail : bool) (pieces : list bytes) : option (list Z) :=
  match pieces with
  | [] => Some []
  | [p] =>
      match (if tail then parse_ipv4 p else None) with
      | Some v => Some [Z.shiftr v 16; Z.land v 65535]
      | None => g ← parse_group p; Some [g]
      end
  | p :: pieces => g ← parse_group p; gs ← parse_groups tail pieces; Some (g :: gs)
  end.

(** Split at the first double colon. *)
Fixpoint split_double_colon (l : bytes) : option (bytes * bytes) :=
  match l with
  | x3a :: x3a :: r => Some ([], r)
  | b :: r => p ← split_double_colon r; Some (b :: p.1, p.2)
  | [] => None
  end.

Definition side (tail : bool) (l : bytes) : option (list Z) :=
  match l with [] => Some [] | _ => parse_groups tail (split_on x3a l) end.

Definition parse_ipv6 (l : bytes) : option Z :=
  groups ←
    match split_double_colon l with
    | Some (h, t) =>
        h ← side false h; t ← side true t;
        if (length h + length t <=? 7)%nat
        then Some (h ++ replicate (8 - length h - length t) 0 ++ t) else None
    | None => gs ← side true l; if (length gs =? 8)%nat then Some gs else None
    end;
  Some (fold_left (fun a g => a * 65536 + g) groups 0).

(** [str::parse::<IpAddr>()] *)
Definition parse_ip (s : string) : option IpAddr :=
  match parse_ipv4 (as_bytes s) with
  | Some a => Some (V4 a)
  | None => V6 <$> parse_ipv6 (as_bytes s)
  end.

(** A bracketed host is not an address text. *)
Lemma split_on_bracket sep l :
  sep <> x5b -> exists h t, split_on sep (x5b :: l) = (x5b :: h) :: t.
Proof.
  intros Hs. cbn [split_on]. assert (Byte.eqb x5b sep = false) as ->.
  { destruct (Byte.eqb x5b sep) eqn:E; [|done]. by apply byte_dec_bl in E. }
  destruct (split_on sep l); eauto.
Qed.

Lemma parse_group_bracket h : parse_group (x5b :: h) = None.
Proof.
  unfold parse_group. destruct (in_range _ _ _); [|done]. cbn.
  induction h as [|b h IH]; [done|]. cbn. done.
Qed.

Lemma parse_ipv4_bracket l : parse_ipv4 (x5b :: l) = None.
Proof.
  unfold parse_ipv4. destruct (split_on_bracket x2e l) as (h & t & ->); [done|].
  do 4 (destruct t as [|? t]; [done|]). by destruct t.
Qed.

Lemma side_bracket tail l : side tail (x5b :: l) = None.
Proof.
  unfold side. destruct (split_on_bracket x3a l) as (h & t & ->); [done|]. cbn [parse_groups].
  rewrite parse_group_bracket, parse_ipv4_bracket. by destruct tail, t.
Qed.

Lemma parse_ip_bracket t : parse_ip (String "[" t) = None.
Proof.
  unfold parse_ip. change (as_bytes (String "[" t)) with (x5b :: as_bytes t).
  rewrite parse_ipv4_bracket. unfold parse_ipv6. cbn [split_double_colon].
  destruct (split_double_colon (as_bytes t)) as [[h r]|]; cbn [mbind option_bind fst snd];
    by rewrite side_bracket.
Qed.

(** ** Ordering: [String] compares by bytes *)

Fixpoint bytes_leb (a b : bytes) : bool :=
  match a, b with
  | [], _ => true
  | _ :: _, [] => false
  | x :: a, y :: b => (byte_val x <? byte_val y) || ((byte_val x =? byte_val y) && bytes_leb a b)
  end.
Definition string_le (s t : string) : Prop := bytes_leb (as_bytes s) (as_bytes t) = true.
#[export] Instance string_le_dec : RelDecision string_le.
Proof. intros s t. unfold string_le. apply _. Defined.

Lemma bytes_leb_refl a : bytes_leb a a = true.
Proof. induction a as [|x a IH]; [done|]. cbn. rewrite IH, Z.eqb_refl. by rewrite orb_true_r. Qed.
Lemma bytes_leb_total a b : bytes_leb a b = true \/ bytes_leb b a = true.
Proof.
  revert b. induction a as [|x a IH]; intros [|y b]; [by left|by left|by right|]. cbn.
  destruct (Z.lt_trichotomy (byte_val x) (byte_val y)) as [?|[->|?]]; [left; lia| |right; lia].
  rewrite Z.eqb_refl, Z.ltb_irrefl. apply IH.
Qed.
Lemma bytes_leb_trans a b c : bytes_leb a b = true -> bytes_leb b c = true -> bytes_leb a c = true.
Proof.
  revert b c. induction a as [|x a IH]; intros [|y b] [|z c]; try done. cbn. intros H1 H2.
  apply orb_true_iff in H1, H2. apply orb_true_iff.
  destruct H1 as [H1|[H1 H3]%andb_true_iff], H2 as [H2|[H2 H4]%andb_true_iff]; try (left; lia).
  right. rewrite (IH b c) by done. lia.
Qed.
Lemma bytes_leb_antisym a b : bytes_leb a b = true -> bytes_leb b a = true -> a = b.
Proof.
  revert b. induction a as [|x a IH]; intros [|y b]; try done. cbn. intros H1 H2.
  apply orb_true_iff in H1, H2. rewrite !andb_true_iff in H1, H2.
  assert (byte_val x = byte_val y) as E by lia. apply byte_val_inj in E as ->. f_equal. apply IH; [destruct H1 as [?|[? ?]] | destruct H2 as [?|[? ?]]]; done || lia.
Qed.

#[export] Instance string_le_total : Total string_le.
Proof. intros s t. apply bytes_leb_total. Qed.
#[export] Instance string_le_trans : Transitive string_le.
Proof. intros s t u. apply bytes_leb_trans. Qed.
#[export] Instance string_le_refl : Reflexive string_le.
Proof. intros s. apply bytes_leb_refl. Qed.
#[export] Instance string_le_antisym : AntiSymm eq string_le.
Proof. intros s t H1 H2. apply as_bytes_inj. by apply bytes_leb_antisym. Qed.

(** [Vec<String>::sort] *)
Definition sort_strings (l : list string) : list string := merge_sort string_le l.

(** ** Formatting *)

(** [{n}] in a format string, for an unsigned integer *)
Definition show (z : Z) : string := pretty z.

Definition nl : byte := x0a.
Definition cr : byte := x0d.

(** What is formatted is decimal digits, which parse back. *)
Lemma pretty_N_char_byte x : (x < 10)%N -> byte_val (byte_of_ascii (pretty_N_char x)) = 48 + Z.of_N x.
Proof.
  intros Hx. assert (x = 0 \/ x = 1 \/ x = 2 \/ x = 3 \/ x = 4 \/ x = 5 \/ x = 6 \/ x = 7 \/ x = 8 \/ x = 9)%N as H by lia.
  repeat (destruct H as [->|H]; [reflexivity|]). by subst.
Qed.

Lemma parse_digit_decimal b d : byte_val b = 48 + d -> 0 <= d < 10 -> parse_digit 10 b = Some d.
Proof.
  intros Hb Hd. unfold parse_digit, in_range. rewrite Hb.
  rewrite (proj2 (Z.leb_le 48 _)), (proj2 (Z.leb_le _ 57)) by lia. cbn [andb].
  replace (48 + d - 48) with d by lia. by rewrite (proj2 (Z.ltb_lt _ _)) by lia.
Qed.

Section Show.
Variable m : Z.
Let step (acc : option Z) (b : byte) : option Z := a ← acc; d ← parse_digit 10 b; checked_add m (a * 10) d.

Lemma fold_pretty_N_go x s : Z.of_N x <= m ->
  foldl step (Some 0) (as_bytes (pretty_N_go x s)) = foldl step (Some (Z.of_N x)) (as_bytes s).
Proof.
  revert s. induction (N.lt_wf_0 x) as [x _ IH]. intros s Hm. destruct (decide (x = 0)%N) as [->|Hx]; [done|].
  rewrite pretty_N_go_step by lia.
  pose proof (N.div_lt x 10 ltac:(lia) ltac:(lia)). pose proof (N.mod_lt x 10 ltac:(done)).
  rewrite IH by lia. unfold as_bytes, list_byte_of_string. cbn [list_ascii_of_string map foldl]. f_equal. unfold step at 1. cbn [mbind option_bind].
  rewrite (parse_digit_decimal _ (Z.of_N (x mod 10)%N)); [|by apply pretty_N_char_byte | split; [apply N2Z.is_nonneg | by apply (N2Z.inj_lt _ 10)]].
  cbn [mbind option_bind]. unfold checked_add.
  assert (Z.of_N (x `div` 10)%N * 10 + Z.of_N (x mod 10)%N = Z.of_N x) as -> by (pose proof (N.div_mod x 10 ltac:(done)); lia).
  by rewrite (proj2 (Z.leb_le _ _)).
Qed.

Lemma pretty_N_go_digits x s :
  forallb is_ascii_digit (as_bytes s) = true -> forallb is_ascii_digit (as_bytes (pretty_N_go x s)) = true.
Proof.
  revert s. induction (N.lt_wf_0 x) as [x _ IH]. intros s Hs. destruct (decide (x = 0)%N) as [->|Hx]; [done|].
  rewrite pretty_N_go_step by lia. apply IH; [apply N.div_lt; lia|].
  unfold as_bytes, list_byte_of_string. cbn [list_ascii_of_string map forallb]. apply andb_true_iff. split; [|exact Hs].
  unfold is_ascii_digit, in_range. pose proof (N.mod_lt x 10 ltac:(done)) as Hd.
  rewrite pretty_N_char_byte by done. revert Hd. generalize (x `mod` 10)%N. lia.
Qed.

Lemma pretty_N_go_length k x s : (x < 10 ^ N.of_nat k)%N -> (String.length (pretty_N_go x s) <= k + String.length s)%nat.
Proof.
  revert x s. induction k as [|k IH]; intros x s Hx.
  - assert (x = 0)%N as -> by (cbn in Hx; lia). done.
  - destruct (decide (x = 0)%N) as [->|Hne]; [rewrite pretty_N_go_0; lia|]. rewrite pretty_N_go_step by lia. etrans.
    + apply IH. apply N.Div0.div_lt_upper_bound. rewrite Nat2N.inj_succ, N.pow_succ_r' in Hx. lia.
    + cbn. lia.
Qed.

Lemma pretty_N_go_nonempty x s : s <> ""%string -> pretty_N_go x s <> ""%string.
Proof.
  revert s. induction (N.lt_wf_0 x) as [x _ IH]. intros s Hs. destruct (decide (x = 0)%N) as [->|Hx]; [done|].
  rewrite pretty_N_go_step by lia. apply IH; [apply N.div_lt; lia | done].
Qed.
End Show.

Lemma show_go z : 0 < z -> exists s, s <> ""%string /\ show z = s /\ s = pretty_N_go (Z.to_N z) "".
Proof.
  intros Hz. exists (pretty_N_go (Z.to_N z) ""). split; [|split; [|done]].
  - rewrite pretty_N_go_step by lia. by apply pretty_N_go_nonempty.
  - unfold show, pretty, pretty_Z. destruct z as [|p|p]; [lia| |lia]. reflexivity.
Qed.

Lemma parse_show m z : 0 <= z <= m -> parse_uint 10 m (as_bytes (show z)) = Some z.
Proof.
  intros Hz. assert (parse_digits 10 m (as_bytes (show z)) = Some z) as Hp.
  { destruct (decide (z = 0)) as [->|Hne]; [vm_compute; destruct m; done || lia|].
    destruct (show_go z ltac:(lia)) as (s & Hs & -> & E). unfold parse_digits.
    destruct (as_bytes s) as [|b l] eqn:Eb; [by apply as_bytes_nil in Eb|]. rewrite <- Eb, E.
    rewrite fold_pretty_N_go by lia. cbn. f_equal. lia. }
  unfold parse_uint. destruct (as_bytes (show z)) as [|[] l] eqn:E; try exact Hp.
  exfalso. assert (forallb is_ascii_digit (as_bytes (show z)) = true) as Hd; [|by rewrite E in Hd].
  destruct (decide (z = 0)) as [->|Hne]; [done|]. destruct (show_go z ltac:(lia)) as (s & _ & -> & ->). by apply pretty_N_go_digits.
Qed.

Lemma show_digits z : 0 <= z -> forallb is_ascii_digit (as_bytes (show z)) = true /\ as_bytes (show z) <> [].
Proof.
  intros Hz. destruct (decide (z = 0)) as [->|Hne]; [done|]. destruct (show_go z ltac:(lia)) as (s & Hs & -> & E).
  split; [rewrite E; by apply pretty_N_go_digits | intros ?%as_bytes_nil; done].
Qed.

Lemma show_length (k : nat) z : 0 <= z < 10 ^ Z.of_nat k -> (1 <= k)%nat -> slen (show z) <= Z.of_nat k.
Proof.
  intros Hz Hk. destruct (decide (z = 0)) as [->|Hne]; [change (slen (show 0)) with 1; lia|].
  destruct (show_go z ltac:(lia)) as (s & Hs & -> & ->). unfold slen. apply inj_le. etrans; [apply (pretty_N_go_length k)|cbn; lia].
  apply N2Z.inj_lt. rewrite N2Z.inj_pow, Z2N.id, nat_N_Z by lia. cbn [Z.of_N]. lia.
Qed.
