(* ===== verification/BTree.v ===== *)
(** * [BTreeMap<String, V>]

    An ordered map as the list of its entries in ascending key order, which is the
    order the source iterates and serialises in. *)

From Stdlib Require Import String.
From S2P Require Import Prelude RustStd.

Definition string_lt (s t : string) : Prop := string_le s t /\ s <> t.
#[export] Instance string_lt_dec : RelDecision string_lt.
Proof. intros s t. unfold string_lt. apply _. Defined.
#[export] Instance string_lt_trans : Transitive string_lt.
Proof.
  intros s t u [H1 N1] [H2 N2]. split; [by etrans|]. intros ->. apply N1. by apply (anti_symm string_le).
Qed.
Lemma string_lt_irrefl s : ~ string_lt s s.
Proof. by intros [_ ?]. Qed.
Lemma string_lt_total s t : string_lt s t \/ s = t \/ string_lt t s.
Proof.
  destruct (decide (s = t)); [by right; left|].
  destruct (total string_le s t); [left | right; right]; by split.
Qed.

Abbreviation BTreeMap V := (list (string * V)).

Section BTree.
Context {V : Type}.
Implicit Types (m : BTreeMap V) (k : string) (v : V).

Fixpoint bt_get k m : option V :=
  match m with
  | [] => None
  | (k', v) :: m => if decide (k = k') then Some v else bt_get k m
  end.

(** [insert], which replaces the value of a key the map holds *)
Fixpoint bt_insert k v m : BTreeMap V :=
  match m with
  | [] => [(k, v)]
  | (k', v') :: m' =>
      if decide (k = k') then (k, v) :: m'
      else if decide (string_le k k') then (k, v) :: m else (k', v') :: bt_insert k v m'
  end.

Fixpoint bt_remove k m : BTreeMap V :=
  match m with
  | [] => []
  | (k', v) :: m => if decide (k = k') then m else (k', v) :: bt_remove k m
  end.

Definition bt_values m : list V := m.*2.

(** Keys in strictly ascending order: what every map of the source satisfies. *)
Definition bt_sorted m : Prop := StronglySorted (fun a b => string_lt a.1 b.1) m.

Lemma bt_get_in k v m : bt_get k m = Some v -> (k, v) ∈ m.
Proof.
  induction m as [|[k' v'] m IH]; [done|]. cbn [bt_get]. case_decide; [intros [= ->]; subst; left|].
  intros Hg. right. by apply IH.
Qed.

Lemma bt_get_none k m : bt_get k m = None <-> k ∉ m.*1.
Proof.
  induction m as [|[k' v'] m IH]; cbn [bt_get fmap list_fmap fst]; [split; [intros _ H; by apply elem_of_nil in H|done]|].
  rewrite not_elem_of_cons. case_decide; [split; [done | intros [? _]; done]|]. rewrite IH. tauto.
Qed.

Lemma bt_insert_elem k v m x : x ∈ bt_insert k v m -> x = (k, v) \/ x ∈ m.
Proof.
  induction m as [|[k' v'] m IH]; cbn [bt_insert].
  - intros ?%list_elem_of_singleton. by left.
  - repeat case_decide; rewrite !elem_of_cons; tauto || (intros [?|?%IH]; tauto).
Qed.

Lemma bt_insert_sorted k v m : bt_sorted m -> bt_sorted (bt_insert k v m).
Proof.
  unfold bt_sorted. induction 1 as [|[k' v'] m Hs IH Hf]; cbn [bt_insert]; [repeat constructor|].
  rewrite Forall_forall in Hf. repeat case_decide; subst.
  - constructor; [done|]. by apply Forall_forall.
  - assert (string_lt k k') as Hk by (by split). constructor; [constructor; [done|by apply Forall_forall]|].
    constructor; [done|]. apply Forall_forall. intros x Hx. by etrans; [exact Hk | apply (Hf x)].
  - constructor; [done|]. apply Forall_forall. intros x [->|Hx]%bt_insert_elem; [|by apply Hf].
    cbn. destruct (string_lt_total k' k) as [?|[?|[? ?]]]; [done | by subst | done].
Qed.

Lemma bt_get_insert k k' v m :
  bt_sorted m -> bt_get k' (bt_insert k v m) = if decide (k' = k) then Some v else bt_get k' m.
Proof.
  unfold bt_sorted. induction 1 as [|[k1 v1] m Hs IH Hf]; cbn [bt_insert bt_get]; [done|].
  destruct (decide (k = k1)) as [->|N]; cbn [bt_get]; [by repeat case_decide|].
  destruct (decide (string_le k k1)); cbn [bt_get]; [by repeat case_decide|]. rewrite IH.
  repeat case_decide; congruence.
Qed.

Lemma bt_insert_get k v m : bt_sorted m -> bt_get k m = Some v -> bt_insert k v m = m.
Proof.
  unfold bt_sorted. induction 1 as [|[k1 v1] m Hs IH Hf]; cbn [bt_insert bt_get]; [done|].
  rewrite Forall_forall in Hf. case_decide; [intros [= ->]; by subst|]. intros Hg.
  destruct (decide (string_le k k1)) as [Hle|]; [|by rewrite IH].
  apply bt_get_in, Hf in Hg as [H1 _]. cbn in H1. by destruct (anti_symm string_le k k1 Hle H1).
Qed.

(** Undoing an insertion, as the source does when the result is too large to persist *)
Lemma bt_insert_undo k v v' m :
  bt_sorted m -> bt_get k m = Some v -> bt_insert k v (bt_insert k v' m) = m.
Proof.
  unfold bt_sorted. induction 1 as [|[k1 v1] m Hs IH Hf]; cbn [bt_insert bt_get]; [done|].
  rewrite Forall_forall in Hf. destruct (decide (k = k1)) as [->|N].
  - intros [= ->]. cbn [bt_insert]. by rewrite decide_True.
  - intros H. destruct (decide (string_le k k1)) as [Hle|Hle]; cbn [bt_insert].
    + apply bt_get_in, Hf in H as [H1 _]. cbn in H1. by destruct (anti_symm string_le k k1 Hle H1).
    + rewrite decide_False, decide_False by done. by rewrite IH.
Qed.

Lemma bt_remove_insert k v m :
  bt_get k m = None -> bt_remove k (bt_insert k v m) = m.
Proof.
  induction m as [|[k1 v1] m IH]; cbn [bt_insert bt_get]; [by cbn [bt_remove]; rewrite decide_True|].
  destruct (decide (k = k1)) as [->|N]; [done|]. intros H.
  destruct (decide (string_le k k1)); cbn [bt_remove].
  - by rewrite decide_True.
  - rewrite decide_False by done. by rewrite IH.
Qed.

Lemma bt_remove_sorted k m : bt_sorted m -> bt_sorted (bt_remove k m).
Proof.
  unfold bt_sorted. induction 1 as [|[k1 v1] m Hs IH Hf]; cbn [bt_remove]; [constructor|].
  case_decide; [done|]. constructor; [done|]. apply Forall_forall. intros x Hx. rewrite Forall_forall in Hf. apply Hf.
  clear -Hx. induction m as [|[k2 v2] m IH]; cbn [bt_remove] in Hx; [by apply elem_of_nil in Hx|].
  case_decide; [by right|]. apply elem_of_cons in Hx as [->|Hx]; [left | right; by apply IH].
Qed.

Lemma bt_insert_nonempty k v m : bt_insert k v m <> [].
Proof. destruct m as [|[k' v'] m]; cbn [bt_insert]; [done|]. repeat case_decide; discriminate. Qed.

Lemma bt_sorted_nil : bt_sorted [].
Proof. constructor. Qed.

Lemma bt_sorted_keys m : bt_sorted m -> NoDup m.*1.
Proof.
  unfold bt_sorted. induction 1 as [|[k v] m Hs IH Hf]; cbn; constructor; [|done].
  intros ([k' v'] & -> & Hin)%list_elem_of_fmap. rewrite Forall_forall in Hf.
  apply Hf in Hin. by apply string_lt_irrefl in Hin.
Qed.

Lemma bt_in_get k v m : bt_sorted m -> (k, v) ∈ m -> bt_get k m = Some v.
Proof.
  intros Hs Hin. apply bt_sorted_keys in Hs. induction m as [|[k1 v1] m IH]; [by apply elem_of_nil in Hin|].
  cbn in Hs. apply NoDup_cons in Hs as [Hk Hn]. cbn [bt_get].
  apply elem_of_cons in Hin as [[= -> ->]|Hin]; [by rewrite decide_True|].
  rewrite decide_False; [by apply IH|]. intros ->. apply Hk. apply list_elem_of_fmap. by exists (k1, v).
Qed.

(** Inserting the entries of a map in order rebuilds it. *)
Lemma bt_insert_snoc k v m : Forall (fun e => string_lt e.1 k) m -> bt_insert k v m = m ++ [(k, v)].
Proof.
  induction 1 as [|[k1 v1] m [H1 H2] Hf IH]; [done|]. cbn [bt_insert app]. cbn in H1, H2.
  rewrite decide_False by done. rewrite decide_False; [by rewrite IH|].
  intros H3. by destruct (anti_symm string_le k1 k H1 H3).
Qed.

Lemma bt_sorted_snoc m k v : bt_sorted (m ++ [(k, v)]) -> bt_insert k v m = m ++ [(k, v)] /\ bt_get k m = None.
Proof.
  intros Hs. assert (Forall (fun e => string_lt e.1 k) m) as Hf.
  { unfold bt_sorted in Hs. induction m as [|e m IH]; [constructor|].
    cbn in Hs. apply StronglySorted_inv in Hs as [Hs He]. constructor; [|by apply IH].
    rewrite Forall_app in He. destruct He as [_ He]. by inversion He. }
  split; [by apply bt_insert_snoc|]. apply bt_get_none. intros ([k' v'] & -> & Hin)%list_elem_of_fmap.
  rewrite Forall_forall in Hf. apply Hf in Hin. by apply string_lt_irrefl in Hin.
Qed.

Lemma bt_length_insert k v m :
  bt_sorted m -> length (bt_insert k v m) = match bt_get k m with Some _ => length m | None => S (length m) end.
Proof.
  unfold bt_sorted. induction 1 as [|[k1 v1] m Hs IH Hf]; cbn [bt_insert bt_get]; [done|].
  case_decide; [done|]. case_decide as Hle; [|cbn [length]; rewrite IH; by destruct (bt_get k m)].
  destruct (bt_get k m) eqn:E; [|done]. apply bt_get_in in E. rewrite Forall_forall in Hf. apply Hf in E as [E _].
  cbn in E. by destruct (anti_symm string_le k k1 Hle E).
Qed.
End BTree.

#[export] Hint Resolve bt_sorted_nil bt_insert_sorted bt_remove_sorted : omachat.
