(* ===== verification/Libs.v ===== *)
(** * Third-party crates, as interfaces

    The sources call crates whose code is not in the repository. Each is a type
    class of operations, and a second class states the documented behaviour the
    sources rely on. Every component is written against these classes; [Concrete]
    builds instances that satisfy all of them. *)

From Stdlib Require Import Strings.Byte Ascii String.
From S2P Require Import Prelude RustStd.
Local Open Scope Z_scope.

(** ** [hex] *)

Class Hex := {
  hex_encode : bytes -> string;
  hex_decode : string -> option bytes
}.

Definition is_lower_hex (s : string) : bool := bytes_all is_lower_hex_byte s.

Class HexLaws `{Hex} : Prop := {
  hex_encode_length b : slen (hex_encode b) = 2 * zlen b;
  hex_encode_lower b : is_lower_hex (hex_encode b) = true;
  hex_decode_encode b : hex_decode (hex_encode b) = Some b;
  hex_decode_length s b : hex_decode s = Some b -> slen s = 2 * zlen b;
  hex_decode_lower s n :
    is_lower_hex s = true -> slen s = 2 * n ->
    exists b, hex_decode s = Some b /\ hex_encode b = s
}.

(** [hex::decode_to_slice] into an array of [n] bytes *)
Definition hex_decode_to_slice `{Hex} (n : Z) (s : string) : option bytes :=
  match hex_decode s with
  | Some b => if zlen b =? n then Some b else None
  | None => None
  end.

Section HexFacts.
Context `{hex_laws : HexLaws}.

Lemma hex_encode_inj b1 b2 : hex_encode b1 = hex_encode b2 -> b1 = b2.
Proof using Type*.
  intros E. pose proof (hex_decode_encode b1) as E1.
  rewrite E, hex_decode_encode in E1. congruence.
Qed.

Lemma hex_decode_to_slice_encode b n :
  zlen b = n -> hex_decode_to_slice n (hex_encode b) = Some b.
Proof using Type*.
  intros <-. unfold hex_decode_to_slice. by rewrite hex_decode_encode, Z.eqb_refl.
Qed.

Lemma hex_decode_to_slice_inv n s b :
  hex_decode_to_slice n s = Some b -> hex_decode s = Some b /\ zlen b = n.
Proof using Type*.
  unfold hex_decode_to_slice. destruct (hex_decode s); [|done].
  case_match; [|done]. intros [= <-]. split_bools. done.
Qed.

Lemma hex_decode_to_slice_lower n s :
  is_lower_hex s = true -> slen s = 2 * n ->
  exists b, hex_decode_to_slice n s = Some b /\ hex_encode b = s /\ zlen b = n.
Proof using Type*.
  intros Hl Hn. destruct (hex_decode_lower s n Hl Hn) as (b & Hd & He).
  assert (zlen b = n) by (apply hex_decode_length in Hd; lia).
  exists b. unfold hex_decode_to_slice. rewrite Hd, (proj2 (Z.eqb_eq _ _)); auto.
Qed.
End HexFacts.

(** ** [serde_json]

    A JSON text is parsed to its syntax tree, in which object members keep their
    order and duplicates; typed (de)serialisation is written over the tree by the
    components that derive it. *)

#[warnings="-register-all"]
Inductive Value : Type :=
| JNull
| JBool (b : bool)
| JInt (z : Z)
| JFloat (lexeme : string)
| JString (s : string)
| JArray (items : list Value)
| JObject (members : list (string * Value)).

Section ValueInd.
Variable P : Value -> Prop.
Hypothesis HNull : P JNull.
Hypothesis HBool : forall b, P (JBool b).
Hypothesis HInt : forall z, P (JInt z).
Hypothesis HFloat : forall l, P (JFloat l).
Hypothesis HString : forall s, P (JString s).
Hypothesis HArray : forall l, Forall P l -> P (JArray l).
Hypothesis HObject : forall m, Forall (fun kv => P kv.2) m -> P (JObject m).

Fixpoint Value_nested_ind (v : Value) : P v :=
  match v with
  | JNull => HNull
  | JBool b => HBool b
  | JInt z => HInt z
  | JFloat l => HFloat l
  | JString s => HString s
  | JArray l =>
      HArray l ((fix go l : Forall P l :=
        match l with
        | [] => Forall_nil_2 _
        | v :: l => Forall_cons_2 _ _ _ (Value_nested_ind v) (go l)
        end) l)
  | JObject m =>
      HObject m ((fix go m : Forall (fun kv => P kv.2) m :=
        match m with
        | [] => Forall_nil_2 _
        | kv :: m => Forall_cons_2 _ _ _ (Value_nested_ind kv.2) (go m)
        end) m)
  end.
End ValueInd.

(** [PartialEq for Value]: a map is kept in key order, so equality is that of the trees. *)
#[export] Instance Value_eq_dec : EqDecision Value.
Proof.
  refine (fix go (v w : Value) {struct v} : Decision (v = w) :=
    match v, w with
    | JNull, JNull => left eq_refl
    | JBool a, JBool b => cast_if (decide (a = b))
    | JInt a, JInt b => cast_if (decide (a = b))
    | JFloat a, JFloat b => cast_if (decide (a = b))
    | JString a, JString b => cast_if (decide (a = b))
    | JArray a, JArray b => cast_if (List.list_eq_dec go a b)
    | JObject a, JObject b => cast_if (List.list_eq_dec (fun x y => match x, y with (k, v), (k', w) =>
         match decide (k = k') with left _ => match go v w with left _ => left _ | right _ => right _ end | right _ => right _ end end) a b)
    | _, _ => right _
    end); abstract congruence.
Defined.

(** The trees the sources print: integers of at most 64 bits, valid UTF-8, no floats. *)
Fixpoint json_wf (v : Value) : bool :=
  match v with
  | JNull | JBool _ => true
  | JInt z => (- i64_max - 1 <=? z) && (z <=? u64_max)
  | JFloat _ => false
  | JString s => utf8_valid s
  | JArray l => forallb json_wf l
  | JObject m => forallb (fun kv => utf8_valid kv.1 && json_wf kv.2) m
  end.

Class Json := {
  json_to_vec : Value -> bytes;
  json_from_slice : bytes -> option Value
}.

(** The laws are used on the trees the sources print, which nest a few levels; the depth of
    128 at which the parser gives up is not reached. *)
Class JsonLaws `{Json} : Prop := {
  json_roundtrip v : json_wf v = true -> json_from_slice (json_to_vec v) = Some v;
  json_to_vec_utf8 v : json_wf v = true -> utf8_valid (of_bytes (json_to_vec v)) = true;
  json_to_vec_nonempty v : 0 < zlen (json_to_vec v);
  (** compact output: control characters are escaped and there is no white space *)
  json_to_vec_no_control v : forallb (fun b => 31 <? byte_val b) (json_to_vec v) = true;
  (** dropping the last items of an object's array does not lengthen its text *)
  json_array_prefix m k l1 l2 :
    zlen (json_to_vec (JObject (m ++ [(k, JArray l1)]))) <= zlen (json_to_vec (JObject (m ++ [(k, JArray (l1 ++ l2))])))
}.

Lemma json_to_vec_inj `{JsonLaws} v1 v2 :
  json_wf v1 = true -> json_wf v2 = true -> json_to_vec v1 = json_to_vec v2 -> v1 = v2.
Proof.
  intros H1 H2 E. pose proof (json_roundtrip v1 H1) as R.
  rewrite E, json_roundtrip in R by done. congruence.
Qed.

(** ** [base64], the standard alphabet with padding *)

Class Base64 := {
  base64_encode : bytes -> string;
  base64_decode : string -> option bytes
}.

Definition is_base64_byte (b : byte) : bool :=
  is_ascii_alphanumeric b || (byte_val b =? 43) || (byte_val b =? 47) || (byte_val b =? 61).

Class Base64Laws `{Base64} : Prop := {
  base64_roundtrip b : base64_decode (base64_encode b) = Some b;
  base64_encode_length b : slen (base64_encode b) = (zlen b + 2) / 3 * 4;
  base64_encode_alphabet b : bytes_all is_base64_byte (base64_encode b) = true
}.

(** ** [sha2], [k256]: hashing, BIP-340 Schnorr keys and signatures *)

Class Sha256 := { sha256 : bytes -> bytes }.
Class Sha256Laws `{Sha256} : Prop := { sha256_length b : zlen (sha256 b) = 32 }.

Class Schnorr := {
  (** [SigningKey::from_bytes(sk)] and its [verifying_key().to_bytes()] *)
  schnorr_public_key : bytes -> option bytes;
  (** [SigningKey::sign_raw] of a message with auxiliary randomness *)
  schnorr_sign : bytes -> bytes -> bytes -> option bytes;
  (** [VerifyingKey::from_bytes(pk).is_ok()] *)
  schnorr_key_ok : bytes -> bool;
  (** [Signature::try_from(sig).is_ok()] *)
  schnorr_signature_ok : bytes -> bool;
  (** [VerifyingKey::verify_raw] *)
  schnorr_verify : bytes -> bytes -> bytes -> bool
}.

Class SchnorrLaws `{Schnorr} : Prop := {
  schnorr_public_key_length sk pk :
    schnorr_public_key sk = Some pk -> zlen pk = 32;
  schnorr_public_key_ok sk pk :
    schnorr_public_key sk = Some pk -> schnorr_key_ok pk = true;
  schnorr_sign_correct sk pk msg aux sig :
    schnorr_public_key sk = Some pk -> schnorr_sign sk msg aux = Some sig ->
    zlen sig = 64 /\ schnorr_signature_ok sig = true /\ schnorr_verify pk msg sig = true
}.

(** ** [k256], [hkdf], [hmac] and [chacha20], as NIP-44 uses them *)

Class Nip44Crypto := {
  (** [SecretKey::from_slice(sk).is_ok()] *)
  secret_key_ok : bytes -> bool;
  (** [PublicKey::from_sec1_bytes(sec1).is_ok()] *)
  public_key_ok : bytes -> bool;
  (** the x coordinate of the Diffie-Hellman point *)
  ecdh_x : bytes -> bytes -> option bytes;
  (** [Hkdf::<Sha256>::extract(Some(salt), ikm)] *)
  hkdf_extract : bytes -> bytes -> bytes;
  (** [Hkdf::from_prk(prk)] and [expand(info, okm)] with [okm.len()] *)
  hkdf_expand : bytes -> bytes -> Z -> option bytes;
  (** [ChaCha20::new_from_slices(key, iv)] and [apply_keystream(data)] *)
  chacha20 : bytes -> bytes -> bytes -> option bytes;
  (** [Hmac::<Sha256>::new_from_slice(key)] and the tag of a message *)
  hmac_sha256 : bytes -> bytes -> option bytes
}.

Class Nip44CryptoLaws `{Nip44Crypto, Schnorr} : Prop := {
  hkdf_extract_length salt ikm : zlen (hkdf_extract salt ikm) = 32;
  hkdf_expand_ok prk info n :
    zlen prk = 32 -> 0 <= n <= 255 * 32 ->
    exists okm, hkdf_expand prk info n = Some okm /\ zlen okm = n;
  chacha20_ok key iv data :
    zlen key = 32 -> zlen iv = 12 ->
    exists out, chacha20 key iv data = Some out /\ zlen out = zlen data /\
      chacha20 key iv out = Some data;
  hmac_ok key msg : exists tag, hmac_sha256 key msg = Some tag /\ zlen tag = 32;
  (** a BIP-340 key is a NIP-44 key, and the shared point does not depend on the side *)
  schnorr_key_is_secret sk pk : schnorr_public_key sk = Some pk ->
    secret_key_ok sk = true /\ public_key_ok (x02 :: pk) = true;
  ecdh_symmetric sk1 pk1 sk2 pk2 :
    schnorr_public_key sk1 = Some pk1 -> schnorr_public_key sk2 = Some pk2 ->
    exists x, ecdh_x sk1 (x02 :: pk2) = Some x /\ ecdh_x sk2 (x02 :: pk1) = Some x
}.

(** ** [ed25519_dalek]: the device keys of the handle server *)

Class Ed25519 := {
  ed25519_public_key : bytes -> bytes;
  ed25519_sign : bytes -> bytes -> bytes;
  (** [VerifyingKey::from_bytes(pk).is_ok()] *)
  ed25519_key_ok : bytes -> bool;
  (** [VerifyingKey::is_weak] *)
  ed25519_key_weak : bytes -> bool;
  ed25519_verify_strict : bytes -> bytes -> bytes -> bool
}.

Class Ed25519Laws `{Ed25519} : Prop := {
  ed25519_public_key_length seed : zlen (ed25519_public_key seed) = 32;
  ed25519_sign_length seed msg : zlen (ed25519_sign seed msg) = 64;
  ed25519_sign_correct seed msg :
    zlen seed = 32 ->
    ed25519_key_ok (ed25519_public_key seed) = true /\
    ed25519_verify_strict (ed25519_public_key seed) msg (ed25519_sign seed msg) = true
}.

(** ** [bech32] *)

Class Bech32 := {
  (** [bech32::encode::<Bech32>(Hrp::parse(hrp)?, data)] *)
  bech32_encode : string -> bytes -> option string;
  (** [CheckedHrpstring::new::<Bech32>]: the lower-cased prefix and the payload bytes *)
  bech32_decode : string -> option (string * bytes)
}.

Class Bech32Laws `{Bech32} : Prop := {
  (** a short lowercase prefix and at most 32 bytes always encode, within BIP-173's 90
      printable characters, and decode to the same *)
  bech32_roundtrip hrp data :
    bytes_all is_ascii_lowercase hrp = true -> 1 <= slen hrp <= 16 -> zlen data <= 32 ->
    exists s, bech32_encode hrp data = Some s /\ bech32_decode s = Some (hrp, data) /\
      slen s <= 90 /\ bytes_all (fun b => in_range 33 126 (byte_val b)) s = true
}.

(** ** [getrandom]

    [getrandom::fill] draws the next entry of an entropy tape: [None] is a failure,
    and an entry of the wrong size does not fill the buffer. *)

Abbreviation Entropy := (list (option bytes)).

Definition getrandom_fill {E} (unavailable : E) (n : Z) : SE Entropy E bytes := fun tape =>
  match tape with
  | Some b :: rest => (if zlen b =? n then Ok b else Err unavailable, rest)
  | _ :: rest => (Err unavailable, rest)
  | [] => (Err unavailable, [])
  end.

Lemma getrandom_fill_ok {E} (e : E) n tape b tape' :
  getrandom_fill e n tape = (Ok b, tape') -> zlen b = n.
Proof.
  unfold getrandom_fill. destruct tape as [|[x|] tape]; [done | | done].
  case_match; [|done]. intros [= <- _]. by split_bools.
Qed.

(** ** [chacha20poly1305]: [XChaCha20Poly1305] with associated data *)

Class Aead := {
  aead_encrypt : bytes -> bytes -> bytes -> bytes -> option bytes;
  aead_decrypt : bytes -> bytes -> bytes -> bytes -> option bytes
}.

Class AeadLaws `{Aead} : Prop := {
  aead_roundtrip key nonce aad msg ct :
    aead_encrypt key nonce aad msg = Some ct ->
    zlen ct = zlen msg + 16 /\ aead_decrypt key nonce aad ct = Some msg
}.

(** ** [url] *)

Inductive Host : Type :=
| HostDomain (name : string)
| HostIpv4 (address : Z)
| HostIpv6 (address : Z).

Record Url := {
  url_scheme : string;
  url_host : option Host;
  url_host_str : option string;
  url_port : option Z;
  url_port_or_known_default : option Z;
  url_path : string;
  url_username : string;
  url_password : option string;
  url_query : option string;
  url_fragment : option string;
  url_to_string : string
}.

Class UrlLib := {
  url_parse : string -> option Url;
  (** [Url::set_path] *)
  url_set_path : string -> Url -> Url;
  (** [Url::query_pairs_mut().append_pair(name, value)] *)
  url_append_pair : string -> string -> Url -> Url
}.

Class UrlLaws `{UrlLib} : Prop := {
  (** a serialised URL parses to itself *)
  url_reparse s u : url_parse s = Some u -> url_parse (url_to_string u) = Some u;
  (** an absolute URL is not the empty text *)
  url_parse_empty : url_parse "" = None;
  (** the WebSocket schemes have a default port *)
  url_known_port s u : url_parse s = Some u -> (url_scheme u = "ws" \/ url_scheme u = "wss")%string ->
    url_port_or_known_default u <> None;
  (** [host_str] writes an IPv6 host in brackets *)
  url_ipv6_brackets s u a : url_parse s = Some u -> url_host u = Some (HostIpv6 a) ->
    exists t, url_host_str u = Some (String "[" t)
}.
