(* ===== verification/Serde.v ===== *)
(** * Derived (de)serialisation

    What [#[derive(Serialize, Deserialize)]] does for the structs of the sources:
    decoders from JSON trees to the field types, and the object of a struct. *)

From Stdlib Require Import Strings.Byte Ascii String.
From S2P Require Import Prelude RustStd Libs.
Local Open Scope Z_scope.

Definition de_string (v : Value) : option string :=
  match v with JString s => Some s | _ => None end.
Definition de_bool (v : Value) : option bool :=
  match v with JBool b => Some b | _ => None end.
(** An unsigned integer of at most [m]: a JSON float never deserialises to one. *)
Definition de_uint (m : Z) (v : Value) : option Z :=
  match v with JInt z => if in_range 0 m z then Some z else None | _ => None end.
Definition de_vec {A} (f : Value -> option A) (v : Value) : option (list A) :=
  match v with JArray l => mapM f l | _ => None end.

Fixpoint member (k : string) (m : list (string * Value)) : option Value :=
  match m with
  | [] => None
  | (k', v) :: m => if String.eqb k k' then Some v else member k m
  end.

(** The values of a struct's fields, in declaration order. An object must hold every
    field exactly once and, under [deny_unknown_fields], nothing else; an array must
    hold exactly the fields in order. *)
Definition de_struct (deny_unknown : bool) (fields : list string) (v : Value)
  : option (list Value) :=
  match v with
  | JObject m =>
      let known := filter (fun kv => kv.1 ∈ fields) m in
      if (negb deny_unknown || bool_decide (length known = length m))
         && bool_decide (NoDup (fst <$> known)) then
        mapM (fun k => member k known) fields
      else None
  | JArray l => if bool_decide (length l = length fields) then Some l else None
  | _ => None
  end.

Definition ser_strings (l : list string) : Value := JArray (map JString l).

Lemma de_vec_map {A} (f : Value -> option A) (g : A -> Value) l :
  Forall (fun x => f (g x) = Some x) l -> de_vec f (JArray (map g l)) = Some l.
Proof.
  unfold de_vec. intros Hl. apply mapM_Some.
  induction Hl; constructor; auto.
Qed.

Lemma de_vec_strings l : de_vec de_string (ser_strings l) = Some l.
Proof. apply de_vec_map, Forall_true. done. Qed.

Lemma de_uint_int m z : 0 <= z <= m -> de_uint m (JInt z) = Some z.
Proof. intros Hz. simpl. unfold in_range. by rewrite !(proj2 (Z.leb_le _ _)) by lia. Qed.

Lemma json_wf_strings l :
  json_wf (ser_strings l) = forallb utf8_valid l.
Proof. simpl. induction l as [|s l IH]; simpl; [done | by rewrite IH]. Qed.

(** A struct's own object deserialises to its field values. *)
Lemma member_zip fields (vs : list Value) :
  NoDup fields -> length vs = length fields ->
  mapM (fun k => member k (zip fields vs)) fields = Some vs.
Proof.
  intros Hn Hl. apply mapM_Some. revert vs Hl.
  induction fields as [|k fields IH]; intros [|v vs] Hl; try done; simpl in Hl.
  apply NoDup_cons in Hn as [Hk Hn]. simpl. constructor; [by rewrite String.eqb_refl|].
  assert (Forall2 (fun x y => member x (zip fields vs) = Some y) fields vs) as IHf by (apply IH; auto).
  clear IH Hn Hl. revert IHf. generalize (zip fields vs). intros m IHf. induction IHf as [|x y xs ys Hxy _ IH]; constructor.
  - destruct (String.eqb x k) eqn:E; [|done]. apply String.eqb_eq in E. subst. exfalso. apply Hk. left.
  - apply IH. intros Hin. apply Hk. by right.
Qed.

Lemma filter_id {A} (P : A -> Prop) `{forall x, Decision (P x)} (l : list A) :
  (forall x, x ∈ l -> P x) -> filter P l = l.
Proof.
  induction l as [|x l IH]; intros Hl; [done|].
  rewrite filter_cons_True by (apply Hl; left). f_equal. apply IH. intros y Hy. apply Hl. by right.
Qed.

Lemma de_struct_zip deny fields vs :
  NoDup fields -> length vs = length fields ->
  de_struct deny fields (JObject (zip fields vs)) = Some vs.
Proof.
  intros Hn Hl. unfold de_struct.
  assert (filter (fun kv => kv.1 ∈ fields) (zip fields vs) = zip fields vs) as ->.
  { apply filter_id. intros [k v] Hin. simpl. by apply elem_of_zip_l in Hin. }
  rewrite (bool_decide_true (length _ = length _)), orb_true_r by done.
  rewrite bool_decide_true; [by apply member_zip|].
  by rewrite fst_zip by lia.
Qed.
