(* ===== verification/Concrete.v ===== *)
(** * Instances of the third-party interfaces

    Small executable codecs and ciphers that satisfy every law of [Libs], so that
    the witnesses of the components evaluate and no law is vacuous. The codecs for
    hex and base64 are the real ones; the ciphers are toys with the right shape. *)

From Stdlib Require Import Strings.Byte Ascii String.
From S2P Require Import Prelude RustStd Libs.
Local Open Scope Z_scope.

Definition all_bytes : bytes := map byte_of_Z (seqZ 0 256).

Lemma all_bytes_complete b : In b all_bytes.
Proof.
  unfold all_bytes. apply in_map_iff. exists (byte_val b).
  split; [apply byte_of_Z_val|]. apply list_elem_of_In, elem_of_seqZ.
  pose proof (byte_val_range b). lia.
Qed.

(** Check a boolean predicate on all bytes by evaluation. *)
Lemma byte_forall (p : byte -> bool) : forallb p all_bytes = true -> forall b, p b = true.
Proof. intros H b. eapply forallb_forall in H; [exact H | apply all_bytes_complete]. Qed.

Lemma forallb_impl {A} (p q : A -> bool) l :
  (forall x, p x = true -> q x = true) -> forallb p l = true -> forallb q l = true.
Proof. intros Hpq. rewrite !forallb_forall. eauto. Qed.

(** ** Hexadecimal *)

Definition hex_digit (v : Z) : byte := byte_of_Z (if v <? 10 then 48 + v else 87 + v).
Definition hex_value (b : byte) : option Z :=
  if is_ascii_digit b then Some (byte_val b - 48)
  else if in_range 97 102 (byte_val b) then Some (byte_val b - 87)
  else if in_range 65 70 (byte_val b) then Some (byte_val b - 55)
  else None.

Definition hex_byte (b : byte) : bytes := [hex_digit (byte_val b / 16); hex_digit (byte_val b mod 16)].

Arguments hex_byte : simpl never.

Fixpoint unhex (l : bytes) : option bytes :=
  match l with
  | [] => Some []
  | h :: d :: l =>
      match hex_value h, hex_value d, unhex l with
      | Some x, Some y, Some r => Some (byte_of_Z (x * 16 + y) :: r)
      | _, _, _ => None
      end
  | [_] => None
  end.

Definition hex_encode_impl (b : bytes) : string := of_bytes (flat_map hex_byte b).
Definition hex_decode_impl (s : string) : option bytes := unhex (as_bytes s).

#[export] Instance Hex_impl : Hex :=
  {| hex_encode := hex_encode_impl; hex_decode := hex_decode_impl |}.

Lemma hex_byte_facts b :
  (exists h d, hex_byte b = [h; d] /\ is_lower_hex_byte h = true /\ is_lower_hex_byte d = true /\
    hex_value h = Some (byte_val b / 16) /\ hex_value d = Some (byte_val b mod 16)).
Proof.
  unfold hex_byte. do 2 eexists. split; [reflexivity|].
  revert b. assert (forallb (fun b => is_lower_hex_byte (hex_digit (byte_val b / 16)) &&
    is_lower_hex_byte (hex_digit (byte_val b mod 16)) &&
    bool_decide (hex_value (hex_digit (byte_val b / 16)) = Some (byte_val b / 16)) &&
    bool_decide (hex_value (hex_digit (byte_val b mod 16)) = Some (byte_val b mod 16)))
    all_bytes = true) as Hall by (vm_compute; reflexivity).
  intros b. pose proof (byte_forall _ Hall b) as Hb. cbv beta in Hb. split_bools.
  repeat split; assumption.
Qed.

(** The converse: two lowercase digits are the encoding of the byte they decode to. *)
Lemma lower_hex_digit h :
  is_lower_hex_byte h = true -> exists x, hex_value h = Some x /\ 0 <= x < 16 /\ hex_digit x = h.
Proof.
  assert (forallb (fun h => implb (is_lower_hex_byte h)
      match hex_value h with
      | Some x => (0 <=? x) && (x <? 16) && Byte.eqb (hex_digit x) h
      | None => false
      end) all_bytes = true) as Hall by (vm_compute; reflexivity).
  intros Hh. pose proof (byte_forall _ Hall h) as E. cbv beta in E. rewrite Hh in E.
  simpl in E. destruct (hex_value h) as [x|]; [|discriminate E]. exists x. split_bools.
  split; [reflexivity|]. split; [lia|]. by apply Byte.byte_dec_bl.
Qed.

Lemma lower_hex_pair h d :
  is_lower_hex_byte h = true -> is_lower_hex_byte d = true ->
  exists x y, hex_value h = Some x /\ hex_value d = Some y /\ hex_byte (byte_of_Z (x * 16 + y)) = [h; d].
Proof.
  intros (x & Hx & Bx & Dx)%lower_hex_digit (y & Hy & By & Dy)%lower_hex_digit.
  exists x, y. split; [assumption|]. split; [assumption|]. unfold hex_byte.
  rewrite byte_val_of_Z, (Z.mod_small _ 256) by lia.
  rewrite Z.div_add_l, (Z.div_small y 16), Z.add_0_r by lia.
  rewrite Z.add_comm, Z.mod_add, (Z.mod_small y 16) by lia. by rewrite Dx, Dy.
Qed.

Lemma unhex_hex l r : unhex (flat_map hex_byte l ++ r) = (app l) <$> unhex r.
Proof.
  induction l as [|b l IH]; [simpl; by destruct (unhex r)|].
  change (flat_map hex_byte (b :: l)) with (hex_byte b ++ flat_map hex_byte l).
  destruct (hex_byte_facts b) as (h & d & Eb & _ & _ & Vh & Vd).
  rewrite <- app_assoc, Eb. cbn [app unhex]. rewrite Vh, Vd, IH.
  destruct (unhex r); [|done]. simpl. do 2 f_equal.
  rewrite <- (byte_of_Z_val b) at 3. f_equal. pose proof (Z.div_mod (byte_val b) 16). lia.
Qed.

#[export] Instance Hex_impl_laws : HexLaws.
Proof.
  split; unfold hex_encode, hex_decode; simpl; unfold hex_encode_impl, hex_decode_impl.
  - intros l. rewrite slen_of_bytes. unfold zlen. induction l as [|b l IH]; [done|].
    change (flat_map hex_byte (b :: l)) with (hex_byte b ++ flat_map hex_byte l).
    rewrite length_app. cbn [length hex_byte]. simpl. lia.
  - intros l. unfold is_lower_hex, bytes_all. rewrite as_bytes_of_bytes.
    induction l as [|b l IH]; [done|].
    change (flat_map hex_byte (b :: l)) with (hex_byte b ++ flat_map hex_byte l).
    rewrite forallb_app, IH.
    destruct (hex_byte_facts b) as (h & d & -> & L1 & L2 & _). simpl. by rewrite L1, L2.
  - intros l. rewrite as_bytes_of_bytes, <- (app_nil_r (flat_map _ l)), unhex_hex. simpl.
    by rewrite app_nil_r.
  - intros s l. rewrite <- zlen_as_bytes. generalize (as_bytes s). clear s.
    revert l. assert (forall n (l r : bytes), (length l <= n)%nat -> unhex l = Some r ->
      zlen l = 2 * zlen r) as Hn.
    { induction n as [|n IH]; intros [|h [|d l]] r Hl; simpl; try done; try (simpl in Hl; lia).
      + by intros [= <-]. + by intros [= <-].
      + destruct (hex_value h), (hex_value d), (unhex l) eqn:E; try done.
        intros [= <-]. simpl in Hl. apply IH in E; [|lia]. rewrite !zlen_cons. lia. }
    eauto.
  - intros s n. unfold is_lower_hex, bytes_all. rewrite <- zlen_as_bytes.
    intros Hl Hn. rewrite <- (of_bytes_as_bytes s). revert Hl Hn.
    rewrite as_bytes_of_bytes. generalize (as_bytes s). clear s. intros l Hl Hn.
    enough (exists b, unhex l = Some b /\ flat_map hex_byte b = l) as (b & Hb & Eb)
      by (exists b; rewrite Eb; done).
    assert (exists m, length l = (2 * m)%nat) as [m Hm]
      by (exists (Z.to_nat n); unfold zlen in Hn; lia).
    clear n Hn. revert l Hl Hm. induction m as [|m IH]; intros [|h [|d l]] Hl Hm;
      simpl in Hm; try lia; [by exists []|].
    simpl in Hl. split_bools.
    destruct (IH l) as (b & Hb & Eb); [assumption | lia |].
    destruct (lower_hex_pair h d) as (x & y & Hx & Hy & Exy); [assumption..|].
    exists (byte_of_Z (x * 16 + y) :: b).
    change (flat_map hex_byte (?c :: b)) with (hex_byte c ++ flat_map hex_byte b).
    rewrite Exy, Eb.
    simpl. by rewrite Hx, Hy, Hb.
Qed.

(** ** Base64 *)

Definition b64_char (v : Z) : byte :=
  byte_of_Z (if v <? 26 then 65 + v else if v <? 52 then 71 + v
             else if v <? 62 then v - 4 else if v =? 62 then 43 else 47).
Definition b64_value (b : byte) : option Z :=
  let v := byte_val b in
  if in_range 65 90 v then Some (v - 65) else if in_range 97 122 v then Some (v - 71)
  else if in_range 48 57 v then Some (v + 4) else if v =? 43 then Some 62
  else if v =? 47 then Some 63 else None.
Definition b64_pad : byte := byte_of_Z 61.

Fixpoint b64 (l : bytes) : bytes :=
  match l with
  | [] => []
  | [a] =>
      let n := byte_val a * 16 in
      [b64_char (n / 64); b64_char (n mod 64); b64_pad; b64_pad]
  | [a; b] =>
      let n := (byte_val a * 256 + byte_val b) * 4 in
      [b64_char (n / 4096); b64_char (n / 64 mod 64); b64_char (n mod 64); b64_pad]
  | a :: b :: c :: l =>
      let n := byte_val a * 65536 + byte_val b * 256 + byte_val c in
      b64_char (n / 262144) :: b64_char (n / 4096 mod 64) :: b64_char (n / 64 mod 64) ::
      b64_char (n mod 64) :: b64 l
  end.

Fixpoint unb64 (l : bytes) : option bytes :=
  match l with
  | [] => Some []
  | c0 :: c1 :: c2 :: c3 :: l =>
      v0 ← b64_value c0; v1 ← b64_value c1;
      match b64_value c2, b64_value c3 with
      | Some v2, Some v3 =>
          let n := v0 * 262144 + v1 * 4096 + v2 * 64 + v3 in
          r ← unb64 l;
          Some (byte_of_Z (n / 65536) :: byte_of_Z (n / 256 mod 256) :: byte_of_Z (n mod 256) :: r)
      | Some v2, None =>
          let n := v0 * 4096 + v1 * 64 + v2 in
          if Byte.eqb c3 b64_pad then Some [byte_of_Z (n / 1024); byte_of_Z (n / 4 mod 256)] else None
      | None, _ =>
          if Byte.eqb c2 b64_pad && Byte.eqb c3 b64_pad
          then Some [byte_of_Z ((v0 * 64 + v1) / 16)] else None
      end
  | _ => None
  end.

#[export] Instance Base64_impl : Base64 :=
  {| base64_encode b := of_bytes (b64 b); base64_decode s := unb64 (as_bytes s) |}.

Arguments b64_char : simpl never.
Arguments b64_value : simpl never.
Arguments b64_pad : simpl never.

Lemma b64_char_facts v :
  0 <= v < 64 -> b64_value (b64_char v) = Some v /\ is_base64_byte (b64_char v) = true.
Proof.
  intros Hv. assert (forallb (fun v => bool_decide (b64_value (b64_char v) = Some v) &&
    is_base64_byte (b64_char v)) (seqZ 0 64) = true) as Hall by (vm_compute; reflexivity).
  eapply forallb_forall in Hall; [|apply list_elem_of_In, elem_of_seqZ; exact Hv].
  cbv beta in Hall. split_bools. split; assumption.
Qed.

Lemma byte_of_Z_eq z b : z = byte_val b -> byte_of_Z z = b.
Proof. intros ->. apply byte_of_Z_val. Qed.

Ltac b64_step :=
  repeat match goal with
  | |- context [b64_value (b64_char ?v)] =>
      rewrite (proj1 (b64_char_facts v ltac:(Z.to_euclidean_division_equations; lia)))
  | |- context [is_base64_byte (b64_char ?v)] =>
      rewrite (proj2 (b64_char_facts v ltac:(Z.to_euclidean_division_equations; lia)))
  end.
Ltac pose_ranges :=
  repeat match goal with
  | b : byte |- _ => lazymatch goal with
      | H : 0 <= byte_val b < 256 |- _ => fail
      | _ => pose proof (byte_val_range b) end
  end.

(** Induction three bytes at a time. *)
Lemma list_ind3 {A} (P : list A -> Prop) :
  P [] -> (forall a, P [a]) -> (forall a b, P [a; b]) ->
  (forall a b c l, P l -> P (a :: b :: c :: l)) -> forall l, P l.
Proof.
  intros H0 H1 H2 H3. enough (forall n l, (length l <= n)%nat -> P l) by eauto.
  induction n as [|n IH]; intros [|a [|b [|c l]]] Hl; auto; simpl in Hl; [lia.. |].
  apply H3, IH. lia.
Qed.

Lemma unb64_b64 l : unb64 (b64 l) = Some l.
Proof.
  induction l as [|a|a b|a b c l IH] using list_ind3; [done|..]; simpl; pose_ranges; b64_step; simpl.
  - change (b64_value b64_pad) with (@None Z). change (Byte.eqb b64_pad b64_pad) with true. simpl.
    do 2 f_equal. apply byte_of_Z_eq. Z.to_euclidean_division_equations; lia.
  - change (b64_value b64_pad) with (@None Z). change (Byte.eqb b64_pad b64_pad) with true.
    cbv iota. do 2 f_equal; [|f_equal]; apply byte_of_Z_eq;
      Z.to_euclidean_division_equations; lia.
  - rewrite IH. simpl. do 2 f_equal; [|f_equal; [|f_equal]]; apply byte_of_Z_eq;
      Z.to_euclidean_division_equations; lia.
Qed.

#[export] Instance Base64_impl_laws : Base64Laws.
Proof.
  split; unfold base64_encode, base64_decode; simpl.
  - intros l. rewrite as_bytes_of_bytes. apply unb64_b64.
  - intros l. rewrite slen_of_bytes.
    induction l as [|a|a b|a b c l IH] using list_ind3; [done..|].
    simpl b64. rewrite !zlen_cons, IH. Z.to_euclidean_division_equations; lia.
  - intros l. unfold bytes_all. rewrite as_bytes_of_bytes.
    assert (is_base64_byte b64_pad = true) as Hp by done.
    induction l as [|a|a b|a b c l IH] using list_ind3; [done|..];
      cbn [b64 forallb]; pose_ranges; b64_step; rewrite ?Hp, ?IH; reflexivity.
Qed.

(** ** A tree codec in place of [serde_json]

    Tagged and self-delimiting: a string ends in a zero byte, which is quoted inside it.
    The result is written in printable ASCII, any other byte as a backslash and two
    hexadecimal digits. *)

Definition quote (b : byte) : bytes :=
  if Byte.eqb b x00 || Byte.eqb b x01 then [x01; b] else [b].

Definition enc_str (s : string) : bytes := flat_map quote (as_bytes s) ++ [x00].

Fixpoint enc (v : Value) : bytes :=
  match v with
  | JNull => [x00]
  | JBool b => [x01; if b then x01 else x00]
  | JInt z => x02 :: be_bytes 9 (z + i64_max + 1)
  | JFloat s => x03 :: enc_str s
  | JString s => x04 :: enc_str s
  | JArray l => x05 :: flat_map (fun v => x01 :: enc v) l ++ [x00]
  | JObject m => x06 :: flat_map (fun kv => x01 :: enc_str kv.1 ++ enc kv.2) m ++ [x00]
  end.

Fixpoint dec_bytes (l : bytes) : option (bytes * bytes) :=
  match l with
  | c :: l =>
      if Byte.eqb c x00 then Some ([], l)
      else if Byte.eqb c x01 then
        match l with
        | b :: l => p ← dec_bytes l; Some (b :: p.1, p.2)
        | [] => None
        end
      else p ← dec_bytes l; Some (c :: p.1, p.2)
  | [] => None
  end.

Definition dec_str (l : bytes) : option (string * bytes) :=
  p ← dec_bytes l; Some (of_bytes p.1, p.2).

Fixpoint dec_items {A} (f : bytes -> option (A * bytes)) (k : nat) (l : bytes)
  : option (list A * bytes) :=
  match k, l with
  | S k, c :: l =>
      if Byte.eqb c x00 then Some ([], l)
      else p ← f l; q ← dec_items f k p.2; Some (p.1 :: q.1, q.2)
  | _, _ => None
  end.

Fixpoint dec (n : nat) (l : bytes) : option (Value * bytes) :=
  match n, l with
  | S n, c :: l =>
      let t := byte_val c in
      if t =? 0 then Some (JNull, l)
      else if t =? 1 then match l with b :: l => Some (JBool (Byte.eqb b x01), l) | [] => None end
      else if t =? 2 then Some (JInt (from_be_bytes (take 9 l) - i64_max - 1), drop 9 l)
      else if t =? 3 then p ← dec_str l; Some (JFloat p.1, p.2)
      else if t =? 4 then p ← dec_str l; Some (JString p.1, p.2)
      else if t =? 5 then p ← dec_items (dec n) (S n) l; Some (JArray p.1, p.2)
      else p ← dec_items (fun l => p ← dec_str l; q ← dec n p.2; Some ((p.1, q.1), q.2)) (S n) l;
           Some (JObject p.1, p.2)
  | _, _ => None
  end.

Definition is_plain (b : byte) : bool := in_range 32 126 (byte_val b) && negb (Byte.eqb b x5c).

Definition armor (b : byte) : bytes := if is_plain b then [b] else x5c :: hex_byte b.

Fixpoint unarmor (l : bytes) : option bytes :=
  match l with
  | [] => Some []
  | c :: l =>
      if Byte.eqb c x5c then
        match l with
        | h :: d :: l =>
            match hex_value h, hex_value d, unarmor l with
            | Some x, Some y, Some r => Some (byte_of_Z (x * 16 + y) :: r)
            | _, _, _ => None
            end
        | _ => None
        end
      else (cons c) <$> unarmor l
  end.

#[export] Instance Json_impl : Json := {|
  json_to_vec v := flat_map armor (enc v);
  json_from_slice l :=
    b ← unarmor l;
    match dec (S (length b)) b with
    | Some (v, []) => Some v
    | _ => None
    end
|}.

(** Two properties of every byte, by evaluation. *)
Lemma quote_cases b : quote b = [x01; b] \/
  (quote b = [b] /\ Byte.eqb b x00 = false /\ Byte.eqb b x01 = false).
Proof. unfold quote. destruct (Byte.eqb b x00), (Byte.eqb b x01); auto. Qed.

Lemma unhex_byte b x y :
  hex_value x = Some (byte_val b / 16) -> hex_value y = Some (byte_val b mod 16) ->
  byte_of_Z (byte_val b / 16 * 16 + byte_val b mod 16) = b.
Proof.
  intros _ _. rewrite <- (byte_of_Z_val b) at 3. f_equal.
  pose proof (Z.div_mod (byte_val b) 16). lia.
Qed.

Lemma unarmor_armor l : unarmor (flat_map armor l) = Some l.
Proof.
  induction l as [|b l IH]; [done|]. cbn [flat_map]. unfold armor at 1.
  destruct (is_plain b) eqn:Hp.
  - unfold is_plain in Hp. split_bools. cbn [app unarmor].
    destruct (Byte.eqb b x5c); [discriminate|]. by rewrite IH.
  - destruct (hex_byte_facts b) as (h & d & -> & _ & _ & Vh & Vd).
    cbn [app unarmor]. change (Byte.eqb x5c x5c) with true. cbv iota.
    by rewrite Vh, Vd, IH, (unhex_byte b h d).
Qed.

Lemma armor_printable l :
  forallb (fun b => in_range 32 126 (byte_val b)) (flat_map armor l) = true.
Proof.
  apply forallb_forall. intros c (b & _ & Hc)%in_flat_map. unfold armor in Hc.
  destruct (is_plain b) eqn:Hp.
  - destruct Hc as [<-|[]]. unfold is_plain in Hp. by split_bools.
  - destruct (hex_byte_facts b) as (h & d & E & Lh & Ld & _). rewrite E in Hc.
    unfold is_lower_hex_byte, is_ascii_digit, in_range in Lh, Ld.
    destruct Hc as [<-|[<-|[<-|[]]]]; [reflexivity | unfold in_range; lia | unfold in_range; lia].
Qed.

Lemma dec_str_enc s r : dec_str (enc_str s ++ r) = Some (s, r).
Proof.
  unfold dec_str, enc_str. enough (forall l, dec_bytes ((flat_map quote l ++ [x00]) ++ r)
    = Some (l, r)) as -> by (simpl; by rewrite of_bytes_as_bytes).
  induction l as [|b l IH]; [done|]. cbn [flat_map].
  destruct (quote_cases b) as [->|(-> & E0 & E1)]; cbn [app dec_bytes];
    [change (Byte.eqb x01 x00) with false; change (Byte.eqb x01 x01) with true
    | rewrite E0, E1]; cbv iota; by rewrite IH.
Qed.

Lemma length_enc_pos v : (0 < length (enc v))%nat.
Proof. destruct v; simpl; lia. Qed.

Lemma dec_items_enc {A} (f : bytes -> option (A * bytes)) (e : A -> bytes) (n k : nat) l r :
  Forall (fun v => forall r', (length (e v) <= n)%nat -> f (e v ++ r') = Some (v, r')) l ->
  (length (flat_map (fun v => x01 :: e v) l) <= n)%nat ->
  (length l < k)%nat ->
  dec_items f k ((flat_map (fun v => x01 :: e v) l ++ [x00]) ++ r) = Some (l, r).
Proof.
  revert k. induction l as [|v l IH]; intros [|k] Hf Hn Hk; simpl in Hk; try lia; [done|].
  inversion Hf as [|? ? Hv Hl]; subst. cbn [flat_map app length] in *.
  rewrite length_app in Hn. simpl. rewrite <- !app_assoc, Hv by lia. simpl.
  rewrite cons_middle, app_assoc, IH by (done || lia). done.
Qed.

Lemma length_flat_map_tagged {A} (e : A -> bytes) l :
  (length l <= length (flat_map (fun v => x01 :: e v) l))%nat.
Proof. induction l as [|v l IH]; cbn [flat_map app length]; rewrite ?length_app; lia. Qed.

Lemma dec_enc v : json_wf v = true -> forall n r,
  (length (enc v) <= n)%nat -> dec n (enc v ++ r) = Some (v, r).
Proof.
  induction v as [|b|z|s|s|l IH|m IH] using Value_nested_ind; intros Hwf [|n] r Hn;
    try (simpl in Hn; lia).
  - done.
  - by destruct b.
  - simpl in Hwf. split_bools. cbn [enc app dec]. change (byte_val x02) with 2. cbv zeta.
    cbn [Z.eqb Pos.eqb]. destruct (take_drop_split 9 (be_bytes 9 (z + i64_max + 1)) r) as [-> ->].
    { apply length_be_bytes. }
    rewrite be_bytes_small by (unfold_ints; lia). do 3 f_equal. lia.
  - discriminate Hwf.
  - cbn [enc app dec]. change (byte_val x04) with 4. cbv zeta. cbn [Z.eqb Pos.eqb].
    by rewrite dec_str_enc.
  - cbn [enc app dec]. change (byte_val x05) with 5. cbv zeta. cbn [Z.eqb Pos.eqb].
    cbn [enc length] in Hn. rewrite length_app in Hn. simpl in Hn, Hwf.
    pose proof (length_flat_map_tagged enc l).
    rewrite (dec_items_enc _ enc n); [done| |lia|lia].
    apply Forall_forall. intros v Hv r' Hr. rewrite Forall_forall in IH.
    apply (IH _ Hv); [|lia]. eapply forallb_forall in Hwf; [exact Hwf | by apply list_elem_of_In].
  - cbn [enc app dec]. change (byte_val x06) with 6. cbv zeta. cbn [Z.eqb Pos.eqb].
    cbn [enc length] in Hn. rewrite length_app in Hn. simpl in Hn, Hwf.
    pose proof (length_flat_map_tagged (fun kv : string * Value => enc_str kv.1 ++ enc kv.2) m).
    rewrite (dec_items_enc _ (fun kv : string * Value => enc_str kv.1 ++ enc kv.2) n); [done| |lia|lia].
    apply Forall_forall. intros [k v] Hv r' Hr. simpl in *. rewrite <- app_assoc, dec_str_enc. simpl.
    rewrite Forall_forall in IH. rewrite length_app in Hr.
    eapply forallb_forall in Hwf; [|by apply list_elem_of_In]. cbv beta in Hwf. split_bools.
    pose proof (IH _ Hv) as IHv. simpl in *. rewrite IHv by (assumption || lia). done.
Qed.

Lemma lower_hex_ascii s :
  is_lower_hex s = true -> forallb (fun b => byte_val b <? 128) (as_bytes s) = true.
Proof.
  unfold is_lower_hex, bytes_all. intros Hs. apply forallb_forall. intros b Hb.
  eapply forallb_forall in Hs; [|exact Hb]. cbv beta in Hs.
  unfold is_lower_hex_byte, is_ascii_digit, in_range in Hs. lia.
Qed.

Lemma enc_array_prefix m k l1 l2 :
  (length (flat_map armor (enc (JObject (m ++ [(k, JArray l1)])))) <=
   length (flat_map armor (enc (JObject (m ++ [(k, JArray (l1 ++ l2))])))))%nat.
Proof.
  assert (exists a, forall l, enc (JObject (m ++ [(k, JArray l)])) =
    a ++ flat_map (fun v => x01 :: enc v) l ++ [x00; x00]) as [a Ha].
  { exists (x06 :: flat_map (fun kv => x01 :: enc_str kv.1 ++ enc kv.2) m ++ (x01 :: enc_str k) ++ [x05]).
    intros l. cbn [enc]. rewrite flat_map_app. cbn [flat_map fst snd enc]. cbn [app].
    rewrite app_nil_r. repeat (rewrite <- app_assoc; cbn [app]). done. }
  rewrite !Ha. rewrite !(flat_map_app armor), (flat_map_app _ l1 l2), (flat_map_app armor), !length_app. lia.
Qed.

#[export] Instance Json_impl_laws : JsonLaws.
Proof.
  split; unfold json_to_vec, json_from_slice; simpl; intros v.
  - intros Hwf. rewrite unarmor_armor. simpl.
    change (match dec (S (length (enc v))) (enc v) with
      | Some (v0, []) => Some v0 | _ => None end = Some v).
    rewrite <- (app_nil_r (enc v)) at 2. by rewrite dec_enc by (done || lia).
  - intros _. unfold utf8_valid. rewrite as_bytes_of_bytes, utf8_decode_ascii; [done|].
    eapply forallb_impl; [|apply armor_printable]. unfold in_range. intros b. simpl. lia.
  - pose proof (length_enc_pos v). destruct (enc v) as [|b l]; [simpl in *; lia|].
    cbn [flat_map]. rewrite zlen_app. pose proof (zlen_nonneg (flat_map armor l)).
    unfold armor at 1. destruct (is_plain b); unfold zlen in *; cbn [length] in *; lia.
  - eapply forallb_impl; [|apply armor_printable]. unfold in_range. intros b. simpl. lia.
  - intros k l1 l2. apply inj_le, enc_array_prefix.
Qed.

(** ** Toy ciphers and signatures *)

Definition key_of (z : Z) : bytes := be_bytes 32 z.

#[export] Instance Sha256_impl : Sha256 :=
  {| sha256 b := be_bytes 32 (fold_left (fun acc c => (acc * 257 + byte_val c + 1) mod 2147483647) b 1) |}.
#[export] Instance Sha256_impl_laws : Sha256Laws.
Proof. split. intros b. unfold zlen. cbn [sha256 Sha256_impl]. by rewrite length_be_bytes. Qed.

Definition toy_key_ok (sk : bytes) : bool := (zlen sk =? 32) && negb (from_be_bytes sk =? 0).

(** A signature is the public key followed by the digest of the message. *)
#[export] Instance Schnorr_impl : Schnorr := {|
  schnorr_public_key sk := if toy_key_ok sk then Some sk else None;
  schnorr_sign sk msg _ := Some (sk ++ sha256 msg);
  schnorr_key_ok pk := toy_key_ok pk;
  schnorr_signature_ok sig := zlen sig =? 64;
  schnorr_verify pk msg sig := bool_decide (sig = pk ++ sha256 msg)
|}.
#[export] Instance Schnorr_impl_laws : SchnorrLaws.
Proof.
  split; cbn [schnorr_public_key schnorr_sign schnorr_key_ok schnorr_signature_ok
              schnorr_verify Schnorr_impl].
  - intros sk pk. destruct (toy_key_ok sk) eqn:E; [|done]. intros [= <-].
    unfold toy_key_ok in E. split_bools. done.
  - intros sk pk. destruct (toy_key_ok sk) eqn:E; [|done]. by intros [= <-].
  - intros sk pk msg aux sig. destruct (toy_key_ok sk) eqn:E; [|done].
    intros Hp Hs. apply (inj Some) in Hp, Hs. subst. unfold toy_key_ok in E. split_bools.
    rewrite zlen_app, sha256_length.
    rewrite bool_decide_true by done. repeat split; lia.
Qed.

Definition xor_byte (a b : byte) : byte := byte_of_Z (Z.lxor (byte_val a) (byte_val b)).

Lemma xor_byte_involutive k b : xor_byte k (xor_byte k b) = b.
Proof.
  unfold xor_byte. rewrite byte_val_of_Z, Z.mod_small.
  - rewrite <- Z.lxor_assoc, Z.lxor_nilpotent, Z.lxor_0_l. apply byte_of_Z_val.
  - pose proof (byte_val_range k). pose proof (byte_val_range b).
    split; [apply Z.lxor_nonneg; lia|].
    destruct (Z.eq_dec (Z.lxor (byte_val k) (byte_val b)) 0) as [->|Hne]; [lia|].
    assert (0 <= Z.lxor (byte_val k) (byte_val b)) by (apply Z.lxor_nonneg; lia).
    change 256 with (2 ^ 8). apply Z.log2_lt_pow2; [lia|].
    eapply Z.le_lt_trans; [apply Z.log2_lxor; lia|].
    apply Z.max_lub_lt; (destruct (Z.eq_dec (byte_val k) 0) as [E|]; destruct (Z.eq_dec (byte_val b) 0) as [E'|];
      rewrite ?E, ?E'; simpl; try lia; apply Z.log2_lt_pow2; lia).
Qed.

#[export] Instance Nip44Crypto_impl : Nip44Crypto := {|
  secret_key_ok sk := toy_key_ok sk;
  public_key_ok pk := match pk with x02 :: pk => toy_key_ok pk | _ => false end;
  ecdh_x sk pk := Some (be_bytes 32 (from_be_bytes sk * from_be_bytes (drop 1 pk)));
  hkdf_extract salt ikm := sha256 (salt ++ ikm);
  hkdf_expand prk info n :=
    if (zlen prk =? 32) && (0 <=? n) && (n <=? 8160) then
      Some (take (Z.to_nat n) (sha256 (prk ++ info) ++ replicate (Z.to_nat n) x07))
    else None;
  chacha20 key iv data :=
    if (zlen key =? 32) && (zlen iv =? 12) then
      Some (map (xor_byte (default x00 (head key))) data)
    else None;
  hmac_sha256 key msg := Some (sha256 (key ++ msg))
|}.
#[export] Instance Nip44Crypto_impl_laws : Nip44CryptoLaws.
Proof.
  split.
  - intros. apply sha256_length.
  - intros prk info n Hp Hn. cbn [hkdf_expand Nip44Crypto_impl].
    rewrite (proj2 (Z.eqb_eq _ _) Hp), (proj2 (Z.leb_le _ _)), (proj2 (Z.leb_le _ _)) by lia.
    cbn [andb]. eexists; split; [done|]. unfold zlen. rewrite length_take, length_app, length_replicate. lia.
  - intros key iv data Hk Hi. cbn [chacha20 Nip44Crypto_impl]. rewrite (proj2 (Z.eqb_eq _ _) Hk), (proj2 (Z.eqb_eq _ _) Hi).
    cbn [andb]. eexists; split; [done|]. split; [unfold zlen; by rewrite length_map|].
    rewrite map_map. f_equal. rewrite <- map_id. apply map_ext. intros. apply xor_byte_involutive.
  - intros key msg. eexists; split; [done|]. apply sha256_length.
  - intros sk pk. simpl. destruct (toy_key_ok sk) eqn:E; [|done]. intros [= <-]. done.
  - intros sk1 pk1 sk2 pk2. simpl. destruct (toy_key_ok sk1); [|done].
    destruct (toy_key_ok sk2); [|done]. intros [= <-] [= <-].
    eexists; split; [done|]. by rewrite Z.mul_comm.
Qed.

#[export] Instance Ed25519_impl : Ed25519 := {|
  ed25519_public_key seed := sha256 seed;
  ed25519_sign seed msg := sha256 seed ++ sha256 msg;
  ed25519_key_ok pk := zlen pk =? 32;
  ed25519_key_weak pk := forallb (fun b => byte_val b =? 0) pk;
  ed25519_verify_strict pk msg sig := bool_decide (sig = pk ++ sha256 msg)
|}.
#[export] Instance Ed25519_impl_laws : Ed25519Laws.
Proof.
  split; intros; cbn [ed25519_public_key ed25519_sign ed25519_key_ok ed25519_verify_strict Ed25519_impl].
  - apply sha256_length.
  - by rewrite zlen_app, !sha256_length.
  - rewrite sha256_length, bool_decide_true; done.
Qed.

#[export] Instance Aead_impl : Aead := {|
  aead_encrypt key nonce aad msg := Some (msg ++ take 16 (sha256 (key ++ nonce ++ aad ++ msg)));
  aead_decrypt key nonce aad ct :=
    let msg := take (length ct - 16) ct in
    if bool_decide (ct = msg ++ take 16 (sha256 (key ++ nonce ++ aad ++ msg))) then Some msg else None
|}.
#[export] Instance Aead_impl_laws : AeadLaws.
Proof.
  split. intros key nonce aad msg ct Hc. apply (inj Some) in Hc. subst ct.
  pose proof (sha256_length (key ++ nonce ++ aad ++ msg)) as L. unfold zlen in L.
  cbn [aead_decrypt Aead_impl]. set (t := take 16 _). assert (length t = 16%nat) as Lt.
  { unfold t. rewrite length_take. lia. }
  split; [unfold zlen; rewrite length_app; lia|].
  rewrite length_app, Lt, Nat.add_sub, take_app_length.
  by rewrite bool_decide_true.
Qed.

(** ** A URL parser for [scheme://host?query] texts *)

Definition url_host_of (h : string) : Libs.Host :=
  match h with
  | String "[" t =>
      match parse_ipv6 (removelast (as_bytes t)) with Some a => HostIpv6 a | None => HostDomain h end
  | _ => match parse_ipv4 (as_bytes h) with Some a => HostIpv4 a | None => HostDomain h end
  end.

Definition url_of (scheme rest whole : string) (port : Z) : Url :=
  let '(hp, q) := match split_once x3f (as_bytes rest) with
                  | Some (h, q) => (h, Some (of_bytes q))
                  | None => (as_bytes rest, None)
                  end in
  let '(h, path) := match split_once x2f hp with
                    | Some (h, path) => (of_bytes h, String "/" (of_bytes path))
                    | None => (of_bytes hp, "/"%string)
                    end in
  {| url_scheme := scheme; url_host := Some (url_host_of h); url_host_str := Some h; url_port := None;
     url_port_or_known_default := Some port; url_path := path; url_username := ""; url_password := None;
     url_query := q; url_fragment := None; url_to_string := whole |}.

(** The text of an edited URL *)
Definition url_rebuild (path : string) (query : option string) (u : Url) : Url :=
  {| url_scheme := url_scheme u; url_host := url_host u; url_host_str := url_host_str u; url_port := url_port u;
     url_port_or_known_default := url_port_or_known_default u; url_path := path; url_username := url_username u;
     url_password := url_password u; url_query := query; url_fragment := url_fragment u;
     url_to_string := (url_scheme u +:+ "://" +:+ default "" (url_host_str u) +:+ path +:+
       match query with Some q => "?" +:+ q | None => "" end)%string |}.

Fixpoint url_try (schemes : list (string * Z)) (s : string) : option Url :=
  match schemes with
  | [] => None
  | (scheme, port) :: schemes =>
      match strip_prefix (scheme +:+ "://") s with
      | Some rest => Some (url_of scheme rest s port)
      | None => url_try schemes s
      end
  end.

#[export] Instance url_impl : UrlLib := {
  url_parse := url_try [("wss", 443); ("ws", 80); ("https", 443); ("http", 80)]%string;
  url_set_path path u := url_rebuild path (url_query u) u;
  url_append_pair name value u :=
    url_rebuild (url_path u)
      (Some (match url_query u with Some q => q +:+ "&" | None => "" end +:+ name +:+ "=" +:+ value)%string) u
}.

Lemma url_parse_impl s u : url_parse s = Some u -> exists scheme rest port, u = url_of scheme rest s port.
Proof.
  cbn [url_parse url_impl]. generalize [("wss", 443); ("ws", 80); ("https", 443); ("http", 80)]%string.
  intros l. induction l as [|[scheme port] l IH]; [done|]. cbn [url_try]. case_match; [intros [= <-]; eauto | exact IH].
Qed.

#[export] Instance url_impl_laws : UrlLaws.
Proof.
  constructor.
  - intros s u H. destruct (url_parse_impl s u H) as (sch & rest & port & ->).
    assert (url_to_string (url_of sch rest s port) = s) as -> by (unfold url_of; by repeat case_match). done.
  - done.
  - intros s u H _. destruct (url_parse_impl s u H) as (sch & rest & port & ->).
    unfold url_of. by repeat case_match.
  - intros s u a H Ha. destruct (url_parse_impl s u H) as (sch & rest & port & ->). revert Ha.
    unfold url_of.
    set (p := match split_once x3f (as_bytes rest) with Some _ => _ | None => _ end). destruct p as [hp q].
    set (p := match split_once x2f hp with Some _ => _ | None => _ end). destruct p as [h path]. cbn.
    destruct h as [|c t]; cbn; [repeat case_match; congruence|]. intros Ha. exists t.
    destruct c as [b0 b1 b2 b3 b4 b5 b6 b7]; destruct b0, b1, b2, b3, b4, b5, b6, b7; try done; repeat case_match; congruence.
Qed.

(** ** Bech32 with hexadecimal payloads *)

#[export] Instance Bech32_impl : Bech32 := {
  bech32_encode hrp data := Some (hrp ++ "1" ++ hex_encode data)%string;
  bech32_decode s :=
    match split_once x31 (as_bytes s) with
    | Some (hrp, payload) =>
        match hex_decode (of_bytes payload) with
        | Some data => Some (of_bytes hrp, data)
        | None => None
        end
    | None => None
    end
}.

Lemma split_once_app sep l r :
  forallb (fun b => negb (Byte.eqb b sep)) l = true -> split_once sep (l ++ sep :: r) = Some (l, r).
Proof.
  induction l as [|b l IH]; simpl; [by rewrite (Byte.byte_dec_lb eq_refl)|].
  intros [Hb Hl]%andb_true_iff. apply negb_true_iff in Hb. by rewrite Hb, IH.
Qed.

#[export] Instance Bech32_impl_laws : Bech32Laws.
Proof.
  constructor. intros hrp data Hl Hn Hd. cbn [bech32_encode bech32_decode Bech32_impl].
  eexists. split; [reflexivity|].
  pose proof (hex_encode_length data) as Hh. pose proof (hex_encode_lower data) as Hx.
  rewrite !as_bytes_app. change (as_bytes "1") with [x31]. cbn [app].
  split_and!.
  - rewrite split_once_app.
    + by rewrite !of_bytes_as_bytes, hex_decode_encode.
    + eapply forallb_impl; [|exact Hl]. intros b Hb. by destruct b.
  - rewrite <- zlen_as_bytes, !as_bytes_app, !zlen_app, !zlen_as_bytes, Hh.
    change (slen "1") with 1. lia.
  - unfold bytes_all. rewrite !as_bytes_app, !forallb_app. change (as_bytes "1") with [x31].
    unfold bytes_all, is_lower_hex in *. rewrite !andb_true_iff. split_and!; [|done|].
    + eapply forallb_impl; [|exact Hl]. unfold is_ascii_lowercase, in_range. lia.
    + eapply forallb_impl; [|exact Hx]. unfold is_lower_hex_byte, is_ascii_digit, in_range. lia.
Qed.
