(* ===== verification/ValueMap.v ===== *)
(** * [serde_json::Value]

    A [Value] keeps the members of an object in a map ordered by key: reading one from a
    syntax tree keeps the last of several members with the same key. *)

From Stdlib Require Import Strings.Byte Ascii String.
From S2P Require Import Prelude RustStd BTree Libs Serde Concrete.
Local Open Scope Z_scope.

(** [Value::deserialize] of a syntax tree *)
Fixpoint value_norm (v : Value) : Value :=
  match v with
  | JArray l => JArray (map value_norm l)
  | JObject m => JObject (fold_left (fun acc kv => bt_insert kv.1 (value_norm kv.2) acc) m [])
  | _ => v
  end.

Fixpoint ascending (l : list string) : bool :=
  match l with
  | k :: (k' :: _) as t => bool_decide (string_lt k k') && ascending t
  | _ => true
  end.

(** The trees that are [Value]s *)
Fixpoint value_sorted (v : Value) : bool :=
  match v with
  | JArray l => forallb value_sorted l
  | JObject m => ascending (m.*1) && forallb (fun kv => value_sorted kv.2) m
  | _ => true
  end.

(** [Value::get], [Value::as_str], [Value::as_bool] *)
Definition value_get (k : string) (v : Value) : option Value :=
  match v with JObject m => bt_get k m | _ => None end.
Definition get_str (k : string) (v : Value) : option string := value_get k v ≫= de_string.
Definition get_bool (k : string) (v : Value) : option bool := value_get k v ≫= de_bool.

(** [value[k] = x] on an object *)
Definition value_set (k : string) (x : Value) (v : Value) : Value :=
  match v with JObject m => JObject (bt_insert k x m) | _ => v end.

Section Json.
Context {json : Json}.
(** [serde_json::from_slice::<Value>], [serde_json::from_str::<Value>] and [Value::to_string] *)
Definition value_from_slice (b : bytes) : option Value := value_norm <$> json_from_slice b.
Definition value_from_str (s : string) : option Value := value_from_slice (as_bytes s).
Definition value_to_string (v : Value) : string := of_bytes (json_to_vec v).
End Json.

Lemma ascending_sorted (m : BTreeMap Value) : ascending (m.*1) = true -> bt_sorted m.
Proof.
  intros Ha. apply Sorted_StronglySorted; [intros x y z; apply string_lt_trans|].
  induction m as [|[k v] [|[k' v'] m] IH]; [constructor | repeat constructor|].
  cbn in Ha. split_bools. constructor; [by apply IH | by constructor].
Qed.

Lemma fold_insert_sorted (f : Value -> Value) (m acc : BTreeMap Value) :
  bt_sorted (acc ++ m) -> Forall (fun kv => f kv.2 = kv.2) m ->
  fold_left (fun acc kv => bt_insert kv.1 (f kv.2) acc) m acc = acc ++ m.
Proof.
  revert acc. induction m as [|[k v] m IH]; intros acc Hs Hf; cbn [fold_left]; [by rewrite app_nil_r|].
  apply Forall_cons in Hf as [Hv Hf]. cbn [fst snd] in *. rewrite Hv.
  replace (acc ++ (k, v) :: m) with ((acc ++ [(k, v)]) ++ m) in * by (by rewrite <- app_assoc).
  rewrite (proj1 (bt_sorted_snoc acc k v (StronglySorted_app_1_l _ _ _ Hs))). by apply IH.
Qed.

Lemma value_norm_id v : value_sorted v = true -> value_norm v = v.
Proof.
  induction v as [| | | | |l IH|m IH] using Value_nested_ind; intros Hs; try done; cbn in *.
  - f_equal. induction IH as [|x l Hx Hl IHl]; cbn in *; [done|]. split_bools. rewrite Hx, IHl by done. done.
  - split_bools. f_equal. rewrite (fold_insert_sorted value_norm m []); [done | by apply ascending_sorted|].
    apply Forall_forall. intros kv Hkv. eapply Forall_forall in IH; [|exact Hkv]. apply IH.
    match goal with F : forallb _ m = true |- _ => exact (proj1 (forallb_forall _ _) F kv (proj1 (list_elem_of_In _ _) Hkv)) end.
Qed.

Lemma value_roundtrip `{JsonLaws} v :
  json_wf v = true -> value_sorted v = true -> value_from_slice (json_to_vec v) = Some v.
Proof.
  intros Hw Hs. unfold value_from_slice. rewrite json_roundtrip by done. cbn. by rewrite value_norm_id.
Qed.

Lemma value_string_roundtrip `{JsonLaws} v :
  json_wf v = true -> value_sorted v = true -> value_from_str (value_to_string v) = Some v.
Proof.
  intros Hw Hs. unfold value_from_str, value_to_string. rewrite as_bytes_of_bytes. by apply value_roundtrip.
Qed.
