(* ===== verification/Nip44.v ===== *)
(** * NIP-44 v2 encryption ([omachat-crypto/src/nip44.rs])

    The payload format, its padding and its size limits, over the primitives of
    [Nip44Crypto] and [Base64]. *)

From Stdlib Require Import Strings.Byte Ascii String.
From S2P Require Import Prelude RustStd Libs Concrete.
Local Open Scope Z_scope.

Definition VERSION : Z := 2.
Definition SALT : bytes := as_bytes "nip44-v2".
Definition NONCE_LEN : Z := 32.
Definition MAC_LEN : Z := 32.
Definition MESSAGE_KEY_LEN : Z := 76.
Definition MIN_ENCODED_PAYLOAD_LEN : Z := 132.
Definition MIN_DECODED_PAYLOAD_LEN : Z := 99.
Definition EXTENDED_PREFIX_THRESHOLD : Z := 65536.
Definition MAX_PLAINTEXT_LEN : Z := 1024 * 1024.

Inductive Nip44Error :=
| InvalidSecretKey
| InvalidPublicKey
| InvalidPlaintextLength
| PayloadTooLarge
| InvalidPayloadSize
| InvalidBase64
| UnsupportedVersion
| InvalidMac
| InvalidPadding
| InvalidUtf8
| RandomnessUnavailable
| KeyDerivationFailed.

#[export] Instance Nip44Error_eq_dec : EqDecision Nip44Error.
Proof. solve_decision. Defined.

(** ** Padding *)

(** [usize::checked_next_power_of_two] *)
Definition checked_next_power_of_two (n : Z) : option Z :=
  let p := 2 ^ Z.log2_up n in if p <=? usize_max then Some p else None.

Definition calc_padded_len (plaintext_len : Z) : result Nip44Error Z :=
  fail_if plaintext_len =? 0 with InvalidPlaintextLength ;;
  if plaintext_len <=? 32 then Ok 32 else
  let? next_power := ok_or PayloadTooLarge (checked_next_power_of_two plaintext_len) in
  let chunk := if next_power <=? 256 then 32 else next_power / 8 in
  ok_or PayloadTooLarge
    (length ← checked_sub plaintext_len 1;
     chunks ← checked_div length chunk;
     chunks ← checked_add usize_max chunks 1;
     checked_mul usize_max chunks chunk).

(** [Vec::resize(n, 0)] *)
Definition resize_zero (n : Z) (l : bytes) : bytes :=
  take (Z.to_nat n) l ++ replicate (Z.to_nat (n - zlen l)) x00.

Definition pad (plaintext : bytes) : result Nip44Error bytes :=
  let plaintext_len := zlen plaintext in
  fail_if plaintext_len =? 0 with InvalidPlaintextLength ;;
  fail_if (MAX_PLAINTEXT_LEN <? plaintext_len) || (u32_max <? plaintext_len)
    with PayloadTooLarge ;;
  let? padded_len := calc_padded_len plaintext_len in
  let prefix_len := if EXTENDED_PREFIX_THRESHOLD <=? plaintext_len then 6 else 2 in
  let prefix :=
    if prefix_len =? 6 then [x00; x00] ++ be_bytes 4 plaintext_len
    else be_bytes 2 plaintext_len in
  Ok (resize_zero (prefix_len + padded_len) (prefix ++ plaintext)).

(** [slice.get(start..stop)] *)
Definition slice_get (l : bytes) (start stop : Z) : option bytes :=
  if (start <=? stop) && (stop <=? zlen l) then
    Some (take (Z.to_nat (stop - start)) (drop (Z.to_nat start) l))
  else None.

Definition unpad (padded : bytes) : result Nip44Error bytes :=
  match padded with
  | b0 :: b1 :: rest =>
      let first := from_be_bytes [b0; b1] in
      let? (prefix_len, plaintext_len) :=
        if first =? 0 then
          match rest with
          | b2 :: b3 :: b4 :: b5 :: _ =>
              let length := from_be_bytes [b2; b3; b4; b5] in
              fail_if length <? EXTENDED_PREFIX_THRESHOLD with InvalidPadding ;;
              Ok (6, length)
          | _ => Err InvalidPadding
          end
        else Ok (2, first) in
      fail_if MAX_PLAINTEXT_LEN <? plaintext_len with PayloadTooLarge ;;
      let? padded_len := calc_padded_len plaintext_len in
      let? expected := ok_or InvalidPadding (checked_add usize_max prefix_len padded_len) in
      fail_if negb (zlen padded =? expected) with InvalidPadding ;;
      let? stop := ok_or InvalidPadding (checked_add usize_max prefix_len plaintext_len) in
      ok_or InvalidPadding (slice_get padded prefix_len stop)
  | _ => Err InvalidPadding
  end.

Definition maximum_encoded_payload_len : result Nip44Error Z :=
  let prefix_len := if EXTENDED_PREFIX_THRESHOLD <=? MAX_PLAINTEXT_LEN then 6 else 2 in
  let? padded_len := calc_padded_len MAX_PLAINTEXT_LEN in
  let? raw_len := ok_or PayloadTooLarge
    (l ← checked_add usize_max 1 NONCE_LEN;
     l ← checked_add usize_max l prefix_len;
     l ← checked_add usize_max l padded_len;
     checked_add usize_max l MAC_LEN) in
  ok_or PayloadTooLarge
    (l ← checked_add usize_max raw_len 2;
     l ← checked_div l 3;
     checked_mul usize_max l 4).

(** ** The cipher *)

Section Cipher.
Context {crypto : Nip44Crypto} {b64 : Base64}.

Definition conversation_key (local_secret peer_public_key : bytes)
  : result Nip44Error bytes :=
  fail_if negb (secret_key_ok local_secret) with InvalidSecretKey ;;
  let compressed_peer := x02 :: peer_public_key in
  fail_if negb (public_key_ok compressed_peer) with InvalidPublicKey ;;
  let? shared_x := ok_or InvalidPublicKey (ecdh_x local_secret compressed_peer) in
  Ok (hkdf_extract SALT shared_x).

Definition message_keys (conversation_key nonce : bytes) : result Nip44Error bytes :=
  ok_or KeyDerivationFailed (hkdf_expand conversation_key nonce MESSAGE_KEY_LEN).

(** [keys[..32]], [keys[32..44]] and [keys[44..]] *)
Definition cipher_key (keys : bytes) : bytes := take 32 keys.
Definition cipher_iv (keys : bytes) : bytes := take 12 (drop 32 keys).
Definition mac_key (keys : bytes) : bytes := drop 44 keys.

Definition encrypt_with_conversation_key (conversation_key : bytes) (plaintext : string)
  (nonce : bytes) : result Nip44Error string :=
  let? padded := pad (as_bytes plaintext) in
  let? keys := message_keys conversation_key nonce in
  let? ciphertext :=
    ok_or KeyDerivationFailed (chacha20 (cipher_key keys) (cipher_iv keys) padded) in
  let? mac := ok_or KeyDerivationFailed (hmac_sha256 (mac_key keys) (nonce ++ ciphertext)) in
  Ok (base64_encode ([byte_of_Z VERSION] ++ nonce ++ ciphertext ++ mac)).

Definition decrypt_with_conversation_key (conversation_key : bytes) (payload : string)
  : result Nip44Error string :=
  fail_if (slen payload =? 0) || starts_with "#" payload with UnsupportedVersion ;;
  fail_if slen payload <? MIN_ENCODED_PAYLOAD_LEN with InvalidPayloadSize ;;
  let? maximum := maximum_encoded_payload_len in
  fail_if maximum <? slen payload with PayloadTooLarge ;;
  let? decoded := ok_or InvalidBase64 (base64_decode payload) in
  fail_if zlen decoded <? MIN_DECODED_PAYLOAD_LEN with InvalidPayloadSize ;;
  fail_if negb (byte_val (default x00 (head decoded)) =? VERSION) with UnsupportedVersion ;;
  let nonce := take 32 (drop 1 decoded) in
  let ciphertext_end := zlen decoded - MAC_LEN in
  let ciphertext := take (Z.to_nat (ciphertext_end - 33)) (drop 33 decoded) in
  let supplied_mac := drop (Z.to_nat ciphertext_end) decoded in
  let? keys := message_keys conversation_key nonce in
  let? mac := ok_or KeyDerivationFailed (hmac_sha256 (mac_key keys) (nonce ++ ciphertext)) in
  fail_if negb (bool_decide (mac = supplied_mac)) with InvalidMac ;;
  let? padded :=
    ok_or KeyDerivationFailed (chacha20 (cipher_key keys) (cipher_iv keys) ciphertext) in
  let? plaintext := unpad padded in
  ok_or InvalidUtf8 (from_utf8 plaintext).

Definition encrypt_with_nonce (local_secret peer_public_key : bytes) (plaintext : string)
  (nonce : bytes) : result Nip44Error string :=
  let? key := conversation_key local_secret peer_public_key in
  encrypt_with_conversation_key key plaintext nonce.

(** [encrypt] with the outcome of [getrandom::fill] as an argument *)
Definition encrypt (random : option bytes) (local_secret peer_public_key : bytes)
  (plaintext : string) : result Nip44Error string :=
  let? nonce := ok_or RandomnessUnavailable random in
  encrypt_with_nonce local_secret peer_public_key plaintext nonce.

Definition decrypt (local_secret peer_public_key : bytes) (payload : string)
  : result Nip44Error string :=
  let? key := conversation_key local_secret peer_public_key in
  decrypt_with_conversation_key key payload.
End Cipher.

(** ** The padded length *)

Lemma next_power_bounds n :
  32 < n -> let p := 2 ^ Z.log2_up n in n <= p < 2 * n /\ 64 <= p.
Proof.
  intros Hn p. unfold p. pose proof (Z.log2_up_spec n ltac:(lia)) as [Hlo Hhi].
  assert (6 <= Z.log2_up n) as H6.
  { change 6 with (Z.log2_up 33). apply Z.log2_up_le_mono. lia. }
  assert (2 ^ 6 <= 2 ^ Z.log2_up n) by (apply Z.pow_le_mono_r; lia).
  replace (2 ^ Z.log2_up n) with (2 * 2 ^ Z.pred (Z.log2_up n)) in *; [lia|].
  rewrite <- Z.pow_succ_r by lia. f_equal. lia.
Qed.

(** Both chunk sizes divide the next power of two, and are multiples of 32. *)
Lemma chunk_facts n :
  32 < n -> let p := 2 ^ Z.log2_up n in
  let chunk := if p <=? 256 then 32 else p / 8 in
  exists a b, p = a * chunk /\ chunk = 32 * b /\ 0 < a /\ 0 < b.
Proof.
  intros Hn p chunk. unfold chunk, p.
  assert (6 <= Z.log2_up n) as H6.
  { change 6 with (Z.log2_up 33). apply Z.log2_up_le_mono. lia. }
  set (k := Z.log2_up n) in *. destruct (2 ^ k <=? 256) eqn:E; split_bools.
  - exists (2 ^ (k - 5)), 1. replace (2 ^ k) with (2 ^ (k - 5) * 2 ^ 5).
    + pose proof (Z.pow_pos_nonneg 2 (k - 5)). lia.
    + rewrite <- Z.pow_add_r by lia. f_equal; lia.
  - assert (8 < k) by (apply (Z.pow_lt_mono_r_iff 2); lia).
    assert (2 ^ k = 2 ^ (k - 3) * 8) as Ek.
    { change 8 with (2 ^ 3). rewrite <- Z.pow_add_r by lia. f_equal; lia. }
    assert (2 ^ k / 8 = 2 ^ (k - 3)) as -> by (rewrite Ek; apply Z.div_mul; lia).
    assert (2 ^ (k - 3) = 32 * 2 ^ (k - 8)) as E3.
    { change 32 with (2 ^ 5). rewrite <- Z.pow_add_r by lia. f_equal; lia. }
    exists 8, (2 ^ (k - 8)). pose proof (Z.pow_pos_nonneg 2 (k - 8)). lia.
Qed.

(** Rounding up to a multiple of [c] stays below every multiple of [c] above. *)
Lemma round_up_bounds n c :
  0 < n -> 0 < c ->
  n <= ((n - 1) / c + 1) * c < n + c /\
  (forall a, n <= a * c -> ((n - 1) / c + 1) * c <= a * c).
Proof.
  intros Hn Hc. pose proof (Z.div_mod (n - 1) c ltac:(lia)).
  pose proof (Z.mod_pos_bound (n - 1) c Hc). split; [nia|].
  intros a Ha. assert ((n - 1) / c < a) by (apply Z.div_lt_upper_bound; lia). nia.
Qed.

Lemma calc_padded_len_eq n :
  32 < n <= 2 ^ 62 ->
  let p := 2 ^ Z.log2_up n in
  let chunk := if p <=? 256 then 32 else p / 8 in
  calc_padded_len n = Ok (((n - 1) / chunk + 1) * chunk).
Proof.
  intros Hn p chunk. pose proof (next_power_bounds n ltac:(lia)) as [Hp Hp64].
  destruct (chunk_facts n ltac:(lia)) as (a & b & Ha & Hb & ? & ?). fold p chunk in Ha, Hb, Hp.
  assert (0 < chunk) by lia.
  pose proof (round_up_bounds n chunk ltac:(lia) ltac:(lia)) as [_ Hr].
  specialize (Hr a ltac:(lia)).
  assert (0 <= (n - 1) / chunk <= n - 1).
  { split; [apply Z.div_pos; lia | apply Z.div_le_upper_bound; nia]. }
  unfold calc_padded_len, checked_next_power_of_two. fold p.
  rewrite (proj2 (Z.eqb_neq n 0)), (proj2 (Z.leb_gt n 32)) by lia.
  rewrite (proj2 (Z.leb_le p usize_max)) by (unfold_ints; lia). simpl. fold chunk.
  unfold checked_sub. rewrite (proj2 (Z.leb_le 1 n)) by lia. simpl.
  unfold checked_div. rewrite (proj2 (Z.eqb_neq chunk 0)) by lia. simpl.
  unfold checked_add. rewrite (proj2 (Z.leb_le ((n - 1) / chunk + 1) usize_max)) by (unfold_ints; lia).
  simpl. unfold checked_mul.
  rewrite (proj2 (Z.leb_le (((n - 1) / chunk + 1) * chunk) usize_max)) by (unfold_ints; lia).
  done.
Qed.

Lemma calc_padded_len_total n :
  0 < n <= 2 ^ 62 ->
  exists p, calc_padded_len n = Ok p /\ n <= p /\ 32 <= p /\ p mod 32 = 0 /\
    p <= Z.max 32 (2 ^ Z.log2_up n) /\ p < n + Z.max 32 (n / 4 + 1).
Proof.
  intros Hn. destruct (Z.le_gt_cases n 32) as [Hle|Hgt].
  - exists 32. unfold calc_padded_len.
    rewrite (proj2 (Z.eqb_neq n 0)), (proj2 (Z.leb_le n 32)) by lia.
    split; [done|]. split; [lia|]. split; [lia|]. split; [done|]. lia.
  - rewrite (calc_padded_len_eq n) by lia.
    pose proof (next_power_bounds n ltac:(lia)) as [Hp Hp64].
    destruct (chunk_facts n ltac:(lia)) as (a & b & Ha & Hb & ? & ?).
    set (p := 2 ^ Z.log2_up n) in *. set (c := if p <=? 256 then 32 else p / 8) in *.
    pose proof (round_up_bounds n c ltac:(lia) ltac:(lia)) as [Hr Hm].
    specialize (Hm a ltac:(lia)).
    eexists; split; [done|]. split; [lia|]. split; [lia|]. split.
    { apply Z.mod_divide; [lia|]. apply Z.divide_mul_r. exists b. lia. }
    split; [lia|]. enough (c <= Z.max 32 (n / 4 + 1)) by lia.
    unfold c. destruct (p <=? 256); [lia|].
    assert (p / 8 <= n / 4); [|lia].
    replace (p / 8) with (p / 2 / 4) by (rewrite Z.div_div by lia; done).
    apply Z.div_le_mono; [lia|]. apply Z.div_le_upper_bound; lia.
Qed.

(** ** [unpad] is the exact inverse of [pad] *)

Definition pad_prefix (n : Z) : bytes :=
  if EXTENDED_PREFIX_THRESHOLD <=? n then [x00; x00] ++ be_bytes 4 n else be_bytes 2 n.

Lemma zlen_be_bytes n z : zlen (be_bytes n z) = Z.of_nat n.
Proof. unfold zlen. by rewrite length_be_bytes. Qed.

Lemma zlen_pad_prefix n :
  zlen (pad_prefix n) = if EXTENDED_PREFIX_THRESHOLD <=? n then 6 else 2.
Proof. unfold pad_prefix. destruct (_ <=? _); by rewrite ?zlen_app, zlen_be_bytes. Qed.

Lemma calc_padded_len_plaintext n :
  0 < n <= MAX_PLAINTEXT_LEN ->
  exists k, calc_padded_len n = Ok k /\ n <= k <= MAX_PLAINTEXT_LEN /\ 32 <= k.
Proof.
  intros Hn. destruct (calc_padded_len_total n) as (k & Hk & ? & ? & _ & Hmax & _).
  { unfold MAX_PLAINTEXT_LEN in Hn. lia. }
  exists k. split; [done|]. split; [|lia]. split; [lia|]. etrans; [exact Hmax|].
  apply Z.max_lub; [done|]. change MAX_PLAINTEXT_LEN with (2 ^ 20).
  apply Z.pow_le_mono_r; [lia|]. change 20 with (Z.log2_up MAX_PLAINTEXT_LEN).
  apply Z.log2_up_le_mono. lia.
Qed.

Lemma resize_zero_grow n l :
  zlen l <= n -> resize_zero n l = l ++ replicate (Z.to_nat (n - zlen l)) x00.
Proof. intros ?. unfold resize_zero, zlen in *. by rewrite take_ge by lia. Qed.

Lemma pad_ok p :
  0 < zlen p <= MAX_PLAINTEXT_LEN ->
  exists k, calc_padded_len (zlen p) = Ok k /\
    pad p = Ok (pad_prefix (zlen p) ++ p ++ replicate (Z.to_nat (k - zlen p)) x00).
Proof.
  intros Hp. destruct (calc_padded_len_plaintext (zlen p) Hp) as (k & Hk & ? & ?).
  exists k. split; [done|]. unfold pad. rewrite (proj2 (Z.eqb_neq (zlen p) 0)) by lia.
  rewrite (proj2 (Z.ltb_ge MAX_PLAINTEXT_LEN (zlen p))), (proj2 (Z.ltb_ge u32_max (zlen p)))
    by (unfold MAX_PLAINTEXT_LEN, u32_max in *; lia). simpl. rewrite Hk. simpl.
  replace (if (if EXTENDED_PREFIX_THRESHOLD <=? zlen p then 6 else 2) =? 6 then _ else _)
    with (pad_prefix (zlen p)) by (unfold pad_prefix; by destruct (_ <=? _)).
  rewrite <- zlen_pad_prefix, resize_zero_grow by (rewrite zlen_app; lia).
  rewrite zlen_app, <- app_assoc. do 4 f_equal. lia.
Qed.

(** What [unpad] reads back from the two prefix forms. *)
Lemma unpad_prefixed n rest :
  0 < n <= MAX_PLAINTEXT_LEN ->
  unpad (pad_prefix n ++ rest) =
    let prefix_len := zlen (pad_prefix n) in
    let? padded_len := calc_padded_len n in
    fail_if negb (zlen (pad_prefix n ++ rest) =? prefix_len + padded_len) with InvalidPadding ;;
    ok_or InvalidPadding (slice_get (pad_prefix n ++ rest) prefix_len (prefix_len + n)).
Proof.
  intros Hn. destruct (calc_padded_len_plaintext n Hn) as (k & Hk & ? & ?).
  unfold MAX_PLAINTEXT_LEN in Hn. rewrite zlen_pad_prefix. unfold pad_prefix.
  destruct (EXTENDED_PREFIX_THRESHOLD <=? n) eqn:E; split_bools;
    unfold EXTENDED_PREFIX_THRESHOLD in E.
  - pose proof (length_be_bytes 4 n) as L. pose proof (be_bytes_small 4 n) as V.
    destruct (be_bytes 4 n) as [|c0 [|c1 [|c2 [|c3 [|]]]]]; try discriminate L.
    rewrite <- app_assoc. simpl app.
    cbv beta iota delta [unpad]. cbv zeta. change (from_be_bytes [x00; x00] =? 0) with true.
    cbv iota. rewrite V by lia. unfold EXTENDED_PREFIX_THRESHOLD.
    rewrite (proj2 (Z.ltb_ge n 65536)) by lia. cbn [rbind].
    rewrite (proj2 (Z.ltb_ge MAX_PLAINTEXT_LEN n)), Hk by (unfold MAX_PLAINTEXT_LEN; lia).
    cbn [rbind]. unfold checked_add.
    rewrite !(proj2 (Z.leb_le _ usize_max)) by (unfold MAX_PLAINTEXT_LEN in *; unfold_ints; lia).
    done.
  - pose proof (length_be_bytes 2 n) as L. pose proof (be_bytes_small 2 n) as V.
    destruct (be_bytes 2 n) as [|c0 [|c1 [|]]]; try discriminate L. simpl app.
    cbv beta iota delta [unpad]. cbv zeta. rewrite V by lia.
    rewrite (proj2 (Z.eqb_neq n 0)) by lia. cbn [rbind].
    rewrite (proj2 (Z.ltb_ge MAX_PLAINTEXT_LEN n)), Hk by (unfold MAX_PLAINTEXT_LEN; lia).
    cbn [rbind]. unfold checked_add.
    rewrite !(proj2 (Z.leb_le _ usize_max)) by (unfold MAX_PLAINTEXT_LEN in *; unfold_ints; lia).
    done.
Qed.

Lemma slice_get_app l1 l2 l3 :
  slice_get (l1 ++ l2 ++ l3) (zlen l1) (zlen l1 + zlen l2) = Some l2.
Proof.
  unfold slice_get. pose proof (zlen_nonneg l2). pose proof (zlen_nonneg l3).
  rewrite (proj2 (Z.leb_le _ _)), (proj2 (Z.leb_le _ _)) by (rewrite ?zlen_app; lia).
  simpl. unfold zlen. rewrite Nat2Z.id, drop_app_length.
  replace (Z.to_nat _) with (length l2) by lia. by rewrite take_app_length.
Qed.

(** [unpad] returns [p] exactly on the byte strings of the padded length that
    start with [p]'s length prefix and [p]; the padding bytes are not read. *)
Lemma unpad_iff x p :
  unpad x = Ok p <->
  0 < zlen p <= MAX_PLAINTEXT_LEN /\
  exists k tail, calc_padded_len (zlen p) = Ok k /\ zlen tail = k - zlen p /\
    x = pad_prefix (zlen p) ++ p ++ tail.
Proof.
  split.
  - intros Hx.
    enough (exists n rest, x = pad_prefix n ++ rest /\ 0 < n <= MAX_PLAINTEXT_LEN)
      as (n & rest & -> & Hn).
    { rewrite unpad_prefixed in Hx by done. cbv zeta in Hx. inv_ok. split_bools.
      rewrite zlen_app in Hb. unfold slice_get in Hx. case_match; [|done].
      split_bools. injection Hx as <-.
      unfold zlen in *. rewrite Nat2Z.id, drop_app_length.
      replace (Z.to_nat _) with (Z.to_nat n) by lia.
      rewrite length_app in *.
      assert (Z.of_nat (length (take (Z.to_nat n) rest)) = n) as En
        by (rewrite length_take; lia).
      rewrite En. split; [done|]. exists a, (drop (Z.to_nat n) rest).
      rewrite length_drop, take_drop. repeat split; [done | lia]. }
    unfold unpad in Hx. destruct x as [|b0 [|b1 rest]]; try discriminate Hx.
    inv_ok. destruct a as [pl n]. inv_ok. split_bools.
    pose proof (be_bytes_from_be_bytes [b0; b1]) as B. cbn [length] in B.
    destruct (from_be_bytes [b0; b1] =? 0) eqn:E0; split_bools.
    + destruct rest as [|b2 [|b3 [|b4 [|b5 rest]]]]; try discriminate Ha.
      inv_ok. split_bools.
      pose proof (be_bytes_from_be_bytes [b2; b3; b4; b5]) as B4. cbn [length] in B4.
      exists (from_be_bytes [b2; b3; b4; b5]), rest.
      unfold pad_prefix. rewrite (proj2 (Z.leb_le _ _)) by lia. rewrite B4, E0 in *.
      cbn in B. injection B as <- <-. split; [done|].
      unfold EXTENDED_PREFIX_THRESHOLD in *. lia.
    + inv_ok. exists (from_be_bytes [b0; b1]), rest.
      pose proof (from_be_bytes_nonneg [b0; b1]). pose proof (from_be_bytes_lt [b0; b1]) as Hlt.
      change (256 ^ zlen [b0; b1]) with 65536 in Hlt.
      unfold pad_prefix. rewrite (proj2 (Z.leb_gt _ _)) by (unfold EXTENDED_PREFIX_THRESHOLD; lia).
      rewrite B. split; [done|]. lia.
  - intros (Hn & k & tail & Hk & Ht & ->). rewrite unpad_prefixed by done. cbv zeta.
    rewrite Hk. cbn [rbind]. rewrite !zlen_app, (proj2 (Z.eqb_eq _ _)) by lia. simpl.
    by rewrite slice_get_app.
Qed.

Lemma unpad_pad_id p x : pad p = Ok x -> unpad x = Ok p.
Proof.
  intros Hp. assert (0 < zlen p <= MAX_PLAINTEXT_LEN) as Hn.
  { unfold pad in Hp. inv_ok. split_bools. pose proof (zlen_nonneg p). lia. }
  destruct (pad_ok p Hn) as (k & Hk & Hk'). rewrite Hp in Hk'. injection Hk' as ->.
  apply unpad_iff. split; [done|].
  destruct (calc_padded_len_plaintext _ Hn) as (k' & Hk'' & ? & ?).
  assert (k' = k) as -> by congruence.
  exists k, (replicate (Z.to_nat (k - zlen p)) x00). repeat split; [done|].
  unfold zlen at 1. rewrite length_replicate. lia.
Qed.

(** ** The payload *)

Lemma maximum_encoded_payload_len_eq : maximum_encoded_payload_len = Ok 1398196.
Proof. vm_compute. reflexivity. Qed.

Section CipherFacts.
Context {crypto : Nip44Crypto} {schnorr : Schnorr} {b64 : Base64}.
Context {crypto_laws : Nip44CryptoLaws} {b64_laws : Base64Laws}.

Lemma conversation_key_shared sk1 pk1 sk2 pk2 :
  schnorr_public_key sk1 = Some pk1 -> schnorr_public_key sk2 = Some pk2 ->
  exists key, conversation_key sk1 pk2 = Ok key /\ conversation_key sk2 pk1 = Ok key /\
    zlen key = 32.
Proof using Type*.
  intros H1 H2. destruct (schnorr_key_is_secret sk1 pk1 H1) as [S1 P1].
  destruct (schnorr_key_is_secret sk2 pk2 H2) as [S2 P2].
  destruct (ecdh_symmetric sk1 pk1 sk2 pk2 H1 H2) as (x & X1 & X2).
  unfold conversation_key. rewrite S1, S2, P1, P2, X1, X2. simpl.
  eexists; repeat split. apply hkdf_extract_length.
Qed.

(** The three slices of the message keys have the lengths the primitives want. *)
Lemma message_keys_ok key nonce :
  zlen key = 32 -> exists keys, message_keys key nonce = Ok keys /\
    zlen (cipher_key keys) = 32 /\ zlen (cipher_iv keys) = 12 /\ zlen (mac_key keys) = 32.
Proof using Type*.
  intros Hk. destruct (hkdf_expand_ok key nonce MESSAGE_KEY_LEN) as (keys & E & L);
    [done | unfold MESSAGE_KEY_LEN; lia |].
  exists keys. unfold message_keys. rewrite E. split; [done|].
  unfold cipher_key, cipher_iv, mac_key, MESSAGE_KEY_LEN, zlen in *.
  rewrite !length_take, !length_drop. lia.
Qed.

(** The raw payload before base64, and the facts the size checks of
    [decrypt_with_conversation_key] look at. *)
Lemma payload_sizes nonce ct tag k :
  zlen nonce = 32 -> zlen tag = 32 -> zlen ct = k -> 34 <= k <= 6 + MAX_PLAINTEXT_LEN ->
  let raw := [byte_of_Z VERSION] ++ nonce ++ ct ++ tag in
  let payload := base64_encode raw in
  slen payload <> 0 /\ starts_with "#" payload = false /\
  MIN_ENCODED_PAYLOAD_LEN <= slen payload <= 1398196 /\
  zlen raw = k + 65.
Proof using Type*.
  intros Hn Ht Hc Hk raw payload.
  assert (zlen raw = k + 65) as Hraw
    by (unfold raw; rewrite !zlen_app, Hn, Ht, Hc; unfold zlen; simpl; lia).
  pose proof (base64_encode_length raw) as Hlen. fold payload in Hlen. rewrite Hraw in Hlen.
  assert (MIN_ENCODED_PAYLOAD_LEN <= slen payload <= 1398196) as Hs.
  { rewrite Hlen. unfold MIN_ENCODED_PAYLOAD_LEN, MAX_PLAINTEXT_LEN in *.
    assert (33 <= (k + 65 + 2) / 3) by (apply Z.div_le_lower_bound; lia).
    assert ((k + 65 + 2) / 3 < 349550) by (apply Z.div_lt_upper_bound; lia). lia. }
  split; [unfold MIN_ENCODED_PAYLOAD_LEN in Hs; lia|]. split; [|done].
  apply not_true_is_false. unfold starts_with. intros [t Et]%bytes_prefix_spec.
  pose proof (base64_encode_alphabet raw) as Ha. unfold bytes_all in Ha.
  fold payload in Ha. rewrite Et in Ha. by vm_compute in Ha.
Qed.

Lemma decrypt_encrypt_key key nonce msg payload :
  zlen key = 32 -> zlen nonce = 32 -> utf8_valid msg = true ->
  encrypt_with_conversation_key key msg nonce = Ok payload ->
  decrypt_with_conversation_key key payload = Ok msg.
Proof using Type*.
  intros Hk Hn Hu He. unfold encrypt_with_conversation_key in He.
  destruct (message_keys_ok key nonce Hk) as (keys & Ek & Lk & Li & _).
  inv_ok. rename a into padded, a1 into ct, a2 into tag, Ha into Hpad.
  rewrite Ek in Ha0. injection Ha0 as <-.
  destruct (chacha20_ok (cipher_key keys) (cipher_iv keys) padded Lk Li)
    as (ct' & C1 & C2 & C3). assert (ct' = ct) as -> by congruence.
  destruct (hmac_ok (mac_key keys) (nonce ++ ct)) as (tag' & T1 & T2).
  assert (tag' = tag) as -> by congruence.
  pose proof (unpad_pad_id _ _ Hpad) as Hunpad.
  assert (34 <= zlen ct <= 6 + MAX_PLAINTEXT_LEN) as Hct.
  { rewrite C2. apply unpad_iff in Hunpad as (Hlen & k & tail & Hk' & Htail & ->).
    destruct (calc_padded_len_plaintext _ Hlen) as (k2 & ? & ? & ?).
    assert (k2 = k) as -> by congruence. rewrite !zlen_app, zlen_pad_prefix, Htail.
    destruct (_ <=? _); lia. }
  destruct (payload_sizes nonce ct tag _ Hn T2 eq_refl Hct) as (S1 & S2 & S3 & S4).
  set (raw := [byte_of_Z VERSION] ++ nonce ++ ct ++ tag) in *.
  change (decrypt_with_conversation_key key (base64_encode raw) = Ok msg).
  unfold decrypt_with_conversation_key. rewrite S2, maximum_encoded_payload_len_eq.
  rewrite (proj2 (Z.eqb_neq _ _) S1), (proj2 (Z.ltb_ge _ _)) by lia. cbn [rbind orb].
  rewrite (proj2 (Z.ltb_ge _ _)) by lia. rewrite base64_roundtrip. cbn [ok_or rbind].
  rewrite (proj2 (Z.ltb_ge _ _)) by (unfold MIN_DECODED_PAYLOAD_LEN; lia).
  change (byte_val (default x00 (head raw)) =? VERSION) with true. cbn [negb].
  assert (drop 1 raw = nonce ++ ct ++ tag) as D1 by done.
  assert (drop 33 raw = ct ++ tag) as D2.
  { change 33%nat with (1 + 32)%nat. rewrite <- drop_drop, D1. unfold zlen in Hn.
    by apply drop_app_length'; lia. }
  assert (take 32 (drop 1 raw) = nonce) as ->
    by (rewrite D1; apply take_app_length'; unfold zlen in Hn; lia).
  assert (take (Z.to_nat (zlen raw - MAC_LEN - 33)) (drop 33 raw) = ct) as ->.
  { rewrite D2. apply take_app_length'. rewrite S4. unfold zlen, MAC_LEN. lia. }
  assert (drop (Z.to_nat (zlen raw - MAC_LEN)) raw = tag) as ->.
  { unfold raw at 2. rewrite !app_assoc. apply drop_app_length'.
    rewrite S4, !length_app. unfold zlen, MAC_LEN in *. simpl. lia. }
  rewrite Ek. cbn [rbind]. rewrite T1. cbn [ok_or rbind].
  rewrite bool_decide_true by done. cbn [negb]. rewrite C3. cbn [ok_or rbind].
  rewrite Hunpad. cbn [rbind]. by rewrite from_utf8_as_bytes.
Qed.

Lemma encrypt_total key nonce msg :
  zlen key = 32 -> 0 < slen msg <= MAX_PLAINTEXT_LEN ->
  exists payload, encrypt_with_conversation_key key msg nonce = Ok payload.
Proof using Type*.
  intros Hk Hm. rewrite <- zlen_as_bytes in Hm.
  destruct (pad_ok _ Hm) as (k & _ & Hp).
  destruct (message_keys_ok key nonce Hk) as (keys & Ek & Lk & Li & _).
  unfold encrypt_with_conversation_key. rewrite Hp, Ek. cbn [rbind].
  destruct (chacha20_ok _ _ (pad_prefix (zlen (as_bytes msg)) ++ as_bytes msg ++
    replicate (Z.to_nat (k - zlen (as_bytes msg))) x00) Lk Li) as (ct & -> & _).
  cbn [ok_or rbind].
  destruct (hmac_ok (mac_key keys) (nonce ++ ct)) as (tag & -> & _). eexists; done.
Qed.

(** What one side encrypted, the other decrypts. *)
Lemma nip44_decrypts sk1 pk1 sk2 pk2 nonce msg payload :
  schnorr_public_key sk1 = Some pk1 -> schnorr_public_key sk2 = Some pk2 ->
  zlen nonce = 32 -> utf8_valid msg = true ->
  encrypt_with_nonce sk1 pk2 msg nonce = Ok payload -> decrypt sk2 pk1 payload = Ok msg.
Proof using Type*.
  intros H1 H2 Hn Hu He.
  destruct (conversation_key_shared sk1 pk1 sk2 pk2 H1 H2) as (key & K1 & K2 & Lk).
  unfold encrypt_with_nonce in He. unfold decrypt. rewrite K1 in He. rewrite K2.
  cbn [rbind] in *. eauto using decrypt_encrypt_key.
Qed.

(** A payload is never shorter than its text. *)
Lemma encrypt_with_nonce_expands sk pk msg nonce payload :
  encrypt_with_nonce sk pk msg nonce = Ok payload -> slen msg <= slen payload.
Proof using Type*.
  intros He. unfold encrypt_with_nonce, encrypt_with_conversation_key in He. inv_ok.
  assert (zlen a = 32) as La.
  { unfold conversation_key in Ha. inv_ok. apply hkdf_extract_length. }
  destruct (message_keys_ok a nonce La) as (keys & Ek & Lk & Li & _).
  assert (a1 = keys) as -> by congruence.
  destruct (chacha20_ok (cipher_key keys) (cipher_iv keys) a0 Lk Li) as (ct & C1 & C2 & _).
  assert (a2 = ct) as -> by congruence.
  apply unpad_pad_id, unpad_iff in Ha0 as (Hm & k & tail & _ & _ & ->).
  rewrite <- (zlen_as_bytes msg), base64_encode_length. rewrite !zlen_app in C2.
  autorewrite with omachat. rewrite C2.
  pose proof (zlen_nonneg tail). pose proof (zlen_nonneg nonce). pose proof (zlen_nonneg a3).
  pose proof (zlen_nonneg (pad_prefix (zlen (as_bytes msg)))).
  pose proof (zlen_nonneg (as_bytes msg)). Z.to_euclidean_division_equations. lia.
Qed.

Lemma nip44_channel sk1 pk1 sk2 pk2 nonce msg :
  schnorr_public_key sk1 = Some pk1 -> schnorr_public_key sk2 = Some pk2 ->
  zlen nonce = 32 -> utf8_valid msg = true -> 0 < slen msg <= MAX_PLAINTEXT_LEN ->
  exists payload, encrypt_with_nonce sk1 pk2 msg nonce = Ok payload /\
    decrypt sk2 pk1 payload = Ok msg.
Proof using Type*.
  intros H1 H2 Hn Hu Hm.
  destruct (conversation_key_shared sk1 pk1 sk2 pk2 H1 H2) as (key & K1 & K2 & Lk).
  destruct (encrypt_total key nonce msg Lk Hm) as (payload & He).
  exists payload. assert (encrypt_with_nonce sk1 pk2 msg nonce = Ok payload) as Hp
    by (unfold encrypt_with_nonce; by rewrite K1).
  eauto using nip44_decrypts.
Qed.

(** Inversion: what a payload that decrypts looked like. *)
Lemma decrypt_inv key payload msg :
  decrypt_with_conversation_key key payload = Ok msg ->
  exists nonce ct tag keys padded,
    base64_decode payload = Some ([byte_of_Z VERSION] ++ nonce ++ ct ++ tag) /\
    zlen nonce = 32 /\ zlen tag = 32 /\
    message_keys key nonce = Ok keys /\
    hmac_sha256 (mac_key keys) (nonce ++ ct) = Some tag /\
    chacha20 (cipher_key keys) (cipher_iv keys) ct = Some padded /\
    unpad padded = Ok (as_bytes msg) /\ utf8_valid msg = true.
Proof using Type*.
  intros Hd. unfold decrypt_with_conversation_key in Hd. inv_ok. split_bools.
  rename a0 into raw. apply from_utf8_inv in Hd as [Hm Hu]. subst a4.
  unfold MIN_DECODED_PAYLOAD_LEN in *. set (e := zlen raw - MAC_LEN) in *.
  exists (take 32 (drop 1 raw)), (take (Z.to_nat (e - 33)) (drop 33 raw)),
    (drop (Z.to_nat e) raw), a1, a3. subst a2. split; [|repeat split; try done].
  - rewrite Ha0. f_equal. destruct raw as [|v raw]; [unfold zlen in *; simpl in *; lia|].
    match goal with V : byte_val (default x00 (head (v :: raw))) = VERSION |- _ =>
      simpl in V; apply (f_equal byte_of_Z) in V; rewrite byte_of_Z_val in V; subst v end.
    simpl app at 1. f_equal. change (drop 1 (byte_of_Z VERSION :: raw)) with raw.
    rewrite <- (take_drop 32 raw) at 1. f_equal.
    change (drop 33 (byte_of_Z VERSION :: raw)) with (drop 32 raw).
    rewrite <- (take_drop (Z.to_nat (e - 33)) (drop 32 raw)) at 1. f_equal.
    rewrite drop_drop. unfold e, zlen, MAC_LEN in *. cbn [length] in *.
    replace (Z.to_nat (Z.of_nat (S (length raw)) - 32))
      with (S (32 + Z.to_nat (Z.of_nat (S (length raw)) - 32 - 33))) by lia.
    done.
  - unfold zlen in *. rewrite length_take, length_drop. lia.
  - unfold e, zlen, MAC_LEN in *. rewrite length_drop. lia.
Qed.
End CipherFacts.

(** ** Properties *)

Section Properties.
Context {crypto : Nip44Crypto} {schnorr : Schnorr} {b64 : Base64}.
Context {crypto_laws : Nip44CryptoLaws} {b64_laws : Base64Laws}.

(** C32: a message of 1 byte to 1 MiB encrypted by one key holder for another is
    always produced, passes every size and version check on the other side, and
    decrypts there to the same text. *)
Theorem nip44_roundtrip sk1 pk1 sk2 pk2 nonce msg :
  schnorr_public_key sk1 = Some pk1 -> schnorr_public_key sk2 = Some pk2 ->
  zlen nonce = NONCE_LEN -> utf8_valid msg = true -> 0 < slen msg <= MAX_PLAINTEXT_LEN ->
  exists payload, encrypt_with_nonce sk1 pk2 msg nonce = Ok payload /\
    decrypt sk2 pk1 payload = Ok msg.
Proof using Type*. apply nip44_channel. Qed.

(** A payload decrypts to a text only if it is version 2, carries a 32-byte
    nonce and tag, the tag is the HMAC of the nonce and the ciphertext under the
    message key of that nonce, and the deciphered bytes are a well-formed padding
    of that text. *)
Theorem decrypt_authenticates sk pk payload msg :
  decrypt sk pk payload = Ok msg ->
  exists key nonce ct tag keys padded,
    conversation_key sk pk = Ok key /\
    base64_decode payload = Some ([byte_of_Z VERSION] ++ nonce ++ ct ++ tag) /\
    zlen nonce = NONCE_LEN /\ zlen tag = MAC_LEN /\
    message_keys key nonce = Ok keys /\
    hmac_sha256 (mac_key keys) (nonce ++ ct) = Some tag /\
    chacha20 (cipher_key keys) (cipher_iv keys) ct = Some padded /\
    unpad padded = Ok (as_bytes msg) /\ utf8_valid msg = true.
Proof using Type*.
  unfold decrypt. intros H. inv_ok. exists a.
  destruct (decrypt_inv a payload msg H) as (? & ? & ? & ? & ? & ?). eauto 10.
Qed.
End Properties.

(** [unpad] accepts exactly the byte strings made of a text's length prefix, the
    text, and as many further bytes as the padded length asks for; so it inverts
    [pad], and the values of the padding bytes are not checked. *)
Theorem unpad_exact x p :
  unpad x = Ok p <->
  0 < zlen p <= MAX_PLAINTEXT_LEN /\
  exists k tail, calc_padded_len (zlen p) = Ok k /\ zlen tail = k - zlen p /\
    x = pad_prefix (zlen p) ++ p ++ tail.
Proof. apply unpad_iff. Qed.

(** For every length up to 2^62 the checked arithmetic of [calc_padded_len] does
    not overflow, and the padded length is a multiple of 32 that covers the text and
    exceeds it by less than 32 bytes or a quarter of its length. *)
Theorem calc_padded_len_bounds n :
  0 < n <= 2 ^ 62 ->
  exists p, calc_padded_len n = Ok p /\ n <= p /\ p mod 32 = 0 /\
    p <= Z.max 32 (2 ^ Z.log2_up n) /\ p < n + Z.max 32 (n / 4 + 1).
Proof.
  intros Hn. destruct (calc_padded_len_total n Hn) as (p & ? & ? & ? & ? & ? & ?).
  exists p. tauto.
Qed.

Lemma calc_padded_len_bounds_witness :
  0 < 65537 <= 2 ^ 62 /\ calc_padded_len 65537 = Ok 81920 /\
  exists p, calc_padded_len 65537 = Ok p /\ 65537 <= p /\ p mod 32 = 0 /\
    p <= Z.max 32 (2 ^ Z.log2_up 65537) /\ p < 65537 + Z.max 32 (65537 / 4 + 1).
Proof.
  split; [lia|]. split; [vm_compute; reflexivity|].
  apply (calc_padded_len_bounds 65537). lia.
Defined.

Lemma nip44_roundtrip_witness :
  exists payload,
    encrypt_with_nonce (key_of 5) (key_of 7) "hello" (key_of 9) = Ok payload /\
    decrypt (key_of 7) (key_of 5) payload = Ok "hello"%string.
Proof.
  apply (nip44_roundtrip (key_of 5) (key_of 5) (key_of 7) (key_of 7));
    [reflexivity | reflexivity | reflexivity | reflexivity |].
  split; [reflexivity | discriminate].
Defined.

Definition sample_payload : string := Eval vm_compute in
  match encrypt_with_nonce (key_of 5) (key_of 7) "hi" (key_of 9) with
  | Ok payload => payload
  | Err _ => ""
  end.

Lemma decrypt_authenticates_witness :
  decrypt (key_of 7) (key_of 5) sample_payload = Ok "hi"%string /\
  exists key nonce ct tag keys padded,
    conversation_key (key_of 7) (key_of 5) = Ok key /\
    base64_decode sample_payload = Some ([byte_of_Z VERSION] ++ nonce ++ ct ++ tag) /\
    zlen nonce = NONCE_LEN /\ zlen tag = MAC_LEN /\
    message_keys key nonce = Ok keys /\
    hmac_sha256 (mac_key keys) (nonce ++ ct) = Some tag /\
    chacha20 (cipher_key keys) (cipher_iv keys) ct = Some padded /\
    unpad padded = Ok (as_bytes "hi") /\ utf8_valid "hi" = true.
Proof.
  split; [vm_compute; reflexivity|].
  apply decrypt_authenticates. vm_compute. reflexivity.
Defined.
