(* ===== verification/Event.v ===== *)
(** * NIP-01 events ([omachat-nostr/src/event.rs])

    Unsigned and signed events, their limits, canonical bytes, identifiers, signing
    and verification. *)

From Stdlib Require Import Strings.Byte Ascii String.
From S2P Require Import Prelude RustStd Libs Serde Concrete.
Local Open Scope Z_scope.

Abbreviation Tag := (list string).

Record UnsignedEvent := {
  ue_pubkey : string;
  ue_created_at : Z;
  ue_kind : Z;
  ue_tags : list Tag;
  ue_content : string
}.

Record SignedEvent := {
  id : string;
  pubkey : string;
  created_at : Z;
  kind : Z;
  tags : list Tag;
  content : string;
  sig : string
}.

Record EventLimits := {
  max_serialized_bytes : Z;
  max_content_bytes : Z;
  max_tags : Z;
  max_tag_fields : Z;
  max_tag_field_bytes : Z;
  max_future_seconds : Z
}.

Definition DEFAULT_MAX_SERIALIZED_BYTES : Z := 256 * 1024.
Definition DEFAULT_MAX_CONTENT_BYTES : Z := 64 * 1024.
Definition DEFAULT_MAX_TAGS : Z := 64.
Definition DEFAULT_MAX_TAG_FIELDS : Z := 16.
Definition DEFAULT_MAX_TAG_FIELD_BYTES : Z := 1024.
Definition DEFAULT_MAX_FUTURE_SECONDS : Z := 15 * 60.

Definition EventLimits_default : EventLimits := {|
  max_serialized_bytes := DEFAULT_MAX_SERIALIZED_BYTES;
  max_content_bytes := DEFAULT_MAX_CONTENT_BYTES;
  max_tags := DEFAULT_MAX_TAGS;
  max_tag_fields := DEFAULT_MAX_TAG_FIELDS;
  max_tag_field_bytes := DEFAULT_MAX_TAG_FIELD_BYTES;
  max_future_seconds := DEFAULT_MAX_FUTURE_SECONDS
|}.

(** The payload of [Json] (a [serde_json::Error]) is not modelled. *)
Inductive EventError :=
| EJson
| EInvalidHex (expected_bytes : Z)
| ESecretKey
| EPublicKey
| EPublicKeyMismatch
| ESigning
| ESignature
| EIdMismatch
| ESerializedTooLarge (size maximum : Z)
| EContentTooLarge (size maximum : Z)
| ETooManyTags (count maximum : Z)
| ETooManyTagFields (tag_index count maximum : Z)
| ETagFieldTooLarge (tag_index field_index size maximum : Z)
| ETooFarInFuture (created_at maximum : Z).

#[export] Instance UnsignedEvent_eq_dec : EqDecision UnsignedEvent.
Proof. solve_decision. Defined.
#[export] Instance SignedEvent_eq_dec : EqDecision SignedEvent.
Proof. solve_decision. Defined.
#[export] Instance EventError_eq_dec : EqDecision EventError.
Proof. solve_decision. Defined.

(** [Display for EventError], which the relay-list and inbox errors embed *)
Definition EventError_to_string (e : EventError) : string :=
  match e with
  | EJson => "invalid event JSON"
  | EInvalidHex n =>
      "event hex field must be lowercase and exactly " +:+ show n +:+ " bytes"
  | ESecretKey => "invalid secp256k1 secret key"
  | EPublicKey => "invalid x-only secp256k1 public key"
  | EPublicKeyMismatch => "event public key does not match signing key"
  | ESigning => "Schnorr signing failed"
  | ESignature => "invalid Schnorr signature"
  | EIdMismatch => "event identifier does not match its fields"
  | ESerializedTooLarge n m => "event JSON is " +:+ show n +:+ " bytes; maximum is " +:+ show m
  | EContentTooLarge n m => "event content is " +:+ show n +:+ " bytes; maximum is " +:+ show m
  | ETooManyTags n m => "event has " +:+ show n +:+ " tags; maximum is " +:+ show m
  | ETooManyTagFields i n m =>
      "event tag " +:+ show i +:+ " has " +:+ show n +:+ " fields; maximum is " +:+ show m
  | ETagFieldTooLarge i j n m =>
      "event tag " +:+ show i +:+ " field " +:+ show j +:+ " is " +:+ show n
        +:+ " bytes; maximum is " +:+ show m
  | ETooFarInFuture t m => "event timestamp " +:+ show t +:+ " exceeds accepted maximum " +:+ show m
  end.

(** ** Validation against the limits *)

Definition unsigned (e : SignedEvent) : UnsignedEvent := {|
  ue_pubkey := pubkey e;
  ue_created_at := created_at e;
  ue_kind := kind e;
  ue_tags := tags e;
  ue_content := content e
|}.

(** The loops over the tags and over the fields of one tag. *)
Fixpoint validate_fields (limits : EventLimits) (tag_index field_index : Z) (fields : Tag)
  : result EventError unit :=
  match fields with
  | [] => Ok tt
  | field :: rest =>
      fail_if max_tag_field_bytes limits <? slen field
        with ETagFieldTooLarge tag_index field_index (slen field) (max_tag_field_bytes limits) ;;
      validate_fields limits tag_index (field_index + 1) rest
  end.

Fixpoint validate_tags (limits : EventLimits) (tag_index : Z) (ts : list Tag)
  : result EventError unit :=
  match ts with
  | [] => Ok tt
  | tag :: rest =>
      fail_if max_tag_fields limits <? zlen tag
        with ETooManyTagFields tag_index (zlen tag) (max_tag_fields limits) ;;
      let? _ := validate_fields limits tag_index 0 tag in
      validate_tags limits (tag_index + 1) rest
  end.

(** What validation establishes, as one test. *)
Definition within_limits (limits : EventLimits) (e : UnsignedEvent) : bool :=
  (slen (ue_content e) <=? max_content_bytes limits)
  && (zlen (ue_tags e) <=? max_tags limits)
  && forallb (fun tag => (zlen tag <=? max_tag_fields limits)
       && forallb (fun field => slen field <=? max_tag_field_bytes limits) tag) (ue_tags e).

Section Events.
Context {hex : Hex} {json : Json} {sha : Sha256} {schnorr : Schnorr}.

Definition decode_hex (n : Z) (value : string) : result EventError bytes :=
  fail_if negb (slen value =? n * 2) || negb (is_lower_hex value) with EInvalidHex n ;;
  ok_or (EInvalidHex n) (hex_decode_to_slice n value).
Definition decode_hex_32 : string -> result EventError bytes := decode_hex 32.
Definition decode_hex_64 : string -> result EventError bytes := decode_hex 64.

Definition xonly_public_key (secret_key : bytes) : result EventError bytes :=
  ok_or ESecretKey (schnorr_public_key secret_key).

Definition validate (e : UnsignedEvent) (limits : EventLimits) : result EventError unit :=
  let? _ := decode_hex_32 (ue_pubkey e) in
  fail_if max_content_bytes limits <? slen (ue_content e)
    with EContentTooLarge (slen (ue_content e)) (max_content_bytes limits) ;;
  fail_if max_tags limits <? zlen (ue_tags e)
    with ETooManyTags (zlen (ue_tags e)) (max_tags limits) ;;
  validate_tags limits 0 (ue_tags e).

(** [UnsignedEvent::new] *)
Definition UnsignedEvent_new (pk : string) (time k : Z) (ts : list Tag) (text : string)
  (limits : EventLimits) : result EventError UnsignedEvent :=
  let event := {| ue_pubkey := pk; ue_created_at := time; ue_kind := k;
                  ue_tags := ts; ue_content := text |} in
  let? _ := validate event limits in
  Ok event.

(** [[0,pubkey,time,kind,tags,content]]; printing integers and strings cannot fail. *)
Definition canonical_value (e : UnsignedEvent) : Value :=
  JArray [JInt 0; JString (ue_pubkey e); JInt (ue_created_at e); JInt (ue_kind e);
          JArray (map ser_strings (ue_tags e)); JString (ue_content e)].
Definition canonical_json (e : UnsignedEvent) : bytes := json_to_vec (canonical_value e).

Definition event_id (e : UnsignedEvent) : bytes := sha256 (canonical_json e).

Definition sign_with_aux (e : UnsignedEvent) (secret_key auxiliary_randomness : bytes)
  (limits : EventLimits) : result EventError SignedEvent :=
  let? _ := validate e limits in
  let? verifying_bytes := ok_or ESecretKey (schnorr_public_key secret_key) in
  let? own := decode_hex_32 (ue_pubkey e) in
  fail_if negb (bool_decide (verifying_bytes = own)) with EPublicKeyMismatch ;;
  let eid := event_id e in
  let? signature := ok_or ESigning (schnorr_sign secret_key eid auxiliary_randomness) in
  Ok {| id := hex_encode eid; pubkey := ue_pubkey e; created_at := ue_created_at e;
        kind := ue_kind e; tags := ue_tags e; content := ue_content e;
        sig := hex_encode signature |}.

(** ** The derived JSON of a signed event *)

Definition event_fields : list string :=
  ["id"; "pubkey"; "created_at"; "kind"; "tags"; "content"; "sig"].

Definition event_value (e : SignedEvent) : Value :=
  JObject [("id", JString (id e)); ("pubkey", JString (pubkey e));
           ("created_at", JInt (created_at e)); ("kind", JInt (kind e));
           ("tags", JArray (map ser_strings (tags e))); ("content", JString (content e));
           ("sig", JString (sig e))]%string.

Definition event_of_value (v : Value) : option SignedEvent :=
  vs ← de_struct true event_fields v;
  match vs with
  | [v1; v2; v3; v4; v5; v6; v7] =>
      i ← de_string v1; pk ← de_string v2; t ← de_uint u64_max v3; k ← de_uint u32_max v4;
      ts ← de_vec (de_vec de_string) v5; c ← de_string v6; s ← de_string v7;
      Some {| id := i; pubkey := pk; created_at := t; kind := k; tags := ts;
              content := c; sig := s |}
  | _ => None
  end.

Definition event_to_json (e : SignedEvent) : bytes := json_to_vec (event_value e).

Definition verify (e : SignedEvent) (now : Z) (limits : EventLimits)
  : result EventError unit :=
  let serialized_bytes := zlen (event_to_json e) in
  fail_if max_serialized_bytes limits <? serialized_bytes
    with ESerializedTooLarge serialized_bytes (max_serialized_bytes limits) ;;
  let horizon := saturating_add u64_max now (max_future_seconds limits) in
  fail_if horizon <? created_at e with ETooFarInFuture (created_at e) horizon ;;
  let? _ := validate (unsigned e) limits in
  let expected_id := event_id (unsigned e) in
  let? supplied_id := decode_hex_32 (id e) in
  fail_if negb (bool_decide (expected_id = supplied_id)) with EIdMismatch ;;
  let? public_key := decode_hex_32 (pubkey e) in
  fail_if negb (schnorr_key_ok public_key) with EPublicKey ;;
  let? signature_bytes := decode_hex_64 (sig e) in
  fail_if negb (schnorr_signature_ok signature_bytes) with ESignature ;;
  fail_if negb (schnorr_verify public_key expected_id signature_bytes) with ESignature ;;
  Ok tt.

(** [SignedEvent::from_json] *)
Definition event_from_json (input : bytes) (now : Z) (limits : EventLimits)
  : result EventError SignedEvent :=
  fail_if max_serialized_bytes limits <? zlen input
    with ESerializedTooLarge (zlen input) (max_serialized_bytes limits) ;;
  let? event := ok_or EJson (v ← json_from_slice input; event_of_value v) in
  let? _ := verify event now limits in
  Ok event.
End Events.

(** ** Characterisations *)

(** The invariants the Rust types of the fields carry. *)
Definition event_wf (e : UnsignedEvent) : bool :=
  utf8_valid (ue_pubkey e) && in_range 0 u64_max (ue_created_at e)
  && in_range 0 u32_max (ue_kind e)
  && forallb (forallb utf8_valid) (ue_tags e) && utf8_valid (ue_content e).

Lemma validate_fields_ok limits i j fields :
  validate_fields limits i j fields = Ok tt <->
  forallb (fun f => slen f <=? max_tag_field_bytes limits) fields = true.
Proof.
  revert j. induction fields as [|f fields IH]; intros j; [done|]. simpl.
  rewrite Z.ltb_antisym, andb_true_iff. destruct (slen f <=? _); simpl.
  - rewrite IH. tauto.
  - split; [discriminate | intros [? _]; discriminate].
Qed.

Lemma validate_tags_ok limits i ts :
  validate_tags limits i ts = Ok tt <->
  forallb (fun tag => (zlen tag <=? max_tag_fields limits)
    && forallb (fun f => slen f <=? max_tag_field_bytes limits) tag) ts = true.
Proof.
  revert i. induction ts as [|tag ts IH]; intros i; [done|]. cbn [validate_tags forallb].
  rewrite Z.ltb_antisym, !andb_true_iff. destruct (zlen tag <=? _); simpl.
  - rewrite <- (IH (i + 1)), <- (validate_fields_ok limits i 0).
    destruct (validate_fields limits i 0 tag) as [[]|]; simpl; intuition discriminate.
  - split; [discriminate | intros [[? _] _]; discriminate].
Qed.

Section EventFacts.
Context {hex : Hex} {json : Json} {sha : Sha256} {schnorr : Schnorr}.
Context {hex_laws : HexLaws} {json_laws : JsonLaws} {sha_laws : Sha256Laws}
        {schnorr_laws : SchnorrLaws}.

Lemma decode_hex_ok n s b :
  decode_hex n s = Ok b <-> hex_encode b = s /\ zlen b = n.
Proof using hex_laws.
  unfold decode_hex. split.
  - intros Hd. inv_ok. split_bools.
    destruct (hex_decode_to_slice_lower n s) as (b' & E & ? & ?); [done | lia |].
    rewrite E in Hd. by injection Hd as <-.
  - intros [<- Hn]. rewrite hex_encode_length, hex_encode_lower, hex_decode_to_slice_encode by done.
    rewrite (proj2 (Z.eqb_eq _ _)) by lia. done.
Qed.

Lemma validate_ok e limits :
  validate e limits = Ok tt <->
  (exists pk, decode_hex_32 (ue_pubkey e) = Ok pk) /\ within_limits limits e = true.
Proof using Type.
  unfold validate, within_limits. rewrite !andb_true_iff, <- (validate_tags_ok limits 0).
  destruct (decode_hex_32 (ue_pubkey e)); simpl; [|split; [discriminate | intros [[? ?] _]; discriminate]].
  rewrite !Z.ltb_antisym. destruct (slen _ <=? _), (zlen _ <=? _); simpl;
    intuition (eauto; discriminate).
Qed.

(** ** Signing, then verifying *)

Lemma sign_with_aux_inv e sk aux limits se :
  sign_with_aux e sk aux limits = Ok se ->
  exists pk s, validate e limits = Ok tt /\ schnorr_public_key sk = Some pk /\
    decode_hex_32 (ue_pubkey e) = Ok pk /\ schnorr_sign sk (event_id e) aux = Some s /\
    unsigned se = e /\ id se = hex_encode (event_id e) /\ sig se = hex_encode s.
Proof using Type.
  unfold sign_with_aux. intros Hs. inv_ok. split_bools. subst a1. destruct a.
  exists a0, a2. by destruct e.
Qed.

Lemma decode_event_id e : decode_hex_32 (hex_encode (event_id e)) = Ok (event_id e).
Proof using hex_laws sha_laws. apply decode_hex_ok. split; [done|]. apply sha256_length. Qed.

Lemma verify_signed e sk aux limits now se :
  sign_with_aux e sk aux limits = Ok se ->
  zlen (event_to_json se) <= max_serialized_bytes limits ->
  created_at se <= saturating_add u64_max now (max_future_seconds limits) ->
  verify se now limits = Ok tt.
Proof using Type*.
  intros Hs Hsize Htime.
  destruct (sign_with_aux_inv _ _ _ _ _ Hs) as (pk & s & Hv & Hpk & Hown & Hsig & Hu & Hid & Hsg).
  unfold verify. rewrite (proj2 (Z.ltb_ge _ _)), (proj2 (Z.ltb_ge _ _)), Hu, Hv by done.
  cbn [rbind]. rewrite Hid, decode_event_id. cbn [rbind].
  rewrite bool_decide_true by done. cbn [negb].
  replace (pubkey se) with (ue_pubkey e) by (by rewrite <- Hu). rewrite Hown. cbn [rbind].
  rewrite (schnorr_public_key_ok _ _ Hpk). cbn [negb].
  destruct (schnorr_sign_correct _ _ _ _ _ Hpk Hsig) as (Ls & Os & Vs).
  rewrite Hsg. unfold decode_hex_64. rewrite (proj2 (decode_hex_ok 64 _ s)) by done.
  cbn [rbind]. by rewrite Os, Vs.
Qed.

(** ** What a verified event is *)

Lemma verify_ok e now limits :
  verify e now limits = Ok tt <->
  zlen (event_to_json e) <= max_serialized_bytes limits /\
  created_at e <= saturating_add u64_max now (max_future_seconds limits) /\
  within_limits limits (unsigned e) = true /\
  id e = hex_encode (event_id (unsigned e)) /\
  exists pk s, decode_hex_32 (pubkey e) = Ok pk /\ decode_hex_64 (sig e) = Ok s /\
    schnorr_key_ok pk = true /\ schnorr_signature_ok s = true /\
    schnorr_verify pk (event_id (unsigned e)) s = true.
Proof using hex_laws sha_laws.
  split.
  - unfold verify. intros Hv. inv_ok. split_bools. subst a0. destruct a.
    apply validate_ok in Ha as [_ Hl]. apply decode_hex_ok in Ha0 as [Hid _].
    repeat split; [lia | lia | done | done |]. eauto 10.
  - intros (Hs & Ht & Hl & Hid & pk & s & Hpk & Hsg & Hk & Hso & Hvs).
    unfold verify. rewrite (proj2 (Z.ltb_ge _ _)), (proj2 (Z.ltb_ge _ _)) by done.
    rewrite (proj2 (validate_ok (unsigned e) limits)) by (simpl; eauto). cbn [rbind].
    rewrite Hid, decode_event_id. cbn [rbind]. rewrite bool_decide_true by done. cbn [negb].
    rewrite Hpk. cbn [rbind]. rewrite Hk. cbn [negb]. rewrite Hsg. cbn [rbind].
    by rewrite Hso, Hvs.
Qed.

(** ** Identifiers bind the signed fields *)

Lemma canonical_wf e : event_wf e = true -> json_wf (canonical_value e) = true.
Proof using Type.
  unfold event_wf, in_range. intros He. split_bools. simpl.
  repeat (apply andb_true_intro; split); try (apply Z.leb_le; unfold_ints; lia); try done.
  apply forallb_forall. intros v (tag & <- & Hin)%in_map_iff. rewrite json_wf_strings.
  match goal with F : forallb (forallb utf8_valid) _ = true |- _ =>
    eapply forallb_forall in F; [exact F | exact Hin] end.
Qed.

Lemma map_inj {A B} (f : A -> B) l1 l2 :
  (forall x y, f x = f y -> x = y) -> map f l1 = map f l2 -> l1 = l2.
Proof using Type.
  intros Hf. revert l2. induction l1 as [|x l1 IH]; intros [|y l2]; simpl; try done.
  intros [= E1 E2]. f_equal; auto.
Qed.

Lemma canonical_value_inj e1 e2 : canonical_value e1 = canonical_value e2 -> e1 = e2.
Proof using Type.
  destruct e1, e2. unfold canonical_value. simpl. intros [= -> -> -> E ->]. f_equal.
  revert E. apply map_inj. intros x y [= E]. revert E. apply map_inj. by intros ? ? [= ->].
Qed.

(** Two different unsigned events with one identifier exhibit a SHA-256 collision. *)
Lemma event_id_binding e1 e2 :
  event_wf e1 = true -> event_wf e2 = true -> event_id e1 = event_id e2 ->
  e1 = e2 \/ (canonical_json e1 <> canonical_json e2 /\
              sha256 (canonical_json e1) = sha256 (canonical_json e2)).
Proof using json_laws.
  intros W1 W2 E. destruct (decide (canonical_json e1 = canonical_json e2)) as [Ec|Nc].
  - left. apply canonical_value_inj, json_to_vec_inj; auto using canonical_wf.
  - right. split; [done | exact E].
Qed.

(** ** JSON *)

Lemma event_of_value_value e :
  in_range 0 u64_max (created_at e) = true -> in_range 0 u32_max (kind e) = true ->
  event_of_value (event_value e) = Some e.
Proof using Type.
  intros Ht Hk. unfold event_of_value, event_value.
  change (de_struct true event_fields _) with
    (Some [JString (id e); JString (pubkey e); JInt (created_at e); JInt (kind e);
           JArray (map ser_strings (tags e)); JString (content e); JString (sig e)]).
  cbn [mbind option_bind de_string de_uint]. rewrite Ht, Hk. cbn [mbind option_bind].
  rewrite de_vec_map by (apply Forall_true; intros; apply de_vec_strings).
  by destruct e.
Qed.

Lemma event_value_wf e :
  event_wf (unsigned e) = true -> utf8_valid (id e) = true -> utf8_valid (sig e) = true ->
  json_wf (event_value e) = true.
Proof using Type.
  intros He Hi Hs. apply canonical_wf in He. cbn [canonical_value unsigned ue_pubkey ue_created_at
    ue_kind ue_tags ue_content json_wf forallb] in He. split_bools.
  unfold event_value. cbn [json_wf forallb fst snd].
  repeat (apply andb_true_intro; split); try assumption; try reflexivity;
    apply Z.leb_le; lia.
Qed.

Lemma hex_utf8 b : utf8_valid (hex_encode b) = true.
Proof using hex_laws.
  unfold utf8_valid. rewrite utf8_decode_ascii; [done|]. apply lower_hex_ascii, hex_encode_lower.
Qed.

Lemma event_from_json_to_json e now limits :
  event_wf (unsigned e) = true -> verify e now limits = Ok tt ->
  event_from_json (event_to_json e) now limits = Ok e.
Proof using hex_laws json_laws sha_laws.
  intros Hw Hv. pose proof Hv as (Hs & _ & _ & Hid & pk & s & _ & Hsg & _)%verify_ok.
  apply decode_hex_ok in Hsg as [Hsg _].
  unfold event_from_json. rewrite (proj2 (Z.ltb_ge _ _)) by done.
  unfold event_to_json. rewrite json_roundtrip.
  - cbn [mbind option_bind]. unfold event_wf in Hw. simpl in Hw. split_bools.
    rewrite event_of_value_value by done. cbn [ok_or rbind]. by rewrite Hv.
  - apply event_value_wf; [done | |]; [rewrite Hid | rewrite <- Hsg]; apply hex_utf8.
Qed.
End EventFacts.

(** ** Properties *)

Section Properties.
Context {hex : Hex} {json : Json} {sha : Sha256} {schnorr : Schnorr}.
Context {hex_laws : HexLaws} {json_laws : JsonLaws} {sha_laws : Sha256Laws}
        {schnorr_laws : SchnorrLaws}.

(** What [sign_with_aux] returns verifies under the same limits, unless its JSON
    is over the size limit or its timestamp is further ahead than allowed. *)
Theorem sign_then_verify e sk aux limits now se :
  sign_with_aux e sk aux limits = Ok se ->
  zlen (event_to_json se) <= max_serialized_bytes limits ->
  created_at se <= saturating_add u64_max now (max_future_seconds limits) ->
  unsigned se = e /\ verify se now limits = Ok tt.
Proof using Type*.
  intros Hs Hz Ht. split; [|eauto using verify_signed].
  apply sign_with_aux_inv in Hs as (? & ? & ? & ? & ? & ? & ? & ?). done.
Qed.

(** C31: [verify] accepts an event exactly when its JSON, content, tags and timestamp
    are inside the limits, its identifier is the lowercase hex of the SHA-256 of its
    canonical JSON, and its signature by its own key over that hash is valid. *)
Theorem verify_exact e now limits :
  verify e now limits = Ok tt <->
  zlen (event_to_json e) <= max_serialized_bytes limits /\
  created_at e <= saturating_add u64_max now (max_future_seconds limits) /\
  within_limits limits (unsigned e) = true /\
  id e = hex_encode (event_id (unsigned e)) /\
  exists pk s, decode_hex_32 (pubkey e) = Ok pk /\ decode_hex_64 (sig e) = Ok s /\
    schnorr_key_ok pk = true /\ schnorr_signature_ok s = true /\
    schnorr_verify pk (event_id (unsigned e)) s = true.
Proof using hex_laws sha_laws. apply verify_ok. Qed.

(** Two verified events with the same identifier have the same author, time,
    kind, tags and content, unless they exhibit a SHA-256 collision. *)
Theorem verified_id_commits e1 e2 now1 now2 limits1 limits2 :
  event_wf (unsigned e1) = true -> event_wf (unsigned e2) = true ->
  verify e1 now1 limits1 = Ok tt -> verify e2 now2 limits2 = Ok tt -> id e1 = id e2 ->
  unsigned e1 = unsigned e2 \/
  exists b1 b2, b1 <> b2 /\ sha256 b1 = sha256 b2.
Proof using hex_laws sha_laws json_laws.
  intros W1 W2 (_ & _ & _ & I1 & _)%verify_ok (_ & _ & _ & I2 & _)%verify_ok E.
  rewrite I1, I2 in E. apply hex_encode_inj in E.
  destruct (event_id_binding _ _ W1 W2 E) as [?|[? ?]]; [by left | right; eauto].
Qed.

(** A verified event printed as JSON is read back and accepted unchanged. *)
Theorem event_json_roundtrip e now limits :
  event_wf (unsigned e) = true -> verify e now limits = Ok tt ->
  event_from_json (event_to_json e) now limits = Ok e.
Proof using hex_laws json_laws sha_laws. apply event_from_json_to_json. Qed.
End Properties.

(** ** Witnesses *)

Definition sample_unsigned (text : string) : UnsignedEvent := {|
  ue_pubkey := hex_encode (key_of 5); ue_created_at := 100; ue_kind := 1;
  ue_tags := [["p"; "q"]]%string; ue_content := text |}.

Definition sample_signed (text : string) : SignedEvent :=
  match sign_with_aux (sample_unsigned text) (key_of 5) (key_of 1) EventLimits_default with
  | Ok e => e
  | Err _ => {| id := ""; pubkey := ""; created_at := 0; kind := 0; tags := []; content := ""; sig := "" |}
  end.

Lemma sign_then_verify_witness :
  sign_with_aux (sample_unsigned "hi") (key_of 5) (key_of 1) EventLimits_default
    = Ok (sample_signed "hi") /\
  unsigned (sample_signed "hi") = sample_unsigned "hi" /\
  verify (sample_signed "hi") 50 EventLimits_default = Ok tt.
Proof.
  split; [vm_compute; reflexivity|].
  apply (sign_then_verify (sample_unsigned "hi") (key_of 5) (key_of 1));
    [vm_compute; reflexivity | vm_compute; discriminate | vm_compute; discriminate].
Defined.

Lemma verify_exact_witness :
  id (sample_signed "hi") = hex_encode (event_id (unsigned (sample_signed "hi"))).
Proof.
  apply (verify_exact (sample_signed "hi") 100 EventLimits_default). vm_compute; reflexivity.
Defined.

Lemma verified_id_commits_witness :
  unsigned (sample_signed "hi") = unsigned (sample_signed "hi") \/
  exists b1 b2, b1 <> b2 /\ sha256 b1 = sha256 b2.
Proof.
  apply (verified_id_commits (sample_signed "hi") (sample_signed "hi") 100 200
    EventLimits_default EventLimits_default); vm_compute; reflexivity.
Defined.

Lemma event_json_roundtrip_witness :
  verify (sample_signed "hi") 100 EventLimits_default = Ok tt /\
  event_from_json (event_to_json (sample_signed "hi")) 100 EventLimits_default
    = Ok (sample_signed "hi").
Proof.
  split; [vm_compute; reflexivity|].
  apply event_json_roundtrip; vm_compute; reflexivity.
Defined.
