(* ===== verification/Frame.v ===== *)
(** * Relay frames and relay authentication ([omachat-nostr/src/frame.rs], [auth.rs])

    The NIP-01 messages a client sends and receives, with their limits, and the NIP-42
    event that answers a relay's challenge. *)

From Stdlib Require Import Strings.Byte Ascii String.
From S2P Require Import Prelude RustStd Libs Serde Concrete Event.
Local Open Scope Z_scope.

Record FrameLimits := {
  max_frame_bytes : Z; max_subscription_id_bytes : Z; max_message_bytes : Z; max_filters : Z
}.

Definition DEFAULT_MAX_FRAME_BYTES : Z := 512 * 1024.
Definition DEFAULT_MAX_SUBSCRIPTION_ID_BYTES : Z := 64.
Definition DEFAULT_MAX_MESSAGE_BYTES : Z := 4 * 1024.
Definition DEFAULT_MAX_FILTERS : Z := 16.

Definition FrameLimits_default : FrameLimits :=
  {| max_frame_bytes := DEFAULT_MAX_FRAME_BYTES;
     max_subscription_id_bytes := DEFAULT_MAX_SUBSCRIPTION_ID_BYTES;
     max_message_bytes := DEFAULT_MAX_MESSAGE_BYTES; max_filters := DEFAULT_MAX_FILTERS |}.

Inductive FrameError :=
| FJson | FEvent (e : EventError) | FFrameTooLarge (bytes maximum : Z) | FInvalidSubscriptionId
| FInvalidEventId | FMessageTooLarge (bytes maximum : Z) | FInvalidFilterCount (count maximum : Z)
| FFilterMustBeObject.

(** [Display for FrameError]; the text of a JSON error is not modelled. *)
Definition FrameError_to_string (e : FrameError) : string :=
  match e with
  | FJson => "invalid relay frame JSON"
  | FEvent e => "invalid relay event: " +:+ EventError_to_string e
  | FFrameTooLarge n m => "relay frame is " +:+ show n +:+ " bytes; maximum is " +:+ show m
  | FInvalidSubscriptionId => "invalid subscription ID"
  | FInvalidEventId => "invalid event ID"
  | FMessageTooLarge n m => "relay message is " +:+ show n +:+ " bytes; maximum is " +:+ show m
  | FInvalidFilterCount n m => "subscription has " +:+ show n +:+ " filters; expected 1..=" +:+ show m
  | FFilterMustBeObject => "subscription filter must be an object"
  end.

Inductive ClientFrame :=
| CEvent (e : SignedEvent)
| CRequest (subscription_id : string) (filters : list Value)
| CClose (subscription_id : string)
| CAuth (e : SignedEvent).

Inductive RelayFrame :=
| REvent (subscription_id : string) (event : SignedEvent)
| REndOfStoredEvents (subscription_id : string)
| ROk (event_id : string) (accepted : bool) (message : string)
| RClosed (subscription_id message : string)
| RNotice (message : string)
| RAuthChallenge (challenge : string).

(** ** Validators *)

Definition validate_frame_size (n : Z) (limits : FrameLimits) : result FrameError unit :=
  if max_frame_bytes limits <? n then Err (FFrameTooLarge n (max_frame_bytes limits)) else Ok tt.

Definition validate_subscription_id (value : string) (limits : FrameLimits) : result FrameError unit :=
  if (slen value =? 0) || (max_subscription_id_bytes limits <? slen value)
     || existsb is_control (chars value)
  then Err FInvalidSubscriptionId else Ok tt.

Definition validate_message (value : string) (limits : FrameLimits) : result FrameError unit :=
  if max_message_bytes limits <? slen value
  then Err (FMessageTooLarge (slen value) (max_message_bytes limits)) else Ok tt.

Definition validate_hex_id (value : string) : result FrameError unit :=
  if (slen value =? 64) && bytes_all is_lower_hex_byte value then Ok tt else Err FInvalidEventId.

Definition is_object (v : Value) : bool := match v with JObject _ => true | _ => false end.

(** ** Wire format *)

(** [WireRelayFrameVisitor]: an array with the message type and exactly its fields *)
Definition wire_relay_frame (v : Value) : option RelayFrame :=
  match v with
  | JArray (kind :: fields) =>
      k ← de_string kind;
      if String.eqb k "EVENT" then
        match fields with [s; e] => s ← de_string s; e ← event_of_value e; Some (REvent s e) | _ => None end
      else if String.eqb k "EOSE" then
        match fields with [s] => REndOfStoredEvents <$> de_string s | _ => None end
      else if String.eqb k "OK" then
        match fields with
        | [i; a; m] => i ← de_string i; a ← de_bool a; m ← de_string m; Some (ROk i a m)
        | _ => None
        end
      else if String.eqb k "CLOSED" then
        match fields with [s; m] => s ← de_string s; m ← de_string m; Some (RClosed s m) | _ => None end
      else if String.eqb k "NOTICE" then
        match fields with [m] => RNotice <$> de_string m | _ => None end
      else if String.eqb k "AUTH" then
        match fields with [c] => RAuthChallenge <$> de_string c | _ => None end
      else None
  | _ => None
  end.

Section Frames.
Context {hex : Hex} {json : Json} {sha : Sha256} {schnorr : Schnorr}.

Definition relay_frame_from_json (b : bytes) (now : Z) (event_limits : EventLimits)
    (frame_limits : FrameLimits) : result FrameError RelayFrame :=
  let? _ := validate_frame_size (zlen b) frame_limits in
  let? frame := ok_or FJson (json_from_slice b ≫= wire_relay_frame) in
  match frame with
  | REvent s e =>
      let? _ := validate_subscription_id s frame_limits in
      let? _ := map_err FEvent (verify e now event_limits) in
      Ok (REvent s e)
  | REndOfStoredEvents s => let? _ := validate_subscription_id s frame_limits in Ok (REndOfStoredEvents s)
  | ROk i a m =>
      let? _ := validate_hex_id i in
      let? _ := validate_message m frame_limits in
      Ok (ROk i a m)
  | RClosed s m =>
      let? _ := validate_subscription_id s frame_limits in
      let? _ := validate_message m frame_limits in
      Ok (RClosed s m)
  | RNotice m => let? _ := validate_message m frame_limits in Ok (RNotice m)
  | RAuthChallenge c => let? _ := validate_message c frame_limits in Ok (RAuthChallenge c)
  end.

Definition client_frame_to_json (f : ClientFrame) (limits : FrameLimits) : result FrameError bytes :=
  let? b :=
    match f with
    | CEvent e => Ok (json_to_vec (JArray [JString "EVENT"; event_value e]))
    | CRequest s filters =>
        let? _ := validate_subscription_id s limits in
        fail_if (zlen filters =? 0) || (max_filters limits <? zlen filters)
          with FInvalidFilterCount (zlen filters) (max_filters limits) ;;
        fail_if negb (forallb is_object filters) with FFilterMustBeObject ;;
        Ok (json_to_vec (JArray (JString "REQ" :: JString s :: filters)))
    | CClose s =>
        let? _ := validate_subscription_id s limits in
        Ok (json_to_vec (JArray [JString "CLOSE"; JString s]))
    | CAuth e => Ok (json_to_vec (JArray [JString "AUTH"; event_value e]))
    end in
  let? _ := validate_frame_size (zlen b) limits in
  Ok b.

(** ** Relay authentication *)

Definition NIP42_AUTH_KIND : Z := 22242.

Record RelayAuthSigner := { ras_secret_key : bytes; ras_public_key : bytes }.

Inductive AuthError := AEmptyChallenge | ARandom | AEvent (e : EventError).

Definition AuthError_to_string (e : AuthError) : string :=
  match e with
  | AEmptyChallenge => "relay authentication challenge is empty"
  | ARandom => "relay authentication randomness failed"
  | AEvent e => "invalid relay authentication event: " +:+ EventError_to_string e
  end.

Definition RelayAuthSigner_from_secret_key (secret_key : bytes) : result AuthError RelayAuthSigner :=
  let? public_key := map_err AEvent (xonly_public_key secret_key) in
  Ok {| ras_secret_key := secret_key; ras_public_key := public_key |}.

Definition sign_challenge (signer : RelayAuthSigner) (relay_url challenge : string) (created_at : Z)
    (limits : EventLimits) : SE Entropy AuthError SignedEvent :=
  let! _ := se_ret (fail_if slen challenge =? 0 with AEmptyChallenge ;; Ok tt) in
  let! aux := getrandom_fill ARandom 32 in
  se_ret (let? e := map_err AEvent (UnsignedEvent_new (hex_encode (ras_public_key signer)) created_at
                      NIP42_AUTH_KIND [["relay"; relay_url]; ["challenge"; challenge]]%string "" limits) in
          map_err AEvent (sign_with_aux e (ras_secret_key signer) aux limits)).
End Frames.

(** ** What a relay sends *)

Definition relay_frame_value (f : RelayFrame) : Value :=
  match f with
  | REvent s e => JArray [JString "EVENT"; JString s; event_value e]
  | REndOfStoredEvents s => JArray [JString "EOSE"; JString s]
  | ROk i a m => JArray [JString "OK"; JString i; JBool a; JString m]
  | RClosed s m => JArray [JString "CLOSED"; JString s; JString m]
  | RNotice m => JArray [JString "NOTICE"; JString m]
  | RAuthChallenge c => JArray [JString "AUTH"; JString c]
  end.

(** The texts of a frame are UTF-8 and its numbers in range, as every Rust value is. *)
Definition relay_frame_wf (f : RelayFrame) : bool :=
  match f with
  | REvent s e => utf8_valid s && event_wf (unsigned e) && utf8_valid (id e) && utf8_valid (sig e)
  | REndOfStoredEvents s => utf8_valid s
  | ROk i _ m => utf8_valid i && utf8_valid m
  | RClosed s m => utf8_valid s && utf8_valid m
  | RNotice m => utf8_valid m
  | RAuthChallenge c => utf8_valid c
  end.

(** A subscription identifier the client accepts. *)
Definition subscription_id_ok (limits : FrameLimits) (s : string) : bool :=
  (0 <? slen s) && (slen s <=? max_subscription_id_bytes limits)
  && forallb (fun c => negb (is_control c)) (chars s).

Section FrameFacts.
Context {hex : Hex} {json : Json} {sha : Sha256} {schnorr : Schnorr}.

Definition relay_frame_ok (now : Z) (el : EventLimits) (fl : FrameLimits) (f : RelayFrame) : Prop :=
  match f with
  | REvent s e => subscription_id_ok fl s = true /\ verify e now el = Ok tt
  | REndOfStoredEvents s => subscription_id_ok fl s = true
  | ROk i _ m => slen i = 64 /\ is_lower_hex i = true /\ slen m <= max_message_bytes fl
  | RClosed s m => subscription_id_ok fl s = true /\ slen m <= max_message_bytes fl
  | RNotice m | RAuthChallenge m => slen m <= max_message_bytes fl
  end.

Lemma validate_subscription_id_ok s fl : validate_subscription_id s fl = Ok tt <-> subscription_id_ok fl s = true.
Proof.
  unfold validate_subscription_id, subscription_id_ok.
  assert (forallb (fun c => negb (is_control c)) (chars s) = negb (existsb is_control (chars s))) as ->.
  { induction (chars s) as [|c cs IH]; [done|]. simpl. rewrite IH. by rewrite negb_orb. }
  pose proof (slen_nonneg s). destruct (existsb is_control (chars s)); cbn [negb].
  - rewrite orb_true_r, andb_false_r. split; discriminate.
  - rewrite orb_false_r, andb_true_r. destruct (_ || _)%bool eqn:E; split; try discriminate; try done; lia.
Qed.

Lemma validate_message_ok m fl : validate_message m fl = Ok tt <-> slen m <= max_message_bytes fl.
Proof. unfold validate_message. destruct (_ <? _) eqn:E; split_bools; split; try discriminate; try lia; done. Qed.

Lemma validate_hex_id_ok i : validate_hex_id i = Ok tt <-> slen i = 64 /\ is_lower_hex i = true.
Proof.
  unfold validate_hex_id, is_lower_hex. destruct (slen i =? 64) eqn:E, (bytes_all is_lower_hex_byte i) eqn:F;
    split_bools; cbn [andb]; split; try discriminate; try done; intros [? ?]; (lia || done).
Qed.

Lemma rbind_unit_ok {E A} (c : result E unit) (a b : A) :
  (let? _ := c in Ok a) = Ok b <-> c = Ok tt /\ a = b.
Proof. destruct c as [[]|]; cbn; split; try done; [by intros [= ->] | by intros [_ ->] | by intros [? _]]. Qed.

Lemma rbind_units_ok {E A} (c d : result E unit) (a b : A) :
  (let? _ := c in let? _ := d in Ok a) = Ok b <-> c = Ok tt /\ d = Ok tt /\ a = b.
Proof.
  destruct c as [[]|], d as [[]|]; cbn; split; try done;
    [by intros [= ->] | by intros (_ & _ & ->) | by intros (_ & ? & _) | by intros (? & _) ..].
Qed.

(** Whatever is accepted obeys the limits, and an event in it verified. *)
Lemma relay_frame_sound b now el fl f :
  relay_frame_from_json b now el fl = Ok f ->
  zlen b <= max_frame_bytes fl /\ json_from_slice b ≫= wire_relay_frame = Some f /\ relay_frame_ok now el fl f.
Proof.
  unfold relay_frame_from_json, validate_frame_size. destruct (_ <? zlen b) eqn:E; [done|]. split_bools. cbn [rbind].
  destruct (json_from_slice b ≫= wire_relay_frame) as [g|]; [|done]. cbn [ok_or rbind].
  intros H. split; [lia|].
  destruct g; first [apply rbind_units_ok in H as (H1 & H2 & <-) | apply rbind_unit_ok in H as (H1 & <-)];
    (split; [done|]); cbn [relay_frame_ok].
  - apply map_err_ok_inv in H2. by apply validate_subscription_id_ok in H1.
  - by apply validate_subscription_id_ok.
  - apply validate_hex_id_ok in H1 as []. by apply validate_message_ok in H2.
  - apply validate_subscription_id_ok in H1. by apply validate_message_ok in H2.
  - by apply validate_message_ok.
  - by apply validate_message_ok.
Qed.

Context {json_laws : JsonLaws}.

Lemma wire_relay_frame_value f :
  relay_frame_wf f = true -> json_from_slice (json_to_vec (relay_frame_value f)) ≫= wire_relay_frame = Some f.
Proof using json_laws.
  intros Hwf. rewrite json_roundtrip.
  - destruct f; try done. cbn in Hwf. unfold event_wf in Hwf. cbn in Hwf. split_bools.
    cbn [mbind option_bind relay_frame_value wire_relay_frame de_string String.eqb].
    change (String.eqb "EVENT" "EVENT") with true. cbv iota. by rewrite event_of_value_value.
  - assert (forall vs, forallb json_wf vs = true -> json_wf (JArray vs) = true) as Ha by done.
    destruct f; cbn [relay_frame_wf] in Hwf; split_bools; apply Ha; cbn [relay_frame_value forallb];
      repeat match goal with |- _ && _ = true => apply andb_true_intro; split end; try done.
    by apply event_value_wf.
Qed.
End FrameFacts.

(** ** Properties *)

Section Properties.
Context {hex : Hex} {json : Json} {sha : Sha256} {schnorr : Schnorr}.
Context {hex_laws : HexLaws} {json_laws : JsonLaws} {sha_laws : Sha256Laws} {schnorr_laws : SchnorrLaws}.

(** The reader of relay frames is exact. A frame a relay writes is accepted and read
    back as it was exactly when it is inside the limits and, for an event, the event
    verifies; and whatever bytes are accepted, the frame read obeys the limits and its
    event verifies. *)
Theorem relay_frame_exact now el fl :
  (forall f, relay_frame_wf f = true -> zlen (json_to_vec (relay_frame_value f)) <= max_frame_bytes fl ->
     (relay_frame_from_json (json_to_vec (relay_frame_value f)) now el fl = Ok f <-> relay_frame_ok now el fl f)) /\
  (forall b f, relay_frame_from_json b now el fl = Ok f ->
     zlen b <= max_frame_bytes fl /\ relay_frame_ok now el fl f).
Proof using json_laws.
  split.
  - intros f Hwf Hsize. split; [intros H; by apply relay_frame_sound in H as (_ & _ & ?)|].
    intros Hok. unfold relay_frame_from_json, validate_frame_size.
    destruct (_ <? _) eqn:E; [split_bools; lia|]. cbn [rbind]. rewrite wire_relay_frame_value by done.
    cbn [ok_or rbind]. destruct f; cbn [relay_frame_ok] in Hok.
    + destruct Hok as [H1 H2]. rewrite (proj2 (validate_subscription_id_ok _ _) H1), H2. done.
    + by rewrite (proj2 (validate_subscription_id_ok _ _) Hok).
    + destruct Hok as (H1 & H2 & H3).
      by rewrite (proj2 (validate_hex_id_ok _) (conj H1 H2)), (proj2 (validate_message_ok _ _) H3).
    + destruct Hok as [H1 H2].
      by rewrite (proj2 (validate_subscription_id_ok _ _) H1), (proj2 (validate_message_ok _ _) H2).
    + by rewrite (proj2 (validate_message_ok _ _) Hok).
    + by rewrite (proj2 (validate_message_ok _ _) Hok).
  - intros b f H. by apply relay_frame_sound in H as (? & _ & ?).
Qed.

(** The answer to a relay's challenge is an event of kind 22242 by the signer's key that
    names the relay and the challenge, and it verifies at the time it was made. *)
Theorem sign_challenge_verifies sk signer url challenge t limits tape e tape' :
  RelayAuthSigner_from_secret_key sk = Ok signer ->
  sign_challenge signer url challenge t limits tape = (Ok e, tape') ->
  0 <= t <= u64_max -> 0 <= max_future_seconds limits ->
  zlen (event_to_json e) <= max_serialized_bytes limits ->
  verify e t limits = Ok tt /\ pubkey e = hex_encode (ras_public_key signer) /\ kind e = NIP42_AUTH_KIND /\
  tags e = [["relay"; url]; ["challenge"; challenge]]%string /\ challenge <> ""%string.
Proof using Type*.
  intros Hs H Ht Hf Hsize. unfold sign_challenge in H.
  apply se_bind_ok_inv in H as ([] & t1 & Hc & H). injection Hc as Hc <-. apply fail_if_ok_inv in Hc as [Hc _].
  apply se_bind_ok_inv in H as (aux & t2 & Ha & H). apply getrandom_fill_ok in Ha. injection H as H <-.
  apply rbind_ok_inv in H as (ue & Hu & H). apply map_err_ok_inv in Hu, H.
  unfold UnsignedEvent_new in Hu. apply rbind_ok_inv in Hu as ([] & Hv & [= <-]).
  destruct (sign_with_aux_inv _ _ _ _ _ H) as (_ & _ & _ & _ & _ & _ & Hu & _ & _).
  assert (created_at e = t) as Hct by exact (f_equal ue_created_at Hu).
  split.
  { eapply verify_signed; [exact H | done|]. rewrite Hct. unfold saturating_add. lia. }
  split; [exact (f_equal ue_pubkey Hu)|]. split; [exact (f_equal ue_kind Hu)|].
  split; [exact (f_equal ue_tags Hu)|]. intros ->. done.
Qed.
End Properties.

(** ** Witnesses *)

Lemma relay_frame_exact_witness :
  relay_frame_from_json (json_to_vec (relay_frame_value (RNotice "hi"))) 0 EventLimits_default
    FrameLimits_default = Ok (RNotice "hi").
Proof.
  apply (proj1 (relay_frame_exact 0 EventLimits_default FrameLimits_default) (RNotice "hi"));
    [reflexivity | vm_compute; discriminate | vm_compute; discriminate].
Defined.
