(* ===== verification/Relay.v ===== *)
(** * One relay connection ([omachat-nostr/src/relay.rs])

    The actor that owns a relay's WebSocket: connecting, authenticating, publishing with
    acknowledgements, replaying subscriptions, and backing off between attempts. The
    socket, the command channel, the timers and the consumer of the notifications are the
    inputs of a step; what the actor does to them is written to a log. *)

From Stdlib Require Import Strings.Byte Ascii String.
From S2P Require Import Prelude RustStd Libs Serde Concrete Event Frame.
Local Open Scope Z_scope.

(** [Duration], in nanoseconds *)
Abbreviation Duration := Z (only parsing).
Definition from_secs (s : Z) : Duration := s * 1000000000.
Definition from_millis (ms : Z) : Duration := ms * 1000000.
Definition as_millis (d : Duration) : Z := d / 1000000.

Inductive RelayRoute := Direct | Socks5 (proxy : string).
Inductive RelayAuthenticationPolicy := RequireWhenConfigured | AuthenticateWhenChallenged.
#[export] Instance RelayAuthenticationPolicy_eq_dec : EqDecision RelayAuthenticationPolicy.
Proof. solve_decision. Defined.

Record RelayConfig := {
  rcf_url : string;
  rcf_route : RelayRoute;
  rcf_auth : option RelayAuthSigner;
  rcf_authentication_policy : RelayAuthenticationPolicy;
  command_capacity : Z;
  notification_capacity : Z;
  connect_timeout : Duration;
  ping_interval : Duration;
  idle_timeout : Duration;
  response_timeout : Duration;
  shutdown_timeout : Duration;
  reconnect_initial_delay : Duration;
  reconnect_max_delay : Duration;
  rcf_event_limits : EventLimits;
  rcf_frame_limits : FrameLimits
}.

Definition RelayConfig_new (url : string) (route : RelayRoute) : RelayConfig := {|
  rcf_url := url; rcf_route := route; rcf_auth := None; rcf_authentication_policy := RequireWhenConfigured;
  command_capacity := 64; notification_capacity := 256;
  connect_timeout := from_secs 20; ping_interval := from_secs 30; idle_timeout := from_secs 90;
  response_timeout := from_secs 20; shutdown_timeout := from_secs 1;
  reconnect_initial_delay := from_secs 1; reconnect_max_delay := from_secs 60;
  rcf_event_limits := EventLimits_default; rcf_frame_limits := FrameLimits_default |}.

Inductive RelayError :=
| REInvalidConfig (message : string)
| REUrl
| REIo (error : string)
| REWebSocket (error : string)
| RESocks (error : string)
| REFrame (error : string)
| REUtf8
| REBackpressure
| REConnectTimeout
| REResponseTimeout
| REShutdownTimeout
| REDisconnected
| REStopped
| RETask
| REDuplicatePublish
| REPublishRejected (message : string)
| REAuthentication (message : string).

Inductive RelayHealth := HConnecting | HConnected | HDisconnected | HStopped.

Inductive RelayNotification :=
| NConnected
| NDisconnected
| NEvent (subscription_id : string) (event : SignedEvent)
| NEndOfStoredEvents (subscription_id : string)
| NClosed (subscription_id message : string)
| NNotice (message : string)
| NAuthChallenge (challenge : string)
| NAuthenticated (public_key : string)
| NAuthenticationRejected (public_key message : string).

Record PublishAcknowledgement := { ack_event_id : string; ack_message : string }.

(** [oneshot::Sender]s are numbered by the command that carries them. *)
Inductive Command :=
| Publish (event : SignedEvent) (response : nat)
| Subscribe (subscription_id : string) (filters : list Value) (response : nat)
| CloseSubscription (subscription_id : string) (response : nat)
| Shutdown.

Inductive Response :=
| PublishResponse (r : result RelayError PublishAcknowledgement)
| UnitResponse (r : result RelayError unit).

Record PendingAuthentication := { pa_event_id : string; pa_public_key : string }.

(** What happened, newest first: the frames exchanged, the commands taken and the
    answers given, with the start and the end of each connection. *)
Inductive Entry :=
| LConnected
| LDisconnected
| LSent (f : ClientFrame)
| LReceived (f : RelayFrame)
| LCommand (c : Command)
| LRespond (response : nat) (r : Response).

Section Config.
Context {url : UrlLib}.

Definition RelayConfig_validate (c : RelayConfig) : result RelayError unit :=
  fail_if (command_capacity c =? 0) || (notification_capacity c =? 0)
    with REInvalidConfig "queue capacities must be non-zero" ;;
  fail_if (connect_timeout c =? 0) || (ping_interval c =? 0) || (idle_timeout c <=? ping_interval c)
    || (response_timeout c =? 0) || (shutdown_timeout c =? 0) || (reconnect_initial_delay c =? 0)
    || (reconnect_max_delay c <? reconnect_initial_delay c)
    with REInvalidConfig "invalid relay timer ordering" ;;
  let? parsed := ok_or REUrl (url_parse (rcf_url c)) in
  fail_if negb (String.eqb (url_scheme parsed) "ws" || String.eqb (url_scheme parsed) "wss")
    || match url_host_str parsed with Some _ => false | None => true end
    || match url_port_or_known_default parsed with Some _ => false | None => true end
    with REInvalidConfig "relay URL must be ws:// or wss://" ;;
  Ok tt.
End Config.

(** [DefaultHasher] over the URL and the number of failures: a value of 64 bits. *)
Definition reconnect_delay (hash : string -> Z -> Z) (config : RelayConfig) (failures : Z) : Duration :=
  let exponent := Z.min (saturating_sub failures 1) 20 in
  let capped_millis := Z.min (saturating_mul u128_max (as_millis (reconnect_initial_delay config)) (Z.shiftl 1 exponent))
                         (as_millis (reconnect_max_delay config)) in
  let jitter_per_mille := 750 + hash (rcf_url config) failures mod 501 in
  let jittered := Z.min (Z.max (saturating_mul u128_max capped_millis jitter_per_mille / 1000) 1)
                    (as_millis (reconnect_max_delay config)) in
  from_millis (if jittered <=? u64_max then jittered else u64_max).

(** The variables of [run_actor_loop], with the notification queue, what the next sends
    on the socket return, and the entropy. *)
Record Actor := {
  subscriptions : gmap string (list Value);
  pending : gmap string nat;
  pending_authentication : option PendingAuthentication;
  session_authenticated : bool;
  session_progress : bool;
  consecutive_failures : Z;
  health : RelayHealth;
  queue : list RelayNotification;
  receiver_open : bool;
  send_results : list (option string);
  entropy : Entropy;
  log : list Entry
}.

Abbreviation Act := (SE Actor RelayError).

(** ** The parts of the state *)

Definition modify (f : Actor -> Actor) : Act unit := fun a => (Ok tt, f a).

Definition set_subscriptions f a := {|
  subscriptions := f (subscriptions a); pending := pending a; pending_authentication := pending_authentication a;
  session_authenticated := session_authenticated a; session_progress := session_progress a;
  consecutive_failures := consecutive_failures a; health := health a; queue := queue a;
  receiver_open := receiver_open a; send_results := send_results a; entropy := entropy a; log := log a |}.
Definition set_pending f a := {|
  subscriptions := subscriptions a; pending := f (pending a); pending_authentication := pending_authentication a;
  session_authenticated := session_authenticated a; session_progress := session_progress a;
  consecutive_failures := consecutive_failures a; health := health a; queue := queue a;
  receiver_open := receiver_open a; send_results := send_results a; entropy := entropy a; log := log a |}.
Definition set_authentication p a := {|
  subscriptions := subscriptions a; pending := pending a; pending_authentication := p;
  session_authenticated := session_authenticated a; session_progress := session_progress a;
  consecutive_failures := consecutive_failures a; health := health a; queue := queue a;
  receiver_open := receiver_open a; send_results := send_results a; entropy := entropy a; log := log a |}.
Definition set_authenticated b a := {|
  subscriptions := subscriptions a; pending := pending a; pending_authentication := pending_authentication a;
  session_authenticated := b; session_progress := session_progress a;
  consecutive_failures := consecutive_failures a; health := health a; queue := queue a;
  receiver_open := receiver_open a; send_results := send_results a; entropy := entropy a; log := log a |}.
Definition set_progress b a := {|
  subscriptions := subscriptions a; pending := pending a; pending_authentication := pending_authentication a;
  session_authenticated := session_authenticated a; session_progress := b;
  consecutive_failures := consecutive_failures a; health := health a; queue := queue a;
  receiver_open := receiver_open a; send_results := send_results a; entropy := entropy a; log := log a |}.
Definition set_failures n a := {|
  subscriptions := subscriptions a; pending := pending a; pending_authentication := pending_authentication a;
  session_authenticated := session_authenticated a; session_progress := session_progress a;
  consecutive_failures := n; health := health a; queue := queue a;
  receiver_open := receiver_open a; send_results := send_results a; entropy := entropy a; log := log a |}.
Definition set_health h a := {|
  subscriptions := subscriptions a; pending := pending a; pending_authentication := pending_authentication a;
  session_authenticated := session_authenticated a; session_progress := session_progress a;
  consecutive_failures := consecutive_failures a; health := h; queue := queue a;
  receiver_open := receiver_open a; send_results := send_results a; entropy := entropy a; log := log a |}.
Definition set_queue q a := {|
  subscriptions := subscriptions a; pending := pending a; pending_authentication := pending_authentication a;
  session_authenticated := session_authenticated a; session_progress := session_progress a;
  consecutive_failures := consecutive_failures a; health := health a; queue := q;
  receiver_open := receiver_open a; send_results := send_results a; entropy := entropy a; log := log a |}.
Definition set_send_results l a := {|
  subscriptions := subscriptions a; pending := pending a; pending_authentication := pending_authentication a;
  session_authenticated := session_authenticated a; session_progress := session_progress a;
  consecutive_failures := consecutive_failures a; health := health a; queue := queue a;
  receiver_open := receiver_open a; send_results := l; entropy := entropy a; log := log a |}.
Definition set_entropy t a := {|
  subscriptions := subscriptions a; pending := pending a; pending_authentication := pending_authentication a;
  session_authenticated := session_authenticated a; session_progress := session_progress a;
  consecutive_failures := consecutive_failures a; health := health a; queue := queue a;
  receiver_open := receiver_open a; send_results := send_results a; entropy := t; log := log a |}.
Definition record (e : Entry) a := {|
  subscriptions := subscriptions a; pending := pending a; pending_authentication := pending_authentication a;
  session_authenticated := session_authenticated a; session_progress := session_progress a;
  consecutive_failures := consecutive_failures a; health := health a; queue := queue a;
  receiver_open := receiver_open a; send_results := send_results a; entropy := entropy a; log := e :: log a |}.

(** [response.send(..)], whose failure the source ignores *)
Definition respond (response : nat) (r : Response) : Act unit := modify (record (LRespond response r)).

Section Session.
Context {hex : Hex} {json : Json} {sha : Sha256} {schnorr : Schnorr}.
Variable config : RelayConfig.

(** [notify]: [try_send] on the bounded queue *)
Definition notify (n : RelayNotification) : Act unit := fun a =>
  if negb (receiver_open a) then (Err REStopped, a)
  else if notification_capacity config <=? zlen (queue a) then (Err REBackpressure, a)
  else (Ok tt, set_queue (queue a ++ [n]) a).

(** [socket.send]: the next result, success when none is given *)
Definition socket_send (f : ClientFrame) : Act unit := fun a =>
  let a := record (LSent f) a in
  match send_results a with
  | Some e :: rest => (Err (REWebSocket e), set_send_results rest a)
  | None :: rest => (Ok tt, set_send_results rest a)
  | [] => (Ok tt, a)
  end.

Definition send_frame (f : ClientFrame) : Act unit :=
  let! b := se_ret (map_err (fun e => REFrame (FrameError_to_string e))
              (client_frame_to_json f (rcf_frame_limits config))) in
  let! _ := se_ret (fail_if negb (utf8_valid (of_bytes b)) with REUtf8 ;; Ok tt) in
  socket_send f.

(** The map's own order stands for the hash map's. *)
Fixpoint replay_list (l : list (string * list Value)) : Act unit :=
  match l with
  | [] => se_ret (Ok tt)
  | (subscription_id, filters) :: l =>
      let! _ := send_frame (CRequest subscription_id filters) in
      replay_list l
  end.
Definition replay_subscriptions : Act unit := fun a => replay_list (map_to_list (subscriptions a)) a.

(** [pending.drain()] with an error for each *)
Definition fail_pending (error : RelayError) : Actor -> Actor := fun a =>
  set_pending (fun _ => ∅)
    (fold_left (fun a e => record (LRespond e.2 (PublishResponse (Err error))) a) (map_to_list (pending a)) a).

(** [pending.remove(&event_id)] and the answer to the publisher, if there is one *)
Definition acknowledge (event_id : string) (accepted : bool) (message : string) : Act unit := fun a =>
  match pending a !! event_id with
  | Some response =>
      respond response (PublishResponse
        (if accepted then Ok {| ack_event_id := event_id; ack_message := message |}
         else Err (REPublishRejected message))) (set_pending (delete event_id) a)
  | None => (Ok tt, a)
  end.

Definition handle_relay_frame (b : bytes) (now now' : Z) : Act unit :=
  let! frame := se_ret (map_err (fun e => REFrame (FrameError_to_string e))
                  (relay_frame_from_json b now (rcf_event_limits config) (rcf_frame_limits config))) in
  let! _ := modify (record (LReceived frame)) in
  match frame with
  | REvent subscription_id event => notify (NEvent subscription_id event)
  | REndOfStoredEvents subscription_id => notify (NEndOfStoredEvents subscription_id)
  | ROk event_id accepted message => fun a =>
      match pending_authentication a with
      | Some authentication =>
          if String.eqb (pa_event_id authentication) event_id then
            (let! _ := modify (set_authentication None) in
             let! _ := modify (set_authenticated accepted) in
             if accepted then
               let! _ := replay_subscriptions in
               notify (NAuthenticated (pa_public_key authentication))
             else notify (NAuthenticationRejected (pa_public_key authentication) message)) a
          else acknowledge event_id accepted message a
      | None => acknowledge event_id accepted message a
      end
  | RClosed subscription_id message => notify (NClosed subscription_id message)
  | RNotice message => notify (NNotice message)
  | RAuthChallenge challenge =>
      let! _ := notify (NAuthChallenge challenge) in
      match rcf_auth config with
      | None => se_ret (Ok tt)
      | Some signer =>
          let! _ := modify (set_authenticated false) in
          let! event := se_map_err (fun e => REAuthentication (AuthError_to_string e))
            (se_zoom entropy set_entropy (sign_challenge signer (rcf_url config) challenge now' (rcf_event_limits config))) in
          let! _ := send_frame (CAuth event) in
          modify (set_authentication (Some {| pa_event_id := id event; pa_public_key := pubkey event |}))
      end
  end.

(** One command of the inner loop; the result is [Some disconnect] when it breaks. The
    response channels whose callers have gone are [closed]. *)
Definition handle_command (closed : list nat) (c : option Command) (a : Actor) : option bool * Actor :=
  let a := match c with Some c => record (LCommand c) a | None => a end in
  match c with
  | Some (Publish event response) =>
      if negb (session_authenticated a) then
        (None, record (LRespond response (PublishResponse (Err (REAuthentication "relay session is not authenticated")))) a)
      else if match pending a !! id event with Some r => negb (bool_decide (r ∈ closed)) | None => false end then
        (None, record (LRespond response (PublishResponse (Err REDuplicatePublish))) a)
      else
        match send_frame (CEvent event) (set_pending (delete (id event)) a) with
        | (Ok _, a) => (None, set_pending (insert (id event) response) a)
        | (Err e, a) => (Some true, record (LRespond response (PublishResponse (Err e))) a)
        end
  | Some (Subscribe subscription_id filters response) =>
      if negb (session_authenticated a) then
        (None, record (LRespond response (UnitResponse (Ok tt))) (set_subscriptions (insert subscription_id filters) a))
      else
        match send_frame (CRequest subscription_id filters) a with
        | (Ok _, a) =>
            (None, record (LRespond response (UnitResponse (Ok tt))) (set_subscriptions (insert subscription_id filters) a))
        | (Err e, a) => (Some true, record (LRespond response (UnitResponse (Err e))) a)
        end
  | Some (CloseSubscription subscription_id response) =>
      let a := set_subscriptions (delete subscription_id) a in
      if negb (session_authenticated a) then (None, record (LRespond response (UnitResponse (Ok tt))) a)
      else
        match send_frame (CClose subscription_id) a with
        | (Ok _, a) => (None, record (LRespond response (UnitResponse (Ok tt))) a)
        | (Err e, a) => (Some true, record (LRespond response (UnitResponse (Err e))) a)
        end
  | Some Shutdown => (Some false, a)
  | None => (Some false, a)
  end.

(** What [socket.next()] yields *)
Inductive Message :=
| MText (b : bytes) (now now' : Z)
| MPingPong
| MOther.  (* close, binary, raw frame or an error *)

Definition handle_message (m : option Message) (a : Actor) : option bool * Actor :=
  match m with
  | None => (Some true, a)
  | Some (MText b now now') =>
      match handle_relay_frame b now now' (set_progress true a) with
      | (Ok _, a) => (None, a)
      | (Err _, a) => (Some true, a)
      end
  | Some MPingPong => (None, set_progress true a)
  | Some MOther => (Some true, a)
  end.

(** The branches of the [select!] of a session *)
Inductive SessionInput :=
| SCommand (c : option Command)
| SMessage (m : option Message)
| SPing (sent : bool)
| SIdle.

Definition session_step (closed : list nat) (i : SessionInput) (a : Actor) : option bool * Actor :=
  match i with
  | SCommand c => handle_command closed c a
  | SMessage m => handle_message m a
  | SPing sent => (if sent then None else Some true, a)
  | SIdle => (Some true, a)
  end.

Definition open_session : Act unit :=
  let! _ := modify (set_health HConnected) in
  let! _ := modify (record LConnected) in
  let! _ := notify NConnected in
  let authenticated := match rcf_auth config with None => true | Some _ => false end
    || bool_decide (rcf_authentication_policy config = AuthenticateWhenChallenged) in
  let! _ := modify (set_authenticated authenticated) in
  let! _ := if authenticated then replay_subscriptions else se_ret (Ok tt) in
  modify (set_progress false).

Definition close_session : Act unit :=
  let! _ := modify (fail_pending REDisconnected) in
  let! _ := modify (set_authentication None) in
  let! _ := modify (set_health HDisconnected) in
  let! _ := modify (record LDisconnected) in
  let! _ := notify NDisconnected in
  fun a => (Ok tt, set_failures (if session_progress a then 0 else saturating_add u32_max (consecutive_failures a) 1) a).

(** [wait_to_reconnect] when a command arrives before the delay is over *)
Definition reject_command (c : Command) (error : RelayError) : Actor -> Actor :=
  match c with
  | Publish _ response => record (LRespond response (PublishResponse (Err error)))
  | Subscribe _ _ response | CloseSubscription _ response => record (LRespond response (UnitResponse (Err error)))
  | Shutdown => fun a => a
  end.

(** ** The whole actor *)

Inductive Phase :=
| Connecting
| InSession
| Waiting (delay : Duration)
| Finished (r : result RelayError unit).

Inductive Input :=
| Connect (connected : bool)                    (* [connect] returned *)
| InSessionInput (closed : list nat) (i : SessionInput)
| DelayOver
| WhileWaiting (c : option Command)
| Consume.                                      (* the consumer takes a notification *)

Variable hash : string -> Z -> Z.

(** [break] out of the outer loop: everything still pending is told, then [run_actor]
    reports [Stopped]. *)
Definition stop (a : Actor) : Phase * Actor := (Finished (Ok tt), set_health HStopped (fail_pending REStopped a)).
Definition fail_actor (e : RelayError) (a : Actor) : Phase * Actor := (Finished (Err e), set_health HStopped a).

Definition actor_step (i : Input) (s : Phase * Actor) : Phase * Actor :=
  let '(phase, a) := s in
  match i, phase with
  | Consume, _ => (phase, set_queue (tail (queue a)) a)
  | Connect false, Connecting =>
      let a := set_failures (saturating_add u32_max (consecutive_failures a) 1) (set_health HDisconnected a) in
      (Waiting (reconnect_delay hash config (consecutive_failures a)), a)
  | Connect true, Connecting =>
      match open_session a with
      | (Ok _, a) => (InSession, a)
      | (Err e, a) => fail_actor e a
      end
  | InSessionInput closed i, InSession =>
      match session_step closed i a with
      | (None, a) => (InSession, a)
      | (Some false, a) => stop a
      | (Some true, a) =>
          match close_session a with
          | (Ok _, a) => (Waiting (reconnect_delay hash config (consecutive_failures a)), a)
          | (Err e, a) => fail_actor e a
          end
      end
  | DelayOver, Waiting _ => (Connecting, set_health HConnecting a)
  | WhileWaiting (Some Shutdown), Waiting _ => stop (record (LCommand Shutdown) a)
  | WhileWaiting (Some c), Waiting _ =>
      (Connecting, set_health HConnecting (reject_command c REDisconnected (record (LCommand c) a)))
  | WhileWaiting None, Waiting _ => stop a
  | _, _ => s
  end.

Definition run_actor (inputs : list Input) (s : Phase * Actor) : Phase * Actor :=
  fold_left (fun s i => actor_step i s) inputs s.

Definition actor_new (sends : list (option string)) (tape : Entropy) : Phase * Actor :=
  (Connecting, {| subscriptions := ∅; pending := ∅; pending_authentication := None; session_authenticated := false;
     session_progress := false; consecutive_failures := 0; health := HConnecting; queue := []; receiver_open := true;
     send_results := sends; entropy := tape; log := [] |}).
End Session.

(** ** Authentication: what the log allows *)

Section Authentication.
Context {hex : Hex} {json : Json} {sha : Sha256} {schnorr : Schnorr}.
Variable config : RelayConfig.

Definition has_signer : bool := match rcf_auth config with Some _ => true | None => false end.
(** A relay that must authenticate this client before anything else is sent to it *)
Definition authentication_required : bool :=
  has_signer && negb (bool_decide (rcf_authentication_policy config = AuthenticateWhenChallenged)).

(** Read from the log alone: whether commands may be sent, and the authentication event,
    sent since the last challenge, that the relay has not answered. A connection without a
    signer ignores challenges. *)
Fixpoint auth_view (l : list Entry) : bool * option string :=
  match l with
  | [] => (false, None)
  | LConnected :: _ => (negb authentication_required, None)
  | LDisconnected :: _ => (false, None)
  | LReceived (RAuthChallenge _) :: l => if has_signer then (false, None) else auth_view l
  | LSent (CAuth e) :: l => ((auth_view l).1, Some (id e))
  | LReceived (ROk i accepted _) :: l =>
      if bool_decide ((auth_view l).2 = Some i) then (accepted, None) else auth_view l
  | _ :: l => auth_view l
  end.

Definition is_auth (f : ClientFrame) : bool := match f with CAuth _ => true | _ => false end.

(** Every frame other than an authentication was sent when the log allowed it. *)
Fixpoint sends_ok (l : list Entry) : bool :=
  match l with
  | [] => true
  | LSent f :: l => (is_auth f || (auth_view l).1) && sends_ok l
  | _ :: l => sends_ok l
  end.

(** The same in words: a command is allowed in a session that was not to be authenticated
    and has seen no challenge, or after the relay accepted an authentication event of this
    session that was sent after the last challenge. *)
Definition uneventful (e : Entry) : Prop :=
  match e with
  | LConnected | LDisconnected => False
  | LReceived (RAuthChallenge _) => has_signer = false
  | _ => True
  end.
Definition send_allowed (l : list Entry) : Prop :=
  (exists session earlier, l = session ++ LConnected :: earlier /\ Forall uneventful session /\ authentication_required = false) \/
  (exists newer e message between older,
     l = newer ++ LReceived (ROk (id e) true message) :: between ++ LSent (CAuth e) :: older /\
     Forall uneventful newer /\ Forall uneventful between).
Definition awaits_answer (i : string) (l : list Entry) : Prop :=
  exists newer e older, l = newer ++ LSent (CAuth e) :: older /\ i = id e /\ Forall uneventful newer.

Lemma allowed_cons e l : uneventful e -> send_allowed l -> send_allowed (e :: l).
Proof.
  intros He [(session & earlier & -> & Hs & Hr)|(newer & a & m & between & older & -> & H1 & H2)].
  - left. exists (e :: session), earlier. auto using Forall_cons_2.
  - right. exists (e :: newer), a, m, between, older. auto using Forall_cons_2.
Qed.
Lemma awaits_cons e i l : uneventful e -> awaits_answer i l -> awaits_answer i (e :: l).
Proof. intros He (newer & a & older & -> & -> & H). exists (e :: newer), a, older. auto using Forall_cons_2. Qed.

Lemma auth_view_allowed l :
  ((auth_view l).1 = true -> send_allowed l) /\ (forall i, (auth_view l).2 = Some i -> awaits_answer i l).
Proof.
  induction l as [|e l [H1 H2]]; [done|].
  assert (uneventful e -> ((auth_view l).1 = true -> send_allowed (e :: l)) /\
    (forall i, (auth_view l).2 = Some i -> awaits_answer i (e :: l))) as Hskip by auto using allowed_cons, awaits_cons.
  destruct e as [| |f|f|c|n r]; cbn [auth_view]; try (by apply Hskip); [|done| |].
  - split; [|done]. cbn. intros Hr%negb_true_iff. left. exists [], l. auto.
  - destruct f as [| | |e]; try (by apply Hskip). cbn [fst snd]. split; [by apply Hskip|].
    intros i [= <-]. exists [], e, l. auto.
  - destruct f as [| |i accepted message| | |challenge]; try (by apply Hskip).
    + case_bool_decide as Ei; [|by apply Hskip]. cbn [fst snd]. split; [|done]. intros ->.
      destruct (H2 i Ei) as (newer & a & older & -> & -> & Hn). right. exists [], a, message, newer, older. auto.
    + destruct has_signer eqn:Es; [done|]. by apply Hskip.
Qed.

Lemma sends_allowed newer f older :
  sends_ok (newer ++ LSent f :: older) = true -> is_auth f = false -> send_allowed older.
Proof.
  intros H Hf. apply auth_view_allowed. revert H. induction newer as [|e newer IH]; cbn [app sends_ok].
  - rewrite Hf. intros H. by split_bools.
  - destruct e; intros H; split_bools; auto.
Qed.

(** The actor's variables agree with the log. *)
Definition viewed (a : Actor) : Prop :=
  auth_view (log a) = (session_authenticated a, pa_event_id <$> pending_authentication a).
Definition safe (a : Actor) : Prop := sends_ok (log a) = true.
Definition steady (a : Actor) : Prop := viewed a /\ safe a.

Lemma notify_hoare (I : Actor -> Prop) n :
  (forall a q, I a -> I (set_queue q a)) -> hoare I (notify config n) (fun _ => I) I.
Proof. intros HI a Ha. unfold notify. repeat case_match; simplify_eq; auto. Qed.

Lemma notify_steady n : hoare steady (notify config n) (fun _ => steady) safe.
Proof.
  intros a Ha. pose proof (notify_hoare steady n (fun a q H => H) a Ha) as H.
  destruct (notify config n a) as [[]]; [done | by destruct H].
Qed.

(** Sending a command is safe in a session the log allows, and changes neither view. *)
Lemma send_frame_steady f :
  is_auth f = false ->
  hoare (fun a => steady a /\ session_authenticated a = true) (send_frame config f)
    (fun _ a => steady a /\ session_authenticated a = true) safe.
Proof.
  intros Hf a [[Hv Hs] Ht]. unfold send_frame, se_bind, se_ret.
  destruct (map_err _ _) as [b|]; [|done]. destruct (negb _); [done|].
  assert (steady (record (LSent f) a)) as [Hv' Hs'].
  { split; unfold viewed, safe in *; cbn [log record auth_view sends_ok].
    - by destruct f.
    - by rewrite Hf, Hv, Hs, Ht. }
  unfold socket_send. destruct (send_results (record (LSent f) a)) as [|[e|] rest]; done.
Qed.

Lemma replay_steady :
  hoare (fun a => steady a /\ session_authenticated a = true) (replay_subscriptions config)
    (fun _ a => steady a /\ session_authenticated a = true) safe.
Proof.
  intros a Ha. unfold replay_subscriptions. generalize (map_to_list (subscriptions a)). intros l. revert a Ha.
  induction l as [|[s f] l IH]; intros a Ha; [done|]. cbn [replay_list]. unfold se_bind.
  pose proof (send_frame_steady (CRequest s f) eq_refl a Ha) as Hsend.
  destruct (send_frame config (CRequest s f) a) as [[]]; [by apply IH | done].
Qed.

Lemma acknowledge_steady i ok m a :
  steady a -> steady (acknowledge i ok m a).2.
Proof. intros [Hv Hs]. unfold acknowledge. by case_match. Qed.

Lemma handle_relay_frame_steady b now now' :
  hoare steady (handle_relay_frame config b now now') (fun _ => steady) safe.
Proof.
  intros a [Hv Hs]. unfold handle_relay_frame, se_bind at 1, se_ret.
  destruct (map_err _ _) as [frame|]; [|done]. unfold se_bind at 1, modify at 1.
  set (a1 := record (LReceived frame) a).
  assert (safe a1) as Hs1 by exact Hs.
  assert (match frame with RAuthChallenge _ | ROk _ _ _ => True | _ => steady a1 end) as Hst.
  { destruct frame; try done; by split. }
  destruct frame; try (by apply notify_steady).
  - (* OK *)
    assert (auth_view (log a1) = if bool_decide (pa_event_id <$> pending_authentication a = Some event_id)
              then (accepted, None) else auth_view (log a)) as Hview.
    { cbn [log a1 record auth_view]. unfold viewed in Hv. by rewrite Hv. }
    change (pending_authentication a1) with (pending_authentication a).
    destruct (pending_authentication a) as [pa|] eqn:Epa; cbn [fmap option_fmap option_map] in *.
    + destruct (String.eqb_spec (pa_event_id pa) event_id) as [Eid|N].
      * rewrite bool_decide_true in Hview by congruence.
        assert (steady (set_authenticated accepted (set_authentication None a1))) as Hst2 by (by split).
        unfold se_bind, modify. destruct accepted.
        -- pose proof (replay_steady _ (conj Hst2 eq_refl)) as Hr.
           destruct (replay_subscriptions config _) as [[]]; [|done]. apply notify_steady. by destruct Hr.
        -- by apply notify_steady.
      * rewrite bool_decide_false in Hview by congruence.
        assert (steady a1) as Hst1 by (split; [unfold viewed; rewrite Hview; exact Hv | done]).
        pose proof (acknowledge_steady event_id accepted message _ Hst1) as Hack.
        unfold acknowledge in *. by destruct (pending a1 !! event_id).
    + rewrite bool_decide_false in Hview by done.
      assert (steady a1) as Hst1 by (split; [unfold viewed; rewrite Hview; exact Hv | done]).
      pose proof (acknowledge_steady event_id accepted message _ Hst1) as Hack.
      unfold acknowledge in *. by destruct (pending a1 !! event_id).
  - (* challenge *)
    unfold se_bind at 1.
    pose proof (notify_hoare (fun x => safe x /\ auth_view (log x) = auth_view (log a1) /\
      session_authenticated x = session_authenticated a /\ pending_authentication x = pending_authentication a)
      (NAuthChallenge challenge) (fun x q H => H) a1 (conj Hs1 (conj eq_refl (conj eq_refl eq_refl)))) as Hn.
    destruct (notify config (NAuthChallenge challenge) a1) as [[[]|e] a2]; [|by destruct Hn].
    destruct Hn as (Hs2 & Hv2 & Hsa & Hpa). unfold viewed in Hv.
    destruct (rcf_auth config) as [signer|] eqn:Esig.
    + assert (auth_view (log a2) = (false, None)) as Hv3.
      { rewrite Hv2. cbn [log a1 record auth_view]. unfold has_signer. by rewrite Esig. }
      unfold se_bind, modify, se_map_err, se_zoom.
      destruct (sign_challenge signer _ _ _ _ _) as [[event|] tape]; cbn [fst snd map_err]; [|done].
      set (a3 := set_entropy tape (set_authenticated false a2)).
      assert (safe (record (LSent (CAuth event)) a3)) as Hs3 by (unfold safe; cbn; done).
      unfold send_frame, se_bind, se_ret. destruct (map_err _ _); [|done]. destruct (negb _); [done|].
      assert (forall l, steady (set_authentication (Some {| pa_event_id := id event; pa_public_key := pubkey event |})
        (set_send_results l (record (LSent (CAuth event)) a3)))) as Hfin.
      { intros l. split; [|done]. unfold viewed. cbn. by rewrite Hv3. }
      unfold socket_send. destruct (send_results _) as [|[err|] rest]; first [done | exact (Hfin [])].
    + split; [|done]. unfold viewed. rewrite Hv2, Hsa, Hpa. cbn [log a1 record auth_view].
      unfold has_signer. by rewrite Esig.
Qed.

Lemma handle_command_steady closed c a :
  steady a -> match handle_command config closed c a with
              | (None, a') => steady a'
              | (Some _, a') => safe a'
              end.
Proof.
  intros Hst. unfold handle_command. destruct c as [c|]; [|by destruct Hst].
  set (a1 := record (LCommand c) a). assert (steady a1) as Hst1 by exact Hst. clearbody a1.
  assert (forall f x, is_auth f = false -> steady x -> negb (session_authenticated x) = false ->
    match send_frame config f x with (Ok _, y) => steady y | (Err _, y) => safe y end) as Hsend.
  { intros f x Hf Hx Ha. apply negb_false_iff in Ha. pose proof (send_frame_steady f Hf x (conj Hx Ha)) as H.
    destruct (send_frame config f x) as [[]]; [by destruct H | done]. }
  destruct c as [event n|sid filters n|sid n|]; [| | |by destruct Hst1].
  - destruct (negb (session_authenticated a1)) eqn:Ea; [done|].
    destruct (match pending a1 !! id event with Some _ => _ | None => _ end); [done|].
    specialize (Hsend (CEvent event) (set_pending (delete (id event)) a1) eq_refl Hst1 Ea).
    by destruct (send_frame config (CEvent event) _) as [[]].
  - destruct (negb (session_authenticated a1)) eqn:Ea; [done|].
    specialize (Hsend (CRequest sid filters) a1 eq_refl Hst1 Ea).
    by destruct (send_frame config (CRequest sid filters) _) as [[]].
  - cbn [session_authenticated set_subscriptions].
    destruct (negb (session_authenticated a1)) eqn:Ea; [done|].
    specialize (Hsend (CClose sid) (set_subscriptions (delete sid) a1) eq_refl Hst1 Ea).
    by destruct (send_frame config (CClose sid) _) as [[]].
Qed.

Lemma session_step_steady closed i a :
  steady a -> match session_step config closed i a with
              | (None, a') => steady a'
              | (Some _, a') => safe a'
              end.
Proof.
  intros Hst. destruct i as [c|m|sent|]; cbn [session_step].
  - by apply handle_command_steady.
  - destruct m as [[b now now'| |]|]; cbn [handle_message]; try (by destruct Hst).
    pose proof (handle_relay_frame_steady b now now' (set_progress true a) Hst) as H.
    by destruct (handle_relay_frame config b now now' _) as [[]].
  - destruct sent; [done | by destruct Hst].
  - by destruct Hst.
Qed.

(** Failing the pending publications only writes answers. *)
Lemma fail_pending_log e a :
  log (fail_pending e a) =
    rev (map (fun x => LRespond x.2 (PublishResponse (Err e))) (map_to_list (pending a))) ++ log a /\
  pending (fail_pending e a) = ∅ /\
  session_authenticated (fail_pending e a) = session_authenticated a /\
  pending_authentication (fail_pending e a) = pending_authentication a.
Proof.
  unfold fail_pending. generalize (map_to_list (pending a)). intros l. cbn.
  assert (forall (l : list (string * nat)) a, let f := fold_left (fun a x => record (LRespond x.2 (PublishResponse (Err e))) a) l a in
    log f = rev (map (fun x => LRespond x.2 (PublishResponse (Err e))) l) ++ log a /\
    session_authenticated f = session_authenticated a /\ pending_authentication f = pending_authentication a) as H.
  { clear. intros l. induction l as [|x l IH]; intros a; [done|]. cbn [fold_left map rev] in *.
    destruct (IH (record (LRespond x.2 (PublishResponse (Err e))) a)) as (-> & -> & ->).
    by rewrite <- app_assoc. }
  destruct (H l a) as (-> & -> & ->). done.
Qed.

Lemma fail_pending_safe e a : safe a -> safe (fail_pending e a).
Proof.
  intros Hs. unfold safe. rewrite (proj1 (fail_pending_log e a)). generalize (map_to_list (pending a)). intros l.
  rewrite <- map_rev. generalize (rev l). intros l'. induction l' as [|x l' IH]; [done|]. by cbn.
Qed.

(** What holds of the actor between two inputs *)
Definition actor_ok (s : Phase * Actor) : Prop :=
  safe s.2 /\ match s.1 with
              | InSession => viewed s.2
              | Connecting | Waiting _ => pending_authentication s.2 = None
              | Finished _ => True
              end.

Lemma open_session_ok a :
  safe a -> pending_authentication a = None ->
  match open_session config a with (Ok _, a') => steady a' | (Err _, a') => safe a' end.
Proof.
  intros Hs Hp. unfold open_session, se_bind, modify.
  set (a1 := record LConnected (set_health HConnected a)).
  set (J := fun x => safe x /\ auth_view (log x) = (negb authentication_required, None) /\ pending_authentication x = None).
  assert (J a1) as Hj by (by split).
  pose proof (notify_hoare J NConnected (fun x q H => H) a1 Hj) as Hn.
  destruct (notify config NConnected a1) as [[[]|] a2]; [|by destruct Hn]. destruct Hn as (Hs2 & Hv2 & Hp2).
  assert (match rcf_auth config with Some _ => false | None => true end
    || bool_decide (rcf_authentication_policy config = AuthenticateWhenChallenged) = negb authentication_required) as ->.
  { unfold authentication_required, has_signer. by destruct (rcf_auth config), (bool_decide _). }
  set (a3 := set_authenticated (negb authentication_required) a2).
  assert (steady a3) as Hst3 by (split; [unfold viewed; cbn; by rewrite Hv2, Hp2 | done]).
  destruct (negb authentication_required) eqn:Ea; [|done].
  pose proof (replay_steady a3 (conj Hst3 eq_refl)) as Hr.
  destruct (replay_subscriptions config a3) as [[]]; [by destruct Hr | done].
Qed.

Lemma close_session_ok a :
  safe a -> match close_session config a with
            | (Ok _, a') => safe a' /\ pending_authentication a' = None
            | (Err _, a') => safe a'
            end.
Proof.
  intros Hs. unfold close_session, se_bind, modify.
  set (a1 := record LDisconnected _).
  assert (safe a1 /\ pending_authentication a1 = None) as Hj by (split; [exact (fail_pending_safe _ _ Hs) | done]).
  pose proof (notify_hoare (fun x => safe x /\ pending_authentication x = None) NDisconnected (fun x q H => H) a1 Hj) as Hn.
  destruct (notify config NDisconnected a1) as [[[]|] a2]; by destruct Hn.
Qed.

Variable hash : string -> Z -> Z.

Lemma actor_step_ok i s : actor_ok s -> actor_ok (actor_step config hash i s).
Proof.
  destruct s as [phase a]. intros [Hs Hp]. cbn in Hs, Hp. unfold actor_step.
  destruct i as [connected|closed i| |c|]; [| | | |by split].
  - destruct connected, phase; try (by split).
    pose proof (open_session_ok a Hs Hp) as H. destruct (open_session config a) as [[]]; [by destruct H | by split].
  - destruct phase; try (by split).
    pose proof (session_step_steady closed i a (conj Hp Hs)) as H.
    destruct (session_step config closed i a) as [[[]|] a']; [|by split; [apply fail_pending_safe|]|by destruct H].
    pose proof (close_session_ok a' H) as Hc. destruct (close_session config a') as [[]]; [by destruct Hc | by split].
  - destruct phase; by split.
  - destruct c as [[]|], phase; try (by split); by split; [apply fail_pending_safe|].
Qed.

Lemma run_actor_ok inputs s : actor_ok s -> actor_ok (run_actor config hash inputs s).
Proof. revert s. induction inputs as [|i l IH]; intros s Hs; [done|]. by apply IH, actor_step_ok. Qed.
End Authentication.

(** ** Answers: one for each command *)

Definition response_of (c : Command) : option nat :=
  match c with
  | Publish _ n | Subscribe _ _ n | CloseSubscription _ n => Some n
  | Shutdown => None
  end.

(** The response channels of the commands taken, and those answered *)
Definition taken (l : list Entry) : list nat :=
  omap (fun e => match e with LCommand c => response_of c | _ => None end) l.
Definition answered (l : list Entry) : list nat :=
  omap (fun e => match e with LRespond n _ => Some n | _ => None end) l.

(** An acknowledgement answers a publication whose event was sent and which the relay
    accepted. *)
Definition acknowledges (older : list Entry) (n : nat) (ack : PublishAcknowledgement) : Prop :=
  exists e, id e = ack_event_id ack /\ LCommand (Publish e n) ∈ older /\ LSent (CEvent e) ∈ older /\
    LReceived (ROk (id e) true (ack_message ack)) ∈ older.

Fixpoint acks_ok (l : list Entry) : Prop :=
  match l with
  | [] => True
  | LRespond n (PublishResponse (Ok ack)) :: older => acknowledges older n ack /\ acks_ok older
  | _ :: older => acks_ok older
  end.

(** [answers dropped hole a]: the channels in [hole] are about to be answered or stored;
    those in [dropped] have lost their caller. *)
Record answers (dropped hole : list nat) (a : Actor) : Prop := {
  an_nodup : NoDup (answered (log a));
  an_taken n : n ∈ answered (log a) -> n ∈ taken (log a);
  an_pending i n : pending a !! i = Some n -> n ∈ taken (log a) /\ (n ∉ answered (log a)) /\ (n ∉ hole) /\
    exists e, id e = i /\ LCommand (Publish e n) ∈ log a /\ LSent (CEvent e) ∈ log a;
  an_inj i j n : pending a !! i = Some n -> pending a !! j = Some n -> i = j;
  an_hole n : n ∈ hole -> n ∈ taken (log a) /\ (n ∉ answered (log a));
  an_complete n : n ∈ taken (log a) -> n ∈ answered (log a) \/ (exists i, pending a !! i = Some n) \/ n ∈ dropped \/ n ∈ hole;
  an_acks : acks_ok (log a)
}.

(** Only the log and the pending map matter. *)
Lemma answers_same dropped hole a b :
  log b = log a -> pending b = pending a -> answers dropped hole a -> answers dropped hole b.
Proof. intros Hl Hp [H1 H2 H3 H4 H5 H6 H7]. by split; rewrite ?Hl, ?Hp. Qed.

Definition neutral (e : Entry) : bool :=
  match e with LCommand c => bool_decide (response_of c = None) | LRespond _ _ => false | _ => true end.

Lemma answers_neutral dropped hole e a :
  neutral e = true -> answers dropped hole a -> answers dropped hole (record e a).
Proof.
  intros He [H1 H2 H3 H4 H5 H6 H7].
  assert (taken (e :: log a) = taken (log a) /\ answered (e :: log a) = answered (log a)) as [Et Ea].
  { unfold taken, answered. cbn. destruct e as [| | | |c|]; try done. cbn in He. split_bools. by rewrite He. }
  split; cbn [log pending record]; rewrite ?Et, ?Ea; try done.
  - intros i n Hn. destruct (H3 i n Hn) as (? & ? & ? & ev & ? & ? & ?). split_and!; try done.
    exists ev. split_and!; [done | by right..].
  - cbn. by destruct e.
Qed.

Lemma answers_take dropped a c n :
  answers dropped [] a -> response_of c = Some n -> n ∉ taken (log a) -> answers dropped [n] (record (LCommand c) a).
Proof.
  intros [H1 H2 H3 H4 H5 H6 H7] Hc Hn.
  assert (taken (LCommand c :: log a) = n :: taken (log a)) as Et by (unfold taken; cbn; by rewrite Hc).
  split; cbn [log pending record]; rewrite ?Et; change (answered (LCommand c :: log a)) with (answered (log a)); try done.
  - intros m Hm. right. by apply H2.
  - intros i m Hm. destruct (H3 i m Hm) as (Ht & Ha & _ & ev & ? & ? & ?). split_and!; [by right|done| |].
    + intros ->%list_elem_of_singleton. done.
    + exists ev. split_and!; [done | by right..].
  - intros m ->%list_elem_of_singleton. split; [left|]. intros Hm. by apply Hn, H2.
  - intros m [->|Hm]%elem_of_cons; [right; right; right; by apply list_elem_of_singleton|].
    destruct (H6 m Hm) as [?|[?|[?|Hnil]]]; eauto. by apply elem_of_nil in Hnil.
Qed.

Lemma answers_respond dropped n r a :
  answers dropped [n] a ->
  (forall ack, r = PublishResponse (Ok ack) -> acknowledges (log a) n ack) ->
  answers dropped [] (record (LRespond n r) a).
Proof.
  intros [H1 H2 H3 H4 H5 H6 H7] Hr. destruct (H5 n) as [Ht Hna]; [by apply list_elem_of_singleton|].
  split; cbn [log pending record]; change (taken (LRespond n r :: log a)) with (taken (log a));
    change (answered (LRespond n r :: log a)) with (n :: answered (log a)).
  - by constructor.
  - intros m [->|Hm]%elem_of_cons; [done | by apply H2].
  - intros i m Hm. destruct (H3 i m Hm) as (? & ? & Hh & ev & ? & ? & ?). rewrite not_elem_of_cons.
    split_and!; try done.
    + intros ->. apply Hh. by apply list_elem_of_singleton.
    + apply not_elem_of_nil.
    + exists ev. split_and!; [done | by right..].
  - done.
  - intros m Hm. by apply elem_of_nil in Hm.
  - intros m Hm. rewrite elem_of_cons. destruct (H6 m Hm) as [?|[?|[?| ->%list_elem_of_singleton]]]; eauto.
  - cbn. destruct r as [[ack|]|]; try done. split; [by apply Hr | done].
Qed.

(** Storing a publication, over whatever the map held for the identifier *)
Lemma answers_store dropped n e a :
  answers dropped [n] a -> LCommand (Publish e n) ∈ log a -> LSent (CEvent e) ∈ log a -> pending a !! id e = None ->
  answers dropped [] (set_pending (insert (id e) n) a).
Proof.
  intros [H1 H2 H3 H4 H5 H6 H7] Hc Hsent Hnone. destruct (H5 n) as [Ht Hna]; [by apply list_elem_of_singleton|].
  assert (forall i, pending a !! i <> Some n) as Hfresh.
  { intros i Hi. destruct (H3 i n Hi) as (_ & _ & Hh & _). apply Hh. by apply list_elem_of_singleton. }
  split; cbn [log pending set_pending]; try done.
  - intros i m [[<- <-]|[Hi Hm]]%lookup_insert_Some.
    + split_and!; [done|done|apply not_elem_of_nil|]. by exists e.
    + destruct (H3 i m Hm) as (? & ? & _ & ?). split_and!; try done. apply not_elem_of_nil.
  - intros i j m [[<- <-]|[Hi Hm]]%lookup_insert_Some [[<- Hj]|[Hj Hm']]%lookup_insert_Some; try done.
    + by destruct (Hfresh j).
    + subst. by destruct (Hfresh i).
    + by eapply H4.
  - intros m Hm. by apply elem_of_nil in Hm.
  - intros m Hm. destruct (H6 m Hm) as [?|[[i Hi]|[?| ->%list_elem_of_singleton]]]; eauto.
    + right. left. exists i. rewrite lookup_insert_ne; [done|]. intros <-. by rewrite Hnone in Hi.
    + right. left. exists (id e). by rewrite lookup_insert_eq.
Qed.

(** Taking a publication out of the map, to answer it or because its caller is gone *)
Lemma answers_remove dropped hole i n a :
  answers dropped hole a -> pending a !! i = Some n -> hole = [] ->
  answers dropped [n] (set_pending (delete i) a).
Proof.
  intros [H1 H2 H3 H4 H5 H6 H7] Hi ->. split; cbn [log pending set_pending]; try done.
  - intros j m [Hj Hm]%lookup_delete_Some. destruct (H3 j m Hm) as (? & ? & _ & ?). split_and!; try done.
    intros ->%list_elem_of_singleton. apply Hj. by eapply H4.
  - intros j k m [_ Hj]%lookup_delete_Some [_ Hk]%lookup_delete_Some. by eapply H4.
  - intros m ->%list_elem_of_singleton. by destruct (H3 i n Hi) as (? & ? & _).
  - intros m Hm. destruct (H6 m Hm) as [?|[[j Hj]|[?|Hn]]]; eauto; [|by apply elem_of_nil in Hn].
    destruct (decide (i = j)) as [->|N].
    + right; right; right. apply list_elem_of_singleton. congruence.
    + right; left. exists j. by rewrite lookup_delete_ne.
Qed.

Lemma answers_drop dropped hole i a :
  answers dropped hole a -> (forall n, pending a !! i = Some n -> n ∈ dropped) ->
  answers dropped hole (set_pending (delete i) a).
Proof.
  intros [H1 H2 H3 H4 H5 H6 H7] Hi. split; cbn [log pending set_pending]; try done.
  - intros j m [Hj Hm]%lookup_delete_Some. by apply (H3 j).
  - intros j k m [_ Hj]%lookup_delete_Some [_ Hk]%lookup_delete_Some. by eapply H4.
  - intros m Hm. destruct (H6 m Hm) as [?|[[j Hj]|?]]; eauto.
    destruct (decide (i = j)) as [->|N]; [right; right; left; by apply Hi|].
    right; left. exists j. by rewrite lookup_delete_ne.
Qed.

Lemma omap_responses (r : Response) (l : list (string * nat)) older :
  let entries := map (fun x => LRespond x.2 r) l in
  answered (entries ++ older) = l.*2 ++ answered older /\ taken (entries ++ older) = taken older /\
  ((forall ack, r <> PublishResponse (Ok ack)) -> acks_ok older -> acks_ok (entries ++ older)).
Proof.
  cbv zeta. induction l as [|x l (IH1 & IH2 & IH3)]; [done|]. cbn [map app].
  change (answered (LRespond x.2 r :: ?y)) with (x.2 :: answered y).
  change (taken (LRespond x.2 r :: ?y)) with (taken y). split_and!.
  - cbn. by rewrite <- IH1.
  - done.
  - intros Hr Ho. cbn [acks_ok]. destruct r as [[ack|]|]; [by destruct (Hr ack) | by apply IH3..].
Qed.

Lemma NoDup_snd_inj (m : gmap string nat) :
  (forall i j n, m !! i = Some n -> m !! j = Some n -> i = j) -> NoDup (map_to_list m).*2.
Proof.
  intros Hinj. apply NoDup_fmap_2_strong; [|apply NoDup_map_to_list].
  intros [i n] [j m'] Hi%elem_of_map_to_list Hj%elem_of_map_to_list. cbn. intros <-. f_equal. by eapply Hinj.
Qed.

Lemma answers_fail_pending dropped e a :
  answers dropped [] a -> answers dropped [] (fail_pending e a) /\ pending (fail_pending e a) = ∅.
Proof.
  intros [H1 H2 H3 H4 H5 H6 H7]. destruct (fail_pending_log e a) as (Hl & Hp & _ & _). split; [|done].
  rewrite <- map_rev in Hl.
  destruct (omap_responses (PublishResponse (Err e)) (rev (map_to_list (pending a))) (log a)) as (Ha & Ht & Hk).
  rewrite <- Hl in Ha, Ht, Hk.
  assert (Permutation (rev (map_to_list (pending a))).*2 (map_to_list (pending a)).*2) as Hperm
    by (by rewrite <- Permutation_rev).
  assert (forall n, n ∈ (rev (map_to_list (pending a))).*2 <-> exists i, pending a !! i = Some n) as Hin.
  { intros n. rewrite Hperm, list_elem_of_fmap. split.
    - intros ([i m] & -> & Hi%elem_of_map_to_list). eauto.
    - intros [i Hi]. exists (i, n). split; [done|]. by apply elem_of_map_to_list. }
  split; rewrite ?Ha, ?Ht, ?Hp.
  - apply NoDup_app. split_and!; [by rewrite Hperm; apply NoDup_snd_inj| |done].
    intros n [i Hi]%Hin Hn. by destruct (H3 i n Hi) as (_ & ? & _).
  - intros n [[i Hi]%Hin|Hn]%elem_of_app; [by apply (H3 i)|by apply H2].
  - intros i n Hn. by rewrite lookup_empty in Hn.
  - intros i j n Hn. by rewrite lookup_empty in Hn.
  - intros n Hn. by apply elem_of_nil in Hn.
  - intros n Hn. rewrite elem_of_app. destruct (H6 n Hn) as [?|[?|[?|?]]]; auto. left. left. by apply Hin.
  - by apply Hk.
Qed.

Section Answers.
Context {hex : Hex} {json : Json} {sha : Sha256} {schnorr : Schnorr}.
Variables (config : RelayConfig) (hash : string -> Z -> Z).

(** Everything but commands, acknowledgements and failures writes neutral entries only. *)
Definition only_neutral (a b : Actor) : Prop :=
  pending b = pending a /\ exists new, log b = new ++ log a /\ forallb neutral new = true.

#[local] Instance only_neutral_refl : Reflexive only_neutral.
Proof. intros a. split; [done|]. by exists []. Qed.
#[local] Instance only_neutral_trans : Transitive only_neutral.
Proof.
  intros a b c [H1 (l & H2 & H3)] [H4 (l' & H5 & H6)]. split; [congruence|]. exists (l' ++ l).
  rewrite H5, H2, app_assoc, forallb_app. by rewrite H6, H3.
Qed.
Lemma only_neutral_record e a : neutral e = true -> only_neutral a (record e a).
Proof. intros He. split; [done|]. exists [e]. split; [done|]. cbn. by rewrite He. Qed.

Lemma answers_only_neutral dropped hole a b : only_neutral a b -> answers dropped hole a -> answers dropped hole b.
Proof.
  intros [Hp (l & Hl & Hn)] H.
  assert (forall a', log a' = l ++ log a -> pending a' = pending a -> answers dropped hole a') as Hgen; [|by apply Hgen].
  clear Hl Hp. induction l as [|e l IH]; intros a' Hl Hp; [by eapply answers_same|].
  cbn in Hn. apply andb_true_iff in Hn as [He Hn].
  set (a1 := {| subscriptions := subscriptions a'; pending := pending a'; pending_authentication := pending_authentication a';
    session_authenticated := session_authenticated a'; session_progress := session_progress a';
    consecutive_failures := consecutive_failures a'; health := health a'; queue := queue a';
    receiver_open := receiver_open a'; send_results := send_results a'; entropy := entropy a'; log := l ++ log a |}).
  apply (answers_same _ _ (record e a1)); [by rewrite Hl | done|]. apply answers_neutral; [done|]. by apply IH.
Qed.

Lemma notify_neutral n a : only_neutral a (notify config n a).2.
Proof. unfold notify. repeat case_match; by split; [|exists []]. Qed.

Lemma send_frame_neutral f a : only_neutral a (send_frame config f a).2.
Proof.
  unfold send_frame, se_bind, se_ret. destruct (map_err _ _); [|done]. destruct (negb _); [done|].
  unfold socket_send. destruct (send_results _) as [|[|] ?]; by split; [|exists [LSent f]].
Qed.

Lemma send_frame_sent f a b : send_frame config f a = (Ok tt, b) -> LSent f ∈ log b.
Proof.
  unfold send_frame, se_bind, se_ret. destruct (map_err _ _); [|done]. destruct (negb _); [done|].
  unfold socket_send. destruct (send_results _) as [|[|] ?]; intros [= <-]; left.
Qed.

Lemma replay_neutral a : only_neutral a (replay_subscriptions config a).2.
Proof.
  unfold replay_subscriptions. generalize (map_to_list (subscriptions a)). intros l. revert a.
  induction l as [|[s f] l IH]; intros a; [done|]. cbn [replay_list]. unfold se_bind.
  pose proof (send_frame_neutral (CRequest s f) a) as H. destruct (send_frame config (CRequest s f) a) as [[]]; [|done].
  cbn [snd] in *. etrans; [exact H | apply IH].
Qed.

Lemma acknowledge_answers dropped i ok m a :
  answers dropped [] a -> LReceived (ROk i ok m) ∈ log a -> answers dropped [] (acknowledge i ok m a).2.
Proof.
  intros H Hr. unfold acknowledge. destruct (pending a !! i) as [n|] eqn:Hi; [|done]. cbn [respond modify snd].
  apply answers_respond; [by eapply answers_remove|]. intros ack Hack. destruct ok; [|done]. injection Hack as <-.
  destruct (an_pending _ _ _ H _ _ Hi) as (_ & _ & _ & e & He & ? & ?). exists e. cbn. subst i. done.
Qed.

(** *** Each part keeps the answers straight *)

(** [answers_step dropped r a b]: [b] keeps the invariant, having taken the channels [r]. *)
Definition answers_step (dropped r : list nat) (a b : Actor) : Prop :=
  answers dropped [] b /\ taken (log b) = r ++ taken (log a).

Lemma taken_neutral a b : only_neutral a b -> taken (log b) = taken (log a).
Proof.
  intros [_ (l & -> & Hl)]. induction l as [|e l IH]; [done|]. cbn in Hl.
  apply andb_true_iff in Hl as [He Hl]. specialize (IH Hl). unfold taken in *. cbn.
  destruct e as [| | | |c|]; try done. cbn in He. split_bools. by rewrite He.
Qed.

Lemma only_neutral_step dropped a b : answers dropped [] a -> only_neutral a b -> answers_step dropped [] a b.
Proof.
  intros H Hn. split; [by eapply answers_only_neutral | by apply taken_neutral].
Qed.

Lemma answers_step_trans dropped r r' a b c :
  answers_step dropped r a b -> answers_step dropped r' b c -> answers_step dropped (r' ++ r) a c.
Proof. intros [_ H1] [H2 H3]. split; [done|]. by rewrite H3, H1, app_assoc. Qed.

Lemma acknowledge_step dropped i ok m a :
  answers dropped [] a -> LReceived (ROk i ok m) ∈ log a -> answers_step dropped [] a (acknowledge i ok m a).2.
Proof.
  intros H Hr. split; [by apply acknowledge_answers|]. unfold acknowledge. by case_match.
Qed.

Lemma handle_relay_frame_step dropped b now now' a :
  answers dropped [] a -> answers_step dropped [] a (handle_relay_frame config b now now' a).2.
Proof.
  intros H. unfold handle_relay_frame, se_bind at 1, se_ret. destruct (map_err _ _) as [frame|]; [|by split].
  unfold se_bind at 1, modify at 1. set (a1 := record (LReceived frame) a).
  assert (only_neutral a a1) as Hn by (by apply only_neutral_record).
  assert (answers_step dropped [] a a1) as Hs1 by (by apply only_neutral_step).
  assert (LReceived frame ∈ log a1) as Hin by left.
  assert (forall b, only_neutral a1 b -> answers_step dropped [] a b) as Hk
    by (intros x Hx; apply only_neutral_step; [done | by etrans]).
  destruct frame; try (apply Hk, notify_neutral).
  - assert (answers_step dropped [] a (acknowledge event_id accepted message a1).2) as Hack.
    { apply (answers_step_trans _ [] [] a a1); [done|]. apply acknowledge_step; [apply Hs1 | done]. }
    destruct (pending_authentication a1) as [pa|]; [|done]. destruct (String.eqb _ _); [|done].
    apply Hk. unfold se_bind, modify. set (a2 := set_authenticated accepted (set_authentication None a1)).
    assert (only_neutral a1 a2) as H2 by (by split; [|exists []]).
    destruct accepted; [|etrans; [exact H2 | apply notify_neutral]].
    pose proof (replay_neutral a2) as Hr. destruct (replay_subscriptions config a2) as [[]]; cbn [snd] in *.
    + etrans; [exact H2|]. etrans; [exact Hr | apply notify_neutral].
    + by etrans.
  - apply Hk. unfold se_bind at 1. pose proof (notify_neutral (NAuthChallenge challenge) a1) as H1.
    destruct (notify config (NAuthChallenge challenge) a1) as [[[]|] a2]; cbn [snd] in *; [|done].
    destruct (rcf_auth config) as [signer|]; [|done].
    unfold se_bind, modify, se_map_err, se_zoom. destruct (sign_challenge _ _ _ _ _ _) as [[event|] tape]; cbn [fst snd map_err].
    + set (a3 := set_entropy tape (set_authenticated false a2)).
      assert (only_neutral a1 a3) as H3 by (etrans; [exact H1 | by split; [|exists []]]).
      pose proof (send_frame_neutral (CAuth event) a3) as H4.
      destruct (send_frame config (CAuth event) a3) as [[]]; cbn [snd] in *; [|by etrans].
      etrans; [exact H3|]. etrans; [exact H4 | by split; [|exists []]].
    + etrans; [exact H1 | by split; [|exists []]].
Qed.

Definition response_list (c : option Command) : list nat :=
  match c ≫= response_of with Some n => [n] | None => [] end.

(** A command sent and then answered *)
Lemma send_then_answer dropped f n a (g : Actor -> Actor) :
  answers dropped [n] a -> (forall x, log (g x) = log x) -> (forall x, pending (g x) = pending x) ->
  let r := match send_frame config f a with
           | (Ok _, b) => (@None bool, record (LRespond n (UnitResponse (Ok tt))) (g b))
           | (Err e, b) => (Some true, record (LRespond n (UnitResponse (Err e))) b)
           end in
  answers dropped [] r.2 /\ taken (log r.2) = taken (log a).
Proof.
  intros H Hg Hg'. pose proof (send_frame_neutral f a) as Hn.
  pose proof (taken_neutral _ _ Hn) as Ht.
  cbv zeta. destruct (send_frame config f a) as [[]]; cbn [snd] in *.
  - split; [|change (taken (log (record ?e ?x))) with (taken (log x)); by rewrite Hg].
    apply answers_respond; [|done]. eapply answers_same; [apply Hg | apply Hg' |]. by eapply answers_only_neutral.
  - split; [|done]. apply answers_respond; [|done]. by eapply answers_only_neutral.
Qed.

Lemma handle_command_step dropped closed c a :
  answers dropped [] a -> (forall n, n ∈ response_list c -> n ∉ taken (log a)) -> (forall n, n ∈ closed -> n ∈ dropped) ->
  answers_step dropped (response_list c) a (handle_command config closed c a).2.
Proof.
  intros H Hfresh Hclosed. unfold handle_command. destruct c as [c|]; [|by split].
  destruct (response_of c) as [n|] eqn:Ec.
  2:{ destruct c; try done. apply only_neutral_step; [done|]. by apply only_neutral_record. }
  assert (response_list (Some c) = [n]) as Hrl by (unfold response_list; cbn; by rewrite Ec). rewrite Hrl in *.
  assert (answers dropped [n] (record (LCommand c) a)) as H1 by (apply answers_take; [done|done|apply Hfresh; left]).
  assert (taken (log (record (LCommand c) a)) = n :: taken (log a)) as Ht by (unfold taken; cbn; by rewrite Ec).
  assert (LCommand c ∈ log (record (LCommand c) a)) as Hin by left.
  revert H1 Ht Hin. generalize (record (LCommand c) a). intros a1 H1 Ht Hin. clear H.
  assert (forall r, (forall ack, r <> PublishResponse (Ok ack)) ->
    answers_step dropped [n] a (record (LRespond n r) a1)) as Hresp.
  { intros r Hr. split; [|done]. apply answers_respond; [done|]. intros ack ->. by destruct (Hr ack). }
  destruct c as [event m|sid filters m|sid m|]; [injection Ec as ->..|done].
  - destruct (negb (session_authenticated a1)); [by apply Hresp|].
    destruct (match pending a1 !! id event with Some _ => _ | None => _ end) eqn:Edup; [by apply Hresp|].
    set (a2 := set_pending (delete (id event)) a1).
    assert (answers dropped [n] a2) as H2.
    { apply answers_drop; [done|]. intros k Hk. rewrite Hk in Edup. split_bools. by apply Hclosed. }
    pose proof (send_frame_neutral (CEvent event) a2) as Hn. pose proof (taken_neutral _ _ Hn) as Htk.
    change (log a2) with (log a1) in Htk. rewrite Ht in Htk.
    destruct (send_frame config (CEvent event) a2) as [[[]|e] a3] eqn:Es; cbn [snd] in *.
    + pose proof (answers_only_neutral _ _ _ _ Hn H2) as H3. destruct Hn as [Hp (l & Hl & Hl')].
      split; [|].
      * apply answers_store; [done| |by eapply send_frame_sent|].
        -- rewrite Hl. apply elem_of_app. right. exact Hin.
        -- rewrite Hp. cbn. apply lookup_delete_eq.
      * change (taken (log (set_pending _ a3))) with (taken (log a3)).
        by rewrite Htk.
    + pose proof (answers_only_neutral _ _ _ _ Hn H2) as H3. split; [by apply answers_respond|].
      change (taken (log (record (LRespond n ?r) a3))) with (taken (log a3)).
      by rewrite Htk.
  - destruct (negb (session_authenticated a1)).
    { split; [|done]. apply answers_respond; [|done]. by apply (answers_same _ _ a1). }
    destruct (send_then_answer dropped (CRequest sid filters) n a1 (set_subscriptions (insert sid filters)) H1) as [? Htk]; [done..|].
    split; [done|]. by rewrite Htk.
  - cbn [session_authenticated set_subscriptions]. set (a2 := set_subscriptions (delete sid) a1).
    assert (answers dropped [n] a2) as H2 by (by apply (answers_same _ _ a1)).
    destruct (negb (session_authenticated a1)); [split; [by apply answers_respond|done]|].
    destruct (send_then_answer dropped (CClose sid) n a2 (fun x => x) H2) as [? Htk]; [done..|].
    split; [done|]. by rewrite Htk.
Qed.

Lemma session_step_answers dropped closed i a :
  answers dropped [] a ->
  (forall n, n ∈ match i with SCommand c => response_list c | _ => [] end -> n ∉ taken (log a)) ->
  (forall n, n ∈ closed -> n ∈ dropped) ->
  answers_step dropped (match i with SCommand c => response_list c | _ => [] end) a (session_step config closed i a).2.
Proof.
  intros H Hf Hc. destruct i as [c|m|sent|]; cbn [session_step snd]; try (by split); [by apply handle_command_step|].
  destruct m as [[b now now'| |]|]; cbn [handle_message snd]; try (by split).
  - pose proof (handle_relay_frame_step dropped b now now' (set_progress true a)) as Hh.
    destruct (handle_relay_frame config b now now' _) as [[]]; apply Hh; by apply (answers_same _ _ a).
  - split; [by apply (answers_same _ _ a) | done].
Qed.

Lemma open_session_answers dropped a : answers dropped [] a -> answers_step dropped [] a (open_session config a).2.
Proof.
  intros H. apply only_neutral_step; [done|]. unfold open_session, se_bind, modify.
  set (a1 := record LConnected (set_health HConnected a)).
  assert (only_neutral a a1) as H1 by (by split; [|exists [LConnected]]).
  pose proof (notify_neutral NConnected a1) as H2. destruct (notify config NConnected a1) as [[[]|] a2]; cbn [snd] in *; [|by etrans].
  set (au := _ || _). set (a3 := set_authenticated au a2).
  assert (only_neutral a a3) as H3 by (etrans; [exact H1|]; etrans; [exact H2|]; by split; [|exists []]).
  destruct au; [|etrans; [exact H3 | by split; [|exists []]]].
  pose proof (replay_neutral a3) as H4. destruct (replay_subscriptions config a3) as [[]]; cbn [snd] in *; [|by etrans].
  etrans; [exact H3|]. etrans; [exact H4 | by split; [|exists []]].
Qed.

Lemma taken_fail_pending e a : taken (log (fail_pending e a)) = taken (log a).
Proof.
  rewrite (proj1 (fail_pending_log e a)), <- map_rev.
  by destruct (omap_responses (PublishResponse (Err e)) (rev (map_to_list (pending a))) (log a)) as (_ & -> & _).
Qed.

Lemma close_session_answers dropped a : answers dropped [] a -> answers_step dropped [] a (close_session config a).2.
Proof.
  intros H. destruct (answers_fail_pending dropped REDisconnected a H) as [H1 _].
  assert (answers_step dropped [] a (fail_pending REDisconnected a)) as Hs1 by (split; [done | apply taken_fail_pending]).
  unfold close_session, se_bind, modify. set (a1 := record LDisconnected _).
  assert (only_neutral (fail_pending REDisconnected a) a1) as H2 by (by split; [|exists [LDisconnected]]).
  apply (answers_step_trans _ [] [] a _ _ Hs1), only_neutral_step; [done|].
  pose proof (notify_neutral NDisconnected a1) as H3.
  destruct (notify config NDisconnected a1) as [[[]|] a2]; cbn [snd] in *; etrans; try exact H2; [|done].
  etrans; [exact H3 | by split; [|exists []]].
Qed.

(** The channels an input brings, and the callers that have gone by then *)
Definition input_responses (i : Input) : list nat :=
  match i with
  | InSessionInput _ (SCommand c) | WhileWaiting c => response_list c
  | _ => []
  end.
Definition input_closed (i : Input) : list nat := match i with InSessionInput closed _ => closed | _ => [] end.

Definition answering (dropped : list nat) (s : Phase * Actor) : Prop :=
  answers dropped [] s.2 /\ (s.1 = Finished (Ok tt) -> pending s.2 = ∅).

Lemma stop_answers dropped a : answers dropped [] a -> answering dropped (stop a) /\ taken (log (stop a).2) = taken (log a).
Proof.
  intros H. destruct (answers_fail_pending dropped REStopped a H) as [H1 H2]. unfold stop, answering. cbn [fst snd].
  split; [|apply taken_fail_pending]. split; [by apply (answers_same _ _ (fail_pending REStopped a)) | done].
Qed.

Lemma actor_step_answers dropped i s :
  answering dropped s -> (forall n, n ∈ input_responses i -> n ∉ taken (log s.2)) ->
  (forall n, n ∈ input_closed i -> n ∈ dropped) ->
  answering dropped (actor_step config hash i s) /\
  (forall n, n ∈ taken (log (actor_step config hash i s).2) -> n ∈ input_responses i \/ n ∈ taken (log s.2)).
Proof.
  destruct s as [phase a]. intros [H Hfin] Hf Hc. cbn [fst snd] in *.
  assert (forall p b, p <> Finished (Ok tt) -> answers_step dropped (input_responses i) a b \/ answers_step dropped [] a b ->
    answering dropped (p, b) /\ forall n, n ∈ taken (log b) -> n ∈ input_responses i \/ n ∈ taken (log a)) as Hfinish.
  { intros p b Hp [[Hb Ht]|[Hb Ht]]; (split; [by split|]); rewrite Ht; intros n; [by rewrite elem_of_app | by right]. }
  assert (forall r b, answers_step dropped r a b -> answers_step dropped r a (set_health HStopped b)) as Hhealth.
  { intros r b [Hb Ht]. split; [by apply (answers_same _ _ b) | done]. }
  assert (answering dropped (phase, a) /\ forall n, n ∈ taken (log a) -> n ∈ input_responses i \/ n ∈ taken (log a)) as Hstay.
  { split; [by split | by right]. }
  unfold actor_step. destruct i as [connected|closed i| |c|].
  - destruct connected, phase; try exact Hstay.
    + pose proof (open_session_answers dropped a H) as Ho. destruct (open_session config a) as [[] b]; cbn [snd] in Ho.
      * apply Hfinish; [done | by right].
      * apply Hfinish; [done | right; by apply Hhealth].
    + apply Hfinish; [done|]. right. split; [by apply (answers_same _ _ a) | done].
  - destruct phase; try exact Hstay.
    assert (answers_step dropped (match i with SCommand c => response_list c | _ => [] end) a
      (session_step config closed i a).2) as Hs by (apply session_step_answers; [done | by destruct i | done]).
    destruct (session_step config closed i a) as [[[]|] b]; cbn [snd] in Hs.
    + pose proof (close_session_answers dropped b (proj1 Hs)) as Hcl.
      pose proof (answers_step_trans _ _ _ _ _ _ Hs Hcl) as Hall. cbn [app] in Hall.
      destruct (close_session config b) as [[] b']; cbn [snd] in Hall.
      * apply Hfinish; [done|]. left. by destruct i.
      * apply Hfinish; [done|]. left. apply Hhealth. by destruct i.
    + destruct (stop_answers dropped b (proj1 Hs)) as [? Ht]. split; [done|]. rewrite Ht, (proj2 Hs).
      intros n. rewrite elem_of_app. by destruct i.
    + apply Hfinish; [done|]. left. by destruct i.
  - destruct phase; try exact Hstay. apply Hfinish; [done|]. right. split; [by apply (answers_same _ _ a) | done].
  - assert (forall c n r, response_of c = Some n -> (forall ack, r <> PublishResponse (Ok ack)) ->
      (forall m, m ∈ [n] -> m ∉ taken (log a)) ->
      answers_step dropped [n] a (set_health HConnecting (record (LRespond n r) (record (LCommand c) a)))) as Hrej.
    { intros c0 n r Hc0 Hr Hn. split.
      - apply (answers_same _ _ (record (LRespond n r) (record (LCommand c0) a))); [done|done|].
        apply answers_respond; [apply answers_take; [done|done|apply Hn; left]|]. intros ack ->. by destruct (Hr ack).
      - unfold taken. cbn. by rewrite Hc0. }
    destruct c as [c|], phase; try (destruct c; exact Hstay); try exact Hstay.
    + destruct c; try (apply Hfinish; [done|]; left; by apply Hrej).
      destruct (stop_answers dropped (record (LCommand Shutdown) a)) as [? Ht]; [by apply answers_neutral|].
      split; [done|]. rewrite Ht. by right.
    + destruct (stop_answers dropped a H) as [? Ht]. split; [done|]. rewrite Ht. by right.
  - split; [|by right]. split; [by apply (answers_same _ _ a) | done].
Qed.

Lemma run_actor_answers dropped inputs s :
  answering dropped s -> NoDup (concat (map input_responses inputs)) ->
  (forall n, n ∈ concat (map input_responses inputs) -> n ∉ taken (log s.2)) ->
  (forall n, n ∈ concat (map input_closed inputs) -> n ∈ dropped) ->
  answering dropped (run_actor config hash inputs s).
Proof.
  revert s. induction inputs as [|i inputs IH]; intros s H Hn Hf Hc; [done|]. cbn [map concat] in *.
  apply NoDup_app in Hn as (_ & Hdis & Hn).
  destruct (actor_step_answers dropped i s H) as [Hs Ht].
  { intros n Hin. apply Hf, elem_of_app. by left. }
  { intros n Hin. apply Hc, elem_of_app. by left. }
  apply IH; [done|done| |].
  - intros n Hin [Hi|Hold]%Ht; [by apply (Hdis n) | ]. by apply (Hf n); [apply elem_of_app; right|].
  - intros n Hin. apply Hc, elem_of_app. by right.
Qed.
End Answers.

(** ** Reconnection *)

Section Reconnection.
Context {hex : Hex} {json : Json} {sha : Sha256} {schnorr : Schnorr}.
Variables (config : RelayConfig) (hash : string -> Z -> Z).

(** A frame that encodes, on a socket that accepts everything, is sent. *)
Definition encodes (f : ClientFrame) : bool :=
  match client_frame_to_json f (rcf_frame_limits config) with
  | Ok b => utf8_valid (of_bytes b)
  | Err _ => false
  end.

Lemma send_frame_ok f a :
  encodes f = true -> Forall (eq None) (send_results a) ->
  exists l, send_frame config f a = (Ok tt, set_send_results l (record (LSent f) a)) /\ Forall (eq None) l.
Proof.
  intros He Hs. unfold encodes in He. unfold send_frame, se_bind, se_ret.
  destruct (client_frame_to_json f _) as [b|]; [|done]. cbn [map_err]. rewrite He. cbn [negb].
  unfold socket_send. cbn [send_results record]. destruct (send_results a) as [|[e|] l] eqn:E.
  - exists []. split; [|done]. destruct a. cbn in *. by subst.
  - inversion Hs as [|? ? Hx]. done.
  - exists l. split; [done|]. by inversion Hs.
Qed.

Lemma replay_list_ok l a :
  forallb (fun x => encodes (CRequest x.1 x.2)) l = true -> Forall (eq None) (send_results a) ->
  exists a', replay_list config l a = (Ok tt, a') /\ Forall (eq None) (send_results a') /\
    subscriptions a' = subscriptions a /\ log a' = rev (map (fun x => LSent (CRequest x.1 x.2)) l) ++ log a.
Proof.
  revert a. induction l as [|[s f] l IH]; intros a He Hs; [by exists a|]. cbn in He. apply andb_true_iff in He as [He Hl].
  destruct (send_frame_ok (CRequest s f) a He Hs) as (r & Hsend & Hr). cbn [replay_list]. unfold se_bind. rewrite Hsend.
  destruct (IH (set_send_results r (record (LSent (CRequest s f)) a)) Hl Hr) as (a' & -> & H1 & H2 & H3).
  exists a'. split_and!; [done|done|by rewrite H2|]. rewrite H3. cbn [map rev fst snd]. by rewrite <- app_assoc.
Qed.
End Reconnection.

(** ** Properties *)

Section Properties.
Context {hex : Hex} {json : Json} {sha : Sha256} {schnorr : Schnorr}.
Variables (config : RelayConfig) (hash : string -> Z -> Z).

(** C15: The connection fails closed. Whatever the relay, the socket and the callers do, every
    frame other than an authentication event was sent in a session that allowed it: one that
    was not to be authenticated before use and was not challenged since it started, or one
    in which the relay accepted an authentication event that was sent after its last
    challenge. A connection without a signer cannot answer challenges and ignores them, so
    for it they do not count. *)
Theorem relay_fails_closed inputs sends tape :
  let entries := log (run_actor config hash inputs (actor_new sends tape)).2 in
  sends_ok config entries = true /\
  (forall newer f older, entries = newer ++ LSent f :: older -> is_auth f = false -> send_allowed config older).
Proof using Type.
  intros entries. assert (sends_ok config entries = true) as H by (by apply (run_actor_ok config hash inputs (actor_new sends tape))).
  split; [exact H|]. intros newer f older E Hf. rewrite E in H. by eapply sends_allowed.
Qed.

(** Every command is answered, once and truthfully. No response channel is used twice
    or unasked; a publication is acknowledged only after its event was sent and the relay
    accepted it; and when the actor stops normally every command it took has been answered,
    unless the caller had gone. *)
Theorem relay_answers_once inputs sends tape :
  NoDup (concat (map input_responses inputs)) ->
  let s := run_actor config hash inputs (actor_new sends tape) in
  NoDup (answered (log s.2)) /\ (forall n, n ∈ answered (log s.2) -> n ∈ taken (log s.2)) /\
  acks_ok (log s.2) /\
  (s.1 = Finished (Ok tt) -> forall n, n ∈ taken (log s.2) ->
     n ∈ answered (log s.2) \/ n ∈ concat (map input_closed inputs)).
Proof using Type.
  intros Hn s. destruct (run_actor_answers config hash (concat (map input_closed inputs)) inputs (actor_new sends tape))
    as [[H1 H2 H3 H4 H5 H6 H7] Hfin]; [|done|intros n _ Hin; by apply elem_of_nil in Hin|done|].
  - split; [|done]. cbn. split; cbn; try done; [constructor | | ]; intros ? Hin; by apply elem_of_nil in Hin.
  - split_and!; try done. intros Hs n Ht. destruct (H6 n Ht) as [?|[[i Hi]|[?|Hnil]]]; auto.
    + by rewrite (Hfin Hs), lookup_empty in Hi.
    + by apply elem_of_nil in Hnil.
Qed.

(** Subscriptions survive a reconnection. When the delay is over, the connection
    succeeds, no authentication is required and the socket and the notification queue
    accept what they are given, the actor is in a session again and has requested every
    active subscription in it. *)
Theorem relay_resubscribes delay a :
  authentication_required config = false -> receiver_open a = true ->
  zlen (queue a) < notification_capacity config -> Forall (eq None) (send_results a) ->
  map_Forall (fun s f => encodes config (CRequest s f) = true) (subscriptions a) ->
  exists a', run_actor config hash [DelayOver; Connect true] (Waiting delay, a) = (InSession, a') /\
    subscriptions a' = subscriptions a /\
    forall s f, subscriptions a !! s = Some f ->
      exists l, log a' = l ++ LConnected :: log a /\ LSent (CRequest s f) ∈ l.
Proof using Type.
  intros Hreq Hopen Hq Hs Hsubs. cbn [run_actor fold_left actor_step]. unfold open_session, se_bind, modify.
  set (a1 := record LConnected (set_health HConnected (set_health HConnecting a))).
  assert (notify config NConnected a1 = (Ok tt, set_queue (queue a ++ [NConnected]) a1)) as ->.
  { unfold notify. cbn [receiver_open queue a1 record set_health]. rewrite Hopen. cbn [negb].
    by rewrite (proj2 (Z.leb_gt _ _)). }
  assert (match rcf_auth config with Some _ => false | None => true end
    || bool_decide (rcf_authentication_policy config = AuthenticateWhenChallenged) = true) as ->.
  { unfold authentication_required, has_signer in Hreq. by destruct (rcf_auth config), (bool_decide _). }
  unfold replay_subscriptions. set (a2 := set_authenticated true _).
  destruct (replay_list_ok config (map_to_list (subscriptions a2)) a2) as (a3 & -> & _ & Hsub & Hlog); [|done|].
  - apply forallb_forall. intros [s f] Hin%list_elem_of_In%elem_of_map_to_list. by apply Hsubs.
  - eexists. split; [reflexivity|]. split; [exact Hsub|]. intros s f Hsf. eexists. split; [exact Hlog|].
    apply list_elem_of_In. rewrite <- in_rev. apply list_elem_of_In, list_elem_of_fmap.
    exists (s, f). split; [done|]. by apply elem_of_map_to_list.
Qed.

(** A send that fails while the subscriptions are replayed stops the actor for good,
    although the same failure later in the session makes it reconnect. *)
Theorem replay_failure_stops a sid filters l e rest :
  authentication_required config = false -> receiver_open a = true ->
  zlen (queue a) < notification_capacity config ->
  map_to_list (subscriptions a) = (sid, filters) :: l -> encodes config (CRequest sid filters) = true ->
  send_results a = Some e :: rest ->
  (actor_step config hash (Connect true) (Connecting, a)).1 = Finished (Err (REWebSocket e)) /\
  (forall n, session_authenticated a = true ->
     exists d, (actor_step config hash (InSessionInput [] (SCommand (Some (Subscribe sid filters n)))) (InSession, a)).1 = Waiting d).
Proof using Type.
  intros Hreq Hopen Hq Hm He Hs. split.
  - cbn [actor_step]. unfold open_session, se_bind, modify.
    set (a1 := record LConnected (set_health HConnected a)).
    assert (notify config NConnected a1 = (Ok tt, set_queue (queue a ++ [NConnected]) a1)) as ->.
    { unfold notify. cbn [receiver_open queue a1 record set_health]. rewrite Hopen. cbn [negb].
      by rewrite (proj2 (Z.leb_gt _ _)). }
    assert (match rcf_auth config with Some _ => false | None => true end
      || bool_decide (rcf_authentication_policy config = AuthenticateWhenChallenged) = true) as ->.
    { unfold authentication_required, has_signer in Hreq. by destruct (rcf_auth config), (bool_decide _). }
    unfold replay_subscriptions. cbn [subscriptions set_authenticated set_queue a1 record set_health]. rewrite Hm.
    cbn [replay_list]. unfold send_frame, se_bind, se_ret. unfold encodes in He.
    destruct (client_frame_to_json _ _) as [b|]; [|done]. cbn [map_err]. rewrite He. cbn [negb].
    unfold socket_send. change (send_results (record (LSent (CRequest sid filters)) _)) with (send_results a). by rewrite Hs.
  - intros n Hauth. cbn [actor_step session_step]. unfold handle_command. cbn [session_authenticated record]. rewrite Hauth.
    cbn [negb]. unfold send_frame, se_bind, se_ret. unfold encodes in He.
    destruct (client_frame_to_json _ _) as [b|]; [|done]. cbn [map_err]. rewrite He. cbn [negb].
    unfold socket_send. cbn [send_results record]. rewrite Hs.
    unfold close_session, se_bind, modify. unfold notify.
    set (b1 := record LDisconnected _).
    assert (receiver_open b1 = true /\ queue b1 = queue a) as [-> ->].
    { subst b1. cbn [receiver_open queue record set_health set_authentication]. unfold fail_pending.
      generalize (map_to_list (pending (record (LRespond n (UnitResponse (Err (REWebSocket e))))
        (set_send_results rest (record (LSent (CRequest sid filters)) (record (LCommand (Subscribe sid filters n)) a)))))).
      intros p. cbn [receiver_open queue set_pending].
      set (a0 := record (LRespond n _) _). assert (receiver_open a0 = true /\ queue a0 = queue a) as H0 by done.
      revert H0. generalize a0. induction p as [|x p IH]; intros x0 H0; [done|]. by apply IH. }
    cbn [negb]. rewrite (proj2 (Z.leb_gt _ _)) by done. cbn. eauto.
Qed.

(** The reconnection delay is bounded. From one millisecond to the configured maximum,
    and within a quarter of the initial delay doubled once for each further failure, up to
    twenty times, or of the maximum if that is less. *)
Theorem reconnect_delay_bounds failures :
  1000000 <= reconnect_initial_delay config <= reconnect_max_delay config ->
  as_millis (reconnect_max_delay config) <= u64_max -> 1 <= failures ->
  let base := Z.min (as_millis (reconnect_initial_delay config) * 2 ^ Z.min (failures - 1) 20)
                (as_millis (reconnect_max_delay config)) in
  let delay := reconnect_delay hash config failures in
  1000000 <= delay <= reconnect_max_delay config /\
  base * 750 / 1000 <= as_millis delay <= Z.max 1 (base * 1250 / 1000).
Proof using Type.
  intros Hi Hm Hf base delay. unfold delay, reconnect_delay, as_millis, from_millis in *.
  set (max_ms := reconnect_max_delay config / 1000000) in *.
  set (init_ms := reconnect_initial_delay config / 1000000) in *.
  assert (1 <= init_ms <= max_ms) as Hms.
  { split; [apply Z.div_le_lower_bound; lia | apply Z.div_le_mono; lia]. }
  assert (max_ms * 1000000 <= reconnect_max_delay config) as Hmax.
  { subst max_ms. pose proof (Z.mul_div_le (reconnect_max_delay config) 1000000). lia. }
  assert (saturating_sub failures 1 = failures - 1) as -> by (unfold saturating_sub; lia).
  set (k := Z.min (failures - 1) 20) in *. assert (0 <= k <= 20) as Hk by lia.
  assert (1 <= 2 ^ k <= 2 ^ 20) as Hpow by (split; [apply (Z.pow_le_mono_r 2 0 k); lia | apply Z.pow_le_mono_r; lia]).
  rewrite Z.shiftl_1_l. change (2 ^ 20) with 1048576 in Hpow.
  assert (saturating_mul u128_max init_ms (2 ^ k) = init_ms * 2 ^ k) as ->.
  { unfold saturating_mul, u128_max, u64_max in *. rewrite Z.min_r; [done|]. nia. }
  fold base. assert (1 <= base <= max_ms) as Hbase by (subst base; nia).
  pose proof (Z.mod_pos_bound (hash (rcf_url config) failures) 501 ltac:(lia)) as Hj.
  set (j := 750 + hash (rcf_url config) failures mod 501) in *. assert (750 <= j <= 1250) as Hj' by lia.
  assert (saturating_mul u128_max base j = base * j) as ->.
  { unfold saturating_mul, u128_max, u64_max in *. rewrite Z.min_r; [done|]. nia. }
  assert (base * 750 / 1000 <= base * j / 1000 <= base * 1250 / 1000) as Hdiv
    by (split; apply Z.div_le_mono; nia).
  assert (base * 750 / 1000 <= base) as Hless by (apply Z.div_le_upper_bound; lia).
  set (x := base * j / 1000) in *. rewrite (proj2 (Z.leb_le _ _)) by lia.
  rewrite Z.div_mul by done. lia.
Qed.
End Properties.

(** ** Witnesses *)

Definition sample_config : RelayConfig := RelayConfig_new "wss://relay" Direct.
Definition no_hash (_ : string) (_ : Z) : Z := 0.
Definition sample_filters : list Value := [JObject [("limit"%string, JInt 1)]].

Definition sample_actor (sends : list (option string)) : Actor :=
  set_subscriptions (fun _ => {["s"%string := sample_filters]}) (set_authenticated true (actor_new sends []).2).

(** A publication the relay accepts, a duplicate of it, and a stop. *)
Definition sample_inputs : list Input :=
  [Connect true;
   InSessionInput [] (SCommand (Some (Publish (sample_signed "hi") 1)));
   InSessionInput [] (SCommand (Some (Publish (sample_signed "hi") 2)));
   InSessionInput [] (SMessage (Some (MText (json_to_vec (relay_frame_value (ROk (id (sample_signed "hi")) true ""))) 100 100)));
   InSessionInput [] (SCommand (Some Shutdown))].

Lemma relay_answers_once_witness :
  NoDup (answered (log (run_actor sample_config no_hash sample_inputs (actor_new [] [])).2)) /\
  answered (log (run_actor sample_config no_hash sample_inputs (actor_new [] [])).2) = [1%nat; 2%nat].
Proof.
  split; [|vm_compute; reflexivity].
  apply (relay_answers_once sample_config no_hash sample_inputs [] []).
  apply (bool_decide_unpack _). vm_compute. exact I.
Defined.

Lemma relay_resubscribes_witness :
  exists a', run_actor sample_config no_hash [DelayOver; Connect true] (Waiting 1, sample_actor []) = (InSession, a') /\
    subscriptions a' = subscriptions (sample_actor []) /\
    forall s f, subscriptions (sample_actor []) !! s = Some f ->
      exists l, log a' = l ++ LConnected :: log (sample_actor []) /\ LSent (CRequest s f) ∈ l.
Proof.
  apply (relay_resubscribes sample_config no_hash 1 (sample_actor []));
    [vm_compute; reflexivity | vm_compute; reflexivity | vm_compute; reflexivity | constructor |].
  apply map_Forall_singleton. vm_compute; reflexivity.
Defined.

Lemma replay_failure_stops_witness :
  (actor_step sample_config no_hash (Connect true) (Connecting, sample_actor [Some "reset"%string])).1
    = Finished (Err (REWebSocket "reset")).
Proof.
  apply (replay_failure_stops sample_config no_hash (sample_actor [Some "reset"%string]) "s" sample_filters [] "reset" []);
    vm_compute; reflexivity.
Defined.

Lemma reconnect_delay_bounds_witness :
  1000000 <= reconnect_delay no_hash sample_config 5 <= from_secs 60.
Proof.
  apply (reconnect_delay_bounds sample_config no_hash 5); [vm_compute; split; discriminate | vm_compute; discriminate | lia].
Defined.
