(* ===== verification/RelayHandle.v ===== *)
(** * The handle of a relay connection ([RelayConnection] of [relay.rs])

    What the users of a connection hold: calls put a command into a bounded queue and wait,
    up to a time limit, for the actor of [Relay] to answer. The state is the queue, the
    actor, and the callers that stopped waiting; every interleaving of calls, time limits,
    actor turns and network is a sequence of happenings. *)

From Stdlib Require Import Strings.Byte Ascii String.
From S2P Require Import Prelude RustStd Libs Serde Concrete Event Frame Relay.
Local Open Scope Z_scope.

(** [rc_asked] keeps, for the specification, the commands that entered the queue. *)
Record RelayConnection := {
  rc_queue : list Command;
  rc_actor : Phase * Actor;
  rc_next : nat;
  rc_gone : list nat;
  rc_asked : list Command
}.

Inductive Call :=
| CallPublish (event : SignedEvent)
| CallSubscribe (subscription_id : string) (filters : list Value)
| CallClose (subscription_id : string)
| CallShutdown.

Definition command_of (call : Call) (response : nat) : Command :=
  match call with
  | CallPublish event => Publish event response
  | CallSubscribe subscription_id filters => Subscribe subscription_id filters response
  | CallClose subscription_id => CloseSubscription subscription_id response
  | CallShutdown => Shutdown
  end.

Definition is_finished (p : Phase) : bool := match p with Finished _ => true | _ => false end.

(** The answer the actor sent on a response channel. *)
Fixpoint answer_of (n : nat) (l : list Entry) : option Response :=
  match l with
  | [] => None
  | LRespond m r :: l => if Nat.eqb m n then Some r else answer_of n l
  | _ :: l => answer_of n l
  end.

Section Handle.
Context {hex : Hex} {json : Json} {sha : Sha256} {schnorr : Schnorr} {url : UrlLib}.
Variables (config : RelayConfig) (hash : string -> Z -> Z).

Definition spawn (sends : list (option string)) (tape : Entropy) : result RelayError RelayConnection :=
  let? _ := RelayConfig_validate config in
  Ok {| rc_queue := []; rc_actor := actor_new sends tape; rc_next := 0; rc_gone := []; rc_asked := [] |}.

(** [try_send]: the receiver is gone once the actor has ended. *)
Definition send (c : Command) (h : RelayConnection) : result RelayError unit * RelayConnection :=
  if is_finished (rc_actor h).1 then (Err REStopped, h)
  else if command_capacity config <=? zlen (rc_queue h) then (Err REBackpressure, h)
  else (Ok tt, {| rc_queue := rc_queue h ++ [c]; rc_actor := rc_actor h; rc_next := rc_next h; rc_gone := rc_gone h;
                  rc_asked := rc_asked h ++ [c] |}).

(** The first half of a call: a new response channel, and the command sent. *)
Definition start_call (call : Call) (h : RelayConnection) : result RelayError nat * RelayConnection :=
  let n := rc_next h in
  match send (command_of call n) h with
  | (Ok _, h) =>
      (Ok n, {| rc_queue := rc_queue h; rc_actor := rc_actor h; rc_next := S n; rc_gone := rc_gone h; rc_asked := rc_asked h |})
  | (Err e, h) => (Err e, h)
  end.

(** The second half: the time limit, the answer, or the end of the actor, which drops the
    channels it did not answer; [None] while it waits. *)
Definition wait (n : nat) (h : RelayConnection) : option (result RelayError Response) :=
  if bool_decide (n ∈ rc_gone h) then Some (Err REResponseTimeout)
  else match answer_of n (log (rc_actor h).2) with
       | Some r => Some (Ok r)
       | None => if is_finished (rc_actor h).1 then Some (Err REStopped) else None
       end.

Definition publish_result (n : nat) (h : RelayConnection) : option (result RelayError PublishAcknowledgement) :=
  match wait n h with
  | Some (Ok (PublishResponse r)) => Some r
  | Some (Ok (UnitResponse _)) => Some (Err REStopped)
  | Some (Err e) => Some (Err e)
  | None => None
  end.
Definition unit_result (n : nat) (h : RelayConnection) : option (result RelayError unit) :=
  match wait n h with
  | Some (Ok (UnitResponse r)) => Some r
  | Some (Ok (PublishResponse _)) => Some (Err REStopped)
  | Some (Err e) => Some (Err e)
  | None => None
  end.

(** What the network and the clock do to the actor. *)
Inductive Stimulus :=
| Connects (connected : bool)
| Receives (m : option Message)
| Pings (sent : bool)
| IsIdle
| DelayEnds
| Consumes.
Definition input_of (s : Stimulus) : Input :=
  match s with
  | Connects b => Connect b
  | Receives m => InSessionInput [] (SMessage m)
  | Pings sent => InSessionInput [] (SPing sent)
  | IsIdle => InSessionInput [] SIdle
  | DelayEnds => DelayOver
  | Consumes => Consume
  end.

Inductive Happening :=
| Calls (call : Call)
| TimesOut (n : nat)
| Takes
| Stimulated (s : Stimulus).

Definition with_actor (s : Phase * Actor) (h : RelayConnection) : RelayConnection := {|
  rc_queue := rc_queue h; rc_actor := s; rc_next := rc_next h; rc_gone := rc_gone h; rc_asked := rc_asked h |}.

(** The actor takes the next command where it waits for one: in a session, and while it
    waits to connect again. *)
Definition take_command (h : RelayConnection) : RelayConnection :=
  match rc_queue h with
  | [] => h
  | c :: q =>
      let input := match (rc_actor h).1 with
                   | InSession => Some (InSessionInput (rc_gone h) (SCommand (Some c)))
                   | Waiting _ => Some (WhileWaiting (Some c))
                   | _ => None
                   end in
      match input with
      | Some i => {| rc_queue := q; rc_actor := actor_step config hash i (rc_actor h); rc_next := rc_next h;
                     rc_gone := rc_gone h; rc_asked := rc_asked h |}
      | None => h
      end
  end.

Definition happens (x : Happening) (h : RelayConnection) : RelayConnection :=
  match x with
  | Calls call => (start_call call h).2
  | TimesOut n => {| rc_queue := rc_queue h; rc_actor := rc_actor h; rc_next := rc_next h; rc_gone := n :: rc_gone h; rc_asked := rc_asked h |}
  | Takes => take_command h
  | Stimulated s => with_actor (actor_step config hash (input_of s) (rc_actor h)) h
  end.
Definition handle_run (xs : list Happening) (h : RelayConnection) : RelayConnection := fold_left (fun h x => happens x h) xs h.

(** [shutdown]: the command, if it fits, then what happens within the time limit; an actor
    that has not ended by then is aborted. *)
Definition shutdown (meanwhile : list Happening) (h : RelayConnection) : result RelayError unit * RelayConnection :=
  let h := handle_run meanwhile (send Shutdown h).2 in
  match (rc_actor h).1 with
  | Finished r => (r, h)
  | _ => (Err REShutdownTimeout, h)
  end.
End Handle.

(** ** The commands the actor took *)

(** Newest first, like the log. *)
Definition commands_of (l : list Entry) : list Command :=
  omap (fun e => match e with LCommand c => Some c | _ => None end) l.

Lemma commands_of_elem l c : LCommand c ∈ l <-> c ∈ commands_of l.
Proof.
  unfold commands_of. rewrite list_elem_of_omap. split.
  - intros H. by exists (LCommand c).
  - intros ([] & H & E); try done. by injection E as ->.
Qed.

Create HintDb logged.

Section Commands.
Context {hex : Hex} {json : Json} {sha : Sha256} {schnorr : Schnorr}.
Variables (config : RelayConfig) (hash : string -> Z -> Z) (L : list Command).

(** No part of the actor but the taking of a command logs one. *)
Definition logged (a : Actor) : Prop := commands_of (log a) = L.

Lemma logged_modify (f : Actor -> Actor) : (forall a, log (f a) = log a) -> keeps logged (modify f).
Proof. intros H a Ha. unfold logged. cbn. by rewrite H. Qed.
Lemma logged_record e : (forall c, e <> LCommand c) -> keeps logged (modify (record e)).
Proof. intros He a Ha. unfold logged, commands_of. cbn. by destruct e; try done; destruct (He c). Qed.
Lemma logged_notify n : keeps logged (notify config n).
Proof. intros a Ha. unfold notify. destruct (negb _); [done|]. by destruct (_ <=? _). Qed.
Lemma logged_socket_send f : keeps logged (socket_send f).
Proof. intros a Ha. unfold socket_send. cbn. by destruct (send_results a) as [|[]]. Qed.
#[local] Hint Resolve logged_notify logged_socket_send keeps_ret : logged.

Ltac solve_logged := repeat (match goal with
  | |- keeps _ (se_bind _ _) => apply keeps_bind; [|intros]
  | |- keeps _ (modify (record _)) => apply logged_record; done
  | |- keeps _ (modify _) => apply logged_modify; done
  | |- keeps _ (se_map_err _ _) => apply keeps_map_err
  | |- keeps _ (match ?x with _ => _ end) => destruct x
  | |- _ => solve [auto with logged]
  end).

Lemma logged_send_frame f : keeps logged (send_frame config f).
Proof. unfold send_frame. solve_logged. Qed.
Lemma logged_replay_list l : keeps logged (replay_list config l).
Proof. induction l as [|[i f] l IH]; cbn [replay_list]; [apply keeps_ret|]. apply keeps_bind; [apply logged_send_frame | by intros _]. Qed.
Lemma logged_replay : keeps logged (replay_subscriptions config).
Proof. intros a Ha. by apply logged_replay_list. Qed.
Lemma logged_respond n r : keeps logged (respond n r).
Proof. by apply logged_record. Qed.
Lemma logged_acknowledge i ok m : keeps logged (acknowledge i ok m).
Proof. intros a Ha. unfold acknowledge. destruct (pending a !! i); [|done]. by apply logged_respond. Qed.
Lemma logged_zoom {E A} (c : SE Entropy E A) : keeps logged (se_zoom entropy set_entropy c).
Proof. by intros a Ha. Qed.
#[local] Hint Resolve logged_send_frame logged_replay logged_acknowledge logged_zoom : logged.

Lemma logged_frame b now now' : keeps logged (handle_relay_frame config b now now').
Proof.
  unfold handle_relay_frame. apply keeps_bind; [apply keeps_ret|]. intros frame. apply keeps_bind; [by apply logged_record|]. intros _.
  destruct frame; try (by auto with logged); [|solve_logged].
  intros a Ha. destruct (pending_authentication a); [|by apply logged_acknowledge].
  destruct (String.eqb _ _); [|by apply logged_acknowledge]. revert a Ha.
  match goal with |- forall a, _ -> logged (?c a).2 => change (keeps logged c) end. solve_logged.
Qed.
Lemma logged_open : keeps logged (open_session config).
Proof. unfold open_session. solve_logged. Qed.
Lemma logged_fail_pending e a : logged a -> logged (fail_pending e a).
Proof.
  intros Ha. unfold fail_pending, logged. cbn [log set_pending]. revert a Ha.
  assert (forall l a, logged a -> logged (fold_left (fun a (x : string * nat) => record (LRespond x.2 (PublishResponse (Err e))) a) l a)) as H.
  { induction l as [|x l IH]; intros a Ha; [done|]. cbn. by apply IH. }
  intros a Ha. by apply H.
Qed.
Lemma logged_close : keeps logged (close_session config).
Proof.
  unfold close_session. apply keeps_bind; [intros a Ha; by apply logged_fail_pending|]. intros _. solve_logged.
  by intros b Hb.
Qed.
Lemma logged_message m a : logged a -> logged (handle_message config m a).2.
Proof.
  intros Ha. destruct m as [[b now now'| |]|]; try done. unfold handle_message.
  pose proof (logged_frame b now now' (set_progress true a) Ha) as H. by destruct (handle_relay_frame _ _ _ _ _) as [[]].
Qed.
Lemma logged_reject c e a : logged a -> logged (reject_command c e a).
Proof. by destruct c. Qed.

(** A command in a session is answered, sent or stored, and nothing else is taken. *)
Lemma logged_command closed c a : commands_of (log a) = L -> commands_of (log (handle_command config closed (Some c) a).2) = c :: L.
Proof.
  intros Ha.
  assert (forall f b, commands_of (log b) = c :: L -> commands_of (log (send_frame config f b).2) = c :: L) as Hsend.
  { intros f b Hb. unfold send_frame, se_bind, se_ret. destruct (map_err _ _); [|done]. destruct (negb _); [done|].
    unfold socket_send. cbn. by destruct (send_results b) as [|[]]. }
  unfold handle_command. set (a1 := record (LCommand c) a).
  assert (commands_of (log a1) = c :: L) as H1 by (unfold a1, commands_of in *; cbn; by rewrite Ha). clearbody a1.
  destruct c as [event n|sid filters n|sid n|]; cbn [snd]; try done.
  - destruct (negb _); [done|]. match goal with |- context [if ?b then (None, record _ _) else _] => destruct b end; [done|].
    specialize (Hsend (CEvent event) (set_pending (delete (id event)) a1) H1). by destruct (send_frame _ _ _) as [[]].
  - destruct (negb _); [done|]. specialize (Hsend (CRequest sid filters) a1 H1). by destruct (send_frame _ _ _) as [[]].
  - destruct (negb _); [done|]. specialize (Hsend (CClose sid) (set_subscriptions (delete sid) a1) H1).
    by destruct (send_frame _ _ _) as [[]].
Qed.
End Commands.

(** ** The handle and the actor together *)

Section Together.
Context {hex : Hex} {json : Json} {sha : Sha256} {schnorr : Schnorr} {url : UrlLib}.
Variables (config : RelayConfig) (hash : string -> Z -> Z).

Definition input_command (i : Input) : option Command :=
  match i with InSessionInput _ (SCommand c) | WhileWaiting c => c | _ => None end.

(** An input without a command adds none. *)
Lemma step_without_command i s :
  input_command i = None -> commands_of (log (actor_step config hash i s).2) = commands_of (log s.2).
Proof.
  destruct s as [phase a]. intros Hi. set (L := commands_of (log a)). assert (logged L a) as Ha by done.
  destruct i as [[]|closed i| |[c|]|]; cbn [actor_step]; destruct phase; try done.
  - pose proof (logged_open config L a Ha) as H. by destruct (open_session config a) as [[]].
  - assert (logged L (session_step config closed i a).2) as H.
    { destruct i as [c|m|sent|]; cbn in *; subst; try done. by apply logged_message. }
    destruct (session_step config closed i a) as [[[]|] b]; cbn [snd] in *; [| by apply logged_fail_pending | done].
    pose proof (logged_close config L b H) as H2. by destruct (close_session config b) as [[]].
  - by apply logged_fail_pending.
Qed.

(** Where the actor listens, it takes the command it is given. *)
Lemma step_command i c s :
  input_command i = Some c -> match s.1, i with InSession, InSessionInput _ _ | Waiting _, WhileWaiting _ => True | _, _ => False end ->
  commands_of (log (actor_step config hash i s).2) = c :: commands_of (log s.2).
Proof.
  destruct s as [phase a]. cbn [fst snd]. intros Hi Hp. set (L := commands_of (log a)).
  destruct i as [|closed i| |c'|]; try done; cbn in Hi; [destruct i as [c'| | |]; try done|]; subst c'; destruct phase; try done;
    cbn [actor_step session_step].
  - pose proof (logged_command config L closed c a eq_refl) as H. fold (logged (c :: L) (handle_command config closed (Some c) a).2) in H.
    destruct (handle_command config closed (Some c) a) as [[[]|] b]; cbn [snd] in *; [| by apply logged_fail_pending | done].
    pose proof (logged_close config (c :: L) b H) as H2. by destruct (close_session config b) as [[]].
  - destruct c; [done..|]. by apply (logged_fail_pending (Shutdown :: L)).
Qed.

(** The commands that entered the queue are those taken, in order, and those still queued;
    their channels are distinct; the queue is bounded; and the actor answers as [Relay]
    shows. *)
Record handle_ok (h : RelayConnection) : Prop := {
  ho_fifo : reverse (commands_of (log (rc_actor h).2)) ++ rc_queue h = rc_asked h;
  ho_bound : zlen (rc_queue h) <= command_capacity config;
  ho_nodup : NoDup (omap response_of (rc_asked h));
  ho_next n : n ∈ omap response_of (rc_asked h) -> (n < rc_next h)%nat;
  ho_answers : answering (rc_gone h) (rc_actor h)
}.

Lemma answering_weaken dropped dropped' s : (forall n, n ∈ dropped -> n ∈ dropped') -> answering dropped s -> answering dropped' s.
Proof.
  intros Hd [[H1 H2 H3 H4 H5 H6 H7] Hf]. split; [|done]. split; try done.
  intros n Hn. destruct (H6 n Hn) as [?|[?|[?|?]]]; auto.
Qed.

Lemma taken_commands l : taken l = omap response_of (commands_of l).
Proof. induction l as [|[] l IH]; cbn; try done. unfold taken, commands_of in *. by destruct (response_of c); cbn; rewrite IH. Qed.

Lemma handle_stimulus s h : handle_ok h -> handle_ok (happens config hash (Stimulated s) h).
Proof.
  intros [H1 H2 H3 H4 H5]. split; cbn [rc_queue rc_actor rc_next rc_gone rc_asked with_actor happens]; try done.
  - by rewrite step_without_command by (by destruct s).
  - apply actor_step_answers; [done | |]; destruct s; cbn; by intros n ?%elem_of_nil.
Qed.

Lemma handle_call call h : handle_ok h -> handle_ok (happens config hash (Calls call) h).
Proof.
  intros [H1 H2 H3 H4 H5]. cbn [happens]. unfold start_call, send. destruct (is_finished _); [by split|].
  destruct (_ <=? _) eqn:E; [by split|]. split_bools. cbn [snd].
  assert (forall n, n ∈ omap response_of [command_of call (rc_next h)] -> n = rc_next h) as Hn
    by (destruct call; cbn; intros n; rewrite ?list_elem_of_singleton, ?elem_of_nil; done).
  split; cbn [rc_queue rc_actor rc_next rc_gone rc_asked]; try done.
  - by rewrite app_assoc, H1.
  - rewrite zlen_app. change (zlen [command_of call (rc_next h)]) with 1. lia.
  - rewrite omap_app. apply NoDup_app. split_and!; [done | | destruct call; cbn; (apply NoDup_singleton || apply NoDup_nil_2)].
    intros n Hin ->%Hn. apply H4 in Hin. lia.
  - intros n. rewrite omap_app, elem_of_app. intros [Hin%H4| ->%Hn]; lia.
Qed.

Lemma handle_take h : handle_ok h -> handle_ok (happens config hash Takes h).
Proof.
  intros [H1 H2 H3 H4 H5]. cbn [happens]. unfold take_command. destruct (rc_queue h) as [|c q] eqn:Eq; [by split; rewrite ?Eq|].
  assert (forall i, input_command i = Some c -> (forall n, n ∈ input_closed i -> n ∈ rc_gone h) -> input_responses i = response_list (Some c) ->
    match (rc_actor h).1, i with InSession, InSessionInput _ _ | Waiting _, WhileWaiting _ => True | _, _ => False end ->
    handle_ok {| rc_queue := q; rc_actor := actor_step config hash i (rc_actor h); rc_next := rc_next h; rc_gone := rc_gone h; rc_asked := rc_asked h |}) as Hstep.
  { intros i Hi Hc Hr Hp. split; cbn [rc_queue rc_actor rc_next rc_gone rc_asked]; try done.
    - rewrite (step_command i c) by done. by rewrite reverse_cons, <- app_assoc.
    - rewrite zlen_cons in H2. lia.
    - apply actor_step_answers; [done | | done]. rewrite Hr. intros n Hn Ht. rewrite taken_commands in Ht.
      rewrite <- H1 in H3. rewrite omap_app in H3. apply NoDup_app in H3 as (_ & Hdis & _). apply (Hdis n).
      + apply list_elem_of_omap in Ht as (x & Hx & Ex). apply list_elem_of_omap. exists x. by rewrite elem_of_reverse.
      + cbn. unfold response_list in Hn. destruct c; cbn in Hn |- *; try (apply list_elem_of_singleton in Hn as ->; left). by apply elem_of_nil in Hn. }
  destruct (rc_actor h).1 eqn:Ep; try (by split; rewrite ?Eq); apply Hstep; try done; cbn; try (by intros n ?%elem_of_nil); by rewrite ?Ep.
Qed.

Lemma handle_run_ok xs h : handle_ok h -> handle_ok (handle_run config hash xs h).
Proof.
  revert h. induction xs as [|x xs IH]; intros h H; [done|]. apply IH. destruct x.
  - by apply handle_call.
  - destruct H as [H1 H2 H3 H4 H5]. split; try done. eapply answering_weaken; [|exact H5]. intros m Hm. by right.
  - by apply handle_take.
  - by apply handle_stimulus.
Qed.
End Together.

(** ** Properties *)

Lemma answer_of_elem n l r : answer_of n l = Some r -> LRespond n r ∈ l.
Proof.
  induction l as [|e l IH]; [done|]. destruct e; cbn; try (intros H; right; by apply IH).
  destruct (Nat.eqb_spec response n) as [->|]; [intros [= ->]; by left | intros H; right; by apply IH].
Qed.
Lemma acks_elem l n ack : acks_ok l -> LRespond n (PublishResponse (Ok ack)) ∈ l -> exists older, older `suffix_of` l /\ acknowledges older n ack.
Proof.
  induction l as [|e l IH]; [by intros _ ?%elem_of_nil|].
  intros H [<-|Hin]%elem_of_cons; [exists l; split; [by exists [LRespond n (PublishResponse (Ok ack))] | apply H]|].
  destruct IH as (older & Hs & Ha); [|done|].
  - destruct e as [| | | | |? [[]|]]; try exact H; by destruct H.
  - exists older. split; [by apply suffix_cons_r | done].
Qed.

Section Properties.
Context {hex : Hex} {json : Json} {sha : Sha256} {schnorr : Schnorr} {url : UrlLib}.
Variables (config : RelayConfig) (hash : string -> Z -> Z).

Lemma spawn_ok sends tape h : 0 <= command_capacity config -> spawn config sends tape = Ok h -> handle_ok config h.
Proof.
  intros Hc. unfold spawn. destruct (RelayConfig_validate config); [|done]. intros [= <-].
  split; cbn; try done; [constructor | by intros n ?%elem_of_nil |]. split; [|done]. cbn.
  split; cbn; try done; [constructor | | ]; intros ? Hin; by apply elem_of_nil in Hin.
Qed.

(** C34: The users of a connection are told the truth. However calls, time limits, actor turns,
    messages and reconnections interleave: the actor takes exactly the commands that entered
    the queue, once and in the order of the calls, the rest are still queued, within the
    capacity; a call that was refused entered nothing; each call is answered at most once; a
    publication that returns an acknowledgement is one whose own event was sent and which
    the relay accepted, with that message; and when the actor has ended normally, every call
    it took got an answer or had stopped waiting. *)
Theorem relay_calls_truthful sends tape xs h0 :
  0 <= command_capacity config -> spawn config sends tape = Ok h0 ->
  let h := handle_run config hash xs h0 in
  let l := log (rc_actor h).2 in
  reverse (commands_of l) ++ rc_queue h = rc_asked h /\ NoDup (omap response_of (rc_asked h)) /\
  zlen (rc_queue h) <= command_capacity config /\ NoDup (answered l) /\
  (forall call e h', start_call config call h = (Err e, h') -> h' = h) /\
  (forall n ack, publish_result n h = Some (Ok ack) ->
     exists event, Publish event n ∈ rc_asked h /\ ack_event_id ack = id event /\
       LSent (CEvent event) ∈ l /\ LReceived (ROk (id event) true (ack_message ack)) ∈ l) /\
  ((rc_actor h).1 = Finished (Ok tt) -> forall c n, c ∈ commands_of l -> response_of c = Some n ->
     n ∈ answered l \/ n ∈ rc_gone h).
Proof using Type.
  intros Hc Hs. cbv zeta. pose proof (handle_run_ok config hash xs h0 (spawn_ok _ _ _ Hc Hs)) as [H1 H2 H3 H4 H5].
  set (h := handle_run config hash xs h0) in *. split_and!; try done.
  - apply H5.
  - intros call e h'. unfold start_call, send. destruct (is_finished _); [by intros [= _ <-]|].
    destruct (_ <=? _); by intros [= _ <-].
  - intros n ack. unfold publish_result, wait. case_bool_decide; [done|].
    destruct (answer_of n _) as [[r|]|] eqn:Ea; try done; [|by destruct (is_finished _)]. intros [= ->].
    apply answer_of_elem in Ea. destruct (acks_elem _ _ _ (an_acks _ _ _ (proj1 H5)) Ea) as (older & [newer E] & e & He & Hcmd & Hsent & Hrecv).
    rewrite E. exists e. split_and!; [| done | apply elem_of_app; by right | apply elem_of_app; by right].
    rewrite <- H1. apply elem_of_app. left. apply elem_of_reverse, commands_of_elem. rewrite E. apply elem_of_app. by right.
  - intros Hf c n Hin Hr. destruct H5 as [Ha Hfin]. destruct (an_complete _ _ _ Ha n) as [?|[[i Hi]|[?|Hnil]]]; auto.
    + rewrite taken_commands. apply list_elem_of_omap. by exists c.
    + by rewrite (Hfin Hf), lookup_empty in Hi.
    + by apply elem_of_nil in Hnil.
Qed.

(** A shutdown reaches an actor that listens: it ends normally and tells every publication
    that was waiting for its acknowledgement; when the queue is full the command is lost,
    and the shutdown ends with its time limit. *)
Theorem shutdown_reaches_actor h :
  (rc_queue h = [] -> 1 <= command_capacity config ->
   match (rc_actor h).1 with InSession | Waiting _ => True | _ => False end ->
   (shutdown config hash [Takes] h).1 = Ok tt /\ pending (rc_actor (shutdown config hash [Takes] h).2).2 = ∅) /\
  (is_finished (rc_actor h).1 = false -> command_capacity config <= zlen (rc_queue h) ->
   shutdown config hash [] h = (Err REShutdownTimeout, h)).
Proof using Type.
  split.
  - intros Hq Hc Hp. unfold shutdown, send. rewrite Hq. change (zlen (@nil Command)) with 0.
    destruct (_ <=? 0) eqn:E; split_bools; [lia|]. destruct h as [q [phase a] next gone asked]. cbn in *. subst q.
    destruct phase; cbn; done.
  - intros Hf Hc. unfold shutdown, send. rewrite Hf. destruct (_ <=? _) eqn:E; split_bools; [|lia]. cbn.
    by destruct (rc_actor h).1.
Qed.
End Properties.

(** ** Witnesses *)

(** Two publications of the same event, one of which outlives its caller, then the answer of
    the relay and a shutdown. *)
Definition sample_happenings : list Happening :=
  [Stimulated (Connects true); Calls (CallPublish (sample_signed "hi")); Calls (CallPublish (sample_signed "hi")); Takes; Takes;
   Calls (CallSubscribe "s" sample_filters); TimesOut 2;
   Stimulated (Receives (Some (MText (json_to_vec (relay_frame_value (ROk (id (sample_signed "hi")) true ""))) 100 100)));
   Calls CallShutdown; Takes; Takes].

Lemma relay_calls_truthful_witness :
  exists h0, spawn sample_config [] [] = Ok h0 /\
    let h := handle_run sample_config no_hash sample_happenings h0 in
    unit_result 2 h = Some (Err REResponseTimeout) /\
    publish_result 1 h = Some (Err REDuplicatePublish) /\
    publish_result 0 h = Some (Ok {| ack_event_id := id (sample_signed "hi"); ack_message := "" |}) /\
    exists event, Publish event 0 ∈ rc_asked h /\ LSent (CEvent event) ∈ log (rc_actor h).2.
Proof.
  destruct (spawn sample_config [] []) as [h0|] eqn:E.
  2: { exfalso. assert (is_ok (spawn sample_config [] []) = true) as H by (vm_compute; reflexivity). rewrite E in H. discriminate H. }
  exists h0. split; [reflexivity|]. cbv zeta.
  assert (match spawn sample_config [] [] with
          | Ok h0 => let h := handle_run sample_config no_hash sample_happenings h0 in
              unit_result 2 h = Some (Err REResponseTimeout) /\ publish_result 1 h = Some (Err REDuplicatePublish) /\
              publish_result 0 h = Some (Ok {| ack_event_id := id (sample_signed "hi"); ack_message := "" |})
          | Err _ => False end) as H by (vm_compute; split_and!; reflexivity).
  rewrite E in H. cbv zeta in H. destruct H as (H1 & H2 & H3). split; [exact H1|]. split; [exact H2|]. split; [exact H3|].
  destruct (relay_calls_truthful sample_config no_hash [] [] sample_happenings h0) as (_ & _ & _ & _ & _ & Hp & _);
    [vm_compute; discriminate | exact E |].
  destruct (Hp _ _ H3) as (event & Ha & _ & Hs & _). exists event. split; [exact Ha | exact Hs].
Defined.
