(* ===== verification/GiftWrap.v ===== *)
(** * NIP-59 gift wraps ([omachat-nostr/src/gift_wrap.rs])

    Rumors, seals and wrappers: a chat message is an unsigned rumor, sealed by its
    author for one recipient and wrapped under a one-time key. *)

From Stdlib Require Import Strings.Byte Ascii String.
From S2P Require Import Prelude RustStd Libs Serde Concrete Nip44 Event.
Local Open Scope Z_scope.

Definition SEAL_KIND : Z := 13.
Definition CHAT_MESSAGE_KIND : Z := 14.
Definition GIFT_WRAP_KIND : Z := 1059.
Definition EPHEMERAL_GIFT_WRAP_KIND : Z := 21059.
Definition MAX_CHAT_RECIPIENTS : Z := 10.
Definition MAX_TIMESTAMP_SKEW_SECONDS : Z := 2 * 24 * 60 * 60.

Record Rumor := {
  r_id : string;
  r_pubkey : string;
  r_created_at : Z;
  r_kind : Z;
  r_tags : list Tag;
  r_content : string
}.

Record ChatRecipient := { public_key : bytes; relay_hint : option string }.

Inductive GiftWrapPersistence := Persistent | Ephemeral.

Definition persistence_kind (p : GiftWrapPersistence) : Z :=
  match p with Persistent => GIFT_WRAP_KIND | Ephemeral => EPHEMERAL_GIFT_WRAP_KIND end.

Record GiftWrapMaterial := {
  seal_created_at : Z;
  seal_nonce : bytes;
  seal_auxiliary_randomness : bytes;
  wrapper_secret_key : bytes;
  wrapper_created_at : Z;
  wrapper_nonce : bytes;
  wrapper_auxiliary_randomness : bytes
}.

Record OpenedGiftWrap := { o_seal : SignedEvent; o_rumor : Rumor }.

Inductive GiftWrapError :=
| GEvent (e : EventError)
| GEncryption (e : Nip44Error)
| GJson
| GInvalidRecipientCount
| GDuplicateOrSelfRecipient
| GInvalidRelayHint
| GInvalidHex
| GRumorIdMismatch
| GAuthorMismatch
| GWrongWrapperKind
| GRecipientMismatch
| GWrongSealKind
| GSealHasTags
| GRumorTooLarge
| GRandomnessUnavailable.

#[export] Instance Rumor_eq_dec : EqDecision Rumor.
Proof. solve_decision. Defined.
#[export] Instance GiftWrapError_eq_dec : EqDecision GiftWrapError.
Proof. solve_decision. Defined.

Section GiftWrap.
Context {hex : Hex} {json : Json} {sha : Sha256} {schnorr : Schnorr}.
Context {crypto : Nip44Crypto} {b64 : Base64} {url : UrlLib}.

Definition rumor_unsigned (r : Rumor) : UnsignedEvent := {|
  ue_pubkey := r_pubkey r; ue_created_at := r_created_at r; ue_kind := r_kind r;
  ue_tags := r_tags r; ue_content := r_content r |}.

(** [Rumor::new] *)
Definition Rumor_new (e : UnsignedEvent) (limits : EventLimits) : result GiftWrapError Rumor :=
  let? event := map_err GEvent (UnsignedEvent_new (ue_pubkey e) (ue_created_at e) (ue_kind e)
                  (ue_tags e) (ue_content e) limits) in
  Ok {| r_id := hex_encode (event_id event); r_pubkey := ue_pubkey event;
        r_created_at := ue_created_at event; r_kind := ue_kind event;
        r_tags := ue_tags event; r_content := ue_content event |}.

(** [Rumor::verify] *)
Definition Rumor_verify (r : Rumor) (limits : EventLimits) : result GiftWrapError unit :=
  let? event := map_err GEvent (UnsignedEvent_new (r_pubkey r) (r_created_at r) (r_kind r)
                  (r_tags r) (r_content r) limits) in
  fail_if negb (bool_decide (hex_encode (event_id event) = r_id r)) with GRumorIdMismatch ;;
  Ok tt.

Definition rumor_fields : list string :=
  ["id"; "pubkey"; "created_at"; "kind"; "tags"; "content"].
Definition rumor_value (r : Rumor) : Value :=
  JObject [("id", JString (r_id r)); ("pubkey", JString (r_pubkey r));
           ("created_at", JInt (r_created_at r)); ("kind", JInt (r_kind r));
           ("tags", JArray (map ser_strings (r_tags r)));
           ("content", JString (r_content r))]%string.
Definition rumor_of_value (v : Value) : option Rumor :=
  vs ← de_struct true rumor_fields v;
  match vs with
  | [v1; v2; v3; v4; v5; v6] =>
      i ← de_string v1; pk ← de_string v2; t ← de_uint u64_max v3; k ← de_uint u32_max v4;
      ts ← de_vec (de_vec de_string) v5; c ← de_string v6;
      Some {| r_id := i; r_pubkey := pk; r_created_at := t; r_kind := k; r_tags := ts;
              r_content := c |}
  | _ => None
  end.

Definition validate_relay_hint (relay : string) : result GiftWrapError unit :=
  let? parsed := ok_or GInvalidRelayHint (url_parse relay) in
  fail_if negb (String.eqb (url_scheme parsed) "ws" || String.eqb (url_scheme parsed) "wss")
    || bool_decide (url_host_str parsed = None)
    || negb (slen (url_username parsed) =? 0)
    || bool_decide (is_Some (url_password parsed))
    || bool_decide (is_Some (url_fragment parsed)) with GInvalidRelayHint ;;
  Ok tt.

Definition validate_lower_hex (value : string) (n : Z) : result GiftWrapError unit :=
  fail_if negb (slen value =? n * 2) || negb (is_lower_hex value) with GInvalidHex ;;
  Ok tt.

Definition decode_lower_hex_32 (value : string) : result GiftWrapError bytes :=
  let? _ := validate_lower_hex value 32 in
  let? b := ok_or GInvalidHex (hex_decode value) in
  fail_if negb (zlen b =? 32) with GInvalidHex ;;
  Ok b.

(** The loop of [create_chat_rumor] over the recipients; [seen] is the [BTreeSet]. *)
Fixpoint recipient_tags (sender : string) (seen : gset string) (recipients : list ChatRecipient)
  : result GiftWrapError (list Tag) :=
  match recipients with
  | [] => Ok []
  | recipient :: rest =>
      let pk := hex_encode (public_key recipient) in
      fail_if String.eqb pk sender || bool_decide (pk ∈ seen) with GDuplicateOrSelfRecipient ;;
      let? tag :=
        match relay_hint recipient with
        | Some relay => let? _ := validate_relay_hint relay in Ok ["p"; pk; relay]%string
        | None => Ok ["p"; pk]%string
        end in
      let? tail := recipient_tags sender ({[pk]} ∪ seen) rest in
      Ok (tag :: tail)
  end.

Definition create_chat_rumor (sender_secret_key : bytes) (time : Z)
  (recipients : list ChatRecipient) (text : string) (subject reply_to : option string)
  (limits : EventLimits) : result GiftWrapError Rumor :=
  fail_if (zlen recipients =? 0) || (MAX_CHAT_RECIPIENTS <? zlen recipients)
    with GInvalidRecipientCount ;;
  let? sender := map_err GEvent (xonly_public_key sender_secret_key) in
  let sender := hex_encode sender in
  let? recipient_part := recipient_tags sender ∅ recipients in
  let? reply_part :=
    match reply_to with
    | Some reply => let? _ := validate_lower_hex reply 32 in Ok [["e"; reply]]%string
    | None => Ok []
    end in
  let subject_part :=
    match subject with Some subject => [["subject"; subject]]%string | None => [] end in
  let? event := map_err GEvent (UnsignedEvent_new sender time CHAT_MESSAGE_KIND
                  (recipient_part ++ reply_part ++ subject_part) text limits) in
  Rumor_new event limits.

Definition create_gift_wrap_with_material (rumor : Rumor)
  (sender_secret_key recipient_public_key : bytes) (persistence : GiftWrapPersistence)
  (material : GiftWrapMaterial) (limits : EventLimits) : result GiftWrapError SignedEvent :=
  let? _ := Rumor_verify rumor limits in
  let? own := map_err GEvent (xonly_public_key sender_secret_key) in
  fail_if negb (String.eqb (r_pubkey rumor) (hex_encode own)) with GAuthorMismatch ;;
  let rumor_json := of_bytes (json_to_vec (rumor_value rumor)) in
  let? encrypted_rumor := map_err GEncryption
    (encrypt_with_nonce sender_secret_key recipient_public_key rumor_json (seal_nonce material)) in
  let? seal := map_err GEvent
    (let? e := UnsignedEvent_new (r_pubkey rumor) (seal_created_at material) SEAL_KIND []
                 encrypted_rumor limits in
     sign_with_aux e sender_secret_key (seal_auxiliary_randomness material) limits) in
  let wrapper_secret := wrapper_secret_key material in
  let? wrapper_public := map_err GEvent (xonly_public_key wrapper_secret) in
  let seal_json := of_bytes (event_to_json seal) in
  let? encrypted_seal := map_err GEncryption
    (encrypt_with_nonce wrapper_secret recipient_public_key seal_json (wrapper_nonce material)) in
  map_err GEvent
    (let? e := UnsignedEvent_new (hex_encode wrapper_public) (wrapper_created_at material)
                 (persistence_kind persistence)
                 [["p"%string; hex_encode recipient_public_key]] encrypted_seal limits in
     sign_with_aux e wrapper_secret (wrapper_auxiliary_randomness material) limits).

(** [gift_wrap.tags.iter().filter(|tag| tag.first() == "p")] *)
Definition p_tags (ts : list Tag) : list Tag :=
  List.filter (fun tag => match tag with t :: _ => String.eqb t "p" | [] => false end) ts.

Definition open_gift_wrap (gift_wrap : SignedEvent) (recipient_secret_key : bytes) (now : Z)
  (limits : EventLimits) : result GiftWrapError OpenedGiftWrap :=
  let? _ := map_err GEvent (verify gift_wrap now limits) in
  fail_if negb ((kind gift_wrap =? GIFT_WRAP_KIND) || (kind gift_wrap =? EPHEMERAL_GIFT_WRAP_KIND))
    with GWrongWrapperKind ;;
  let? recipient := map_err GEvent (xonly_public_key recipient_secret_key) in
  let recipient := hex_encode recipient in
  fail_if match p_tags (tags gift_wrap) with
          | [tag] => negb (bool_decide (tag !! 1%nat = Some recipient))
          | _ => true
          end with GRecipientMismatch ;;
  let? wrapper_public := decode_lower_hex_32 (pubkey gift_wrap) in
  let? seal_json := map_err GEncryption
    (decrypt recipient_secret_key wrapper_public (content gift_wrap)) in
  let? seal := map_err GEvent (event_from_json (as_bytes seal_json) now limits) in
  fail_if negb (kind seal =? SEAL_KIND) with GWrongSealKind ;;
  fail_if negb (zlen (tags seal) =? 0) with GSealHasTags ;;
  let? author_public := decode_lower_hex_32 (pubkey seal) in
  let? rumor_json := map_err GEncryption
    (decrypt recipient_secret_key author_public (content seal)) in
  fail_if max_serialized_bytes limits <? slen rumor_json with GRumorTooLarge ;;
  let? rumor := ok_or GJson (v ← json_from_slice (as_bytes rumor_json); rumor_of_value v) in
  let? _ := Rumor_verify rumor limits in
  fail_if negb (String.eqb (r_pubkey rumor) (pubkey seal)) with GAuthorMismatch ;;
  Ok {| o_seal := seal; o_rumor := rumor |}.

(** ** Fresh material *)

Definition random_array : SE Entropy GiftWrapError bytes :=
  getrandom_fill GRandomnessUnavailable 32.

(** The [for _ in 0..128] loop of [random_secret_key]. *)
Fixpoint random_secret_key_loop (tries : nat) : SE Entropy GiftWrapError bytes :=
  match tries with
  | O => se_ret (Err GRandomnessUnavailable)
  | S tries =>
      let! candidate := random_array in
      match schnorr_public_key candidate with
      | Some _ => se_ret (Ok candidate)
      | None => random_secret_key_loop tries
      end
  end.
Definition random_secret_key : SE Entropy GiftWrapError bytes := random_secret_key_loop 128.

Definition random_past_timestamp (now : Z) : SE Entropy GiftWrapError Z :=
  let! b := getrandom_fill GRandomnessUnavailable 8 in
  let offset := from_le_bytes b mod (MAX_TIMESTAMP_SKEW_SECONDS + 1) in
  se_ret (Ok (saturating_sub now offset)).

Definition create_gift_wrap (rumor : Rumor) (sender_secret_key recipient_public_key : bytes)
  (now : Z) (persistence : GiftWrapPersistence) (limits : EventLimits)
  : SE Entropy GiftWrapError SignedEvent :=
  let! sc := random_past_timestamp now in
  let! sn := random_array in
  let! sa := random_array in
  let! wk := random_secret_key in
  let! wc := random_past_timestamp now in
  let! wn := random_array in
  let! wa := random_array in
  se_ret (create_gift_wrap_with_material rumor sender_secret_key recipient_public_key persistence
    {| seal_created_at := sc; seal_nonce := sn; seal_auxiliary_randomness := sa;
       wrapper_secret_key := wk; wrapper_created_at := wc; wrapper_nonce := wn;
       wrapper_auxiliary_randomness := wa |} limits).
End GiftWrap.

Section GiftWrapFacts.
Context {hex : Hex} {json : Json} {sha : Sha256} {schnorr : Schnorr}.
Context {crypto : Nip44Crypto} {b64 : Base64} {url : UrlLib}.
Context {hex_laws : HexLaws} {json_laws : JsonLaws} {sha_laws : Sha256Laws}
        {schnorr_laws : SchnorrLaws} {crypto_laws : Nip44CryptoLaws} {b64_laws : Base64Laws}.

Lemma UnsignedEvent_new_inv pk t k ts c limits e :
  UnsignedEvent_new pk t k ts c limits = Ok e ->
  e = {| ue_pubkey := pk; ue_created_at := t; ue_kind := k; ue_tags := ts; ue_content := c |} /\
  validate e limits = Ok tt.
Proof using Type. unfold UnsignedEvent_new. intros H. inv_ok. destruct a. done. Qed.

Lemma Rumor_verify_ok r limits :
  Rumor_verify r limits = Ok tt <->
  validate (rumor_unsigned r) limits = Ok tt /\ r_id r = hex_encode (event_id (rumor_unsigned r)).
Proof using Type.
  unfold Rumor_verify, UnsignedEvent_new. fold (rumor_unsigned r).
  destruct (validate (rumor_unsigned r) limits) as [[]|]; simpl; [|intuition discriminate].
  case_bool_decide; simpl; intuition (congruence || discriminate).
Qed.

Lemma decode_lower_hex_32_ok s b :
  decode_lower_hex_32 s = Ok b <-> hex_encode b = s /\ zlen b = 32.
Proof using hex_laws.
  rewrite <- (decode_hex_ok 32). unfold decode_lower_hex_32, validate_lower_hex, decode_hex.
  destruct (negb _ || negb _); simpl; [intuition discriminate|].
  unfold hex_decode_to_slice. destruct (hex_decode s); simpl; [|intuition discriminate].
  destruct (zlen _ =? 32); simpl; intuition (congruence || discriminate).
Qed.

Lemma rumor_of_value_value r :
  event_wf (rumor_unsigned r) = true -> rumor_of_value (rumor_value r) = Some r.
Proof using Type.
  unfold event_wf. simpl. intros Hw. split_bools. unfold rumor_of_value, rumor_value.
  change (de_struct true rumor_fields _) with
    (Some [JString (r_id r); JString (r_pubkey r); JInt (r_created_at r); JInt (r_kind r);
           JArray (map ser_strings (r_tags r)); JString (r_content r)]).
  cbn [mbind option_bind de_string de_uint].
  repeat match goal with R : in_range _ _ _ = true |- _ => rewrite R; clear R end.
  cbn [mbind option_bind].
  rewrite de_vec_map by (apply Forall_true; intros; apply de_vec_strings).
  by destruct r.
Qed.

Lemma rumor_value_wf r :
  event_wf (rumor_unsigned r) = true -> utf8_valid (r_id r) = true ->
  json_wf (rumor_value r) = true.
Proof using Type.
  intros He Hi. apply canonical_wf in He. cbn [canonical_value rumor_unsigned ue_pubkey
    ue_created_at ue_kind ue_tags ue_content json_wf forallb] in He. split_bools.
  unfold rumor_value. cbn [json_wf forallb fst snd].
  repeat (apply andb_true_intro; split); try assumption; try reflexivity;
    apply Z.leb_le; lia.
Qed.

(** ** What the author builds *)

Lemma create_inv rumor sk_s pk_r pers m limits wrap :
  create_gift_wrap_with_material rumor sk_s pk_r pers m limits = Ok wrap ->
  exists pk_s wpk enc_rumor enc_seal seal,
    Rumor_verify rumor limits = Ok tt /\
    schnorr_public_key sk_s = Some pk_s /\ r_pubkey rumor = hex_encode pk_s /\
    encrypt_with_nonce sk_s pk_r (of_bytes (json_to_vec (rumor_value rumor))) (seal_nonce m)
      = Ok enc_rumor /\
    sign_with_aux {| ue_pubkey := r_pubkey rumor; ue_created_at := seal_created_at m;
      ue_kind := SEAL_KIND; ue_tags := []; ue_content := enc_rumor |}
      sk_s (seal_auxiliary_randomness m) limits = Ok seal /\
    schnorr_public_key (wrapper_secret_key m) = Some wpk /\
    encrypt_with_nonce (wrapper_secret_key m) pk_r (of_bytes (event_to_json seal))
      (wrapper_nonce m) = Ok enc_seal /\
    sign_with_aux {| ue_pubkey := hex_encode wpk; ue_created_at := wrapper_created_at m;
      ue_kind := persistence_kind pers; ue_tags := [["p"%string; hex_encode pk_r]];
      ue_content := enc_seal |}
      (wrapper_secret_key m) (wrapper_auxiliary_randomness m) limits = Ok wrap.
Proof using Type.
  unfold create_gift_wrap_with_material, xonly_public_key. intros H. inv_ok. split_bools.
  repeat match goal with U : UnsignedEvent_new _ _ _ _ _ _ = Ok _ |- _ =>
    apply UnsignedEvent_new_inv in U as [-> _] end.
  repeat match goal with E : String.eqb _ _ = true |- _ => apply String.eqb_eq in E end.
  destruct a. do 5 eexists. repeat (split; [eassumption|]). eassumption.
Qed.

(** A signed event is valid JSON: its author's fields are, and the rest is hex. *)
Lemma signed_json_ok e sk aux limits se :
  sign_with_aux e sk aux limits = Ok se -> event_wf e = true ->
  utf8_valid (of_bytes (event_to_json se)) = true.
Proof using hex_laws json_laws.
  intros (? & ? & _ & _ & _ & _ & Hu & Hi & Hg)%sign_with_aux_inv Hw.
  apply json_to_vec_utf8, event_value_wf; [by rewrite Hu | rewrite Hi | rewrite Hg]; apply hex_utf8.
Qed.

Lemma validate_content e limits :
  validate e limits = Ok tt -> slen (ue_content e) <= max_content_bytes limits.
Proof using Type. intros [_ Hl]%validate_ok. unfold within_limits in Hl. split_bools. done. Qed.

Lemma base64_utf8 b : utf8_valid (base64_encode b) = true.
Proof using b64_laws.
  unfold utf8_valid. rewrite utf8_decode_ascii; [done|].
  pose proof (base64_encode_alphabet b) as Ha. unfold bytes_all in Ha.
  apply forallb_forall. intros x Hx. eapply forallb_forall in Ha; [|exact Hx].
  unfold is_base64_byte, is_ascii_alphanumeric, is_ascii_digit, is_ascii_lowercase,
    is_ascii_uppercase, in_range in Ha. lia.
Qed.

Lemma payload_utf8 sk pk msg nonce payload :
  encrypt_with_nonce sk pk msg nonce = Ok payload -> utf8_valid payload = true.
Proof using b64_laws.
  unfold encrypt_with_nonce, encrypt_with_conversation_key. intros H. inv_ok. apply base64_utf8.
Qed.

(** ** Opening what was created *)

Lemma open_created rumor sk_s sk_r pk_r pers m limits now wrap :
  max_content_bytes limits <= max_serialized_bytes limits ->
  event_wf (rumor_unsigned rumor) = true ->
  schnorr_public_key sk_r = Some pk_r ->
  zlen (seal_nonce m) = 32 -> zlen (wrapper_nonce m) = 32 ->
  in_u64 (seal_created_at m) -> in_u64 (wrapper_created_at m) ->
  seal_created_at m <= saturating_add u64_max now (max_future_seconds limits) ->
  wrapper_created_at m <= saturating_add u64_max now (max_future_seconds limits) ->
  create_gift_wrap_with_material rumor sk_s pk_r pers m limits = Ok wrap ->
  zlen (event_to_json wrap) <= max_serialized_bytes limits ->
  exists seal, open_gift_wrap wrap sk_r now limits = Ok {| o_seal := seal; o_rumor := rumor |} /\
    pubkey seal = r_pubkey rumor /\ created_at wrap = wrapper_created_at m /\
    created_at seal = seal_created_at m.
Proof using Type*.
  intros Hlim Hw Hr Hn1 Hn2 U1 U2 T1 T2 Hc Hsize.
  destruct (create_inv _ _ _ _ _ _ _ Hc)
    as (pk_s & wpk & enc_rumor & enc_seal & seal & Hrv & Hs & Hrp & E1 & S1 & Hwk & E2 & S2).
  pose proof Hrv as [Hval Hrid]%Rumor_verify_ok.
  destruct (sign_with_aux_inv _ _ _ _ _ S1) as (_ & ? & V1 & _ & _ & _ & Us & _ & Gs).
  destruct (sign_with_aux_inv _ _ _ _ _ S2) as (_ & ? & V2 & _ & _ & _ & Uw & _).
  assert (event_wf (unsigned seal) = true) as Hws.
  { rewrite Us. unfold event_wf, in_range. simpl. rewrite Hrp, hex_utf8, (payload_utf8 _ _ _ _ _ E1).
    unfold in_u64 in U1. rewrite !(proj2 (Z.leb_le _ _)) by (unfold_ints; lia). done. }
  assert (utf8_valid (of_bytes (json_to_vec (rumor_value rumor))) = true) as Ju.
  { apply json_to_vec_utf8, rumor_value_wf; [done|]. rewrite Hrid. apply hex_utf8. }
  assert (utf8_valid (of_bytes (event_to_json seal)) = true) as Su
    by (eapply signed_json_ok; [exact S1 | by rewrite <- Us]).
  assert (slen (of_bytes (event_to_json seal)) <= max_serialized_bytes limits) as Lseal.
  { etrans; [eapply encrypt_with_nonce_expands, E2|]. etrans; [|exact Hlim].
    apply (validate_content _ _ V2). }
  assert (slen (of_bytes (json_to_vec (rumor_value rumor))) <= max_serialized_bytes limits) as Lrumor.
  { etrans; [eapply encrypt_with_nonce_expands, E1|]. etrans; [|exact Hlim].
    apply (validate_content _ _ V1). }
  rewrite slen_of_bytes in Lseal.
  assert (verify seal now limits = Ok tt) as Vseal.
  { eapply verify_signed; [exact S1 | done |]. replace (created_at seal) with (seal_created_at m); [done|].
    by apply (f_equal ue_created_at) in Us. }
  assert (verify wrap now limits = Ok tt) as Vwrap.
  { eapply verify_signed; [exact S2 | done |].
    replace (created_at wrap) with (wrapper_created_at m); [done|].
    by apply (f_equal ue_created_at) in Uw. }
  pose proof (nip44_decrypts _ _ _ _ _ _ _ Hwk Hr Hn2 Su E2) as D2.
  pose proof (nip44_decrypts _ _ _ _ _ _ _ Hs Hr Hn1 Ju E1) as D1.
  exists seal. destruct wrap as [wid wpub wt wk wts wc ws].
  unfold unsigned in Uw. cbn in Uw. injection Uw as -> -> -> -> ->.
  assert (pubkey seal = r_pubkey rumor) as Ep by (by apply (f_equal ue_pubkey) in Us).
  split; [|split; [done | split; [done | by apply (f_equal ue_created_at) in Us]]].
  unfold open_gift_wrap. rewrite Vwrap. cbn [map_err rbind kind tags pubkey content].
  replace (negb _) with false by (by destruct pers). unfold xonly_public_key. rewrite Hr.
  cbn [ok_or map_err rbind]. simpl p_tags. cbv iota.
  rewrite bool_decide_true by done. cbn [negb].
  rewrite (proj2 (decode_lower_hex_32_ok _ wpk)) by eauto using schnorr_public_key_length.
  cbn [rbind]. rewrite D2. cbn [map_err rbind]. rewrite as_bytes_of_bytes.
  rewrite event_from_json_to_json by done. cbn [map_err rbind].
  replace (kind seal) with SEAL_KIND by (by apply (f_equal ue_kind) in Us).
  replace (tags seal) with ([] : list Tag) by (by apply (f_equal ue_tags) in Us).
  replace (content seal) with enc_rumor by (by apply (f_equal ue_content) in Us).
  cbn [Z.eqb negb]. rewrite Z.eqb_refl. cbn [negb].
  rewrite Ep, Hrp, (proj2 (decode_lower_hex_32_ok _ pk_s)) by eauto using schnorr_public_key_length.
  change (zlen (@nil Tag) =? 0) with true. cbn [negb rbind]. rewrite D1. cbn [map_err rbind].
  rewrite (proj2 (Z.ltb_ge _ _)) by done. rewrite as_bytes_of_bytes, json_roundtrip
    by (apply rumor_value_wf; [done | rewrite Hrid; apply hex_utf8]).
  cbn [mbind option_bind]. rewrite rumor_of_value_value by done. cbn [ok_or rbind].
  rewrite Hrv. cbn [rbind]. rewrite Hrp, String.eqb_refl. done.
Qed.

(** ** The recipients of a chat rumor *)

(** The tag [recipient_tags] builds for one recipient. *)
Definition recipient_tag (recipient : ChatRecipient) : Tag :=
  "p"%string :: hex_encode (public_key recipient) ::
  match relay_hint recipient with Some relay => [relay] | None => [] end.

Lemma recipient_tags_ok sender seen rs ts :
  recipient_tags sender seen rs = Ok ts ->
  ts = map recipient_tag rs /\ NoDup (map (hex_encode ∘ public_key) rs) /\
  Forall (fun r => hex_encode (public_key r) <> sender /\
                   hex_encode (public_key r) ∉ seen) rs.
Proof using Type.
  revert seen ts. induction rs as [|r rs IH]; intros seen ts; cbn [recipient_tags].
  { intros [= <-]. repeat constructor. }
  intros H. inv_ok. split_bools. destruct (IH _ _ Ha0) as (-> & Hnd & Hall).
  repeat split.
  - cbn [map]. f_equal. unfold recipient_tag. destruct (relay_hint r); inv_ok; done.
  - cbn [map]. constructor; [|done]. intros (r' & E & Hin)%list_elem_of_fmap.
    rewrite Forall_forall in Hall. destruct (Hall r' Hin) as [_ Hn]. apply Hn.
    apply elem_of_union_l, elem_of_singleton. by symmetry.
  - constructor; [split; [by apply String.eqb_neq | done]|].
    eapply Forall_impl; [exact Hall|]. intros r' [Hs Hn]. split; [exact Hs|].
    intros Hin. by apply Hn, elem_of_union_r.
Qed.

Lemma Rumor_new_inv e limits r :
  Rumor_new e limits = Ok r ->
  rumor_unsigned r = e /\ Rumor_verify r limits = Ok tt.
Proof using Type.
  unfold Rumor_new. intros H. inv_ok. apply UnsignedEvent_new_inv in Ha as [-> Hv].
  rewrite Rumor_verify_ok. unfold rumor_unsigned. cbn. destruct e. done.
Qed.

Lemma create_chat_rumor_inv sk time rs text subject reply limits rumor :
  create_chat_rumor sk time rs text subject reply limits = Ok rumor ->
  1 <= zlen rs <= MAX_CHAT_RECIPIENTS /\
  NoDup (map (hex_encode ∘ public_key) rs) /\
  (exists pk, schnorr_public_key sk = Some pk /\ r_pubkey rumor = hex_encode pk /\
     Forall (fun r => hex_encode (public_key r) <> r_pubkey rumor) rs) /\
  r_kind rumor = CHAT_MESSAGE_KIND /\ r_content rumor = text /\ r_created_at rumor = time /\
  r_tags rumor = map recipient_tag rs ++
    match reply with Some e => [["e"%string; e]] | None => [] end ++
    match subject with Some s => [["subject"%string; s]] | None => [] end /\
  Rumor_verify rumor limits = Ok tt.
Proof using Type.
  unfold create_chat_rumor, xonly_public_key. intros H. inv_ok. split_bools.
  apply recipient_tags_ok in Ha0 as (-> & Hnd & Hall).
  apply UnsignedEvent_new_inv in Ha2 as [-> _]. apply Rumor_new_inv in H as [Hu Hv].
  destruct rumor as [rid rpk rt rk rts rc]. unfold rumor_unsigned in Hu. cbn in Hu |- *.
  injection Hu as -> -> -> -> ->. pose proof (zlen_nonneg rs).
  split; [lia|]. split; [done|]. split.
  { exists a. repeat split; [done|]. eapply Forall_impl; [exact Hall|]. by intros ? []. }
  repeat split; [|done]. do 2 f_equal. by destruct reply; inv_ok.
Qed.

Lemma event_from_json_inv input now limits e :
  event_from_json input now limits = Ok e -> verify e now limits = Ok tt.
Proof using Type. unfold event_from_json. intros H. inv_ok. by destruct a0. Qed.

(** ** What an opened gift wrap is *)

Lemma open_inv wrap sk now limits o :
  open_gift_wrap wrap sk now limits = Ok o ->
  verify wrap now limits = Ok tt /\ verify (o_seal o) now limits = Ok tt /\
  (exists pk, schnorr_public_key sk = Some pk /\
    p_tags (tags wrap) !! 0%nat ≫= (.!! 1%nat) = Some (hex_encode pk) /\
    length (p_tags (tags wrap)) = 1%nat) /\
  kind (o_seal o) = SEAL_KIND /\ tags (o_seal o) = [] /\
  (exists author text, hex_encode author = pubkey (o_seal o) /\
    decrypt sk author (content (o_seal o)) = Ok text /\
    json_from_slice (as_bytes text) ≫= rumor_of_value = Some (o_rumor o)) /\
  Rumor_verify (o_rumor o) limits = Ok tt /\ r_pubkey (o_rumor o) = pubkey (o_seal o).
Proof using hex_laws.
  unfold open_gift_wrap, xonly_public_key. intros H. inv_ok. split_bools.
  destruct a, a7. cbn [o_seal o_rumor].
  match goal with E : String.eqb _ _ = true |- _ => apply String.eqb_eq in E end.
  match goal with D : decode_lower_hex_32 (pubkey a3) = Ok _ |- _ =>
    apply decode_lower_hex_32_ok in D as [? _] end.
  split; [done|]. split; [by eapply event_from_json_inv|].
  split.
  { exists a0. destruct (p_tags (tags wrap)) as [|t [|]]; [done | | done].
    split_bools. split_and!; [done | | done]. cbn. done. }
  split_and!; [done | | eauto 10 | done | done].
  destruct (tags a3); [done|]. exfalso. match goal with Z0 : zlen (_ :: _) = 0 |- _ => unfold zlen in Z0; simpl in Z0; lia end.
Qed.

(** ** Randomness *)

Lemma random_past_timestamp_ok now tape t tape' :
  0 <= now -> random_past_timestamp now tape = (Ok t, tape') ->
  saturating_sub now MAX_TIMESTAMP_SKEW_SECONDS <= t <= now.
Proof using Type.
  unfold random_past_timestamp. intros Hn H. inv_ok. unfold saturating_sub.
  pose proof (Z.mod_pos_bound (from_le_bytes a) (MAX_TIMESTAMP_SKEW_SECONDS + 1) eq_refl).
  unfold MAX_TIMESTAMP_SKEW_SECONDS in *. lia.
Qed.

Lemma random_secret_key_loop_ok n tape k tape' :
  random_secret_key_loop n tape = (Ok k, tape') -> is_Some (schnorr_public_key k).
Proof using Type.
  revert tape. induction n as [|n IH]; intros tape; cbn [random_secret_key_loop]; [done|].
  intros H. inv_ok. destruct (schnorr_public_key a) eqn:Ea; inv_ok; eauto.
Qed.

Lemma create_gift_wrap_ok rumor sk pk now pers limits tape wrap tape' :
  0 <= now -> create_gift_wrap rumor sk pk now pers limits tape = (Ok wrap, tape') ->
  exists m, create_gift_wrap_with_material rumor sk pk pers m limits = Ok wrap /\
    zlen (seal_nonce m) = 32 /\ zlen (wrapper_nonce m) = 32 /\
    saturating_sub now MAX_TIMESTAMP_SKEW_SECONDS <= seal_created_at m <= now /\
    saturating_sub now MAX_TIMESTAMP_SKEW_SECONDS <= wrapper_created_at m <= now.
Proof using Type.
  unfold create_gift_wrap. intros Hn H. inv_ok. unfold random_array in *.
  eexists. split; [eassumption|]. cbn.
  eauto 10 using getrandom_fill_ok, random_past_timestamp_ok.
Qed.

(** What [create_gift_wrap] makes is opened by its recipient. *)
Lemma create_then_open rumor sk_s sk_r pk_r pers limits tape tape' now later wrap :
  max_content_bytes limits <= max_serialized_bytes limits ->
  0 <= max_future_seconds limits ->
  in_u64 now -> now <= later <= u64_max ->
  event_wf (rumor_unsigned rumor) = true ->
  schnorr_public_key sk_r = Some pk_r ->
  create_gift_wrap rumor sk_s pk_r now pers limits tape = (Ok wrap, tape') ->
  zlen (event_to_json wrap) <= max_serialized_bytes limits ->
  exists seal,
    open_gift_wrap wrap sk_r later limits = Ok {| o_seal := seal; o_rumor := rumor |} /\
    pubkey seal = r_pubkey rumor /\
    saturating_sub now MAX_TIMESTAMP_SKEW_SECONDS <= created_at wrap <= now /\
    saturating_sub now MAX_TIMESTAMP_SKEW_SECONDS <= created_at seal <= now.
Proof using Type*.
  intros Hlim Hf Hnow Hlater Hw Hr Hc Hsize.
  destruct (create_gift_wrap_ok _ _ _ _ _ _ _ _ _ (proj1 Hnow) Hc)
    as (m & Hm & N1 & N2 & T1 & T2).
  destruct (open_created rumor sk_s sk_r pk_r pers m limits later wrap) as (seal & Ho & Hp & C1 & C2);
    try done; try (unfold_ints; lia).
  exists seal. rewrite C1, C2. done.
Qed.

Lemma create_gift_wrap_kind rumor sk pk now pers limits tape wrap tape' :
  0 <= now -> create_gift_wrap rumor sk pk now pers limits tape = (Ok wrap, tape') ->
  kind wrap = persistence_kind pers.
Proof using Type.
  intros Hn Hc. destruct (create_gift_wrap_ok _ _ _ _ _ _ _ _ _ Hn Hc) as (m & Hm & _).
  apply create_inv in Hm as (? & ? & ? & ? & ? & _ & _ & _ & _ & _ & _ & _ & Hs).
  apply sign_with_aux_inv in Hs as (? & ? & _ & _ & _ & _ & Hu & _). by injection Hu.
Qed.
End GiftWrapFacts.

(** ** Properties *)

Section Properties.
Context {hex : Hex} {json : Json} {sha : Sha256} {schnorr : Schnorr}.
Context {crypto : Nip44Crypto} {b64 : Base64} {url : UrlLib}.
Context {hex_laws : HexLaws} {json_laws : JsonLaws} {sha_laws : Sha256Laws}
        {schnorr_laws : SchnorrLaws} {crypto_laws : Nip44CryptoLaws} {b64_laws : Base64Laws}.

(** C5: a gift wrap made by [create_gift_wrap] from operating-system randomness is
    opened by its recipient, at the time it was made or later, to the rumor that was
    wrapped and a seal by the rumor's author; its outer and inner timestamps lie in the
    two days before its creation. *)
Theorem gift_wrap_roundtrip rumor sk_s sk_r pk_r pers limits tape tape' now later wrap :
  max_content_bytes limits <= max_serialized_bytes limits ->
  0 <= max_future_seconds limits ->
  in_u64 now -> now <= later <= u64_max ->
  event_wf (rumor_unsigned rumor) = true ->
  schnorr_public_key sk_r = Some pk_r ->
  create_gift_wrap rumor sk_s pk_r now pers limits tape = (Ok wrap, tape') ->
  zlen (event_to_json wrap) <= max_serialized_bytes limits ->
  exists seal,
    open_gift_wrap wrap sk_r later limits = Ok {| o_seal := seal; o_rumor := rumor |} /\
    pubkey seal = r_pubkey rumor /\
    saturating_sub now MAX_TIMESTAMP_SKEW_SECONDS <= created_at wrap <= now /\
    saturating_sub now MAX_TIMESTAMP_SKEW_SECONDS <= created_at seal <= now.
Proof using Type*. apply create_then_open. Qed.

(** C4: when [open_gift_wrap] succeeds, the wrapper is a verified event addressed to
    exactly this recipient, the seal is a verified, tagless event, the rumor was read
    from the seal's decrypted content, has the identifier of its own fields, and names
    the key that signed the seal as its author. *)
Theorem open_gift_wrap_authentic wrap sk now limits o :
  open_gift_wrap wrap sk now limits = Ok o ->
  let seal := o_seal o in let rumor := o_rumor o in
  verify wrap now limits = Ok tt /\ verify seal now limits = Ok tt /\
  (exists pk, schnorr_public_key sk = Some pk /\
    p_tags (tags wrap) !! 0%nat ≫= (.!! 1%nat) = Some (hex_encode pk) /\
    length (p_tags (tags wrap)) = 1%nat) /\
  kind seal = SEAL_KIND /\ tags seal = [] /\
  (exists author text, hex_encode author = pubkey seal /\
    decrypt sk author (content seal) = Ok text /\
    json_from_slice (as_bytes text) ≫= rumor_of_value = Some rumor) /\
  Rumor_verify rumor limits = Ok tt /\ r_pubkey rumor = pubkey seal.
Proof using hex_laws. intros H. by apply open_inv. Qed.

(** The rumor of [create_chat_rumor] is a kind-14 event of the sender with one [p]
    tag per recipient, in order, then the reply and the subject; between one and ten
    recipients, all distinct and none the sender; and the rumor verifies. *)
Theorem create_chat_rumor_recipients sk time rs text subject reply limits rumor :
  create_chat_rumor sk time rs text subject reply limits = Ok rumor ->
  1 <= zlen rs <= MAX_CHAT_RECIPIENTS /\
  NoDup (map (hex_encode ∘ public_key) rs) /\
  (exists pk, schnorr_public_key sk = Some pk /\ r_pubkey rumor = hex_encode pk /\
     Forall (fun r => hex_encode (public_key r) <> r_pubkey rumor) rs) /\
  r_kind rumor = CHAT_MESSAGE_KIND /\ r_content rumor = text /\ r_created_at rumor = time /\
  r_tags rumor = map recipient_tag rs ++
    match reply with Some e => [["e"%string; e]] | None => [] end ++
    match subject with Some s => [["subject"%string; s]] | None => [] end /\
  Rumor_verify rumor limits = Ok tt.
Proof using Type. apply create_chat_rumor_inv. Qed.
End Properties.

(** ** Witnesses *)

Definition sample_rumor : Rumor := Eval vm_compute in
  match create_chat_rumor (key_of 5) 100 [{| public_key := key_of 7; relay_hint := Some "wss://r"%string |}]
          "hi" (Some "s"%string) None EventLimits_default with
  | Ok r => r
  | Err _ => {| r_id := ""; r_pubkey := ""; r_created_at := 0; r_kind := 0; r_tags := [];
                r_content := "" |}
  end.

Definition sample_tape : Entropy :=
  Some (be_bytes 8 12345) :: Some (key_of 21) :: Some (key_of 22) :: Some (key_of 0) ::
  Some (key_of 23) :: Some (be_bytes 8 99999) :: Some (key_of 24) :: [Some (key_of 25)].

Definition sample_wrap : SignedEvent := Eval vm_compute in
  match (create_gift_wrap sample_rumor (key_of 5) (key_of 7) 300000 Persistent
           EventLimits_default sample_tape).1 with
  | Ok e => e
  | Err _ => sample_signed ""
  end.

Lemma gift_wrap_roundtrip_witness :
  exists seal,
    open_gift_wrap sample_wrap (key_of 7) 300100 EventLimits_default
      = Ok {| o_seal := seal; o_rumor := sample_rumor |} /\
    pubkey seal = r_pubkey sample_rumor /\
    saturating_sub 300000 MAX_TIMESTAMP_SKEW_SECONDS <= created_at sample_wrap <= 300000 /\
    saturating_sub 300000 MAX_TIMESTAMP_SKEW_SECONDS <= created_at seal <= 300000.
Proof.
  apply (gift_wrap_roundtrip sample_rumor (key_of 5) (key_of 7) (key_of 7) Persistent
    EventLimits_default sample_tape [] 300000 300100); try (vm_compute; reflexivity);
    try (split; vm_compute; discriminate); vm_compute; discriminate.
Defined.

Lemma open_gift_wrap_authentic_witness :
  exists o, open_gift_wrap sample_wrap (key_of 7) 300100 EventLimits_default = Ok o /\
    r_pubkey (o_rumor o) = pubkey (o_seal o).
Proof.
  assert (is_ok (open_gift_wrap sample_wrap (key_of 7) 300100 EventLimits_default) = true) as Hok
    by (vm_compute; reflexivity).
  destruct (open_gift_wrap sample_wrap (key_of 7) 300100 EventLimits_default) as [o|] eqn:E;
    [|discriminate Hok].
  exists o. split; [reflexivity|].
  exact (proj2 (proj2 (proj2 (proj2 (proj2 (proj2 (proj2
    (open_gift_wrap_authentic sample_wrap (key_of 7) 300100 EventLimits_default o E)))))))).
Defined.

Lemma create_chat_rumor_recipients_witness :
  create_chat_rumor (key_of 5) 100 [{| public_key := key_of 7; relay_hint := Some "wss://r"%string |}]
    "hi" (Some "s"%string) None EventLimits_default = Ok sample_rumor /\
  Rumor_verify sample_rumor EventLimits_default = Ok tt.
Proof.
  split; [vm_compute; reflexivity|].
  apply (create_chat_rumor_recipients (key_of 5) 100
    [{| public_key := key_of 7; relay_hint := Some "wss://r"%string |}] "hi"
    (Some "s"%string) None EventLimits_default sample_rumor). vm_compute; reflexivity.
Defined.
