(* ===== verification/Keys.v ===== *)
(** * NIP-19 keys and BIP-340 signatures ([omachat-crypto/src/nostr.rs]) *)

From Stdlib Require Import Strings.Byte Ascii String.
From S2P Require Import Prelude RustStd Libs Concrete.
Local Open Scope Z_scope.

Inductive NostrIdentityError :=
| NRandom | NInvalidSecret | NInvalidPublicKey | NInvalidSignature | NSign | NBech32.

#[export] Instance NostrIdentityError_eq_dec : EqDecision NostrIdentityError.
Proof. solve_decision. Defined.

Record NostrSecret := { secret : bytes }.

Section Keys.
Context {hex : Hex} {schnorr : Schnorr} {bech : Bech32}.

(** [NostrSecret::from_bytes] *)
Definition NostrSecret_from_bytes (key : bytes) : result NostrIdentityError NostrSecret :=
  let? _ := ok_or NInvalidSecret (schnorr_public_key key) in
  Ok {| secret := key |}.

(** [NostrSecret::generate] *)
Definition NostrSecret_generate : SE Entropy NostrIdentityError NostrSecret :=
  let! key := getrandom_fill NRandom 32 in
  se_ret (NostrSecret_from_bytes key).

(** [encode_key]: both hrp texts of the program parse as an [Hrp]. *)
Definition encode_key (hrp_text : string) (key : bytes) : result NostrIdentityError string :=
  ok_or NBech32 (bech32_encode hrp_text key).

(** [decode_key]: the copy loop fails past 32 bytes and the final test below 32. *)
Definition decode_bech32_key (encoded expected_hrp : string) : result NostrIdentityError bytes :=
  fail_if (90 <? slen encoded) || existsb is_whitespace (chars encoded) with NBech32 ;;
  let? (hrp, payload) := ok_or NBech32 (bech32_decode encoded) in
  fail_if negb (String.eqb hrp expected_hrp) with NBech32 ;;
  fail_if 32 <? zlen payload with NBech32 ;;
  fail_if negb (zlen payload =? 32) with NBech32 ;;
  Ok payload.

(** [NostrSecret::from_nsec] *)
Definition NostrSecret_from_nsec (nsec : string) : result NostrIdentityError NostrSecret :=
  let? b := decode_bech32_key nsec "nsec" in
  NostrSecret_from_bytes b.

Definition npub_from_public_key (public_key : bytes) : result NostrIdentityError string :=
  encode_key "npub" public_key.
Definition public_key_from_npub (npub : string) : result NostrIdentityError bytes :=
  decode_bech32_key npub "npub".

(** [NostrSecret::public_key]; [None] is the panic of [expect]. *)
Definition NostrSecret_public_key (s : NostrSecret) : option bytes :=
  schnorr_public_key (secret s).
(** [NostrSecret::npub] and [nsec]; [None] is the panic of [expect]. *)
Definition NostrSecret_npub (s : NostrSecret) : option string :=
  pk ← NostrSecret_public_key s; result_ok (npub_from_public_key pk).
Definition NostrSecret_nsec (s : NostrSecret) : option string :=
  result_ok (encode_key "nsec" (secret s)).

(** [NostrSecret::sign] *)
Definition NostrSecret_sign (s : NostrSecret) (msg : bytes) : SE Entropy NostrIdentityError bytes :=
  let! _ := se_ret (ok_or NInvalidSecret (schnorr_public_key (secret s))) in
  let! aux := getrandom_fill NRandom 32 in
  se_ret (ok_or NSign (schnorr_sign (secret s) msg aux)).

Definition verify_nostr (public_key msg signature : bytes) : result NostrIdentityError unit :=
  fail_if negb (schnorr_key_ok public_key) with NInvalidPublicKey ;;
  fail_if negb (schnorr_signature_ok signature) with NInvalidSignature ;;
  fail_if negb (schnorr_verify public_key msg signature) with NInvalidSignature ;;
  Ok tt.
End Keys.

Section KeysFacts.
Context {hex : Hex} {schnorr : Schnorr} {bech : Bech32}.
Context {schnorr_laws : SchnorrLaws} {bech_laws : Bech32Laws}.

Lemma printable_no_whitespace s :
  bytes_all (fun b => in_range 33 126 (byte_val b)) s = true ->
  existsb is_whitespace (chars s) = false.
Proof using Type.
  intros H. unfold chars. rewrite utf8_decode_ascii; cbn [default].
  - apply not_true_is_false. intros (c & Hc & Hw)%existsb_exists.
    apply in_map_iff in Hc as (b & <- & Hb). unfold bytes_all in H.
    eapply forallb_forall in H; [|exact Hb]. cbv beta in H.
    unfold is_whitespace, in_range in *. lia.
  - eapply forallb_impl; [|exact H]. intros b. unfold in_range. lia.
Qed.

Lemma encode_decode_key hrp key :
  bytes_all is_ascii_lowercase hrp = true -> 1 <= slen hrp <= 16 -> zlen key = 32 ->
  exists s, encode_key hrp key = Ok s /\ decode_bech32_key s hrp = Ok key.
Proof using bech_laws.
  intros Hl Hh Hk. destruct (bech32_roundtrip hrp key Hl Hh) as (s & He & Hd & Hs & Hp); [lia|].
  exists s. unfold encode_key, decode_bech32_key. rewrite He. split; [done|].
  rewrite (proj2 (Z.ltb_ge _ _)), (printable_no_whitespace s Hp), Hd by done. cbn.
  rewrite String.eqb_refl, Hk. done.
Qed.

Lemma encode_npub_ok key : zlen key = 32 ->
  exists s, npub_from_public_key key = Ok s /\ public_key_from_npub s = Ok key.
Proof using bech_laws. intros Hk. by apply encode_decode_key. Qed.

Lemma verify_nostr_ok pk msg sig :
  verify_nostr pk msg sig = Ok tt <->
  schnorr_key_ok pk = true /\ schnorr_signature_ok sig = true /\ schnorr_verify pk msg sig = true.
Proof using Type.
  unfold verify_nostr. destruct (schnorr_key_ok pk), (schnorr_signature_ok sig),
    (schnorr_verify pk msg sig); simpl; intuition discriminate.
Qed.
End KeysFacts.

(** ** Properties *)

Section Properties.
Context {hex : Hex} {schnorr : Schnorr} {bech : Bech32}.
Context {schnorr_laws : SchnorrLaws} {bech_laws : Bech32Laws}.

(** A secret key accepted by [from_bytes] never reaches a panic of [npub], [nsec] or
    [public_key]; its nsec imports to the same secret, its npub decodes to its public
    key, and what it signs with operating-system randomness verifies under that key. *)
Theorem nostr_secret_roundtrip key s msg tape sig tape' :
  zlen key = 32 -> NostrSecret_from_bytes key = Ok s ->
  NostrSecret_sign s msg tape = (Ok sig, tape') ->
  exists nsec npub pk, NostrSecret_nsec s = Some nsec /\ NostrSecret_from_nsec nsec = Ok s /\
    NostrSecret_npub s = Some npub /\ NostrSecret_public_key s = Some pk /\
    public_key_from_npub npub = Ok pk /\ verify_nostr pk msg sig = Ok tt.
Proof using schnorr_laws bech_laws.
  unfold NostrSecret_from_bytes, NostrSecret_sign. intros Hk Hs Hsig. inv_ok.
  unfold se_ret in *. cbn [secret] in *.
  destruct (encode_decode_key "nsec" key) as (nsec & He & Hd); [done.. |].
  destruct (encode_npub_ok a) as (npub & Hn & Hp); [by eapply schnorr_public_key_length|].
  exists nsec, npub, a. unfold NostrSecret_nsec, NostrSecret_from_nsec, NostrSecret_npub,
    NostrSecret_public_key, NostrSecret_from_bytes. cbn [secret].
  rewrite He, Hd, Ha. cbn. rewrite Hn, Ha. cbn. split_and!; try done.
  apply verify_nostr_ok. simplify_eq. inv_ok.
  match goal with G : schnorr_sign _ _ _ = Some _ |- _ =>
    destruct (schnorr_sign_correct _ _ _ _ _ Ha G) as (_ & ? & ?) end.
  eauto using schnorr_public_key_ok.
Qed.
End Properties.

Lemma nostr_secret_roundtrip_witness :
  exists nsec npub pk, NostrSecret_nsec {| secret := key_of 9 |} = Some nsec /\
    NostrSecret_from_nsec nsec = Ok {| secret := key_of 9 |} /\
    NostrSecret_npub {| secret := key_of 9 |} = Some npub /\
    NostrSecret_public_key {| secret := key_of 9 |} = Some pk /\
    public_key_from_npub npub = Ok pk /\
    verify_nostr pk (key_of 4) (key_of 9 ++ sha256 (key_of 4)) = Ok tt.
Proof.
  apply (nostr_secret_roundtrip (key_of 9) {| secret := key_of 9 |} (key_of 4) [Some (key_of 1)]
    (key_of 9 ++ sha256 (key_of 4)) []); vm_compute; reflexivity.
Defined.
