(* ===== verification/Dedup.v ===== *)
(** * Bounded duplicate suppression

    [DmInbox::remember] ([omachat-nostr/src/dm_inbox.rs]) and [RelayPool::remember_event]
    ([pool.rs]) keep the same structure: a set of identifiers, and a queue of the same
    identifiers with the times they were seen. Both loops run over the queue. *)

From Stdlib Require Import Strings.Byte Ascii String.
From S2P Require Import Prelude RustStd.
Local Open Scope Z_scope.

Record Dedup := { seen : gset string; seen_order : list (Z * string) }.

Definition Dedup_new : Dedup := {| seen := ∅; seen_order := [] |}.

(** The first loop: drop the front while it is older than the time to live. *)
Fixpoint expire (ttl now : Z) (s : gset string) (order : list (Z * string)) : Dedup :=
  match order with
  | (seen_at, oldest) :: rest =>
      if saturating_sub now seen_at <? ttl then {| seen := s; seen_order := order |}
      else expire ttl now (s ∖ {[oldest]}) rest
  | [] => {| seen := s; seen_order := [] |}
  end.

(** The second loop: drop the front while the set is at capacity. *)
Fixpoint evict (capacity : Z) (s : gset string) (order : list (Z * string)) : Dedup :=
  if capacity <=? Z.of_nat (size s) then
    match order with
    | (_, oldest) :: rest => evict capacity (s ∖ {[oldest]}) rest
    | [] => {| seen := s; seen_order := [] |}
    end
  else {| seen := s; seen_order := order |}.

Definition remember (capacity ttl : Z) (event_id : string) (now : Z) (d : Dedup) : bool * Dedup :=
  let d := expire ttl now (seen d) (seen_order d) in
  if bool_decide (event_id ∈ seen d) then (false, d)
  else
    let d := evict capacity (seen d) (seen_order d) in
    (true, {| seen := {[event_id]} ∪ seen d; seen_order := seen_order d ++ [(now, event_id)] |}).

(** ** The abstract window

    The structure promises a window: a list of identifiers with their times, oldest
    first, without repetitions. The set is only an index of it. *)

Abbreviation window := (list (Z * string)).

Fixpoint drop_expired (ttl now : Z) (w : window) : window :=
  match w with
  | (t, x) :: rest => if saturating_sub now t <? ttl then w else drop_expired ttl now rest
  | [] => []
  end.

Definition window_remember (capacity ttl : Z) (x : string) (now : Z) (w : window) : bool * window :=
  let w := drop_expired ttl now w in
  if bool_decide (x ∈ w.*2) then (false, w)
  else (true, drop (length w - (Z.to_nat capacity - 1)) w ++ [(now, x)]).

(** The concrete structure and the window it stands for. *)
Record represents (capacity : Z) (d : Dedup) (w : window) : Prop := {
  rep_order : seen_order d = w;
  rep_seen : seen d = list_to_set w.*2;
  rep_nodup : NoDup w.*2;
  rep_bound : zlen w <= capacity
}.

Lemma represents_tail (t : Z) (x : string) (w : window) :
  NoDup ((t, x) :: w).*2 ->
  (list_to_set ((t, x) :: w).*2 ∖ {[x]} : gset string) = list_to_set w.*2.
Proof.
  rewrite fmap_cons, list_to_set_cons. cbn [snd]. intros [Hx _]%NoDup_cons.
  apply set_eq. intros y. rewrite elem_of_difference, elem_of_union, elem_of_singleton,
    !elem_of_list_to_set. split; [by intros [[-> | ?] ?]|]. intros Hy. split; [by right|]. by intros ->.
Qed.

Lemma size_window (w : window) : NoDup w.*2 -> size (list_to_set w.*2 : gset string) = length w.
Proof. intros Hn. by rewrite size_list_to_set, length_fmap. Qed.

Lemma expire_spec ttl now w :
  NoDup w.*2 ->
  expire ttl now (list_to_set w.*2) w =
  {| seen := list_to_set (drop_expired ttl now w).*2; seen_order := drop_expired ttl now w |}.
Proof.
  induction w as [|[t x] w IH]; intros Hn; [done|]. cbn [expire drop_expired].
  case_match; [done|]. rewrite represents_tail by done. apply IH. by apply NoDup_cons in Hn as [_ ?].
Qed.

Lemma drop_expired_suffix ttl now w : exists k, w = k ++ drop_expired ttl now w.
Proof.
  induction w as [|[t x] w [k IH]]; [by exists []|]. simpl. case_match; [by exists []|].
  exists ((t, x) :: k). simpl. by f_equal.
Qed.

Lemma suffix_nodup (k w : window) : NoDup (k ++ w).*2 -> NoDup w.*2.
Proof. rewrite fmap_app, NoDup_app. tauto. Qed.

Lemma evict_spec capacity w :
  1 <= capacity -> NoDup w.*2 ->
  let w' := drop (length w - (Z.to_nat capacity - 1)) w in
  evict capacity (list_to_set w.*2) w = {| seen := list_to_set w'.*2; seen_order := w' |}.
Proof.
  intros Hc. induction w as [|[t x] w IH]; intros Hn; cbn zeta.
  - simpl. by case_match.
  - cbn [evict]. rewrite size_window by done. cbn [length].
    destruct (capacity <=? Z.of_nat (S (length w))) eqn:E; split_bools.
    + rewrite represents_tail by done. rewrite IH by (by apply NoDup_cons in Hn as [_ ?]).
      replace (S (length w) - (Z.to_nat capacity - 1))%nat
        with (S (length w - (Z.to_nat capacity - 1))) by lia. done.
    + replace (S (length w) - (Z.to_nat capacity - 1))%nat with 0%nat by lia. done.
Qed.

(** The implementation refines the window. *)
Lemma remember_refines capacity ttl x now d w :
  1 <= capacity -> represents capacity d w ->
  let '(b, d') := remember capacity ttl x now d in
  let '(b', w') := window_remember capacity ttl x now w in
  b = b' /\ represents capacity d' w'.
Proof.
  intros Hc [Ho Hs Hn Hb]. unfold remember, window_remember. rewrite Ho, Hs, expire_spec by done.
  destruct (drop_expired_suffix ttl now w) as [k Hk]. set (w1 := drop_expired ttl now w) in *.
  assert (NoDup w1.*2) as Hn1 by (rewrite Hk in Hn; by eapply suffix_nodup).
  assert (zlen w1 <= capacity) as Hb1.
  { rewrite Hk, zlen_app in Hb. pose proof (zlen_nonneg k). lia. }
  cbn [seen seen_order]. rewrite (bool_decide_ext (x ∈ (list_to_set w1.*2 : gset string)) (x ∈ w1.*2))
    by apply elem_of_list_to_set.
  case_bool_decide as Hx; [done|]. rewrite evict_spec by done. cbn [seen seen_order].
  set (w2 := drop (length w1 - (Z.to_nat capacity - 1)) w1).
  assert (w1 = take (length w1 - (Z.to_nat capacity - 1)) w1 ++ w2) as Hsplit
    by (symmetry; apply take_drop).
  assert (NoDup w2.*2) as Hn2 by (rewrite Hsplit in Hn1; by eapply suffix_nodup).
  assert (x ∉ w2.*2) as Hx2.
  { intros Hin. apply Hx. rewrite Hsplit, fmap_app. apply elem_of_app. by right. }
  split; [done|]. split; cbn [seen seen_order].
  - done.
  - rewrite fmap_app, list_to_set_app_L. simpl. rewrite union_empty_r_L. apply union_comm_L.
  - rewrite fmap_app. simpl. by apply NoDup_snoc.
  - rewrite zlen_app. unfold w2, zlen. rewrite length_drop. simpl. unfold zlen in Hb1. lia.
Qed.

Lemma represents_new capacity : 0 <= capacity -> represents capacity Dedup_new [].
Proof. intros Hc. split; [done | done | constructor | done]. Qed.

(** ** Nothing is delivered twice inside the window *)

(** A sequence of calls, and the last state. *)
Definition window_run (capacity ttl : Z) (calls : list (string * Z)) (w : window) : window :=
  fold_left (fun w c => (window_remember capacity ttl c.1 c.2 w).2) calls w.
Definition remember_run (capacity ttl : Z) (calls : list (string * Z)) (d : Dedup) : Dedup :=
  fold_left (fun d c => (remember capacity ttl c.1 c.2 d).2) calls d.

Lemma run_refines capacity ttl calls d w :
  1 <= capacity -> represents capacity d w ->
  represents capacity (remember_run capacity ttl calls d) (window_run capacity ttl calls w).
Proof.
  intros Hc. revert d w. induction calls as [|[x t] calls IH]; intros d w Hr; [done|].
  apply IH. pose proof (remember_refines capacity ttl x t d w Hc Hr) as H. simpl.
  destruct (remember capacity ttl x t d), (window_remember capacity ttl x t w). apply H.
Qed.

(** An entry that is still live, with at most [n] entries after it. *)
Definition live (x : string) (t : Z) (n : nat) (w : window) : Prop :=
  exists k l, w = k ++ (t, x) :: l /\ (length l <= n)%nat.

Lemma drop_expired_live ttl now x t n w :
  saturating_sub now t < ttl -> live x t n w -> live x t n (drop_expired ttl now w).
Proof.
  intros Ht (k & l & -> & Hl). induction k as [|[t' x'] k IH].
  - simpl. rewrite (proj2 (Z.ltb_lt _ _)) by done. by exists [], l.
  - simpl. case_match; [by exists ((t', x') :: k), l | exact IH].
Qed.

Lemma window_remember_live capacity ttl y now x t n w :
  saturating_sub now t < ttl -> Z.of_nat n + 2 <= capacity -> live x t n w ->
  live x t (S n) (window_remember capacity ttl y now w).2.
Proof.
  intros Ht Hn Hl. apply (drop_expired_live ttl now) in Hl; [|done]. unfold window_remember.
  destruct Hl as (k & l & Hw & Hl). rewrite Hw. case_bool_decide; simpl.
  - exists k, l. split; [done | lia].
  - rewrite length_app. simpl.
    assert (length k + S (length l) - (Z.to_nat capacity - 1) <= length k)%nat as Hd by lia.
    rewrite drop_app_le by done. eexists _, (l ++ [(now, y)]).
    split; [by rewrite <- app_assoc | rewrite length_app; simpl; lia].
Qed.

Lemma window_run_live capacity ttl calls x t n w :
  Forall (fun c => saturating_sub c.2 t < ttl) calls ->
  Z.of_nat n + zlen calls + 1 <= capacity -> live x t n w ->
  live x t (n + length calls) (window_run capacity ttl calls w).
Proof.
  revert n w. induction calls as [|[y now] calls IH]; intros n w Hc Hcap Hl.
  - by rewrite Nat.add_0_r.
  - apply Forall_cons in Hc as [Hc1 Hc2]. unfold zlen in *. cbn [length] in *.
    replace (n + S (length calls))%nat with (S n + length calls)%nat by lia.
    apply IH; [done | lia|]. apply window_remember_live; [done | lia | done].
Qed.

Lemma window_remember_fresh capacity ttl x now w w' :
  window_remember capacity ttl x now w = (true, w') -> live x now 0 w'.
Proof.
  unfold window_remember. case_bool_decide; [done|]. intros [= <-]. eexists _, []. done.
Qed.

Lemma window_live_rejects capacity ttl x t n now w :
  saturating_sub now t < ttl -> live x t n w -> (window_remember capacity ttl x now w).1 = false.
Proof.
  intros Ht Hl. apply (drop_expired_live ttl now) in Hl as (k & l & Hw & _); [|done].
  unfold window_remember. rewrite Hw, bool_decide_true; [done|].
  rewrite fmap_app, elem_of_app. right. left.
Qed.

Lemma remember_true_seen capacity ttl x now d d' :
  remember capacity ttl x now d = (true, d') -> x ∈ seen d'.
Proof.
  unfold remember. case_bool_decide; [done|]. intros [= <-]. cbn [seen].
  apply elem_of_union_l, elem_of_singleton. done.
Qed.

Lemma accepted_once capacity ttl x t1 d d1 w calls t2 :
  represents capacity d w -> 1 <= capacity ->
  remember capacity ttl x t1 d = (true, d1) ->
  zlen calls < capacity ->
  Forall (fun c => saturating_sub c.2 t1 < ttl) calls -> saturating_sub t2 t1 < ttl ->
  (remember capacity ttl x t2 (remember_run capacity ttl calls d1)).1 = false.
Proof.
  intros Hr Hc H1 Hlen Hcalls Ht2.
  pose proof (remember_refines capacity ttl x t1 d w Hc Hr) as Href. rewrite H1 in Href.
  destruct (window_remember capacity ttl x t1 w) as [b w1] eqn:E. destruct Href as [<- Hr1].
  pose proof (window_remember_fresh _ _ _ _ _ _ E) as Hl.
  apply (window_run_live capacity ttl calls) in Hl; [|done | lia].
  pose proof (run_refines capacity ttl calls d1 w1 Hc Hr1) as Hr2.
  pose proof (remember_refines capacity ttl x t2 _ _ Hc Hr2) as Href.
  destruct (remember capacity ttl x t2 _) as [b2 d2].
  pose proof (window_live_rejects capacity ttl x t1 _ t2 _ Ht2 Hl) as Hf.
  destruct (window_remember capacity ttl x t2 _) as [b3 w3]. destruct Href as [-> _]. exact Hf.
Qed.

(** ** Properties *)

(** C22: the set and queue refine the abstract window: [remember] gives the window's
    answer, the set stays exactly the identifiers of the queue, and never holds more than
    the capacity. *)
Theorem remember_refines_window capacity ttl x now d w :
  1 <= capacity -> represents capacity d w ->
  let '(b, d') := remember capacity ttl x now d in
  let '(b', w') := window_remember capacity ttl x now w in
  b = b' /\ represents capacity d' w'.
Proof. apply remember_refines. Qed.

(** An identifier accepted once is not accepted again while its time to live runs and
    fewer than [capacity] other calls are made, in whatever order times are reported. *)
Theorem remember_at_most_once capacity ttl x t1 d d1 w calls t2 :
  represents capacity d w -> 1 <= capacity ->
  remember capacity ttl x t1 d = (true, d1) ->
  zlen calls < capacity ->
  Forall (fun c => saturating_sub c.2 t1 < ttl) calls -> saturating_sub t2 t1 < ttl ->
  (remember capacity ttl x t2 (remember_run capacity ttl calls d1)).1 = false.
Proof. apply accepted_once. Qed.

Lemma remember_refines_window_witness :
  represents 2 (remember 2 10 "a" 5 Dedup_new).2 (window_remember 2 10 "a" 5 []).2.
Proof.
  pose proof (remember_refines_window 2 10 "a" 5 Dedup_new [] ltac:(lia) (represents_new 2 ltac:(lia))) as H.
  destruct (remember 2 10 "a" 5 Dedup_new), (window_remember 2 10 "a" 5 []). exact (proj2 H).
Defined.

Lemma remember_at_most_once_witness :
  (remember 2 10 "a" 9 (remember_run 2 10 [("b"%string, 7)] (remember 2 10 "a" 5 Dedup_new).2)).1 = false.
Proof.
  eapply (remember_at_most_once 2 10 "a" 5 Dedup_new);
    [apply represents_new; lia | lia | vm_compute; reflexivity | reflexivity
    | repeat constructor | reflexivity].
Defined.
