(* ===== verification/DmInbox.v ===== *)
(** * The direct-message inbox ([omachat-nostr/src/dm_inbox.rs])

    Gift wraps from relays are opened, deduplicated and filtered by author. *)

From Stdlib Require Import Strings.Byte Ascii String.
From S2P Require Import Prelude RustStd Libs Serde Concrete Nip44 Event GiftWrap Dedup.
Local Open Scope Z_scope.

Definition DEFAULT_DM_LOOKBACK_SECONDS : Z := 30 * 24 * 60 * 60.
Definition DEFAULT_DM_FETCH_LIMIT : Z := 500.

Record DmInboxConfig := {
  lookback_seconds : Z;
  fetch_limit : Z;
  dedup_capacity : Z;
  dedup_ttl_seconds : Z;
  event_limits : EventLimits
}.

Definition DmInboxConfig_default : DmInboxConfig := {|
  lookback_seconds := DEFAULT_DM_LOOKBACK_SECONDS;
  fetch_limit := DEFAULT_DM_FETCH_LIMIT;
  dedup_capacity := 10000;
  dedup_ttl_seconds := DEFAULT_DM_LOOKBACK_SECONDS;
  event_limits := EventLimits_default
|}.

Record DmMessageMetadata := {
  md_gift_wrap_id : string;
  md_seal_id : string;
  md_rumor_id : string;
  md_author_pubkey : string;
  md_created_at : Z
}.

Record DmMessage := { metadata : DmMessageMetadata; m_tags : list Tag; m_content : string }.

Inductive DmInboxReceive :=
| Message (m : DmMessage)
| Blocked (m : DmMessageMetadata)
| Duplicate (gift_wrap_id : string).

Inductive DmInboxError :=
| IInvalidConfig
| IInvalidPublicKey
| IInvalidSecretKey
| IWrongRecipient
| IUnexpectedGiftWrapKind (actual : Z)
| IUnexpectedRumorKind (actual : Z)
| IGiftWrap (e : GiftWrapError).

(** [seen] and [seen_order] are one [Dedup]. *)
Record DmInbox := {
  config : DmInboxConfig;
  blocked_authors : gset string;
  dedup : Dedup
}.

Section Inbox.
Context {hex : Hex} {json : Json} {sha : Sha256} {schnorr : Schnorr}.
Context {crypto : Nip44Crypto} {b64 : Base64}.

Definition DmInbox_new (c : DmInboxConfig) : result DmInboxError DmInbox :=
  fail_if (lookback_seconds c =? 0) || (fetch_limit c =? 0) || (dedup_capacity c =? 0)
    || (dedup_ttl_seconds c =? 0) with IInvalidConfig ;;
  Ok {| config := c; blocked_authors := ∅; dedup := Dedup_new |}.

Definition validate_xonly (value : string) : result DmInboxError unit :=
  if (slen value =? 64) && is_lower_hex value then Ok tt else Err IInvalidPublicKey.

Definition subscription_filter (i : DmInbox) (recipient : string) (now : Z)
  : result DmInboxError Value :=
  let? _ := validate_xonly recipient in
  Ok (JObject [("#p", JArray [JString recipient]);
               ("kinds", JArray [JInt GIFT_WRAP_KIND]);
               ("limit", JInt (fetch_limit (config i)));
               ("since", JInt (saturating_sub now (lookback_seconds (config i))))]%string).

Definition with_blocked (s : gset string) (i : DmInbox) : DmInbox :=
  {| config := config i; blocked_authors := s; dedup := dedup i |}.

Definition block_author (author : string) : SE DmInbox DmInboxError unit := fun i =>
  match validate_xonly author with
  | Ok _ => (Ok tt, with_blocked ({[author]} ∪ blocked_authors i) i)
  | Err e => (Err e, i)
  end.
Definition unblock_author (author : string) : SE DmInbox DmInboxError unit := fun i =>
  match validate_xonly author with
  | Ok _ => (Ok tt, with_blocked (blocked_authors i ∖ {[author]}) i)
  | Err e => (Err e, i)
  end.

Definition require_exact_outer_recipient (gift_wrap : SignedEvent) (recipient_hex : string)
  : result DmInboxError unit :=
  let recipients := omap (fun tag : Tag => tag !! 1%nat) (p_tags (tags gift_wrap)) in
  if bool_decide (recipients = [recipient_hex]) then Ok tt else Err IWrongRecipient.

Definition apply_author_policy (i : DmInbox) (gift_wrap : SignedEvent) (opened : OpenedGiftWrap)
  : DmInboxReceive :=
  let md := {| md_gift_wrap_id := id gift_wrap; md_seal_id := id (o_seal opened);
               md_rumor_id := r_id (o_rumor opened);
               md_author_pubkey := r_pubkey (o_rumor opened);
               md_created_at := r_created_at (o_rumor opened) |} in
  if bool_decide (r_pubkey (o_rumor opened) ∈ blocked_authors i) then Blocked md
  else Message {| metadata := md; m_tags := r_tags (o_rumor opened);
                  m_content := r_content (o_rumor opened) |}.

(** The checks of [receive] before it remembers the wrapper. *)
Definition open_message (i : DmInbox) (gift_wrap : SignedEvent) (recipient_secret_key : bytes) (now : Z)
  : result DmInboxError OpenedGiftWrap :=
  fail_if negb (kind gift_wrap =? GIFT_WRAP_KIND) with IUnexpectedGiftWrapKind (kind gift_wrap) ;;
  let? pk := map_err (fun _ => IInvalidSecretKey) (xonly_public_key recipient_secret_key) in
  let? _ := require_exact_outer_recipient gift_wrap (hex_encode pk) in
  let? opened := map_err IGiftWrap
    (open_gift_wrap gift_wrap recipient_secret_key now (event_limits (config i))) in
  fail_if negb (r_kind (o_rumor opened) =? CHAT_MESSAGE_KIND)
    with IUnexpectedRumorKind (r_kind (o_rumor opened)) ;;
  Ok opened.

Definition receive (gift_wrap : SignedEvent) (recipient_secret_key : bytes) (now : Z)
  : SE DmInbox DmInboxError DmInboxReceive := fun i =>
  match open_message i gift_wrap recipient_secret_key now with
  | Err e => (Err e, i)
  | Ok opened =>
      let '(fresh, d) := remember (dedup_capacity (config i)) (dedup_ttl_seconds (config i))
                           (id gift_wrap) now (dedup i) in
      let i := {| config := config i; blocked_authors := blocked_authors i; dedup := d |} in
      if fresh then (Ok (apply_author_policy i gift_wrap opened), i)
      else (Ok (Duplicate (id gift_wrap)), i)
  end.

(** A run of deliveries: wrappers and the times they arrive. *)
Definition receive_run (sk : bytes) (deliveries : list (SignedEvent * Z)) (i : DmInbox) : DmInbox :=
  fold_left (fun i w => (receive w.1 sk w.2 i).2) deliveries i.
End Inbox.

Section InboxFacts.
Context {hex : Hex} {json : Json} {sha : Sha256} {schnorr : Schnorr}.
Context {crypto : Nip44Crypto} {b64 : Base64} {hex_laws : HexLaws}.

(** The invariant of an inbox: its configuration was accepted, and its set and queue
    stand for a window. *)
Definition inbox_ok (i : DmInbox) : Prop :=
  1 <= dedup_capacity (config i) /\ exists w, represents (dedup_capacity (config i)) (dedup i) w.

(** [receive] moves the deduplication state by at most one [remember] call. *)
Lemma receive_dedup w sk now i :
  exists calls, (length calls <= 1)%nat /\ Forall (fun c => c.2 = now) calls /\
    config (receive w sk now i).2 = config i /\
    dedup (receive w sk now i).2 =
      remember_run (dedup_capacity (config i)) (dedup_ttl_seconds (config i)) calls (dedup i).
Proof using Type.
  unfold receive. destruct (open_message i w sk now).
  - exists [(id w, now)]. simpl. destruct (remember _ _ _ _ _) as [[] d] eqn:E; simpl;
      rewrite ?E; repeat split; repeat constructor.
  - exists []. simpl. repeat split; auto.
Qed.

Lemma receive_run_dedup sk ds i :
  exists calls, (length calls <= length ds)%nat /\ Forall (fun c => c.2 ∈ ds.*2) calls /\
    config (receive_run sk ds i) = config i /\
    dedup (receive_run sk ds i) =
      remember_run (dedup_capacity (config i)) (dedup_ttl_seconds (config i)) calls (dedup i).
Proof using Type.
  revert i. induction ds as [|[w now] ds IH]; intros i; [exists []; repeat split; auto|].
  destruct (receive_dedup w sk now i) as (c1 & L1 & F1 & C1 & D1).
  destruct (IH (receive w sk now i).2) as (c2 & L2 & F2 & C2 & D2).
  exists (c1 ++ c2). rewrite length_app. unfold receive_run in *. cbn [fold_left fst snd length] in *.
  split; [lia|]. split; [|split; [congruence|]].
  - apply Forall_app. split.
    + eapply Forall_impl; [exact F1|]. intros [x t] ->. left.
    + eapply Forall_impl; [exact F2|]. intros c Hc. by right.
  - rewrite D2, C1, D1. unfold remember_run. by rewrite fold_left_app.
Qed.

Lemma receive_keeps_ok w sk now i : inbox_ok i -> inbox_ok (receive w sk now i).2.
Proof using Type.
  intros (Hc & win & Hr). destruct (receive_dedup w sk now i) as (calls & _ & _ & C1 & D1).
  split; rewrite C1; [done|]. rewrite D1. eexists. by apply run_refines.
Qed.

Lemma receive_message w sk now i m i' :
  receive w sk now i = (Ok (Message m), i') ->
  exists opened, open_message i w sk now = Ok opened /\
    remember (dedup_capacity (config i)) (dedup_ttl_seconds (config i)) (id w) now (dedup i)
      = (true, dedup i') /\ config i' = config i /\ blocked_authors i' = blocked_authors i /\
    apply_author_policy i' w opened = Message m.
Proof using Type.
  unfold receive. destruct (open_message i w sk now) as [opened|]; [|done].
  destruct (remember _ _ _ _ _) as [[] d] eqn:E; [|done]. intros [= Hp <-].
  exists opened. done.
Qed.
End InboxFacts.

(** ** Properties *)

Section Properties.
Context {hex : Hex} {json : Json} {sha : Sha256} {schnorr : Schnorr}.
Context {crypto : Nip44Crypto} {b64 : Base64} {hex_laws : HexLaws}.

(** A delivered message is the content of a verified gift wrap for this recipient,
    written by the author who signed its seal, of chat kind, and by nobody who is
    blocked; the inbox keeps its invariant. *)
Theorem received_message_authentic w sk now i m i' :
  inbox_ok i -> receive w sk now i = (Ok (Message m), i') ->
  exists seal rumor,
    open_gift_wrap w sk now (event_limits (config i)) = Ok {| o_seal := seal; o_rumor := rumor |} /\
    verify seal now (event_limits (config i)) = Ok tt /\
    pubkey seal = md_author_pubkey (metadata m) /\
    (md_author_pubkey (metadata m) ∉ blocked_authors i) /\
    r_kind rumor = CHAT_MESSAGE_KIND /\ r_content rumor = m_content m /\ r_tags rumor = m_tags m /\
    inbox_ok i'.
Proof using hex_laws.
  intros Hi H. pose proof (receive_keeps_ok w sk now i Hi) as Hi'. rewrite H in Hi'.
  apply receive_message in H as (opened & Ho & _ & Hc & Hb & Hp).
  unfold open_message in Ho. inv_ok. split_bools. destruct opened as [seal rumor].
  destruct (open_inv _ _ _ _ _ Ha1) as (_ & Hs & _ & _ & _ & _ & _ & Hpk).
  unfold apply_author_policy in Hp. rewrite Hb in Hp. cbn [o_seal o_rumor] in *.
  case_bool_decide as Hn; [done|]. injection Hp as <-. exists seal, rumor. cbn. by rewrite Hpk in *.
Qed.

(** C8: the same gift wrap is delivered at most once: after a message, however many other
    wrappers arrive (fewer than the capacity), receiving the wrapper again within the time
    to live never yields a message. *)
Theorem message_delivered_once w sk t1 i m i1 deliveries t2 m2 i2 :
  inbox_ok i -> receive w sk t1 i = (Ok (Message m), i1) ->
  zlen deliveries < dedup_capacity (config i) ->
  Forall (fun t => saturating_sub t t1 < dedup_ttl_seconds (config i)) (t2 :: deliveries.*2) ->
  receive w sk t2 (receive_run sk deliveries i1) <> (Ok (Message m2), i2).
Proof using Type.
  intros (Hc & win & Hr) H1 Hlen Ht H2. apply Forall_cons in Ht as [Ht2 Ht].
  apply receive_message in H1 as (_ & _ & R1 & C1 & _ & _).
  apply receive_message in H2 as (_ & _ & R2 & _).
  destruct (receive_run_dedup sk deliveries i1) as (calls & L & F & C & D).
  rewrite C, C1, D, C1 in R2.
  pose proof (accepted_once _ _ _ _ _ _ _ calls t2 Hr Hc R1) as Hno. rewrite R2 in Hno.
  discriminate Hno; [unfold zlen in *; lia | | done].
  eapply Forall_impl; [exact F|]. intros c Hc'. by eapply Forall_forall in Hc'; [|exact Ht].
Qed.

(** [receive] changes nothing when it fails, and a blocked author's wrapper is
    remembered but never delivered. *)
Theorem receive_blocks w sk now i r i' :
  receive w sk now i = (r, i') ->
  (match r with
  | Err _ => i' = i
  | Ok (Message m) => md_author_pubkey (metadata m) ∉ blocked_authors i
  | Ok (Blocked md) => md_author_pubkey md ∈ blocked_authors i /\ id w ∈ seen (dedup i')
  | Ok (Duplicate x) => x = id w
  end) /\ config i' = config i /\ blocked_authors i' = blocked_authors i.
Proof using Type.
  unfold receive. destruct (open_message i w sk now) as [opened|]; [|by intros [= <- <-]].
  destruct (remember _ _ _ _ _) as [[] d] eqn:E; [|by intros [= <- <-]].
  unfold apply_author_policy. cbn [blocked_authors]. case_bool_decide as Hb; intros [= <- <-]; [|done].
  split; [|done]. split; [done|]. cbn [dedup]. by apply remember_true_seen in E.
Qed.
End Properties.

(** ** Witnesses *)

Definition sample_inbox : DmInbox :=
  {| config := DmInboxConfig_default; blocked_authors := ∅; dedup := Dedup_new |}.

Lemma sample_inbox_ok : inbox_ok sample_inbox.
Proof. split; [discriminate|]. exists []. apply represents_new. discriminate. Qed.

(** The answer to the sample wrapper, and the inbox after it. *)
Definition sample_delivery := Eval vm_compute in receive sample_wrap (key_of 7) 300100 sample_inbox.

Definition sample_message : DmMessage :=
  match sample_delivery.1 with
  | Ok (Message m) => m
  | _ => {| metadata := {| md_gift_wrap_id := ""; md_seal_id := ""; md_rumor_id := "";
              md_author_pubkey := ""; md_created_at := 0 |}; m_tags := []; m_content := "" |}
  end.

Lemma sample_delivery_ok :
  receive sample_wrap (key_of 7) 300100 sample_inbox = (Ok (Message sample_message), sample_delivery.2).
Proof. vm_compute. reflexivity. Qed.

Lemma received_message_authentic_witness :
  m_content sample_message = "hi"%string /\ inbox_ok sample_delivery.2.
Proof.
  split; [vm_compute; reflexivity|].
  destruct (received_message_authentic sample_wrap (key_of 7) 300100 sample_inbox sample_message
    sample_delivery.2 sample_inbox_ok sample_delivery_ok) as (? & ? & H).
  apply H.
Defined.

Lemma message_delivered_once_witness :
  receive sample_wrap (key_of 7) 300200 (receive_run (key_of 7) [] sample_delivery.2)
    <> (Ok (Message sample_message), sample_delivery.2).
Proof.
  apply (message_delivered_once sample_wrap (key_of 7) 300100 sample_inbox sample_message
    sample_delivery.2 [] 300200 sample_message
    sample_delivery.2 sample_inbox_ok sample_delivery_ok);
    [reflexivity | repeat constructor].
Defined.

Lemma receive_blocks_witness :
  md_author_pubkey (metadata sample_message) ∉ blocked_authors sample_inbox.
Proof.
  exact (proj1 (receive_blocks sample_wrap (key_of 7) 300100 sample_inbox
    (Ok (Message sample_message)) sample_delivery.2 sample_delivery_ok)).
Defined.
