(* ===== verification/RelayList.v ===== *)
(** * Relay lists ([omachat-nostr/src/discovery.rs], [relay_list.rs], [dm_relay_list.rs]
    and [inbox.rs])

    Reading the NIP-65 relay list and the NIP-17 list of direct-message relays out of
    signed events, publishing both, and turning a contact's list into the verified inbox
    that a message may be sent to. *)

From Stdlib Require Import Strings.Byte Ascii String.
From S2P Require Import Prelude RustStd BTree Libs Serde Concrete Event GiftWrap.
Local Open Scope Z_scope.

Definition NIP65_RELAY_LIST_KIND : Z := 10002.
Definition NIP17_DM_RELAY_LIST_KIND : Z := 10050.
Definition MAX_DM_RELAYS_PER_RECIPIENT : Z := 3.
Definition MAX_DM_RELAY_ENDPOINT_BYTES : Z := 2048.

Record RelayDiscoveryLimits := { max_relays : Z; max_url_bytes : Z }.
Definition RelayDiscoveryLimits_default : RelayDiscoveryLimits :=
  {| max_relays := 16; max_url_bytes := 2048 |}.

Record RelayPreference := { rp_url : string; rp_read : bool; rp_write : bool }.
Record RelayList := { rl_public_key : string; rl_created_at : Z; rl_relays : list RelayPreference }.

#[export] Instance RelayPreference_eq_dec : EqDecision RelayPreference.
Proof. solve_decision. Defined.
#[export] Instance RelayList_eq_dec : EqDecision RelayList.
Proof. solve_decision. Defined.

Inductive RelayDiscoveryError :=
| RDInvalidEvent (error : string)
| RDWrongKind (expected actual : Z)
| RDInvalidLimits
| RDInvalidRelayTag
| RDInvalidRelayUrl
| RDEmptyRelayList
| RDTooManyRelays (maximum : Z).

Definition RelayDiscoveryError_to_string (e : RelayDiscoveryError) : string :=
  match e with
  | RDInvalidEvent e => "invalid relay-list event: " +:+ e
  | RDWrongKind e a => "expected relay-list kind " +:+ show e +:+ ", got " +:+ show a
  | RDInvalidLimits => "invalid relay-discovery limits"
  | RDInvalidRelayTag => "invalid relay-list tag"
  | RDInvalidRelayUrl => "invalid relay URL"
  | RDEmptyRelayList => "relay-list event has no relays"
  | RDTooManyRelays m => "relay list exceeds maximum of " +:+ show m
  end.

Inductive RelayListPublicationError :=
| RPRandom
| RPInvalidKey (error : string)
| RPInvalidEvent (error : string)
| RPInvalidLimits
| RPInvalidPreference
| RPInvalidEndpoint
| RPNoRelays
| RPTooManyRelays (maximum : Z).

Inductive DmRelayListError :=
| DLRandom
| DLInvalidKey (error : string)
| DLInvalidEvent (error : string)
| DLInvalidEndpoint
| DLEndpointTooLong
| DLDuplicateEndpoint
| DLNoRelays
| DLTooManyRelays.

Record DmInboxPolicy := {
  maximum_age_seconds : Z;
  ip_max_relays : Z;
  ip_max_url_bytes : Z;
  require_tls : bool
}.
Definition DmInboxPolicy_default : DmInboxPolicy := {|
  maximum_age_seconds := 30 * 24 * 60 * 60; ip_max_relays := 3; ip_max_url_bytes := 2048;
  require_tls := true |}.

Record VerifiedDmInbox := {
  vi_recipient_public_key : string;
  vi_source_event_id : string;
  vi_source_created_at : Z;
  vi_relay_urls : list string;
  vi_source_event : SignedEvent
}.

Record DmPublishPlan := {
  pp_event : SignedEvent;
  pp_recipient_public_key : string;
  pp_relay_urls : list string;
  pp_required_acknowledgements : Z;
  pp_inbox_event_id : string
}.

Inductive DmInboxError :=
| IBInvalidPolicy
| IBInvalidRelayList (error : string)
| IBRelayListSubjectMismatch
| IBRelayListFromFuture
| IBStaleRelayList (age_seconds maximum_seconds : Z)
| IBInsecureRelay
| IBInvalidGiftWrap (error : string)
| IBWrongGiftWrapKind
| IBGiftWrapRecipientMismatch.

Definition is_some {A} (o : option A) : bool := match o with Some _ => true | None => false end.

(** [tag.first()] *)
Definition tag_is (name : string) (tag : Tag) : bool :=
  match tag with t :: _ => String.eqb t name | [] => false end.

Section RelayLists.
Context {hex : Hex} {json : Json} {sha : Sha256} {schnorr : Schnorr} {url : UrlLib}.

(** ** Reading ([discovery.rs]) *)

Definition validate_limits (limits : RelayDiscoveryLimits) : result RelayDiscoveryError unit :=
  if (max_relays limits =? 0) || (max_url_bytes limits =? 0) then Err RDInvalidLimits else Ok tt.

Definition normalize_relay_url (raw_url : string) (limits : RelayDiscoveryLimits)
  : result RelayDiscoveryError string :=
  fail_if (slen raw_url =? 0) || (max_url_bytes limits <? slen raw_url) with RDInvalidRelayUrl ;;
  let? parsed := ok_or RDInvalidRelayUrl (url_parse raw_url) in
  fail_if negb (String.eqb (url_scheme parsed) "ws" || String.eqb (url_scheme parsed) "wss")
    || negb (is_some (url_host_str parsed))
    || negb (is_some (url_port_or_known_default parsed))
    || negb (slen (url_username parsed) =? 0)
    || is_some (url_password parsed) || is_some (url_query parsed) || is_some (url_fragment parsed)
    with RDInvalidRelayUrl ;;
  Ok (url_to_string parsed).

(** [relays.iter_mut().find(..)] and the update of the preference it finds *)
Fixpoint update_relay (u : string) (read write : bool) (relays : list RelayPreference)
  : option (list RelayPreference) :=
  match relays with
  | [] => None
  | p :: rest =>
      if String.eqb (rp_url p) u then
        Some ({| rp_url := rp_url p; rp_read := rp_read p || read; rp_write := rp_write p || write |} :: rest)
      else cons p <$> update_relay u read write rest
  end.

Definition merge_relay (relays : list RelayPreference) (raw_url : string) (read write : bool)
  (limits : RelayDiscoveryLimits) : result RelayDiscoveryError (list RelayPreference) :=
  let? u := normalize_relay_url raw_url limits in
  match update_relay u read write relays with
  | Some relays => Ok relays
  | None =>
      fail_if max_relays limits <=? zlen relays with RDTooManyRelays (max_relays limits) ;;
      Ok (relays ++ [{| rp_url := u; rp_read := read; rp_write := write |}])
  end.

Fixpoint nip65_relays (limits : RelayDiscoveryLimits) (ts : list Tag) (relays : list RelayPreference)
  : result RelayDiscoveryError (list RelayPreference) :=
  match ts with
  | [] => Ok relays
  | tag :: ts =>
      if negb (tag_is "r" tag) then nip65_relays limits ts relays else
      let? p :=
        match tag with
        | [_; u] => Ok (u, true, true)
        | [_; u; marker] =>
            if String.eqb marker "read" then Ok (u, true, false)
            else if String.eqb marker "write" then Ok (u, false, true) else Err RDInvalidRelayTag
        | _ => Err RDInvalidRelayTag
        end in
      let '(u, read, write) := p in
      let? relays := merge_relay relays u read write limits in
      nip65_relays limits ts relays
  end.

Definition parse_nip65_relay_list (event : SignedEvent) (now : Z) (event_limits : EventLimits)
  (limits : RelayDiscoveryLimits) : result RelayDiscoveryError RelayList :=
  let? _ := map_err (fun e => RDInvalidEvent (EventError_to_string e)) (verify event now event_limits) in
  fail_if negb (kind event =? NIP65_RELAY_LIST_KIND) with RDWrongKind NIP65_RELAY_LIST_KIND (kind event) ;;
  let? _ := validate_limits limits in
  let? relays := nip65_relays limits (tags event) [] in
  fail_if zlen relays =? 0 with RDEmptyRelayList ;;
  Ok {| rl_public_key := pubkey event; rl_created_at := created_at event; rl_relays := relays |}.

Fixpoint nip17_relays (limits : RelayDiscoveryLimits) (ts : list Tag) (relays : list RelayPreference)
  : result RelayDiscoveryError (list RelayPreference) :=
  match ts with
  | [] => Ok relays
  | tag :: ts =>
      if negb (tag_is "relay" tag) then nip17_relays limits ts relays else
      let? u := match tag with [_; u] => Ok u | _ => Err RDInvalidRelayTag end in
      let? relays := merge_relay relays u true true limits in
      nip17_relays limits ts relays
  end.

Definition parse_nip17_dm_relay_list (event : SignedEvent) (now : Z) (event_limits : EventLimits)
  (limits : RelayDiscoveryLimits) : result RelayDiscoveryError RelayList :=
  let? _ := map_err (fun e => RDInvalidEvent (EventError_to_string e)) (verify event now event_limits) in
  fail_if negb (kind event =? NIP17_DM_RELAY_LIST_KIND)
    with RDWrongKind NIP17_DM_RELAY_LIST_KIND (kind event) ;;
  let? _ := validate_limits limits in
  let? relays := nip17_relays limits (tags event) [] in
  fail_if zlen relays =? 0 with RDEmptyRelayList ;;
  Ok {| rl_public_key := pubkey event; rl_created_at := created_at event; rl_relays := relays |}.

(** ** Publishing a NIP-65 list ([relay_list.rs]) *)

Definition canonical_endpoint (endpoint : string) (max_bytes : Z)
  : result RelayListPublicationError string :=
  fail_if (slen endpoint =? 0) || (max_bytes <? slen endpoint) with RPInvalidEndpoint ;;
  let? parsed := ok_or RPInvalidEndpoint (url_parse endpoint) in
  let secure := String.eqb (url_scheme parsed) "wss" in
  let numeric_loopback := String.eqb (url_scheme parsed) "ws" &&
    match url_host parsed with
    | Some (HostIpv4 a) => is_loopback (V4 a)
    | Some (HostIpv6 a) => is_loopback (V6 a)
    | _ => false
    end in
  fail_if (negb secure && negb numeric_loopback)
    || negb (is_some (url_host_str parsed))
    || negb (is_some (url_port_or_known_default parsed))
    || negb (slen (url_username parsed) =? 0)
    || is_some (url_password parsed) || is_some (url_query parsed) || is_some (url_fragment parsed)
    with RPInvalidEndpoint ;;
  Ok (url_to_string parsed).

Fixpoint merge_preferences (limits : RelayDiscoveryLimits) (relays : list RelayPreference)
  (merged : BTreeMap (bool * bool)) : result RelayListPublicationError (BTreeMap (bool * bool)) :=
  match relays with
  | [] => Ok merged
  | relay :: relays =>
      fail_if negb (rp_read relay) && negb (rp_write relay) with RPInvalidPreference ;;
      let? endpoint := canonical_endpoint (rp_url relay) (max_url_bytes limits) in
      let entry := default (false, false) (bt_get endpoint merged) in
      merge_preferences limits relays
        (bt_insert endpoint (entry.1 || rp_read relay, entry.2 || rp_write relay) merged)
  end.

Definition canonical_preferences (relays : list RelayPreference) (limits : RelayDiscoveryLimits)
  : result RelayListPublicationError (list RelayPreference) :=
  fail_if (max_relays limits =? 0) || (max_url_bytes limits =? 0) with RPInvalidLimits ;;
  fail_if zlen relays =? 0 with RPNoRelays ;;
  fail_if max_relays limits <? zlen relays with RPTooManyRelays (max_relays limits) ;;
  let? merged := merge_preferences limits relays [] in
  Ok (map (fun e => {| rp_url := e.1; rp_read := e.2.1; rp_write := e.2.2 |}) merged).

(** The tag of one preference. The last arm is the source's [unreachable!]: by
    [canonical_preferences_ok] every canonical preference has a flag set. *)
Definition preference_tag (relay : RelayPreference) : Tag :=
  "r"%string :: rp_url relay ::
  match rp_read relay, rp_write relay with
  | true, false => ["read"%string]
  | false, true => ["write"%string]
  | true, true => []
  | false, false => []
  end.

Definition create_nip65_relay_list_with_aux (secret_key : bytes) (time : Z) (relays : list RelayPreference)
  (auxiliary_randomness : bytes) (event_limits : EventLimits) (discovery_limits : RelayDiscoveryLimits)
  : result RelayListPublicationError SignedEvent :=
  let? relays := canonical_preferences relays discovery_limits in
  let? public_key := map_err (fun e => RPInvalidKey (EventError_to_string e)) (xonly_public_key secret_key) in
  let? event := map_err (fun e => RPInvalidEvent (EventError_to_string e))
    (UnsignedEvent_new (hex_encode public_key) time NIP65_RELAY_LIST_KIND (map preference_tag relays) ""
       event_limits) in
  map_err (fun e => RPInvalidEvent (EventError_to_string e))
    (sign_with_aux event secret_key auxiliary_randomness event_limits).

Definition create_nip65_relay_list (secret_key : bytes) (time : Z) (relays : list RelayPreference)
  (event_limits : EventLimits) (discovery_limits : RelayDiscoveryLimits)
  : SE Entropy RelayListPublicationError SignedEvent :=
  let! aux := getrandom_fill RPRandom 32 in
  se_ret (create_nip65_relay_list_with_aux secret_key time relays aux event_limits discovery_limits).

(** ** Publishing the direct-message relays ([dm_relay_list.rs]) *)

(** [canonical] and [seen] hold the same endpoints. *)
Fixpoint canonical_loop (relay_urls canonical : list string) : result DmRelayListError (list string) :=
  match relay_urls with
  | [] => Ok canonical
  | endpoint :: relay_urls =>
      fail_if MAX_DM_RELAY_ENDPOINT_BYTES <? slen endpoint with DLEndpointTooLong ;;
      let? parsed := ok_or DLInvalidEndpoint (url_parse endpoint) in
      fail_if negb (String.eqb (url_scheme parsed) "wss")
        || negb (is_some (url_host_str parsed))
        || negb (slen (url_username parsed) =? 0)
        || is_some (url_password parsed) || is_some (url_fragment parsed)
        with DLInvalidEndpoint ;;
      fail_if bool_decide (url_to_string parsed ∈ canonical) with DLDuplicateEndpoint ;;
      canonical_loop relay_urls (canonical ++ [url_to_string parsed])
  end.

Definition canonical_relay_urls (relay_urls : list string) : result DmRelayListError (list string) :=
  fail_if zlen relay_urls =? 0 with DLNoRelays ;;
  fail_if MAX_DM_RELAYS_PER_RECIPIENT <? zlen relay_urls with DLTooManyRelays ;;
  let? canonical := canonical_loop relay_urls [] in
  Ok (sort_strings canonical).

Definition create_dm_relay_list_with_aux (secret_key : bytes) (time : Z) (relay_urls : list string)
  (auxiliary_randomness : bytes) (event_limits : EventLimits) : result DmRelayListError SignedEvent :=
  let? relay_urls := canonical_relay_urls relay_urls in
  let? public_key := map_err (fun e => DLInvalidKey (EventError_to_string e)) (xonly_public_key secret_key) in
  let? event := map_err (fun e => DLInvalidEvent (EventError_to_string e))
    (UnsignedEvent_new (hex_encode public_key) time NIP17_DM_RELAY_LIST_KIND
       (map (fun relay => ["relay"; relay]%string) relay_urls) "" event_limits) in
  map_err (fun e => DLInvalidEvent (EventError_to_string e))
    (sign_with_aux event secret_key auxiliary_randomness event_limits).

Definition create_dm_relay_list (secret_key : bytes) (time : Z) (relay_urls : list string)
  (event_limits : EventLimits) : SE Entropy DmRelayListError SignedEvent :=
  let! aux := getrandom_fill DLRandom 32 in
  se_ret (create_dm_relay_list_with_aux secret_key time relay_urls aux event_limits).

(** ** Verified inboxes ([inbox.rs]) *)

Definition validate_policy (policy : DmInboxPolicy) : result DmInboxError unit :=
  fail_if (maximum_age_seconds policy =? 0) || (ip_max_relays policy =? 0)
    || (3 <? ip_max_relays policy) || (ip_max_url_bytes policy =? 0) with IBInvalidPolicy ;;
  Ok tt.

(** [host_str().and_then(|host| host.parse::<IpAddr>().ok()).is_some_and(is_loopback)] *)
Definition host_is_loopback (parsed : Url) : bool :=
  match (h ← url_host_str parsed; parse_ip h) with Some a => is_loopback a | None => false end.

Definition secure_or_loopback_url (parsed : Url) : bool :=
  String.eqb (url_scheme parsed) "wss"
  || (String.eqb (url_scheme parsed) "ws" && host_is_loopback parsed).

Definition secure_or_loopback (endpoint : string) : bool :=
  match url_parse endpoint with None => false | Some parsed => secure_or_loopback_url parsed end.

Definition verify_dm_inbox (event : SignedEvent) (expected_recipient_public_key : bytes) (now : Z)
  (event_limits : EventLimits) (policy : DmInboxPolicy) : result DmInboxError VerifiedDmInbox :=
  let? _ := validate_policy policy in
  let expected_recipient := hex_encode expected_recipient_public_key in
  let discovery_limits :=
    {| max_relays := ip_max_relays policy; max_url_bytes := ip_max_url_bytes policy |} in
  let? l := map_err (fun e => IBInvalidRelayList (RelayDiscoveryError_to_string e))
    (parse_nip17_dm_relay_list event now event_limits discovery_limits) in
  fail_if negb (String.eqb (rl_public_key l) expected_recipient) with IBRelayListSubjectMismatch ;;
  fail_if now <? rl_created_at l with IBRelayListFromFuture ;;
  let age := now - rl_created_at l in
  fail_if maximum_age_seconds policy <? age with IBStaleRelayList age (maximum_age_seconds policy) ;;
  let relay_urls := map rp_url (rl_relays l) in
  fail_if require_tls policy && existsb (fun relay => negb (secure_or_loopback relay)) relay_urls
    with IBInsecureRelay ;;
  Ok {| vi_recipient_public_key := expected_recipient; vi_source_event_id := id event;
        vi_source_created_at := rl_created_at l; vi_relay_urls := relay_urls; vi_source_event := event |}.

Definition plan_dm_publish (gift_wrap : SignedEvent) (inbox : VerifiedDmInbox) (now : Z)
  (event_limits : EventLimits) : result DmInboxError DmPublishPlan :=
  let? _ := map_err (fun e => IBInvalidGiftWrap (EventError_to_string e)) (verify gift_wrap now event_limits) in
  fail_if negb (kind gift_wrap =? GIFT_WRAP_KIND) with IBWrongGiftWrapKind ;;
  let recipient_tags := List.filter (tag_is "p") (tags gift_wrap) in
  fail_if match recipient_tags with
          | [t] => negb (bool_decide (t !! 1%nat = Some (vi_recipient_public_key inbox)))
          | _ => true
          end
    with IBGiftWrapRecipientMismatch ;;
  let required := Z.min (zlen (vi_relay_urls inbox)) 2 in
  fail_if required =? 0 with IBInvalidPolicy ;;
  Ok {| pp_event := gift_wrap; pp_recipient_public_key := vi_recipient_public_key inbox;
        pp_relay_urls := vi_relay_urls inbox; pp_required_acknowledgements := required;
        pp_inbox_event_id := vi_source_event_id inbox |}.
End RelayLists.

(** ** What a URL in a list must satisfy *)

Section RelayListFacts.
Context {hex : Hex} {json : Json} {sha : Sha256} {schnorr : Schnorr} {url : UrlLib}.

(** The tests the publishers of both lists share *)
Definition relay_url_ok (u : Url) : bool :=
  (String.eqb (url_scheme u) "ws" || String.eqb (url_scheme u) "wss") && is_some (url_host_str u)
  && (slen (url_username u) =? 0) && negb (is_some (url_password u)) && negb (is_some (url_fragment u)).

Definition has_query (endpoint : string) : bool :=
  match url_parse endpoint with Some u => is_some (url_query u) | None => false end.

(** The serialisation of a URL that passed those tests *)
Definition canonical (k : string) : Prop :=
  exists s u, url_parse s = Some u /\ k = url_to_string u /\ relay_url_ok u = true.

Definition readable (limits : RelayDiscoveryLimits) (k : string) : bool :=
  (slen k <=? max_url_bytes limits) && negb (has_query k).

(** [names limits r u]: preference [r] is for the relay whose canonical URL is [u]. *)
Definition names (limits : RelayDiscoveryLimits) (u : string) (r : RelayPreference) : bool :=
  match canonical_endpoint (rp_url r) (max_url_bytes limits) with Ok v => String.eqb v u | Err _ => false end.
(** The union of a flag over the preferences for one relay *)
Definition asked (limits : RelayDiscoveryLimits) (relays : list RelayPreference) (flag : RelayPreference -> bool)
  (u : string) : bool := existsb (fun r => flag r && names limits u r) relays.

Lemma is_some_true {A} (o : option A) : is_some o = true <-> o <> None.
Proof. by destruct o. Qed.
Lemma is_some_false {A} (o : option A) : is_some o = false <-> o = None.
Proof. by destruct o. Qed.

Lemma normalize_inv raw limits v :
  normalize_relay_url raw limits = Ok v ->
  exists u, url_parse raw = Some u /\ v = url_to_string u /\ relay_url_ok u = true /\ url_query u = None /\
    slen raw <= max_url_bytes limits.
Proof.
  unfold normalize_relay_url. intros H. inv_ok. exists a. unfold relay_url_ok.
  split_bools. rewrite is_some_false in *.
  split_and!; [done..| |done|lia]. rewrite !andb_true_iff, !negb_true_iff, Z.eqb_eq, !is_some_false. done.
Qed.

Lemma normalize_error raw limits : 
  match normalize_relay_url raw limits with Err e => e = RDInvalidRelayUrl | Ok _ => True end.
Proof.
  unfold normalize_relay_url. destruct (_ || _); [done|]. destruct (url_parse raw); [|done].
  cbn [ok_or rbind]. by destruct (_ || is_some (url_fragment _)).
Qed.

Context {url_laws : UrlLaws}.

Lemma canonical_reparse k : canonical k -> exists u, url_parse k = Some u /\ k = url_to_string u /\ relay_url_ok u = true.
Proof using url_laws. intros (s & u & Hs & -> & Hu). apply url_reparse in Hs. eauto. Qed.

Lemma normalize_canonical k limits :
  canonical k -> normalize_relay_url k limits = if readable limits k then Ok k else Err RDInvalidRelayUrl.
Proof using url_laws.
  intros (u & Hp & Hk & Hu)%canonical_reparse. unfold normalize_relay_url, readable, has_query. rewrite Hp.
  assert ((slen k =? 0) = false) as ->.
  { destruct (slen k =? 0) eqn:E; [|done]. split_bools. destruct k; [by rewrite url_parse_empty in Hp | done]. }
  rewrite Z.ltb_antisym. destruct (slen k <=? _); [|done]. cbn [orb negb andb ok_or rbind].
  unfold relay_url_ok in Hu. split_bools. apply orb_true_iff in H.
  assert (is_some (url_port_or_known_default u) = true) as ->.
  { apply is_some_true. eapply url_known_port; [done|]. destruct H as [E|E]; apply String.eqb_eq in E; auto. }
  assert (String.eqb (url_scheme u) "ws" || String.eqb (url_scheme u) "wss" = true) as -> by (by apply orb_true_iff).
  repeat match goal with E : is_some _ = _ |- _ => rewrite E end. rewrite (proj2 (Z.eqb_eq _ _)) by done.
  destruct (is_some (url_query u)); [done|]. by subst.
Qed.

(** ** Building the list of preferences *)

Definition urls (relays : list RelayPreference) : list string := map rp_url relays.

Lemma update_relay_fresh u r w relays : u ∉ urls relays -> update_relay u r w relays = None.
Proof.
  induction relays as [|p relays IH]; intros Hu; [done|]. cbn in *. apply not_elem_of_cons in Hu as [Hu Hin].
  destruct (String.eqb_spec (rp_url p) u); [congruence|]. by rewrite IH.
Qed.

Lemma update_relay_urls u r w relays relays' :
  update_relay u r w relays = Some relays' -> urls relays' = urls relays.
Proof.
  revert relays'. induction relays as [|p relays IH]; intros relays'; [done|]. cbn.
  case_match; [by intros [= <-]|]. destruct (update_relay u r w relays) eqn:E; [|done].
  intros [= <-]. cbn. f_equal. by apply IH.
Qed.

Lemma merge_relay_fresh relays k r w limits :
  canonical k -> k ∉ urls relays -> zlen relays < max_relays limits ->
  merge_relay relays k r w limits =
    if readable limits k then Ok (relays ++ [{| rp_url := k; rp_read := r; rp_write := w |}])
    else Err RDInvalidRelayUrl.
Proof using url_laws.
  intros Hc Hf Hl. unfold merge_relay. rewrite normalize_canonical by done.
  destruct (readable limits k); [|done]. cbn [rbind]. rewrite update_relay_fresh by done.
  by rewrite (proj2 (Z.leb_gt _ _)).
Qed.

Definition preference_ok (p : RelayPreference) : Prop :=
  rp_read p || rp_write p = true /\ canonical (rp_url p) /\ has_query (rp_url p) = false.

Lemma nip65_relays_tags limits prefs acc :
  NoDup (urls (acc ++ prefs)) -> Forall preference_ok prefs -> zlen (acc ++ prefs) <= max_relays limits ->
  nip65_relays limits (map preference_tag prefs) acc =
    if forallb (fun p => slen (rp_url p) <=? max_url_bytes limits) prefs then Ok (acc ++ prefs)
    else Err RDInvalidRelayUrl.
Proof using url_laws.
  revert acc. induction prefs as [|p prefs IH]; intros acc Hn Hp Hl; [by rewrite app_nil_r|].
  inversion Hp as [|? ? (Hf & Hc & Hq) Hp']; subst. cbn [map forallb].
  assert (merge_relay acc (rp_url p) (rp_read p) (rp_write p) limits =
    if slen (rp_url p) <=? max_url_bytes limits then Ok (acc ++ [p]) else Err RDInvalidRelayUrl) as Hm.
  { rewrite merge_relay_fresh.
    - unfold readable. rewrite Hq, andb_true_r. by destruct p.
    - done.
    - unfold urls in Hn. rewrite map_app in Hn. apply NoDup_app in Hn as (_ & Hn & _). intros Hin.
      apply (Hn _ Hin). left.
    - rewrite zlen_app, zlen_cons in Hl. pose proof (zlen_nonneg prefs). lia. }
  assert (nip65_relays limits (preference_tag p :: map preference_tag prefs) acc =
    let? relays := merge_relay acc (rp_url p) (rp_read p) (rp_write p) limits in
    nip65_relays limits (map preference_tag prefs) relays) as ->.
  { unfold preference_tag at 1. destruct p as [u [] []]; done. }
  rewrite Hm. destruct (slen (rp_url p) <=? _); [|done]. cbn [rbind andb].
  rewrite IH; rewrite <- ?app_assoc; done.
Qed.

Lemma nip17_relays_tags limits us acc :
  NoDup (urls acc ++ us) -> Forall canonical us -> zlen acc + zlen us <= max_relays limits ->
  nip17_relays limits (map (fun r => ["relay"; r]%string) us) acc =
    if forallb (readable limits) us
    then Ok (acc ++ map (fun u => {| rp_url := u; rp_read := true; rp_write := true |}) us)
    else Err RDInvalidRelayUrl.
Proof using url_laws.
  revert acc. induction us as [|u us IH]; intros acc Hn Hp Hl; [by cbn; rewrite app_nil_r|].
  inversion Hp; subst. cbn [map nip17_relays forallb].
  change (tag_is "relay" ["relay"; u]%string) with true. cbn [negb rbind]. cbv iota.
  rewrite zlen_cons in Hl. pose proof (zlen_nonneg us).
  rewrite merge_relay_fresh; [|done| |lia].
  2:{ apply NoDup_app in Hn as (_ & Hn & _). intros Hin. apply (Hn _ Hin). left. }
  destruct (readable limits u); [|done]. cbn [rbind andb]. rewrite IH.
  - by rewrite <- app_assoc.
  - unfold urls. rewrite map_app, <- app_assoc. done.
  - done.
  - rewrite zlen_app. change (zlen [_]) with 1. lia.
Qed.

Lemma canonical_endpoint_inv e m v :
  canonical_endpoint e m = Ok v -> canonical v /\ has_query v = false.
Proof using url_laws.
  unfold canonical_endpoint. intros H. inv_ok. split_bools.
  assert (relay_url_ok a = true) as Hok.
  { unfold relay_url_ok. rewrite !andb_true_iff, !negb_true_iff, Z.eqb_eq. split_and!; try done.
    apply orb_true_iff. destruct (String.eqb (url_scheme a) "wss"); [by right|]. cbn in *. split_bools.
    by destruct (String.eqb (url_scheme a) "ws"); [left|]. }
  split; [by exists e, a|]. unfold has_query. by rewrite (url_reparse e a) by done.
Qed.

Definition flags (m : BTreeMap (bool * bool)) (k : string) : bool * bool := default (false, false) (bt_get k m).
Definition preference_of (e : string * (bool * bool)) : RelayPreference :=
  {| rp_url := e.1; rp_read := e.2.1; rp_write := e.2.2 |}.

Lemma asked_cons limits r relays flag u :
  asked limits (r :: relays) flag u = (flag r && names limits u r) || asked limits relays flag u.
Proof. done. Qed.

Lemma merge_preferences_ok limits relays acc m :
  merge_preferences limits relays acc = Ok m -> bt_sorted acc -> Forall preference_ok (map preference_of acc) ->
  bt_sorted m /\ Forall preference_ok (map preference_of m) /\ zlen m <= zlen acc + zlen relays /\
  (relays <> [] \/ acc <> [] -> m <> []) /\
  forall k, flags m k =
    ((flags acc k).1 || asked limits relays rp_read k, (flags acc k).2 || asked limits relays rp_write k).
Proof using url_laws.
  revert acc. induction relays as [|r relays IH]; intros acc H Hs Hp.
  - injection H as <-. split_and!; [done|done|unfold zlen; cbn [length]; lia|by intros [?|?]|].
    intros k. cbn. by rewrite !orb_false_r, <- surjective_pairing.
  - cbn [merge_preferences] in H. apply fail_if_ok_inv in H as [Hf H].
    apply rbind_ok_inv in H as (v & Hv & H). cbv zeta in H.
    set (new := (_ || rp_read r, _ || rp_write r)) in H.
    apply IH in H as (Hs' & Hp' & Hl & Hne & Hfl); [|by apply bt_insert_sorted|].
    + split_and!; [done|done| | |].
      * unfold zlen in *. rewrite bt_length_insert in Hl by done. cbn [length]. case_match; lia.
      * intros _. apply Hne. right. apply bt_insert_nonempty.
      * intros k. rewrite Hfl, !asked_cons. unfold flags, names. rewrite bt_get_insert, Hv by done.
        destruct (String.eqb_spec v k) as [->|N].
        -- rewrite decide_True by done. cbn. subst new. cbn. by rewrite !andb_true_r, <- !orb_assoc.
        -- rewrite decide_False by congruence. cbn. by rewrite !andb_false_r.
    + rewrite Forall_forall in Hp |- *. intros p (x & -> & Hx)%list_elem_of_fmap.
      apply bt_insert_elem in Hx as [->|Hx]; [|apply Hp, list_elem_of_fmap; eauto].
      apply canonical_endpoint_inv in Hv as [? ?]. split; [|done]. cbn.
      destruct (rp_read r), (rp_write r), (default _ _) as [[] []]; done.
Qed.

Lemma urls_preferences (m : BTreeMap (bool * bool)) : urls (map preference_of m) = m.*1.
Proof. unfold urls. by rewrite map_map. Qed.

Lemma sorted_fst (m : BTreeMap (bool * bool)) : bt_sorted m -> StronglySorted string_lt m.*1.
Proof.
  unfold bt_sorted. induction 1 as [|e m Hs IH Hf]; cbn; constructor; [done|].
  apply Forall_forall. intros x (y & -> & Hy)%list_elem_of_fmap. rewrite Forall_forall in Hf. by apply Hf.
Qed.

Lemma canonical_preferences_ok relays limits prefs :
  canonical_preferences relays limits = Ok prefs ->
  0 < zlen prefs <= max_relays limits /\ max_relays limits <> 0 /\ max_url_bytes limits <> 0 /\
  StronglySorted string_lt (urls prefs) /\ NoDup (urls prefs) /\ Forall preference_ok prefs /\
  forall p, p ∈ prefs <-> rp_read p || rp_write p = true /\
    rp_read p = asked limits relays rp_read (rp_url p) /\ rp_write p = asked limits relays rp_write (rp_url p).
Proof using url_laws.
  unfold canonical_preferences. intros H. inv_ok. split_bools.
  change (map _ a) with (map preference_of a).
  apply merge_preferences_ok in Ha as (Hs & Hp & Hl & Hne & Hf); [|constructor|constructor].
  assert (forall k, flags a k = (asked limits relays rp_read k, asked limits relays rp_write k)) as Hfl
    by (intros k; apply Hf). clear Hf.
  split_and!; try done.
  - destruct a; [|unfold zlen; cbn [length map]; lia]. exfalso. apply Hne; [left|done]. by intros ->.
  - unfold zlen in *. rewrite length_map. cbn [length] in Hl. lia.
  - rewrite urls_preferences. by apply sorted_fst.
  - rewrite urls_preferences. by apply bt_sorted_keys.
  - intros [u r w]. cbn [rp_read rp_write rp_url]. specialize (Hfl u). unfold flags in Hfl.
    rewrite Forall_forall in Hp. split.
    + intros Hin. split; [by apply Hp in Hin as [? _]|].
      apply list_elem_of_fmap in Hin as ([k [r' w']] & [= -> -> ->] & Hin).
      rewrite (bt_in_get _ _ _ Hs Hin) in Hfl. cbn in Hfl. by simplify_eq.
    + intros (Hor & Hr & Hw). apply list_elem_of_fmap. exists (u, (r, w)). split; [done|].
      apply bt_get_in. rewrite Hr, Hw in *. destruct (bt_get u a) as [e|]; cbn in Hfl; [by subst|].
      injection Hfl as E1 E2. by rewrite <- E1, <- E2 in Hor.
Qed.

(** ** Reading any list *)

Lemma update_relay_none u r w relays : update_relay u r w relays = None -> u ∉ urls relays.
Proof.
  induction relays as [|p relays IH]; cbn; [intros _ H; by apply elem_of_nil in H|].
  destruct (String.eqb_spec (rp_url p) u); [done|]. destruct (update_relay u r w relays); [done|].
  intros _. apply not_elem_of_cons. split; [congruence | by apply IH].
Qed.

Lemma update_relay_some u r w relays relays' : update_relay u r w relays = Some relays' -> u ∈ urls relays.
Proof.
  revert relays'. induction relays as [|p relays IH]; intros relays'; [done|]. cbn.
  destruct (String.eqb_spec (rp_url p) u) as [->|]; [intros _; left|].
  destruct (update_relay u r w relays) eqn:E; [|done]. intros _. right. by eapply IH.
Qed.

Lemma merge_relay_inv relays raw r w limits relays' :
  merge_relay relays raw r w limits = Ok relays' ->
  exists u, normalize_relay_url raw limits = Ok u /\
    (((u ∈ urls relays) /\ urls relays' = urls relays) \/
     ((u ∉ urls relays) /\ urls relays' = urls relays ++ [u] /\ zlen relays < max_relays limits)).
Proof.
  unfold merge_relay. intros H. apply rbind_ok_inv in H as (u & Hu & H). exists u. split; [done|].
  destruct (update_relay u r w relays) as [l|] eqn:E.
  - injection H as <-. left. split; [by eapply update_relay_some | by eapply update_relay_urls].
  - right. apply fail_if_ok_inv in H as [Hl H]. injection H as <-. split_bools.
    split; [by eapply update_relay_none|]. split; [|lia]. unfold urls. by rewrite map_app.
Qed.

(** Reading keeps the URLs distinct and within the limit, and lists exactly the
    normalised URLs of the tags. *)
Lemma nip17_relays_ok limits ts acc relays :
  nip17_relays limits ts acc = Ok relays -> NoDup (urls acc) ->
  NoDup (urls relays) /\ zlen relays <= Z.max (zlen acc) (max_relays limits) /\
  (forall u, u ∈ urls relays <->
     u ∈ urls acc \/ exists raw, ["relay"; raw]%string ∈ ts /\ normalize_relay_url raw limits = Ok u) /\
  (forall tag, tag ∈ ts -> tag_is "relay" tag = true ->
     exists raw u, tag = ["relay"; raw]%string /\ normalize_relay_url raw limits = Ok u).
Proof.
  revert acc. induction ts as [|tag ts IH]; intros acc H Hn.
  - injection H as <-. split_and!; [done|lia| |intros ? Hin; by apply elem_of_nil in Hin].
    intros u. split; [by left|]. intros [?|(? & Hin & _)]; [done|]. by apply elem_of_nil in Hin.
  - cbn [nip17_relays] in H. destruct (tag_is "relay" tag) eqn:Et; cbn [negb] in H.
    + apply rbind_ok_inv in H as (raw & Hraw & H). apply rbind_ok_inv in H as (acc' & Hm & H).
      destruct tag as [|name [|raw' [|]]]; try done. injection Hraw as ->.
      cbn [tag_is] in Et. apply String.eqb_eq in Et as ->.
      apply merge_relay_inv in Hm as (u & Hu & Hcase).
      assert (NoDup (urls acc') /\ zlen acc' <= Z.max (zlen acc) (max_relays limits) /\
              forall v, v ∈ urls acc' <-> v ∈ urls acc \/ v = u) as (Hn' & Hl' & Hin').
      { destruct Hcase as [[Hin E]|(Hni & E & Hlt)].
        - rewrite E. split; [done|]. split.
          + assert (length (urls acc') = length (urls acc)) as El by (by rewrite E).
            unfold urls, zlen in *. rewrite !length_map in El. lia.
          + intros v. split; [by left|]. intros [?| ->]; done.
        - rewrite E. split; [by apply NoDup_snoc|]. split.
          + assert (length (urls acc') = S (length (urls acc))) as El by (rewrite E, length_app; cbn; lia).
            unfold urls, zlen in *. rewrite !length_map in El. lia.
          + intros v. by rewrite elem_of_app, list_elem_of_singleton. }
      apply IH in H as (H1 & H2 & H3 & H4); [|done]. split_and!; [done|lia| |].
      * intros v. rewrite H3, Hin'. setoid_rewrite elem_of_cons. split.
        -- intros [[?| ->]|(x & ? & ?)]; eauto 6.
        -- intros [?|(x & [[= ->]|?] & Hx)]; eauto. rewrite Hu in Hx. injection Hx as ->. auto.
      * intros tag [->|Hin]%elem_of_cons Ht; [eauto | by apply H4].
    + apply IH in H as (H1 & H2 & H3 & H4); [|done]. split_and!; [done|lia| |].
      * intros v. rewrite H3. setoid_rewrite elem_of_cons. split; [intros [?|(x & ? & ?)]; eauto|].
        intros [?|(x & [E|?] & Hx)]; eauto. rewrite <- E in Et. done.
      * intros tag' [->|Hin]%elem_of_cons Ht; [congruence | by apply H4].
Qed.

(** ** The canonical direct-message relays *)

Definition canonical_url (u : string) : option string := url_to_string <$> url_parse u.
(** What every canonical endpoint of a published list is *)
Definition dm_endpoint (k : string) : Prop := canonical k /\ secure_or_loopback k = true.

Lemma canonical_loop_ok us acc cs :
  canonical_loop us acc = Ok cs -> NoDup acc -> Forall dm_endpoint acc ->
  exists new, cs = acc ++ new /\ mapM canonical_url us = Some new /\ NoDup cs /\ Forall dm_endpoint cs.
Proof using url_laws.
  revert acc. induction us as [|u us IH]; intros acc H Hn Hf.
  - injection H as <-. exists []. by rewrite app_nil_r.
  - cbn [canonical_loop] in H. apply fail_if_ok_inv in H as [_ H]. apply rbind_ok_inv in H as (p & Hp & H).
    apply ok_or_ok_inv in Hp. apply fail_if_ok_inv in H as [Hok H]. apply fail_if_ok_inv in H as [Hd H].
    split_bools. apply IH in H as (new & -> & Hm & Hn' & Hf').
    + exists (url_to_string p :: new). split_and!; [by rewrite <- app_assoc| |done|done].
      apply mapM_Some. constructor; [unfold canonical_url; by rewrite Hp | by apply mapM_Some].
    + by apply NoDup_snoc.
    + apply Forall_app. split; [done|]. constructor; [|constructor]. split.
      * exists u, p. split_and!; [done|done|]. unfold relay_url_ok.
        rewrite !andb_true_iff, !negb_true_iff, Z.eqb_eq. split_and!; try done.
        apply orb_true_iff. by right.
      * unfold secure_or_loopback. rewrite (url_reparse u p) by done. apply orb_true_iff. by left.
Qed.

Lemma canonical_relay_urls_ok us cs :
  canonical_relay_urls us = Ok cs ->
  exists new, cs = sort_strings new /\ mapM canonical_url us = Some new /\ 0 < zlen cs <= 3 /\
    NoDup cs /\ Forall dm_endpoint cs.
Proof using url_laws.
  unfold canonical_relay_urls. intros H. inv_ok. split_bools.
  apply canonical_loop_ok in Ha as (new & -> & Hm & Hn & Hf); [|constructor|constructor]. cbn [app] in *.
  exists new. split; [done|]. split; [done|].
  assert (Permutation (sort_strings new) new) as Hp by apply merge_sort_Permutation.
  assert (length new = length us) as Hl by (symmetry; eapply Forall2_length, mapM_Some, Hm).
  split; [|by rewrite Hp].
  unfold zlen in *. rewrite Hp, Hl. unfold MAX_DM_RELAYS_PER_RECIPIENT in *. lia.
Qed.

(** The limits a policy gives the reader *)
Definition policy_limits (policy : DmInboxPolicy) : RelayDiscoveryLimits :=
  {| max_relays := ip_max_relays policy; max_url_bytes := ip_max_url_bytes policy |}.

Lemma validate_policy_ok policy :
  validate_policy policy = Ok tt -> validate_limits (policy_limits policy) = Ok tt /\ ip_max_relays policy <= 3.
Proof.
  unfold validate_policy, validate_limits. cbn. intros H. apply fail_if_ok_inv in H as [H _]. split_bools.
  rewrite !(proj2 (Z.eqb_neq _ _)) by done. split; [done | lia].
Qed.

Lemma parse_nip17_inv ev now el limits l :
  parse_nip17_dm_relay_list ev now el limits = Ok l ->
  verify ev now el = Ok tt /\ kind ev = NIP17_DM_RELAY_LIST_KIND /\ validate_limits limits = Ok tt /\
  rl_public_key l = pubkey ev /\ rl_created_at l = created_at ev /\ 0 < zlen (rl_relays l) /\
  nip17_relays limits (tags ev) [] = Ok (rl_relays l).
Proof.
  unfold parse_nip17_dm_relay_list. intros H. apply rbind_ok_inv in H as ([] & Hv & H). apply map_err_ok_inv in Hv.
  apply fail_if_ok_inv in H as [Hk H]. apply rbind_ok_inv in H as ([] & Hl & H).
  apply rbind_ok_inv in H as (rs & Hr & H). apply fail_if_ok_inv in H as [Hz H]. injection H as <-.
  split_bools. split_and!; try done. cbn. pose proof (zlen_nonneg rs). lia.
Qed.
End RelayListFacts.

(** ** Properties *)

Section Properties.
Context {hex : Hex} {json : Json} {sha : Sha256} {schnorr : Schnorr} {url : UrlLib}.
Context {hex_laws : HexLaws} {json_laws : JsonLaws} {sha_laws : Sha256Laws} {schnorr_laws : SchnorrLaws}
        {url_laws : UrlLaws}.

(** An event built and signed here reads back as built. *)
Lemma signed_event_fields pk t k ts text el ue sk aux ev now :
  UnsignedEvent_new pk t k ts text el = Ok ue -> sign_with_aux ue sk aux el = Ok ev ->
  zlen (event_to_json ev) <= max_serialized_bytes el ->
  t <= saturating_add u64_max now (max_future_seconds el) ->
  verify ev now el = Ok tt /\ pubkey ev = pk /\ created_at ev = t /\ kind ev = k /\ tags ev = ts /\ content ev = text.
Proof using hex_laws json_laws sha_laws schnorr_laws.
  intros Hn Hs Hz Ht. unfold UnsignedEvent_new in Hn. apply rbind_ok_inv in Hn as ([] & _ & [= <-]).
  destruct (sign_with_aux_inv _ _ _ _ _ Hs) as (_ & _ & _ & _ & _ & _ & Hu & _ & _).
  assert (created_at ev = t) as Hct by exact (f_equal ue_created_at Hu).
  split_and!; [|exact (f_equal ue_pubkey Hu)|done|exact (f_equal ue_kind Hu)|exact (f_equal ue_tags Hu)|exact (f_equal ue_content Hu)].
  eapply verify_signed; [exact Hs|done|]. by rewrite Hct.
Qed.

(** A published NIP-65 list reads back as what was published. The preferences are
    sorted by canonical URL, one per relay, each with the union of the flags asked for
    that relay; the reader returns them all, unless a canonical URL is longer than the
    limit, and then it refuses the whole list. *)
Theorem nip65_roundtrip sk t relays aux el limits ev now :
  create_nip65_relay_list_with_aux sk t relays aux el limits = Ok ev ->
  zlen (event_to_json ev) <= max_serialized_bytes el ->
  t <= saturating_add u64_max now (max_future_seconds el) ->
  exists prefs,
    StronglySorted string_lt (urls prefs) /\
    (forall p, p ∈ prefs <-> rp_read p || rp_write p = true /\
       rp_read p = asked limits relays rp_read (rp_url p) /\
       rp_write p = asked limits relays rp_write (rp_url p)) /\
    parse_nip65_relay_list ev now el limits =
      if forallb (fun p => slen (rp_url p) <=? max_url_bytes limits) prefs
      then Ok {| rl_public_key := pubkey ev; rl_created_at := t; rl_relays := prefs |}
      else Err RDInvalidRelayUrl.
Proof using Type*.
  intros H Hz Ht. unfold create_nip65_relay_list_with_aux in H. inv_ok.
  destruct (signed_event_fields _ _ _ _ _ _ _ _ _ _ _ Ha1 H Hz Ht) as (Hv & _ & Hct & Hk & Htags & _).
  destruct (canonical_preferences_ok _ _ _ Ha) as (Hl & Hm1 & Hm2 & Hs & Hn & Hp & Hspec).
  exists a. split; [done|]. split; [done|]. unfold parse_nip65_relay_list, validate_limits.
  rewrite Hv, Hk, Z.eqb_refl, Htags, Hct, !(proj2 (Z.eqb_neq _ 0)) by done. cbn [map_err rbind negb orb].
  rewrite nip65_relays_tags by (done || cbn [app]; lia). cbn [app].
  destruct (forallb _ _); [|done]. cbn [rbind]. by rewrite (proj2 (Z.eqb_neq _ 0)) by lia.
Qed.

(** What a contact publishes as direct-message relays is the inbox others verify. Under
    any valid policy that admits three relays, and while the list is fresh, the inbox is
    the sorted canonical URLs; if one of them is longer than the policy's limit or has a
    query, which the publisher accepts, the whole list is refused instead. *)
Theorem dm_relay_list_roundtrip sk pk t us aux el ev now policy :
  create_dm_relay_list_with_aux sk t us aux el = Ok ev -> schnorr_public_key sk = Some pk ->
  zlen (event_to_json ev) <= max_serialized_bytes el -> 0 <= max_future_seconds el ->
  validate_policy policy = Ok tt -> ip_max_relays policy = 3 ->
  t <= now <= u64_max -> now - t <= maximum_age_seconds policy ->
  exists cs, mapM canonical_url us = Some cs /\
    verify_dm_inbox ev pk now el policy =
      if forallb (readable (policy_limits policy)) (sort_strings cs)
      then Ok {| vi_recipient_public_key := hex_encode pk; vi_source_event_id := id ev;
                 vi_source_created_at := t; vi_relay_urls := sort_strings cs; vi_source_event := ev |}
      else Err (IBInvalidRelayList "invalid relay URL").
Proof using Type*.
  intros H Hpk Hz Hfut Hpol Hmax Ht Hage. unfold create_dm_relay_list_with_aux in H. inv_ok.
  unfold xonly_public_key in Ha0. rewrite Hpk in Ha0. injection Ha0 as <-.
  edestruct (signed_event_fields _ _ _ _ _ _ _ _ _ _ now Ha1 H Hz) as (Hv & Hpub & Hct & Hk & Htags & _);
    [unfold saturating_add; lia|].
  destruct (canonical_relay_urls_ok _ _ Ha) as (cs & -> & Hm & Hl & Hn & Hf).
  exists cs. split; [done|]. unfold verify_dm_inbox, parse_nip17_dm_relay_list.
  destruct (validate_policy_ok _ Hpol) as [Hvl _]. rewrite Hpol. cbn [rbind].
  change {| max_relays := _; max_url_bytes := _ |} with (policy_limits policy).
  rewrite Hv, Hk, Z.eqb_refl, Htags, Hct, Hvl, Hpub. cbn [map_err rbind negb].
  rewrite nip17_relays_tags; [|done|by eapply Forall_impl; [exact Hf|intros ? [? _]]|].
  2:{ cbn. rewrite Hmax. change (zlen []) with 0. lia. }
  destruct (forallb _ _); [|done]. cbn [rbind map_err app].
  unfold zlen at 1. rewrite length_map. fold (zlen (sort_strings cs)). rewrite (proj2 (Z.eqb_neq _ 0)) by lia.
  cbn [rbind map_err rl_public_key rl_created_at rl_relays]. rewrite String.eqb_refl, map_map. cbn [negb rp_url].
  rewrite (proj2 (Z.ltb_ge _ _)), (proj2 (Z.ltb_ge _ _)) by lia. rewrite map_id.
  assert (existsb (fun r => negb (secure_or_loopback r)) (sort_strings cs) = false) as ->; [|by rewrite andb_false_r].
  apply not_true_is_false. intros (x & Hx & Hs)%existsb_exists. rewrite Forall_forall in Hf.
  apply list_elem_of_In, Hf in Hx as [_ Hx]. by rewrite Hx in Hs.
Qed.

(** A verified inbox is the recipient's own. Its list event verifies, is of kind 10050,
    is signed by the expected key, is not from the future and is within the maximum age;
    the relays are the distinct normalised URLs of its relay tags, between one and three,
    each over TLS or a numeric loopback when the policy asks for it. *)
Theorem verify_dm_inbox_sound ev pk now el policy inbox :
  verify_dm_inbox ev pk now el policy = Ok inbox ->
  verify ev now el = Ok tt /\ kind ev = NIP17_DM_RELAY_LIST_KIND /\ pubkey ev = hex_encode pk /\
  created_at ev <= now <= created_at ev + maximum_age_seconds policy /\
  vi_recipient_public_key inbox = hex_encode pk /\ vi_source_event_id inbox = id ev /\
  vi_source_created_at inbox = created_at ev /\ vi_source_event inbox = ev /\
  NoDup (vi_relay_urls inbox) /\ 1 <= zlen (vi_relay_urls inbox) <= Z.min 3 (ip_max_relays policy) /\
  (forall u, u ∈ vi_relay_urls inbox <-> exists raw, ["relay"; raw]%string ∈ tags ev /\
     normalize_relay_url raw (policy_limits policy) = Ok u) /\
  (require_tls policy = true -> forall u, u ∈ vi_relay_urls inbox -> secure_or_loopback u = true).
Proof using Type.
  unfold verify_dm_inbox. intros H. apply rbind_ok_inv in H as ([] & Hpol & H).
  apply rbind_ok_inv in H as (l & Hl & H). apply map_err_ok_inv in Hl.
  change {| max_relays := _; max_url_bytes := _ |} with (policy_limits policy) in Hl.
  do 4 (apply fail_if_ok_inv in H as [? H]). injection H as <-. cbn.
  destruct (parse_nip17_inv _ _ _ _ _ Hl) as (Hv & Hk & _ & Hp & Hc & Hz & Hr).
  destruct (validate_policy_ok _ Hpol) as [_ Hmax]. rewrite Hp, Hc in *. split_bools.
  match goal with E : String.eqb _ _ = true |- _ => apply String.eqb_eq in E end.
  destruct (nip17_relays_ok _ _ _ _ Hr) as (Hn & Hlen & Hin & _); [constructor|].
  split_and!; try done; try lia.
  - unfold zlen in *. rewrite length_map. lia.
  - unfold zlen in *. rewrite length_map. cbn in Hlen. lia.
  - intros u. rewrite (Hin u). split; [intros [Hu|?]; [by apply elem_of_nil in Hu|done] | by right].
  - intros Htls u Hu. rewrite Htls in *. cbn in *. apply not_false_is_true. intros E.
    match goal with X : existsb _ _ = false |- _ => rewrite <- not_true_iff_false in X; apply X end.
    apply existsb_exists. exists u. rewrite E. split; [by apply list_elem_of_In | done].
Qed.

(** The publisher of the direct-message list accepts relay URLs with a query, and the
    reader refuses them: once one of the endpoints has a query, nobody can verify the
    published list, whatever the time, the limits and the policy. *)
Theorem dm_relay_list_query_unreadable sk t us aux el ev u :
  create_dm_relay_list_with_aux sk t us aux el = Ok ev -> u ∈ us -> has_query u = true ->
  forall pk now el' policy, is_ok (verify_dm_inbox ev pk now el' policy) = false.
Proof using url_laws.
  intros H Hu Hq pk now el' policy. unfold create_dm_relay_list_with_aux in H. inv_ok.
  unfold UnsignedEvent_new in Ha1. apply rbind_ok_inv in Ha1 as ([] & _ & [= <-]).
  destruct (sign_with_aux_inv _ _ _ _ _ H) as (_ & _ & _ & _ & _ & _ & Hue & _ & _).
  apply (f_equal ue_tags) in Hue. cbn in Hue.
  destruct (canonical_relay_urls_ok _ _ Ha) as (cs & -> & Hm & _).
  apply mapM_Some in Hm. apply list_elem_of_lookup in Hu as [i Hi].
  destruct (Forall2_lookup_l _ _ _ _ _ Hm Hi) as (k & Hk & Hck). unfold canonical_url in Hck. unfold has_query in Hq.
  destruct (url_parse u) as [p|] eqn:Hp; [|done]. injection Hck as <-.
  apply list_elem_of_lookup_2 in Hk.
  destruct (verify_dm_inbox ev pk now el' policy) as [inbox|] eqn:Hv; [|done]. exfalso.
  unfold verify_dm_inbox in Hv. apply rbind_ok_inv in Hv as ([] & _ & Hv).
  apply rbind_ok_inv in Hv as (l & Hl & _). apply map_err_ok_inv in Hl.
  destruct (parse_nip17_inv _ _ _ _ _ Hl) as (_ & _ & _ & _ & _ & _ & Hr).
  destruct (nip17_relays_ok _ _ _ _ Hr) as (_ & _ & _ & Hall); [constructor|].
  destruct (Hall ["relay"; url_to_string p]%string) as (raw & u' & [= <-] & Hn).
  - rewrite Hue. apply list_elem_of_fmap. exists (url_to_string p). split; [done|].
    unfold sort_strings. by rewrite merge_sort_Permutation.
  - done.
  - apply normalize_inv in Hn as (p' & Hp' & _ & _ & Hq' & _). rewrite (url_reparse u p) in Hp' by done.
    injection Hp' as <-. by rewrite Hq' in Hq.
Qed.

(** The inbox, cache and bootstrap checks of a [ws] relay never accept the IPv6 loopback,
    which the NIP-65 publisher does: [host_str] is bracketed and [IpAddr] does not parse
    brackets. *)
Theorem ipv6_loopback_refused s u a :
  url_parse s = Some u -> url_scheme u = "ws"%string -> url_host u = Some (HostIpv6 a) ->
  secure_or_loopback s = false.
Proof using url_laws.
  intros Hs Hsch Hh. unfold secure_or_loopback, secure_or_loopback_url, host_is_loopback. rewrite Hs, Hsch.
  destruct (url_ipv6_brackets _ _ _ Hs Hh) as [t ->]. cbn [mbind option_bind]. by rewrite parse_ip_bracket.
Qed.

(** A message is planned only for the inbox's owner and with a reachable quorum: the
    gift wrap verifies, is persistent, names the owner in its only [p] tag, and the
    acknowledgements required are at least one and at most the number of relays. *)
Theorem plan_dm_publish_sound wrap inbox now el plan :
  plan_dm_publish wrap inbox now el = Ok plan ->
  verify wrap now el = Ok tt /\ kind wrap = GIFT_WRAP_KIND /\
  (exists rest, List.filter (tag_is "p") (tags wrap) = [["p"%string; vi_recipient_public_key inbox] ++ rest]) /\
  pp_event plan = wrap /\ pp_relay_urls plan = vi_relay_urls inbox /\
  pp_recipient_public_key plan = vi_recipient_public_key inbox /\ pp_inbox_event_id plan = vi_source_event_id inbox /\
  1 <= pp_required_acknowledgements plan <= zlen (pp_relay_urls plan).
Proof using Type.
  unfold plan_dm_publish. intros H. apply rbind_ok_inv in H as ([] & Hv & H). apply map_err_ok_inv in Hv.
  do 3 (apply fail_if_ok_inv in H as [? H]). injection H as <-. split_bools. cbn.
  pose proof (zlen_nonneg (vi_relay_urls inbox)). split_and!; try done; try lia.
  destruct (List.filter (tag_is "p") (tags wrap)) as [|t [|]] eqn:E; try done. split_bools.
  assert (In t (List.filter (tag_is "p") (tags wrap))) as Hin by (rewrite E; by left).
  apply filter_In in Hin as [_ Hp]. destruct t as [|n [|r rest]]; try done.
  cbn in Hp. apply String.eqb_eq in Hp as ->. simplify_eq/=. by exists rest.
Qed.
End Properties.

(** ** Witnesses *)

Definition sample_relays : list RelayPreference :=
  [{| rp_url := "wss://b"; rp_read := true; rp_write := false |};
   {| rp_url := "wss://a"; rp_read := false; rp_write := true |};
   {| rp_url := "wss://b"; rp_read := false; rp_write := true |}]%string.

Definition sample_event_of {E} (r : result E SignedEvent) : SignedEvent :=
  match r with Ok e => e | Err _ => sample_signed "none" end.

Definition sample_nip65 : SignedEvent :=
  sample_event_of (create_nip65_relay_list_with_aux (key_of 5) 100 sample_relays (key_of 1) EventLimits_default
    RelayDiscoveryLimits_default).

Definition sample_dm_list (us : list string) : SignedEvent :=
  sample_event_of (create_dm_relay_list_with_aux (key_of 5) 100 us (key_of 1) EventLimits_default).

Lemma nip65_roundtrip_witness :
  exists prefs,
    StronglySorted string_lt (urls prefs) /\
    (forall p, p ∈ prefs <-> rp_read p || rp_write p = true /\
       rp_read p = asked RelayDiscoveryLimits_default sample_relays rp_read (rp_url p) /\
       rp_write p = asked RelayDiscoveryLimits_default sample_relays rp_write (rp_url p)) /\
    parse_nip65_relay_list sample_nip65 120 EventLimits_default RelayDiscoveryLimits_default =
      if forallb (fun p => slen (rp_url p) <=? 2048) prefs
      then Ok {| rl_public_key := pubkey sample_nip65; rl_created_at := 100; rl_relays := prefs |}
      else Err RDInvalidRelayUrl.
Proof.
  apply (nip65_roundtrip (key_of 5) 100 sample_relays (key_of 1));
    [vm_compute; reflexivity | vm_compute; discriminate | vm_compute; discriminate].
Defined.

Lemma dm_relay_list_roundtrip_witness :
  exists cs, mapM canonical_url ["wss://b"; "wss://a"]%string = Some cs /\
    verify_dm_inbox (sample_dm_list ["wss://b"; "wss://a"]%string) (key_of 5) 120 EventLimits_default
      DmInboxPolicy_default =
      if forallb (readable (policy_limits DmInboxPolicy_default)) (sort_strings cs)
      then Ok {| vi_recipient_public_key := hex_encode (key_of 5);
                 vi_source_event_id := id (sample_dm_list ["wss://b"; "wss://a"]%string);
                 vi_source_created_at := 100; vi_relay_urls := sort_strings cs;
                 vi_source_event := sample_dm_list ["wss://b"; "wss://a"]%string |}
      else Err (IBInvalidRelayList "invalid relay URL").
Proof.
  apply (dm_relay_list_roundtrip (key_of 5) (key_of 5) 100 ["wss://b"; "wss://a"]%string (key_of 1));
    first [vm_compute; reflexivity | vm_compute; discriminate | vm_compute; split; discriminate].
Defined.

Definition sample_inbox : VerifiedDmInbox :=
  match verify_dm_inbox (sample_dm_list ["wss://b"; "wss://a"]%string) (key_of 5) 120 EventLimits_default
          DmInboxPolicy_default with
  | Ok i => i
  | Err _ => {| vi_recipient_public_key := ""; vi_source_event_id := ""; vi_source_created_at := 0;
                vi_relay_urls := []; vi_source_event := sample_signed "none" |}
  end.

Lemma verify_dm_inbox_sound_witness :
  pubkey (sample_dm_list ["wss://b"; "wss://a"]%string) = hex_encode (key_of 5) /\
  vi_relay_urls sample_inbox = ["wss://a"; "wss://b"]%string.
Proof.
  split; [|vm_compute; reflexivity].
  apply (verify_dm_inbox_sound (sample_dm_list ["wss://b"; "wss://a"]%string) (key_of 5) 120 EventLimits_default
    DmInboxPolicy_default sample_inbox). vm_compute; reflexivity.
Defined.

Lemma dm_relay_list_query_unreadable_witness :
  create_dm_relay_list_with_aux (key_of 5) 100 ["wss://a?x"]%string (key_of 1) EventLimits_default =
    Ok (sample_dm_list ["wss://a?x"]%string) /\
  is_ok (verify_dm_inbox (sample_dm_list ["wss://a?x"]%string) (key_of 5) 120 EventLimits_default
    DmInboxPolicy_default) = false.
Proof.
  split; [vm_compute; reflexivity|].
  apply (dm_relay_list_query_unreadable (key_of 5) 100 ["wss://a?x"]%string (key_of 1) EventLimits_default
    (sample_dm_list ["wss://a?x"]%string) "wss://a?x"%string); [vm_compute; reflexivity | left | vm_compute; reflexivity].
Defined.
