(* ===== verification/RelayCache.v ===== *)
(** * Verified relay caches ([omachat-nostr/src/dm_relay_cache.rs], [relay_list_cache.rs])

    The caches of contacts' verified direct-message relays and NIP-65 lists: bounded maps
    from public key to the newest signed event accepted, persisted as JSON and verified
    again when they are loaded. *)

From Stdlib Require Import Strings.Byte Ascii String.
From S2P Require Import Prelude RustStd BTree Libs Serde Concrete Event GiftWrap RelayList.
Local Open Scope Z_scope.

(** ** The persisted form the caches share

    Each source file declares its own pair of structs; they differ in the width of the
    version. *)

Section Persisted.
Context {json : Json}.

Definition persisted_record (r : Z * SignedEvent) : Value :=
  JObject [("verified_at", JInt r.1); ("source_event", event_value r.2)]%string.
Definition persisted_cache (version : Z) (rs : list (Z * SignedEvent)) : Value :=
  JObject [("version", JInt version); ("records", JArray (map persisted_record rs))]%string.

Definition record_of_value (v : Value) : option (Z * SignedEvent) :=
  vs ← de_struct true ["verified_at"; "source_event"]%string v;
  match vs with
  | [v1; v2] => t ← de_uint u64_max v1; e ← event_of_value v2; Some (t, e)
  | _ => None
  end.
Definition cache_of_value (version_max : Z) (v : Value) : option (Z * list (Z * SignedEvent)) :=
  vs ← de_struct true ["version"; "records"]%string v;
  match vs with
  | [v1; v2] => n ← de_uint version_max v1; rs ← de_vec record_of_value v2; Some (n, rs)
  | _ => None
  end.

(** What the Rust types of a persisted record carry *)
Definition record_wf (r : Z * SignedEvent) : bool :=
  in_range 0 u64_max r.1 && event_wf (unsigned r.2) && utf8_valid (id r.2) && utf8_valid (sig r.2).
End Persisted.

(** [records.insert(key, record)], undone when the map no longer serialises *)
Definition cache_store {R E : Type} (to_json : BTreeMap R -> result E bytes) (key : string) (r : R)
  (records : BTreeMap R) : result E unit * BTreeMap R :=
  let stored := bt_insert key r records in
  match to_json stored with
  | Ok _ => (Ok tt, stored)
  | Err e =>
      (Err e, match bt_get key records with
              | Some previous => bt_insert key previous stored
              | None => bt_remove key stored
              end)
  end.

Inductive CacheMutation := Stored | Unchanged.
Inductive CacheLookup (R : Type) :=
| LookupMissing
| LookupFresh (r : R)
| LookupOfflineStale (r : R)
| LookupUnusableClockRollback (r : R).
Arguments LookupMissing {R}.
Arguments LookupFresh {R} r.
Arguments LookupOfflineStale {R} r.
Arguments LookupUnusableClockRollback {R} r.

(** ** The direct-message relay cache *)

Definition MAX_CACHED_DM_RECIPIENTS : Z := 4096.
Definition MAX_SERIALIZED_CACHE_BYTES : Z := 1048576.
Definition CACHE_FORMAT_VERSION : Z := 1.

Record VerifiedDmRelayRecord := {
  dr_recipient_pubkey : bytes;
  dr_source_event_id : bytes;
  dr_source_created_at : Z;
  dr_verified_at : Z;
  dr_relays : list string;
  dr_source_event : SignedEvent
}.

Inductive DmRelayCacheError :=
| DCInvalidRecipient
| DCInvalidSourceEvent
| DCInvalidVerificationTime
| DCInvalidEndpoint
| DCEndpointTooLong
| DCDuplicateEndpoint
| DCTooManyRelays
| DCCacheFull
| DCCacheTooLarge
| DCInvalidEncoding
| DCUnsupportedVersion
| DCRollback
| DCEquivocation
| DCSourceBindingMismatch.

Abbreviation VerifiedDmRelayCache := (BTreeMap VerifiedDmRelayRecord).

Definition zeros_32 : bytes := replicate 32 x00.

Section DmCache.
Context {hex : Hex} {json : Json} {sha : Sha256} {schnorr : Schnorr} {url : UrlLib}.

(** The loop over the endpoints, which [dm_relay_routing.rs] repeats with its own errors *)
Fixpoint endpoint_loop {E : Type} (too_long invalid duplicate : E) (relays canonical : list string)
  : result E (list string) :=
  match relays with
  | [] => Ok canonical
  | endpoint :: relays =>
      fail_if MAX_DM_RELAY_ENDPOINT_BYTES <? slen endpoint with too_long ;;
      let? parsed := ok_or invalid (url_parse endpoint) in
      fail_if negb (secure_or_loopback_url parsed) || negb (is_some (url_host_str parsed))
        || negb (slen (url_username parsed) =? 0) || is_some (url_password parsed)
        || is_some (url_fragment parsed) with invalid ;;
      fail_if bool_decide (url_to_string parsed ∈ canonical) with duplicate ;;
      endpoint_loop too_long invalid duplicate relays (canonical ++ [url_to_string parsed])
  end.

Definition canonicalize_and_validate (r : VerifiedDmRelayRecord)
  : result DmRelayCacheError VerifiedDmRelayRecord :=
  fail_if bool_decide (dr_recipient_pubkey r = zeros_32) with DCInvalidRecipient ;;
  fail_if bool_decide (dr_source_event_id r = zeros_32) with DCInvalidSourceEvent ;;
  fail_if dr_verified_at r <? dr_source_created_at r with DCInvalidVerificationTime ;;
  fail_if negb (String.eqb (pubkey (dr_source_event r)) (hex_encode (dr_recipient_pubkey r)))
    || negb (String.eqb (id (dr_source_event r)) (hex_encode (dr_source_event_id r)))
    || negb (created_at (dr_source_event r) =? dr_source_created_at r) with DCSourceBindingMismatch ;;
  fail_if MAX_DM_RELAYS_PER_RECIPIENT <? zlen (dr_relays r) with DCTooManyRelays ;;
  let? canonical := endpoint_loop DCEndpointTooLong DCInvalidEndpoint DCDuplicateEndpoint (dr_relays r) [] in
  Ok {| dr_recipient_pubkey := dr_recipient_pubkey r; dr_source_event_id := dr_source_event_id r;
        dr_source_created_at := dr_source_created_at r; dr_verified_at := dr_verified_at r;
        dr_relays := sort_strings canonical; dr_source_event := dr_source_event r |}.

(** [from_authenticated_event] *)
Definition from_authenticated_event (recipient event_id : bytes) (time verified_at : Z) (relays : list string)
  (event : SignedEvent) : result DmRelayCacheError VerifiedDmRelayRecord :=
  canonicalize_and_validate
    {| dr_recipient_pubkey := recipient; dr_source_event_id := event_id; dr_source_created_at := time;
       dr_verified_at := verified_at; dr_relays := relays; dr_source_event := event |}.

(** [VerifiedDmInbox::to_cache_record] *)
Definition to_cache_record (inbox : VerifiedDmInbox) (verified_at : Z)
  : result DmRelayCacheError VerifiedDmRelayRecord :=
  let? recipient := ok_or DCInvalidRecipient (hex_decode_to_slice 32 (vi_recipient_public_key inbox)) in
  let? event_id := ok_or DCInvalidSourceEvent (hex_decode_to_slice 32 (vi_source_event_id inbox)) in
  from_authenticated_event recipient event_id (vi_source_created_at inbox) verified_at (vi_relay_urls inbox)
    (vi_source_event inbox).

Definition dm_to_json (records : VerifiedDmRelayCache) : result DmRelayCacheError bytes :=
  let encoded := json_to_vec (persisted_cache CACHE_FORMAT_VERSION
    (map (fun r => (dr_verified_at r, dr_source_event r)) (bt_values records))) in
  fail_if MAX_SERIALIZED_CACHE_BYTES <? zlen encoded with DCCacheTooLarge ;;
  Ok encoded.

Definition dm_insert (record : VerifiedDmRelayRecord) : SE VerifiedDmRelayCache DmRelayCacheError CacheMutation :=
  fun records =>
  match canonicalize_and_validate record with
  | Err e => (Err e, records)
  | Ok record =>
      let key := hex_encode (dr_recipient_pubkey record) in
      let store := match cache_store dm_to_json key record records with
                   | (Ok _, stored) => (Ok Stored, stored)
                   | (Err e, stored) => (Err e, stored)
                   end in
      match bt_get key records with
      | Some current =>
          if dr_source_created_at record <? dr_source_created_at current then (Err DCRollback, records)
          else if dr_source_created_at record =? dr_source_created_at current then
            if negb (bool_decide (dr_source_event_id record = dr_source_event_id current))
            then (Err DCEquivocation, records)
            else if negb (bool_decide (dr_relays record = dr_relays current))
                    || negb (bool_decide (dr_source_event record = dr_source_event current))
            then (Err DCSourceBindingMismatch, records)
            else (Ok Unchanged, records)
          else store
      | None =>
          if MAX_CACHED_DM_RECIPIENTS <=? zlen records then (Err DCCacheFull, records) else store
      end
  end.

Definition dm_lookup (records : VerifiedDmRelayCache) (recipient_pubkey : bytes) (now freshness_window_secs : Z)
  : CacheLookup VerifiedDmRelayRecord :=
  match bt_get (hex_encode recipient_pubkey) records with
  | None => LookupMissing
  | Some record =>
      match checked_sub now (dr_source_created_at record) with
      | None => LookupUnusableClockRollback record
      | Some age => if age <=? freshness_window_secs then LookupFresh record else LookupOfflineStale record
      end
  end.

(** The loop of [from_json]; [seen] holds the recipients read so far. *)
Fixpoint dm_load (now : Z) (el : EventLimits) (policy : DmInboxPolicy) (rs : list (Z * SignedEvent))
  (seen : list bytes) (cache : VerifiedDmRelayCache) : result DmRelayCacheError VerifiedDmRelayCache :=
  match rs with
  | [] => Ok cache
  | (verified_at, event) :: rs =>
      fail_if now <? verified_at with DCInvalidVerificationTime ;;
      let? recipient := ok_or DCInvalidRecipient (hex_decode_to_slice 32 (pubkey event)) in
      fail_if bool_decide (recipient ∈ seen) with DCInvalidEncoding ;;
      let? verified := map_err (fun _ => DCInvalidSourceEvent) (verify_dm_inbox event recipient now el policy) in
      let? record := to_cache_record verified verified_at in
      match dm_insert record cache with
      | (Ok _, cache) => dm_load now el policy rs (recipient :: seen) cache
      | (Err e, _) => Err e
      end
  end.

Definition stale_tolerant (policy : DmInboxPolicy) : DmInboxPolicy := {|
  maximum_age_seconds := u64_max; ip_max_relays := ip_max_relays policy;
  ip_max_url_bytes := ip_max_url_bytes policy; require_tls := require_tls policy |}.

Definition dm_from_json (encoded : bytes) (now : Z) (el : EventLimits) (policy : DmInboxPolicy)
  : result DmRelayCacheError VerifiedDmRelayCache :=
  fail_if MAX_SERIALIZED_CACHE_BYTES <? zlen encoded with DCCacheTooLarge ;;
  let? persisted := ok_or DCInvalidEncoding (v ← json_from_slice encoded; cache_of_value u8_max v) in
  fail_if negb (persisted.1 =? CACHE_FORMAT_VERSION) with DCUnsupportedVersion ;;
  fail_if MAX_CACHED_DM_RECIPIENTS <? zlen persisted.2 with DCCacheFull ;;
  dm_load now el (stale_tolerant policy) persisted.2 [] [].
End DmCache.

(** ** The NIP-65 relay-list cache *)

Definition MAX_CACHED_RELAY_LISTS : Z := 4096.
Definition MAX_SERIALIZED_RELAY_LIST_CACHE_BYTES : Z := 1048576.
Definition RELAY_LIST_CACHE_VERSION : Z := 1.

Record VerifiedRelayListCacheRecord := {
  rc_relay_list : RelayList;
  rc_source_event : SignedEvent;
  rc_verified_at : Z
}.

Inductive RelayListCacheError :=
| RCInvalidVerificationTime
| RCInvalidSourceEvent
| RCInvalidEncoding
| RCUnsupportedVersion (version : Z)
| RCRollback
| RCCacheFull
| RCCacheTooLarge.

Abbreviation VerifiedRelayListCache := (BTreeMap VerifiedRelayListCacheRecord).

Section RelayListCache.
Context {hex : Hex} {json : Json} {sha : Sha256} {schnorr : Schnorr} {url : UrlLib}.

Definition rl_to_json (records : VerifiedRelayListCache) : result RelayListCacheError bytes :=
  let encoded := json_to_vec (persisted_cache RELAY_LIST_CACHE_VERSION
    (map (fun r => (rc_verified_at r, rc_source_event r)) (bt_values records))) in
  fail_if MAX_SERIALIZED_RELAY_LIST_CACHE_BYTES <? zlen encoded with RCCacheTooLarge ;;
  Ok encoded.

Definition insert_event (event : SignedEvent) (now verified_at : Z) (el : EventLimits)
  (limits : RelayDiscoveryLimits) : SE VerifiedRelayListCache RelayListCacheError CacheMutation :=
  fun records =>
  if (now <? verified_at) || (verified_at <? created_at event)
  then (Err RCInvalidVerificationTime, records)
  else match parse_nip65_relay_list event now el limits with
  | Err _ => (Err RCInvalidSourceEvent, records)
  | Ok relay_list =>
      let key := rl_public_key relay_list in
      let record := {| rc_relay_list := relay_list; rc_source_event := event; rc_verified_at := verified_at |} in
      let store := match cache_store rl_to_json key record records with
                   | (Ok _, stored) => (Ok Stored, stored)
                   | (Err e, stored) => (Err e, stored)
                   end in
      match bt_get key records with
      | Some current =>
          if created_at event <? created_at (rc_source_event current) then (Err RCRollback, records)
          else if (created_at event =? created_at (rc_source_event current))
                  && bool_decide (string_le (id (rc_source_event current)) (id event))
          then (Ok Unchanged, records)
          else store
      | None => if MAX_CACHED_RELAY_LISTS <=? zlen records then (Err RCCacheFull, records) else store
      end
  end.

Definition rl_lookup (records : VerifiedRelayListCache) (public_key : bytes) (now freshness_window_seconds : Z)
  : CacheLookup VerifiedRelayListCacheRecord :=
  match bt_get (hex_encode public_key) records with
  | None => LookupMissing
  | Some record =>
      match checked_sub now (created_at (rc_source_event record)) with
      | None => LookupUnusableClockRollback record
      | Some age => if age <=? freshness_window_seconds then LookupFresh record else LookupOfflineStale record
      end
  end.

Fixpoint rl_load (now : Z) (el : EventLimits) (limits : RelayDiscoveryLimits) (rs : list (Z * SignedEvent))
  (seen : list bytes) (cache : VerifiedRelayListCache) : result RelayListCacheError VerifiedRelayListCache :=
  match rs with
  | [] => Ok cache
  | (verified_at, event) :: rs =>
      fail_if now <? verified_at with RCInvalidVerificationTime ;;
      let? public_key := ok_or RCInvalidSourceEvent (hex_decode_to_slice 32 (pubkey event)) in
      fail_if bool_decide (public_key ∈ seen) with RCInvalidEncoding ;;
      match insert_event event now verified_at el limits cache with
      | (Ok _, cache) => rl_load now el limits rs (public_key :: seen) cache
      | (Err e, _) => Err e
      end
  end.

Definition rl_from_json (encoded : bytes) (now : Z) (el : EventLimits) (limits : RelayDiscoveryLimits)
  : result RelayListCacheError VerifiedRelayListCache :=
  fail_if MAX_SERIALIZED_RELAY_LIST_CACHE_BYTES <? zlen encoded with RCCacheTooLarge ;;
  let? persisted := ok_or RCInvalidEncoding (v ← json_from_slice encoded; cache_of_value u16_max v) in
  fail_if negb (persisted.1 =? RELAY_LIST_CACHE_VERSION) with RCUnsupportedVersion persisted.1 ;;
  fail_if MAX_CACHED_RELAY_LISTS <? zlen persisted.2 with RCCacheFull ;;
  rl_load now el limits persisted.2 [] [].
End RelayListCache.

(** ** Lemmas on storing and on the persisted form *)

Lemma cache_store_spec {R E : Type} (to_json : BTreeMap R -> result E bytes) key r records res records' :
  bt_sorted records -> cache_store to_json key r records = (res, records') ->
  match res with
  | Ok _ => records' = bt_insert key r records /\ is_ok (to_json records') = true
  | Err _ => records' = records
  end.
Proof.
  intros Hs. unfold cache_store. destruct (to_json _) eqn:Ej; intros [= <- <-].
  - by rewrite Ej.
  - destruct (bt_get key records) eqn:G; [by apply bt_insert_undo | by apply bt_remove_insert].
Qed.

Section PersistedFacts.
Context {json : Json} {json_laws : JsonLaws}.

Lemma record_of_persisted r : record_wf r = true -> record_of_value (persisted_record r) = Some r.
Proof using Type.
  destruct r as [t e]. unfold record_wf, event_wf. cbn [fst snd unsigned ue_created_at ue_kind]. intros H. split_bools.
  unfold record_of_value, persisted_record.
  change (JObject _) with (JObject (zip ["verified_at"; "source_event"]%string [JInt t; event_value e])).
  rewrite de_struct_zip; [|by apply (bool_decide_unpack _); vm_compute|done]. cbn [mbind option_bind de_uint].
  rewrite H. cbn [mbind option_bind]. by rewrite event_of_value_value.
Qed.

Lemma persisted_wf version rs :
  0 <= version <= u64_max -> forallb record_wf rs = true -> json_wf (persisted_cache version rs) = true.
Proof using Type.
  intros Hv Hr. unfold persisted_cache. cbn [json_wf forallb fst snd].
  rewrite andb_true_r. apply andb_true_iff. split.
  - apply andb_true_iff. split; [done|]. unfold_ints. lia.
  - apply andb_true_iff. split; [done|]. apply forallb_forall.
    intros v ([t e] & <- & Hin)%in_map_iff. eapply forallb_forall in Hr; [|exact Hin]. rename Hr into H. unfold record_wf, in_range in H. cbn [fst snd] in H. split_bools. unfold persisted_record. cbn [fst snd].
    change (json_wf (JInt t) && (json_wf (event_value e) && true) = true).
    rewrite event_value_wf by done. cbn. unfold_ints. lia.
Qed.

Lemma persisted_roundtrip m version rs :
  0 <= version <= m -> m <= u64_max -> forallb record_wf rs = true ->
  (v ← json_from_slice (json_to_vec (persisted_cache version rs)); cache_of_value m v) = Some (version, rs).
Proof using json_laws.
  intros Hv Hm Hr. rewrite json_roundtrip by (apply persisted_wf; [lia|done]). cbn [mbind option_bind].
  unfold cache_of_value, persisted_cache.
  change (JObject _) with (JObject (zip ["version"; "records"]%string [JInt version; JArray (map persisted_record rs)])).
  rewrite de_struct_zip; [|by apply (bool_decide_unpack _); vm_compute|done]. cbn [mbind option_bind].
  rewrite de_uint_int by done. cbn [mbind option_bind]. rewrite de_vec_map; [done|].
  apply Forall_forall. intros r Hin. apply record_of_persisted.
  eapply forallb_forall in Hr; [exact Hr|]. by apply list_elem_of_In.
Qed.

(** A prefix of a map serialises whenever the map does. *)
Lemma persisted_prefix version rs1 rs2 :
  zlen (json_to_vec (persisted_cache version rs1)) <= zlen (json_to_vec (persisted_cache version (rs1 ++ rs2))).
Proof using json_laws.
  unfold persisted_cache. rewrite map_app.
  apply (json_array_prefix [("version"%string, JInt version)] "records"%string).
Qed.

(** The next record of a map that serialises is stored. *)
Lemma cache_store_next {R E : Type} (to_json : BTreeMap R -> result E bytes) maximum version (f : R -> Z * SignedEvent)
  (too_large : E) pre k r rest :
  (forall c, to_json c = let encoded := json_to_vec (persisted_cache version (map f (bt_values c))) in
    fail_if maximum <? zlen encoded with too_large ;; Ok encoded) ->
  bt_sorted (pre ++ [(k, r)]) -> is_ok (to_json ((pre ++ [(k, r)]) ++ rest)) = true ->
  cache_store to_json k r pre = (Ok tt, pre ++ [(k, r)]).
Proof using json_laws.
  intros Hdef Hs Hj. unfold cache_store. rewrite (proj1 (bt_sorted_snoc _ _ _ Hs)).
  rewrite Hdef in *. cbv zeta in *. unfold bt_values in *. rewrite (fmap_app snd (pre ++ _)), map_app in Hj.
  pose proof (persisted_prefix version (map f (pre ++ [(k, r)]).*2) (map f rest.*2)).
  destruct (_ <? _) eqn:E2 in Hj; [done|]. clear Hj Hdef. destruct (_ <? _) eqn:E1 in |- *; [|done]. split_bools. lia.
Qed.
End PersistedFacts.

(** ** The direct-message cache *)

Section DmCacheFacts.
Context {hex : Hex} {json : Json} {sha : Sha256} {schnorr : Schnorr} {url : UrlLib}.

Definition dm_key (r : VerifiedDmRelayRecord) : string := hex_encode (dr_recipient_pubkey r).

Lemma dm_insert_spec record records res records' :
  bt_sorted records -> dm_insert record records = (res, records') ->
  match res with
  | Ok Stored => exists r, canonicalize_and_validate record = Ok r /\ records' = bt_insert (dm_key r) r records /\
      is_ok (dm_to_json records') = true /\
      match bt_get (dm_key r) records with
      | Some current => dr_source_created_at current < dr_source_created_at r
      | None => zlen records < MAX_CACHED_DM_RECIPIENTS
      end
  | _ => records' = records
  end.
Proof.
  intros Hs. unfold dm_insert. destruct (canonicalize_and_validate record) as [r|e] eqn:Ec; [|by intros [= <- <-]].
  cbv zeta. fold (dm_key r).
  destruct (cache_store dm_to_json (dm_key r) r records) as [r0 stored] eqn:Est.
  pose proof (cache_store_spec _ _ _ _ _ _ Hs Est) as Hst.
  destruct (bt_get (dm_key r) records) as [current|] eqn:Eg.
  - destruct (_ <? _) eqn:E1; [by intros [= <- <-]|]. destruct (_ =? _) eqn:E2.
    + destruct (negb _); [by intros [= <- <-]|]. destruct (_ || _); by intros [= <- <-].
    + destruct r0; intros [= <- <-]; [|done]. destruct Hst as [-> Hok]. exists r. rewrite Eg. split_bools.
      split_and!; try done. lia.
  - destruct (_ <=? _) eqn:E1; [by intros [= <- <-]|].
    destruct r0; intros [= <- <-]; [|done]. destruct Hst as [-> Hok]. exists r. rewrite Eg. split_bools.
    split_and!; done || lia.
Qed.

(** *** Canonicalising twice *)

Context {url_laws : UrlLaws}.

(** An endpoint that is its own serialisation *)
Definition self_canonical (u : string) : Prop := exists p, url_parse u = Some p /\ url_to_string p = u.

Lemma normalize_self_canonical raw limits u : normalize_relay_url raw limits = Ok u -> self_canonical u.
Proof using url_laws.
  intros (p & Hp & -> & _)%normalize_inv. exists p. split; [by eapply url_reparse | done].
Qed.

Lemma endpoint_loop_self {E : Type} (e1 e2 e3 : E) us acc cs :
  Forall self_canonical us -> endpoint_loop e1 e2 e3 us acc = Ok cs -> cs = acc ++ us.
Proof.
  intros Hf. revert acc. induction Hf as [|u us (p & Hp & Ht) Hf IH]; intros acc H.
  - injection H as <-. by rewrite app_nil_r.
  - cbn [endpoint_loop] in H. apply fail_if_ok_inv in H as [_ H]. rewrite Hp in H. cbn [ok_or rbind] in H.
    do 2 (apply fail_if_ok_inv in H as [_ H]). apply IH in H as ->. by rewrite Ht, <- app_assoc.
Qed.

(** The loop depends on the endpoints, not on their order. *)
Definition endpoint_ok (u : string) : Prop :=
  slen u <= MAX_DM_RELAY_ENDPOINT_BYTES /\ exists p, url_parse u = Some p /\ url_to_string p = u /\
    secure_or_loopback_url p = true /\ is_some (url_host_str p) = true /\ slen (url_username p) = 0 /\
    url_password p = None /\ url_fragment p = None.

Lemma endpoint_loop_self_ok {E : Type} (e1 e2 e3 : E) us acc :
  Forall self_canonical us ->
  endpoint_loop e1 e2 e3 us acc = Ok (acc ++ us) <-> Forall endpoint_ok us /\ NoDup us /\ (forall u, u ∈ us -> u ∉ acc).
Proof.
  intros Hf. revert acc. induction Hf as [|u us (p & Hp & Ht) Hf IH]; intros acc.
  - rewrite app_nil_r. split; [|done]. intros _. split_and!; [constructor|constructor|].
    intros u Hu. by apply elem_of_nil in Hu.
  - cbn [endpoint_loop]. rewrite Hp. cbn [ok_or rbind]. rewrite Ht.
    replace (acc ++ u :: us) with ((acc ++ [u]) ++ us) by (by rewrite <- app_assoc).
    split.
    + intros H. do 3 (apply fail_if_ok_inv in H as [? H]). apply IH in H as (K1 & K2 & K3). split_bools.
      rewrite is_some_false in *. split_and!.
      * constructor; [|done]. split; [lia|]. exists p. by split_and!.
      * constructor; [|done]. intros Hin. apply (K3 u Hin), elem_of_app. right. left.
      * intros v [->|Hv]%elem_of_cons; [done|]. apply K3 in Hv. rewrite elem_of_app in Hv. tauto.
    + intros (H1 & H2 & H3). inversion H1 as [|? ? [Hl (p' & Hp' & _ & Hsec & Hh & Hu & Hpw & Hfr)] Hrest]; subst.
      rewrite Hp in Hp'. injection Hp' as <-. apply NoDup_cons in H2 as [Hni Hn].
      rewrite (proj2 (Z.ltb_ge _ _)), Hsec, Hh, Hpw, Hfr, (proj2 (Z.eqb_eq _ 0)) by lia. cbn [negb orb is_some].
      rewrite bool_decide_false by (apply H3; left). apply IH. split_and!; [done|done|].
      intros v Hv. rewrite elem_of_app, list_elem_of_singleton. intros [Hva| ->]; [|done].
      by apply (H3 v); [right|].
Qed.

Lemma sort_strings_perm l : Permutation (sort_strings l) l.
Proof. apply merge_sort_Permutation. Qed.

Lemma sort_strings_idem l : sort_strings (sort_strings l) = sort_strings l.
Proof.
  apply (Sorted_unique string_le); [apply Sorted_merge_sort, _ | apply Sorted_merge_sort, _ |].
  by rewrite !sort_strings_perm.
Qed.

Lemma canonicalize_idem r r' :
  Forall self_canonical (dr_relays r) -> canonicalize_and_validate r = Ok r' ->
  canonicalize_and_validate r' = Ok r' /\ dr_relays r' = sort_strings (dr_relays r) /\
  dr_recipient_pubkey r' = dr_recipient_pubkey r /\ dr_source_event r' = dr_source_event r /\
  dr_verified_at r' = dr_verified_at r /\ dr_source_created_at r' = dr_source_created_at r.
Proof.
  intros Hf. unfold canonicalize_and_validate at 1. intros H.
  do 5 (apply fail_if_ok_inv in H as [? H]). apply rbind_ok_inv in H as (cs & Hcs & H).
  pose proof (endpoint_loop_self _ _ _ _ _ _ Hf Hcs) as ->. cbn [app] in *. injection H as <-.
  split; [|done]. unfold canonicalize_and_validate.
  cbn [dr_recipient_pubkey dr_source_event_id dr_source_created_at dr_verified_at dr_relays dr_source_event].
  repeat match goal with E : ?b = false |- context [if ?b then _ else _] => rewrite E end.
  assert (zlen (sort_strings (dr_relays r)) = zlen (dr_relays r)) as ->.
  { unfold zlen. f_equal. apply Permutation_length, sort_strings_perm. }
  repeat match goal with E : ?b = false |- context [if ?b then _ else _] => rewrite E end.
  assert (Forall self_canonical (sort_strings (dr_relays r))) as Hf' by (by rewrite sort_strings_perm).
  pose proof (proj1 (endpoint_loop_self_ok _ _ _ _ [] Hf) Hcs) as (K1 & K2 & K3).
  rewrite (proj2 (endpoint_loop_self_ok _ _ _ (sort_strings (dr_relays r)) [] Hf')).
  - cbn [rbind app]. by rewrite sort_strings_idem.
  - rewrite sort_strings_perm. split_and!; [done|done|]. intros u _. apply not_elem_of_nil.
Qed.

(** ** Genuine records *)

Context {hex_laws : HexLaws} {sha_laws : Sha256Laws} {json_laws : JsonLaws}.

Lemma verify_later ev t now el :
  verify ev t el = Ok tt -> t <= now -> verify ev now el = Ok tt.
Proof using hex_laws sha_laws.
  intros (H1 & H2 & H)%verify_ok Ht. apply verify_ok. split; [done|]. split; [|done].
  unfold saturating_add in *. lia.
Qed.

(** A list verified once verifies later, whatever its age, under the policy the loader uses. *)
Lemma verify_dm_inbox_later ev pk t now el policy inbox :
  verify_dm_inbox ev pk t el policy = Ok inbox -> t <= now <= u64_max -> 0 <= created_at ev ->
  verify_dm_inbox ev pk now el (stale_tolerant policy) = Ok inbox.
Proof using hex_laws sha_laws.
  unfold verify_dm_inbox. intros H Ht Hc. apply rbind_ok_inv in H as ([] & Hpol & H).
  apply rbind_ok_inv in H as (l & Hl & H). apply map_err_ok_inv in Hl.
  assert (validate_policy (stale_tolerant policy) = Ok tt) as ->.
  { unfold validate_policy in *. apply fail_if_ok_inv in Hpol as [Hp _]. cbn. split_bools.
    by rewrite !(proj2 (Z.eqb_neq _ 0)), (proj2 (Z.ltb_ge _ _)) by done. }
  cbn [rbind stale_tolerant ip_max_relays ip_max_url_bytes require_tls maximum_age_seconds].
  destruct (parse_nip17_inv _ _ _ _ _ Hl) as (Hv & _ & _ & _ & Hct & _).
  unfold parse_nip17_dm_relay_list in *. rewrite Hv in Hl. rewrite (verify_later _ _ _ _ Hv) by lia.
  cbn [map_err rbind] in *. rewrite Hl. cbn [map_err rbind].
  do 4 (apply fail_if_ok_inv in H as [? H]). split_bools. injection H as <-.
  repeat match goal with E : ?b = _ |- context [negb ?b] => rewrite E end. cbn [negb].
  rewrite (proj2 (Z.ltb_ge _ _)), (proj2 (Z.ltb_ge _ _)) by lia.
  match goal with E : _ && _ = false |- _ => by rewrite E end.
Qed.

(** A record made from an inbox that was verified at or before [now]. *)
Definition genuine (el : EventLimits) (policy : DmInboxPolicy) (now : Z) (r : VerifiedDmRelayRecord) : Prop :=
  exists t inbox, t <= now /\ dr_verified_at r <= now /\
    verify_dm_inbox (dr_source_event r) (dr_recipient_pubkey r) t el policy = Ok inbox /\
    to_cache_record inbox (dr_verified_at r) = Ok r /\
    record_wf (dr_verified_at r, dr_source_event r) = true.

Lemma to_cache_record_ok ev pk t el policy inbox at_ r :
  verify_dm_inbox ev pk t el policy = Ok inbox -> to_cache_record inbox at_ = Ok r ->
  zlen pk = 32 /\ dr_recipient_pubkey r = pk /\ dr_source_event r = ev /\ dr_verified_at r = at_ /\
  dr_source_created_at r = created_at ev /\ dr_relays r = sort_strings (vi_relay_urls inbox) /\
  canonicalize_and_validate r = Ok r.
Proof using hex_laws url_laws.
  intros Hv Hr.
  assert (Forall self_canonical (vi_relay_urls inbox) /\ vi_recipient_public_key inbox = hex_encode pk /\
    vi_source_created_at inbox = created_at ev /\ vi_source_event inbox = ev) as (Hself & Hrec & Hct & Hse).
  { unfold verify_dm_inbox in Hv. apply rbind_ok_inv in Hv as ([] & _ & Hv).
    apply rbind_ok_inv in Hv as (l & Hl & Hv). apply map_err_ok_inv in Hl.
    do 4 (apply fail_if_ok_inv in Hv as [_ Hv]). injection Hv as <-. cbn.
    destruct (parse_nip17_inv _ _ _ _ _ Hl) as (_ & _ & _ & _ & Hct & _ & Hrs).
    destruct (nip17_relays_ok _ _ _ _ Hrs) as (_ & _ & Hin & _); [constructor|].
    split_and!; try done. apply Forall_forall. intros u Hu. apply Hin in Hu as [Hu|(raw & _ & Hn)].
    - by apply elem_of_nil in Hu.
    - by eapply normalize_self_canonical. }
  unfold to_cache_record in Hr. rewrite Hrec, Hct, Hse in Hr.
  apply rbind_ok_inv in Hr as (pk' & Hpk & Hr). apply ok_or_ok_inv in Hpk.
  apply hex_decode_to_slice_inv in Hpk as [Hd Hl32]. rewrite hex_decode_encode in Hd. injection Hd as <-.
  apply rbind_ok_inv in Hr as (eid & _ & Hr).
  unfold from_authenticated_event in Hr.
  edestruct canonicalize_idem as (H1 & H2 & H3 & H4 & H5 & H6); [|exact Hr|]; [exact Hself|].
  by split_and!.
Qed.

Definition dm_cache_ok (el : EventLimits) (policy : DmInboxPolicy) (now : Z) (c : VerifiedDmRelayCache) : Prop :=
  bt_sorted c /\ zlen c <= MAX_CACHED_DM_RECIPIENTS /\
  Forall (fun e => e.1 = dm_key e.2 /\ genuine el policy now e.2) c.

Lemma dm_load_ok now el policy rest pre seen :
  dm_cache_ok el policy now (pre ++ rest) -> now <= u64_max -> is_ok (dm_to_json (pre ++ rest)) = true ->
  (forall pk, pk ∈ seen -> hex_encode pk ∈ pre.*1) ->
  dm_load now el (stale_tolerant policy)
    (map (fun r => (dr_verified_at r, dr_source_event r)) (bt_values rest)) seen pre = Ok (pre ++ rest).
Proof using Type*.
  revert pre seen. induction rest as [|[k r] rest IH]; intros pre seen Hok Hnow Hj Hseen; [by rewrite app_nil_r|].
  destruct Hok as (Hs & Hl & Hf).
  assert (k = dm_key r /\ genuine el policy now r) as (-> & t & inbox & Ht & Hat & Hv & Hr & Hwf).
  { rewrite Forall_app, Forall_cons in Hf. tauto. }
  destruct (to_cache_record_ok _ _ _ _ _ _ _ _ Hv Hr) as (H32 & _ & _ & _ & Hcr & _ & Hcan).
  replace (pre ++ (dm_key r, r) :: rest) with ((pre ++ [(dm_key r, r)]) ++ rest) in * by (by rewrite <- app_assoc).
  assert (bt_sorted (pre ++ [(dm_key r, r)])) as Hs1 by (eapply StronglySorted_app_1_l, Hs).
  destruct (bt_sorted_snoc _ _ _ Hs1) as [_ Hget].
  cbn [bt_values fmap list_fmap map snd dm_load]. rewrite (proj2 (Z.ltb_ge _ _)) by done.
  assert (pubkey (dr_source_event r) = hex_encode (dr_recipient_pubkey r)) as ->.
  { unfold canonicalize_and_validate in Hcan. do 4 (apply fail_if_ok_inv in Hcan as [? Hcan]). split_bools.
    by apply String.eqb_eq. }
  rewrite hex_decode_to_slice_encode by done. cbn [ok_or rbind].
  rewrite bool_decide_false.
  2:{ intros Hin%Hseen. apply bt_get_none in Hget. by apply Hget. }
  unfold record_wf, event_wf, in_range in Hwf. split_bools. cbn in *.
  rewrite (verify_dm_inbox_later _ _ t _ _ _ _ Hv) by (done || lia). cbn [map_err rbind]. rewrite Hr. cbn [rbind].
  assert (dm_insert r pre = (Ok Stored, pre ++ [(dm_key r, r)])) as ->.
  { unfold dm_insert. rewrite Hcan. fold (dm_key r). rewrite Hget.
    rewrite (proj2 (Z.leb_gt _ _)) by (unfold zlen in *; rewrite !length_app in Hl; cbn [length] in Hl; lia).
    by rewrite (cache_store_next dm_to_json MAX_SERIALIZED_CACHE_BYTES CACHE_FORMAT_VERSION _ _ _ _ _ rest (fun c => eq_refl) Hs1 Hj). }
  apply IH; [done|done|done|]. intros pk. rewrite elem_of_cons, fmap_app, elem_of_app.
  intros [->|Hpk%Hseen]; [right; left | by left].
Qed.
End DmCacheFacts.

(** ** The relay-list cache *)

(** [wins a b]: [a] is kept in preference to [b], being newer, or as new with an
    identifier that does not come after. *)
Definition wins (a b : SignedEvent) : Prop :=
  created_at b < created_at a \/ (created_at a = created_at b /\ string_le (id a) (id b)).

Lemma wins_total a b : wins a b \/ wins b a.
Proof. unfold wins. destruct (Z.lt_trichotomy (created_at a) (created_at b)) as [?|[?|?]], (total string_le (id a) (id b)); auto. Qed.
#[export] Instance wins_trans : Transitive wins.
Proof. intros a b c [?|[? ?]] [?|[? ?]]; unfold wins; [lia|lia|lia|]. right. split; [lia | by etrans]. Qed.
Lemma wins_antisym a b : wins a b -> wins b a -> created_at a = created_at b /\ id a = id b.
Proof. intros [?|[? ?]] [?|[? ?]]; [lia..|]. split; [done | by apply (anti_symm string_le)]. Qed.

(** One call of [insert_event] *)
Record RelayListInsert := { ri_event : SignedEvent; ri_now : Z; ri_verified_at : Z }.

Section RelayListCacheFacts.
Context {hex : Hex} {json : Json} {sha : Sha256} {schnorr : Schnorr} {url : UrlLib}.
Variables (el : EventLimits) (limits : RelayDiscoveryLimits).

(** What the cache accepts as a candidate, before it compares *)
Definition admissible (i : RelayListInsert) : bool :=
  (ri_verified_at i <=? ri_now i) && (created_at (ri_event i) <=? ri_verified_at i)
  && is_ok (parse_nip65_relay_list (ri_event i) (ri_now i) el limits).

(** The calls in sequence, with their results *)
Fixpoint rl_feed (ops : list RelayListInsert) (c : VerifiedRelayListCache)
  : list (result RelayListCacheError CacheMutation) * VerifiedRelayListCache :=
  match ops with
  | [] => ([], c)
  | i :: ops =>
      let r := insert_event (ri_event i) (ri_now i) (ri_verified_at i) el limits c in
      let rest := rl_feed ops r.2 in
      (r.1 :: rest.1, rest.2)
  end.

(** The two errors that are about the cache and not about the event *)
Definition out_of_room (r : result RelayListCacheError CacheMutation) : bool :=
  match r with Err RCCacheFull | Err RCCacheTooLarge => true | _ => false end.

Lemma parse_nip65_public_key ev now l : parse_nip65_relay_list ev now el limits = Ok l -> rl_public_key l = pubkey ev.
Proof.
  unfold parse_nip65_relay_list. intros H. apply rbind_ok_inv in H as (_ & _ & H). apply fail_if_ok_inv in H as [_ H].
  apply rbind_ok_inv in H as (_ & _ & H). apply rbind_ok_inv in H as (rs & _ & H).
  apply fail_if_ok_inv in H as [_ H]. by injection H as <-.
Qed.

Lemma rl_to_json_error c e : rl_to_json c = Err e -> e = RCCacheTooLarge.
Proof. unfold rl_to_json. by destruct (_ <? _); [intros [= <-]|]. Qed.

(** One insertion either keeps the cache, with a reason, or stores the event. *)
Lemma rl_insert_spec i c res c' :
  bt_sorted c -> insert_event (ri_event i) (ri_now i) (ri_verified_at i) el limits c = (res, c') ->
  (c' = c /\ (out_of_room res = false -> admissible i = true ->
     exists cur, bt_get (pubkey (ri_event i)) c = Some cur /\ wins (rc_source_event cur) (ri_event i))) \/
  (res = Ok Stored /\ admissible i = true /\ is_ok (rl_to_json c') = true /\
   (exists r, c' = bt_insert (pubkey (ri_event i)) r c /\ rc_source_event r = ri_event i) /\
   match bt_get (pubkey (ri_event i)) c with
   | Some cur => wins (ri_event i) (rc_source_event cur)
   | None => zlen c < MAX_CACHED_RELAY_LISTS
   end).
Proof.
  intros Hs. unfold insert_event, admissible.
  destruct ((ri_now i <? ri_verified_at i) || (ri_verified_at i <? created_at (ri_event i))) eqn:Et.
  { intros [= <- <-]. left. split; [done|]. intros _ Ha. lia. }
  destruct (parse_nip65_relay_list _ _ _ _) as [l|] eqn:Ep; [|intros [= <- <-]; left; split; [done|]; intros _ Ha; by rewrite andb_false_r in Ha].
  cbv zeta. pose proof (parse_nip65_public_key _ _ _ Ep) as ->.
  set (record := {| rc_relay_list := l |}).
  destruct (cache_store rl_to_json (pubkey (ri_event i)) record c) as [r0 stored] eqn:Est.
  pose proof (cache_store_spec _ _ _ _ _ _ Hs Est) as Hst.
  assert (r0 = Ok tt \/ r0 = Err RCCacheTooLarge) as Hr0.
  { unfold cache_store in Est. destruct (rl_to_json _) eqn:Ej; injection Est as <- <-; [by left|].
    right. by rewrite (rl_to_json_error _ _ Ej). }
  split_bools. destruct (bt_get (pubkey (ri_event i)) c) as [cur|] eqn:Eg.
  - destruct (created_at (ri_event i) <? _) eqn:E1.
    { intros [= <- <-]. left. split; [done|]. intros _ _. exists cur. split; [done|]. left. lia. }
    destruct (_ && bool_decide _) eqn:E2.
    { intros [= <- <-]. left. split; [done|]. intros _ _. exists cur. split_bools. split; [done|]. right. split; [lia|done]. }
    destruct Hr0 as [->| ->]; intros [= <- <-]; [|by left]. right. destruct Hst as [-> Hok].
    split_and!; try done; [cbn [is_ok]; lia|by exists record|]. unfold wins. split_bools.
    destruct (Z.eqb_spec (created_at (ri_event i)) (created_at (rc_source_event cur))) as [He|]; [|left; lia].
    right. split; [done|]. cbn in E2. split_bools. by destruct (total string_le (id (ri_event i)) (id (rc_source_event cur))).
  - destruct (_ <=? zlen c) eqn:E1; [by intros [= <- <-]; left|].
    destruct Hr0 as [->| ->]; intros [= <- <-]; [|by left]. right. destruct Hst as [-> Hok]. split_bools.
    split_and!; try done; [cbn [is_ok]; lia|by exists record].
Qed.

(** What has been fed, and what the cache keeps of it *)
Definition keeps_best (fed : list RelayListInsert) (c : VerifiedRelayListCache) : Prop :=
  forall k, match bt_get k c with
  | None => forall i, i ∈ fed -> admissible i = true -> pubkey (ri_event i) <> k
  | Some r =>
      (exists i, i ∈ fed /\ admissible i = true /\ ri_event i = rc_source_event r /\ pubkey (ri_event i) = k) /\
      (forall i, i ∈ fed -> admissible i = true -> pubkey (ri_event i) = k -> wins (rc_source_event r) (ri_event i))
  end.

Lemma wins_refl a : wins a a.
Proof. right. by split. Qed.

Lemma insert_keeps_best fed c i res c' :
  bt_sorted c -> keeps_best fed c ->
  insert_event (ri_event i) (ri_now i) (ri_verified_at i) el limits c = (res, c') -> out_of_room res = false ->
  bt_sorted c' /\ keeps_best (fed ++ [i]) c'.
Proof.
  intros Hs Hb Hi Hroom. destruct (rl_insert_spec _ _ _ _ Hs Hi) as [[-> Hkeep]|(-> & Hadm & _ & (r & -> & Hr) & Hcur)].
  - split; [done|]. intros k. specialize (Hb k). destruct (bt_get k c) as [r|] eqn:Eg.
    + destruct Hb as [(j & ? & ? & ? & ?) Hall]. split; [exists j; split; [apply elem_of_app; by left|done]|].
      intros j' [Hj| ->%list_elem_of_singleton]%elem_of_app Ha Hk; [by apply Hall|].
      destruct (Hkeep Hroom Ha) as (cur & Hc & Hw). rewrite Hk, Eg in Hc. by injection Hc as ->.
    + intros j [Hj| ->%list_elem_of_singleton]%elem_of_app Ha; [by apply Hb|]. intros Hk.
      destruct (Hkeep Hroom Ha) as (cur & Hc & _). by rewrite Hk, Eg in Hc.
  - split; [by apply bt_insert_sorted|]. intros k. specialize (Hb k). rewrite bt_get_insert by done.
    destruct (decide (k = pubkey (ri_event i))) as [->|N].
    + split; [exists i; split; [apply elem_of_app; right; by apply list_elem_of_singleton|done]|].
      rewrite Hr. intros j [Hj| ->%list_elem_of_singleton]%elem_of_app Ha Hk; [|apply wins_refl].
      destruct (bt_get (pubkey (ri_event i)) c) as [cur|]; [|by apply Hb in Hk].
      etrans; [exact Hcur | by apply Hb].
    + destruct (bt_get k c) as [r'|].
      * destruct Hb as [(j & ? & ? & ? & ?) Hall]. split; [exists j; split; [apply elem_of_app; by left|done]|].
        intros j' [Hj| ->%list_elem_of_singleton]%elem_of_app Ha Hk; [by apply Hall | congruence].
      * intros j [Hj| ->%list_elem_of_singleton]%elem_of_app Ha; [by apply Hb | congruence].
Qed.

Lemma feed_keeps_best ops fed c :
  bt_sorted c -> keeps_best fed c -> existsb out_of_room (rl_feed ops c).1 = false ->
  bt_sorted (rl_feed ops c).2 /\ keeps_best (fed ++ ops) (rl_feed ops c).2.
Proof.
  revert fed c. induction ops as [|i ops IH]; intros fed c Hs Hb Hroom; [by rewrite app_nil_r|].
  cbn [rl_feed fst snd existsb] in *. apply orb_false_iff in Hroom as [Hr1 Hr2].
  destruct (insert_event _ _ _ _ _ c) as [res c'] eqn:Ei. cbn [fst snd] in *.
  destruct (insert_keeps_best fed c i res c') as [Hs' Hb']; [done..|].
  replace (fed ++ i :: ops) with ((fed ++ [i]) ++ ops) by (by rewrite <- app_assoc). by apply IH.
Qed.
End RelayListCacheFacts.

(** ** Properties *)

Section Properties.
Context {hex : Hex} {json : Json} {sha : Sha256} {schnorr : Schnorr} {url : UrlLib}.
Context {hex_laws : HexLaws} {json_laws : JsonLaws} {sha_laws : Sha256Laws} {url_laws : UrlLaws}.

(** Inserting a verified inbox keeps the direct-message cache sound and never goes
    back. Every record stays one that was verified for its own key, the cache stays within
    its bound and serialisable, a refused or repeated insertion changes nothing, and a
    record is only ever replaced by one with a later source event. *)
Theorem dm_cache_insert_sound el policy now c ev pk t inbox verified_at r res c' :
  dm_cache_ok el policy now c ->
  verify_dm_inbox ev pk t el policy = Ok inbox -> t <= now ->
  to_cache_record inbox verified_at = Ok r -> verified_at <= now -> record_wf (verified_at, ev) = true ->
  dm_insert r c = (res, c') ->
  dm_cache_ok el policy now c' /\
  (res <> Ok Stored -> c' = c) /\
  (res = Ok Stored -> is_ok (dm_to_json c') = true /\ bt_get (hex_encode pk) c' = Some r) /\
  forall k old, bt_get k c = Some old -> exists new, bt_get k c' = Some new /\
    (new = old \/ dr_source_created_at old < dr_source_created_at new).
Proof using hex_laws url_laws.
  intros (Hs & Hl & Hf) Hv Ht Hr Hat Hwf Hi. pose proof (dm_insert_spec _ _ _ _ Hs Hi) as Hspec.
  destruct (to_cache_record_ok _ _ _ _ _ _ _ _ Hv Hr) as (_ & Hpk & Hev & Hva & _ & _ & Hcan).
  assert ((res = Ok Stored /\ c' = bt_insert (dm_key r) r c /\ is_ok (dm_to_json c') = true /\
      match bt_get (dm_key r) c with
      | Some current => dr_source_created_at current < dr_source_created_at r
      | None => zlen c < MAX_CACHED_DM_RECIPIENTS
      end) \/ (res <> Ok Stored /\ c' = c)) as [(-> & -> & Hj & Hcur)|[Hres ->]].
  { destruct res as [[]|]; [|by right|by right]. left. destruct Hspec as (r' & Hc & Hspec).
    rewrite Hcan in Hc. injection Hc as <-. done. }
  - assert (dm_key r = hex_encode pk) as Hkey by (unfold dm_key; by rewrite Hpk).
    split; [|split; [done|split]].
    + split; [by apply bt_insert_sorted|]. split.
      * unfold zlen in *. rewrite bt_length_insert by done. case_match; lia.
      * rewrite Forall_forall in *. intros x [->|Hx]%bt_insert_elem; [|by apply Hf].
        split; [done|]. exists t, inbox. cbn. rewrite Hva, Hev, Hpk. done.
    + intros _. rewrite Hkey, bt_get_insert, decide_True by done. by rewrite Hkey in Hj.
    + intros k old Hk. rewrite bt_get_insert by done. case_decide as E; [|eauto].
      subst k. rewrite Hk in Hcur. eauto.
  - split; [done|]. split; [done|]. split; [done|]. eauto.
Qed.

(** A direct-message cache that was written is read back as it was. Loading verifies
    every signed event again, at any later time and however old it is, and rebuilds the
    same map. *)
Theorem dm_cache_roundtrip el policy now c encoded :
  dm_cache_ok el policy now c -> now <= u64_max -> dm_to_json c = Ok encoded ->
  dm_from_json encoded now el policy = Ok c.
Proof using Type*.
  intros Hok Hnow Hj. pose proof Hok as (Hs & Hl & Hf).
  pose proof (dm_load_ok now el policy c [] [] Hok Hnow) as Hload. cbn [app] in Hload.
  rewrite Hj in Hload. specialize (Hload eq_refl). unfold dm_to_json in Hj. unfold dm_from_json.
  apply fail_if_ok_inv in Hj as [Hsize Hj]. injection Hj as <-. rewrite Hsize.
  rewrite persisted_roundtrip; [|by vm_compute|by vm_compute|].
  - cbn [ok_or rbind fst snd negb]. rewrite Z.eqb_refl. cbn [negb].
    unfold bt_values, zlen at 1. rewrite length_map, length_fmap. fold (zlen c).
    rewrite (proj2 (Z.ltb_ge _ _)) by done. apply Hload. intros pk Hin. by apply elem_of_nil in Hin.
  - apply forallb_forall. intros x (r & <- & Hin)%in_map_iff. apply list_elem_of_In in Hin.
    apply list_elem_of_fmap in Hin as (e & -> & He). rewrite Forall_forall in Hf.
    by destruct (Hf _ He) as (_ & ? & ? & _ & _ & _ & _ & ?).
Qed.

(** C30: The relay-list cache converges. Whatever lists are inserted, in whatever order, as
    long as the cache does not run out of room, it ends with exactly the authors that had an
    admissible event and, for each, the newest of them, the lowest identifier deciding
    between events of the same time; so two orders end with the same events. *)
Theorem relay_list_cache_converges el limits ops ops' :
  existsb out_of_room (rl_feed el limits ops []).1 = false ->
  keeps_best el limits ops (rl_feed el limits ops []).2 /\
  (Permutation ops ops' -> existsb out_of_room (rl_feed el limits ops' []).1 = false ->
   forall k, (fun r => (created_at (rc_source_event r), id (rc_source_event r))) <$> bt_get k (rl_feed el limits ops []).2 =
             (fun r => (created_at (rc_source_event r), id (rc_source_event r))) <$> bt_get k (rl_feed el limits ops' []).2).
Proof using Type.
  assert (forall ops, existsb out_of_room (rl_feed el limits ops []).1 = false ->
    keeps_best el limits ops (rl_feed el limits ops []).2) as Hall.
  { intros l Hl. apply (feed_keeps_best el limits l [] []); [apply bt_sorted_nil| |done].
    intros k. cbn. intros i Hi. by apply elem_of_nil in Hi. }
  intros H. split; [by apply Hall|]. intros Hp H' k.
  pose proof (Hall _ H k) as Hk. pose proof (Hall _ H' k) as Hk'.
  destruct (bt_get k (rl_feed el limits ops []).2) as [r|], (bt_get k (rl_feed el limits ops' []).2) as [r'|]; cbn; [|exfalso..|done].
  - destruct Hk as [(i & Hi & Ha & E & Ek) Hw], Hk' as [(i' & Hi' & Ha' & E' & Ek') Hw'].
    destruct (wins_antisym (rc_source_event r) (rc_source_event r')) as [-> ->]; [| |done].
    + rewrite <- E'. apply Hw; [by rewrite Hp|done|done].
    + rewrite <- E. apply Hw'; [by rewrite <- Hp|done|done].
  - destruct Hk as [(i & Hi & Ha & _ & Ek) _]. apply (Hk' i); [by rewrite <- Hp|done|done].
  - destruct Hk' as [(i & Hi & Ha & _ & Ek) _]. apply (Hk i); [by rewrite Hp|done|done].
Qed.
End Properties.

(** ** Witnesses *)

Definition sample_record : VerifiedDmRelayRecord :=
  match to_cache_record sample_inbox 110 with
  | Ok r => r
  | Err _ => {| dr_recipient_pubkey := []; dr_source_event_id := []; dr_source_created_at := 0;
                dr_verified_at := 0; dr_relays := []; dr_source_event := sample_signed "none" |}
  end.

Definition sample_dm_cache : VerifiedDmRelayCache := (dm_insert sample_record []).2.

Lemma dm_cache_nil_ok : dm_cache_ok EventLimits_default DmInboxPolicy_default 120 [].
Proof. split; [apply bt_sorted_nil|]. split; [vm_compute; discriminate | constructor]. Qed.

Lemma sample_dm_cache_ok : dm_cache_ok EventLimits_default DmInboxPolicy_default 120 sample_dm_cache.
Proof.
  assert (sample_dm_cache = [(hex_encode (key_of 5), sample_record)]) as -> by (vm_compute; reflexivity).
  split; [repeat constructor|]. split; [vm_compute; discriminate|].
  constructor; [|constructor]. split; [vm_compute; reflexivity|].
  exists 120, sample_inbox. split_and!; [lia | vm_compute; discriminate | vm_compute; reflexivity..].
Qed.

Lemma dm_cache_insert_sound_witness :
  bt_get (hex_encode (key_of 5)) sample_dm_cache = Some sample_record /\
  dm_cache_ok EventLimits_default DmInboxPolicy_default 120 sample_dm_cache.
Proof.
  split; [vm_compute; reflexivity|].
  apply (dm_cache_insert_sound EventLimits_default DmInboxPolicy_default 120 []
    (sample_dm_list ["wss://b"; "wss://a"]%string) (key_of 5) 120 sample_inbox 110 sample_record (Ok Stored) sample_dm_cache);
    [apply dm_cache_nil_ok | vm_compute; reflexivity | lia | vm_compute; reflexivity | lia
    | vm_compute; reflexivity | vm_compute; reflexivity].
Defined.

Lemma dm_cache_roundtrip_witness :
  exists encoded, dm_to_json sample_dm_cache = Ok encoded /\
    dm_from_json encoded 120 EventLimits_default DmInboxPolicy_default = Ok sample_dm_cache.
Proof.
  destruct (dm_to_json sample_dm_cache) as [encoded|] eqn:E; [|by vm_compute in E].
  exists encoded. split; [reflexivity|].
  apply (dm_cache_roundtrip EventLimits_default DmInboxPolicy_default 120 sample_dm_cache encoded);
    [exact sample_dm_cache_ok | vm_compute; discriminate | exact E].
Defined.

Definition sample_list_event (t : Z) (aux : Z) : SignedEvent :=
  sample_event_of (create_nip65_relay_list_with_aux (key_of 5) t
    [{| rp_url := "wss://a"; rp_read := true; rp_write := Z.odd aux |}]%string (key_of 1) EventLimits_default
    RelayDiscoveryLimits_default).

Definition sample_ops : list RelayListInsert :=
  [{| ri_event := sample_list_event 100 1; ri_now := 120; ri_verified_at := 110 |};
   {| ri_event := sample_list_event 100 2; ri_now := 120; ri_verified_at := 110 |};
   {| ri_event := sample_list_event 90 1; ri_now := 120; ri_verified_at := 110 |}].

Lemma relay_list_cache_converges_witness :
  keeps_best EventLimits_default RelayDiscoveryLimits_default sample_ops
    (rl_feed EventLimits_default RelayDiscoveryLimits_default sample_ops []).2 /\
  length (rl_feed EventLimits_default RelayDiscoveryLimits_default sample_ops []).2 = 1%nat.
Proof.
  split; [|vm_compute; reflexivity].
  apply (relay_list_cache_converges EventLimits_default RelayDiscoveryLimits_default sample_ops []).
  vm_compute; reflexivity.
Defined.
