(* ===== verification/Routing.v ===== *)
(** * Routing a direct message ([omachat-nostr/src/dm_relay_routing.rs],
    [dm_routed_publish.rs])

    From the cache of verified relays, or a verified inbox, to the relays a gift wrap is
    sent to and the acknowledgements it needs. *)

From Stdlib Require Import Strings.Byte Ascii String.
From S2P Require Import Prelude RustStd BTree Libs Serde Concrete Event GiftWrap RelayList RelayCache.
Local Open Scope Z_scope.

Record DmRelayRoutingPolicy := {
  freshness_window_seconds : Z;
  allow_stale_offline : bool;
  allow_bootstrap_when_missing : bool
}.
Definition DmRelayRoutingPolicy_default : DmRelayRoutingPolicy := {|
  freshness_window_seconds := 30 * 24 * 60 * 60;
  allow_stale_offline := false; allow_bootstrap_when_missing := false |}.

Inductive DmRelayRouteProvenance :=
| VerifiedFresh (source_event_id : bytes)
| VerifiedOfflineStale (source_event_id : bytes)
| BootstrapMissingMetadata.

Record DmRelayRoute := {
  dmr_recipient_public_key : bytes;
  dmr_relay_urls : list string;
  dmr_provenance : DmRelayRouteProvenance;
  dmr_required_acknowledgements : Z
}.

Inductive DmRelayRoutingError :=
| DRInvalidRecipientPublicKey
| DRInvalidSourceEventId
| DRMissingMetadata
| DRStaleMetadata
| DRClockRollback
| DRNoRelayEndpoints
| DRTooManyRelayEndpoints
| DRRelayEndpointTooLong
| DRInvalidRelayEndpoint
| DRDuplicateRelayEndpoint.

Record RoutedDmPublishPlan := {
  rpp_event : SignedEvent;
  rpp_recipient_public_key : bytes;
  rpp_relay_urls : list string;
  rpp_provenance : DmRelayRouteProvenance;
  rpp_required_acknowledgements : Z
}.

Inductive RoutedDmPublishError :=
| RDPInvalidEvent (error : string)
| RDPWrongKind
| RDPRecipientMismatch
| RDPEmptyRoute.

Definition mk_route (recipient_public_key : bytes) (relay_urls : list string) (provenance : DmRelayRouteProvenance)
  : DmRelayRoute := {|
  dmr_recipient_public_key := recipient_public_key; dmr_relay_urls := relay_urls;
  dmr_provenance := provenance; dmr_required_acknowledgements := Z.min (zlen relay_urls) 2 |}.

Definition route_verified (record : VerifiedDmRelayRecord) (stale : bool) : result DmRelayRoutingError DmRelayRoute :=
  fail_if zlen (dr_relays record) =? 0 with DRNoRelayEndpoints ;;
  Ok (mk_route (dr_recipient_pubkey record) (dr_relays record)
        (if stale then VerifiedOfflineStale (dr_source_event_id record)
         else VerifiedFresh (dr_source_event_id record))).

Section Routing.
Context {hex : Hex} {json : Json} {sha : Sha256} {schnorr : Schnorr} {url : UrlLib}.

Definition route_bootstrap (recipient_public_key : bytes) (bootstrap_relays : list string)
  : result DmRelayRoutingError DmRelayRoute :=
  fail_if zlen bootstrap_relays =? 0 with DRNoRelayEndpoints ;;
  fail_if MAX_DM_RELAYS_PER_RECIPIENT <? zlen bootstrap_relays with DRTooManyRelayEndpoints ;;
  let? canonical := endpoint_loop DRRelayEndpointTooLong DRInvalidRelayEndpoint DRDuplicateRelayEndpoint
                      bootstrap_relays [] in
  Ok (mk_route recipient_public_key (sort_strings canonical) BootstrapMissingMetadata).

Definition route_dm_relays (cache : VerifiedDmRelayCache) (recipient_pubkey : bytes) (now : Z)
  (bootstrap_relays : list string) (policy : DmRelayRoutingPolicy) : result DmRelayRoutingError DmRelayRoute :=
  fail_if negb (schnorr_key_ok recipient_pubkey) with DRInvalidRecipientPublicKey ;;
  match dm_lookup cache recipient_pubkey now (freshness_window_seconds policy) with
  | LookupFresh record => route_verified record false
  | LookupOfflineStale record =>
      if allow_stale_offline policy then route_verified record true else Err DRStaleMetadata
  | LookupUnusableClockRollback _ => Err DRClockRollback
  | LookupMissing =>
      if allow_bootstrap_when_missing policy then route_bootstrap recipient_pubkey bootstrap_relays
      else Err DRMissingMetadata
  end.

Definition route_verified_dm_inbox (inbox : VerifiedDmInbox) : result DmRelayRoutingError DmRelayRoute :=
  let? recipient := ok_or DRInvalidRecipientPublicKey (hex_decode_to_slice 32 (vi_recipient_public_key inbox)) in
  fail_if negb (schnorr_key_ok recipient) with DRInvalidRecipientPublicKey ;;
  let? event_id := ok_or DRInvalidSourceEventId (hex_decode_to_slice 32 (vi_source_event_id inbox)) in
  fail_if zlen (vi_relay_urls inbox) =? 0 with DRNoRelayEndpoints ;;
  Ok (mk_route recipient (vi_relay_urls inbox) (VerifiedFresh event_id)).

Definition plan_routed_dm_publish (event : SignedEvent) (route : DmRelayRoute) (now : Z) (event_limits : EventLimits)
  : result RoutedDmPublishError RoutedDmPublishPlan :=
  let? _ := map_err (fun e => RDPInvalidEvent (EventError_to_string e)) (verify event now event_limits) in
  fail_if negb (kind event =? GIFT_WRAP_KIND) with RDPWrongKind ;;
  let recipient := hex_encode (dmr_recipient_public_key route) in
  let recipient_tags := List.filter (tag_is "p") (tags event) in
  fail_if match recipient_tags with
          | [t] => negb (zlen t =? 2) || negb (bool_decide (t !! 1%nat = Some recipient))
          | _ => true
          end with RDPRecipientMismatch ;;
  fail_if (zlen (dmr_relay_urls route) =? 0) || (dmr_required_acknowledgements route =? 0) with RDPEmptyRoute ;;
  Ok {| rpp_event := event; rpp_recipient_public_key := dmr_recipient_public_key route;
        rpp_relay_urls := dmr_relay_urls route; rpp_provenance := dmr_provenance route;
        rpp_required_acknowledgements := dmr_required_acknowledgements route |}.
End Routing.

(** ** Lemmas *)

Section RoutingFacts.
Context {hex : Hex} {json : Json} {sha : Sha256} {schnorr : Schnorr} {url : UrlLib}.

Lemma route_verified_inv record stale r :
  route_verified record stale = Ok r ->
  dr_relays record <> [] /\ r = mk_route (dr_recipient_pubkey record) (dr_relays record)
    (if stale then VerifiedOfflineStale (dr_source_event_id record) else VerifiedFresh (dr_source_event_id record)).
Proof.
  unfold route_verified. intros H. apply fail_if_ok_inv in H as [Hz [= <-]]. split; [|done].
  intros E. by rewrite E in Hz.
Qed.

Lemma plan_routed_inv event r now el plan :
  plan_routed_dm_publish event r now el = Ok plan ->
  verify event now el = Ok tt /\ kind event = GIFT_WRAP_KIND /\
  List.filter (tag_is "p") (tags event) = [["p"%string; hex_encode (dmr_recipient_public_key r)]] /\
  dmr_relay_urls r <> [] /\
  plan = {| rpp_event := event; rpp_recipient_public_key := dmr_recipient_public_key r;
            rpp_relay_urls := dmr_relay_urls r; rpp_provenance := dmr_provenance r;
            rpp_required_acknowledgements := dmr_required_acknowledgements r |}.
Proof.
  unfold plan_routed_dm_publish. intros H. apply rbind_ok_inv in H as ([] & Hv & H). apply map_err_ok_inv in Hv.
  do 3 (apply fail_if_ok_inv in H as [? H]). injection H as <-. split_bools.
  split_and!; try done.
  - destruct (List.filter (tag_is "p") (tags event)) as [|t [|]] eqn:E; try done. split_bools.
    assert (In t (List.filter (tag_is "p") (tags event))) as Hin by (rewrite E; by left).
    apply filter_In in Hin as [_ Hp]. destruct t as [|n [|x [|? ?]]]; try done.
    + cbn in Hp. apply String.eqb_eq in Hp as ->. simplify_eq/=. done.
    + exfalso. unfold zlen in *. cbn [length] in *. lia.
  - intros E. rewrite E in *. done.
Qed.

Lemma dm_lookup_inv cache pk now window record :
  (dm_lookup cache pk now window = LookupFresh record ->
     bt_get (hex_encode pk) cache = Some record /\ dr_source_created_at record <= now <= dr_source_created_at record + window) /\
  (dm_lookup cache pk now window = LookupOfflineStale record ->
     bt_get (hex_encode pk) cache = Some record /\ dr_source_created_at record + window < now /\
     dr_source_created_at record <= now).
Proof.
  unfold dm_lookup, checked_sub. destruct (bt_get (hex_encode pk) cache) as [r|]; [|done].
  destruct (_ <=? now) eqn:E1; [|done]. destruct (_ <=? window) eqn:E2; split_bools; split; intros [= ->]; lia || (split; [done|lia]).
Qed.
End RoutingFacts.

(** ** Properties *)

Section Properties.
Context {hex : Hex} {json : Json} {sha : Sha256} {schnorr : Schnorr} {url : UrlLib}.
Context {hex_laws : HexLaws} {json_laws : JsonLaws} {sha_laws : Sha256Laws} {url_laws : UrlLaws}.

(** A routed message goes where its recipient asked. When a gift wrap is planned from a
    sound cache, it verifies, is persistent and names exactly the recipient; the quorum is
    one or two relays of the route; and the relays are those of a relay list signed by the
    recipient and fresh enough, or stale with the policy's permission, or, only when nothing
    is cached for the recipient and the policy permits, the sorted canonical bootstrap
    relays. *)
Theorem routed_plan_sound el ipolicy t0 cache pk now bootstrap policy route event el' now' plan :
  dm_cache_ok el ipolicy t0 cache ->
  route_dm_relays cache pk now bootstrap policy = Ok route ->
  plan_routed_dm_publish event route now' el' = Ok plan ->
  verify event now' el' = Ok tt /\ kind event = GIFT_WRAP_KIND /\
  List.filter (tag_is "p") (tags event) = [["p"%string; hex_encode pk]] /\
  rpp_recipient_public_key plan = pk /\ rpp_event plan = event /\
  1 <= rpp_required_acknowledgements plan <= zlen (rpp_relay_urls plan) /\
  rpp_required_acknowledgements plan <= 2 /\
  match rpp_provenance plan with
  | BootstrapMissingMetadata =>
      allow_bootstrap_when_missing policy = true /\ bt_get (hex_encode pk) cache = None /\
      route_bootstrap pk bootstrap = Ok route
  | VerifiedFresh i | VerifiedOfflineStale i =>
      exists record t inbox, bt_get (hex_encode pk) cache = Some record /\ t <= t0 /\
        verify_dm_inbox (dr_source_event record) pk t el ipolicy = Ok inbox /\
        rpp_relay_urls plan = sort_strings (vi_relay_urls inbox) /\ i = dr_source_event_id record /\
        created_at (dr_source_event record) <= now /\
        (now <= created_at (dr_source_event record) + freshness_window_seconds policy \/
         allow_stale_offline policy = true /\ rpp_provenance plan = VerifiedOfflineStale i)
  end.
Proof using hex_laws url_laws.
  intros (Hs & _ & Hf) Hroute Hplan. apply plan_routed_inv in Hplan as (Hv & Hk & Htag & Hne & ->).
  cbn [rpp_event rpp_recipient_public_key rpp_relay_urls rpp_provenance rpp_required_acknowledgements].
  unfold route_dm_relays in Hroute. apply fail_if_ok_inv in Hroute as [_ Hroute].
  assert (forall record, bt_get (hex_encode pk) cache = Some record -> exists t inbox,
    dr_recipient_pubkey record = pk /\ t <= t0 /\ verify_dm_inbox (dr_source_event record) pk t el ipolicy = Ok inbox /\
    dr_relays record = sort_strings (vi_relay_urls inbox) /\
    dr_source_created_at record = created_at (dr_source_event record)) as Hrec.
  { intros record Hg. rewrite Forall_forall in Hf. apply bt_get_in, Hf in Hg as [Hkey (t & inbox & Ht & _ & Hver & Hr & _)].
    cbn in Hkey, Ht, Hver, Hr. apply hex_encode_inj in Hkey as ->. exists t, inbox.
    destruct (to_cache_record_ok _ _ _ _ _ _ _ _ Hver Hr) as (_ & _ & _ & _ & Hct & Hrel & _). done. }
  assert (forall relays prov, relays <> [] -> dmr_required_acknowledgements (mk_route pk relays prov) = Z.min (zlen relays) 2 /\
    0 < zlen relays) as Hquorum.
  { intros relays prov Hn. split; [done|]. destruct relays; [done|]. unfold zlen. cbn [length]. lia. }
  destruct (dm_lookup cache pk now (freshness_window_seconds policy)) as [|record|record|record] eqn:El.
  - unfold dm_lookup in El. destruct (bt_get (hex_encode pk) cache) eqn:Eg; [repeat case_match; done|].
    destruct (allow_bootstrap_when_missing policy); [|done]. pose proof Hroute as Hb.
    unfold route_bootstrap in Hroute. do 2 (apply fail_if_ok_inv in Hroute as [_ Hroute]).
    apply rbind_ok_inv in Hroute as (cs & _ & [= <-]). cbn in *. destruct (Hquorum _ BootstrapMissingMetadata Hne) as [_ Hz].
    split_and!; done || lia.
  - apply (proj1 (dm_lookup_inv _ _ _ _ _)) in El as [Hg Ht]. apply route_verified_inv in Hroute as [Hn ->].
    destruct (Hrec _ Hg) as (t & inbox & Hpk & Hle & Hver & Hrel & Hct). rewrite Hpk in *. cbn in *.
    destruct (Hquorum _ BootstrapMissingMetadata Hn) as [_ Hz].
    split_and!; try done; try lia. exists record, t, inbox. rewrite <- Hct. split_and!; try done; lia.
  - apply (proj2 (dm_lookup_inv _ _ _ _ _)) in El as (Hg & Ht & Ht'). destruct (allow_stale_offline policy); [|done].
    apply route_verified_inv in Hroute as [Hn ->].
    destruct (Hrec _ Hg) as (t & inbox & Hpk & Hle & Hver & Hrel & Hct). rewrite Hpk in *. cbn in *.
    destruct (Hquorum _ BootstrapMissingMetadata Hn) as [_ Hz].
    split_and!; try done; try lia. exists record, t, inbox. rewrite <- Hct. split_and!; try done. by right.
  - done.
Qed.
End Properties.

(** ** Witnesses *)

Definition sample_wrap : SignedEvent :=
  sample_event_of (sign_with_aux {| ue_pubkey := hex_encode (key_of 7); ue_created_at := 115; ue_kind := GIFT_WRAP_KIND;
    ue_tags := [["p"%string; hex_encode (key_of 5)]]; ue_content := "sealed" |} (key_of 7) (key_of 1) EventLimits_default).

Definition sample_route : DmRelayRoute :=
  mk_route (key_of 5) ["wss://a"; "wss://b"]%string (VerifiedFresh (dr_source_event_id sample_record)).

Definition sample_plan : RoutedDmPublishPlan := {|
  rpp_event := sample_wrap; rpp_recipient_public_key := key_of 5; rpp_relay_urls := ["wss://a"; "wss://b"]%string;
  rpp_provenance := VerifiedFresh (dr_source_event_id sample_record); rpp_required_acknowledgements := 2 |}.

Lemma routed_plan_sound_witness :
  plan_routed_dm_publish sample_wrap sample_route 120 EventLimits_default = Ok sample_plan /\
  List.filter (tag_is "p") (tags sample_wrap) = [["p"%string; hex_encode (key_of 5)]].
Proof.
  split; [vm_compute; reflexivity|].
  apply (routed_plan_sound EventLimits_default DmInboxPolicy_default 120 sample_dm_cache (key_of 5) 130 []
    DmRelayRoutingPolicy_default sample_route sample_wrap EventLimits_default 120 sample_plan);
    [exact sample_dm_cache_ok | vm_compute; reflexivity | vm_compute; reflexivity].
Defined.
