(* ===== verification/Pool.v ===== *)
(** * The relay pool and authenticated delivery ([omachat-nostr/src/pool.rs],
    [dm_delivery.rs])

    One logical connection over several relays: publishing to a quorum, keeping
    subscriptions in step, merging notifications without duplicates, and delivering a gift
    wrap only through relays that authenticated the sender. What each connection does
    ([Relay]) is the environment of a call. *)

From Stdlib Require Import Strings.Byte Ascii String.
From S2P Require Import Prelude RustStd Libs Serde Concrete Event Frame Relay Dedup GiftWrap RelayList RelayCache Routing.
Local Open Scope Z_scope.

Record RelayPoolConfig := {
  acknowledgement_threshold : Z;
  dedup_capacity : Z;
  dedup_ttl : Z
}.
Definition RelayPoolConfig_default : RelayPoolConfig := {|
  acknowledgement_threshold := 1; dedup_capacity := 10000; dedup_ttl := from_secs (5 * 60) |}.

Record RelayPublishOutcome := {
  rpo_relay_index : nat;
  rpo_result : result RelayError PublishAcknowledgement
}.
Record PoolPublishResult := {
  ppr_accepted : Z;
  ppr_attempted : Z;
  ppr_outcomes : list RelayPublishOutcome
}.
Record PoolNotification := { pn_relay_index : nat; pn_notification : RelayNotification }.

Inductive RelayPoolError :=
| PEInvalidConfig (message : string)
| PEConnection (e : RelayError)
| PEAcknowledgementThreshold (accepted required attempted : Z).

(** The pool; a connection is its index below [connections]. *)
Record RelayPool := {
  connections : nat;
  pool_config : RelayPoolConfig;
  pool_subscriptions : gmap string (list Value);
  subscription_sync : list (gset string);
  pool_seen : Dedup;
  closed_notifications : gset nat
}.

(** How the connections answer during one call *)
Record Connections := {
  conn_health : nat -> RelayHealth;
  conn_publish : nat -> SignedEvent -> result RelayError PublishAcknowledgement;
  conn_subscribe : nat -> string -> list Value -> result RelayError unit;
  conn_close : nat -> string -> result RelayError unit
}.

Definition is_connected (h : RelayHealth) : bool := match h with HConnected => true | _ => false end.

Section Spawn.
Context {url : UrlLib}.

Fixpoint validate_all (configs : list RelayConfig) : result RelayError unit :=
  match configs with
  | [] => Ok tt
  | c :: configs => let? _ := RelayConfig_validate c in validate_all configs
  end.

Definition RelayPool_spawn (relay_configs : list RelayConfig) (config : RelayPoolConfig)
  : result RelayPoolError RelayPool :=
  fail_if zlen relay_configs =? 0 with PEInvalidConfig "at least one relay is required" ;;
  fail_if (acknowledgement_threshold config =? 0) || (zlen relay_configs <? acknowledgement_threshold config)
    with PEInvalidConfig "acknowledgement threshold must fit the relay count" ;;
  fail_if (dedup_capacity config =? 0) || (dedup_ttl config =? 0)
    with PEInvalidConfig "dedup capacity and TTL must be non-zero" ;;
  let? _ := map_err PEConnection (validate_all relay_configs) in
  Ok {| connections := length relay_configs; pool_config := config; pool_subscriptions := ∅;
        subscription_sync := replicate (length relay_configs) ∅; pool_seen := Dedup_new;
        closed_notifications := ∅ |}.
End Spawn.

(** ** Publishing *)

(** [join_all] over the connections that pass the filter *)
Definition attempts (env : Connections) (event : SignedEvent) (eligible : nat -> bool) (n : nat)
  : list RelayPublishOutcome :=
  map (fun i => {| rpo_relay_index := i; rpo_result := conn_publish env i event |})
    (List.filter (fun i => eligible i && is_connected (conn_health env i)) (seq 0 n)).

Definition count_accepted (outcomes : list RelayPublishOutcome) : Z :=
  zlen (List.filter (fun o => is_ok (rpo_result o)) outcomes).

Definition settle (outcomes : list RelayPublishOutcome) (threshold : Z) : result RelayPoolError PoolPublishResult :=
  fail_if count_accepted outcomes <? threshold
    with PEAcknowledgementThreshold (count_accepted outcomes) threshold (zlen outcomes) ;;
  Ok {| ppr_accepted := count_accepted outcomes; ppr_attempted := zlen outcomes; ppr_outcomes := outcomes |}.

Definition pool_publish (env : Connections) (event : SignedEvent) (p : RelayPool)
  : result RelayPoolError PoolPublishResult :=
  settle (attempts env event (fun _ => true) (connections p)) (acknowledgement_threshold (pool_config p)).

Definition publish_to_indices (env : Connections) (event : SignedEvent) (relay_indices : gset nat) (threshold : Z)
  (p : RelayPool) : result RelayPoolError PoolPublishResult :=
  fail_if bool_decide (relay_indices = ∅) || (threshold =? 0) || (Z.of_nat (size relay_indices) <? threshold)
    || existsb (fun i => (connections p <=? i)%nat) (elements relay_indices)
    with PEInvalidConfig "selected relay indices and threshold must fit the pool" ;;
  settle (attempts env event (fun i => bool_decide (i ∈ relay_indices)) (connections p)) threshold.

(** ** Subscriptions *)

(** Record which connections took the subscription. *)
Fixpoint mark_synced (id : string) (results : list (result RelayError unit)) (sync : list (gset string))
  : list (gset string) :=
  match results, sync with
  | r :: results, s :: sync => (if is_ok r then {[id]} ∪ s else s) :: mark_synced id results sync
  | _, _ => sync
  end.

Definition pool_subscribe (env : Connections) (subscription_id : string) (filters : list Value) (p : RelayPool)
  : list (result RelayError unit) * RelayPool :=
  if bool_decide (pool_subscriptions p !! subscription_id = Some filters)
     && forallb (fun s => bool_decide (subscription_id ∈ s)) (subscription_sync p)
  then ([], p)
  else
    let results := map (fun i => conn_subscribe env i subscription_id filters) (seq 0 (connections p)) in
    (results,
     {| connections := connections p; pool_config := pool_config p;
        pool_subscriptions := <[subscription_id := filters]> (pool_subscriptions p);
        subscription_sync := mark_synced subscription_id results
          (map (fun s => s ∖ {[subscription_id]}) (subscription_sync p));
        pool_seen := pool_seen p; closed_notifications := closed_notifications p |}).

Definition pool_close_subscription (env : Connections) (subscription_id : string) (p : RelayPool)
  : list (result RelayError unit) * RelayPool :=
  (map (fun i => conn_close env i subscription_id) (seq 0 (connections p)),
   {| connections := connections p; pool_config := pool_config p;
      pool_subscriptions := delete subscription_id (pool_subscriptions p);
      subscription_sync := map (fun s => s ∖ {[subscription_id]}) (subscription_sync p);
      pool_seen := pool_seen p; closed_notifications := closed_notifications p |}).

(** ** Notifications *)

Definition remember_event (event_id : string) (now : Z) (p : RelayPool) : bool * RelayPool :=
  let r := remember (dedup_capacity (pool_config p)) (dedup_ttl (pool_config p)) event_id now (pool_seen p) in
  (r.1, {| connections := connections p; pool_config := pool_config p; pool_subscriptions := pool_subscriptions p;
           subscription_sync := subscription_sync p; pool_seen := r.2;
           closed_notifications := closed_notifications p |}).

Definition set_closed (f : gset nat -> gset nat) (p : RelayPool) : RelayPool := {|
  connections := connections p; pool_config := pool_config p; pool_subscriptions := pool_subscriptions p;
  subscription_sync := subscription_sync p; pool_seen := pool_seen p;
  closed_notifications := f (closed_notifications p) |}.
Definition set_sync (f : list (gset string) -> list (gset string)) (p : RelayPool) : RelayPool := {|
  connections := connections p; pool_config := pool_config p; pool_subscriptions := pool_subscriptions p;
  subscription_sync := f (subscription_sync p); pool_seen := pool_seen p;
  closed_notifications := closed_notifications p |}.

(** A connection came back: subscribe it to what it misses. *)
Definition resubscribe (env : Connections) (i : nat) (p : RelayPool) : RelayPool :=
  let synced := default ∅ (subscription_sync p !! i) in
  let missing := List.filter (fun e => negb (bool_decide (e.1 ∈ synced))) (map_to_list (pool_subscriptions p)) in
  let now_synced := List.filter (fun e => is_ok (conn_subscribe env i e.1 e.2)) missing in
  set_sync (alter (fun s => list_to_set (map fst now_synced) ∪ s) i) p.

(** What the first connection to have something yields: a notification or the end of its
    stream, with the time and the connections' answers. *)
Record Arrival := {
  ar_index : nat;
  ar_notification : option RelayNotification;
  ar_now : Z;
  ar_env : Connections
}.

Inductive NextOutcome :=
| NextPending                      (* nothing more has arrived *)
| NextClosed                       (* every connection has ended *)
| NextNotification (n : PoolNotification).

(** [next_notification], over what arrives; the rest of the arrivals is returned. A
    connection that has ended is not asked again. *)
Fixpoint next_notification (arrivals : list Arrival) (p : RelayPool) : NextOutcome * RelayPool * list Arrival :=
  if bool_decide (size (closed_notifications p) = connections p) then (NextClosed, p, arrivals) else
  match arrivals with
  | [] => (NextPending, p, [])
  | a :: arrivals =>
      if bool_decide (ar_index a ∈ closed_notifications p) then next_notification arrivals p else
      match ar_notification a with
      | None =>
          let p := set_closed (union {[ar_index a]}) p in
          if bool_decide (size (closed_notifications p) = connections p) then (NextClosed, p, arrivals)
          else next_notification arrivals p
      | Some n =>
          let p := match n with
                   | NConnected => resubscribe (ar_env a) (ar_index a) (set_closed (.∖ {[ar_index a]}) p)
                   | _ => p
                   end in
          match n with
          | NEvent _ event =>
              let r := remember_event (id event) (ar_now a) p in
              if r.1 then (NextNotification {| pn_relay_index := ar_index a; pn_notification := n |}, r.2, arrivals)
              else next_notification arrivals r.2
          | _ => (NextNotification {| pn_relay_index := ar_index a; pn_notification := n |}, p, arrivals)
          end
      end
  end.

(** ** Authenticated delivery ([dm_delivery.rs]) *)

Inductive DmDeliveryError :=
| DDInvalidPlan
| DDEphemeralAuthenticationIdentity
| DDPool (e : RelayPoolError)
| DDAuthenticationTimeout
| DDAuthenticationRejected (message : string)
| DDUnexpectedAuthenticatedPrincipal
| DDPoolStopped.

Record AuthenticatedRelayState := { expected_public_key : string; authenticated : gset nat }.

Definition AuthenticatedRelayState_apply (relay_index : nat) (n : RelayNotification)
  : SE AuthenticatedRelayState DmDeliveryError unit := fun st =>
  let set s := {| expected_public_key := expected_public_key st; authenticated := s |} in
  match n with
  | NAuthenticated public_key =>
      if String.eqb public_key (expected_public_key st)
      then (Ok tt, set ({[relay_index]} ∪ authenticated st))
      else (Err DDUnexpectedAuthenticatedPrincipal, st)
  | NAuthenticationRejected public_key message =>
      (Err (if String.eqb public_key (expected_public_key st) then DDAuthenticationRejected message
            else DDUnexpectedAuthenticatedPrincipal), set (authenticated st ∖ {[relay_index]}))
  | NDisconnected => (Ok tt, set (authenticated st ∖ {[relay_index]}))
  | _ => (Ok tt, st)
  end.

Record AuthenticatedDmDelivery := {
  dd_pool : RelayPool;
  dd_plan : RoutedDmPublishPlan;
  dd_authentication : AuthenticatedRelayState
}.

Section Delivery.
Context {hex : Hex} {url : UrlLib}.

Definition delivery_config (transport : RelayRoute) (signer : RelayAuthSigner) (u : string) : RelayConfig :=
  let c := RelayConfig_new u transport in
  {| rcf_url := rcf_url c; rcf_route := rcf_route c; rcf_auth := Some signer;
     rcf_authentication_policy := rcf_authentication_policy c; command_capacity := command_capacity c;
     notification_capacity := notification_capacity c; connect_timeout := connect_timeout c;
     ping_interval := ping_interval c; idle_timeout := idle_timeout c; response_timeout := response_timeout c;
     shutdown_timeout := shutdown_timeout c; reconnect_initial_delay := reconnect_initial_delay c;
     reconnect_max_delay := reconnect_max_delay c; rcf_event_limits := rcf_event_limits c;
     rcf_frame_limits := rcf_frame_limits c |}.

Definition delivery_spawn (plan : RoutedDmPublishPlan) (transport : RelayRoute) (signer : RelayAuthSigner)
  : result DmDeliveryError AuthenticatedDmDelivery :=
  let key := hex_encode (ras_public_key signer) in
  fail_if String.eqb key (pubkey (rpp_event plan)) with DDEphemeralAuthenticationIdentity ;;
  fail_if (zlen (rpp_relay_urls plan) =? 0) || (rpp_required_acknowledgements plan =? 0)
    || (zlen (rpp_relay_urls plan) <? rpp_required_acknowledgements plan) with DDInvalidPlan ;;
  let? pool := map_err DDPool (RelayPool_spawn (map (delivery_config transport signer) (rpp_relay_urls plan))
    {| acknowledgement_threshold := rpp_required_acknowledgements plan;
       dedup_capacity := dedup_capacity RelayPoolConfig_default; dedup_ttl := dedup_ttl RelayPoolConfig_default |}) in
  Ok {| dd_pool := pool; dd_plan := plan;
        dd_authentication := {| expected_public_key := key; authenticated := ∅ |} |}.

Definition with_auth (d : AuthenticatedDmDelivery) (pool : RelayPool) (st : AuthenticatedRelayState)
  : AuthenticatedDmDelivery := {| dd_pool := pool; dd_plan := dd_plan d; dd_authentication := st |}.

(** [wait_until_authenticated], over what arrives before the deadline. The fuel bounds the
    turns of the loop; each consumes an arrival. *)
Fixpoint wait_loop (fuel : nat) (arrivals : list Arrival) (d : AuthenticatedDmDelivery)
  : result DmDeliveryError unit * AuthenticatedDmDelivery :=
  if rpp_required_acknowledgements (dd_plan d) <=? Z.of_nat (size (authenticated (dd_authentication d)))
  then (Ok tt, d)
  else
    match fuel with
    | O => (Err DDAuthenticationTimeout, d)
    | S fuel =>
        match next_notification arrivals (dd_pool d) with
        | (NextPending, pool, _) => (Err DDAuthenticationTimeout, with_auth d pool (dd_authentication d))
        | (NextClosed, pool, _) => (Err DDPoolStopped, with_auth d pool (dd_authentication d))
        | (NextNotification n, pool, rest) =>
            match AuthenticatedRelayState_apply (pn_relay_index n) (pn_notification n) (dd_authentication d) with
            | (Ok _, st) => wait_loop fuel rest (with_auth d pool st)
            | (Err e, st) => (Err e, with_auth d pool st)
            end
        end
    end.

Definition wait_until_authenticated (timeout : Z) (arrivals : list Arrival) (d : AuthenticatedDmDelivery)
  : result DmDeliveryError unit * AuthenticatedDmDelivery :=
  if timeout =? 0 then (Err DDAuthenticationTimeout, d) else wait_loop (S (length arrivals)) arrivals d.

Definition delivery_publish (env : Connections) (d : AuthenticatedDmDelivery)
  : result DmDeliveryError PoolPublishResult :=
  map_err DDPool (publish_to_indices env (rpp_event (dd_plan d)) (authenticated (dd_authentication d))
    (rpp_required_acknowledgements (dd_plan d)) (dd_pool d)).
End Delivery.

(** ** Quorums *)

Lemma attempts_spec env event eligible n o :
  o ∈ attempts env event eligible n ->
  eligible (rpo_relay_index o) = true /\ (rpo_relay_index o < n)%nat /\
  conn_health env (rpo_relay_index o) = HConnected /\ rpo_result o = conn_publish env (rpo_relay_index o) event.
Proof.
  unfold attempts. intros (i & -> & Hi)%list_elem_of_fmap. cbn.
  apply list_elem_of_In, filter_In in Hi as [Hseq Hb]. apply andb_true_iff in Hb as [He Hh].
  apply in_seq in Hseq. split_and!; [done | lia | by destruct (conn_health env i) | done].
Qed.

Lemma attempts_NoDup env event eligible n : NoDup (map rpo_relay_index (attempts env event eligible n)).
Proof. unfold attempts. rewrite map_map, map_id. apply NoDup_ListNoDup, List.NoDup_filter, seq_NoDup. Qed.

(** The relays that accepted *)
Definition acceptors (r : PoolPublishResult) : list nat :=
  map rpo_relay_index (List.filter (fun o => is_ok (rpo_result o)) (ppr_outcomes r)).

Lemma NoDup_map_filter {A B} (f : A -> B) (g : A -> bool) l : NoDup (map f l) -> NoDup (map f (List.filter g l)).
Proof.
  induction l as [|x l IH]; [done|]. cbn. intros [Hx Hl]%NoDup_cons. destruct (g x); [|by apply IH].
  cbn. constructor; [|by apply IH]. intros Hin. apply Hx. apply list_elem_of_In in Hin. apply list_elem_of_In.
  apply in_map_iff in Hin as (y & <- & Hy). apply filter_In in Hy as [Hy _]. by apply in_map.
Qed.

(** A result names as many distinct relays as the threshold asks for, each of them eligible
    and connected, whose connection acknowledged the event. *)
Lemma settle_quorum env event eligible n threshold r :
  settle (attempts env event eligible n) threshold = Ok r ->
  threshold <= zlen (acceptors r) /\ NoDup (acceptors r) /\ ppr_accepted r = zlen (acceptors r) /\
  forall i, i ∈ acceptors r -> eligible i = true /\ (i < n)%nat /\ conn_health env i = HConnected /\
    is_ok (conn_publish env i event) = true.
Proof.
  unfold settle. intros H. apply fail_if_ok_inv in H as [Ht [= <-]]. split_bools. unfold acceptors, count_accepted in *.
  cbn [ppr_outcomes ppr_accepted]. split_and!.
  - unfold zlen in *. rewrite length_map. lia.
  - apply NoDup_map_filter, attempts_NoDup.
  - unfold zlen. by rewrite length_map.
  - intros i Hi. apply list_elem_of_fmap in Hi as (o & -> & Ho). apply list_elem_of_In, filter_In in Ho as [Ho Hok].
    apply list_elem_of_In, attempts_spec in Ho as (He & Hl & Hh & Hr). by rewrite Hr in Hok.
Qed.

Lemma publish_to_indices_quorum env event indices threshold p r :
  publish_to_indices env event indices threshold p = Ok r ->
  threshold <= zlen (acceptors r) /\ NoDup (acceptors r) /\ ppr_accepted r = zlen (acceptors r) /\
  forall i, i ∈ acceptors r -> i ∈ indices /\ (i < connections p)%nat /\ conn_health env i = HConnected /\
    is_ok (conn_publish env i event) = true.
Proof.
  unfold publish_to_indices. intros H. apply fail_if_ok_inv in H as [_ H].
  destruct (settle_quorum _ _ _ _ _ _ H) as (H1 & H2 & H3 & H4). split_and!; try done.
  intros i Hi. destruct (H4 i Hi) as (He & ?). split_bools. done.
Qed.

(** ** What the pool consumed *)

(** A connection's stream ends at most once, and with it its notifications. *)
Fixpoint streams_end (l : list Arrival) : Prop :=
  match l with
  | [] => True
  | a :: l => (ar_notification a = None -> Forall (fun b => ar_index b <> ar_index a) l) /\ streams_end l
  end.

(** Arrivals the pool may consume without returning them *)
Definition quiet (a : Arrival) : bool :=
  match ar_notification a with None | Some (NEvent _ _) => true | _ => false end.

(** No more arrivals from the connections the pool holds for closed *)
Definition consistent (l : list Arrival) (p : RelayPool) : Prop :=
  streams_end l /\ forall a, a ∈ l -> ar_index a ∉ closed_notifications p.

Lemma next_notification_spec arrivals p out p' rest :
  consistent arrivals p -> next_notification arrivals p = (out, p', rest) ->
  consistent rest p' /\ connections p' = connections p /\
  exists used, arrivals = used ++ rest /\
    match out with
    | NextNotification n => exists before a, used = before ++ [a] /\ forallb quiet before = true /\
        ar_index a = pn_relay_index n /\ ar_notification a = Some (pn_notification n)
    | _ => forallb quiet used = true
    end.
Proof.
  revert p. induction arrivals as [|a l IH]; intros p [Hend Hcl] H; cbn [next_notification] in H.
  { case_bool_decide; injection H as <- <- <-; (split; [done|]; split; [done|]; by exists []). }
  case_bool_decide as Eall; [injection H as <- <- <-; split; [done|]; split; [done|]; by exists []|].
  rewrite bool_decide_false in H by (apply Hcl; left). destruct Hend as [Hlast Hend].
  assert (forall q, closed_notifications q = closed_notifications p -> consistent l q) as Hq.
  { intros q Eq. split; [done|]. intros b Hb. rewrite Eq. apply Hcl. by right. }
  (* an arrival consumed quietly, and then the rest *)
  assert (forall q, quiet a = true -> consistent l q -> connections q = connections p -> next_notification l q = (out, p', rest) ->
    consistent rest p' /\ connections p' = connections p /\ exists used, a :: l = used ++ rest /\
    match out with
    | NextNotification n => exists before b, used = before ++ [b] /\ forallb quiet before = true /\
        ar_index b = pn_relay_index n /\ ar_notification b = Some (pn_notification n)
    | _ => forallb quiet used = true
    end) as Hskip.
  { intros q Hquiet Hc Econn Hn. destruct (IH q Hc Hn) as (Hr & Hp & used & -> & Hout). split; [done|].
    split; [congruence|]. exists (a :: used). split; [done|]. destruct out; cbn [forallb]; rewrite ?Hquiet; try done.
    destruct Hout as (before & b & -> & ? & ? & ?). exists (a :: before), b. split_and!; try done. cbn. by rewrite Hquiet. }
  unfold quiet in Hskip. destruct (ar_notification a) as [n|] eqn:En.
  - assert (forall q, closed_notifications q = closed_notifications p -> connections q = connections p ->
      (NextNotification {| pn_relay_index := ar_index a; pn_notification := n |}, q, l) = (out, p', rest) ->
      consistent rest p' /\ connections p' = connections p /\ exists used, a :: l = used ++ rest /\
      match out with
      | NextNotification n => exists before b, used = before ++ [b] /\ forallb quiet before = true /\
          ar_index b = pn_relay_index n /\ ar_notification b = Some (pn_notification n)
      | _ => forallb quiet used = true
      end) as Hgot.
    { intros q Eq Ec [= <- <- <-]. split; [by apply Hq|]. split; [done|]. exists [a]. split; [done|].
      exists [], a. done. }
    destruct n; try (apply (Hgot _ eq_refl eq_refl H)).
    + apply (Hgot (resubscribe (ar_env a) (ar_index a) (set_closed (.∖ {[ar_index a]}) p))); [|done|done].
      cbn. apply set_eq. intros x. rewrite elem_of_difference, elem_of_singleton. split; [tauto|]. intros Hx.
      split; [done|]. intros ->. by apply (Hcl a); [left|].
    + destruct (remember_event (id event) (ar_now a) p).1.
      * by apply (Hgot (remember_event (id event) (ar_now a) p).2).
      * apply (Hskip (remember_event (id event) (ar_now a) p).2); [done|by apply Hq|done|done].
  - assert (consistent l (set_closed (union {[ar_index a]}) p)) as Hc.
    { split; [done|]. intros b Hb. cbn. rewrite elem_of_union, elem_of_singleton. intros [E|Hin].
      - specialize (Hlast eq_refl). rewrite Forall_forall in Hlast. by apply (Hlast b).
      - by apply (Hcl b); [right|]. }
    case_bool_decide.
    + injection H as <- <- <-. split; [done|]. split; [done|]. exists [a]. split; [done|]. cbn. unfold quiet. by rewrite En.
    + by apply (Hskip (set_closed (union {[ar_index a]}) p)).
Qed.

(** ** Who authenticated *)

(** The relay takes back an authentication, or loses it with the connection. *)
Definition revokes (i : nat) (a : Arrival) : bool :=
  (ar_index a =? i)%nat &&
  match ar_notification a with Some (NAuthenticationRejected _ _) | Some NDisconnected => true | _ => false end.

(** In this history the relay authenticated the key and has not gone back on it. *)
Definition authenticated_in (key : string) (l : list Arrival) (i : nat) : Prop :=
  exists l1 a l2, l = l1 ++ a :: l2 /\ ar_index a = i /\ ar_notification a = Some (NAuthenticated key) /\
    forallb (fun b => negb (revokes i b)) l2 = true.

Lemma authenticated_in_app key l l' i :
  authenticated_in key l i -> forallb (fun b => negb (revokes i b)) l' = true -> authenticated_in key (l ++ l') i.
Proof.
  intros (l1 & a & l2 & -> & Hi & Ha & Hl2) Hl'. exists l1, a, (l2 ++ l'). rewrite <- app_assoc, forallb_app, Hl2, Hl'. done.
Qed.

Lemma quiet_no_revoke i l : forallb quiet l = true -> forallb (fun b => negb (revokes i b)) l = true.
Proof.
  apply forallb_impl. intros a. unfold quiet, revokes. destruct (ar_notification a) as [[]|]; try done; by rewrite andb_false_r.
Qed.

(** One notification applied *)
Lemma apply_authenticated key hist a i n st st' res :
  expected_public_key st = key -> (forall j, j ∈ authenticated st -> authenticated_in key hist j) ->
  ar_index a = i -> ar_notification a = Some n -> AuthenticatedRelayState_apply i n st = (res, st') ->
  expected_public_key st' = key /\ forall j, j ∈ authenticated st' -> authenticated_in key (hist ++ [a]) j.
Proof.
  intros Hk Hin Hi Hn.
  assert (forall j, j ∈ authenticated st -> revokes j a = false -> authenticated_in key (hist ++ [a]) j) as Hkeep.
  { intros j Hj Hr. apply authenticated_in_app; [by apply Hin|]. cbn. by rewrite Hr. }
  assert (forall j, j ∈ authenticated st ∖ {[i]} -> authenticated_in key (hist ++ [a]) j) as Hother.
  { intros j [Hj Hne]%elem_of_difference. apply Hkeep; [done|]. unfold revokes.
    rewrite (proj2 (Nat.eqb_neq _ _)); [done|]. rewrite Hi. intros ->. apply Hne. by apply elem_of_singleton. }
  unfold AuthenticatedRelayState_apply.
  destruct n; try (intros [= <- <-]; split; [done|]; intros j Hj; apply Hkeep; [done|]; unfold revokes; rewrite Hn; by rewrite andb_false_r).
  - intros [= <- <-]. split; [done|]. exact Hother.
  - destruct (String.eqb_spec public_key (expected_public_key st)) as [E|_]; intros [= <- <-].
    + split; [done|]. cbn. intros j [->%elem_of_singleton|Hj]%elem_of_union.
      * exists hist, a, []. rewrite Hn, E, Hk. done.
      * apply Hkeep; [done|]. unfold revokes. rewrite Hn. by rewrite andb_false_r.
    + split; [done|]. intros j Hj. apply Hkeep; [done|]. unfold revokes. rewrite Hn. by rewrite andb_false_r.
  - intros [= <- <-]. split; [done|]. exact Hother.
Qed.

Lemma wait_loop_spec key fuel arrivals d hist res d' :
  consistent arrivals (dd_pool d) -> expected_public_key (dd_authentication d) = key ->
  (forall j, j ∈ authenticated (dd_authentication d) -> authenticated_in key hist j) ->
  wait_loop fuel arrivals d = (res, d') ->
  exists used rest, arrivals = used ++ rest /\ dd_plan d' = dd_plan d /\
    connections (dd_pool d') = connections (dd_pool d) /\
    (forall j, j ∈ authenticated (dd_authentication d') -> authenticated_in key (hist ++ used) j) /\
    (res = Ok tt -> rpp_required_acknowledgements (dd_plan d) <= Z.of_nat (size (authenticated (dd_authentication d')))).
Proof.
  revert arrivals d hist. induction fuel as [|fuel IH]; intros arrivals d hist Hc Hk Hin H; cbn [wait_loop] in H.
  { destruct (_ <=? _) eqn:E; injection H as <- <-; exists [], arrivals; rewrite app_nil_r; split_bools; done. }
  destruct (_ <=? _) eqn:E; [injection H as <- <-; exists [], arrivals; rewrite app_nil_r; split_bools; done|].
  destruct (next_notification arrivals (dd_pool d)) as [[out pool] rest] eqn:En.
  destruct (next_notification_spec _ _ _ _ _ Hc En) as (Hc' & Hconn & used & -> & Hout).
  assert (forallb quiet used = true -> forall j, j ∈ authenticated (dd_authentication d) -> authenticated_in key (hist ++ used) j) as Hq.
  { intros Hquiet j Hj. apply authenticated_in_app; [by apply Hin | by apply quiet_no_revoke]. }
  destruct out as [| |n].
  - injection H as <- <-. exists used, rest. split_and!; try done. by apply Hq.
  - injection H as <- <-. exists used, rest. split_and!; try done. by apply Hq.
  - destruct Hout as (before & a & -> & Hquiet & Hi & Hn).
    destruct (AuthenticatedRelayState_apply _ _ _) as [r st] eqn:Ea.
    destruct (apply_authenticated key (hist ++ before) a (pn_relay_index n) (pn_notification n) (dd_authentication d) st r)
      as [Hk' Hin']; [done| |done|done|done|].
    { intros j Hj. apply authenticated_in_app; [by apply Hin | by apply quiet_no_revoke]. }
    destruct r as [[]|e].
    + destruct (IH rest (with_auth d pool st) (hist ++ before ++ [a])) as (used' & rest' & -> & Hp & Hcn & Hj & Hr); try done.
      { by rewrite app_assoc. }
      exists ((before ++ [a]) ++ used'), rest'. rewrite <- !app_assoc in *. split_and!; try done. cbn in Hcn. congruence.
    + injection H as <- <-. exists (before ++ [a]), rest. split_and!; try done. cbn. by rewrite app_assoc.
Qed.

(** The fuel is enough: each turn consumes an arrival. *)
Lemma wait_loop_fuel f1 f2 arrivals d :
  consistent arrivals (dd_pool d) -> (length arrivals < f1)%nat -> (length arrivals < f2)%nat ->
  wait_loop f1 arrivals d = wait_loop f2 arrivals d.
Proof.
  revert f2 arrivals d. induction f1 as [|f1 IH]; intros f2 arrivals d Hc H1 H2; [lia|].
  destruct f2 as [|f2]; [lia|]. cbn [wait_loop].
  destruct (_ <=? _); [done|]. destruct (next_notification arrivals (dd_pool d)) as [[[| |n] pool] rest] eqn:En; [done|done|].
  destruct (next_notification_spec _ _ _ _ _ Hc En) as (Hc' & _ & used & -> & before & a & -> & _).
  destruct (AuthenticatedRelayState_apply _ _ _) as [[]]; [|done].
  rewrite !length_app in *. cbn [length] in *. apply IH; [done|lia|lia].
Qed.

(** ** Subscriptions *)

(** The subscriptions each connection has accepted and not been asked to close *)
Abbreviation Accepted := (nat -> gmap string (list Value)).

Inductive PoolOp :=
| OpSubscribe (env : Connections) (subscription_id : string) (filters : list Value)
| OpClose (env : Connections) (subscription_id : string)
| OpConnected (env : Connections) (i : nat).

Definition pool_op (o : PoolOp) (p : RelayPool) : RelayPool :=
  match o with
  | OpSubscribe env s f => (pool_subscribe env s f p).2
  | OpClose env s => (pool_close_subscription env s p).2
  | OpConnected env i => resubscribe env i p
  end.

(** What the calls the pool makes do to the connections *)
Definition accepted_after (o : PoolOp) (p : RelayPool) (acc : Accepted) : Accepted := fun i =>
  match o with
  | OpSubscribe env s f =>
      match (pool_subscribe env s f p).1 !! i with
      | Some (Ok _) => <[s := f]> (acc i)
      | _ => acc i
      end
  | OpClose env s => match conn_close env i s with Ok _ => delete s (acc i) | Err _ => acc i end
  | OpConnected env j =>
      if decide (i = j) then
        list_to_map (List.filter (fun e => is_ok (conn_subscribe env i e.1 e.2))
          (List.filter (fun e => negb (bool_decide (e.1 ∈ default ∅ (subscription_sync p !! i)))) (map_to_list (pool_subscriptions p))))
        ∪ acc i
      else acc i
  end.

(** The pool's books are right: one entry for each connection, and what is marked synced
    has been accepted with the filters now in force. *)
Definition pool_synced (p : RelayPool) (acc : Accepted) : Prop :=
  length (subscription_sync p) = connections p /\
  forall i synced s, subscription_sync p !! i = Some synced -> s ∈ synced ->
    exists f, pool_subscriptions p !! s = Some f /\ acc i !! s = Some f.

Lemma mark_synced_lookup id results sync i s :
  length results = length sync ->
  mark_synced id results sync !! i = Some s <->
  exists r t, results !! i = Some r /\ sync !! i = Some t /\ s = if is_ok r then {[id]} ∪ t else t.
Proof.
  revert sync i. induction results as [|r results IH]; intros [|t sync] i Hl; try done; cbn [mark_synced].
  - split; [done|]. by intros (? & ? & ? & _).
  - destruct i as [|i]; cbn.
    + split; [intros [= <-]; eauto|]. intros (? & ? & [= <-] & [= <-] & ->). done.
    + apply IH. cbn in Hl. lia.
Qed.

Lemma length_mark_synced id results sync : length (mark_synced id results sync) = length sync.
Proof. revert sync. induction results as [|r results IH]; intros [|t sync]; try done. cbn. by rewrite IH. Qed.

Lemma pool_subscribe_synced env s f p acc :
  pool_synced p acc -> pool_synced (pool_op (OpSubscribe env s f) p) (accepted_after (OpSubscribe env s f) p acc).
Proof.
  intros [Hl Hs]. unfold pool_op, accepted_after, pool_subscribe. destruct (_ && _); [by split|]. cbn [fst snd].
  set (results := map _ _). assert (length results = connections p) as Hr by (subst results; by rewrite length_map, length_seq).
  split; cbn [connections subscription_sync pool_subscriptions].
  - by rewrite length_mark_synced, length_map.
  - intros i synced x Hi Hx. apply mark_synced_lookup in Hi as (r & t & Hri & Hti & ->); [|by rewrite length_map, Hr, Hl].
    rewrite list_lookup_fmap in Hti. destruct (subscription_sync p !! i) as [old|] eqn:Eo; [|done]. injection Hti as <-.
    rewrite Hri. destruct (decide (x = s)) as [->|N].
    + exists f. rewrite lookup_insert_eq. split; [done|]. destruct r; [by rewrite lookup_insert_eq|]. cbn in Hx.
      apply elem_of_difference in Hx as [_ Hx]. exfalso. apply Hx. by apply elem_of_singleton.
    + assert (x ∈ old) as Hold.
      { destruct (is_ok r); [apply elem_of_union in Hx as [?%elem_of_singleton|Hx]; [done|]|]; by apply elem_of_difference in Hx as [? _]. }
      destruct (Hs i old x Eo Hold) as (g & H1 & H2). exists g. rewrite lookup_insert_ne by done. split; [done|].
      destruct r; [by rewrite lookup_insert_ne|done].
Qed.

Lemma pool_close_synced env s p acc :
  pool_synced p acc -> pool_synced (pool_op (OpClose env s) p) (accepted_after (OpClose env s) p acc).
Proof.
  intros [Hl Hs]. split; cbn [pool_op pool_close_subscription snd connections subscription_sync pool_subscriptions].
  - by rewrite length_map.
  - intros i synced x Hi Hx. rewrite list_lookup_fmap in Hi. destruct (subscription_sync p !! i) as [old|] eqn:Eo; [|done].
    injection Hi as <-. apply elem_of_difference in Hx as [Hold Hne]. rewrite elem_of_singleton in Hne.
    destruct (Hs i old x Eo Hold) as (g & H1 & H2). exists g. rewrite lookup_delete_ne by done. split; [done|].
    unfold accepted_after. destruct (conn_close env i s); [by rewrite lookup_delete_ne | done].
Qed.

Lemma resubscribe_synced env j p acc :
  pool_synced p acc -> pool_synced (pool_op (OpConnected env j) p) (accepted_after (OpConnected env j) p acc).
Proof.
  intros [Hl Hs]. cbn [pool_op]. unfold resubscribe. split; cbn [set_sync connections subscription_sync pool_subscriptions].
  - by rewrite length_alter.
  - intros i synced x Hi Hx. unfold accepted_after. destruct (decide (i = j)) as [<-|N].
    2:{ rewrite list_lookup_alter_ne in Hi by done. by apply (Hs i synced x). }
    rewrite list_lookup_alter_eq in Hi. destruct (subscription_sync p !! i) as [old|] eqn:Eo; [|done]. injection Hi as <-.
    cbn [default] in *. set (l := List.filter _ (List.filter _ _)) in *.
    assert (forall k g, (k, g) ∈ l -> pool_subscriptions p !! k = Some g /\ k ∉ old) as Hin.
    { intros k g Hkg. apply list_elem_of_In, filter_In in Hkg as [Hkg _]. apply filter_In in Hkg as [Hkg Hn].
      apply list_elem_of_In, elem_of_map_to_list in Hkg. cbn in Hn. split_bools. done. }
    assert (NoDup l.*1) as Hnd.
    { subst l. apply NoDup_map_filter, NoDup_map_filter, NoDup_fst_map_to_list. }
    apply elem_of_union in Hx as [Hx|Hx].
    + apply elem_of_list_to_set, list_elem_of_fmap in Hx as ([k g] & -> & Hkg). destruct (Hin k g Hkg) as [H1 _].
      exists g. split; [done|]. apply lookup_union_Some_l. by apply elem_of_list_to_map.
    + destruct (Hs i old x Eo Hx) as (g & H1 & H2). exists g. split; [done|].
      rewrite lookup_union_r; [done|]. apply not_elem_of_list_to_map. intros ([k h] & -> & Hkg)%list_elem_of_fmap.
      by destruct (Hin k h Hkg).
Qed.

Fixpoint pool_ops (ops : list PoolOp) (p : RelayPool) (acc : Accepted) : RelayPool * Accepted :=
  match ops with
  | [] => (p, acc)
  | o :: ops => pool_ops ops (pool_op o p) (accepted_after o p acc)
  end.

(** ** Properties *)

Section Properties.
Context {hex : Hex} {url : UrlLib}.

(** C16: A delivered message was acknowledged by a quorum of relays that know the sender. If
    the delivery waits and then publishes, the acknowledgements come from at least the
    planned number of distinct relays of the plan, each connected and, in the notifications
    seen while waiting, having authenticated the sender's own key without rejecting it or
    disconnecting since; the gift wrap's one-time key never authenticates. *)
Theorem delivery_quorum_authenticated plan transport signer timeout arrivals d d' env r :
  delivery_spawn plan transport signer = Ok d -> streams_end arrivals ->
  wait_until_authenticated timeout arrivals d = (Ok tt, d') -> delivery_publish env d' = Ok r ->
  hex_encode (ras_public_key signer) <> pubkey (rpp_event plan) /\
  rpp_required_acknowledgements plan <= zlen (acceptors r) /\ NoDup (acceptors r) /\
  exists used rest, arrivals = used ++ rest /\
  forall i, i ∈ acceptors r ->
    (i < length (rpp_relay_urls plan))%nat /\ conn_health env i = HConnected /\
    is_ok (conn_publish env i (rpp_event plan)) = true /\
    authenticated_in (hex_encode (ras_public_key signer)) used i.
Proof using Type.
  intros Hspawn Hend Hwait Hpub. unfold delivery_spawn in Hspawn. apply fail_if_ok_inv in Hspawn as [Hkey Hspawn].
  apply fail_if_ok_inv in Hspawn as [_ Hspawn]. apply rbind_ok_inv in Hspawn as (pool & Hpool & [= <-]).
  apply map_err_ok_inv in Hpool. unfold RelayPool_spawn in Hpool. do 3 (apply fail_if_ok_inv in Hpool as [_ Hpool]).
  apply rbind_ok_inv in Hpool as (_ & _ & [= <-]).
  unfold wait_until_authenticated in Hwait. destruct (timeout =? 0); [done|].
  eapply (wait_loop_spec (hex_encode (ras_public_key signer)) _ _ _ []) in Hwait
    as (used & rest & -> & Hplan & Hconn & Hauth & _); cycle 1.
  - split; [done|]. intros a _. apply not_elem_of_empty.
  - done.
  - intros j Hj. by apply elem_of_empty in Hj.
  - cbn [dd_plan dd_pool connections app] in *. unfold delivery_publish in Hpub. apply map_err_ok_inv in Hpub.
    rewrite Hplan in Hpub. destruct (publish_to_indices_quorum _ _ _ _ _ _ Hpub) as (H1 & H2 & _ & H4).
    split; [by destruct (String.eqb_spec (hex_encode (ras_public_key signer)) (pubkey (rpp_event plan)))|].
    split; [done|]. split; [done|]. exists used, rest. split; [done|]. intros i Hi.
    destruct (H4 i Hi) as (Ha & Hlt & Hh & Hok). rewrite Hconn, length_map in Hlt. split_and!; try done. by apply Hauth.
Qed.

(** Waiting for authentication terminates. Each turn of the loop consumes an arrival, so
    any larger number of turns gives the same result as one more than there are arrivals. *)
Theorem wait_terminates fuel arrivals d :
  consistent arrivals (dd_pool d) -> (length arrivals < fuel)%nat ->
  wait_loop fuel arrivals d = wait_loop (S (length arrivals)) arrivals d.
Proof using Type. intros Hc Hf. apply wait_loop_fuel; [done|done|lia]. Qed.

(** The pool's books are right. After any sequence of subscriptions, closings and
    reconnections from a new pool there is one set of synced subscriptions for each
    connection, so indexing it never fails, and whatever is marked synced is active and has
    been accepted by that connection with the filters now in force. *)
Theorem pool_sync_sound configs config p ops :
  RelayPool_spawn configs config = Ok p ->
  let s := pool_ops ops p (fun _ => ∅) in
  length (subscription_sync s.1) = connections p /\
  forall i synced id, subscription_sync s.1 !! i = Some synced -> id ∈ synced ->
    exists f, pool_subscriptions s.1 !! id = Some f /\ s.2 i !! id = Some f.
Proof using Type.
  intros Hp. unfold RelayPool_spawn in Hp. do 3 (apply fail_if_ok_inv in Hp as [_ Hp]).
  apply rbind_ok_inv in Hp as (_ & _ & [= <-]).
  set (p0 := {| connections := length configs |}). set (acc0 := fun _ : nat => ∅ : gmap string (list Value)).
  assert (pool_synced p0 acc0) as H0.
  { split; [apply length_replicate|]. intros i synced s Hi Hs. cbn in Hi. apply lookup_replicate in Hi as [-> _].
    by apply elem_of_empty in Hs. }
  assert (forall o p, connections (pool_op o p) = connections p) as Hconn.
  { intros [] p; cbn; [|done|done]. unfold pool_subscribe. by case_match. }
  change (connections p0) with (length configs) in *.
  assert (forall ops p acc, pool_synced p acc -> pool_synced (pool_ops ops p acc).1 (pool_ops ops p acc).2 /\
    connections (pool_ops ops p acc).1 = connections p) as Hall.
  { intros l. induction l as [|o l IH]; intros p acc H; [done|]. cbn [pool_ops].
    destruct (IH (pool_op o p) (accepted_after o p acc)) as [H1 H2].
    - destruct o; [by apply pool_subscribe_synced | by apply pool_close_synced | by apply resubscribe_synced].
    - split; [done|]. by rewrite H2, Hconn. }
  destruct (Hall ops p0 acc0 H0) as [[H1 H2] H3]. cbv zeta. split; [by rewrite H1, H3 | done].
Qed.
End Properties.

(** ** Witnesses *)

Definition sample_signer : RelayAuthSigner := {| ras_secret_key := key_of 9; ras_public_key := key_of 9 |}.
Definition good_connections : Connections := {|
  conn_health := fun _ => HConnected;
  conn_publish := fun _ e => Ok {| ack_event_id := id e; ack_message := "" |};
  conn_subscribe := fun _ _ _ => Ok tt;
  conn_close := fun _ _ => Ok tt |}.
Definition arrival (i : nat) (n : RelayNotification) : Arrival :=
  {| ar_index := i; ar_notification := Some n; ar_now := 0; ar_env := good_connections |}.
Definition sample_arrivals : list Arrival :=
  [arrival 0 NConnected; arrival 0 (NAuthenticated (hex_encode (key_of 9)));
   arrival 1 (NAuthenticated (hex_encode (key_of 9)))].

Definition sample_delivery : AuthenticatedDmDelivery :=
  match delivery_spawn sample_plan Direct sample_signer with
  | Ok d => d
  | Err _ => {| dd_pool := {| connections := 0; pool_config := RelayPoolConfig_default; pool_subscriptions := ∅;
                  subscription_sync := []; pool_seen := Dedup_new; closed_notifications := ∅ |};
                dd_plan := sample_plan; dd_authentication := {| expected_public_key := ""; authenticated := ∅ |} |}
  end.

Definition sample_result : PoolPublishResult := {|
  ppr_accepted := 2; ppr_attempted := 2;
  ppr_outcomes := [{| rpo_relay_index := 0; rpo_result := conn_publish good_connections 0 sample_wrap |};
                   {| rpo_relay_index := 1; rpo_result := conn_publish good_connections 1 sample_wrap |}] |}.

Lemma delivery_quorum_authenticated_witness :
  NoDup (acceptors sample_result) /\ acceptors sample_result = [0%nat; 1%nat].
Proof.
  split; [|vm_compute; reflexivity].
  apply (delivery_quorum_authenticated sample_plan Direct sample_signer 1 sample_arrivals sample_delivery
    (wait_until_authenticated 1 sample_arrivals sample_delivery).2 good_connections sample_result);
    [vm_compute; reflexivity | repeat split; discriminate | vm_compute; reflexivity | vm_compute; reflexivity].
Defined.

Lemma wait_terminates_witness :
  (wait_loop 100 sample_arrivals sample_delivery).1 = Ok tt.
Proof.
  rewrite (wait_terminates 100 sample_arrivals sample_delivery);
    [vm_compute; reflexivity | | vm_compute; repeat constructor].
  split; [repeat split; discriminate|]. intros a _. apply (not_elem_of_empty (C := gset nat)).
Defined.

Definition sample_pool : RelayPool := dd_pool sample_delivery.

Lemma pool_sync_sound_witness :
  length (subscription_sync (pool_ops [OpSubscribe good_connections "s" []; OpConnected good_connections 1]
    sample_pool (fun _ => ∅)).1) = 2%nat.
Proof.
  apply (pool_sync_sound (map (delivery_config Direct sample_signer) (rpp_relay_urls sample_plan))
    {| acknowledgement_threshold := 2; dedup_capacity := 10000; dedup_ttl := from_secs 300 |} sample_pool).
  vm_compute; reflexivity.
Defined.
