(* ===== verification/Runtime.v ===== *)
(** * The authenticated inbox runtime ([omachat-nostr/src/dm_inbox_runtime.rs])

    An inbox over several relays that reads and publishes only where the user's own key is
    authenticated: the pool ([Pool]) supplies notifications, the inbox ([DmInbox]) opens
    the wrappers. *)

From Stdlib Require Import Strings.Byte Ascii String.
From S2P Require Import Prelude RustStd Libs Serde Concrete Nip44 Event Frame Relay GiftWrap Keys Dedup DmInbox RelayList RelayCache Routing Pool.
Local Open Scope Z_scope.

Definition DEFAULT_AUTHENTICATION_TIMEOUT : Z := from_secs 10.
Definition DEFAULT_SUBSCRIPTION_ID : string := "omachat-nip17-inbox".
Definition MAX_SUBSCRIPTION_ID_BYTES : Z := 64.

Record DmInboxRuntimeConfig := {
  rc_inbox : DmInboxConfig;
  rc_pool : RelayPoolConfig;
  authentication_timeout : Z;
  rc_subscription_id : string
}.
Definition DmInboxRuntimeConfig_default : DmInboxRuntimeConfig := {|
  rc_inbox := DmInboxConfig_default; rc_pool := RelayPoolConfig_default;
  authentication_timeout := DEFAULT_AUTHENTICATION_TIMEOUT; rc_subscription_id := DEFAULT_SUBSCRIPTION_ID |}.

Record DmInboxRuntimeEvent := { re_relay_index : nat; re_receive : DmInboxReceive }.
Inductive DmInboxRuntimeActivity :=
| ActInbox (e : DmInboxRuntimeEvent)
| ActAuthenticationRestored.

Inductive DmInboxRuntimeError :=
| RTInvalidConfig (message : string)
| RTInvalidRelayUrl (relay_index : nat)
| RTDuplicateRelay (relay_index : nat)
| RTInvalidRecipientSecret
| RTIdentityMismatch
| RTPool (e : RelayPoolError)
| RTAuthenticationTimeout (authenticated required : Z)
| RTAuthenticationRejected (relay_index : nat) (message : string)
| RTUnexpectedAuthenticationIdentity (relay_index : nat) (public_key : string)
| RTSubscriptionRejected (relay_index : nat) (e : RelayError)
| RTSubscriptionClosed (relay_index : nat) (message : string)
| RTUnauthenticatedEvent (relay_index : nat)
| RTUnauthenticatedPublish (authenticated required : Z)
| RTInvalidOutboundGiftWrap
| RTOutboundRecipientMismatch
| RTInbox (e : DmInbox.DmInboxError)
| RTStopped.

Record DmInboxRuntime := {
  rt_pool : RelayPool;
  rt_inbox : DmInbox;
  rt_secret_key : bytes;
  rt_public_key : string;
  rt_authenticated : gset nat;
  rt_relay_count : Z;
  rt_subscription_id : string
}.

Definition set_pool (p : RelayPool) (rt : DmInboxRuntime) : DmInboxRuntime := {|
  rt_pool := p; rt_inbox := rt_inbox rt; rt_secret_key := rt_secret_key rt; rt_public_key := rt_public_key rt;
  rt_authenticated := rt_authenticated rt; rt_relay_count := rt_relay_count rt;
  rt_subscription_id := rt_subscription_id rt |}.
Definition set_inbox (i : DmInbox) (rt : DmInboxRuntime) : DmInboxRuntime := {|
  rt_pool := rt_pool rt; rt_inbox := i; rt_secret_key := rt_secret_key rt; rt_public_key := rt_public_key rt;
  rt_authenticated := rt_authenticated rt; rt_relay_count := rt_relay_count rt;
  rt_subscription_id := rt_subscription_id rt |}.
Definition set_authenticated (s : gset nat) (rt : DmInboxRuntime) : DmInboxRuntime := {|
  rt_pool := rt_pool rt; rt_inbox := rt_inbox rt; rt_secret_key := rt_secret_key rt; rt_public_key := rt_public_key rt;
  rt_authenticated := s; rt_relay_count := rt_relay_count rt; rt_subscription_id := rt_subscription_id rt |}.

Section Runtime.
Context {hex : Hex} {json : Json} {sha : Sha256} {schnorr : Schnorr}.
Context {crypto : Nip44Crypto} {b64 : Base64} {url : UrlLib}.

(** ** Connecting *)

Fixpoint validate_relays (i : nat) (configs : list RelayConfig) (identities : gset string)
  : result DmInboxRuntimeError unit :=
  match configs with
  | [] => Ok tt
  | c :: configs =>
      match url_parse (rcf_url c) with
      | None => Err (RTInvalidRelayUrl i)
      | Some u =>
          fail_if negb ((url_scheme u =? "ws") || (url_scheme u =? "wss"))%string
            || bool_decide (url_host_str u = None) || negb (bool_decide (url_fragment u = None))
            with RTInvalidRelayUrl i ;;
          fail_if bool_decide (url_to_string u ∈ identities) with RTDuplicateRelay i ;;
          validate_relays (S i) configs ({[url_to_string u]} ∪ identities)
      end
  end.

Definition validate_config (relay_configs : list RelayConfig) (config : DmInboxRuntimeConfig)
  : result DmInboxRuntimeError unit :=
  fail_if zlen relay_configs =? 0 with RTInvalidConfig "at least one relay is required" ;;
  fail_if authentication_timeout config =? 0 with RTInvalidConfig "authentication timeout must be non-zero" ;;
  fail_if (slen (rc_subscription_id config) =? 0) || (MAX_SUBSCRIPTION_ID_BYTES <? slen (rc_subscription_id config))
    with RTInvalidConfig "subscription id must contain between 1 and 64 bytes" ;;
  validate_relays 0 relay_configs ∅.

(** One notification while authentication is awaited *)
Definition await_notification (recipient_public_key : string) (n : PoolNotification) (authenticated : gset nat)
  : result DmInboxRuntimeError (gset nat) :=
  let i := pn_relay_index n in
  match pn_notification n with
  | NAuthenticated public_key =>
      if String.eqb public_key recipient_public_key then Ok ({[i]} ∪ authenticated)
      else Err (RTUnexpectedAuthenticationIdentity i public_key)
  | NAuthenticationRejected _ message => Err (RTAuthenticationRejected i message)
  | NConnected | NDisconnected | NAuthChallenge _ => Ok (authenticated ∖ {[i]})
  | NEvent _ _ | NEndOfStoredEvents _ | NClosed _ _ | NNotice _ => Ok authenticated
  end.

(** [wait_for_authentication], over what arrives before the deadline: when nothing more
    does, the wait times out. The fuel bounds the turns of the loop; each consumes an
    arrival. *)
Fixpoint wait_for_authentication (fuel : nat) (relay_count : Z) (recipient_public_key : string)
  (arrivals : list Arrival) (pool : RelayPool) (authenticated : gset nat)
  : result DmInboxRuntimeError (gset nat) * RelayPool * list Arrival :=
  if negb (Z.of_nat (size authenticated) <? relay_count) then (Ok authenticated, pool, arrivals) else
  let timed_out := Err (RTAuthenticationTimeout (Z.of_nat (size authenticated)) relay_count) in
  match fuel with
  | O => (timed_out, pool, arrivals)
  | S fuel =>
      match next_notification arrivals pool with
      | (NextPending, pool, rest) => (timed_out, pool, rest)
      | (NextClosed, pool, rest) => (Err RTStopped, pool, rest)
      | (NextNotification n, pool, rest) =>
          match await_notification recipient_public_key n authenticated with
          | Ok authenticated => wait_for_authentication fuel relay_count recipient_public_key rest pool authenticated
          | Err e => (Err e, pool, rest)
          end
      end
  end.

Definition with_signer (signer : RelayAuthSigner) (c : RelayConfig) : RelayConfig :=
  {| rcf_url := rcf_url c; rcf_route := rcf_route c; rcf_auth := Some signer;
     rcf_authentication_policy := rcf_authentication_policy c; command_capacity := command_capacity c;
     notification_capacity := notification_capacity c; connect_timeout := connect_timeout c;
     ping_interval := ping_interval c; idle_timeout := idle_timeout c; response_timeout := response_timeout c;
     shutdown_timeout := shutdown_timeout c; reconnect_initial_delay := reconnect_initial_delay c;
     reconnect_max_delay := reconnect_max_delay c; rcf_event_limits := rcf_event_limits c;
     rcf_frame_limits := rcf_frame_limits c |}.

(** The first connection that refused, with its error *)
Fixpoint first_refusal (i : nat) (results : list (result RelayError unit)) : option (nat * RelayError) :=
  match results with
  | [] => None
  | Ok _ :: results => first_refusal (S i) results
  | Err e :: _ => Some (i, e)
  end.

(** [connect]; [env] is how the connections answer the subscription, and the arrivals that
    are left come with the runtime. *)
Definition connect (relay_configs : list RelayConfig) (auth_signer : RelayAuthSigner) (recipient_secret_key : bytes)
  (config : DmInboxRuntimeConfig) (now : Z) (env : Connections) (arrivals : list Arrival)
  : result DmInboxRuntimeError (DmInboxRuntime * list Arrival) :=
  let? _ := validate_config relay_configs config in
  let? recipient_signer := map_err (fun _ => RTInvalidRecipientSecret) (RelayAuthSigner_from_secret_key recipient_secret_key) in
  fail_if negb (bool_decide (ras_public_key recipient_signer = ras_public_key auth_signer)) with RTIdentityMismatch ;;
  let recipient_public_key := hex_encode (ras_public_key recipient_signer) in
  let? inbox := map_err RTInbox (DmInbox_new (rc_inbox config)) in
  let? filter := map_err RTInbox (subscription_filter inbox recipient_public_key now) in
  let relay_count := zlen relay_configs in
  let? pool := map_err RTPool (RelayPool_spawn (map (with_signer auth_signer) relay_configs) (rc_pool config)) in
  match wait_for_authentication (S (length arrivals)) relay_count recipient_public_key arrivals pool ∅ with
  | (Err e, _, _) => Err e
  | (Ok authenticated, pool, rest) =>
      let '(results, pool) := pool_subscribe env (rc_subscription_id config) [filter] pool in
      fail_if negb (zlen results =? relay_count) with RTStopped ;;
      match first_refusal 0 results with
      | Some (i, e) => Err (RTSubscriptionRejected i e)
      | None =>
          Ok ({| rt_pool := pool; rt_inbox := inbox; rt_secret_key := recipient_secret_key;
                 rt_public_key := recipient_public_key; rt_authenticated := authenticated;
                 rt_relay_count := relay_count; rt_subscription_id := rc_subscription_id config |}, rest)
      end
  end.

(** ** Operations *)

Definition rt_block_author (author : string) : SE DmInboxRuntime DmInboxRuntimeError unit :=
  se_map_err RTInbox (se_zoom rt_inbox set_inbox (block_author author)).
Definition rt_unblock_author (author : string) : SE DmInboxRuntime DmInboxRuntimeError unit :=
  se_map_err RTInbox (se_zoom rt_inbox set_inbox (unblock_author author)).

(** The one [p] tag of the event is [[p, recipient]]. *)
Definition recipient_matches (event : SignedEvent) (recipient : string) : bool :=
  match p_tags (tags event) with
  | [tag] => (zlen tag =? 2) && bool_decide (tag !! 1%nat = Some recipient)
  | _ => false
  end.

Definition rt_publish (env : Connections) (event : SignedEvent) (recipient : string) (now : Z) (rt : DmInboxRuntime)
  : result DmInboxRuntimeError PoolPublishResult :=
  let authenticated := Z.of_nat (size (rt_authenticated rt)) in
  fail_if negb (authenticated =? rt_relay_count rt) with RTUnauthenticatedPublish authenticated (rt_relay_count rt) ;;
  let? _ := map_err RTInbox (subscription_filter (rt_inbox rt) recipient now) in
  fail_if negb (kind event =? GIFT_WRAP_KIND) || negb (is_ok (verify event now (event_limits (config (rt_inbox rt)))))
    with RTInvalidOutboundGiftWrap ;;
  fail_if negb (recipient_matches event recipient) with RTOutboundRecipientMismatch ;;
  map_err RTPool (pool_publish env event (rt_pool rt)).

(** One notification of [next_activity]: [None] goes on to the next one. *)
Definition on_notification (now : Z) (n : PoolNotification) (rt : DmInboxRuntime)
  : option (result DmInboxRuntimeError DmInboxRuntimeActivity) * DmInboxRuntime :=
  let i := pn_relay_index n in
  let forget := set_authenticated (rt_authenticated rt ∖ {[i]}) rt in
  match pn_notification n with
  | NConnected | NDisconnected | NAuthChallenge _ => (None, forget)
  | NAuthenticated public_key =>
      if negb (String.eqb public_key (rt_public_key rt)) then (Some (Err (RTUnexpectedAuthenticationIdentity i public_key)), rt)
      else
        let rt' := set_authenticated ({[i]} ∪ rt_authenticated rt) rt in
        if negb (Z.of_nat (size (rt_authenticated rt)) =? rt_relay_count rt)
           && (Z.of_nat (size (rt_authenticated rt')) =? rt_relay_count rt)
        then (Some (Ok ActAuthenticationRestored), rt')
        else (None, rt')
  | NAuthenticationRejected _ message => (Some (Err (RTAuthenticationRejected i message)), forget)
  | NEvent subscription_id event =>
      if negb (String.eqb subscription_id (rt_subscription_id rt)) then (None, rt) else
      if negb (bool_decide (i ∈ rt_authenticated rt)) then (Some (Err (RTUnauthenticatedEvent i)), rt) else
      let '(r, inbox) := receive event (rt_secret_key rt) now (rt_inbox rt) in
      (Some (let? receive := map_err RTInbox r in
             Ok (ActInbox {| re_relay_index := i; re_receive := receive |})), set_inbox inbox rt)
  | NClosed subscription_id message =>
      if String.eqb subscription_id (rt_subscription_id rt) then (Some (Err (RTSubscriptionClosed i message)), rt)
      else (None, rt)
  | NEndOfStoredEvents _ | NNotice _ => (None, rt)
  end.

(** [next_activity] over what arrives: [None] while it waits for more. *)
Fixpoint activity_loop (fuel : nat) (now : Z) (arrivals : list Arrival) (rt : DmInboxRuntime)
  : option (result DmInboxRuntimeError DmInboxRuntimeActivity) * DmInboxRuntime * list Arrival :=
  match fuel with
  | O => (None, rt, arrivals)
  | S fuel =>
      match next_notification arrivals (rt_pool rt) with
      | (NextPending, pool, rest) => (None, set_pool pool rt, rest)
      | (NextClosed, pool, rest) => (Some (Err RTStopped), set_pool pool rt, rest)
      | (NextNotification n, pool, rest) =>
          match on_notification now n (set_pool pool rt) with
          | (Some r, rt) => (Some r, rt, rest)
          | (None, rt) => activity_loop fuel now rest rt
          end
      end
  end.
Definition next_activity (now : Z) (arrivals : list Arrival) (rt : DmInboxRuntime) :=
  activity_loop (S (length arrivals)) now arrivals rt.

(** [next]: restored authentication is passed over. *)
Fixpoint next_loop (fuel : nat) (now : Z) (arrivals : list Arrival) (rt : DmInboxRuntime)
  : option (result DmInboxRuntimeError DmInboxRuntimeEvent) * DmInboxRuntime * list Arrival :=
  match fuel with
  | O => (None, rt, arrivals)
  | S fuel =>
      match next_activity now arrivals rt with
      | (Some (Ok (ActInbox e)), rt, rest) => (Some (Ok e), rt, rest)
      | (Some (Ok ActAuthenticationRestored), rt, rest) => next_loop fuel now rest rt
      | (Some (Err e), rt, rest) => (Some (Err e), rt, rest)
      | (None, rt, rest) => (None, rt, rest)
      end
  end.
Definition next (now : Z) (arrivals : list Arrival) (rt : DmInboxRuntime) := next_loop (S (length arrivals)) now arrivals rt.

(** ** A runtime in use *)

(** The calls that change it; publishing does not. *)
Inductive RuntimeOp :=
| RtNext (now : Z)
| RtBlock (author : string)
| RtUnblock (author : string).

Definition runtime_op (o : RuntimeOp) (s : DmInboxRuntime * list Arrival) : DmInboxRuntime * list Arrival :=
  match o with
  | RtNext now => let '(_, rt, rest) := next_activity now s.2 s.1 in (rt, rest)
  | RtBlock a => ((rt_block_author a s.1).2, s.2)
  | RtUnblock a => ((rt_unblock_author a s.1).2, s.2)
  end.
Definition runtime_run (ops : list RuntimeOp) (s : DmInboxRuntime * list Arrival) : DmInboxRuntime * list Arrival :=
  fold_left (fun s o => runtime_op o s) ops s.
End Runtime.

(** ** Who is authenticated *)

(** What an arrival says of relay [i]: that it authenticated the key, that it no longer
    does, or nothing. *)
Definition bears (key : string) (i : nat) (a : Arrival) : option bool :=
  if negb (ar_index a =? i)%nat then None else
  match ar_notification a with
  | Some (NAuthenticated k) => if String.eqb k key then Some true else None
  | Some NConnected | Some NDisconnected | Some (NAuthChallenge _) | Some (NAuthenticationRejected _ _) => Some false
  | _ => None
  end.

(** The last arrival that says something of relay [i] says that it authenticated the key:
    no reconnection, new challenge or refusal has come since. *)
Definition authenticated_now (key : string) (history : list Arrival) (i : nat) : bool :=
  fold_left (fun b a => default b (bears key i a)) history false.

Definition tracks (key : string) (s : gset nat) (history : list Arrival) : Prop :=
  forall i, i ∈ s <-> authenticated_now key history i = true.

Lemma authenticated_now_app key l l' i :
  Forall (fun a => bears key i a = None) l' -> authenticated_now key (l ++ l') i = authenticated_now key l i.
Proof.
  unfold authenticated_now. rewrite fold_left_app. generalize (fold_left (fun b a => default b (bears key i a)) l false).
  induction 1 as [|a l' Ha _ IH]; [done|]. cbn. by rewrite Ha.
Qed.
Lemma authenticated_now_snoc key l a i :
  authenticated_now key (l ++ [a]) i = default (authenticated_now key l i) (bears key i a).
Proof. unfold authenticated_now. by rewrite fold_left_app. Qed.

Lemma quiet_bears key i l : forallb quiet l = true -> Forall (fun a => bears key i a = None) l.
Proof.
  intros H. apply Forall_forall. intros a Ha. rewrite forallb_forall in H. apply list_elem_of_In, H in Ha.
  unfold quiet, bears in *. destruct (negb _); [done|]. by destruct (ar_notification a) as [[]|].
Qed.
Lemma tracks_quiet key s l l' : tracks key s l -> forallb quiet l' = true -> tracks key s (l ++ l').
Proof. intros H Hq i. rewrite authenticated_now_app by (by apply quiet_bears). apply H. Qed.

Lemma tracks_same key s l a : tracks key s l -> (forall i, bears key i a = None) -> tracks key s (l ++ [a]).
Proof. intros H Hn i. rewrite authenticated_now_snoc, Hn. apply H. Qed.
Lemma tracks_forget key s l a :
  tracks key s l -> bears key (ar_index a) a = Some false -> tracks key (s ∖ {[ar_index a]}) (l ++ [a]).
Proof.
  intros H Hn i. rewrite authenticated_now_snoc, elem_of_difference, elem_of_singleton, (H i).
  destruct (decide (i = ar_index a)) as [->|Hne]; [rewrite Hn; cbn; intuition congruence|].
  unfold bears. rewrite (proj2 (Nat.eqb_neq (ar_index a) i)) by done. cbn. intuition congruence.
Qed.
Lemma tracks_gain key s l a :
  tracks key s l -> bears key (ar_index a) a = Some true -> tracks key ({[ar_index a]} ∪ s) (l ++ [a]).
Proof.
  intros H Hn i. rewrite authenticated_now_snoc, elem_of_union, elem_of_singleton, (H i).
  destruct (decide (i = ar_index a)) as [->|Hne]; [rewrite Hn; cbn; intuition congruence|].
  unfold bears. rewrite (proj2 (Nat.eqb_neq (ar_index a) i)) by done. cbn. intuition congruence.
Qed.

(** Evaluate [bears] of an arrival whose notification is known. *)
Ltac solve_bears Hn :=
  intros; unfold bears; rewrite Hn; rewrite ?Nat.eqb_refl, ?String.eqb_refl; cbn [negb];
  first [done | by destruct (negb _)].

(** An indexed set is full when all its members are below its size. *)
Lemma full_set (s : gset nat) n : (forall i, i ∈ s -> (i < n)%nat) -> size s = n -> forall i, (i < n)%nat -> i ∈ s.
Proof.
  intros Hs Hn i Hi. destruct (decide (i ∈ s)) as [|Hne]; [done|]. exfalso.
  assert (size ({[i]} ∪ s) = S n) as H1 by (rewrite size_union by set_solver; rewrite size_singleton; lia).
  assert ({[i]} ∪ s ⊆ set_seq 0 n) as Hsub.
  { intros j [->%elem_of_singleton|Hj]%elem_of_union; apply elem_of_set_seq; [lia|]. apply Hs in Hj. lia. }
  apply subseteq_size in Hsub. rewrite size_set_seq in Hsub. lia.
Qed.

(** Whoever is authenticated has said so. *)
Lemma authenticated_now_in key l i : authenticated_now key l i = true -> exists a, a ∈ l /\ ar_index a = i.
Proof.
  induction l as [|a l IH] using rev_ind; [done|]. rewrite authenticated_now_snoc. destruct (bears key i a) eqn:E; cbn.
  - intros _. exists a. split; [apply elem_of_app; right; by left|]. unfold bears in E.
    destruct (Nat.eqb_spec (ar_index a) i); done.
  - intros (b & Hb & Hi)%IH. exists b. split; [|done]. apply elem_of_app. by left.
Qed.

Section Facts.
Context {hex : Hex} {json : Json} {sha : Sha256} {schnorr : Schnorr}.
Context {crypto : Nip44Crypto} {b64 : Base64} {url : UrlLib}.

Lemma next_notification_app l later p n p' rest :
  next_notification l p = (NextNotification n, p', rest) ->
  next_notification (l ++ later) p = (NextNotification n, p', rest ++ later).
Proof using Type.
  revert p. induction l as [|a l IH]; intros p; cbn [next_notification app]; case_bool_decide; try done.
  case_bool_decide; [apply IH|]. destruct (ar_notification a) as [m|].
  - destruct m; try (by intros [= <- <- <-]).
    destruct (remember_event (id event) (ar_now a) p).1; [by intros [= <- <- <-] | apply IH].
  - case_bool_decide; [done | apply IH].
Qed.

Lemma pending_rest l p p' rest : next_notification l p = (NextPending, p', rest) -> rest = [].
Proof using Type.
  revert p. induction l as [|a l IH]; intros p; cbn [next_notification]; case_bool_decide; try done; [by intros [= _ <-]|].
  case_bool_decide; [apply IH|]. destruct (ar_notification a) as [m|]; [|case_bool_decide; [done|apply IH]].
  destruct m; try done. destruct (remember_event (id event) (ar_now a) p).1; [done|apply IH].
Qed.

Lemma await_tracks key n s s' l a :
  tracks key s l -> ar_index a = pn_relay_index n -> ar_notification a = Some (pn_notification n) ->
  await_notification key n s = Ok s' -> tracks key s' (l ++ [a]).
Proof using Type.
  intros Ht Hi Hn. unfold await_notification. rewrite <- Hi.
  destruct (pn_notification n) eqn:E;
    try (intros [= <-]; first [apply tracks_forget; [done|]; solve_bears Hn | apply tracks_same; [done|]; solve_bears Hn]).
  destruct (String.eqb_spec public_key key) as [->|]; [|done]. intros [= <-]. apply tracks_gain; [done|]. solve_bears Hn.
Qed.

(** [wait_for_authentication] ends well only when as many relays as asked are authenticated. *)
Lemma wait_spec fuel count key l later p s h s' p' rest :
  consistent (l ++ later) p -> tracks key s h ->
  wait_for_authentication fuel count key l p s = (Ok s', p', rest) ->
  exists used, l = used ++ rest /\ consistent (rest ++ later) p' /\ connections p' = connections p /\
    tracks key s' (h ++ used) /\ count <= Z.of_nat (size s').
Proof using Type.
  revert l p s h. induction fuel as [|fuel IH]; intros l p s h Hc Ht; cbn [wait_for_authentication];
    (destruct (negb _) eqn:Es; [intros [= <- <- <-]; exists []; rewrite app_nil_r; split_bools; done|]); [done|].
  destruct (next_notification l p) as [[[| |n] q] r] eqn:En; [done|done|].
  pose proof (next_notification_app _ later _ _ _ _ En) as Ea.
  destruct (next_notification_spec _ _ _ _ _ Hc Ea) as (Hc' & Hconn & used & Hl & before & a & -> & Hq & Hi & Hn).
  rewrite app_assoc in Hl. apply app_inv_tail in Hl as ->.
  destruct (await_notification key n s) as [s1|] eqn:Ew; [|done]. intros H.
  destruct (IH r q s1 (h ++ before ++ [a]) Hc') as (used & -> & Hc2 & Hcn & Ht2 & Hs); [|done|].
  { rewrite app_assoc. eapply await_tracks; [by apply tracks_quiet|done|done|done]. }
  exists ((before ++ [a]) ++ used). rewrite <- !app_assoc in *. split_and!; try done. congruence.
Qed.

(** A running runtime, after the arrivals [history] and before the arrivals [rest] *)
Record runtime_ok (key : string) (sk : bytes) (n : nat) (sid : string) (history rest : list Arrival) (rt : DmInboxRuntime)
  : Prop := {
  ok_public : rt_public_key rt = key;
  ok_secret : rt_secret_key rt = sk;
  ok_count : rt_relay_count rt = Z.of_nat n;
  ok_connections : connections (rt_pool rt) = n;
  ok_subscription : rt_subscription_id rt = sid;
  ok_streams : consistent rest (rt_pool rt);
  ok_inbox : inbox_ok (rt_inbox rt);
  ok_tracks : tracks key (rt_authenticated rt) history
}.

Lemma DmInbox_new_ok c i : 0 <= DmInbox.dedup_capacity c -> DmInbox_new c = Ok i -> inbox_ok i /\ config i = c.
Proof using Type.
  intros Hc H. unfold DmInbox_new in H. apply fail_if_ok_inv in H as [Hz [= <-]]. split_bools.
  split; [|done]. split; cbn; [lia|]. exists []. by apply represents_new.
Qed.

Lemma connect_ok configs signer sk config now env during later rt rest :
  streams_end (during ++ later) -> 0 <= DmInbox.dedup_capacity (rc_inbox config) ->
  connect configs signer sk config now env during = Ok (rt, rest) ->
  exists used, during = used ++ rest /\ DmInbox.config (rt_inbox rt) = rc_inbox config /\
  runtime_ok (hex_encode (ras_public_key signer)) sk (length configs) (rc_subscription_id config) used (rest ++ later) rt.
Proof using Type.
  intros Hend Hcap H. unfold connect in H.
  apply rbind_ok_inv in H as (_ & _ & H). apply rbind_ok_inv in H as (rs & _ & H).
  apply fail_if_ok_inv in H as [Hid H]. split_bools.
  apply rbind_ok_inv in H as (inbox & Hin & H). apply map_err_ok_inv in Hin. apply rbind_ok_inv in H as (f & _ & H).
  apply rbind_ok_inv in H as (pool & Hp & H). apply map_err_ok_inv in Hp.
  destruct (wait_for_authentication _ _ _ _ _ _) as [[[s|] p'] r] eqn:Ew; [|done].
  destruct (pool_subscribe env _ _ p') as [results p2] eqn:Esub. apply fail_if_ok_inv in H as [_ H].
  destruct (first_refusal 0 results) as [[]|]; [done|]. injection H as <- <-.
  destruct (DmInbox_new_ok _ _ Hcap Hin) as [Hok Hcfg].
  assert (consistent (during ++ later) pool /\ connections pool = length configs) as [Hcons Hcn].
  { unfold RelayPool_spawn in Hp. do 3 (apply fail_if_ok_inv in Hp as [_ Hp]). apply rbind_ok_inv in Hp as (_ & _ & [= <-]).
    cbn. rewrite length_map. split; [|done]. split; [done|]. intros a _. apply not_elem_of_empty. }
  apply (wait_spec _ _ _ _ later _ _ []) in Ew as (used & -> & Hc & Hcn' & Ht & _); [|done|];
    [|intros i; split; [intros []%elem_of_empty | done]].
  assert (connections p2 = connections p' /\ closed_notifications p2 = closed_notifications p') as [H1 H2].
  { unfold pool_subscribe in Esub. case_match; by injection Esub as <- <-. }
  exists used. split; [done|]. split; [done|]. destruct rs as [rsk rpk], signer as [ssk spk]. cbn in *. subst.
  split; cbn; try done; try congruence. destruct Hc as [Hs Hcl]. split; [done|]. by rewrite H2.
Qed.

(** What the runtime reports *)
Definition reported (key : string) (sk : bytes) (n : nat) (sid : string) (now : Z) (history before : list Arrival) (a : Arrival)
  (rt rt' : DmInboxRuntime) (r : result DmInboxRuntimeError DmInboxRuntimeActivity) : Prop :=
  match r with
  | Ok (ActInbox e) => exists event,
      ar_index a = re_relay_index e /\ ar_notification a = Some (NEvent sid event) /\
      authenticated_now key (history ++ before) (re_relay_index e) = true /\
      receive event sk now (rt_inbox rt) = (Ok (re_receive e), rt_inbox rt')
  | Ok ActAuthenticationRestored => size (rt_authenticated rt') = n
  | Err _ => True
  end.

Lemma runtime_notification_ok key sk n sid now history rest m a rt out rt' :
  runtime_ok key sk n sid history rest rt -> ar_index a = pn_relay_index m -> ar_notification a = Some (pn_notification m) ->
  on_notification now m rt = (out, rt') ->
  runtime_ok key sk n sid (history ++ [a]) rest rt' /\
  match out with
  | None => rt_inbox rt' = rt_inbox rt
  | Some r => reported key sk n sid now history [] a rt rt' r
  end.
Proof using Type.
  intros [Hk Hsk Hcount Hconn Hsid Hs Hin Ht] Hi Hn. unfold on_notification. rewrite <- Hi, Hsk, Hsid, Hk.
  assert (forall i, tracks key i (history ++ [a]) ->
    runtime_ok key sk n sid (history ++ [a]) rest (set_authenticated i rt)) as Hset by (intros; by split).
  assert ((forall i, bears key i a = None) -> runtime_ok key sk n sid (history ++ [a]) rest rt) as Hkeep.
  { intros Hb. split; try done. by apply tracks_same. }
  destruct (pn_notification m) eqn:E;
    try (intros [= <- <-]; split; [|done]; first [apply Hset, tracks_forget; [done|]; solve_bears Hn | apply Hkeep; solve_bears Hn]).
  - destruct (String.eqb_spec subscription_id sid) as [->|]; cbn [negb];
      [|intros [= <- <-]; split; [apply Hkeep; solve_bears Hn|done]].
    case_bool_decide as Ha; cbn [negb]; [|intros [= <- <-]; split; [apply Hkeep; solve_bears Hn|done]].
    pose proof (receive_keeps_ok event sk now (rt_inbox rt) Hin) as Hin'.
    destruct (receive event sk now (rt_inbox rt)) as [r i'] eqn:Er. intros [= <- <-]. split.
    { split; try done. apply tracks_same; [done|]. solve_bears Hn. }
    destruct r as [r|]; [|done]. cbn. exists event. rewrite app_nil_r. split_and!; try done. by apply Ht.
  - case_match; intros [= <- <-]; (split; [apply Hkeep; solve_bears Hn|done]).
  - destruct (String.eqb_spec public_key key) as [->|]; cbn [negb].
    + assert (tracks key ({[ar_index a]} ∪ rt_authenticated rt) (history ++ [a])) as Hg
        by (apply tracks_gain; [done|]; solve_bears Hn).
      case_match eqn:Ec; intros [= <- <-]; (split; [by apply Hset|]); [|done].
      split_bools. cbn in *. rewrite Hcount in *. lia.
    + intros [= <- <-]. split; [|done]. apply Hkeep. intros i. unfold bears. rewrite Hn. destruct (negb _); [done|].
      by rewrite (proj2 (String.eqb_neq _ _)).
Qed.

Lemma activity_loop_ok key sk n sid now fuel history arrivals rt out rt' rest :
  runtime_ok key sk n sid history arrivals rt -> activity_loop fuel now arrivals rt = (out, rt', rest) ->
  exists used, arrivals = used ++ rest /\ runtime_ok key sk n sid (history ++ used) rest rt' /\
  match out with
  | None => rt_inbox rt' = rt_inbox rt /\ ((length arrivals < fuel)%nat -> rest = [])
  | Some (Err RTStopped) => True
  | Some r => exists before a, used = before ++ [a] /\ reported key sk n sid now history before a rt rt' r
  end.
Proof using Type.
  revert history arrivals rt. induction fuel as [|fuel IH]; intros history arrivals rt Hok; cbn [activity_loop].
  { intros [= <- <- <-]. exists []. rewrite app_nil_r. split_and!; [done|done|done|lia]. }
  pose proof Hok as [Hk Hsk Hcount Hconn Hsid Hs Hin Ht].
  destruct (next_notification arrivals (rt_pool rt)) as [[o p'] r] eqn:En.
  destruct (next_notification_spec _ _ _ _ _ Hs En) as (Hs' & Hcn & used & -> & Ho).
  assert (forall l, forallb quiet l = true -> runtime_ok key sk n sid (history ++ l) r (set_pool p' rt)) as Hq.
  { intros l Hl. split; try done; [by rewrite <- Hconn|by apply tracks_quiet]. }
  destruct o as [| |m].
  - intros [= <- <- <-]. exists used. split; [done|]. split; [by apply Hq|]. split; [done|]. intros _.
    by apply pending_rest in En.
  - intros [= <- <- <-]. exists used. split; [done|]. split; [by apply Hq|done].
  - destruct Ho as (before & a & -> & Hquiet & Hi & Hn).
    destruct (on_notification now m (set_pool p' rt)) as [[x|] rt1] eqn:Eo;
      destruct (runtime_notification_ok _ _ _ _ _ _ _ _ _ _ _ _ (Hq before Hquiet) Hi Hn Eo) as [Hok1 Hrep].
    + intros [= <- <- <-]. exists (before ++ [a]). split; [done|]. rewrite <- app_assoc in Hok1. split; [done|].
      assert (exists before0 a0, before ++ [a] = before0 ++ [a0] /\ reported key sk n sid now history before0 a0 rt rt1 x) as HR.
      { exists before, a. split; [done|]. unfold reported in *. by rewrite app_nil_r in Hrep. }
      destruct x as [|[]]; done.
    + intros H. destruct (IH _ _ _ Hok1 H) as (used & -> & Hok2 & Hrep2). exists ((before ++ [a]) ++ used).
      rewrite <- !app_assoc in *. split; [done|]. split; [done|]. cbn in Hrep.
      assert (forall x, (exists before0 a0, used = before0 ++ [a0] /\ reported key sk n sid now (history ++ before ++ [a]) before0 a0 rt1 rt' x) ->
        exists before0 a0, before ++ [a] ++ used = before0 ++ [a0] /\ reported key sk n sid now history before0 a0 rt rt' x) as Hlift.
      { intros x (b0 & a0 & -> & Hx). exists (before ++ [a] ++ b0), a0. unfold reported in *.
        rewrite <- !app_assoc in *. split; [done|]. by rewrite Hrep in Hx. }
      destruct out as [x|]; [destruct x as [|[]]; first [done | exact (Hlift _ Hrep2)]|]. destruct Hrep2 as [H1 H2].
      split; [congruence|]. intros Hf. apply H2. rewrite !length_app in *. cbn in *. lia.
Qed.

Lemma activity_config key sk n sid now fuel history arrivals rt :
  runtime_ok key sk n sid history arrivals rt ->
  DmInbox.config (rt_inbox (activity_loop fuel now arrivals rt).1.2) = DmInbox.config (rt_inbox rt).
Proof using Type.
  revert arrivals rt history. induction fuel as [|fuel IH]; intros arrivals rt history Hok; cbn [activity_loop]; [done|].
  pose proof (ok_streams _ _ _ _ _ _ _ Hok) as Hs.
  destruct (next_notification arrivals (rt_pool rt)) as [[o p'] r] eqn:En.
  destruct (next_notification_spec _ _ _ _ _ Hs En) as (Hs' & Hcn & used & -> & Ho).
  destruct o as [| |m]; [done|done|]. destruct Ho as (before & a & -> & Hquiet & Hi & Hn).
  assert (runtime_ok key sk n sid (history ++ before) r (set_pool p' rt)) as Hq.
  { destruct Hok. split; try done; [by cbn; rewrite Hcn|by apply tracks_quiet]. }
  assert (DmInbox.config (rt_inbox (on_notification now m (set_pool p' rt)).2) = DmInbox.config (rt_inbox rt)) as Hc.
  { unfold on_notification. destruct (pn_notification m); try done; repeat (case_match; try done).
    cbn [snd rt_inbox set_inbox]. by destruct (receive_blocks _ _ _ _ _ _ H1) as (_ & -> & _). }
  destruct (on_notification now m (set_pool p' rt)) as [[x|] rt1] eqn:Eo; [done|].
  destruct (runtime_notification_ok _ _ _ _ _ _ _ _ _ _ _ _ Hq Hi Hn Eo) as [Hok1 _]. rewrite (IH _ _ _ Hok1). done.
Qed.

Lemma runtime_run_ok key sk n sid ops history arrivals rt :
  runtime_ok key sk n sid history arrivals rt ->
  exists used, arrivals = used ++ (runtime_run ops (rt, arrivals)).2 /\
  runtime_ok key sk n sid (history ++ used) (runtime_run ops (rt, arrivals)).2 (runtime_run ops (rt, arrivals)).1 /\
  DmInbox.config (rt_inbox (runtime_run ops (rt, arrivals)).1) = DmInbox.config (rt_inbox rt).
Proof using Type.
  revert history arrivals rt. induction ops as [|o ops IH]; intros history arrivals rt Hok.
  { exists []. by rewrite app_nil_r. }
  assert (exists used rest rt', arrivals = used ++ rest /\ runtime_op o (rt, arrivals) = (rt', rest) /\
    runtime_ok key sk n sid (history ++ used) rest rt' /\ DmInbox.config (rt_inbox rt') = DmInbox.config (rt_inbox rt))
    as (used & rest & rt' & -> & Ho & Hok' & Hc).
  { destruct o; cbn [runtime_op fst snd].
    - pose proof (activity_config _ _ _ _ now (S (length arrivals)) _ _ _ Hok) as Hc. unfold next_activity in *.
      destruct (activity_loop _ now arrivals rt) as [[out rt'] rest] eqn:E.
      destruct (activity_loop_ok _ _ _ _ _ _ _ _ _ _ _ _ Hok E) as (used & Hu & Hok' & _). by exists used, rest, rt'.
    - exists [], arrivals, (rt_block_author author rt).2. rewrite app_nil_r. split_and!; try done;
      unfold rt_block_author, se_map_err, se_zoom, block_author; destruct (validate_xonly author); [by destruct Hok; split|by destruct Hok; split|done|done].
    - exists [], arrivals, (rt_unblock_author author rt).2. rewrite app_nil_r. split_and!; try done;
      unfold rt_unblock_author, se_map_err, se_zoom, unblock_author; destruct (validate_xonly author); [by destruct Hok; split|by destruct Hok; split|done|done]. }
  unfold runtime_run. cbn [fold_left]. rewrite Ho. fold (runtime_run ops (rt', rest)).
  destruct (IH _ _ _ Hok') as (used' & Hu & Hok2 & Hc2). exists (used ++ used'). rewrite <- !app_assoc in *.
  split; [by f_equal|]. split; [done|congruence].
Qed.
End Facts.

(** ** Properties *)

Section Properties.
Context {hex : Hex} {json : Json} {sha : Sha256} {schnorr : Schnorr}.
Context {crypto : Nip44Crypto} {b64 : Base64} {url : UrlLib} {hex_laws : HexLaws}.

(** C17: The inbox reads only from relays that know the user. Whatever calls were made since
    the runtime connected, an inbox event it returns was brought, on its own subscription,
    by a relay whose last word on authentication was that it authenticated the user's key
    (no reconnection, new challenge or refusal since); and a message in it is the content
    of a gift wrap for this user, sealed by its author, who is not blocked. *)
Theorem inbox_reads_authenticated configs signer sk config now0 env during later ops rt0 rest0 now e rt' rest :
  streams_end (during ++ later) -> 0 <= DmInbox.dedup_capacity (rc_inbox config) ->
  connect configs signer sk config now0 env during = Ok (rt0, rest0) ->
  let s := runtime_run ops (rt0, rest0 ++ later) in
  next_activity now s.2 s.1 = (Some (Ok (ActInbox e)), rt', rest) ->
  exists seen a event,
    during ++ later = seen ++ a :: rest /\ ar_index a = re_relay_index e /\
    ar_notification a = Some (NEvent (rc_subscription_id config) event) /\
    authenticated_now (hex_encode (ras_public_key signer)) seen (re_relay_index e) = true /\
    forall m, re_receive e = Message m ->
      exists seal rumor,
        open_gift_wrap event sk now (event_limits (rc_inbox config)) = Ok {| o_seal := seal; o_rumor := rumor |} /\
        verify seal now (event_limits (rc_inbox config)) = Ok tt /\ pubkey seal = md_author_pubkey (metadata m) /\
        r_content rumor = m_content m /\ (md_author_pubkey (metadata m) ∉ blocked_authors (rt_inbox s.1)).
Proof using hex_laws.
  intros Hend Hcap Hconn s Hnext. destruct (connect_ok _ _ _ _ _ _ _ later _ _ Hend Hcap Hconn) as (u1 & -> & Hc & Hok).
  destruct (runtime_run_ok _ _ _ _ ops _ _ _ Hok) as (u2 & Hu & Hok2 & Hc2). fold s in Hu, Hok2, Hc2.
  destruct (activity_loop_ok _ _ _ _ _ _ _ _ _ _ _ _ Hok2 Hnext) as (u3 & Hu3 & _ & before & a & -> & event & Hi & Hn & Ha & Hr).
  exists (u1 ++ u2 ++ before), a, event. rewrite <- !app_assoc in *. split_and!; try done.
  { by rewrite Hu, Hu3. }
  intros m Hm. rewrite Hm in Hr. rewrite <- Hc, <- Hc2.
  destruct (received_message_authentic _ _ _ _ _ _ (ok_inbox _ _ _ _ _ _ _ Hok2) Hr) as (seal & rumor & H1 & H2 & H3 & H4 & _ & H6 & _).
  by exists seal, rumor.
Qed.

(** The runtime publishes only while every relay knows the user. A publish that succeeds
    found each relay's last word on authentication to be that it authenticated the user's
    key; the event verified, was a gift wrap and named the requested recipient in its one
    [p] tag; and as many distinct relays as the pool asks for acknowledged it. *)
Theorem publish_needs_authentication configs signer sk config now0 env during later ops rt0 rest0 env' event recipient now r :
  streams_end (during ++ later) -> 0 <= DmInbox.dedup_capacity (rc_inbox config) ->
  Forall (fun a => (ar_index a < length configs)%nat) (during ++ later) ->
  connect configs signer sk config now0 env during = Ok (rt0, rest0) ->
  let s := runtime_run ops (rt0, rest0 ++ later) in
  rt_publish env' event recipient now s.1 = Ok r ->
  (exists seen, during ++ later = seen ++ s.2 /\
     forall i, (i < length configs)%nat -> authenticated_now (hex_encode (ras_public_key signer)) seen i = true) /\
  kind event = GIFT_WRAP_KIND /\ verify event now (event_limits (rc_inbox config)) = Ok tt /\
  (exists tag, p_tags (tags event) = [tag] /\ zlen tag = 2 /\ tag !! 1%nat = Some recipient) /\
  acknowledgement_threshold (pool_config (rt_pool s.1)) <= zlen (acceptors r) /\ NoDup (acceptors r) /\
  forall i, i ∈ acceptors r -> conn_health env' i = HConnected /\ is_ok (conn_publish env' i event) = true.
Proof using Type.
  intros Hend Hcap Hidx Hconn s Hpub. destruct (connect_ok _ _ _ _ _ _ _ later _ _ Hend Hcap Hconn) as (u1 & -> & Hc & Hok).
  destruct (runtime_run_ok _ _ _ _ ops _ _ _ Hok) as (u2 & Hu & Hok2 & Hc2). fold s in Hu, Hok2, Hc2.
  unfold rt_publish in Hpub. apply fail_if_ok_inv in Hpub as [Hsize Hpub]. apply rbind_ok_inv in Hpub as (_ & _ & Hpub).
  apply fail_if_ok_inv in Hpub as [Hev Hpub]. apply fail_if_ok_inv in Hpub as [Hrec Hpub]. apply map_err_ok_inv in Hpub.
  destruct (settle_quorum _ _ _ _ _ _ Hpub) as (H1 & H2 & _ & H4). rewrite Hc2, Hc in Hev. split_bools.
  rewrite (ok_count _ _ _ _ _ _ _ Hok2) in Hsize. rewrite <- app_assoc in *. rewrite Hu in Hidx |- *. split_and!; try done.
  - exists (u1 ++ u2). rewrite app_assoc. split; [done|]. intros i Hi. apply (ok_tracks _ _ _ _ _ _ _ Hok2).
    apply (full_set _ (length configs)); [|lia|done]. intros j Hj. apply (ok_tracks _ _ _ _ _ _ _ Hok2) in Hj.
    apply authenticated_now_in in Hj as (a & Ha & <-). rewrite Forall_forall in Hidx. apply Hidx.
    rewrite app_assoc. apply elem_of_app. by left.
  - by destruct (verify event now _) as [[]|].
  - unfold recipient_matches in Hrec. destruct (p_tags (tags event)) as [|tag [|]]; try done. split_bools. by exists tag.
  - intros i Hi. by apply H4.
Qed.

(** A relay that has lost its authentication can hide a message: when its copy of a
    message is refused, the pool has already noted the event, so that a copy any relay
    brings within the deduplication time is consumed unseen. *)
Theorem refused_copy_hides_message now a sid event rt i rt' w now' b sid' event' :
  represents (Pool.dedup_capacity (pool_config (rt_pool rt))) (pool_seen (rt_pool rt)) w ->
  1 <= Pool.dedup_capacity (pool_config (rt_pool rt)) ->
  next_activity now [a] rt = (Some (Err (RTUnauthenticatedEvent i)), rt', []) ->
  ar_notification a = Some (NEvent sid event) ->
  ar_notification b = Some (NEvent sid' event') -> id event' = id event ->
  saturating_sub (ar_now b) (ar_now a) < dedup_ttl (pool_config (rt_pool rt)) ->
  forall act, (next_activity now' [b] rt').1.1 <> Some (Ok act).
Proof using Type.
  intros Hw Hcap Hn Ha Hb Hid Ht act. unfold next_activity in *. cbn [length activity_loop next_notification] in Hn.
  rewrite Ha in Hn. case_bool_decide; [done|]. case_bool_decide; [done|].
  unfold remember_event in Hn. destruct (remember _ _ (id event) (ar_now a) _) as [[] d] eqn:Er; cbn [fst snd] in Hn;
    [|case_bool_decide; done].
  pose proof (accepted_once _ _ _ _ _ _ w [] (ar_now b) Hw Hcap Er) as Hno. cbn in Hno.
  specialize (Hno ltac:(unfold zlen; cbn; lia) ltac:(constructor) Ht).
  unfold on_notification in Hn. cbn [pn_notification pn_relay_index set_pool rt_subscription_id rt_authenticated] in Hn.
  destruct (String.eqb sid _); cbn [negb] in Hn; [|by cbn in Hn; case_bool_decide].
  destruct (bool_decide (ar_index a ∈ _)); cbn [negb] in Hn; [by destruct (receive _ _ _ _) as [[]]|]. injection Hn as _ <-.
  cbn [length activity_loop next_notification set_pool rt_pool closed_notifications connections].
  rewrite Hb. case_bool_decide; [done|]. case_bool_decide; [done|].
  unfold remember_event. cbn [pool_config pool_seen]. rewrite Hid.
  destruct (remember _ _ (id event) (ar_now b) d) as [y d2]. cbn in Hno. subst y. cbn. by case_bool_decide.
Qed.
End Properties.

(** ** Witnesses *)

(** Two relays; the user is the recipient of the sample wrapper. *)
Definition runtime_configs : list RelayConfig :=
  map (fun u => RelayConfig_new u Direct) ["wss://relay-one.example"; "wss://relay-two.example"]%string.
Definition user_signer : RelayAuthSigner :=
  default sample_signer (match RelayAuthSigner_from_secret_key (key_of 7) with Ok s => Some s | Err _ => None end).
Definition user_key : string := Eval vm_compute in hex_encode (ras_public_key user_signer).
Definition greetings : list Arrival :=
  [arrival 0 NConnected; arrival 0 (NAuthenticated user_key); arrival 1 NConnected; arrival 1 (NAuthenticated user_key)].
Definition wrap_arrival (i : nat) : Arrival := arrival i (NEvent DEFAULT_SUBSCRIPTION_ID GiftWrap.sample_wrap).
Definition sample_connect (during : list Arrival) :=
  connect runtime_configs user_signer (key_of 7) DmInboxRuntimeConfig_default 300100 good_connections during.
Definition sample_runtime : DmInboxRuntime :=
  match sample_connect greetings with
  | Ok (rt, _) => rt
  | Err _ => {| rt_pool := sample_pool; rt_inbox := DmInbox.sample_inbox; rt_secret_key := []; rt_public_key := "";
                rt_authenticated := ∅; rt_relay_count := 0; rt_subscription_id := "" |}
  end.

Lemma sample_connected : sample_connect greetings = Ok (sample_runtime, []).
Proof. vm_compute. reflexivity. Qed.
Definition sample_activity := Eval vm_compute in next_activity 300100 [wrap_arrival 1] sample_runtime.
Definition sample_event : DmInboxRuntimeEvent :=
  match sample_activity.1.1 with
  | Some (Ok (ActInbox e)) => e
  | _ => {| re_relay_index := 0; re_receive := Duplicate "" |}
  end.
Lemma sample_streams : streams_end (greetings ++ [wrap_arrival 1]).
Proof. repeat split; discriminate. Qed.

Lemma inbox_reads_authenticated_witness :
  exists m, sample_event = {| re_relay_index := 1; re_receive := Message m |} /\ m_content m = "hi"%string /\
  exists seen a event, greetings ++ [wrap_arrival 1] = seen ++ a :: [] /\ ar_notification a = Some (NEvent DEFAULT_SUBSCRIPTION_ID event) /\
    exists seal rumor, open_gift_wrap event (key_of 7) 300100 EventLimits_default = Ok {| o_seal := seal; o_rumor := rumor |} /\
      r_content rumor = m_content m.
Proof.
  exists sample_message. assert (sample_event = {| re_relay_index := 1; re_receive := Message sample_message |}) as E
    by (vm_compute; reflexivity).
  split; [exact E|]. split; [vm_compute; reflexivity|].
  destruct (inbox_reads_authenticated runtime_configs user_signer (key_of 7) DmInboxRuntimeConfig_default 300100 good_connections
    greetings [wrap_arrival 1] [] sample_runtime [] 300100 sample_event sample_activity.1.2 [] sample_streams
    ltac:(discriminate) sample_connected ltac:(vm_compute; reflexivity)) as (seen & a & event & H1 & _ & H3 & _ & H5).
  destruct (H5 sample_message) as (seal & rumor & Ho & _ & _ & Hc & _); [by rewrite E|].
  exists seen, a, event. split; [exact H1|]. split; [exact H3|]. exists seal, rumor. split; [exact Ho | exact Hc].
Defined.

Definition sample_published : PoolPublishResult := {|
  ppr_accepted := 2; ppr_attempted := 2;
  ppr_outcomes := [{| rpo_relay_index := 0; rpo_result := conn_publish good_connections 0 GiftWrap.sample_wrap |};
                   {| rpo_relay_index := 1; rpo_result := conn_publish good_connections 1 GiftWrap.sample_wrap |}] |}.

Lemma publish_needs_authentication_witness :
  kind GiftWrap.sample_wrap = GIFT_WRAP_KIND /\ 1 <= zlen (acceptors sample_published) /\
  exists tag, p_tags (tags GiftWrap.sample_wrap) = [tag] /\ tag !! 1%nat = Some user_key.
Proof.
  destruct (publish_needs_authentication runtime_configs user_signer (key_of 7) DmInboxRuntimeConfig_default 300100 good_connections
    greetings [] [] sample_runtime [] good_connections GiftWrap.sample_wrap user_key 300100 sample_published)
    as (_ & Hk & _ & (tag & Ht & _ & Htag) & Ha & _).
  - repeat split; discriminate.
  - discriminate.
  - repeat constructor.
  - exact sample_connected.
  - vm_compute. reflexivity.
  - split; [exact Hk|]. split; [exact Ha|]. exists tag. split; [exact Ht|exact Htag].
Defined.

(** The second relay reconnects and brings the message before it authenticates again: the
    copy of the first relay, authenticated throughout, never arrives. *)
Definition reconnected : DmInboxRuntime := (next_activity 300100 [arrival 1 NConnected] sample_runtime).1.2.
Definition refusing : DmInboxRuntime := (next_activity 300100 [wrap_arrival 1] reconnected).1.2.

Lemma refused_copy_hides_message_witness :
  bool_decide (0%nat ∈ rt_authenticated refusing) = true /\
  forall act, (next_activity 300101 [wrap_arrival 0] refusing).1.1 <> Some (Ok act).
Proof.
  split; [vm_compute; reflexivity|].
  apply (refused_copy_hides_message 300100 (wrap_arrival 1) DEFAULT_SUBSCRIPTION_ID GiftWrap.sample_wrap reconnected 1 refusing
    [] 300101 (wrap_arrival 0) DEFAULT_SUBSCRIPTION_ID GiftWrap.sample_wrap).
  - apply represents_new. discriminate.
  - discriminate.
  - vm_compute. reflexivity.
  - reflexivity.
  - reflexivity.
  - reflexivity.
  - vm_compute. reflexivity.
Defined.
