(* ===== verification/Discovery.v ===== *)
(** * Discovering a contact's events ([omachat-nostr/src/replaceable_discovery.rs],
    [dm_relay_discovery.rs], [relay_list_discovery.rs])

    Asking several relays for one replaceable event: waiting until enough relays are ready,
    subscribing, and keeping the best of what they return. The notifications the pool
    yields before a deadline are an argument; after the last of them the deadline has
    passed. *)

From Stdlib Require Import Strings.Byte Ascii String.
From S2P Require Import Prelude RustStd BTree Libs Serde Concrete Event Frame Relay GiftWrap RelayList RelayCache Routing Pool.
Local Open Scope Z_scope.

Definition MAX_DISCOVERY_RELAYS : Z := 16.

Record ReplaceableDiscoveryConfig := {
  authentication_timeout : Z;
  authentication_policy : RelayAuthenticationPolicy;
  challenge_settle_timeout : Z;
  query_timeout : Z;
  minimum_ready_relays : Z;
  subscription_id : string
}.

Record ReplaceableDiscoveryResult := {
  rdr_event : SignedEvent;
  queried_relays : Z;
  completed_relays : Z
}.

Inductive DiscoveryError :=
| DEInvalidConfig
| DEPool (e : RelayPoolError)
| DEAuthenticationTimeout
| DEAuthenticationRejected (message : string)
| DEUnexpectedAuthenticatedPrincipal
| DESubscriptionRejected
| DEInsufficientRelaySubscriptions (required actual : Z)
| DESubscriptionClosed (message : string)
| DEQueryTimeout
| DENoValidEvent
| DEPoolStopped
| DERelayShutdown (relay_index : nat) (error : RelayError).

Section ValidateConfig.
Context {schnorr : Schnorr}.

Definition validate_config (relay_count : Z) (author_public_key : bytes) (config : ReplaceableDiscoveryConfig)
  : result DiscoveryError unit :=
  fail_if (relay_count =? 0) || (MAX_DISCOVERY_RELAYS <? relay_count) || negb (schnorr_key_ok author_public_key)
    || (authentication_timeout config =? 0) || (challenge_settle_timeout config =? 0) || (query_timeout config =? 0)
    || (minimum_ready_relays config =? 0) || (relay_count <? minimum_ready_relays config)
    || (slen (subscription_id config) =? 0) || (64 <? slen (subscription_id config))
    with DEInvalidConfig ;;
  Ok tt.
End ValidateConfig.

(** ** Waiting for authentication *)

(** One notification of [await_required_authentication], which [dm_relay_discovery.rs]
    repeats *)
Definition required_step (key : string) (n : PoolNotification) (s : gset nat) : result DiscoveryError (gset nat) :=
  match pn_notification n with
  | NAuthenticated public_key =>
      if String.eqb public_key key then Ok ({[pn_relay_index n]} ∪ s) else Err DEUnexpectedAuthenticatedPrincipal
  | NAuthenticationRejected public_key message =>
      Err (if String.eqb public_key key then DEAuthenticationRejected message else DEUnexpectedAuthenticatedPrincipal)
  | _ => Ok s
  end.

(** The notifications left are returned. *)
Fixpoint await_required_authentication (minimum : Z) (key : string) (ns : list PoolNotification) (s : gset nat)
  : result DiscoveryError (list PoolNotification) :=
  if minimum <=? Z.of_nat (size s) then Ok ns
  else match ns with
       | [] => Err DEAuthenticationTimeout
       | n :: ns => let? s := required_step key n s in await_required_authentication minimum key ns s
       end.

(** ** Readiness driven by challenges *)

Record Readiness := {
  connected_at : gmap nat Z;
  challenged : gset nat;
  rd_authenticated : gset nat
}.
Definition Readiness_new : Readiness := {| connected_at := ∅; challenged := ∅; rd_authenticated := ∅ |}.

Section Readiness.
Variables (config : ReplaceableDiscoveryConfig) (key : string) (authentication_deadline : Z).

Definition is_ready (now : Z) (st : Readiness) (e : nat * Z) : bool :=
  bool_decide (e.1 ∈ rd_authenticated st)
  || (negb (bool_decide (e.1 ∈ challenged st)) && (challenge_settle_timeout config <=? saturating_sub now e.2)).
Definition ready_count (now : Z) (st : Readiness) : Z :=
  zlen (List.filter (is_ready now st) (map_to_list (connected_at st))).

Definition unsettled (st : Readiness) (e : nat * Z) : bool :=
  negb (bool_decide (e.1 ∈ challenged st)) && negb (bool_decide (e.1 ∈ rd_authenticated st)).
(** [.min().unwrap_or(authentication_deadline)] *)
Definition next_settle (st : Readiness) : Z :=
  match map (fun e => e.2 + challenge_settle_timeout config) (List.filter (unsettled st) (map_to_list (connected_at st))) with
  | [] => authentication_deadline
  | t :: ts => fold_left Z.min ts t
  end.

Definition readiness_apply (now : Z) (n : PoolNotification) (st : Readiness) : result DiscoveryError Readiness :=
  let i := pn_relay_index n in
  match pn_notification n with
  | NConnected => Ok {| connected_at := <[i := now]> (connected_at st); challenged := challenged st; rd_authenticated := rd_authenticated st |}
  | NDisconnected => Ok {| connected_at := delete i (connected_at st); challenged := challenged st ∖ {[i]};
                           rd_authenticated := rd_authenticated st ∖ {[i]} |}
  | NAuthChallenge _ => Ok {| connected_at := connected_at st; challenged := {[i]} ∪ challenged st; rd_authenticated := rd_authenticated st |}
  | NAuthenticated public_key =>
      if String.eqb public_key key then
        Ok {| connected_at := match connected_at st !! i with Some _ => connected_at st | None => <[i := now]> (connected_at st) end;
              challenged := challenged st ∖ {[i]}; rd_authenticated := {[i]} ∪ rd_authenticated st |}
      else Err DEUnexpectedAuthenticatedPrincipal
  | NAuthenticationRejected public_key message =>
      Err (if String.eqb public_key key then DEAuthenticationRejected message else DEUnexpectedAuthenticatedPrincipal)
  | _ => Ok st
  end.

(** One turn of the loop: the clock at its top, the clock in [next_before], and, if that
    waits, what came before the wait was over, with the clock when it is handled. *)
Record Turn := {
  tn_now : Z;
  tn_wait_now : Z;
  tn_arrived : option (PoolNotification * Z)
}.

Inductive TurnOutcome :=
| TurnDone (r : result DiscoveryError unit)
| TurnAgain (st : Readiness) (consumed : bool).

Definition readiness_turn (t : Turn) (st : Readiness) : TurnOutcome :=
  if minimum_ready_relays config <=? ready_count (tn_now t) st then TurnDone (Ok tt)
  else if authentication_deadline <=? tn_now t then TurnDone (Err DEAuthenticationTimeout)
  else
    let wait_deadline := Z.min (next_settle st) authentication_deadline in
    if saturating_sub wait_deadline (tn_wait_now t) =? 0 then TurnAgain st false
    else match tn_arrived t with
         | None => TurnAgain st false
         | Some (n, now) =>
             match readiness_apply now n st with
             | Ok st => TurnAgain st true
             | Err e => TurnDone (Err e)
             end
         end.

(** The loop over its turns, with the number of notifications it consumed; [None] while it
    has not returned. *)
Fixpoint await_challenge_driven_readiness (turns : list Turn) (st : Readiness) : option (result DiscoveryError unit) * nat :=
  match turns with
  | [] => (None, O)
  | t :: turns =>
      match readiness_turn t st with
      | TurnDone r => (Some r, O)
      | TurnAgain st consumed =>
          let r := await_challenge_driven_readiness turns st in
          (r.1, (if consumed then S r.2 else r.2))
      end
  end.
End Readiness.

(** ** The query *)

(** [event.created_at > current.created_at || (equal && event.id < current.id)] *)
Definition replaceable_better (event current : SignedEvent) : bool :=
  (created_at current <? created_at event)
  || ((created_at event =? created_at current) && bool_decide (string_lt (id event) (id current))).
(** [(event.created_at, event.id) > (current.created_at, current.id)] *)
Definition dm_better (event current : SignedEvent) : bool :=
  (created_at current <? created_at event)
  || ((created_at event =? created_at current) && bool_decide (string_lt (id current) (id event))).

Definition keep_best (better : SignedEvent -> SignedEvent -> bool) (valid : SignedEvent -> bool) (event : SignedEvent)
  (best : option SignedEvent) : option SignedEvent :=
  if valid event && match best with None => true | Some current => better event current end
  then Some event else best.

Section Query.
Variables (sid key : string) (valid : SignedEvent -> bool) (better : SignedEvent -> SignedEvent -> bool).
Variable (subscribed : gset nat).
(** When the completed relays suffice: a number of them, or all those subscribed. *)
Variable (done : gset nat -> bool).

Fixpoint query_loop (ns : list PoolNotification) (completed : gset nat) (best : option SignedEvent)
  : result DiscoveryError (option SignedEvent * gset nat) :=
  if done completed then Ok (best, completed)
  else match ns with
  | [] => Err DEQueryTimeout
  | n :: ns =>
      if negb (bool_decide (pn_relay_index n ∈ subscribed)) then query_loop ns completed best
      else match pn_notification n with
           | NEvent s event =>
               query_loop ns completed (if String.eqb s sid then keep_best better valid event best else best)
           | NEndOfStoredEvents s =>
               query_loop ns (if String.eqb s sid then {[pn_relay_index n]} ∪ completed else completed) best
           | NClosed s message =>
               if String.eqb s sid then Err (DESubscriptionClosed message) else query_loop ns completed best
           | NAuthenticationRejected public_key message =>
               if String.eqb public_key key then Err (DEAuthenticationRejected message) else query_loop ns completed best
           | _ => query_loop ns completed best
           end
  end.
End Query.

Section Discover.
Context {hex : Hex} {json : Json} {sha : Sha256} {schnorr : Schnorr} {url : UrlLib}.

(** The filter of the subscription *)
Definition discovery_filters (event_kind : Z) (author_public_key : bytes) : list Value :=
  [JObject [("kinds", JArray [JInt event_kind]); ("authors", JArray [JString (hex_encode author_public_key)]);
            ("limit", JInt 1)]%string].

(** The relays whose subscription was taken *)
Fixpoint ok_indices (i : nat) (results : list (result RelayError unit)) : gset nat :=
  match results with
  | [] => ∅
  | r :: results => (if is_ok r then {[i]} else ∅) ∪ ok_indices (S i) results
  end.

(** [discover_inner] after the relays are ready *)
Definition discover_query (relay_count : Z) (key : string) (config : ReplaceableDiscoveryConfig) (valid : SignedEvent -> bool)
  (subscription_results : list (result RelayError unit)) (ns : list PoolNotification)
  : result DiscoveryError ReplaceableDiscoveryResult :=
  fail_if negb (zlen subscription_results =? relay_count) with DEPoolStopped ;;
  let subscribed := ok_indices 0 subscription_results in
  fail_if bool_decide (subscribed = ∅) with DESubscriptionRejected ;;
  fail_if Z.of_nat (size subscribed) <? minimum_ready_relays config
    with DEInsufficientRelaySubscriptions (minimum_ready_relays config) (Z.of_nat (size subscribed)) ;;
  let? r := query_loop (subscription_id config) key valid replaceable_better subscribed
    (fun completed => minimum_ready_relays config <=? Z.of_nat (size completed)) ns ∅ None in
  let? event := ok_or DENoValidEvent r.1 in
  Ok {| rdr_event := event; queried_relays := Z.of_nat (size subscribed); completed_relays := Z.of_nat (size r.2) |}.

(** What the relays do during one discovery: the notifications and the clock while it
    waits for them to be ready, how they take the subscription, what they send until the
    query's deadline, and how their connections shut down. *)
Record DiscoveryRun := {
  run_notifications : list PoolNotification;
  run_turns : list Turn;
  run_authentication_deadline : Z;
  run_subscriptions : list (result RelayError unit);
  run_answers : list PoolNotification;
  run_shutdown : list (result RelayError unit)
}.

(** A readiness loop that has not returned when the run ends is [None]. *)
Definition await_relay_readiness (config : ReplaceableDiscoveryConfig) (key : string) (run : DiscoveryRun)
  : option (result DiscoveryError unit) :=
  match authentication_policy config with
  | RequireWhenConfigured =>
      Some (let? _ := await_required_authentication (minimum_ready_relays config) key (run_notifications run) ∅ in Ok tt)
  | AuthenticateWhenChallenged =>
      (await_challenge_driven_readiness config key (run_authentication_deadline run) (run_turns run) Readiness_new).1
  end.

(** [find_map] over the enumerated shutdown results *)
Fixpoint shutdown_error (i : nat) (results : list (result RelayError unit)) : option (nat * RelayError) :=
  match results with
  | [] => None
  | Err e :: _ => Some (i, e)
  | Ok _ :: results => shutdown_error (S i) results
  end.
Definition after_shutdown {A} (run : DiscoveryRun) (r : result DiscoveryError A) : result DiscoveryError A :=
  let? discovered := r in
  match shutdown_error 0 (run_shutdown run) with
  | Some (relay_index, error) => Err (DERelayShutdown relay_index error)
  | None => Ok discovered
  end.

Definition discovery_relay (signer : RelayAuthSigner) (policy : RelayAuthenticationPolicy) (c : RelayConfig) : RelayConfig :=
  {| rcf_url := rcf_url c; rcf_route := rcf_route c; rcf_auth := Some signer; rcf_authentication_policy := policy;
     command_capacity := command_capacity c; notification_capacity := notification_capacity c;
     connect_timeout := connect_timeout c; ping_interval := ping_interval c; idle_timeout := idle_timeout c;
     response_timeout := response_timeout c; shutdown_timeout := shutdown_timeout c;
     reconnect_initial_delay := reconnect_initial_delay c; reconnect_max_delay := reconnect_max_delay c;
     rcf_event_limits := rcf_event_limits c; rcf_frame_limits := rcf_frame_limits c |}.
Definition discovery_pool_config : RelayPoolConfig :=
  {| acknowledgement_threshold := 1; dedup_capacity := dedup_capacity RelayPoolConfig_default;
     dedup_ttl := dedup_ttl RelayPoolConfig_default |}.

Definition discover_replaceable_event (relay_configs : list RelayConfig) (signer : RelayAuthSigner) (author_public_key : bytes)
  (config : ReplaceableDiscoveryConfig) (valid : SignedEvent -> bool) (run : DiscoveryRun)
  : option (result DiscoveryError ReplaceableDiscoveryResult) :=
  let relay_count := zlen relay_configs in
  match validate_config relay_count author_public_key config with
  | Err e => Some (Err e)
  | Ok _ =>
      match map_err DEPool (RelayPool_spawn (map (discovery_relay signer (authentication_policy config)) relay_configs)
        discovery_pool_config) with
      | Err e => Some (Err e)
      | Ok _ =>
          let key := hex_encode (ras_public_key signer) in
          match await_relay_readiness config key run with
          | None => None
          | Some ready =>
              Some (after_shutdown run (let? _ := ready in
                discover_query relay_count key config valid (run_subscriptions run) (run_answers run)))
          end
      end
  end.

(** [discover_inner] of [dm_relay_discovery.rs]: the required authentications, the
    subscription and the query *)
Definition discover_dm_relay_list_inner (relay_count : Z) (key : string) (recipient_public_key : bytes) (now : Z)
  (el : EventLimits) (policy : DmInboxPolicy) (minimum_authenticated_relays : Z) (sid : string)
  (auth_ns : list PoolNotification) (subscription_results : list (result RelayError unit)) (ns : list PoolNotification)
  : result DiscoveryError ReplaceableDiscoveryResult :=
  let? _ := await_required_authentication minimum_authenticated_relays key auth_ns ∅ in
  fail_if negb (zlen subscription_results =? relay_count) with DEPoolStopped ;;
  let subscribed := ok_indices 0 subscription_results in
  fail_if bool_decide (subscribed = ∅) with DESubscriptionRejected ;;
  let? r := query_loop sid key (fun e => is_ok (verify_dm_inbox e recipient_public_key now el policy)) dm_better subscribed
    (fun completed => bool_decide (subscribed ⊆ completed)) ns ∅ None in
  let? event := ok_or DENoValidEvent r.1 in
  Ok {| rdr_event := event; queried_relays := Z.of_nat (size subscribed); completed_relays := Z.of_nat (size r.2) |}.

Record DmRelayDiscoveryConfig := {
  dmc_authentication_timeout : Z;
  dmc_query_timeout : Z;
  minimum_authenticated_relays : Z;
  dmc_subscription_id : string
}.
Definition DmRelayDiscoveryConfig_default : DmRelayDiscoveryConfig :=
  {| dmc_authentication_timeout := from_secs 10; dmc_query_timeout := from_secs 10; minimum_authenticated_relays := 1;
     dmc_subscription_id := "omachat-dm-relay-discovery" |}.

Definition dm_validate_config (relay_count : Z) (config : DmRelayDiscoveryConfig) : result DiscoveryError unit :=
  fail_if (relay_count =? 0) || (dmc_authentication_timeout config =? 0) || (dmc_query_timeout config =? 0)
    || (minimum_authenticated_relays config =? 0) || (relay_count <? minimum_authenticated_relays config)
    || (slen (dmc_subscription_id config) =? 0) || (64 <? slen (dmc_subscription_id config))
    with DEInvalidConfig ;;
  Ok tt.

Definition discover_dm_relay_list (relay_configs : list RelayConfig) (signer : RelayAuthSigner) (recipient_public_key : bytes)
  (now : Z) (el : EventLimits) (policy : DmInboxPolicy) (config : DmRelayDiscoveryConfig) (run : DiscoveryRun)
  : result DiscoveryError ReplaceableDiscoveryResult :=
  let relay_count := zlen relay_configs in
  let? _ := dm_validate_config relay_count config in
  let? _ := map_err DEPool (RelayPool_spawn (map (fun c => discovery_relay signer (rcf_authentication_policy c) c) relay_configs)
    discovery_pool_config) in
  after_shutdown run (discover_dm_relay_list_inner relay_count (hex_encode (ras_public_key signer)) recipient_public_key now
    el policy (minimum_authenticated_relays config) (dmc_subscription_id config)
    (run_notifications run) (run_subscriptions run) (run_answers run)).

(** *** The NIP-65 list ([relay_list_discovery.rs]), from the event the relays agreed on *)

Inductive RelayListDiscoveryError :=
| RLDTransport
| RLDVerification (e : RelayDiscoveryError)
| RLDUnexpectedAuthor.

Definition nip65_candidate (participant : bytes) (now : Z) (el : EventLimits) (limits : RelayDiscoveryLimits)
  (event : SignedEvent) : bool :=
  String.eqb (pubkey event) (hex_encode participant) && is_ok (parse_nip65_relay_list event now el limits).

Definition discover_nip65_relay_list (relay_configs : list RelayConfig) (signer : RelayAuthSigner) (participant : bytes)
  (now : Z) (el : EventLimits) (limits : RelayDiscoveryLimits) (config : ReplaceableDiscoveryConfig) (run : DiscoveryRun)
  : option (result RelayListDiscoveryError (SignedEvent * RelayList * Z * Z)) :=
  match discover_replaceable_event relay_configs signer participant config (nip65_candidate participant now el limits) run with
  | None => None
  | Some discovered => Some (
      let? discovered := map_err (fun _ => RLDTransport) discovered in
      let? relay_list := map_err RLDVerification (parse_nip65_relay_list (rdr_event discovered) now el limits) in
      fail_if negb (String.eqb (rl_public_key relay_list) (hex_encode participant)) with RLDUnexpectedAuthor ;;
      Ok (rdr_event discovered, relay_list, queried_relays discovered, completed_relays discovered))
  end.
End Discover.

(** ** What a query has seen *)

Section QueryFacts.
Variables (sid key : string) (valid : SignedEvent -> bool) (better : SignedEvent -> SignedEvent -> bool).
Variable (subscribed : gset nat).
Variable (done : gset nat -> bool).

(** The valid events of the subscription, from relays that took it *)
Definition candidates (ns : list PoolNotification) : list SignedEvent :=
  omap (fun n =>
    match pn_notification n with
    | NEvent s e => if bool_decide (pn_relay_index n ∈ subscribed) && String.eqb s sid && valid e then Some e else None
    | _ => None
    end) ns.

(** The relays that have sent everything they store *)
Definition finished_relays (ns : list PoolNotification) : gset nat :=
  list_to_set (omap (fun n =>
    match pn_notification n with
    | NEndOfStoredEvents s => if bool_decide (pn_relay_index n ∈ subscribed) && String.eqb s sid then Some (pn_relay_index n) else None
    | _ => None
    end) ns).

(** [best] is the best of what was seen: one of them, and none of them better. *)
Definition is_best (seen : list SignedEvent) (best : option SignedEvent) : Prop :=
  match best with
  | None => seen = []
  | Some b => b ∈ seen /\ forall e, e ∈ seen -> better e b = false
  end.

(** [better] behaves like a strict order that does not separate what it does not rank. *)
Hypothesis better_irrefl : forall e, better e e = false.
Hypothesis better_trans : forall a b c, better a b = false -> better c b = true -> better a c = false.

Lemma keep_best_spec seen best e :
  is_best seen best -> is_best (seen ++ if valid e then [e] else []) (keep_best better valid e best).
Proof using better_irrefl better_trans.
  intros H. unfold keep_best. destruct (valid e); cbn [andb]; [|by rewrite app_nil_r].
  destruct best as [b|]; cbn in *.
  - destruct H as [Hb Hall]. destruct (better e b) eqn:Eb; cbn.
    + split; [apply elem_of_app; right; by apply list_elem_of_singleton|].
      intros x [Hx| ->%list_elem_of_singleton]%elem_of_app; [|done]. eapply better_trans; [by apply Hall | done].
    + split; [apply elem_of_app; by left|]. intros x [Hx| ->%list_elem_of_singleton]%elem_of_app; [by apply Hall | done].
  - subst seen. cbn. split; [by apply list_elem_of_singleton|]. by intros x ->%list_elem_of_singleton.
Qed.

Lemma query_loop_spec ns completed best seen used0 r :
  is_best seen best -> seen = candidates used0 -> completed = finished_relays used0 ->
  query_loop sid key valid better subscribed done ns completed best = Ok r ->
  exists used rest, ns = used ++ rest /\ is_best (candidates (used0 ++ used)) r.1 /\
    r.2 = finished_relays (used0 ++ used) /\ done r.2 = true.
Proof using better_irrefl better_trans.
  revert completed best seen used0. induction ns as [|n ns IH]; intros completed best seen used0 Hb Hs Hc H;
    cbn [query_loop] in H; (destruct (done completed) eqn:Ed;
      [injection H as <-; exists []; eexists; split; [reflexivity|]; rewrite app_nil_r; subst; exact (conj Hb (conj eq_refl Ed))|]); [done|].
  (* one notification consumed *)
  assert (forall c' b', is_best (candidates (used0 ++ [n])) b' -> c' = finished_relays (used0 ++ [n]) ->
    query_loop sid key valid better subscribed done ns c' b' = Ok r ->
    exists used rest, n :: ns = used ++ rest /\ is_best (candidates (used0 ++ used)) r.1 /\
      r.2 = finished_relays (used0 ++ used) /\ done r.2 = true) as Hstep.
  { intros c' b' Hb' Hc' Hq. destruct (IH c' b' _ (used0 ++ [n]) Hb' eq_refl Hc' Hq) as (used & rest & -> & H1 & H2 & H3).
    exists (n :: used), rest. replace (used0 ++ n :: used) with ((used0 ++ [n]) ++ used) by (by rewrite <- app_assoc). done. }
  assert (candidates (used0 ++ [n]) = candidates used0 ++ candidates [n]) as Eca by apply omap_app.
  assert (finished_relays (used0 ++ [n]) = finished_relays used0 ∪ finished_relays [n]) as Efi.
  { unfold finished_relays. by rewrite omap_app, list_to_set_app_L. }
  assert (candidates [n] = [] -> finished_relays [n] = ∅ ->
    query_loop sid key valid better subscribed done ns completed best = Ok r ->
    exists used rest, n :: ns = used ++ rest /\ is_best (candidates (used0 ++ used)) r.1 /\
      r.2 = finished_relays (used0 ++ used) /\ done r.2 = true) as Hskip.
  { intros Ec Ef Hq. apply (Hstep completed best); [rewrite Eca, Ec, app_nil_r, <- Hs; done | | done].
    rewrite Efi, Ef, union_empty_r_L. done. }
  destruct (bool_decide (pn_relay_index n ∈ subscribed)) eqn:Esub; cbn [negb] in H.
  2:{ apply Hskip; [| |done]; unfold candidates, finished_relays; cbn; destruct (pn_notification n); rewrite ?Esub; done. }
  destruct (pn_notification n) as [| |s e|s|s m|m|m|k|k m] eqn:En;
    try (apply Hskip; [unfold candidates; cbn; by rewrite En | unfold finished_relays; cbn; by rewrite En | done]).
  - destruct (String.eqb s sid) eqn:E.
    + apply (Hstep completed (keep_best better valid e best)); [| |done].
      * assert (candidates [n] = if valid e then [e] else []) as Hcn.
        { unfold candidates. cbn. rewrite En, Esub, E. cbn. by destruct (valid e). }
        rewrite Eca, Hcn, <- Hs. by apply keep_best_spec.
      * rewrite Efi, <- Hc. unfold finished_relays. cbn. rewrite En. cbn. by rewrite union_empty_r_L.
    + apply Hskip; [| |done]; unfold candidates, finished_relays; cbn; rewrite En, ?Esub, ?E; done.
  - eapply Hstep; [| |exact H].
    + assert (candidates [n] = []) as Hcn by (unfold candidates; cbn; by rewrite En).
      by rewrite Eca, Hcn, app_nil_r, <- Hs.
    + rewrite Efi, <- Hc. unfold finished_relays. cbn. rewrite En, Esub. destruct (String.eqb s sid); cbn.
      * by rewrite union_empty_r_L, union_comm_L.
      * by rewrite union_empty_r_L.
  - destruct (String.eqb s sid); [done|].
    apply Hskip; [unfold candidates; cbn; by rewrite En | unfold finished_relays; cbn; by rewrite En | done].
  - destruct (String.eqb k key); [done|].
    apply Hskip; [unfold candidates; cbn; by rewrite En | unfold finished_relays; cbn; by rewrite En | done].
Qed.
End QueryFacts.

Lemma replaceable_better_irrefl e : replaceable_better e e = false.
Proof.
  unfold replaceable_better. rewrite Z.ltb_irrefl. cbn. rewrite bool_decide_false by apply string_lt_irrefl. by rewrite andb_false_r.
Qed.

(** Not better means that the other wins. *)
Lemma replaceable_better_wins a b : replaceable_better a b = false <-> wins b a.
Proof.
  unfold replaceable_better, wins. rewrite orb_false_iff, andb_false_iff, Z.ltb_ge, Z.eqb_neq, bool_decide_eq_false.
  split.
  - intros [H1 H2]. destruct (Z.eq_dec (created_at a) (created_at b)) as [E|]; [right | left; lia].
    split; [done|]. destruct H2 as [?|H2]; [done|].
    destruct (string_lt_total (id a) (id b)) as [?|[E'|[? ?]]]; [done | rewrite E'; reflexivity | done].
  - intros [H|[E H]]; [split; [lia | left; lia]|]. split; [lia|]. right. intros [H1 H2]. apply H2. by apply (anti_symm string_le).
Qed.

Lemma replaceable_better_trans a b c :
  replaceable_better a b = false -> replaceable_better c b = true -> replaceable_better a c = false.
Proof.
  intros H1%replaceable_better_wins H2. apply replaceable_better_wins. etrans; [|exact H1].
  destruct (wins_total c b) as [?|H]; [done|]. apply replaceable_better_wins in H. congruence.
Qed.

(** ** A readiness loop that spins *)

Section ReadinessFacts.
Variables (config : ReplaceableDiscoveryConfig) (key : string) (deadline : Z).

Lemma fold_min_le t ts x : x ∈ t :: ts -> fold_left Z.min ts t <= x.
Proof.
  revert t x. induction ts as [|u ts IH]; intros t x Hx; [by apply list_elem_of_singleton in Hx as ->|].
  cbn [fold_left]. apply elem_of_cons in Hx as [->|[->|Hx]%elem_of_cons].
  - etrans; [apply IH, list_elem_of_here|]. lia.
  - etrans; [apply IH, list_elem_of_here|]. lia.
  - apply IH. by right.
Qed.

Lemma next_settle_le st i t0 :
  connected_at st !! i = Some t0 -> i ∉ challenged st -> i ∉ rd_authenticated st ->
  next_settle config deadline st <= t0 + challenge_settle_timeout config.
Proof.
  intros Hi Hc Ha. unfold next_settle.
  assert (t0 + challenge_settle_timeout config ∈
    map (fun e => e.2 + challenge_settle_timeout config) (List.filter (unsettled st) (map_to_list (connected_at st)))) as Hin.
  { apply list_elem_of_fmap. exists (i, t0). split; [done|]. apply list_elem_of_In, filter_In. split.
    - by apply list_elem_of_In, elem_of_map_to_list.
    - unfold unsettled. cbn. by rewrite !bool_decide_false. }
  destruct (map _ _) as [|t ts]; [by apply elem_of_nil in Hin|]. by apply fold_min_le.
Qed.

(** The connections that can be ready without another notification *)
Definition hopeful (st : Readiness) (e : nat * Z) : bool :=
  bool_decide (e.1 ∈ rd_authenticated st) || negb (bool_decide (e.1 ∈ challenged st)).

Lemma ready_count_le now st :
  ready_count config now st <= zlen (List.filter (hopeful st) (map_to_list (connected_at st))).
Proof.
  unfold ready_count, zlen. apply inj_le. generalize (map_to_list (connected_at st)). intros l.
  induction l as [|e l IH]; [done|]. cbn. unfold is_ready, hopeful in *.
  destruct (bool_decide (e.1 ∈ rd_authenticated st)), (bool_decide (e.1 ∈ challenged st)); cbn [negb orb andb length]; try lia.
  destruct (_ <=? _); cbn [length]; lia.
Qed.
End ReadinessFacts.

Lemma is_best_some (better : SignedEvent -> SignedEvent -> bool) seen b :
  is_best better seen (Some b) -> b ∈ seen /\ forall e, e ∈ seen -> better e b = false.
Proof. done. Qed.

Lemma discover_query_inv relay_count key config valid results ns r :
  discover_query relay_count key config valid results ns = Ok r ->
  exists used rest completed, ns = used ++ rest /\
    is_best replaceable_better (candidates (subscription_id config) valid (ok_indices 0 results) used) (Some (rdr_event r)) /\
    completed = finished_relays (subscription_id config) (ok_indices 0 results) used /\
    minimum_ready_relays config <= Z.of_nat (size completed) /\
    completed_relays r = Z.of_nat (size completed).
Proof.
  intros Hd. unfold discover_query in Hd.
  apply fail_if_ok_inv in Hd as [_ Hd]. apply fail_if_ok_inv in Hd as [_ Hd]. apply fail_if_ok_inv in Hd as [_ Hd].
  apply rbind_ok_inv in Hd as ([best completed] & Hq & Hd). apply rbind_ok_inv in Hd as (event & Hbest & Hd).
  destruct best as [b|]; [|done]. cbn in Hbest. injection Hbest as ->. injection Hd as <-.
  apply (query_loop_spec _ _ _ _ _ _ replaceable_better_irrefl replaceable_better_trans _ _ _ [] []) in Hq
    as (used & rest & -> & Hb & Hc & Hdone); [|done..].
  exists used, rest, completed. cbn [fst snd] in *. apply Z.leb_le in Hdone. exact (conj eq_refl (conj Hb (conj Hc (conj Hdone eq_refl)))).
Qed.

Lemma candidates_valid sid valid subscribed ns e : e ∈ candidates sid valid subscribed ns -> valid e = true.
Proof.
  unfold candidates. intros (n & _ & Hn)%list_elem_of_omap. destruct (pn_notification n) as [| |s e'| | | | | |]; try done.
  destruct (bool_decide _), (String.eqb _ _), (valid e') eqn:Ev; cbn in Hn; congruence.
Qed.

Lemma shutdown_error_none i results : shutdown_error i results = None -> Forall (fun x => x = Ok tt) results.
Proof. revert i. induction results as [|[[]|] results IH]; intros i Hn; [done | constructor; [done | by eapply IH] | done]. Qed.

Lemma discover_event_inv `{Hex, Schnorr, UrlLib} relay_configs signer author config valid run r :
  discover_replaceable_event relay_configs signer author config valid run = Some (Ok r) ->
  Forall (fun x => x = Ok tt) (run_shutdown run) /\
  discover_query (zlen relay_configs) (hex_encode (ras_public_key signer)) config valid (run_subscriptions run) (run_answers run) = Ok r.
Proof.
  unfold discover_replaceable_event. destruct (validate_config _ _ _); [|done]. destruct (map_err _ _); [|done].
  destruct (await_relay_readiness _ _ _) as [ready|]; [|done]. intros Hd. apply (inj Some) in Hd. unfold after_shutdown in Hd.
  apply rbind_ok_inv in Hd as (x & Hq & Hd). apply rbind_ok_inv in Hq as (_ & _ & Hq).
  destruct (shutdown_error _ _) as [[]|] eqn:Es; [done|]. injection Hd as ->. split; [by eapply shutdown_error_none | done].
Qed.

(** A relay that is connected, not challenged and not authenticated, settled, while too few
    connections are hopeful: each turn returns without waiting. *)
Lemma settled_turn config key deadline st i t0 t :
  connected_at st !! i = Some t0 -> i ∉ challenged st -> i ∉ rd_authenticated st ->
  zlen (List.filter (hopeful st) (map_to_list (connected_at st))) < minimum_ready_relays config ->
  t0 + challenge_settle_timeout config <= tn_wait_now t ->
  readiness_turn config key deadline t st =
    if deadline <=? tn_now t then TurnDone (Err DEAuthenticationTimeout) else TurnAgain st false.
Proof.
  intros Hi Hc Ha Hfew Hw. unfold readiness_turn.
  pose proof (ready_count_le config (tn_now t) st). pose proof (next_settle_le config deadline st i t0 Hi Hc Ha).
  rewrite (proj2 (Z.leb_gt _ _)) by lia. destruct (deadline <=? tn_now t); [done|].
  assert (saturating_sub (next_settle config deadline st `min` deadline) (tn_wait_now t) = 0) as -> by (unfold_ints; lia). done.
Qed.

(** ** The theorems *)

(** What the discovery of a replaceable event returns is the newest valid event, with the
    lowest identifier among those of the same second, of everything the subscribed relays
    sent before enough of them had sent all they store; and every connection shut down
    cleanly. *)
Theorem discovery_best `{Hex, Schnorr, UrlLib} relay_configs signer author config valid run r :
  discover_replaceable_event relay_configs signer author config valid run = Some (Ok r) ->
  Forall (fun x => x = Ok tt) (run_shutdown run) /\
  exists used rest, run_answers run = used ++ rest /\
    let subscribed := ok_indices 0 (run_subscriptions run) in
    let seen := candidates (subscription_id config) valid subscribed used in
    rdr_event r ∈ seen /\ valid (rdr_event r) = true /\
    (forall e, e ∈ seen -> wins (rdr_event r) e) /\
    minimum_ready_relays config <= Z.of_nat (size (finished_relays (subscription_id config) subscribed used)).
Proof.
  intros [Hs (used & rest & completed & -> & [Hin Hbest]%is_best_some & -> & Hmin & _)%discover_query_inv]%discover_event_inv.
  split; [done|]. exists used, rest. split; [done|]. cbn zeta. split; [exact Hin|]. split; [|split; [|exact Hmin]].
  - by eapply candidates_valid.
  - intros e He. by apply replaceable_better_wins, Hbest.
Qed.

(** Two valid events of the same second are ranked in opposite ways by the two query
    loops, whichever arrives first: the loop for replaceable events keeps the one with the
    lowest identifier, the loop for direct-message relay lists the one with the highest. *)
Theorem discovery_tie_breaks_differ valid a b :
  valid a = true -> valid b = true -> created_at a = created_at b -> string_lt (id a) (id b) ->
  let fold better := fold_left (fun best e => keep_best better valid e best) in
  fold replaceable_better [a; b] None = Some a /\ fold replaceable_better [b; a] None = Some a /\
  fold dm_better [a; b] None = Some b /\ fold dm_better [b; a] None = Some b.
Proof.
  intros Ha Hb Ht Hlt. cbn. unfold keep_best, replaceable_better, dm_better. rewrite Ha, Hb. cbn [andb].
  rewrite Ht, Z.ltb_irrefl, Z.eqb_refl. cbn [andb orb].
  assert (~ string_lt (id b) (id a)) as Hgt.
  { intros [H1 H2]. destruct Hlt as [H3 _]. apply H2. by apply (anti_symm string_le). }
  rewrite (bool_decide_true _ Hlt), (bool_decide_false _ Hgt). done.
Qed.

(** The readiness loop of a discovery that needs several relays busy-waits once the first
    has settled. As long as the relays that can still count are fewer than the minimum, no
    turn waits for a notification, whatever arrives: none is consumed, and the only way
    the loop returns is with the timeout, at the deadline. *)
Theorem readiness_spins config key deadline st i t0 turns :
  connected_at st !! i = Some t0 -> i ∉ challenged st -> i ∉ rd_authenticated st ->
  zlen (List.filter (hopeful st) (map_to_list (connected_at st))) < minimum_ready_relays config ->
  Forall (fun t => t0 + challenge_settle_timeout config <= tn_wait_now t) turns ->
  await_challenge_driven_readiness config key deadline turns st =
    (if existsb (fun t => deadline <=? tn_now t) turns then Some (Err DEAuthenticationTimeout) else None, O).
Proof.
  intros Hi Hc Ha Hfew. induction turns as [|t turns IH]; intros Hts; [done|].
  apply Forall_cons in Hts as [Ht Hts]. cbn [await_challenge_driven_readiness existsb].
  rewrite (settled_turn config key deadline st i t0 t Hi Hc Ha Hfew Ht).
  destruct (deadline <=? tn_now t); [done|]. by rewrite IH.
Qed.

(** ** Witnesses *)

Definition sample_query_config : ReplaceableDiscoveryConfig :=
  {| authentication_timeout := 10; authentication_policy := AuthenticateWhenChallenged; challenge_settle_timeout := 1;
     query_timeout := 10; minimum_ready_relays := 2; subscription_id := "s"%string |}.

Definition notified (i : nat) (n : RelayNotification) : PoolNotification :=
  {| pn_relay_index := i; pn_notification := n |}.

Definition sample_answers : list PoolNotification :=
  [notified 0 (NEvent "s" (sample_signed "first")); notified 1 (NEvent "s" (sample_signed "second"));
   notified 0 (NEndOfStoredEvents "s"); notified 0 (NEndOfStoredEvents "s"); notified 1 (NEndOfStoredEvents "s");
   notified 0 NDisconnected]%string.

Definition sample_run : DiscoveryRun :=
  {| run_notifications := [];
     run_turns := [{| tn_now := 0; tn_wait_now := 0; tn_arrived := Some (notified 0 NConnected, 0) |};
                   {| tn_now := 0; tn_wait_now := 0; tn_arrived := Some (notified 1 NConnected, 0) |};
                   {| tn_now := 0; tn_wait_now := 0; tn_arrived := None |};
                   {| tn_now := 1; tn_wait_now := 1; tn_arrived := None |}];
     run_authentication_deadline := 10; run_subscriptions := [Ok tt; Ok tt]; run_answers := sample_answers;
     run_shutdown := [Ok tt; Ok tt] |}.

Lemma discovery_best_witness :
  exists r, discover_replaceable_event
    [RelayConfig_new "wss://a.example" Direct; RelayConfig_new "wss://b.example" Direct] sample_signer (key_of 5)
    sample_query_config (fun _ => true) sample_run = Some (Ok r) /\
  exists used rest, sample_answers = used ++ rest /\
    rdr_event r ∈ candidates "s" (fun _ => true) (ok_indices 0 [Ok tt; Ok tt]) used /\
    2 <= Z.of_nat (size (finished_relays "s" (ok_indices 0 [Ok tt; Ok tt]) used)).
Proof.
  destruct (discover_replaceable_event
    [RelayConfig_new "wss://a.example" Direct; RelayConfig_new "wss://b.example" Direct] sample_signer (key_of 5)
    sample_query_config (fun _ => true) sample_run) as [[r|]|] eqn:E; [|exfalso; revert E; vm_compute; discriminate..].
  exists r. split; [reflexivity|].
  destruct (discovery_best _ _ _ _ _ _ _ E) as (_ & used & rest & Hused & Hin & _ & Hwins & Hmin).
  exists used, rest. split; [exact Hused|]. split; [exact Hin | exact Hmin].
Defined.

Lemma discovery_tie_breaks_differ_witness :
  exists a b, string_lt (id a) (id b) /\
  fold_left (fun best e => keep_best replaceable_better (fun _ => true) e best) [a; b] None = Some a /\
  fold_left (fun best e => keep_best dm_better (fun _ => true) e best) [a; b] None = Some b.
Proof.
  assert (forall e f : SignedEvent, created_at e = created_at f -> string_lt (id e) (id f) ->
    string_lt (id e) (id f) /\
    fold_left (fun best e => keep_best replaceable_better (fun _ => true) e best) [e; f] None = Some e /\
    fold_left (fun best e => keep_best dm_better (fun _ => true) e best) [e; f] None = Some f) as Hx.
  { intros e f Ht Hlt.
    destruct (discovery_tie_breaks_differ (fun _ => true) e f eq_refl eq_refl Ht Hlt) as (H1 & _ & H2 & _). done. }
  exists (sample_signed "first"), (sample_signed "second").
  apply Hx; [vm_compute; reflexivity | apply (bool_decide_eq_true_1 _); vm_compute; reflexivity].
Defined.

(** Relay 0 has settled; relay 1 connects in vain. *)
Lemma readiness_spins_witness :
  await_challenge_driven_readiness sample_query_config "k" 100
    [{| tn_now := 5; tn_wait_now := 5; tn_arrived := Some (notified 1 NConnected, 5) |};
     {| tn_now := 6; tn_wait_now := 6; tn_arrived := Some (notified 1 (NAuthenticated "k"), 6) |};
     {| tn_now := 100; tn_wait_now := 100; tn_arrived := None |}]
    {| connected_at := {[O := 3]}; challenged := ∅; rd_authenticated := ∅ |}
  = (Some (Err DEAuthenticationTimeout), O).
Proof.
  rewrite (readiness_spins sample_query_config "k" 100 _ O 3); [reflexivity | reflexivity | set_solver | set_solver | reflexivity |].
  repeat constructor; cbn; lia.
Defined.
