(* ===== verification/Profile.v ===== *)
(** * Profiles ([omachat-nostr/src/profile_metadata.rs], [profile_verification.rs],
    [profile_cache.rs], [profile_discovery.rs])

    Publishing one's own profile, verifying a contact's, finding it on relays and keeping
    the newest of each contact. *)

From Stdlib Require Import Strings.Byte Ascii String.
From S2P Require Import Prelude RustStd BTree Libs Serde Concrete Event Frame Relay GiftWrap RelayList RelayCache Routing Pool Discovery.
Local Open Scope Z_scope.

Definition PROFILE_METADATA_KIND : Z := 0.
Definition MAX_NOSTR_NAME_BYTES : Z := 32.
Definition MAX_DISPLAY_NAME_CHARS : Z := 80.
Definition MAX_ABOUT_BYTES : Z := 2048.
Definition MAX_PICTURE_URL_BYTES : Z := 2048.
Definition MAX_EXTERNAL_NOSTR_NAME_BYTES : Z := 64.

Record NostrProfileDraft := {
  pd_nostr_name : option string;
  pd_display_name : option string;
  pd_about : option string;
  pd_picture : option string
}.

Inductive ProfileMetadataError :=
| PMRandom
| PMEncoding
| PMInvalidKey (error : string)
| PMInvalidEvent (error : string)
| PMInvalidNostrName
| PMInvalidDisplayName
| PMInvalidAbout
| PMInvalidPicture.

(** The text of a JSON error is the library's. *)
Inductive ProfileVerificationError :=
| PVInvalidEvent (error : string)
| PVWrongKind
| PVAuthorMismatch
| PVUnexpectedTags
| PVInvalidContent
| PVInvalidNostrName
| PVInvalidDisplayName
| PVInvalidAbout
| PVInvalidPicture.

Inductive ProfileNameClassification := HandleSyntaxCandidate | PresentationOnly.

Record VerifiedNostrProfile := {
  vp_public_key : bytes;
  vp_source_event_id : string;
  vp_source_created_at : Z;
  vp_nostr_name : option string;
  vp_name_classification : option ProfileNameClassification;
  vp_display_name : option string;
  vp_about : option string;
  vp_picture : option string;
  vp_source_event : SignedEvent
}.

(** ** Checking the fields *)

(** [byte.is_ascii_alphanumeric() || matches!(byte, b'-' | b'_' | b'.')] *)
Definition is_name_byte (b : byte) : bool :=
  is_ascii_alphanumeric b || (byte_val b =? 45) || (byte_val b =? 95) || (byte_val b =? 46).

(** The tests both files write out, and [if let Some(field) = &.. && test] *)
Definition some_and {A} (o : option A) (p : A -> bool) : bool :=
  match o with Some a => p a | None => false end.
Definition bad_display_name (s : string) : bool :=
  (slen s =? 0) || negb (is_trimmed s) || (MAX_DISPLAY_NAME_CHARS <? zlen (chars s)) || existsb is_control (chars s).
Definition bad_about (s : string) : bool :=
  (MAX_ABOUT_BYTES <? slen s) || existsb (fun c => is_control c && negb ((c =? 10) || (c =? 9))) (chars s).

Section Profile.
Context {hex : Hex} {json : Json} {sha : Sha256} {schnorr : Schnorr} {url : UrlLib}.

Definition bad_picture (s : string) : bool :=
  (MAX_PICTURE_URL_BYTES <? slen s)
  || match url_parse s with
     | None => true
     | Some parsed =>
         negb (String.eqb (url_scheme parsed) "https") || negb (is_some (url_host_str parsed))
         || negb (slen (url_username parsed) =? 0) || is_some (url_password parsed) || is_some (url_fragment parsed)
     end.

Definition validate_profile (profile : NostrProfileDraft) : result ProfileMetadataError unit :=
  fail_if some_and (pd_nostr_name profile) (fun name =>
      (slen name =? 0) || (MAX_NOSTR_NAME_BYTES <? slen name) || negb (bytes_all is_name_byte name))
    with PMInvalidNostrName ;;
  fail_if some_and (pd_display_name profile) bad_display_name with PMInvalidDisplayName ;;
  fail_if some_and (pd_about profile) bad_about with PMInvalidAbout ;;
  fail_if some_and (pd_picture profile) bad_picture with PMInvalidPicture ;;
  Ok tt.

(** [ProfileContent], whose absent fields are skipped *)
Definition member_of (k : string) (o : option string) : list (string * Value) :=
  match o with Some s => [(k, JString s)] | None => [] end.
Definition profile_content (profile : NostrProfileDraft) : Value :=
  JObject (member_of "name" (pd_nostr_name profile) ++ member_of "display_name" (pd_display_name profile)
    ++ member_of "about" (pd_about profile) ++ member_of "picture" (pd_picture profile)).

Definition create_profile_metadata_with_aux (secret_key : bytes) (time : Z) (profile : NostrProfileDraft)
  (auxiliary_randomness : bytes) (event_limits : EventLimits) : result ProfileMetadataError SignedEvent :=
  let? _ := validate_profile profile in
  let text := of_bytes (json_to_vec (profile_content profile)) in
  let? public_key := map_err (fun e => PMInvalidKey (EventError_to_string e)) (xonly_public_key secret_key) in
  let? event := map_err (fun e => PMInvalidEvent (EventError_to_string e))
    (UnsignedEvent_new (hex_encode public_key) time PROFILE_METADATA_KIND [] text event_limits) in
  map_err (fun e => PMInvalidEvent (EventError_to_string e))
    (sign_with_aux event secret_key auxiliary_randomness event_limits).

Definition create_profile_metadata (secret_key : bytes) (time : Z) (profile : NostrProfileDraft)
  (event_limits : EventLimits) : SE Entropy ProfileMetadataError SignedEvent :=
  let! aux := getrandom_fill PMRandom 32 in
  se_ret (create_profile_metadata_with_aux secret_key time profile aux event_limits).

(** ** Verifying a contact's profile *)

(** One field of [visit_map]: a second occurrence is an error, and so is a value that is
    not a string. A field has been seen when it is set. *)
Definition set_field (current : option string) (v : Value) : option string :=
  match current with Some _ => None | None => de_string v end.

Fixpoint visit_map (members : list (string * Value)) (profile : NostrProfileDraft) : option NostrProfileDraft :=
  match members with
  | [] => Some profile
  | (key, v) :: members =>
      if String.eqb key "name" then
        s ← set_field (pd_nostr_name profile) v;
        visit_map members {| pd_nostr_name := Some s; pd_display_name := pd_display_name profile;
                             pd_about := pd_about profile; pd_picture := pd_picture profile |}
      else if String.eqb key "display_name" then
        s ← set_field (pd_display_name profile) v;
        visit_map members {| pd_nostr_name := pd_nostr_name profile; pd_display_name := Some s;
                             pd_about := pd_about profile; pd_picture := pd_picture profile |}
      else if String.eqb key "about" then
        s ← set_field (pd_about profile) v;
        visit_map members {| pd_nostr_name := pd_nostr_name profile; pd_display_name := pd_display_name profile;
                             pd_about := Some s; pd_picture := pd_picture profile |}
      else if String.eqb key "picture" then
        s ← set_field (pd_picture profile) v;
        visit_map members {| pd_nostr_name := pd_nostr_name profile; pd_display_name := pd_display_name profile;
                             pd_about := pd_about profile; pd_picture := Some s |}
      else visit_map members profile
  end.

Definition empty_profile : NostrProfileDraft :=
  {| pd_nostr_name := None; pd_display_name := None; pd_about := None; pd_picture := None |}.

(** [RawProfile] has the draft's fields; only an object deserialises to it. *)
Definition raw_profile (v : Value) : option NostrProfileDraft :=
  match v with JObject members => visit_map members empty_profile | _ => None end.

Definition validate_known_fields (raw : NostrProfileDraft) : result ProfileVerificationError unit :=
  fail_if some_and (pd_nostr_name raw) (fun name =>
      (slen name =? 0) || (MAX_EXTERNAL_NOSTR_NAME_BYTES <? slen name) || existsb is_control (chars name))
    with PVInvalidNostrName ;;
  fail_if some_and (pd_display_name raw) bad_display_name with PVInvalidDisplayName ;;
  fail_if some_and (pd_about raw) bad_about with PVInvalidAbout ;;
  fail_if some_and (pd_picture raw) bad_picture with PVInvalidPicture ;;
  Ok tt.

Definition classify_name (name : string) : ProfileNameClassification :=
  if (slen name <=? 32) && bytes_all is_name_byte name then HandleSyntaxCandidate else PresentationOnly.

Definition verify_profile_metadata (event : SignedEvent) (expected_public_key : bytes) (now : Z)
  (event_limits : EventLimits) : result ProfileVerificationError VerifiedNostrProfile :=
  let? _ := map_err (fun e => PVInvalidEvent (EventError_to_string e)) (verify event now event_limits) in
  fail_if negb (kind event =? PROFILE_METADATA_KIND) with PVWrongKind ;;
  fail_if negb (String.eqb (pubkey event) (hex_encode expected_public_key)) with PVAuthorMismatch ;;
  fail_if negb (zlen (tags event) =? 0) with PVUnexpectedTags ;;
  let? raw := ok_or PVInvalidContent (v ← json_from_slice (as_bytes (content event)); raw_profile v) in
  let? _ := validate_known_fields raw in
  Ok {| vp_public_key := expected_public_key; vp_source_event_id := id event;
        vp_source_created_at := created_at event; vp_nostr_name := pd_nostr_name raw;
        vp_name_classification := classify_name <$> pd_nostr_name raw;
        vp_display_name := pd_display_name raw; vp_about := pd_about raw; vp_picture := pd_picture raw;
        vp_source_event := event |}.
End Profile.

(** ** The cache *)

Definition MAX_CACHED_PROFILES : Z := 4096.
Definition MAX_SERIALIZED_PROFILE_CACHE_BYTES : Z := 1048576.
Definition PROFILE_CACHE_VERSION : Z := 1.

Record VerifiedProfileCacheRecord := {
  pr_profile : VerifiedNostrProfile;
  pr_verified_at : Z
}.

Inductive ProfileCacheError :=
| PCInvalidVerificationTime
| PCInvalidSourceEvent
| PCInvalidEncoding
| PCUnsupportedVersion (version : Z)
| PCRollback
| PCEquivocation
| PCCacheFull
| PCCacheTooLarge.

Abbreviation VerifiedProfileCache := (BTreeMap VerifiedProfileCacheRecord).

Section ProfileCache.
Context {hex : Hex} {json : Json} {sha : Sha256} {schnorr : Schnorr} {url : UrlLib}.

Definition profile_to_json (records : VerifiedProfileCache) : result ProfileCacheError bytes :=
  let encoded := json_to_vec (persisted_cache PROFILE_CACHE_VERSION
    (map (fun r => (pr_verified_at r, vp_source_event (pr_profile r))) (bt_values records))) in
  fail_if MAX_SERIALIZED_PROFILE_CACHE_BYTES <? zlen encoded with PCCacheTooLarge ;;
  Ok encoded.

Definition profile_insert (profile : VerifiedNostrProfile) (verified_at : Z)
  : SE VerifiedProfileCache ProfileCacheError CacheMutation :=
  fun records =>
  if verified_at <? vp_source_created_at profile then (Err PCInvalidVerificationTime, records)
  else
    let key := hex_encode (vp_public_key profile) in
    let store := match cache_store profile_to_json key {| pr_profile := profile; pr_verified_at := verified_at |} records with
                 | (Ok _, stored) => (Ok Stored, stored)
                 | (Err e, stored) => (Err e, stored)
                 end in
    match bt_get key records with
    | Some current =>
        if vp_source_created_at profile <? vp_source_created_at (pr_profile current) then (Err PCRollback, records)
        else if vp_source_created_at profile =? vp_source_created_at (pr_profile current) then
          if negb (String.eqb (vp_source_event_id profile) (vp_source_event_id (pr_profile current)))
          then (Err PCEquivocation, records)
          else (Ok Unchanged, records)
        else store
    | None => if MAX_CACHED_PROFILES <=? zlen records then (Err PCCacheFull, records) else store
    end.

Definition profile_lookup (records : VerifiedProfileCache) (public_key : bytes) (now freshness_window_seconds : Z)
  : CacheLookup VerifiedProfileCacheRecord :=
  match bt_get (hex_encode public_key) records with
  | None => LookupMissing
  | Some record =>
      match checked_sub now (vp_source_created_at (pr_profile record)) with
      | None => LookupUnusableClockRollback record
      | Some age => if age <=? freshness_window_seconds then LookupFresh record else LookupOfflineStale record
      end
  end.

Fixpoint profile_load (now : Z) (el : EventLimits) (rs : list (Z * SignedEvent)) (seen : list bytes)
  (cache : VerifiedProfileCache) : result ProfileCacheError VerifiedProfileCache :=
  match rs with
  | [] => Ok cache
  | (verified_at, event) :: rs =>
      fail_if now <? verified_at with PCInvalidVerificationTime ;;
      let? public_key := ok_or PCInvalidSourceEvent (hex_decode_to_slice 32 (pubkey event)) in
      fail_if bool_decide (public_key ∈ seen) with PCInvalidEncoding ;;
      let? profile := map_err (fun _ => PCInvalidSourceEvent) (verify_profile_metadata event public_key now el) in
      match profile_insert profile verified_at cache with
      | (Ok _, cache) => profile_load now el rs (public_key :: seen) cache
      | (Err e, _) => Err e
      end
  end.

Definition profile_from_json (encoded : bytes) (now : Z) (el : EventLimits)
  : result ProfileCacheError VerifiedProfileCache :=
  fail_if MAX_SERIALIZED_PROFILE_CACHE_BYTES <? zlen encoded with PCCacheTooLarge ;;
  let? persisted := ok_or PCInvalidEncoding (v ← json_from_slice encoded; cache_of_value u16_max v) in
  fail_if negb (persisted.1 =? PROFILE_CACHE_VERSION) with PCUnsupportedVersion persisted.1 ;;
  fail_if MAX_CACHED_PROFILES <? zlen persisted.2 with PCCacheFull ;;
  profile_load now el persisted.2 [] [].

(** ** Finding a profile on the relays *)

Definition ProfileDiscoveryConfig_default : ReplaceableDiscoveryConfig := {|
  authentication_timeout := from_secs 10; authentication_policy := AuthenticateWhenChallenged;
  challenge_settle_timeout := from_millis 100; query_timeout := from_secs 10; minimum_ready_relays := 1;
  subscription_id := "omachat-profile-discovery" |}.

Inductive ProfileDiscoveryError := PDTransport | PDVerification (e : ProfileVerificationError).

Record ProfileDiscoveryResult := {
  pdr_event : SignedEvent;
  pdr_profile : VerifiedNostrProfile;
  pdr_queried_relays : Z;
  pdr_completed_relays : Z
}.

Definition discover_profile_metadata (relay_configs : list RelayConfig) (signer : RelayAuthSigner) (participant : bytes)
  (now : Z) (el : EventLimits) (config : ReplaceableDiscoveryConfig) (run : DiscoveryRun)
  : option (result ProfileDiscoveryError ProfileDiscoveryResult) :=
  match discover_replaceable_event relay_configs signer participant config
    (fun event => is_ok (verify_profile_metadata event participant now el)) run with
  | None => None
  | Some discovered => Some (
      let? discovered := map_err (fun _ => PDTransport) discovered in
      let? profile := map_err PDVerification (verify_profile_metadata (rdr_event discovered) participant now el) in
      Ok {| pdr_event := rdr_event discovered; pdr_profile := profile;
            pdr_queried_relays := queried_relays discovered; pdr_completed_relays := completed_relays discovered |})
  end.
End ProfileCache.

(** ** Facts: fields *)

Lemma name_bytes_ascii name : bytes_all is_name_byte name = true ->
  utf8_valid name = true /\ existsb is_control (chars name) = false.
Proof.
  unfold bytes_all. intros Hall.
  assert (utf8_decode (as_bytes name) = Some (map byte_val (as_bytes name))) as Hd.
  { apply utf8_decode_ascii. eapply forallb_impl, Hall. intros b. unfold is_name_byte, is_ascii_alphanumeric,
      is_ascii_digit, is_ascii_lowercase, is_ascii_uppercase, in_range. lia. }
  unfold utf8_valid, chars. rewrite Hd. split; [done|]. cbn [default].
  apply not_true_iff_false. intros (c & Hc & Hctl)%existsb_exists. apply in_map_iff in Hc as (b & <- & Hb).
  eapply forallb_forall in Hall; [|exact Hb]. revert Hall Hctl.
  unfold is_name_byte, is_ascii_alphanumeric, is_ascii_digit, is_ascii_lowercase, is_ascii_uppercase, is_control, in_range. lia.
Qed.

Section ProfileFacts.
Context {hex : Hex} {json : Json} {sha : Sha256} {schnorr : Schnorr} {url : UrlLib}.

Lemma validate_profile_inv p :
  validate_profile p = Ok tt ->
  validate_known_fields p = Ok tt /\
  (forall name, pd_nostr_name p = Some name -> classify_name name = HandleSyntaxCandidate).
Proof.
  destruct p as [name dn ab pic]. unfold validate_profile, validate_known_fields.
  cbn [pd_nostr_name pd_display_name pd_about pd_picture].
  intros Hv. apply fail_if_ok_inv in Hv as [Hn Hv]. do 3 (apply fail_if_ok_inv in Hv as [-> Hv]).
  destruct name as [name|]; cbn [some_and] in *; [|done]. split_bools.
  unfold classify_name, MAX_EXTERNAL_NOSTR_NAME_BYTES, MAX_NOSTR_NAME_BYTES in *. split.
  - rewrite (proj2 (Z.eqb_neq _ _)), (proj2 (Z.ltb_ge _ _)), (proj2 (name_bytes_ascii name ltac:(done))) by (done || lia). done.
  - intros ? [= <-]. rewrite (proj2 (Z.leb_le _ 32)) by lia. cbn [andb]. by repeat match goal with E : _ = true |- _ => rewrite E end.
Qed.

(** What the fields of the draft are, as UTF-8 *)
Definition draft_wf (p : NostrProfileDraft) : bool :=
  forallb (fun o => match o with Some s => utf8_valid s | None => true end)
    [pd_nostr_name p; pd_display_name p; pd_about p; pd_picture p].

Lemma profile_content_wf p : draft_wf p = true -> json_wf (profile_content p) = true.
Proof.
  destruct p as [name dn ab pic]. unfold draft_wf, profile_content. cbn [forallb pd_nostr_name pd_display_name pd_about pd_picture].
  intros Hw. split_bools. cbn [json_wf]. rewrite !forallb_app.
  destruct name, dn, ab, pic; cbn [member_of forallb fst snd json_wf] in *; repeat (apply andb_true_iff; split); done.
Qed.

Lemma raw_profile_content p : raw_profile (profile_content p) = Some p.
Proof. by destruct p as [[?|] [?|] [?|] [?|]]. Qed.
End ProfileFacts.

(** ** Facts: the cache *)

Section ProfileCacheFacts.
Context {hex : Hex} {json : Json} {sha : Sha256} {schnorr : Schnorr} {url : UrlLib}.
Context {hex_laws : HexLaws} {sha_laws : Sha256Laws} {json_laws : JsonLaws}.

Definition profile_key (r : VerifiedProfileCacheRecord) : string := hex_encode (vp_public_key (pr_profile r)).

Lemma verify_profile_inv ev pk t el p :
  verify_profile_metadata ev pk t el = Ok p ->
  verify ev t el = Ok tt /\ pubkey ev = hex_encode pk /\ kind ev = PROFILE_METADATA_KIND /\
  vp_public_key p = pk /\ vp_source_event p = ev /\ vp_source_created_at p = created_at ev /\ vp_source_event_id p = id ev.
Proof.
  unfold verify_profile_metadata. intros Hv. apply rbind_ok_inv in Hv as ([] & Hev & Hv). apply map_err_ok_inv in Hev.
  do 3 (apply fail_if_ok_inv in Hv as [? Hv]). apply rbind_ok_inv in Hv as (raw & _ & Hv).
  apply rbind_ok_inv in Hv as (_ & _ & Hv). injection Hv as <-. split_bools. split_and!; try done. by apply String.eqb_eq.
Qed.

Lemma verify_profile_later ev pk t now el p :
  verify_profile_metadata ev pk t el = Ok p -> t <= now -> verify_profile_metadata ev pk now el = Ok p.
Proof using hex_laws sha_laws.
  unfold verify_profile_metadata. intros Hv Ht. apply rbind_ok_inv in Hv as ([] & Hev & Hv).
  rewrite (verify_later ev t) by (by apply map_err_ok_inv in Hev || done). exact Hv.
Qed.

(** A record whose profile was verified at or before [now] *)
Definition profile_genuine (el : EventLimits) (now : Z) (r : VerifiedProfileCacheRecord) : Prop :=
  let p := pr_profile r in
  zlen (vp_public_key p) = 32 /\ vp_source_created_at p <= pr_verified_at r <= now /\
  record_wf (pr_verified_at r, vp_source_event p) = true /\
  exists t, t <= now /\ verify_profile_metadata (vp_source_event p) (vp_public_key p) t el = Ok p.

Definition profile_cache_ok (el : EventLimits) (now : Z) (c : VerifiedProfileCache) : Prop :=
  bt_sorted c /\ zlen c <= MAX_CACHED_PROFILES /\ Forall (fun e => e.1 = profile_key e.2 /\ profile_genuine el now e.2) c.

Lemma profile_insert_spec p at_ records res records' :
  bt_sorted records -> profile_insert p at_ records = (res, records') ->
  match res with
  | Ok Stored => let r := {| pr_profile := p; pr_verified_at := at_ |} in
      vp_source_created_at p <= at_ /\ records' = bt_insert (profile_key r) r records /\
      is_ok (profile_to_json records') = true /\
      match bt_get (profile_key r) records with
      | Some current => vp_source_created_at (pr_profile current) < vp_source_created_at p
      | None => zlen records < MAX_CACHED_PROFILES
      end
  | _ => records' = records
  end.
Proof.
  intros Hs. unfold profile_insert. destruct (_ <? _) eqn:Et; [by intros [= <- <-]|]. cbv zeta.
  change (hex_encode (vp_public_key p)) with (profile_key {| pr_profile := p; pr_verified_at := at_ |}).
  set (r := {| pr_profile := p; pr_verified_at := at_ |}).
  destruct (cache_store profile_to_json (profile_key r) r records) as [r0 stored] eqn:Est.
  pose proof (cache_store_spec _ _ _ _ _ _ Hs Est) as Hst.
  destruct (bt_get (profile_key r) records) as [current|] eqn:Eg.
  - destruct (_ <? _) eqn:E1 in |- *; [by intros [= <- <-]|]. destruct (_ =? _) eqn:E2 in |- *; [destruct (negb _); by intros [= <- <-]|].
    destruct r0; intros [= <- <-]; [|done]. destruct Hst as [-> Hok]. split_bools. split_and!; done || lia.
  - destruct (_ <=? _) eqn:E1 in |- *; [by intros [= <- <-]|].
    destruct r0; intros [= <- <-]; [|done]. destruct Hst as [-> Hok]. split_bools. split_and!; done || lia.
Qed.

Lemma profile_load_ok now el rest pre seen :
  profile_cache_ok el now (pre ++ rest) -> is_ok (profile_to_json (pre ++ rest)) = true ->
  (forall pk, pk ∈ seen -> hex_encode pk ∈ pre.*1) ->
  profile_load now el (map (fun r => (pr_verified_at r, vp_source_event (pr_profile r))) (bt_values rest)) seen pre
    = Ok (pre ++ rest).
Proof using Type*.
  revert pre seen. induction rest as [|[k r] rest IH]; intros pre seen Hok Hj Hseen; [by rewrite app_nil_r|].
  destruct Hok as (Hs & Hl & Hf).
  assert (k = profile_key r /\ profile_genuine el now r) as (-> & H32 & Hat & _ & t & Ht & Hv).
  { rewrite Forall_app, Forall_cons in Hf. tauto. }
  replace (pre ++ (profile_key r, r) :: rest) with ((pre ++ [(profile_key r, r)]) ++ rest) in * by (by rewrite <- app_assoc).
  assert (bt_sorted (pre ++ [(profile_key r, r)])) as Hs1 by (eapply StronglySorted_app_1_l, Hs).
  destruct (bt_sorted_snoc _ _ _ Hs1) as [_ Hget].
  destruct (verify_profile_inv _ _ _ _ _ Hv) as (_ & Hpk & _).
  cbn [bt_values fmap list_fmap map snd profile_load]. rewrite (proj2 (Z.ltb_ge _ _)) by lia.
  rewrite Hpk, hex_decode_to_slice_encode by done. cbn [ok_or rbind].
  rewrite bool_decide_false by (intros Hin%Hseen; apply bt_get_none in Hget; by apply Hget).
  rewrite (verify_profile_later _ _ _ _ _ _ Hv Ht). cbn [map_err rbind].
  assert (profile_insert (pr_profile r) (pr_verified_at r) pre = (Ok Stored, pre ++ [(profile_key r, r)])) as ->.
  { unfold profile_insert. fold (profile_key r). rewrite Hget, (proj2 (Z.ltb_ge _ _)) by lia.
    rewrite (proj2 (Z.leb_gt _ _)) by (unfold zlen in *; rewrite !length_app in Hl; cbn [length] in Hl; lia).
    replace {| pr_profile := pr_profile r; pr_verified_at := pr_verified_at r |} with r by (by destruct r).
    by rewrite (cache_store_next profile_to_json MAX_SERIALIZED_PROFILE_CACHE_BYTES PROFILE_CACHE_VERSION _ _ _ _ _ rest
      (fun c => eq_refl) Hs1 Hj). }
  apply IH; [done|done|]. intros pk. rewrite elem_of_cons, fmap_app, elem_of_app.
  intros [->|Hin%Hseen]; [right; left | by left].
Qed.
End ProfileCacheFacts.

(** ** Properties *)

Section Properties.
Context {hex : Hex} {json : Json} {sha : Sha256} {schnorr : Schnorr} {url : UrlLib}.
Context {hex_laws : HexLaws} {json_laws : JsonLaws} {sha_laws : Sha256Laws} {schnorr_laws : SchnorrLaws}.

(** A profile one publishes is the profile others verify. Whatever draft the publisher
    accepts and signs, the reader accepts for the signer's key, returns the same four
    fields, and classifies the name as handle syntax. *)
Theorem profile_roundtrip sk pk t draft aux el ev now :
  create_profile_metadata_with_aux sk t draft aux el = Ok ev -> schnorr_public_key sk = Some pk ->
  draft_wf draft = true -> zlen (event_to_json ev) <= max_serialized_bytes el ->
  t <= saturating_add u64_max now (max_future_seconds el) ->
  verify_profile_metadata ev pk now el =
    Ok {| vp_public_key := pk; vp_source_event_id := id ev; vp_source_created_at := t;
          vp_nostr_name := pd_nostr_name draft;
          vp_name_classification := (fun _ => HandleSyntaxCandidate) <$> pd_nostr_name draft;
          vp_display_name := pd_display_name draft; vp_about := pd_about draft; vp_picture := pd_picture draft;
          vp_source_event := ev |}.
Proof using Type*.
  intros Hc Hpk Hwf Hz Ht. unfold create_profile_metadata_with_aux in Hc. inv_ok. destruct a.
  unfold xonly_public_key in Ha0. rewrite Hpk in Ha0. injection Ha0 as <-.
  destruct (validate_profile_inv _ Ha) as [Hknown Hname].
  destruct (signed_event_fields _ _ _ _ _ _ _ _ _ _ _ Ha1 Hc Hz Ht) as (Hv & Hpub & Hct & Hk & Htags & Hcontent).
  unfold verify_profile_metadata. rewrite Hv, Hk, Hpub, Htags, Hcontent, Hct, String.eqb_refl. cbn [map_err rbind negb].
  rewrite as_bytes_of_bytes, json_roundtrip by (by apply profile_content_wf). cbn [mbind option_bind].
  rewrite raw_profile_content. cbn [ok_or rbind]. rewrite Hknown. cbn [rbind].
  destruct (pd_nostr_name draft) as [name|]; [|done]. cbn [fmap option_fmap option_map]. by rewrite Hname.
Qed.

(** The profile cache only moves forward. Inserting a verified profile keeps the cache
    bounded, sorted and made of verified profiles under their own authors' keys; an insert
    that does not store changes nothing; and every author who had a profile still has the
    same record or one from a strictly later second. *)
Theorem profile_cache_monotone el now c ev pk t p verified_at res c' :
  profile_cache_ok el now c -> verify_profile_metadata ev pk t el = Ok p -> t <= now -> zlen pk = 32 ->
  verified_at <= now -> record_wf (verified_at, ev) = true -> profile_insert p verified_at c = (res, c') ->
  profile_cache_ok el now c' /\
  (res <> Ok Stored -> c' = c) /\
  (res = Ok Stored -> bt_get (hex_encode pk) c' = Some {| pr_profile := p; pr_verified_at := verified_at |}) /\
  forall k old, bt_get k c = Some old -> exists new, bt_get k c' = Some new /\
    (new = old \/ vp_source_created_at (pr_profile old) < vp_source_created_at (pr_profile new)).
Proof using Type.
  intros (Hs & Hl & Hf) Hv Ht H32 Hat Hwf Hi. pose proof (profile_insert_spec _ _ _ _ _ Hs Hi) as Hspec.
  destruct (verify_profile_inv _ _ _ _ _ Hv) as (_ & _ & _ & Hpk & Hev & _).
  set (r := {| pr_profile := p; pr_verified_at := verified_at |}) in *.
  destruct res as [[]|]; [|subst c'; split; [done|]; split; [done|]; split; [done|]; eauto..].
  destruct Hspec as (Hle & -> & Hj & Hcur).
  assert (profile_key r = hex_encode pk) as Hkey by (unfold profile_key; cbn; by rewrite Hpk).
  split; [|split; [done|split]].
  - split; [by apply bt_insert_sorted|]. split.
    + unfold zlen in *. rewrite bt_length_insert by done. case_match; lia.
    + rewrite Forall_forall in *. intros x [->|Hx]%bt_insert_elem; [|by apply Hf].
      split; [done|]. unfold profile_genuine. cbn. rewrite Hev, Hpk. eauto 10.
  - intros _. by rewrite Hkey, bt_get_insert, decide_True by done.
  - intros k old Hk. rewrite bt_get_insert by done. case_decide as E; [|eauto].
    subst k. rewrite Hk in Hcur. eauto.
Qed.

(** A profile cache that was written is read back as it was: loading verifies every
    signed profile again, at any later time, and rebuilds the same map. *)
Theorem profile_cache_roundtrip el now c encoded :
  profile_cache_ok el now c -> profile_to_json c = Ok encoded -> profile_from_json encoded now el = Ok c.
Proof using hex_laws json_laws sha_laws.
  intros Hok Hj. pose proof Hok as (Hs & Hl & Hf).
  pose proof (profile_load_ok now el c [] [] Hok) as Hload. cbn [app] in Hload.
  rewrite Hj in Hload. specialize (Hload eq_refl). unfold profile_to_json in Hj. unfold profile_from_json.
  apply fail_if_ok_inv in Hj as [Hsize Hj]. injection Hj as <-. rewrite Hsize.
  rewrite persisted_roundtrip; [|by vm_compute|by vm_compute|].
  - cbn [ok_or rbind fst snd negb]. rewrite Z.eqb_refl. cbn [negb].
    unfold bt_values, zlen at 1. rewrite length_map, length_fmap. fold (zlen c).
    rewrite (proj2 (Z.ltb_ge _ _)) by done. apply Hload. intros pk Hin. by apply elem_of_nil in Hin.
  - apply forallb_forall. intros x (r & <- & Hin)%in_map_iff. apply list_elem_of_In in Hin.
    apply list_elem_of_fmap in Hin as (e & -> & He). rewrite Forall_forall in Hf.
    by destruct (Hf _ He) as (_ & _ & _ & ? & _).
Qed.

(** Discovering a profile fails only in transport. The event the relays' answers select
    is one that verified, so verifying it again cannot fail; what is returned is the profile
    of the newest verifying event the subscribed relays sent. *)
Theorem profile_discovery_verified relay_configs signer participant now el config run r :
  discover_profile_metadata relay_configs signer participant now el config run = Some r ->
  r = Err PDTransport \/
  exists d used rest, r = Ok d /\ run_answers run = used ++ rest /\
    verify_profile_metadata (pdr_event d) participant now el = Ok (pdr_profile d) /\
    pdr_event d ∈ candidates (subscription_id config) (fun e => is_ok (verify_profile_metadata e participant now el))
      (ok_indices 0 (run_subscriptions run)) used /\
    forall e, e ∈ candidates (subscription_id config) (fun e => is_ok (verify_profile_metadata e participant now el))
      (ok_indices 0 (run_subscriptions run)) used -> wins (pdr_event d) e.
Proof using Type.
  unfold discover_profile_metadata. destruct (discover_replaceable_event _ _ _ _ _ _) as [[d|e]|] eqn:Ed; [|by intros [= <-]; left|done].
  intros [= <-]. right. cbn [map_err rbind].
  apply discover_event_inv in Ed as [_ (used & rest & completed & -> & [Hin Hbest]%is_best_some & _)%discover_query_inv].
  pose proof (candidates_valid _ _ _ _ _ Hin) as Hval. cbn in Hval.
  destruct (verify_profile_metadata (rdr_event d) participant now el) as [p|] eqn:Ep; [|done]. cbn [map_err rbind].
  eexists _, used, rest. split; [reflexivity|]. split; [done|]. cbn [pdr_event pdr_profile]. split; [done|]. split; [done|].
  intros e He. by apply replaceable_better_wins, Hbest.
Qed.
End Properties.

(** ** Witnesses *)

Definition sample_draft : NostrProfileDraft :=
  {| pd_nostr_name := Some "tom.local"; pd_display_name := Some "Tom Ballard"; pd_about := Some "Building OmaChat";
     pd_picture := Some "https://example.com/tom.png" |}%string.

Definition sample_profile_event : SignedEvent :=
  sample_event_of (create_profile_metadata_with_aux (key_of 5) 100 sample_draft (key_of 1) EventLimits_default).

Definition sample_profile : VerifiedNostrProfile :=
  match verify_profile_metadata sample_profile_event (key_of 5) 120 EventLimits_default with
  | Ok p => p
  | Err _ => {| vp_public_key := []; vp_source_event_id := ""; vp_source_created_at := 0; vp_nostr_name := None;
                vp_name_classification := None; vp_display_name := None; vp_about := None; vp_picture := None;
                vp_source_event := sample_profile_event |}
  end.

Definition sample_profile_cache : VerifiedProfileCache := (profile_insert sample_profile 110 []).2.

Lemma profile_roundtrip_witness :
  exists p, verify_profile_metadata sample_profile_event (key_of 5) 120 EventLimits_default = Ok p /\
    vp_nostr_name p = Some "tom.local"%string /\ vp_name_classification p = Some HandleSyntaxCandidate.
Proof.
  eexists. split.
  - apply (profile_roundtrip (key_of 5) (key_of 5) 100 sample_draft (key_of 1) EventLimits_default sample_profile_event 120);
      [vm_compute; reflexivity | vm_compute; reflexivity | vm_compute; reflexivity | vm_compute; discriminate | vm_compute; discriminate].
  - split; reflexivity.
Defined.

Lemma profile_cache_nil_ok : profile_cache_ok EventLimits_default 120 [].
Proof. split; [apply bt_sorted_nil|]. split; [vm_compute; discriminate | constructor]. Qed.

Lemma sample_profile_cache_ok : profile_cache_ok EventLimits_default 120 sample_profile_cache.
Proof.
  assert (sample_profile_cache =
    [(hex_encode (key_of 5), {| pr_profile := sample_profile; pr_verified_at := 110 |})]) as -> by (vm_compute; reflexivity).
  split; [repeat constructor|]. split; [vm_compute; discriminate|].
  constructor; [|constructor]. split; [vm_compute; reflexivity|].
  split; [vm_compute; reflexivity|]. split; [vm_compute; split; discriminate|]. split; [vm_compute; reflexivity|].
  exists 120. split; [lia | vm_compute; reflexivity].
Qed.

Lemma profile_cache_monotone_witness :
  profile_cache_ok EventLimits_default 120 sample_profile_cache /\
  bt_get (hex_encode (key_of 5)) sample_profile_cache = Some {| pr_profile := sample_profile; pr_verified_at := 110 |}.
Proof.
  destruct (profile_cache_monotone EventLimits_default 120 [] sample_profile_event (key_of 5) 120 sample_profile 110
    (Ok Stored) sample_profile_cache) as (Hok & _ & Hget & _);
    [apply profile_cache_nil_ok | vm_compute; reflexivity | lia | vm_compute; reflexivity | lia
    | vm_compute; reflexivity | vm_compute; reflexivity |].
  split; [exact Hok | exact (Hget eq_refl)].
Defined.

Lemma profile_cache_roundtrip_witness :
  exists encoded, profile_to_json sample_profile_cache = Ok encoded /\
    profile_from_json encoded 120 EventLimits_default = Ok sample_profile_cache.
Proof.
  destruct (profile_to_json sample_profile_cache) as [encoded|] eqn:E; [|by vm_compute in E].
  exists encoded. split; [reflexivity|].
  apply (profile_cache_roundtrip EventLimits_default 120 sample_profile_cache encoded); [exact sample_profile_cache_ok | exact E].
Defined.

Definition sample_profile_run : DiscoveryRun :=
  {| run_notifications := [];
     run_turns := run_turns sample_run; run_authentication_deadline := 10; run_subscriptions := [Ok tt; Ok tt];
     run_answers := [notified 1 (NEvent "s" (sample_signed "not a profile")); notified 1 (NEndOfStoredEvents "s");
                     notified 0 (NEvent "s" sample_profile_event); notified 0 (NEndOfStoredEvents "s")]%string;
     run_shutdown := [Ok tt; Ok tt] |}.

Lemma profile_discovery_verified_witness :
  exists r, discover_profile_metadata
    [RelayConfig_new "wss://a.example" Direct; RelayConfig_new "wss://b.example" Direct] sample_signer (key_of 5) 120
    EventLimits_default sample_query_config sample_profile_run = Some r /\
  is_ok r = true /\
  (r = Err PDTransport \/ exists d, r = Ok d /\
    verify_profile_metadata (pdr_event d) (key_of 5) 120 EventLimits_default = Ok (pdr_profile d)).
Proof.
  destruct (discover_profile_metadata
    [RelayConfig_new "wss://a.example" Direct; RelayConfig_new "wss://b.example" Direct] sample_signer (key_of 5) 120
    EventLimits_default sample_query_config sample_profile_run) as [r|] eqn:E; [|exfalso; revert E; vm_compute; discriminate].
  exists r. split; [reflexivity|]. split.
  - destruct r; [reflexivity | exfalso; revert E; vm_compute; discriminate].
  - destruct (profile_discovery_verified _ _ _ _ _ _ _ _ E) as [->|(d & used & rest & -> & _ & Hv & _)]; [by left|].
    right. exists d. split; [reflexivity | exact Hv].
Defined.
