(* ===== verification/Nip11.v ===== *)
(** * Bounded HTTP documents and relay information ([omachat-nostr/src/nip11.rs])

    A minimal HTTP/1.1 client: one [GET], a response read until it is provably complete,
    by its length, its chunks or the end of the stream; and the NIP-11 document read from
    it. Sockets, SOCKS and TLS are an argument that maps a request to what is read. *)

From Stdlib Require Import Strings.Byte Ascii String.
From S2P Require Import Prelude RustStd BTree Libs Serde Concrete Event Frame Relay.
Local Open Scope Z_scope.

Definition NIP11_ACCEPT : string := "application/nostr+json".
Definition MAX_HEADER_BYTES : Z := 16 * 1024.

Record RelayInformationLimits := {
  max_document_bytes : Z;
  max_field_bytes : Z;
  max_supported_nips : Z
}.
Definition RelayInformationLimits_default : RelayInformationLimits :=
  {| max_document_bytes := 64 * 1024; max_field_bytes := 4096; max_supported_nips := 256 |}.

Record RelayInformation := {
  ri_name : option string;
  ri_description : option string;
  ri_pubkey : option string;
  ri_self_pubkey : option string;
  ri_contact : option string;
  ri_supported_nips : list Z;
  ri_software : option string;
  ri_version : option string;
  ri_auth_required : option bool;
  ri_max_subscriptions : option Z
}.

Inductive RelayInformationError :=
| NIInvalidUrl
| NITimeout
| NIIo (error : string)
| NISocks (error : string)
| NITls (error : string)
| NIHttpStatus (status : Z)
| NIMalformedResponse
| NIResponseTooLarge
| NIDocumentTooLarge (bytes maximum : Z)
| NIMalformedJson
| NINotAnObject
| NIInvalidField (name : string)
| NIFieldTooLarge (name : string)
| NIInvalidPublicKey.

(** An error returned, or a panic, which aborts the process in a release build *)
Inductive HttpFailure := HttpError (e : RelayInformationError) | HttpPanic.

(** ** The document *)

(** [Value::Object]: a sorted map in which the last of equal keys counts *)
Definition object_map (members : list (string * Value)) : BTreeMap Value :=
  fold_left (fun m kv => bt_insert kv.1 kv.2 m) members [].

Definition is_lowercase_hex (value : string) (len : Z) : bool :=
  (slen value =? len) && bytes_all is_lower_hex_byte value.

Section Document.
Variables (limits : RelayInformationLimits) (fields : BTreeMap Value).

(** The closure [text] *)
Definition text_field (name : string) : result RelayInformationError (option string) :=
  match bt_get name fields with
  | None | Some JNull => Ok None
  | Some (JString value) =>
      fail_if max_field_bytes limits <? slen value with NIFieldTooLarge name ;; Ok (Some value)
  | Some _ => Err (NIInvalidField name)
  end.

(** The closure [public_key] *)
Definition public_key_field (name : string) : result RelayInformationError (option string) :=
  let? text := text_field name in
  match text with
  | None => Ok None
  | Some value =>
      if slen value =? 0 then Ok None
      else fail_if negb (is_lowercase_hex value 64) with NIInvalidPublicKey ;; Ok (Some value)
  end.

(** The loop over [supported_nips] *)
Fixpoint nips_loop (values : list Value) (nips : list Z) : result RelayInformationError (list Z) :=
  match values with
  | [] => Ok nips
  | value :: values =>
      let? nip := ok_or (NIInvalidField "supported_nips") (de_uint u32_max value) in
      nips_loop values (if bool_decide (nip ∈ nips) then nips else nips ++ [nip])
  end.

Definition supported_nips_field : result RelayInformationError (list Z) :=
  match bt_get "supported_nips"%string fields with
  | None | Some JNull => Ok []
  | Some (JArray values) =>
      fail_if max_supported_nips limits <? zlen values with NIFieldTooLarge "supported_nips" ;;
      nips_loop values []
  | Some _ => Err (NIInvalidField "supported_nips")
  end.

Definition limitation_field : result RelayInformationError (option bool * option Z) :=
  match bt_get "limitation"%string fields with
  | None | Some JNull => Ok (None, None)
  | Some (JObject members) =>
      let limitation := object_map members in
      let? auth_required :=
        match bt_get "auth_required"%string limitation with
        | None | Some JNull => Ok None
        | Some (JBool value) => Ok (Some value)
        | Some _ => Err (NIInvalidField "auth_required")
        end in
      let? max_subscriptions :=
        match bt_get "max_subscriptions"%string limitation with
        | None | Some JNull => Ok None
        | Some value =>
            let? n := ok_or (NIInvalidField "max_subscriptions") (de_uint u64_max value) in Ok (Some n)
        end in
      Ok (auth_required, max_subscriptions)
  | Some _ => Err (NIInvalidField "limitation")
  end.
End Document.

Definition RelayInformation_from_json `{Json} (b : bytes) (limits : RelayInformationLimits)
  : result RelayInformationError RelayInformation :=
  fail_if max_document_bytes limits <? zlen b with NIDocumentTooLarge (zlen b) (max_document_bytes limits) ;;
  let? document := ok_or NIMalformedJson (json_from_slice b) in
  match document with
  | JObject members =>
      let fields := object_map members in
      let? pubkey := public_key_field limits fields "pubkey" in
      let? self_pubkey := public_key_field limits fields "self" in
      let? supported_nips := supported_nips_field limits fields in
      let? limitation := limitation_field fields in
      let? name := text_field limits fields "name" in
      let? description := text_field limits fields "description" in
      let? contact := text_field limits fields "contact" in
      let? software := text_field limits fields "software" in
      let? version := text_field limits fields "version" in
      Ok {| ri_name := name; ri_description := description; ri_pubkey := pubkey; ri_self_pubkey := self_pubkey;
            ri_contact := contact; ri_supported_nips := supported_nips; ri_software := software;
            ri_version := version; ri_auth_required := limitation.1; ri_max_subscriptions := limitation.2 |}
  | _ => Err NINotAnObject
  end.

(** ** Responses *)

Definition crlf : bytes := [cr; nl].

(** [decode_chunked]; [size + 2] wraps around in a release build, and [body[..size]] panics
    when the slice is shorter. Every turn drops at least two bytes. *)
Fixpoint decode_chunks (fuel : nat) (body decoded : bytes) : result HttpFailure (option bytes) :=
  match split_first crlf body, fuel with
  | Some (line, rest), S fuel =>
      fail_if negb (is_ok (ok_or tt (from_utf8 line))) with HttpError NIMalformedResponse ;;
      let size_hex := trim (default [] (head (split_on x3b line))) in
      let? size := ok_or (HttpError NIMalformedResponse) (parse_uint 16 u64_max size_hex) in
      if size =? 0 then Ok (Some decoded)
      else if zlen rest <? (size + 2) mod 2 ^ 64 then Ok None
      else
        fail_if zlen rest <? size with HttpPanic ;;
        let n := Z.to_nat size in
        fail_if negb (bool_decide (take 2 (drop n rest) = crlf)) with HttpError NIMalformedResponse ;;
        decode_chunks fuel (drop (n + 2) rest) (decoded ++ take n rest)
  | _, _ => Ok None
  end.
Definition decode_chunked (body : bytes) : result HttpFailure (option bytes) :=
  decode_chunks (length body) body [].

(** The loop over the header lines *)
Fixpoint header_loop (lines : list bytes) (content_length : option Z) (chunked : bool)
  : result HttpFailure (option Z * bool) :=
  match lines with
  | [] => Ok (content_length, chunked)
  | line :: lines =>
      match split_once x3a line with
      | None => Err (HttpError NIMalformedResponse)
      | Some (name, value) =>
          let value := trim value in
          if eq_ignore_ascii_case name (as_bytes "content-length") then
            let? n := ok_or (HttpError NIMalformedResponse) (parse_uint 10 u64_max value) in
            header_loop lines (Some n) chunked
          else if eq_ignore_ascii_case name (as_bytes "transfer-encoding")
                  && contains (as_bytes "chunked") (map ascii_lower value)
          then header_loop lines content_length true
          else header_loop lines content_length chunked
      end
  end.

(** The status of a status line: its version must be known *)
Definition parse_status (status_line : bytes) : result HttpFailure Z :=
  let '(version, rest) := match split_once x20 status_line with
                          | Some (version, rest) => (version, Some rest)
                          | None => (status_line, None)
                          end in
  fail_if negb (bool_decide (version = as_bytes "HTTP/1.1")) && negb (bool_decide (version = as_bytes "HTTP/1.0"))
    with HttpError NIMalformedResponse ;;
  ok_or (HttpError NIMalformedResponse)
    (rest ← rest;
     let code := match split_once x20 rest with Some (code, _) => code | None => rest end in
     parse_uint 10 u16_max code).

Definition try_complete (buffer : bytes) (eof : bool) (limits : RelayInformationLimits)
  : result HttpFailure (option bytes) :=
  match split_first (crlf ++ crlf) buffer with
  | None =>
      fail_if MAX_HEADER_BYTES <? zlen buffer with HttpError NIResponseTooLarge ;; Ok None
  | Some (head, body) =>
      fail_if negb (is_ok (ok_or tt (from_utf8 head))) with HttpError NIMalformedResponse ;;
      match split_str crlf head with
      | [] => Err (HttpError NIMalformedResponse)
      | status_line :: lines =>
          let? status := parse_status status_line in
          let? framing := header_loop lines None false in
          let? body :=
            (if framing.2 then decode_chunked body
             else match framing.1 with
                  | Some length => if zlen body <? length then Ok None else Ok (Some (take (Z.to_nat length) body))
                  | None => if eof then Ok (Some body) else Ok None
                  end) in
          match body with
          | None => Ok None
          | Some body =>
              fail_if negb (status =? 200) with HttpError (NIHttpStatus status) ;;
              fail_if max_document_bytes limits <? zlen body with HttpError NIResponseTooLarge ;;
              Ok (Some body)
          end
      end
  end.

(** [exchange] after the request was written: each read is an error, some bytes, or no byte
    at the end of the stream. When the reads run out the time limit has passed. *)
Fixpoint exchange (limits : RelayInformationLimits) (reads : list (result string bytes)) (buffer : bytes)
  : result HttpFailure bytes :=
  match reads with
  | [] => Err (HttpError NITimeout)
  | Err e :: _ => Err (HttpError (NIIo e))
  | Ok [] :: _ =>
      let? body := try_complete buffer true limits in ok_or (HttpError NIMalformedResponse) body
  | Ok chunk :: reads =>
      let buffer := buffer ++ chunk in
      fail_if MAX_HEADER_BYTES + max_document_bytes limits <? zlen buffer with HttpError NIResponseTooLarge ;;
      let? body := try_complete buffer false limits in
      match body with
      | Some body => Ok body
      | None => exchange limits reads buffer
      end
  end.

(** ** Fetching *)

(** Connecting by a route, with or without TLS, to a host and port and writing the request:
    a connection error, or what is then read. *)
Abbreviation Network := (RelayRoute -> bool -> string -> Z -> bytes -> result RelayInformationError (list (result string bytes))).

Section Fetch.
Context {json : Json} {url : UrlLib}.

Definition request_path (u : Url) : string :=
  let path := if slen (url_path u) =? 0 then (url_path u +:+ "/")%string else url_path u in
  match url_query u with Some query => (path +:+ "?" +:+ query)%string | None => path end.

Definition host_header (u : Url) (host : string) : string :=
  match url_port u with Some port => (host +:+ ":" +:+ show port)%string | None => host end.

Definition http_get (path host accept : string) : bytes :=
  as_bytes ("GET " +:+ path +:+ " HTTP/1.1") ++ crlf ++ as_bytes ("Host: " +:+ host) ++ crlf
  ++ as_bytes ("Accept: " +:+ accept) ++ crlf ++ as_bytes "User-Agent: omachat" ++ crlf
  ++ as_bytes "Connection: close" ++ crlf ++ crlf.

(** What [fetch_inner] and [fetch_http_document_inner] share: they differ in the schemes *)
Definition http_exchange (net : Network) (route : RelayRoute) (u : Url) (tls : bool) (accept : string)
  (limits : RelayInformationLimits) : result HttpFailure bytes :=
  let? host := ok_or (HttpError NIInvalidUrl) (url_host_str u) in
  let? port := ok_or (HttpError NIInvalidUrl) (url_port_or_known_default u) in
  let request := http_get (request_path u) (host_header u host) accept in
  let? reads := map_err HttpError (net route tls host port request) in
  exchange limits reads [].

(** [HttpRelayInformationFetcher::fetch] *)
Definition fetch (net : Network) (route : RelayRoute) (limits : RelayInformationLimits) (relay_url : string)
  : result HttpFailure RelayInformation :=
  let? u := ok_or (HttpError NIInvalidUrl) (url_parse relay_url) in
  let? tls :=
    (if String.eqb (url_scheme u) "wss" || String.eqb (url_scheme u) "https" then Ok true
     else if String.eqb (url_scheme u) "ws" || String.eqb (url_scheme u) "http" then Ok false
     else Err (HttpError NIInvalidUrl)) in
  let? response := http_exchange net route u tls NIP11_ACCEPT limits in
  map_err HttpError (RelayInformation_from_json response limits).

Definition is_ascii_control (b : byte) : bool := in_range 0 31 (byte_val b) || (byte_val b =? 127).

Definition fetch_http_document (net : Network) (url_text accept : string) (max_bytes : Z) : result HttpFailure bytes :=
  fail_if (max_bytes =? 0) || (1024 * 1024 <? max_bytes) || (slen accept =? 0) || (128 <? slen accept)
    || existsb is_ascii_control (as_bytes accept) || (2048 <? slen url_text)
    || existsb is_ascii_control (as_bytes url_text) with HttpError NIInvalidUrl ;;
  let? u := ok_or (HttpError NIInvalidUrl) (url_parse url_text) in
  let? tls :=
    (if String.eqb (url_scheme u) "https" then Ok true
     else if String.eqb (url_scheme u) "http" then Ok false
     else Err (HttpError NIInvalidUrl)) in
  http_exchange net Direct u tls accept
    {| max_document_bytes := max_bytes; max_field_bytes := max_field_bytes RelayInformationLimits_default;
       max_supported_nips := max_supported_nips RelayInformationLimits_default |}.
End Fetch.

(** ** Finding a pattern in a growing buffer *)

Lemma split_first_some p l a r : split_first p l = Some (a, r) -> l = a ++ p ++ r.
Proof.
  revert a r. induction l as [|b l IH]; intros a r; cbn [split_first].
  - destruct (bytes_prefix p []) eqn:E; [|done]. apply bytes_prefix_spec in E as [k E]. intros [= <- <-].
    symmetry in E. apply app_nil in E as [-> ->]. done.
  - destruct (bytes_prefix p (b :: l)) eqn:E.
    + apply bytes_prefix_spec in E as [k ->]. intros [= <- <-]. by rewrite drop_app_length.
    + destruct (split_first p l) as [[a' r']|]; [|done]. cbn. intros [= <- <-]. cbn. f_equal. by apply IH.
Qed.

Lemma bytes_prefix_shorter p l q : (length p <= length l)%nat -> bytes_prefix p (l ++ q) = bytes_prefix p l.
Proof.
  revert l. induction p as [|a p IH]; intros [|b l] Hl; cbn in *; [done|done|lia|]. by rewrite IH by lia.
Qed.

Lemma split_first_app p l a r q : split_first p l = Some (a, r) -> split_first p (l ++ q) = Some (a, r ++ q).
Proof.
  revert a r. induction l as [|b l IH]; intros a r Hs; pose proof (split_first_some _ _ _ _ Hs) as Hl.
  - destruct a, p; try done. destruct r; [|done]. cbn in Hs. cbn. by destruct q.
  - cbn [split_first] in Hs. cbn [split_first app]. change (b :: l ++ q) with ((b :: l) ++ q).
    rewrite bytes_prefix_shorter by (rewrite Hl, !length_app; lia).
    destruct (bytes_prefix p (b :: l)) eqn:E.
    + injection Hs as <- <-. apply bytes_prefix_spec in E as [k ->]. by rewrite <- app_assoc, !drop_app_length.
    + destruct (split_first p l) as [[a' r']|]; [|done]. cbn in Hs. injection Hs as <- <-. by rewrite (IH a' r').
Qed.

Lemma split_first_found p a r : split_first p (a ++ p ++ r) <> None.
Proof.
  induction a as [|b a IH]; cbn [app].
  - assert (bytes_prefix p (p ++ r) = true) as Hp by (apply bytes_prefix_spec; eauto).
    destruct (p ++ r); cbn [split_first]; by rewrite Hp.
  - cbn [split_first]. destruct (bytes_prefix _ _); [done|]. by destruct (split_first p (a ++ p ++ r)).
Qed.

(** A buffer without the pattern, of a text with it, ends before the pattern does. *)
Lemma split_first_none_length p b q a r :
  split_first p b = None -> split_first p (b ++ q) = Some (a, r) -> zlen b < zlen a + zlen p.
Proof.
  intros Hn Hs. pose proof (split_first_some _ _ _ _ Hs) as El. unfold zlen.
  destruct (decide (length a + length p <= length b)%nat) as [Hge|]; [|lia]. exfalso.
  assert (b = a ++ p ++ drop (length a + length p) b) as Eb.
  { assert (take (length a + length p) (b ++ q) = a ++ p) as Et.
    { by rewrite El, app_assoc, <- length_app, take_app_length. }
    rewrite take_app_le in Et by lia. rewrite <- (take_drop (length a + length p) b) at 1. by rewrite Et, <- app_assoc. }
  apply (split_first_found p a (drop (length a + length p) b)). by rewrite <- Eb.
Qed.

(** The first end of line of a line without a carriage return *)
Lemma split_first_crlf line rest :
  forallb (fun b => negb (Byte.eqb b cr)) line = true -> split_first crlf (line ++ crlf ++ rest) = Some (line, rest).
Proof.
  induction line as [|b line IH]; cbn [forallb]; intros Hl.
  - cbn [app]. by destruct rest.
  - split_bools. cbn [app split_first]. assert (bytes_prefix crlf (b :: line ++ crlf ++ rest) = false) as ->.
    { unfold crlf at 1. cbn [bytes_prefix]. assert (Byte.eqb cr b = false) as ->; [|done]. destruct (Byte.eqb cr b) eqn:E; [|done].
      apply Byte.byte_dec_bl in E as <-. done. }
    by rewrite IH.
Qed.

(** ** Chunks *)

Lemma decode_chunks_grow fuel fuel' body q decoded :
  (fuel <= fuel')%nat -> zlen (body ++ q) < 2 ^ 64 - 2 -> decode_chunks fuel body decoded <> Ok None ->
  decode_chunks fuel' (body ++ q) decoded = decode_chunks fuel body decoded.
Proof.
  revert fuel' body decoded. induction fuel as [|fuel IH]; intros fuel' body decoded Hf Hlen Hd; cbn [decode_chunks] in Hd |- *;
    [by destruct (split_first crlf body) as [[]|]|].
  destruct (split_first crlf body) as [[line rest]|] eqn:Es; [|done].
  destruct fuel' as [|fuel']; [lia|]. cbn [decode_chunks]. rewrite (split_first_app _ _ _ _ q Es).
  pose proof (split_first_some _ _ _ _ Es) as Eb.
  assert (zlen rest + zlen q + 2 <= zlen (body ++ q)) as Hrest.
  { rewrite Eb, !zlen_app. change (zlen crlf) with 2. pose proof (zlen_nonneg line). lia. }
  destruct (negb (is_ok _)); [done|].
  destruct (ok_or _ (parse_uint _ _ _)) as [size|e] eqn:Ep; cbn [rbind] in *; [|done].
  destruct (size =? 0) eqn:E0; [done|]. pose proof (zlen_nonneg rest). pose proof (zlen_nonneg q). rewrite zlen_app.
  destruct (zlen rest <? (size + 2) mod 2 ^ 64) eqn:E1; [done|].
  rewrite (proj2 (Z.ltb_ge (zlen rest + zlen q) _)) by lia.
  apply ok_or_ok_inv in Ep. assert (0 <= size <= u64_max) as Hsize by (by eapply parse_uint_range, Ep). unfold u64_max in Hsize.
  destruct (zlen rest <? size) eqn:E2.
  - (* the slice panics: the size is one that wraps *)
    assert (2 ^ 64 - 2 <= size) as Hwrap.
    { destruct (Z_lt_le_dec size (2 ^ 64 - 2)); [|done]. rewrite Z.mod_small in E1 by lia. lia. }
    rewrite (proj2 (Z.ltb_lt _ _)) by lia. done.
  - rewrite Z.mod_small in E1 by lia. rewrite (proj2 (Z.ltb_ge _ _)) by lia.
    assert (drop (Z.to_nat size) (rest ++ q) = drop (Z.to_nat size) rest ++ q) as -> by (apply drop_app_le; unfold zlen in *; lia).
    rewrite (take_app_le _ _ 2) by (rewrite length_drop; unfold zlen in *; lia).
    destruct (negb (bool_decide _)); [done|]. rewrite (take_app_le _ _ (Z.to_nat size)) by (unfold zlen in *; lia).
    rewrite drop_app_le by (unfold zlen in *; lia). apply IH; [lia| |done].
    rewrite zlen_app. unfold zlen in *. rewrite length_drop. lia.
Qed.

(** ** Responses read in pieces *)

(** The header of a response, if it has one, ends within the limit. *)
Definition header_fits (response : bytes) : Prop :=
  forall head body, split_first (crlf ++ crlf) response = Some (head, body) -> zlen head + 4 <= MAX_HEADER_BYTES.

Lemma decode_chunked_grow body q :
  zlen (body ++ q) < 2 ^ 64 - 2 -> decode_chunked body <> Ok None -> decode_chunked (body ++ q) = decode_chunked body.
Proof. intros Hl Hd. unfold decode_chunked. apply decode_chunks_grow; [rewrite length_app; lia | done | done]. Qed.

(** Once a buffer decides, no later byte changes the decision. *)
Lemma try_complete_grow buffer q eof limits :
  header_fits (buffer ++ q) -> zlen (buffer ++ q) < 2 ^ 64 - 2 -> try_complete buffer false limits <> Ok None ->
  try_complete (buffer ++ q) eof limits = try_complete buffer false limits.
Proof.
  intros Hfits Hlen Hd. unfold try_complete in *.
  destruct (split_first (crlf ++ crlf) buffer) as [[head body]|] eqn:Es.
  - rewrite (split_first_app _ _ _ _ q Es). pose proof (split_first_some _ _ _ _ Es) as Eb.
    destruct (negb (is_ok _)); [done|]. destruct (split_str crlf head) as [|status_line lines]; [done|].
    destruct (parse_status status_line) as [status|]; cbn [rbind] in *; [|done].
    destruct (header_loop lines None false) as [[content_length chunked]|]; cbn [rbind fst snd] in *; [|done].
    destruct chunked.
    + rewrite decode_chunked_grow; [done| |].
      * rewrite Eb, !zlen_app in Hlen. rewrite zlen_app. change (zlen crlf) with 2 in Hlen. pose proof (zlen_nonneg head). lia.
      * intros E. by rewrite E in Hd.
    + destruct content_length as [n|]; [|done]. destruct (zlen body <? n) eqn:E; [done|]. split_bools.
      rewrite zlen_app, (proj2 (Z.ltb_ge _ _)) by (pose proof (zlen_nonneg q); lia).
      by rewrite take_app_le by (unfold zlen in *; lia).
  - destruct (MAX_HEADER_BYTES <? zlen buffer) eqn:Em; [|done]. split_bools.
    destruct (split_first (crlf ++ crlf) (buffer ++ q)) as [[head body]|] eqn:Es'.
    + exfalso. pose proof (Hfits _ _ Es'). pose proof (split_first_none_length _ _ _ _ _ Es Es') as Hlt.
      change (zlen (crlf ++ crlf)) with 4 in Hlt. lia.
    + rewrite zlen_app, (proj2 (Z.ltb_lt _ _)) by (pose proof (zlen_nonneg q); lia). done.
Qed.

Lemma exchange_read limits chunk reads buffer :
  chunk <> [] ->
  exchange limits (Ok chunk :: reads) buffer =
    (fail_if MAX_HEADER_BYTES + max_document_bytes limits <? zlen (buffer ++ chunk) with HttpError NIResponseTooLarge ;;
     let? body := try_complete (buffer ++ chunk) false limits in
     match body with Some body => Ok body | None => exchange limits reads (buffer ++ chunk) end).
Proof. by destruct chunk. Qed.

Lemma exchange_pieces limits reads more buffer :
  reads <> [] -> Forall (fun r => r <> []) reads ->
  header_fits (buffer ++ concat reads) ->
  zlen (buffer ++ concat reads) <= MAX_HEADER_BYTES + max_document_bytes limits -> max_document_bytes limits < 2 ^ 63 ->
  exchange limits (map Ok reads ++ more) buffer = exchange limits (Ok (concat reads) :: more) buffer.
Proof.
  intros Hne Hr Hfits Hcap Hmax. revert buffer Hfits Hcap. induction Hr as [|r reads Hr Hrs IH]; [done|].
  intros buffer Hfits Hcap. destruct reads as [|r' reads]; [cbn [map concat app]; by rewrite app_nil_r|].
  assert (concat (r' :: reads) <> []) as Hc.
  { inversion Hrs; subst. cbn. by destruct r'. }
  cbn [map app]. cbn [concat] in Hfits, Hcap. rewrite app_assoc in Hfits, Hcap.
  specialize (IH ltac:(done) (buffer ++ r) Hfits Hcap). cbn [map app concat] in IH |- *. cbn [concat] in Hc.
  set (rest := r' ++ concat reads) in *.
  assert (zlen (buffer ++ r) <= zlen ((buffer ++ r) ++ rest)) as Hle by (rewrite (zlen_app (buffer ++ r)); pose proof (zlen_nonneg rest); lia).
  rewrite (exchange_read _ r), (exchange_read _ (r ++ rest)) by (done || by destruct r).
  rewrite app_assoc, !(proj2 (Z.ltb_ge _ _)) by lia.
  assert (try_complete (buffer ++ r) false limits <> Ok None ->
    try_complete ((buffer ++ r) ++ rest) false limits = try_complete (buffer ++ r) false limits) as Hgrow.
  { intros Hd. apply try_complete_grow; [done | unfold MAX_HEADER_BYTES in Hcap; lia | done]. }
  destruct (try_complete (buffer ++ r) false limits) as [[body|]|e] eqn:E; cbn [rbind].
  - by rewrite Hgrow.
  - rewrite IH, exchange_read by done. by rewrite (proj2 (Z.ltb_ge _ _)) by lia.
  - by rewrite Hgrow.
Qed.

Lemma decode_chunks_stream fuel line chunk rest decoded :
  forallb (fun b => negb (Byte.eqb b cr)) line = true -> utf8_valid (of_bytes line) = true ->
  parse_uint 16 u64_max (trim (default [] (head (split_on x3b line)))) = Some (zlen chunk) -> chunk <> [] ->
  zlen chunk < 2 ^ 63 ->
  decode_chunks (S fuel) (line ++ crlf ++ chunk ++ crlf ++ rest) decoded = decode_chunks fuel rest (decoded ++ chunk).
Proof.
  intros Hcr Hutf Hp Hne Hlen. cbn [decode_chunks]. rewrite split_first_crlf by done.
  assert (is_ok (ok_or tt (from_utf8 line)) = true) as ->.
  { unfold utf8_valid in Hutf. rewrite as_bytes_of_bytes in Hutf. unfold from_utf8. by destruct (utf8_decode line). }
  cbn [negb]. rewrite Hp. cbn [ok_or rbind].
  assert (0 < zlen chunk) as Hpos by (destruct chunk; [done|]; unfold zlen; cbn [length]; lia).
  rewrite (proj2 (Z.eqb_neq _ _)) by lia. rewrite Z.mod_small by lia.
  assert (zlen (chunk ++ crlf ++ rest) = zlen chunk + 2 + zlen rest) as Ez by (rewrite !zlen_app; change (zlen crlf) with 2; lia).
  pose proof (zlen_nonneg rest). rewrite Ez, !(proj2 (Z.ltb_ge _ _)) by lia.
  assert (Z.to_nat (zlen chunk) = length chunk) as -> by (unfold zlen; lia).
  rewrite drop_app_length, take_app_length. change (take 2 (crlf ++ rest)) with crlf. rewrite bool_decide_true by done. cbn [negb].
  f_equal. by rewrite <- drop_drop, drop_app_length.
Qed.

(** A chunk's size line: no carriage return, and the size before any extension *)
Definition size_line (line : bytes) (n : Z) : Prop :=
  forallb (fun b => negb (Byte.eqb b cr)) line = true /\ utf8_valid (of_bytes line) = true /\
  parse_uint 16 u64_max (trim (default [] (head (split_on x3b line)))) = Some n.

Definition chunk_wire (c : bytes * bytes) : bytes := c.1 ++ crlf ++ c.2 ++ crlf.

Lemma decode_chunks_all cs fuel last trailer decoded :
  (length cs < fuel)%nat -> Forall (fun c => size_line c.1 (zlen c.2) /\ c.2 <> [] /\ zlen c.2 < 2 ^ 63) cs -> size_line last 0 ->
  decode_chunks fuel (concat (map chunk_wire cs) ++ last ++ crlf ++ trailer) decoded = Ok (Some (decoded ++ concat (map snd cs))).
Proof.
  intros Hfuel Hcs (Hl1 & Hl2 & Hl3). revert fuel decoded Hfuel.
  induction Hcs as [|[line chunk] cs ((Hc1 & Hc2 & Hc3) & Hne & Hlen) Hcs IH]; intros [|fuel] decoded Hfuel; try (cbn in Hfuel; lia).
  - cbn [map concat app decode_chunks]. rewrite split_first_crlf by done.
    unfold utf8_valid in Hl2. rewrite as_bytes_of_bytes in Hl2. unfold from_utf8. destruct (utf8_decode last); [|done].
    cbn [ok_or is_ok negb]. rewrite Hl3. cbn. by rewrite app_nil_r.
  - cbn [map concat fst snd] in *. unfold chunk_wire at 1. cbn [fst snd]. rewrite <- !app_assoc.
    rewrite decode_chunks_stream by done. rewrite IH by (cbn in Hfuel; lia). by rewrite <- app_assoc.
Qed.

(** ** Properties *)

(** A response means the same however the network cuts it. Reading it in any pieces and
    then going on gives what reading it at once gives, as long as its header and its
    length are within the limits. *)
Theorem response_pieces limits reads more :
  reads <> [] -> Forall (fun r => r <> []) reads -> header_fits (concat reads) ->
  zlen (concat reads) <= MAX_HEADER_BYTES + max_document_bytes limits -> max_document_bytes limits < 2 ^ 63 ->
  exchange limits (map Ok reads ++ more) [] = exchange limits (Ok (concat reads) :: more) [].
Proof. intros. by apply exchange_pieces. Qed.

(** A chunked body decodes to its chunks. Any chunks with their size lines, extensions
    included, ended by a zero size and followed by anything, are put together. *)
Theorem chunked_roundtrip cs last trailer :
  Forall (fun c => size_line c.1 (zlen c.2) /\ c.2 <> [] /\ zlen c.2 < 2 ^ 63) cs -> size_line last 0 ->
  decode_chunked (concat (map chunk_wire cs) ++ last ++ crlf ++ trailer) = Ok (Some (concat (map snd cs))).
Proof.
  intros Hcs Hl. unfold decode_chunked. apply (decode_chunks_all cs _ last trailer []); [|done|done].
  rewrite !length_app. assert (length cs <= length (concat (map chunk_wire cs)))%nat; [|cbn [crlf length]; lia].
  induction cs as [|c cs IH]; [done|]. apply Forall_cons in Hcs as [_ Hcs]. cbn [map concat length].
  specialize (IH Hcs). unfold chunk_wire at 1. rewrite !length_app. cbn [crlf length]. lia.
Qed.

(** A server can crash its client. A chunk size of 2^64 - 1, followed by any byte,
    passes the length test, whose sum wraps around, and the slice that follows panics. *)
Theorem chunk_size_panics line b rest :
  size_line line (2 ^ 64 - 1) -> zlen rest < 2 ^ 63 -> decode_chunked (line ++ crlf ++ b :: rest) = Err HttpPanic.
Proof.
  intros (H1 & H2 & H3) Hlen. unfold decode_chunked. rewrite !length_app.
  destruct (length line + (length crlf + length (b :: rest)))%nat eqn:Ef; [cbn in Ef; lia|].
  cbn [decode_chunks]. rewrite split_first_crlf by done.
  unfold utf8_valid in H2. rewrite as_bytes_of_bytes in H2. unfold from_utf8. destruct (utf8_decode line); [|done].
  cbn [ok_or is_ok negb]. rewrite H3. cbn [ok_or rbind].
  change ((2 ^ 64 - 1 + 2) mod 2 ^ 64) with 1. change (2 ^ 64 - 1 =? 0) with false. cbv iota.
  rewrite zlen_cons. pose proof (zlen_nonneg rest). rewrite (proj2 (Z.ltb_ge _ 1)), (proj2 (Z.ltb_lt _ _)) by lia. done.
Qed.

Lemma text_field_bound limits fields name s :
  text_field limits fields name = Ok (Some s) -> slen s <= max_field_bytes limits.
Proof.
  unfold text_field. destruct (bt_get name fields) as [[]|]; try done. destruct (_ <? _) eqn:E; [done|].
  intros [= <-]. by split_bools.
Qed.

Lemma public_key_field_hex limits fields name s :
  public_key_field limits fields name = Ok (Some s) -> is_lowercase_hex s 64 = true.
Proof.
  unfold public_key_field. intros Hf. apply rbind_ok_inv in Hf as ([t|] & _ & Hf); [|done].
  destruct (slen t =? 0); [done|]. destruct (is_lowercase_hex t 64) eqn:E; [|done]. by injection Hf as <-.
Qed.

Lemma nips_loop_spec values nips out :
  nips_loop values nips = Ok out -> NoDup nips -> Forall (fun n => 0 <= n <= u32_max) nips ->
  NoDup out /\ zlen out <= zlen nips + zlen values /\ Forall (fun n => 0 <= n <= u32_max) out.
Proof.
  revert nips. induction values as [|v values IH]; intros nips Hl Hn Hf; cbn [nips_loop] in Hl.
  - injection Hl as <-. split_and!; [done | unfold zlen; cbn; lia | done].
  - apply rbind_ok_inv in Hl as (n & Hv & Hl). apply ok_or_ok_inv in Hv.
    assert (0 <= n <= u32_max) as Hr.
    { unfold de_uint in Hv. destruct v; try done. unfold in_range in Hv. destruct (_ && _) eqn:Er in Hv; [|done]. injection Hv as <-. split_bools. lia. }
    apply IH in Hl as (H1 & H2 & H3).
    + split_and!; [done| |done]. rewrite zlen_cons. case_bool_decide; [lia|]. rewrite zlen_app in H2. change (zlen [n]) with 1 in H2. lia.
    + case_bool_decide; [done|]. apply NoDup_app. split_and!; [done| |apply NoDup_singleton].
      intros x Hx ->%list_elem_of_singleton. done.
    + case_bool_decide; [done|]. apply Forall_app. by split; [|constructor].
Qed.

Lemma supported_nips_bound limits fields nips :
  0 <= max_supported_nips limits -> supported_nips_field limits fields = Ok nips ->
  NoDup nips /\ zlen nips <= max_supported_nips limits /\ Forall (fun n => 0 <= n <= u32_max) nips.
Proof.
  intros Hmax. unfold supported_nips_field.
  assert (forall x, Ok [] = Ok (E := RelayInformationError) x -> NoDup x /\ zlen x <= max_supported_nips limits /\ Forall (fun n => 0 <= n <= u32_max) x) as H0.
  { intros x [= <-]. split_and!; [constructor | done | constructor]. }
  destruct (bt_get _ fields) as [[| | | | |values|]|]; auto; try done.
  intros Hf. apply fail_if_ok_inv in Hf as [Hz Hf]. apply nips_loop_spec in Hf as (H1 & H2 & H3); [|constructor|constructor].
  split_bools. change (zlen []) with 0 in H2. split_and!; [done|lia|done].
Qed.

(** A relay's document cannot grow the client's state. Whatever a relay sends, every
    text kept is within the field limit, every key is 32 bytes of lower-case hexadecimal,
    and the list of NIPs has no duplicate, at most the allowed number, all 32-bit. *)
Theorem relay_information_bounded `{Json} b limits info :
  RelayInformation_from_json b limits = Ok info -> 0 <= max_supported_nips limits ->
  zlen b <= max_document_bytes limits /\
  (forall s, Some s ∈ [ri_name info; ri_description info; ri_contact info; ri_software info; ri_version info] ->
     slen s <= max_field_bytes limits) /\
  (forall s, Some s ∈ [ri_pubkey info; ri_self_pubkey info] -> is_lowercase_hex s 64 = true) /\
  NoDup (ri_supported_nips info) /\ zlen (ri_supported_nips info) <= max_supported_nips limits /\
  Forall (fun n => 0 <= n <= u32_max) (ri_supported_nips info).
Proof.
  intros Hj Hmax. unfold RelayInformation_from_json in Hj. apply fail_if_ok_inv in Hj as [Hz Hj].
  apply rbind_ok_inv in Hj as (document & _ & Hj). destruct document; try done. inv_ok. split_bools.
  split; [done|]. cbn [ri_name ri_description ri_contact ri_software ri_version ri_pubkey ri_self_pubkey ri_supported_nips].
  split; [|split].
  - intros s Hs. repeat (apply elem_of_cons in Hs as [Hs|Hs]; [subst; by eapply text_field_bound|]). by apply elem_of_nil in Hs.
  - intros s Hs. repeat (apply elem_of_cons in Hs as [Hs|Hs]; [subst; by eapply public_key_field_hex|]). by apply elem_of_nil in Hs.
  - by eapply supported_nips_bound.
Qed.

(** ** Witnesses *)

Definition sample_response : bytes :=
  as_bytes "HTTP/1.1 200 OK" ++ crlf ++ as_bytes "Content-Length: 2" ++ crlf ++ crlf ++ as_bytes "{}".

Lemma response_pieces_witness :
  exchange RelayInformationLimits_default (map Ok [take 9 sample_response; drop 9 sample_response] ++ []) [] = Ok (as_bytes "{}").
Proof.
  rewrite (response_pieces RelayInformationLimits_default [take 9 sample_response; drop 9 sample_response] []).
  - vm_compute. reflexivity.
  - discriminate.
  - repeat constructor; vm_compute; discriminate.
  - intros head body Hs. assert (Some (head, body) = Some (as_bytes "HTTP/1.1 200 OK" ++ crlf ++ as_bytes "Content-Length: 2", as_bytes "{}")) as E.
    { rewrite <- Hs. vm_compute. reflexivity. }
    injection E as -> ->. vm_compute. discriminate.
  - vm_compute. discriminate.
  - reflexivity.
Defined.

Lemma chunked_roundtrip_witness :
  decode_chunked (concat (map chunk_wire [(as_bytes "3;x=y", as_bytes "abc"); (as_bytes "1 ", as_bytes "d")]) ++ as_bytes "0" ++ crlf ++ crlf)
    = Ok (Some (as_bytes "abcd")).
Proof.
  apply (chunked_roundtrip [(as_bytes "3;x=y", as_bytes "abc"); (as_bytes "1 ", as_bytes "d")] (as_bytes "0") crlf).
  - repeat constructor; try (vm_compute; reflexivity); discriminate.
  - split_and!; vm_compute; reflexivity.
Defined.

Lemma chunk_size_panics_witness :
  decode_chunked (as_bytes "ffffffffffffffff" ++ crlf ++ as_bytes "x") = Err HttpPanic.
Proof.
  apply (chunk_size_panics (as_bytes "ffffffffffffffff") x78 []); [split_and!; vm_compute; reflexivity | reflexivity].
Defined.

(** The whole response that crashes the client *)
Example crashing_response :
  exchange RelayInformationLimits_default
    [Ok (as_bytes "HTTP/1.1 200 OK" ++ crlf ++ as_bytes "Transfer-Encoding: chunked" ++ crlf ++ crlf
         ++ as_bytes "ffffffffffffffff" ++ crlf ++ as_bytes "x")] [] = Err HttpPanic.
Proof. vm_compute. reflexivity. Qed.

Definition sample_document : Value :=
  JObject [("name", JString "relay"); ("supported_nips", JArray [JInt 1; JInt 42; JInt 1]);
           ("limitation", JObject [("auth_required", JBool true)])]%string.

Lemma relay_information_bounded_witness :
  exists info, RelayInformation_from_json (json_to_vec sample_document) RelayInformationLimits_default = Ok info /\
    ri_supported_nips info = [1; 42] /\ NoDup (ri_supported_nips info).
Proof.
  destruct (RelayInformation_from_json (json_to_vec sample_document) RelayInformationLimits_default) as [info|] eqn:E;
    [|exfalso; revert E; vm_compute; discriminate].
  exists info. split; [reflexivity|]. split.
  - assert (Ok info = Ok (E := RelayInformationError) {| ri_name := Some "relay"%string; ri_description := None; ri_pubkey := None;
      ri_self_pubkey := None; ri_contact := None; ri_supported_nips := [1; 42]; ri_software := None; ri_version := None;
      ri_auth_required := Some true; ri_max_subscriptions := None |}) as E' by (rewrite <- E; vm_compute; reflexivity).
    injection E' as ->. reflexivity.
  - destruct (relay_information_bounded _ _ _ E) as (_ & _ & _ & Hn & _); [vm_compute; discriminate | exact Hn].
Defined.
