(* ===== verification/Account.v ===== *)
(** * Handles, display names and device identities
    ([omachat-crypto/src/account.rs], [identity.rs]) *)

From Stdlib Require Import Strings.Byte Ascii String.
From S2P Require Import Prelude RustStd Libs Concrete.
Local Open Scope Z_scope.

Definition MIN_HANDLE_BYTES : Z := 3.
Definition MAX_HANDLE_BYTES : Z := 32.
Definition MAX_DISPLAY_NAME_CHARS : Z := 80.
Definition MAX_DISPLAY_NAME_BYTES : Z := 256.

Inductive AccountError := InvalidHandle | InvalidDisplayName.

Record GlobalHandle := MkHandle { handle_str : string }.

Definition is_handle_byte (b : byte) : bool :=
  is_ascii_lowercase b || is_ascii_digit b || (byte_val b =? 95).

(** The condition [GlobalHandle::parse] tests, negated; the empty slice, which the
    length test excludes first, is never indexed. *)
Definition is_canonical_handle (canonical : string) : bool :=
  in_range MIN_HANDLE_BYTES MAX_HANDLE_BYTES (slen canonical)
  && match as_bytes canonical with
     | b :: rest => is_ascii_lowercase b && forallb is_handle_byte rest
     | [] => false
     end.

(** [GlobalHandle::parse] *)
Definition GlobalHandle_parse (value : string) : result AccountError GlobalHandle :=
  let canonical := default value (strip_prefix "@" value) in
  fail_if negb (is_canonical_handle canonical) with InvalidHandle ;;
  Ok (MkHandle canonical).

Definition is_unsafe_display_format (c : Z) : bool :=
  (c =? 0xad) || (c =? 0x61c) || in_range 0x200b 0x200f c || in_range 0x202a 0x202e c
  || in_range 0x2060 0x206f c || (c =? 0xfeff) || in_range 0xfff9 0xfffb c
  || in_range 0xe0000 0xe007f c.

Record DisplayName := MkDisplayName { display_str : string }.

(** [DisplayName::parse] *)
Definition DisplayName_parse (value : string) : result AccountError DisplayName :=
  let characters := zlen (chars value) in
  fail_if (characters =? 0)
    || (MAX_DISPLAY_NAME_CHARS <? characters)
    || (MAX_DISPLAY_NAME_BYTES <? slen value)
    || negb (is_trimmed value)
    || existsb (fun c => is_control c || is_unsafe_display_format c) (chars value)
    with InvalidDisplayName ;;
  Ok (MkDisplayName value).

(** ** Device identities *)

Record IdentitySecrets := { signing_seed : bytes }.
Record PublicIdentity := { signing_public_key : bytes; fingerprint_hex : string }.

Section Identity.
Context {hex : Hex} {sha : Sha256} {ed : Ed25519}.

Definition public_identity (i : IdentitySecrets) : PublicIdentity :=
  let signing_public_key := ed25519_public_key (signing_seed i) in
  {| signing_public_key := signing_public_key;
     fingerprint_hex := hex_encode (sha256 signing_public_key) |}.

Definition identity_sign (i : IdentitySecrets) (message : bytes) : bytes :=
  ed25519_sign (signing_seed i) message.
End Identity.

(** ** Facts *)

Lemma canonical_no_at h : is_canonical_handle h = true -> strip_prefix "@" h = None.
Proof.
  destruct (strip_prefix "@" h) as [r|] eqn:E; [|done].
  apply strip_prefix_spec in E as ->. unfold is_canonical_handle. rewrite as_bytes_app. simpl.
  rewrite andb_false_r. done.
Qed.

Lemma GlobalHandle_parse_ok s h :
  GlobalHandle_parse s = Ok h <->
  is_canonical_handle (handle_str h) = true /\
  (s = handle_str h \/ s = ("@" ++ handle_str h)%string).
Proof.
  unfold GlobalHandle_parse. destruct h as [h]. cbn [handle_str]. split.
  - intros H. inv_ok. split_bools. split; [done|].
    destruct (strip_prefix "@" s) as [r|] eqn:E; simpl; [right | by left].
    by apply strip_prefix_spec in E.
  - intros [Hc [-> | ->]].
    + rewrite canonical_no_at by done. simpl. by rewrite Hc.
    + rewrite (proj2 (strip_prefix_spec _ _ h)) by done. simpl. by rewrite Hc.
Qed.

(** A handle parses to itself, so storing and reading one back never changes it. *)
Lemma GlobalHandle_parse_idem s h :
  GlobalHandle_parse s = Ok h -> GlobalHandle_parse (handle_str h) = Ok h.
Proof. intros [Hc _]%GlobalHandle_parse_ok. apply GlobalHandle_parse_ok. auto. Qed.

Lemma DisplayName_parse_ok s n :
  DisplayName_parse s = Ok n ->
  display_str n = s /\ 1 <= zlen (chars s) <= 80 /\ slen s <= 256 /\ is_trimmed s = true /\
  Forall (fun c => is_control c = false /\ is_unsafe_display_format c = false) (chars s).
Proof.
  unfold DisplayName_parse. intros H. inv_ok. split_bools. pose proof (zlen_nonneg (chars s)).
  unfold MAX_DISPLAY_NAME_CHARS, MAX_DISPLAY_NAME_BYTES in *.
  split_and!; [done | lia | lia | lia | done |].
  apply Forall_forall. intros c Hc.
  match goal with E : existsb _ _ = false |- _ => rename E into Hex end.
  destruct (is_control c || is_unsafe_display_format c) eqn:Ec;
    [|apply orb_false_iff in Ec; exact Ec].
  exfalso. eapply not_false_iff_true; [|exact Hex]. apply existsb_exists.
  exists c. split; [by apply list_elem_of_In | exact Ec].
Qed.

(** ** Properties *)

(** [GlobalHandle::parse] accepts exactly the canonical handles (3 to 32 bytes, a
    lowercase letter first, then lowercase letters, digits and underscores), with or
    without one leading at-sign, and returns the handle without it. *)
Theorem handle_parse_exact s h :
  GlobalHandle_parse s = Ok h <->
  is_canonical_handle (handle_str h) = true /\
  (s = handle_str h \/ s = ("@" ++ handle_str h)%string).
Proof. apply GlobalHandle_parse_ok. Qed.
