(* ===== verification/Hosted.v ===== *)
(** * The handle server's protocol ([omachat-proto/src/hosted.rs])

    Limits, signed transcripts, error codes, frames and field checks. *)

From Stdlib Require Import Strings.Byte Ascii String.
From S2P Require Import Prelude RustStd Libs Serde Concrete.
Local Open Scope Z_scope.

Definition PROTOCOL_VERSION : Z := 1.
Definition MAX_FRAME_BYTES : Z := 16 * 1024.
Definition MAX_TEXT_BYTES : Z := 8 * 1024.
Definition JSON_TEXT_ENVELOPE_ALLOWANCE_BYTES : Z := 4 * 1024.
Definition MAX_ENCODED_TEXT_BYTES : Z := MAX_TEXT_BYTES + JSON_TEXT_ENVELOPE_ALLOWANCE_BYTES.
Definition MAX_REQUEST_ID_BYTES : Z := 64.
Definition MAX_CLIENT_ID_BYTES : Z := 64.
Definition MAX_NAME_BYTES : Z := 64.
Definition KEY_BYTES : Z := 32.
Definition SIGNATURE_BYTES : Z := 64.
Definition NOSTR_PROOF_SKEW_SECONDS : Z := 300.

Definition AUTH_DOMAIN : bytes := as_bytes "omachat-server-auth-v1" ++ [x00].
Definition HELLO_DOMAIN : bytes := as_bytes "omachat-server-hello-v1" ++ [x00].
Definition NOSTR_BIND_DOMAIN : bytes := as_bytes "omachat-nostr-bind-v1" ++ [x00].
Definition NOSTR_UNBIND_DOMAIN : bytes := as_bytes "omachat-nostr-unbind-v1" ++ [x00].

Definition hello_transcript (challenge device_public_key : bytes) : bytes :=
  HELLO_DOMAIN ++ challenge ++ device_public_key.

Definition auth_transcript (server_public_key challenge device_public_key : bytes) : bytes :=
  AUTH_DOMAIN ++ server_public_key ++ challenge ++ device_public_key.

(** [u16::try_from(value.len()).unwrap_or(u16::MAX)], then that many bytes *)
Definition push_str (value : string) : bytes :=
  let length := Z.min (slen value) u16_max in
  be_bytes 2 length ++ take (Z.to_nat length) (as_bytes value).

Definition proof_transcript (domain server_public_key : bytes) (account_id handle : string)
  (nostr_public_key nonce : bytes) (timestamp : Z) : bytes :=
  domain ++ server_public_key ++ push_str account_id ++ push_str handle ++
  nostr_public_key ++ nonce ++ be_bytes 8 timestamp.

Definition nostr_bind_transcript := proof_transcript NOSTR_BIND_DOMAIN.
Definition nostr_unbind_transcript := proof_transcript NOSTR_UNBIND_DOMAIN.

Inductive ErrorCode :=
| UnsupportedVersion | InvalidRequest | NotAuthenticated | AlreadyAuthenticated
| InvalidSignature | CInvalidHandle | CHandleTaken | CHandleAlreadySet | InvalidName
| CNostrPubkeyTaken | CReplayedProof | CNotFound | TooLarge | RateLimited | CStorage | Internal.

#[export] Instance ErrorCode_eq_dec : EqDecision ErrorCode.
Proof. solve_decision. Defined.

(** [#[serde(rename_all = "kebab-case")]] *)
Definition error_code_str (c : ErrorCode) : string :=
  match c with
  | UnsupportedVersion => "unsupported-version"
  | InvalidRequest => "invalid-request"
  | NotAuthenticated => "not-authenticated"
  | AlreadyAuthenticated => "already-authenticated"
  | InvalidSignature => "invalid-signature"
  | CInvalidHandle => "invalid-handle"
  | CHandleTaken => "handle-taken"
  | CHandleAlreadySet => "handle-already-set"
  | InvalidName => "invalid-name"
  | CNostrPubkeyTaken => "nostr-pubkey-taken"
  | CReplayedProof => "replayed-proof"
  | CNotFound => "not-found"
  | TooLarge => "too-large"
  | RateLimited => "rate-limited"
  | CStorage => "storage"
  | Internal => "internal"
  end.

Record ServerError := mkServerError { code : ErrorCode; message : string }.
#[export] Instance ServerError_eq_dec : EqDecision ServerError.
Proof. solve_decision. Defined.

(** [json!] builds a [serde_json::Map], which orders its members by key. *)
Definition success_value (rid : string) (res : Value) : Value :=
  JObject [("id", JString rid); ("ok", JBool true); ("result", res);
           ("version", JInt PROTOCOL_VERSION)]%string.
Definition failure_value (rid : string) (e : ServerError) : Value :=
  JObject [("error", JObject [("code", JString (error_code_str (code e)));
                              ("message", JString (message e))]);
           ("id", JString rid); ("ok", JBool false); ("version", JInt PROTOCOL_VERSION)]%string.
Definition event_frame_value (k : string) (data : Value) : Value :=
  JObject [("data", data); ("event", JString k); ("version", JInt PROTOCOL_VERSION)]%string.

Section Frames.
Context {json : Json}.
Definition success_frame (rid : string) (res : Value) : string :=
  of_bytes (json_to_vec (success_value rid res)).
Definition failure_frame (rid : string) (e : ServerError) : string :=
  of_bytes (json_to_vec (failure_value rid e)).
Definition event_frame (k : string) (data : Value) : string :=
  of_bytes (json_to_vec (event_frame_value k data)).

Definition validate_name (value : string) : result ServerError string :=
  fail_if (slen value =? 0) || (MAX_NAME_BYTES <? slen value) || negb (is_trimmed value)
    || existsb is_control (chars value)
    with mkServerError InvalidName
      "names are 1 to 64 bytes without control characters or surrounding whitespace" ;;
  Ok value.

Definition validate_client_id (value : string) : result ServerError string :=
  fail_if (slen value =? 0) || (MAX_CLIENT_ID_BYTES <? slen value)
    || negb (bytes_all (fun b => is_ascii_alphanumeric b || (byte_val b =? 45) || (byte_val b =? 95))
               value)
    with mkServerError InvalidRequest "client_id is 1 to 64 ASCII letters, digits, '-' or '_'" ;;
  Ok value.

Definition validate_text (value : string) : result ServerError string :=
  fail_if slen value =? 0 with mkServerError InvalidRequest "message text is empty" ;;
  fail_if (MAX_TEXT_BYTES <? slen value)
    || (MAX_ENCODED_TEXT_BYTES <? zlen (json_to_vec (JString value)))
    with mkServerError TooLarge
      ("message text exceeds " ++ show MAX_TEXT_BYTES ++ " UTF-8 bytes or "
       ++ show MAX_ENCODED_TEXT_BYTES ++ " JSON bytes") ;;
  Ok value.
End Frames.

(** ** Transcripts are unambiguous *)

Lemma push_str_app_inj a b x y :
  slen a <= u16_max -> slen b <= u16_max ->
  push_str a ++ x = push_str b ++ y -> a = b /\ x = y.
Proof.
  intros Ha Hb. unfold push_str. rewrite !Z.min_l by done.
  pose proof (slen_nonneg a). pose proof (slen_nonneg b).
  assert (forall s, take (Z.to_nat (slen s)) (as_bytes s) = as_bytes s) as Ht.
  { intros s. apply take_ge. pose proof (zlen_as_bytes s) as E. unfold zlen in E. lia. }
  rewrite !Ht, <- !app_assoc. intros E.
  apply app_inj_1 in E as [El E]; [|by rewrite !length_be_bytes].
  apply be_bytes_inj in El; [|unfold_ints; simpl; lia..].
  apply app_inj_1 in E as [Es ->].
  - split; [by apply as_bytes_inj | done].
  - pose proof (zlen_as_bytes a) as E1. pose proof (zlen_as_bytes b) as E2. unfold zlen in *. lia.
Qed.

Lemma zlen_eq_length {A} (l1 l2 : list A) : zlen l1 = zlen l2 -> length l1 = length l2.
Proof. unfold zlen. lia. Qed.

Lemma proof_domain_inj d1 d2 x y :
  d1 ∈ [NOSTR_BIND_DOMAIN; NOSTR_UNBIND_DOMAIN] -> d2 ∈ [NOSTR_BIND_DOMAIN; NOSTR_UNBIND_DOMAIN] ->
  d1 ++ x = d2 ++ y -> d1 = d2 /\ x = y.
Proof.
  intros H1 H2 E. assert (d1 = d2) as ->.
  { apply (f_equal (take 16)) in E. rewrite !elem_of_cons, elem_of_nil in H1, H2.
    destruct H1 as [-> | [-> | []]], H2 as [-> | [-> | []]]; try reflexivity; discriminate E. }
  by apply app_inv_head in E.
Qed.

(** ** Properties *)

(** A proof transcript determines its purpose (bind or unbind), server, account,
    handle, Nostr key, nonce and timestamp: no signature over one proof is a signature
    over another. Account ids and handles are shorter than 65536 bytes. *)
Theorem proof_transcript_injective d1 d2 s1 s2 a1 a2 h1 h2 k1 k2 n1 n2 t1 t2 :
  d1 ∈ [NOSTR_BIND_DOMAIN; NOSTR_UNBIND_DOMAIN] -> d2 ∈ [NOSTR_BIND_DOMAIN; NOSTR_UNBIND_DOMAIN] ->
  Forall (fun k => zlen k = KEY_BYTES) [s1; s2; k1; k2; n1; n2] ->
  Forall (fun s => slen s <= u16_max) [a1; a2; h1; h2] -> in_u64 t1 -> in_u64 t2 ->
  proof_transcript d1 s1 a1 h1 k1 n1 t1 = proof_transcript d2 s2 a2 h2 k2 n2 t2 ->
  d1 = d2 /\ s1 = s2 /\ a1 = a2 /\ h1 = h2 /\ k1 = k2 /\ n1 = n2 /\ t1 = t2.
Proof.
  intros D1 D2 Hk Hs T1 T2 E. unfold proof_transcript in E.
  repeat match goal with F : Forall _ (_ :: _) |- _ => apply Forall_cons in F as [? F] end.
  apply proof_domain_inj in E as [-> E]; [|done..].
  apply app_inj_1 in E as [-> E]; [|apply zlen_eq_length; congruence].
  apply push_str_app_inj in E as [-> E]; [|done..].
  apply push_str_app_inj in E as [-> E]; [|done..].
  apply app_inj_1 in E as [-> E]; [|apply zlen_eq_length; congruence].
  apply app_inj_1 in E as [-> E]; [|apply zlen_eq_length; congruence].
  apply be_bytes_inj in E; [|unfold_ints; simpl; lia..]. done.
Qed.

(** The four kinds of signed transcripts (hello, authenticate, bind, unbind) never
    coincide, whatever their fields: a signature made for one is useless for another. *)
Theorem transcript_domains_disjoint x1 x2 y1 y2 y3 s1 a1 h1 k1 n1 t1 s2 a2 h2 k2 n2 t2 :
  NoDup [hello_transcript x1 x2; auth_transcript y1 y2 y3;
         nostr_bind_transcript s1 a1 h1 k1 n1 t1; nostr_unbind_transcript s2 a2 h2 k2 n2 t2].
Proof.
  rewrite !NoDup_cons, !elem_of_cons.
  assert (NoDup (@nil bytes)) by apply NoDup_nil_2. split_and!; try done;
    intros HE; repeat (destruct HE as [E|HE]; [apply (f_equal (take 16)) in E; discriminate E|]);
    by apply elem_of_nil in HE.
Qed.

Lemma proof_transcript_injective_witness :
  exists d1 d2 t1 t2, d1 <> d2 /\
    proof_transcript d1 (key_of 1) "id" "alice" (key_of 2) (key_of 3) t1 <>
    proof_transcript d2 (key_of 1) "id" "alice" (key_of 2) (key_of 3) t2.
Proof.
  exists NOSTR_BIND_DOMAIN, NOSTR_UNBIND_DOMAIN, 7, 8. split; [discriminate|]. intros E.
  destruct (proof_transcript_injective NOSTR_BIND_DOMAIN NOSTR_UNBIND_DOMAIN (key_of 1) (key_of 1)
    "id" "id" "alice" "alice" (key_of 2) (key_of 2) (key_of 3) (key_of 3) 7 8) as [Ed _];
    [repeat constructor | repeat constructor | repeat constructor | repeat constructor; vm_compute; discriminate
    | split; vm_compute; discriminate | split; vm_compute; discriminate | exact E | discriminate Ed].
Defined.
