(* ===== verification/ServerAuth.v ===== *)
(** * Device and server authentication ([omachat-server/src/auth.rs])

    Hello and authenticate signatures, hex fields, and the seed files that hold the
    server's keys. *)

From Stdlib Require Import Strings.Byte Ascii String.
From S2P Require Import Prelude RustStd Libs Concrete Hosted.
Local Open Scope Z_scope.

Inductive AuthError := AInvalidPublicKey | AInvalidSignature | AInvalidEncoding | ARandom.

#[export] Instance AuthError_eq_dec : EqDecision AuthError.
Proof. solve_decision. Defined.

Record ServerIdentity := { signing_key : bytes }.

Section Auth.
Context {hex : Hex} {ed : Ed25519}.

(** [ServerIdentity::from_seed], [public_key], [sign_hello] *)
Definition ServerIdentity_from_seed (seed : bytes) : ServerIdentity := {| signing_key := seed |}.
Definition ServerIdentity_public_key (s : ServerIdentity) : bytes :=
  ed25519_public_key (signing_key s).
Definition sign_hello (s : ServerIdentity) (challenge device_public_key : bytes) : bytes :=
  ed25519_sign (signing_key s) (hello_transcript challenge device_public_key).

Definition verify_hello_signature (server_public_key challenge device_public_key signature : bytes)
  : result AuthError unit :=
  fail_if negb (ed25519_key_ok server_public_key) with AInvalidPublicKey ;;
  fail_if negb (ed25519_verify_strict server_public_key
                  (hello_transcript challenge device_public_key) signature) with AInvalidSignature ;;
  Ok tt.

Definition verify_device_signature (server_public_key challenge device_public_key signature : bytes)
  : result AuthError unit :=
  fail_if negb (ed25519_key_ok device_public_key) with AInvalidPublicKey ;;
  fail_if negb (ed25519_verify_strict device_public_key
                  (auth_transcript server_public_key challenge device_public_key) signature)
    with AInvalidSignature ;;
  Ok tt.

Definition sign_device_challenge (device_seed server_public_key challenge : bytes) : bytes :=
  let device_public_key := ed25519_public_key device_seed in
  ed25519_sign device_seed (auth_transcript server_public_key challenge device_public_key).

Definition random_challenge : SE Entropy AuthError bytes := getrandom_fill ARandom KEY_BYTES.

Definition decode_key (value : string) : result AuthError bytes :=
  let? b := ok_or AInvalidEncoding (hex_decode value) in
  fail_if negb (zlen b =? KEY_BYTES) with AInvalidEncoding ;;
  Ok b.

Definition decode_signature (value : string) : result AuthError bytes :=
  let? b := ok_or AInvalidEncoding (hex_decode value) in
  fail_if negb (zlen b =? SIGNATURE_BYTES) with AInvalidEncoding ;;
  Ok b.

(** ** Seed files *)

Inductive SeedError := SeedIo | SeedNotRegular | SeedPermissions (mode : Z) | SeedEncoding | SeedRandom.

(** What the operating system reports of an opened file; [read_to_end] may fail. *)
Record File := { is_file : bool; file_mode : Z; file_len : Z; contents : option bytes }.

(** [encoded.strip_suffix(b"\n").unwrap_or(encoded)] *)
Definition strip_newline (l : bytes) : bytes :=
  match last l with
  | Some b => if Byte.eqb b nl then take (length l - 1) l else l
  | None => l
  end.

Definition load_seed_file (opened : option File) : result SeedError bytes :=
  let? file := ok_or SeedIo opened in
  fail_if negb (is_file file) with SeedNotRegular ;;
  let mode := Z.land (file_mode file) 0x1ff in
  fail_if negb (Z.land mode 0x3f =? 0) with SeedPermissions mode ;;
  fail_if 65 <? file_len file with SeedEncoding ;;
  let? encoded := ok_or SeedIo (contents file) in
  let encoded := strip_newline encoded in
  fail_if negb (zlen encoded =? 2 * KEY_BYTES) || negb (forallb is_ascii_hexdigit encoded)
    with SeedEncoding ;;
  ok_or SeedEncoding (hex_decode_to_slice KEY_BYTES (of_bytes encoded)).

(** [generate_seed_file] on a path that does not exist: the file [open] creates with
    mode 0600 under [EXCL], after the write; on an existing path [open] fails. *)
Definition generate_seed_file (existing : option File) : SE Entropy SeedError File :=
  let! seed := getrandom_fill SeedRandom KEY_BYTES in
  let encoded := as_bytes (hex_encode seed) ++ [nl] in
  se_ret (match existing with
          | Some _ => Err SeedIo
          | None => Ok {| is_file := true; file_mode := 0x180; file_len := zlen encoded;
                          contents := Some encoded |}
          end).
End Auth.

Section AuthFacts.
Context {hex : Hex} {ed : Ed25519} {hex_laws : HexLaws} {ed_laws : Ed25519Laws}.

Lemma decode_key_length v b : decode_key v = Ok b -> zlen b = 32.
Proof using Type. unfold decode_key. intros H. inv_ok. by split_bools. Qed.

Lemma lower_hex_hexdigit s :
  is_lower_hex s = true -> forallb is_ascii_hexdigit (as_bytes s) = true.
Proof using Type.
  apply forallb_impl. intros b. unfold is_lower_hex_byte, is_ascii_hexdigit.
  rewrite !orb_true_iff. tauto.
Qed.

Lemma strip_newline_snoc l : strip_newline (l ++ [nl]) = l.
Proof using Type.
  unfold strip_newline. rewrite last_snoc. simpl.
  rewrite length_app, Nat.add_sub, take_app_length. done.
Qed.
End AuthFacts.

(** ** Properties *)

Section Properties.
Context {hex : Hex} {ed : Ed25519} {hex_laws : HexLaws} {ed_laws : Ed25519Laws}.

(** The device that holds the seed authenticates to a server over that server's key
    and challenge, and the server's hello signature verifies under its public key. *)
Theorem handshake_signatures_verify device_seed server_seed challenge :
  zlen device_seed = 32 -> zlen server_seed = 32 ->
  let server := ServerIdentity_from_seed server_seed in
  let device := ed25519_public_key device_seed in
  let server_key := ServerIdentity_public_key server in
  verify_hello_signature server_key challenge device (sign_hello server challenge device) = Ok tt /\
  verify_device_signature server_key challenge device
    (sign_device_challenge device_seed server_key challenge) = Ok tt.
Proof using ed_laws.
  intros Hd Hs. cbn zeta. unfold verify_hello_signature, verify_device_signature,
    sign_hello, sign_device_challenge, ServerIdentity_public_key. cbn [signing_key ServerIdentity_from_seed].
  destruct (ed25519_sign_correct server_seed (hello_transcript challenge (ed25519_public_key device_seed)) Hs)
    as [-> ->].
  destruct (ed25519_sign_correct device_seed (auth_transcript (ed25519_public_key server_seed) challenge
    (ed25519_public_key device_seed)) Hd) as [-> ->]. done.
Qed.

(** A generated seed file is owner-only and loads back to the seed that was drawn,
    and a file that is readable by anyone else or not a regular file never loads. *)
Theorem seed_file_roundtrip tape file tape' :
  generate_seed_file None tape = (Ok file, tape') ->
  (exists seed, zlen seed = 32 /\ load_seed_file (Some file) = Ok seed /\
     tape = Some seed :: tape') /\
  forall other seed, load_seed_file (Some other) = Ok seed ->
    is_file other = true /\ Z.land (file_mode other) 0x3f = 0 /\ zlen seed = 32.
Proof using hex_laws.
  intros Hg. split.
  - unfold generate_seed_file in Hg. inv_ok. pose proof (getrandom_fill_ok _ _ _ _ _ Ha) as Hl.
    assert (tape = Some a :: tape') as ->.
    { unfold getrandom_fill in Ha. destruct tape as [|[x|] tape]; [done | | done].
      case_match; [|done]. by simplify_eq. }
    exists a. split_and!; [done | | done]. unfold load_seed_file. cbn [ok_or rbind is_file file_mode
      file_len contents negb]. change (Z.land (Z.land 0x180 0x1ff) 0x3f =? 0) with true. cbn [negb].
    rewrite zlen_app, zlen_as_bytes, hex_encode_length, Hl. cbn [rbind ok_or].
    change (65 <? _) with false. cbv iota. rewrite strip_newline_snoc, zlen_as_bytes, hex_encode_length, Hl.
    rewrite lower_hex_hexdigit by apply hex_encode_lower. cbn [negb orb].
    change (negb (2 * KEY_BYTES =? 2 * KEY_BYTES)) with false. cbn [orb].
    by rewrite of_bytes_as_bytes, hex_decode_to_slice_encode.
  - intros other seed Hl. unfold load_seed_file in Hl. inv_ok. simplify_eq. split_bools.
    apply hex_decode_to_slice_inv in Hl as [_ ?]. split_and!; [done | | done].
    match goal with E : Z.land (Z.land _ _) _ = 0 |- _ => rewrite <- Z.land_assoc in E; exact E end.
Qed.
End Properties.

Lemma handshake_signatures_verify_witness :
  verify_device_signature (ed25519_public_key (key_of 2)) (key_of 9) (ed25519_public_key (key_of 1))
    (sign_device_challenge (key_of 1) (ed25519_public_key (key_of 2)) (key_of 9)) = Ok tt.
Proof. apply (handshake_signatures_verify (key_of 1) (key_of 2) (key_of 9)); reflexivity. Defined.

Lemma seed_file_roundtrip_witness :
  exists seed file, generate_seed_file None [Some (key_of 5)] = (Ok file, []) /\
    load_seed_file (Some file) = Ok seed.
Proof.
  assert (exists file, generate_seed_file None [Some (key_of 5)] = (Ok file, [])) as [file Hf]
    by (eexists; vm_compute; reflexivity).
  destruct (seed_file_roundtrip [Some (key_of 5)] file [] Hf) as [(seed & _ & Hs & _) _].
  exists seed, file. split; [exact Hf | exact Hs].
Defined.
