(* ===== verification/Storage.v ===== *)
(** * The handle server's database ([omachat-server/src/storage.rs])

    The SQLite tables are finite maps, and each SQL statement of the source is a
    function on them that returns its result and the new tables, or fails on a
    constraint. A connection carries a fault plan: the next [true] makes one statement
    fail without effect, as an I/O error would. *)

From Stdlib Require Import Strings.Byte Ascii String.
From S2P Require Import Prelude RustStd Libs Concrete.
Local Open Scope Z_scope.

Definition SCHEMA_VERSION : Z := 3.
Definition NONCE_BYTES : Z := 24.
Definition KEY_CHECK_PLAINTEXT : bytes := as_bytes "omachat-server storage key check".

(** ** Tables *)

Record AccountRow := {
  a_handle : option string;
  a_display_name : string;
  a_created_at : Z;
  a_nostr_pubkey : option bytes
}.

Record DeviceRow := { d_account_id : string; d_created_at : Z; d_last_seen : Z }.
Record NonceRow := { n_account_id : string; n_seen_at : Z }.

(** [schema] names the tables, columns and indexes that exist. *)
Record Database := {
  schema : gset string;
  meta : gmap string bytes;
  accounts : gmap string AccountRow;
  devices : gmap bytes DeviceRow;
  nostr_proof_nonces : gmap bytes NonceRow
}.

Definition set_schema x d := {| schema := x; meta := meta d; accounts := accounts d;
  devices := devices d; nostr_proof_nonces := nostr_proof_nonces d |}.
Definition set_meta x d := {| schema := schema d; meta := x; accounts := accounts d;
  devices := devices d; nostr_proof_nonces := nostr_proof_nonces d |}.
Definition set_accounts x d := {| schema := schema d; meta := meta d; accounts := x;
  devices := devices d; nostr_proof_nonces := nostr_proof_nonces d |}.
Definition set_devices x d := {| schema := schema d; meta := meta d; accounts := accounts d;
  devices := x; nostr_proof_nonces := nostr_proof_nonces d |}.
Definition set_nonces x d := {| schema := schema d; meta := meta d; accounts := accounts d;
  devices := devices d; nostr_proof_nonces := x |}.

(** The file [Connection::open] creates. *)
Definition empty_database : Database :=
  {| schema := ∅; meta := ∅; accounts := ∅; devices := ∅; nostr_proof_nonces := ∅ |}.

Record Connection := { db : Database; faults : list bool; entropy : Entropy }.

Inductive SqlError := ConstraintViolation | SqlFault.

#[export] Instance SqlError_eq_dec : EqDecision SqlError.
Proof. solve_decision. Defined.

Inductive StorageError :=
| SSqlite (e : SqlError)
| SUnsupportedSchema (version : bytes)
| SWrongKey
| SRandom
| SSeal
| SCorrupt
| SNotFound
| SHandleTaken
| SHandleAlreadySet
| SNostrPubkeyTaken
| SReplayedProof.

#[export] Instance StorageError_eq_dec : EqDecision StorageError.
Proof. solve_decision. Defined.

Record AccountRecord := {
  ar_id : string;
  ar_handle : option string;
  ar_display_name : string;
  ar_created_at : Z
}.
#[export] Instance AccountRecord_eq_dec : EqDecision AccountRecord.
Proof. solve_decision. Defined.

(** ** Running statements *)

Definition statement {A} (f : Database -> result SqlError (A * Database))
  : SE Connection SqlError A := fun c =>
  match faults c with
  | true :: rest => (Err SqlFault, {| db := db c; faults := rest; entropy := entropy c |})
  | fs =>
      match f (db c) with
      | Ok (a, d) => (Ok a, {| db := d; faults := tail fs; entropy := entropy c |})
      | Err e => (Err e, {| db := db c; faults := tail fs; entropy := entropy c |})
      end
  end.

(** A [SELECT] *)
Definition query {A} (f : Database -> A) : SE Connection SqlError A :=
  statement (fun d => Ok (f d, d)).

(** [connection.transaction()], the body, [commit()]: an error rolls back. *)
Definition transaction {A} (body : SE Connection SqlError A) : SE Connection SqlError A := fun c =>
  let steps :=
    let! _ := query (fun _ => tt) in
    let! a := body in
    let! _ := query (fun _ => tt) in
    se_ret (Ok a) in
  match steps c with
  | (Ok a, c') => (Ok a, c')
  | (Err e, c') => (Err e, {| db := db c; faults := faults c'; entropy := entropy c' |})
  end.

Definition draw (n : Z) : SE Connection StorageError bytes :=
  se_zoom entropy (fun t c => {| db := db c; faults := faults c; entropy := t |})
    (getrandom_fill SRandom n).

Definition to_i64 (value : Z) : Z := Z.min value i64_max.
Definition from_i64 (value : Z) : Z := if value <? 0 then 0 else value.

Definition fixed_key (b : bytes) : result StorageError bytes :=
  if zlen b =? 32 then Ok b else Err SCorrupt.

(** [account_row]: the columns of a row as a record *)
Definition account_row (row : string * AccountRow) : AccountRecord := {|
  ar_id := row.1; ar_handle := a_handle row.2; ar_display_name := a_display_name row.2;
  ar_created_at := from_i64 (a_created_at row.2) |}.

(** ** Statements *)

(** [CREATE TABLE IF NOT EXISTS], [CREATE UNIQUE INDEX IF NOT EXISTS] *)
Definition sql_create_if_not_exists (name : string) (d : Database) : result SqlError (unit * Database) :=
  Ok (tt, set_schema ({[name]} ∪ schema d) d).
(** [ALTER TABLE accounts ADD COLUMN nostr_pubkey BLOB]: an error when it exists *)
Definition sql_add_nostr_column (d : Database) : result SqlError (unit * Database) :=
  if bool_decide ("accounts.nostr_pubkey"%string ∈ schema d) then Err SqlFault
  else Ok (tt, set_schema ({["accounts.nostr_pubkey"%string]} ∪ schema d) d).
Definition sql_upsert_meta (k : string) (v : bytes) (d : Database) : result SqlError (unit * Database) :=
  Ok (tt, set_meta (<[k := v]> (meta d)) d).
Definition sql_insert_meta (k : string) (v : bytes) (d : Database) : result SqlError (unit * Database) :=
  if bool_decide (is_Some (meta d !! k)) then Err ConstraintViolation
  else Ok (tt, set_meta (<[k := v]> (meta d)) d).

(** the first row a predicate holds of *)
Definition find_account (p : string -> AccountRow -> bool) (d : Database)
  : option (string * AccountRow) :=
  List.find (fun row => p row.1 row.2) (map_to_list (accounts d)).
Definition has_handle (h : string) (_ : string) (r : AccountRow) : bool :=
  bool_decide (a_handle r = Some h).
Definition other_holds (key : bytes) (account_id : string) (i : string) (r : AccountRow) : bool :=
  negb (String.eqb i account_id) && bool_decide (a_nostr_pubkey r = Some key).

Definition sql_insert_account (i name : string) (now : Z) (d : Database)
  : result SqlError (unit * Database) :=
  if bool_decide (is_Some (accounts d !! i)) then Err ConstraintViolation
  else Ok (tt, set_accounts (<[i := {| a_handle := None; a_display_name := name;
         a_created_at := now; a_nostr_pubkey := None |}]> (accounts d)) d).
Definition sql_insert_device (key : bytes) (i : string) (now : Z) (d : Database)
  : result SqlError (unit * Database) :=
  if bool_decide (is_Some (devices d !! key)) || bool_decide (accounts d !! i = None)
  then Err ConstraintViolation
  else Ok (tt, set_devices (<[key := {| d_account_id := i; d_created_at := now;
         d_last_seen := now |}]> (devices d)) d).
Definition sql_touch_device (key : bytes) (now : Z) (d : Database) : result SqlError (unit * Database) :=
  match devices d !! key with
  | Some r => Ok (tt, set_devices (<[key := {| d_account_id := d_account_id r;
      d_created_at := d_created_at r; d_last_seen := now |}]> (devices d)) d)
  | None => Ok (tt, d)
  end.

Definition with_handle (h : option string) (r : AccountRow) : AccountRow := {|
  a_handle := h; a_display_name := a_display_name r; a_created_at := a_created_at r;
  a_nostr_pubkey := a_nostr_pubkey r |}.
Definition with_nostr (k : option bytes) (r : AccountRow) : AccountRow := {|
  a_handle := a_handle r; a_display_name := a_display_name r; a_created_at := a_created_at r;
  a_nostr_pubkey := k |}.

(** [UPDATE accounts SET handle = ?2 WHERE id = ?1 AND handle IS NULL]; the column is
    [UNIQUE]. The result is the number of rows changed. *)
Definition sql_set_handle (i h : string) (d : Database) : result SqlError (Z * Database) :=
  match accounts d !! i with
  | Some r =>
      if bool_decide (a_handle r = None) then
        if bool_decide (is_Some (find_account (has_handle h) d)) then Err ConstraintViolation
        else Ok (1, set_accounts (<[i := with_handle (Some h) r]> (accounts d)) d)
      else Ok (0, d)
  | None => Ok (0, d)
  end.

(** [UPDATE accounts SET nostr_pubkey = ?2 WHERE id = ?1] under the partial unique index *)
Definition sql_set_nostr (i : string) (k : bytes) (d : Database) : result SqlError (Z * Database) :=
  match accounts d !! i with
  | Some r =>
      if bool_decide ("accounts_nostr_pubkey"%string ∈ schema d)
         && bool_decide (is_Some (find_account (other_holds k i) d)) then Err ConstraintViolation
      else Ok (1, set_accounts (<[i := with_nostr (Some k) r]> (accounts d)) d)
  | None => Ok (0, d)
  end.

(** [UPDATE accounts SET nostr_pubkey = NULL WHERE id = ?1 AND nostr_pubkey IS NOT NULL] *)
Definition sql_clear_nostr (i : string) (d : Database) : result SqlError (Z * Database) :=
  match accounts d !! i with
  | Some r =>
      if bool_decide (is_Some (a_nostr_pubkey r))
      then Ok (1, set_accounts (<[i := with_nostr None r]> (accounts d)) d) else Ok (0, d)
  | None => Ok (0, d)
  end.

(** [DELETE FROM nostr_proof_nonces WHERE seen_at < ?1] *)
Definition sql_delete_nonces (oldest : Z) (d : Database) : result SqlError (unit * Database) :=
  Ok (tt, set_nonces (filter (fun kv => ~ n_seen_at kv.2 < oldest) (nostr_proof_nonces d)) d).
Definition sql_insert_nonce (nonce : bytes) (i : string) (now : Z) (d : Database)
  : result SqlError (unit * Database) :=
  if bool_decide (is_Some (nostr_proof_nonces d !! nonce)) then Err ConstraintViolation
  else Ok (tt, set_nonces (<[nonce := {| n_account_id := i; n_seen_at := now |}]>
         (nostr_proof_nonces d)) d).

(** ** Operations *)

(** [Err(error) if is_constraint(&error) => e, Err(error) => error.into()] *)
Definition constraint_as (e : StorageError) (s : SqlError) : StorageError :=
  match s with ConstraintViolation => e | SqlFault => SSqlite SqlFault end.

Section Storage.
Context {hex : Hex} {aead : Aead}.

Definition migrate : SE Connection StorageError unit :=
  let! _ := se_map_err SSqlite (statement (sql_create_if_not_exists "meta")) in
  let! _ := se_map_err SSqlite (statement (sql_create_if_not_exists "accounts")) in
  let! _ := se_map_err SSqlite (statement (sql_create_if_not_exists "devices")) in
  let! version := se_map_err SSqlite (query (fun d => meta d !! "schema_version"%string)) in
  let upgrade :=
    let! _ := se_map_err SSqlite (statement sql_add_nostr_column) in
    let! _ := se_map_err SSqlite (statement (sql_create_if_not_exists "accounts_nostr_pubkey")) in
    let! _ := se_map_err SSqlite (statement (sql_create_if_not_exists "nostr_proof_nonces")) in
    se_map_err SSqlite
      (statement (sql_upsert_meta "schema_version" (as_bytes (show SCHEMA_VERSION)))) in
  match version with
  | None => upgrade
  | Some value =>
      if bool_decide (value = as_bytes "2") then upgrade
      else if bool_decide (value = as_bytes (show SCHEMA_VERSION)) then se_ret (Ok tt)
      else se_ret (Err (SUnsupportedSchema value))
  end.

Definition seal_with (key associated plaintext : bytes) : SE Connection StorageError bytes :=
  let! nonce := draw NONCE_BYTES in
  let! ciphertext := se_ret (ok_or SSeal (aead_encrypt key nonce associated plaintext)) in
  se_ret (Ok (nonce ++ ciphertext)).

Definition open_sealed (key associated sealed : bytes) : result StorageError bytes :=
  fail_if zlen sealed <? NONCE_BYTES + 16 with SCorrupt ;;
  let nonce := take (Z.to_nat NONCE_BYTES) sealed in
  let ciphertext := drop (Z.to_nat NONCE_BYTES) sealed in
  ok_or SCorrupt (aead_decrypt key nonce associated ciphertext).

Definition verify_key (key : bytes) : SE Connection StorageError unit :=
  let! stored := se_map_err SSqlite (query (fun d => meta d !! "key_check"%string)) in
  match stored with
  | None =>
      let! sealed := seal_with key (as_bytes "key_check") KEY_CHECK_PLAINTEXT in
      se_map_err SSqlite (statement (sql_insert_meta "key_check" sealed))
  | Some sealed =>
      let! opened := se_ret (map_err (fun _ => SWrongKey)
                               (open_sealed key (as_bytes "key_check") sealed)) in
      se_ret (if bool_decide (opened = KEY_CHECK_PLAINTEXT) then Ok tt else Err SWrongKey)
  end.

(** [Storage::open_in_memory]; [Storage::open] does the same once the file is open. *)
Definition open_in_memory (key : bytes) : SE Connection StorageError unit :=
  let! _ := se_map_err SSqlite (query (fun _ => tt)) in
  let! _ := migrate in
  verify_key key.

Definition account_for_device (device_public_key : bytes)
  : SE Connection StorageError (option AccountRecord) :=
  se_map_err SSqlite (query (fun d =>
    dev ← devices d !! device_public_key;
    r ← accounts d !! d_account_id dev;
    Some (account_row (d_account_id dev, r)))).

Definition account (account_id : string) : SE Connection StorageError (option AccountRecord) :=
  se_map_err SSqlite (query (fun d =>
    r ← accounts d !! account_id; Some (account_row (account_id, r)))).

Definition touch_device (device_public_key : bytes) (now : Z) : SE Connection StorageError unit :=
  se_map_err SSqlite (statement (sql_touch_device device_public_key (to_i64 now))).

Definition random_id : SE Connection StorageError string :=
  let! b := draw 16 in
  se_ret (Ok (hex_encode b)).

Definition create_account (device_public_key : bytes) (display_name : string) (now : Z)
  : SE Connection StorageError AccountRecord :=
  let! i := random_id in
  let! _ := se_map_err SSqlite (transaction
    (let! _ := statement (sql_insert_account i display_name (to_i64 now)) in
     statement (sql_insert_device device_public_key i (to_i64 now)))) in
  se_ret (Ok {| ar_id := i; ar_handle := None; ar_display_name := display_name;
                ar_created_at := now |}).

Definition claim_handle (account_id handle : string) : SE Connection StorageError unit :=
  let! existing := se_map_err SSqlite (query (fun d => a_handle <$> accounts d !! account_id)) in
  match existing with
  | None => se_ret (Err SNotFound)
  | Some (Some _) => se_ret (Err SHandleAlreadySet)
  | Some None =>
      let! _ := se_map_err (constraint_as SHandleTaken)
                  (statement (sql_set_handle account_id handle)) in
      se_ret (Ok tt)
  end.

Definition resolve_handle (handle : string) : SE Connection StorageError (option AccountRecord) :=
  se_map_err SSqlite (query (fun d => account_row <$> find_account (has_handle handle) d)).

Definition nostr_pubkey (account_id : string) : SE Connection StorageError (option bytes) :=
  let! stored := se_map_err SSqlite (query (fun d => a_nostr_pubkey <$> accounts d !! account_id)) in
  se_ret match stored with
         | None => Err SNotFound
         | Some None => Ok None
         | Some (Some b) => let? k := fixed_key b in Ok (Some k)
         end.

Definition bind_nostr (account_id : string) (pubkey : bytes) : SE Connection StorageError unit :=
  let! changed := se_map_err (constraint_as SNostrPubkeyTaken)
                    (statement (sql_set_nostr account_id pubkey)) in
  se_ret (if changed =? 0 then Err SNotFound else Ok tt).

Definition unbind_nostr (account_id : string) : SE Connection StorageError bool :=
  let! changed := se_map_err SSqlite (statement (sql_clear_nostr account_id)) in
  let! found := account account_id in
  se_ret match found with None => Err SNotFound | Some _ => Ok (changed =? 1) end.

Definition nostr_for_handle (handle : string) : SE Connection StorageError (option bytes) :=
  let! stored := se_map_err SSqlite (query (fun d =>
    (fun row => a_nostr_pubkey row.2) <$> find_account (has_handle handle) d)) in
  se_ret match stored with
         | None | Some None => Ok None
         | Some (Some b) => let? k := fixed_key b in Ok (Some k)
         end.

Definition remember_proof_nonce (nonce : bytes) (account_id : string) (now skew_seconds : Z)
  : SE Connection StorageError unit :=
  let oldest := saturating_sub now skew_seconds in
  let! _ := se_map_err SSqlite (statement (sql_delete_nonces (to_i64 oldest))) in
  let! _ := se_map_err (constraint_as SReplayedProof)
              (statement (sql_insert_nonce nonce account_id (to_i64 now))) in
  se_ret (Ok tt).
End Storage.

(** ** The invariant the schema maintains *)

(** [i] is the account whose handle is [h]; whose Nostr key is [k]. *)
Definition handle_owner (d : Database) (h i : string) : Prop :=
  exists r, accounts d !! i = Some r /\ a_handle r = Some h.
Definition key_owner (d : Database) (k : bytes) (i : string) : Prop :=
  exists r, accounts d !! i = Some r /\ a_nostr_pubkey r = Some k.

Record db_ok (d : Database) : Prop := {
  ok_index : "accounts_nostr_pubkey"%string ∈ schema d;
  ok_handles : forall h i j, handle_owner d h i -> handle_owner d h j -> i = j;
  ok_keys : forall k i j, key_owner d k i -> key_owner d k j -> i = j;
  ok_key_bytes : forall k i, key_owner d k i -> zlen k = 32;
  ok_devices : forall k v, devices d !! k = Some v -> is_Some (accounts d !! d_account_id v)
}.

Lemma find_account_Some p d i r :
  find_account p d = Some (i, r) -> accounts d !! i = Some r /\ p i r = true.
Proof.
  unfold find_account. intros [Hin Hp]%List.find_some. split; [|done].
  by apply elem_of_map_to_list, list_elem_of_In.
Qed.

Lemma find_account_None p d i r :
  find_account p d = None -> accounts d !! i = Some r -> p i r = false.
Proof.
  unfold find_account. intros Hf Hr.
  apply (List.find_none _ _ Hf (i, r)), list_elem_of_In, elem_of_map_to_list, Hr.
Qed.

Lemma find_handle d h i r :
  db_ok d -> accounts d !! i = Some r -> a_handle r = Some h ->
  find_account (has_handle h) d = Some (i, r).
Proof.
  intros Hd Hr Hh. destruct (find_account (has_handle h) d) as [[j s]|] eqn:E.
  - apply find_account_Some in E as [Hs Hp]. unfold has_handle in Hp. split_bools.
    assert (i = j) as -> by (eapply (ok_handles d Hd h); eexists; eauto). congruence.
  - eapply find_account_None in E; [|exact Hr]. unfold has_handle in E. split_bools. done.
Qed.

(** ** What a computation keeps *)

Section Keeps.
Context (I : Database -> Prop).
Abbreviation keeps_db c := (keeps (fun s => I (db s)) c).

Lemma keeps_statement {A} (f : Database -> result SqlError (A * Database)) :
  (forall d a d', I d -> f d = Ok (a, d') -> I d') -> keeps_db (statement f).
Proof using Type.
  intros Hf c Hc. unfold statement. destruct (faults c) as [|[] fs]; [| done |];
    destruct (f (db c)) as [[a d]|] eqn:E; simpl; eauto.
Qed.
Lemma keeps_query {A} (f : Database -> A) : keeps_db (query f).
Proof using Type. apply keeps_statement. by intros d a d' Hd [= _ <-]. Qed.
Lemma keeps_transaction {A} (body : SE Connection SqlError A) :
  keeps_db body -> keeps_db (transaction body).
Proof using Type.
  intros Hb c Hc. unfold transaction.
  set (steps := se_bind (query _) _). assert (keeps_db steps) as Hs.
  { unfold steps. repeat (apply keeps_bind; intros); auto using keeps_query, keeps_ret. }
  specialize (Hs c Hc). destruct (steps c) as [[a|e] c']; done.
Qed.
Lemma keeps_draw n : keeps_db (draw n).
Proof using Type. by intros c Hc. Qed.
End Keeps.

(** [solve_keeps tac] reduces [keeps] of a composed operation to its statements. *)
Ltac solve_keeps tac :=
  repeat match goal with
  | |- keeps _ (se_bind (se_ret _) _) => apply keeps_bind_ret; intros
  | |- keeps _ (se_bind _ _) => apply keeps_bind; [|intros]
  | |- keeps _ (se_ret _) => apply keeps_ret
  | |- keeps _ (se_map_err _ _) => apply keeps_map_err
  | |- keeps _ (query _) => apply keeps_query
  | |- keeps _ (draw _) => apply keeps_draw
  | |- keeps _ (transaction _) => apply (keeps_transaction _ _)
  | |- keeps _ (statement _) => apply (keeps_statement _); tac
  | |- keeps _ (match ?x with _ => _ end) => destruct x
  end.

Section StatementFacts.
(** Two databases that differ in rows the invariant does not read. *)
Lemma db_ok_same d d' :
  db_ok d -> schema d' = schema d -> accounts d' = accounts d ->
  (forall k v, devices d' !! k = Some v -> is_Some (accounts d !! d_account_id v)) -> db_ok d'.
Proof.
  intros [H1 H2 H3 H4 H5] Es Ea Hd.
  split; unfold handle_owner, key_owner in *; rewrite ?Es, ?Ea; auto.
Qed.

Lemma insert_account_ok d i name now u d' :
  db_ok d -> sql_insert_account i name now d = Ok (u, d') -> db_ok d'.
Proof.
  unfold sql_insert_account. intros [H1 H2 H3 H4 H5]. case_bool_decide as Hn; [done|].
  intros [= _ <-]. split; simpl; [done | | | |].
  - intros h j1 j2 (r1 & L1 & E1) (r2 & L2 & E2). simpl in *.
    apply (H2 h); [exists r1 | exists r2]; (split; [|done]); simplify_map_eq;
      destruct (decide (i = j1)); destruct (decide (i = j2)); by simplify_map_eq.
  - intros k j1 j2 (r1 & L1 & E1) (r2 & L2 & E2). simpl in *.
    apply (H3 k); [exists r1 | exists r2]; (split; [|done]); simplify_map_eq;
      destruct (decide (i = j1)); destruct (decide (i = j2)); by simplify_map_eq.
  - intros k j (r & L & E). simpl in *. apply (H4 k j). exists r. split; [|done].
    destruct (decide (i = j)); by simplify_map_eq.
  - intros k v Hv%H5. simpl in *. destruct (decide (i = d_account_id v)); by simplify_map_eq.
Qed.

Lemma insert_device_ok d k i now u d' :
  db_ok d -> sql_insert_device k i now d = Ok (u, d') -> db_ok d'.
Proof.
  unfold sql_insert_device. intros Hd. case_bool_decide; [done|].
  case_bool_decide as Hn; [done|]. intros [= _ <-]. simpl.
  apply (db_ok_same d); [done.. |]. simpl. intros k' v.
  destruct (decide (k = k')); intros; simplify_map_eq; [|by eapply ok_devices].
  destruct (accounts d !! i); done.
Qed.

Lemma touch_device_ok d k now u d' :
  db_ok d -> sql_touch_device k now d = Ok (u, d') -> db_ok d'.
Proof.
  unfold sql_touch_device. intros Hd. destruct (devices d !! k) as [r|] eqn:E; intros [= _ <-]; [|done].
  apply (db_ok_same d); [done.. |]. simpl. intros k' v.
  destruct (decide (k = k')); intros; simplify_map_eq; by eapply ok_devices.
Qed.

(** Replacing one account row by one with a fresh handle and key, or its old ones. *)
Lemma update_account_ok d i r r' :
  db_ok d -> accounts d !! i = Some r ->
  (forall h j, a_handle r' = Some h -> handle_owner d h j -> i = j) ->
  (forall k, a_nostr_pubkey r' = Some k -> zlen k = 32) ->
  (forall k j, a_nostr_pubkey r' = Some k -> key_owner d k j -> i = j) ->
  db_ok (set_accounts (<[i := r']> (accounts d)) d).
Proof.
  intros [H1 H2 H3 H4 H5] Hr Fh Fl Fk. split; simpl; [done | | | |].
  - intros h j1 j2 (r1 & L1 & E1) (r2 & L2 & E2). simpl in *.
    destruct (decide (i = j1)), (decide (i = j2)); simplify_map_eq; [done | | |].
    + apply (Fh h); [done | by exists r2].
    + symmetry. apply (Fh h); [done | by exists r1].
    + apply (H2 h); eexists; eauto.
  - intros k j1 j2 (r1 & L1 & E1) (r2 & L2 & E2). simpl in *.
    destruct (decide (i = j1)), (decide (i = j2)); simplify_map_eq; [done | | |].
    + apply (Fk k); [done | by exists r2].
    + symmetry. apply (Fk k); [done | by exists r1].
    + apply (H3 k); eexists; eauto.
  - intros k j (r1 & L & E). simpl in *. destruct (decide (i = j)); simplify_map_eq; [eauto|].
    apply (H4 k j). by exists r1.
  - intros k v Hv%H5. simpl. destruct (decide (i = d_account_id v)); by simplify_map_eq.
Qed.

Lemma set_handle_ok d i h n d' :
  db_ok d -> sql_set_handle i h d = Ok (n, d') -> db_ok d'.
Proof.
  unfold sql_set_handle. intros Hd. destruct (accounts d !! i) as [r|] eqn:Hr; [|by intros [= _ <-]].
  case_bool_decide as Hn; [|by intros [= _ <-]]. case_bool_decide as Hf; [done|].
  intros [= _ <-]. eapply update_account_ok; [done | exact Hr | | |]; simpl.
  - intros h' j [= <-] (s & Hs & Eh). exfalso. apply Hf. rewrite (find_handle d h j s); eauto.
  - intros k Hk. apply (ok_key_bytes d Hd k i). by exists r.
  - intros k j Hk Ho. apply (ok_keys d Hd k); [by exists r | done].
Qed.

Lemma set_nostr_ok d i k n d' :
  zlen k = 32 -> db_ok d -> sql_set_nostr i k d = Ok (n, d') -> db_ok d'.
Proof.
  unfold sql_set_nostr. intros Hk Hd. destruct (accounts d !! i) as [r|] eqn:Hr; [|by intros [= _ <-]].
  rewrite bool_decide_true by apply Hd. case_bool_decide as Hf; [done|]. simpl.
  intros [= _ <-]. eapply update_account_ok; [done | exact Hr | | |]; simpl.
  - intros h j Eh Ho. apply (ok_handles d Hd h); [by exists r | done].
  - by intros k' [= <-].
  - intros k' j [= <-] (s & Hs & Es). destruct (decide (i = j)) as [|Hne]; [done|]. exfalso.
    apply Hf. destruct (find_account (other_holds k i) d) eqn:E; [by eexists|].
    eapply find_account_None in E; [|exact Hs]. unfold other_holds in E.
    rewrite bool_decide_true, andb_true_r in E by done. apply negb_false_iff, String.eqb_eq in E.
    congruence.
Qed.

Lemma clear_nostr_ok d i n d' : db_ok d -> sql_clear_nostr i d = Ok (n, d') -> db_ok d'.
Proof.
  unfold sql_clear_nostr. intros Hd. destruct (accounts d !! i) as [r|] eqn:Hr; [|by intros [= _ <-]].
  case_bool_decide; intros [= _ <-]; [|done].
  eapply update_account_ok; [done | exact Hr | | |]; simpl; [|done..].
  intros h j Eh Ho. apply (ok_handles d Hd h); [by exists r | done].
Qed.

Lemma delete_nonces_ok d t u d' : db_ok d -> sql_delete_nonces t d = Ok (u, d') -> db_ok d'.
Proof.
  intros Hd [= _ <-]. apply (db_ok_same d); [done.. | exact (ok_devices d Hd)].
Qed.
Lemma insert_nonce_ok d k i t u d' : db_ok d -> sql_insert_nonce k i t d = Ok (u, d') -> db_ok d'.
Proof.
  unfold sql_insert_nonce. intros Hd. case_bool_decide; [done|]. intros [= _ <-].
  apply (db_ok_same d); [done.. | exact (ok_devices d Hd)].
Qed.
End StatementFacts.

#[export] Hint Resolve insert_account_ok insert_device_ok touch_device_ok set_handle_ok set_nostr_ok
  clear_nostr_ok delete_nonces_ok insert_nonce_ok : omachat.

(** ** Connections without faults *)

Definition quiet (d : Database) (t : Entropy) : Connection := {| db := d; faults := []; entropy := t |}.

Lemma statement_quiet {A} (f : Database -> result SqlError (A * Database)) d t :
  statement f (quiet d t) =
  match f d with Ok (a, d') => (Ok a, quiet d' t) | Err e => (Err e, quiet d t) end.
Proof. done. Qed.

(** What [migrate] leaves of an empty file. *)
Definition migrated : Database :=
  set_meta {["schema_version"%string := as_bytes (show SCHEMA_VERSION)]}
    (set_schema ((migrate (quiet empty_database [])).2.(db)).(schema) empty_database).

Lemma migrate_empty t : migrate (quiet empty_database t) = (Ok tt, quiet migrated t).
Proof. reflexivity. Qed.

Lemma migrated_ok m : db_ok (set_meta m migrated).
Proof.
  split; unfold handle_owner, key_owner; simpl.
  - by vm_compute.
  - intros h i j (? & ? & _). by simplify_map_eq.
  - intros k i j (? & ? & _). by simplify_map_eq.
  - intros k i (? & ? & _). by simplify_map_eq.
  - intros k v ?. by simplify_map_eq.
Qed.

(** On a migrated schema, [migrate] only repeats its [IF NOT EXISTS] statements. *)
Lemma migrate_again d t :
  {["meta"; "accounts"; "devices"]}%string ⊆ schema d ->
  meta d !! "schema_version"%string = Some (as_bytes (show SCHEMA_VERSION)) ->
  migrate (quiet d t) = (Ok tt, quiet d t).
Proof.
  intros Hs Hv. unfold migrate, se_bind, se_map_err, query.
  assert (forall x, x ∈ schema d -> sql_create_if_not_exists x d = Ok (tt, d)) as Hc.
  { intros x Hx. unfold sql_create_if_not_exists.
    rewrite (subseteq_union_1_L {[x]} (schema d)) by (by apply singleton_subseteq_l).
    by destruct d. }
  do 3 (rewrite statement_quiet, Hc by set_solver; cbn [fst snd map_err]).
  rewrite statement_quiet. cbn [fst snd map_err]. rewrite Hv. reflexivity.
Qed.

Section OpenFacts.
Context {hex : Hex} {aead : Aead} {aead_laws : AeadLaws}.

Lemma open_sealed_with key nonce aad msg ct :
  zlen nonce = NONCE_BYTES -> aead_encrypt key nonce aad msg = Some ct ->
  open_sealed key aad (nonce ++ ct) = Ok msg.
Proof using aead_laws.
  intros Hn He. destruct (aead_roundtrip _ _ _ _ _ He) as [Hl Hd]. unfold open_sealed.
  rewrite zlen_app, Hn, (proj2 (Z.ltb_ge _ _)) by (pose proof (zlen_nonneg msg); lia).
  destruct (take_drop_split (Z.to_nat NONCE_BYTES) nonce ct) as [-> ->];
    [unfold zlen in Hn; lia|]. by rewrite Hd.
Qed.
End OpenFacts.

(** ** Properties *)

(** Claiming a handle succeeds exactly for an account without one and a handle
    nobody holds; then that handle resolves to that account. Otherwise nothing changes,
    and the error says which of the conditions failed. *)
Theorem claim_handle_exact i h d t :
  db_ok d ->
  let '(res, c') := claim_handle i h (quiet d t) in
  match res with
  | Ok _ =>
      exists r, accounts d !! i = Some r /\ a_handle r = None /\ (forall j, ~ handle_owner d h j) /\
        c' = quiet (set_accounts (<[i := with_handle (Some h) r]> (accounts d)) d) t /\
        resolve_handle h c' = (Ok (Some (account_row (i, with_handle (Some h) r))), c')
  | Err SNotFound => accounts d !! i = None /\ c' = quiet d t
  | Err SHandleAlreadySet => (exists h', handle_owner d h' i) /\ c' = quiet d t
  | Err SHandleTaken => (exists j, handle_owner d h j /\ j <> i) /\ c' = quiet d t
  | Err _ => False
  end.
Proof.
  intros Hd. unfold claim_handle, se_bind, se_map_err, query. rewrite statement_quiet. cbn [fst snd map_err].
  destruct (accounts d !! i) as [r|] eqn:Hr; cbn [fmap option_fmap option_map]; [|by simpl].
  destruct (a_handle r) as [h'|] eqn:Hh; [by simpl; split; [exists h', r|]|].
  rewrite statement_quiet.
  destruct (sql_set_handle i h d) as [[n d']|e] eqn:Es; cbn [fst snd map_err se_ret].
  - pose proof (set_handle_ok _ _ _ _ _ Hd Es) as Hd'. unfold sql_set_handle in Es.
    rewrite Hr, bool_decide_true in Es by done. case_bool_decide as Hf; [done|].
    injection Es as _ <-. exists r. split_and!; try done.
    + intros j (s & Hs & Eh). apply Hf. rewrite (find_handle d h j s); eauto.
    + unfold resolve_handle, se_map_err, query. rewrite statement_quiet. cbn [fst snd map_err].
      rewrite (find_handle _ h i (with_handle (Some h) r)); [done | done | | done].
      simpl. apply lookup_insert_eq.
  - unfold sql_set_handle in Es. rewrite Hr, bool_decide_true in Es by done.
    case_bool_decide as Hf; [|done]. injection Es as <-. simpl. split; [|done].
    destruct Hf as [[j s] Hf]. apply find_account_Some in Hf as [Hs Hp]. unfold has_handle in Hp.
    split_bools. exists j. split; [by exists s|]. intros ->. congruence.
Qed.

Section Properties.
Context {hex : Hex} {aead : Aead} {aead_laws : AeadLaws}.

(** Opening a new database succeeds and establishes the invariant, and the
    database then opens again under the same storage key, unchanged. *)
Theorem open_then_reopen key nonce t ct :
  zlen nonce = NONCE_BYTES ->
  aead_encrypt key nonce (as_bytes "key_check") KEY_CHECK_PLAINTEXT = Some ct ->
  exists d, open_in_memory key (quiet empty_database (Some nonce :: t)) = (Ok tt, quiet d t) /\
    db_ok d /\ forall t', open_in_memory key (quiet d t') = (Ok tt, quiet d t').
Proof using aead_laws.
  intros Hn He. eexists (set_meta (<["key_check"%string := nonce ++ ct]> (meta migrated)) migrated).
  split_and!.
  - unfold open_in_memory. unfold se_bind at 1. unfold query at 1, se_map_err at 1.
    rewrite statement_quiet. cbn [fst snd map_err]. unfold se_bind at 1. rewrite migrate_empty.
    unfold verify_key, se_bind at 1, se_map_err at 1, query. rewrite statement_quiet.
    cbn [fst snd map_err]. change (meta migrated !! "key_check"%string) with (@None bytes). cbv iota.
    unfold seal_with, draw, se_zoom, se_bind, getrandom_fill, se_ret. cbn [quiet entropy fst snd].
    rewrite (proj2 (Z.eqb_eq _ _) Hn). cbn [fst snd]. rewrite He. reflexivity.
  - apply migrated_ok.
  - intros t'. unfold open_in_memory, se_bind at 1, query at 1, se_map_err at 1.
    rewrite statement_quiet. cbn [fst snd map_err]. unfold se_bind at 1. rewrite migrate_again.
    + unfold verify_key, se_bind at 1, se_map_err at 1, query. rewrite statement_quiet.
      cbn [fst snd map_err meta set_meta]. rewrite lookup_insert_eq. unfold se_bind, se_ret.
      rewrite (open_sealed_with key nonce _ KEY_CHECK_PLAINTEXT ct) by done. reflexivity.
    + intros x. rewrite !elem_of_union, !elem_of_singleton.
      intros [[-> | ->] | ->]; by vm_compute.
    + cbn [meta set_meta]. by rewrite lookup_insert_ne.
Qed.

End Properties.

(** The condition an interrupted migration leaves, and what the statements of
    [migrate] do from it. *)
Definition half_migrated (d : Database) : Prop :=
  "accounts.nostr_pubkey"%string ∈ schema d /\ meta d !! "schema_version"%string = None.

Lemma half_migrated_statement {A} (f : Database -> result SqlError (A * Database)) c :
  half_migrated (db c) ->
  (forall d a d', half_migrated d -> f d = Ok (a, d') -> half_migrated d') ->
  half_migrated (db (statement f c).2).
Proof.
  intros H Hf. unfold statement. destruct (faults c) as [|[] fs]; [|exact H|];
    (destruct (f (db c)) as [[a d]|] eqn:E; [by eapply Hf | exact H]).
Qed.

Lemma half_migrated_create x c :
  half_migrated (db c) -> half_migrated (db (statement (sql_create_if_not_exists x) c).2).
Proof.
  intros H. apply half_migrated_statement; [exact H|]. intros d a d' [A B] [= <- <-].
  split; [|exact B]. apply elem_of_union_r, A.
Qed.

Lemma half_migrated_add_column c :
  half_migrated (db c) ->
  exists e, (statement sql_add_nostr_column c).1 = Err e /\
    half_migrated (db (statement sql_add_nostr_column c).2).
Proof.
  intros H. assert (sql_add_nostr_column (db c) = Err SqlFault) as E.
  { unfold sql_add_nostr_column. by rewrite bool_decide_true by apply H. }
  unfold statement. destruct (faults c) as [|[] fs]; rewrite ?E; eauto.
Qed.

(** A step of [migrate] that keeps the condition, then a rest that fails in it. *)
Lemma stuck_bind {A} (m : SE Connection StorageError A) (k : A -> SE Connection StorageError unit) c :
  half_migrated (db (m c).2) ->
  (forall e, (m c).1 = Err e -> exists e', e = SSqlite e') ->
  (forall a, (m c).1 = Ok a ->
    (exists e, (k a (m c).2).1 = Err (SSqlite e)) /\ half_migrated (db (k a (m c).2).2)) ->
  (exists e, (se_bind m k c).1 = Err (SSqlite e)) /\ half_migrated (db (se_bind m k c).2).
Proof.
  intros H He Hk. unfold se_bind. destruct (m c) as [[a|e] c']; cbn [fst snd] in *; [by apply Hk|].
  destruct (He e eq_refl) as [e' ->]. eauto.
Qed.

Lemma sqlite_err {A} (m : SE Connection SqlError A) c e :
  (se_map_err SSqlite m c).1 = Err e -> exists e', e = SSqlite e'.
Proof.
  unfold se_map_err. destruct (m c) as [[a|e0] c']; cbn; [discriminate|]. intros [= <-]. eauto.
Qed.

Lemma se_map_err_state {S E F A} (f : E -> F) (m : SE S E A) c : (se_map_err f m c).2 = (m c).2.
Proof. unfold se_map_err. by destruct (m c). Qed.

(** A migration interrupted after its first [ALTER TABLE] never completes: with the
    column present and no schema version recorded, every later [migrate] fails,
    whatever else happens, and leaves the database in that same condition. *)
Theorem interrupted_migration_stuck c :
  "accounts.nostr_pubkey"%string ∈ schema (db c) ->
  meta (db c) !! "schema_version"%string = None ->
  (exists e, (migrate c).1 = Err (SSqlite e)) /\
  "accounts.nostr_pubkey"%string ∈ schema (db (migrate c).2) /\
  meta (db (migrate c).2) !! "schema_version"%string = None.
Proof.
  intros Hs Hm. assert (half_migrated (db c)) as H by done.
  change ((exists e, (migrate c).1 = Err (SSqlite e)) /\ half_migrated (db (migrate c).2)).
  unfold migrate.
  do 3 (apply stuck_bind;
    [rewrite se_map_err_state; by apply half_migrated_create | intros e; apply sqlite_err |];
    intros _ _; rewrite se_map_err_state;
    match goal with |- context [(statement (sql_create_if_not_exists ?y) ?x).2] =>
      apply (half_migrated_create y) in H;
      generalize dependent (statement (sql_create_if_not_exists y) x).2
    end; clear; intros c H).
  apply stuck_bind;
    [rewrite se_map_err_state; apply half_migrated_statement; [exact H | by intros ? ? ? ? [= <- <-]]
    | intros e; apply sqlite_err |].
  intros v Hv. rewrite se_map_err_state.
  assert (v = None) as ->.
  { revert Hv. unfold query, statement, se_map_err. destruct (faults c) as [|[] fs]; cbn [fst map_err];
      [| discriminate |]; rewrite (proj2 H); by intros [= <-]. }
  assert (half_migrated (db (query (fun d => meta d !! "schema_version"%string) c).2)) as Hq.
  { apply half_migrated_statement; [exact H | by intros ? ? ? ? [= <- <-]]. }
  destruct (half_migrated_add_column _ Hq) as (e & He & Hc).
  apply stuck_bind; [by rewrite se_map_err_state | intros e'; apply sqlite_err |].
  intros a Ha. exfalso. revert Ha. unfold se_map_err.
  destruct (statement sql_add_nostr_column _) as [r c']. cbn [fst] in He. subst r. discriminate.
Qed.

(** ** Witnesses *)

Lemma open_then_reopen_witness :
  exists d, open_in_memory (key_of 3) (quiet empty_database [Some (be_bytes 24 5)]) = (Ok tt, quiet d []) /\
    db_ok d /\ forall t', open_in_memory (key_of 3) (quiet d t') = (Ok tt, quiet d t').
Proof.
  eapply (open_then_reopen (key_of 3) (be_bytes 24 5) []); [reflexivity | vm_compute; reflexivity].
Defined.

Definition sample_row : AccountRow :=
  {| a_handle := None; a_display_name := "Al"; a_created_at := 5; a_nostr_pubkey := None |}.
Definition sample_db : Database := set_accounts {["a"%string := sample_row]} migrated.

Lemma sample_db_ok : db_ok sample_db.
Proof.
  eapply (insert_account_ok migrated "a" "Al" 5); [exact (migrated_ok (meta migrated)) | reflexivity].
Qed.

Lemma claim_handle_exact_witness :
  exists c', claim_handle "a" "alice" (quiet sample_db []) = (Ok tt, c') /\
    resolve_handle "alice" c' =
      (Ok (Some (account_row ("a"%string, with_handle (Some "alice"%string) sample_row))), c').
Proof.
  exists (claim_handle "a" "alice" (quiet sample_db [])).2. split; [reflexivity|].
  pose proof (claim_handle_exact "a" "alice" sample_db [] sample_db_ok) as H.
  change (claim_handle "a" "alice" (quiet sample_db [])) with
    (@Ok StorageError unit tt, (claim_handle "a" "alice" (quiet sample_db [])).2) in H.
  cbv iota in H. destruct H as (r & Hr & _ & _ & _ & Hres).
  assert (r = sample_row) as -> by (symmetry; apply (inj Some); exact Hr).
  exact Hres.
Defined.

(** The fifth statement after the column was added fails: the schema version is never
    written, and the next start cannot add the column again. *)
Lemma interrupted_migration_stuck_witness :
  let c1 := (migrate {| db := empty_database; faults := [false; false; false; false; false; true];
                        entropy := [] |}).2 in
  faults c1 = [] /\ exists e, (migrate c1).1 = Err (SSqlite e).
Proof.
  split; [reflexivity|].
  apply (interrupted_migration_stuck (migrate {| db := empty_database;
    faults := [false; false; false; false; false; true]; entropy := [] |}).2).
  - vm_compute. reflexivity.
  - vm_compute. reflexivity.
Defined.
