(* ===== verification/Service.v ===== *)
(** * The handle service ([omachat-server/src/service.rs], [protocol.rs])

    One actor owns the database and answers requests in order: registration, handle
    claims, Nostr bindings and NIP-05 lookups. *)

From Stdlib Require Import Strings.Byte Ascii String.
From S2P Require Import Prelude RustStd Libs Concrete Account Keys Hosted ServerAuth Storage.
Local Open Scope Z_scope.

(** ** Commands and requests *)

Inductive Command :=
| Hello (minimum_version maximum_version : Z) (device_public_key : string)
| Authenticate (signature : string) (display_name : option string)
| Status
| ClaimHandle (handle : string)
| ResolveHandle (handle : string)
| BindNostr (nostr_public_key nonce : string) (timestamp : Z) (device_signature nostr_signature : string)
| UnbindNostr (nonce : string) (timestamp : Z) (device_signature : string).

Definition method (c : Command) : string :=
  match c with
  | Hello _ _ _ => "hello"
  | Authenticate _ _ => "authenticate"
  | Status => "status"
  | ClaimHandle _ => "claim-handle"
  | ResolveHandle _ => "resolve-handle"
  | BindNostr _ _ _ _ _ => "bind-nostr"
  | UnbindNostr _ _ _ => "unbind-nostr"
  end.

Record ServiceConfig := { server_public_key : bytes; nip05_relays : list string }.

(** The channel ends of a subscriber are only used by code that is never called. *)
Inductive ServiceRequest :=
| Register (device_public_key : bytes) (display_name : option string) (now : Z)
| Attach (account_id : string) (session_id : Z)
| Detach (account_id : string) (session_id : Z)
| Nip05 (name : string)
| RunCommand (account_id : string) (device_public_key : bytes) (command : Command) (now : Z).

Record Service := { storage : Connection; subscribers : gmap string (list Z) }.

(** A request is refused with an error the client sees, or the actor panics. *)
Inductive Failure := Refused (e : ServerError) | Panicked.

#[export] Instance Failure_eq_dec : EqDecision Failure.
Proof. solve_decision. Defined.

Definition refuse {A} (c : ErrorCode) (m : string) : result Failure A :=
  Err (Refused (mkServerError c m)).

Definition storage_error (error : StorageError) : Failure :=
  Refused match error with
  | SNotFound => mkServerError CNotFound "no such record"
  | SHandleTaken => mkServerError CHandleTaken "that handle is already taken"
  | SHandleAlreadySet => mkServerError CHandleAlreadySet "this account already has a handle"
  | SNostrPubkeyTaken =>
      mkServerError CNostrPubkeyTaken "that nostr public key is already bound to another handle"
  | SReplayedProof => mkServerError CReplayedProof "that nostr proof was already used"
  | _ => mkServerError CStorage "persistent storage failed"
  end.

(** A [NULL] or a string *)
Definition json_opt (s : option string) : Value :=
  match s with Some s => JString s | None => JNull end.

Section Service.
Context {hex : Hex} {schnorr : Schnorr} {bech : Bech32} {ed : Ed25519}.

Definition registration_json (account : AccountRecord) (device_public_key : bytes) (new_account : bool)
  : Value :=
  JObject [("account_id", JString (ar_id account));
           ("device_public_key", JString (hex_encode device_public_key));
           ("display_name", JString (ar_display_name account));
           ("handle", json_opt (ar_handle account));
           ("new_account", JBool new_account)]%string.

(** [expect("bound key encodes")] panics when the key does not encode. *)
Definition binding_json (handle : string) (nostr_public_key : bytes) : result Failure Value :=
  match npub_from_public_key nostr_public_key with
  | Ok npub =>
      Ok (JObject [("handle", JString handle);
                   ("nostr_public_key", JString (hex_encode nostr_public_key));
                   ("npub", JString npub)]%string)
  | Err _ => Err Panicked
  end.

Definition decode_nostr_key (value : string) : result Failure bytes :=
  map_err (fun _ => Refused (mkServerError InvalidRequest "expected 64 hex characters"))
    (decode_key value).

Definition fresh_timestamp (timestamp now : Z) : result Failure unit :=
  let skew := NOSTR_PROOF_SKEW_SECONDS in
  if (timestamp <=? saturating_add u64_max now skew) && (saturating_sub now skew <=? timestamp)
  then Ok tt
  else refuse InvalidRequest "nostr proof timestamp is outside the freshness window".

Definition verify_device (device_public_key transcript signature : bytes) : result Failure unit :=
  fail_if negb (ed25519_key_ok device_public_key)
    with Refused (mkServerError InvalidRequest "device key is not Ed25519") ;;
  fail_if negb (ed25519_verify_strict device_public_key transcript signature)
    with Refused (mkServerError InvalidSignature
           "the device signature did not verify for this nostr proof") ;;
  Ok tt.

Definition parse_handle (value : string) : result Failure GlobalHandle :=
  map_err (fun _ => Refused (mkServerError CInvalidHandle
    "handles are 3 to 32 lowercase letters, digits or '_' and start with a letter"))
    (GlobalHandle_parse value).

Definition decode_signature_field (field value : string) : result Failure bytes :=
  map_err (fun _ => Refused (mkServerError InvalidRequest
    (field ++ " must be 128 hex characters"))) (decode_signature value).

(** [Service::account], [Service::resolve] *)
Definition service_account (account_id : string) : SE Connection Failure AccountRecord :=
  let! found := se_map_err storage_error (account account_id) in
  se_ret (ok_or (Refused (mkServerError CNotFound "account no longer exists")) found).

Definition resolve (handle : GlobalHandle) : SE Connection Failure AccountRecord :=
  let! found := se_map_err storage_error (resolve_handle (handle_str handle)) in
  se_ret (ok_or (Refused (mkServerError CNotFound "no account has that handle")) found).

Definition register (device_public_key : bytes) (display_name : option string) (now : Z)
  : SE Connection Failure Value :=
  let! known := se_map_err storage_error (account_for_device device_public_key) in
  match known with
  | Some account =>
      let! _ := se_map_err storage_error (touch_device device_public_key now) in
      se_ret (Ok (registration_json account device_public_key false))
  | None =>
      let! display_name := se_ret
        match display_name with
        | Some name =>
            map_err (fun _ => Refused (mkServerError InvalidName
              "display names are 1 to 80 printable characters"))
              (let? n := DisplayName_parse name in Ok (display_str n))
        | None => Ok ("user-" ++ substring 0 8 (hex_encode device_public_key))%string
        end in
      let! account := se_map_err storage_error (create_account device_public_key display_name now) in
      se_ret (Ok (registration_json account device_public_key true))
  end.

(** [Service::bind_nostr] *)
Definition service_bind_nostr (config : ServiceConfig) (account_id : string) (device_public_key : bytes)
  (nostr_key_hex nonce_hex : string) (timestamp : Z) (device_sig_hex nostr_sig_hex : string) (now : Z)
  : SE Connection Failure Value :=
  let! account := service_account account_id in
  let! handle := se_ret (ok_or (Refused (mkServerError CInvalidHandle
                   "claim a handle before binding a nostr key")) (ar_handle account)) in
  let! nostr_public_key := se_ret (decode_nostr_key nostr_key_hex) in
  let! nonce := se_ret (decode_nostr_key nonce_hex) in
  let! device_signature := se_ret (decode_signature_field "device_signature" device_sig_hex) in
  let! nostr_signature := se_ret (decode_signature_field "nostr_signature" nostr_sig_hex) in
  let! _ := se_ret (fresh_timestamp timestamp now) in
  let transcript := nostr_bind_transcript (server_public_key config) account_id handle
                      nostr_public_key nonce timestamp in
  let! _ := se_ret (verify_device device_public_key transcript device_signature) in
  let! _ := se_ret (map_err (fun _ => Refused (mkServerError InvalidSignature
              "the nostr schnorr signature did not verify"))
              (verify_nostr nostr_public_key transcript nostr_signature)) in
  let! _ := se_map_err storage_error
              (remember_proof_nonce nonce account_id now NOSTR_PROOF_SKEW_SECONDS) in
  let! _ := se_map_err storage_error (bind_nostr account_id nostr_public_key) in
  se_ret (binding_json handle nostr_public_key).

(** [Service::unbind_nostr] *)
Definition service_unbind_nostr (config : ServiceConfig) (account_id : string)
  (device_public_key : bytes) (nonce_hex : string) (timestamp : Z) (device_sig_hex : string) (now : Z)
  : SE Connection Failure Value :=
  let! account := service_account account_id in
  let! handle := se_ret (ok_or (Refused (mkServerError CInvalidHandle "this account has no handle"))
                   (ar_handle account)) in
  let! bound := se_map_err storage_error (nostr_pubkey account_id) in
  let! bound := se_ret (ok_or (Refused (mkServerError CNotFound "no nostr key is bound")) bound) in
  let! nonce := se_ret (decode_nostr_key nonce_hex) in
  let! device_signature := se_ret (decode_signature_field "device_signature" device_sig_hex) in
  let! _ := se_ret (fresh_timestamp timestamp now) in
  let transcript := nostr_unbind_transcript (server_public_key config) account_id handle bound
                      nonce timestamp in
  let! _ := se_ret (verify_device device_public_key transcript device_signature) in
  let! _ := se_map_err storage_error
              (remember_proof_nonce nonce account_id now NOSTR_PROOF_SKEW_SECONDS) in
  let! _ := se_map_err storage_error (unbind_nostr account_id) in
  se_ret (Ok (JObject [("handle", JString handle); ("nostr_public_key", JNull)]%string)).

Definition is_nip05_byte (b : byte) : bool :=
  is_ascii_lowercase b || is_ascii_digit b
  || (byte_val b =? 45) || (byte_val b =? 95) || (byte_val b =? 46).

(** [Service::nip05]. [document["relays"] = ...] adds a member; a [serde_json::Map] keeps
    [names] before [relays]. *)
Definition nip05 (config : ServiceConfig) (name : string) : SE Connection Failure Value :=
  let! _ := se_ret (fail_if slen name =? 0
    with Refused (mkServerError InvalidRequest "name query parameter is required") ;; Ok tt) in
  let name := to_ascii_lowercase name in
  let! _ := se_ret (fail_if (64 <? slen name) || negb (bytes_all is_nip05_byte name)
    with Refused (mkServerError InvalidName
      "nip-05 names are 1 to 64 characters from a-z, 0-9, '-', '_' and '.'") ;; Ok tt) in
  let! found := se_map_err storage_error (nostr_for_handle name) in
  let! public_key := se_ret (ok_or (Refused (mkServerError CNotFound "no nostr key for that name")) found) in
  let hex_key := hex_encode public_key in
  let names := ("names"%string, JObject [(name, JString hex_key)]) in
  se_ret (Ok (JObject
    (if zlen (nip05_relays config) =? 0 then [names]
     else [names; ("relays"%string,
             JObject [(hex_key, JArray (map JString (nip05_relays config)))])]))).

(** [Service::command] *)
Definition run_command (config : ServiceConfig) (account_id : string) (device_public_key : bytes)
  (command : Command) (now : Z) : SE Connection Failure Value :=
  match command with
  | Hello _ _ _ | Authenticate _ _ =>
      se_ret (refuse AlreadyAuthenticated "this connection is already authenticated")
  | Status =>
      let! account := service_account account_id in
      let! nostr_public_key := se_map_err storage_error (nostr_pubkey account_id) in
      se_ret (Ok (JObject
        [("account_id", JString (ar_id account));
         ("device_public_key", JString (hex_encode device_public_key));
         ("display_name", JString (ar_display_name account));
         ("handle", json_opt (ar_handle account));
         ("nostr_public_key", json_opt (hex_encode <$> nostr_public_key));
         ("protocol_version", JInt PROTOCOL_VERSION);
         ("server_public_key", JString (hex_encode (server_public_key config)))]%string))
  | ClaimHandle handle =>
      let! handle := se_ret (parse_handle handle) in
      let! _ := se_map_err storage_error (claim_handle account_id (handle_str handle)) in
      se_ret (Ok (JObject [("handle", JString (handle_str handle))]%string))
  | ResolveHandle handle =>
      let! handle := se_ret (parse_handle handle) in
      let! account := resolve handle in
      se_ret (Ok (JObject [("account_id", JString (ar_id account));
                           ("display_name", JString (ar_display_name account));
                           ("handle", json_opt (ar_handle account))]%string))
  | BindNostr nostr_public_key nonce timestamp device_signature nostr_signature =>
      service_bind_nostr config account_id device_public_key nostr_public_key nonce timestamp
        device_signature nostr_signature now
  | UnbindNostr nonce timestamp device_signature =>
      service_unbind_nostr config account_id device_public_key nonce timestamp device_signature now
  end.

Definition on_storage (c : SE Connection Failure Value) : SE Service Failure Value :=
  se_zoom storage (fun st s => {| storage := st; subscribers := subscribers s |}) c.

(** [Service::handle] *)
Definition handle (config : ServiceConfig) (request : ServiceRequest) : SE Service Failure Value :=
  match request with
  | Register device_public_key display_name now => on_storage (register device_public_key display_name now)
  | Attach account_id session_id => fun s =>
      (Ok JNull, {| storage := storage s;
        subscribers := <[account_id := default [] (subscribers s !! account_id) ++ [session_id]]>
                         (subscribers s) |})
  | Nip05 name => on_storage (nip05 config name)
  | Detach account_id session_id => fun s =>
      (Ok JNull, {| storage := storage s;
        subscribers :=
          match subscribers s !! account_id with
          | Some l =>
              let l := List.filter (fun i => negb (i =? session_id)) l in
              if zlen l =? 0 then delete account_id (subscribers s)
              else <[account_id := l]> (subscribers s)
          | None => subscribers s
          end |})
  | RunCommand account_id device_public_key command now =>
      on_storage (run_command config account_id device_public_key command now)
  end.

(** The actor's loop over a sequence of requests: the last state it reaches. *)
Definition serve (config : ServiceConfig) (requests : list ServiceRequest) (s : Service) : Service :=
  fold_left (fun s r => (handle config r s).2) requests s.
End Service.

(** ** What requests keep *)

Definition request_time (r : ServiceRequest) : Z :=
  match r with Register _ _ now | RunCommand _ _ _ now => now | _ => 0 end.

(** A property of the database that every statement a request runs preserves; the time
    bounds the deletions of old nonces. *)
Record closed (T : Z) (I : Database -> Prop) : Prop := {
  cl_account : forall i name t d u d', I d -> sql_insert_account i name t d = Ok (u, d') -> I d';
  cl_device : forall k i t d u d', I d -> sql_insert_device k i t d = Ok (u, d') -> I d';
  cl_touch : forall k t d u d', I d -> sql_touch_device k t d = Ok (u, d') -> I d';
  cl_handle : forall i h d n d', is_canonical_handle h = true -> I d ->
    sql_set_handle i h d = Ok (n, d') -> I d';
  cl_nostr : forall i k d n d', zlen k = 32 -> I d -> sql_set_nostr i k d = Ok (n, d') -> I d';
  cl_clear : forall i d n d', I d -> sql_clear_nostr i d = Ok (n, d') -> I d';
  cl_delete : forall now d u d', now <= T -> I d ->
    sql_delete_nonces (to_i64 (saturating_sub now NOSTR_PROOF_SKEW_SECONDS)) d = Ok (u, d') -> I d';
  cl_nonce : forall k i t d u d', I d -> sql_insert_nonce k i t d = Ok (u, d') -> I d'
}.

Section Keeps.
Context {hex : Hex} {schnorr : Schnorr} {bech : Bech32} {ed : Ed25519}.

Lemma decode_nostr_key_length v b : decode_nostr_key v = Ok b -> zlen b = 32.
Proof using Type. unfold decode_nostr_key. intros H. inv_ok. by eapply decode_key_length. Qed.

Lemma parse_handle_canonical v h : parse_handle v = Ok h -> is_canonical_handle (handle_str h) = true.
Proof using Type. unfold parse_handle. intros H. inv_ok. by apply GlobalHandle_parse_ok in H as [? _]. Qed.

Lemma keeps_run_command T I config account_id dev command now :
  closed T I -> now <= T ->
  keeps (fun c => I (db c)) (run_command config account_id dev command now).
Proof using Type.
  intros HI Hn. destruct command; unfold run_command, service_bind_nostr, service_unbind_nostr,
    service_account, resolve, remember_proof_nonce, claim_handle, bind_nostr, unbind_nostr, account,
    resolve_handle, nostr_pubkey;
  solve_keeps ltac:(intros);
  first [ by eapply (cl_handle T I); eauto using parse_handle_canonical
        | eapply (cl_nostr T I HI); [|eassumption..]; by eapply decode_nostr_key_length
        | by eapply (cl_clear T I); eauto
        | by eapply (cl_delete T I); eauto
        | by eapply (cl_nonce T I); eauto ].
Qed.

Lemma keeps_register T I dev name now :
  closed T I -> keeps (fun c => I (db c)) (register dev name now).
Proof using Type.
  intros HI. unfold register, create_account, random_id, touch_device, account_for_device.
  solve_keeps ltac:(intros);
  first [ by eapply (cl_account T I); eauto | by eapply (cl_device T I); eauto
        | by eapply (cl_touch T I); eauto ].
Qed.

Lemma keeps_nip05 (I : Database -> Prop) config name : keeps (fun c => I (db c)) (nip05 config name).
Proof using Type. unfold nip05, nostr_for_handle. solve_keeps ltac:(intros). Qed.

Lemma keeps_handle T I config request :
  closed T I -> request_time request <= T ->
  keeps (fun s => I (db (storage s))) (handle config request).
Proof using Type.
  intros HI Hn s Hs. destruct request; simpl in *; try exact Hs.
  - by apply (keeps_register T I).
  - by apply keeps_nip05.
  - by apply (keeps_run_command T I).
Qed.

Lemma keeps_serve T I config requests s :
  closed T I -> Forall (fun r => request_time r <= T) requests ->
  I (db (storage s)) -> I (db (storage (serve config requests s))).
Proof using Type.
  intros HI. revert s. induction requests as [|r rs IH]; intros s Hr Hs; [done|].
  apply Forall_cons in Hr as [Hr1 Hr2]. apply IH; [done|]. by apply (keeps_handle T I).
Qed.
End Keeps.

(** ** The invariants of the service's database *)

Record service_ok (d : Database) : Prop := {
  sv_db : db_ok d;
  sv_handles : forall h i, handle_owner d h i -> is_canonical_handle h = true
}.

(** Who owns a handle after a statement. *)
Lemma handle_owner_set_account d i r' h j :
  handle_owner (set_accounts (<[i := r']> (accounts d)) d) h j ->
  (i = j /\ a_handle r' = Some h) \/ handle_owner d h j.
Proof.
  intros (r & L & E). simpl in L. destruct (decide (i = j)) as [->|]; simplify_map_eq;
    [by left | right; by exists r].
Qed.

Lemma closed_service_ok T : closed T service_ok.
Proof.
  split.
  - intros i name t d u d' [Hd Hh] E. split; [eauto using insert_account_ok|]. revert E.
    unfold sql_insert_account. case_bool_decide; [done|]. intros [= _ <-] h j Ho.
    apply handle_owner_set_account in Ho as [[_ ?]|?]; [done | eauto].
  - intros k i t d u d' [Hd Hh] E. split; [eauto using insert_device_ok|]. revert E.
    unfold sql_insert_device. case_match; [done|]. by intros [= _ <-].
  - intros k t d u d' [Hd Hh] E. split; [eauto using touch_device_ok|]. revert E.
    unfold sql_touch_device. case_match; by intros [= _ <-].
  - intros i h d n d' Hc [Hd Hh] E. split; [eauto using set_handle_ok|]. revert E.
    unfold sql_set_handle. repeat case_match; intros [= _ <-]; try done. intros h' j Ho.
    apply handle_owner_set_account in Ho as [[_ ?]|?]; [by simplify_eq/= | eauto].
  - intros i k d n d' Hk [Hd Hh] E. split; [eauto using set_nostr_ok|]. revert E.
    unfold sql_set_nostr. repeat case_match; intros [= _ <-]; try done. intros h' j Ho.
    apply handle_owner_set_account in Ho as [[_ ?]|?]; [|eauto]. eapply Hh. eexists; eauto.
  - intros i d n d' [Hd Hh] E. split; [eauto using clear_nostr_ok|]. revert E.
    unfold sql_clear_nostr. repeat case_match; intros [= _ <-]; try done. intros h' j Ho.
    apply handle_owner_set_account in Ho as [[_ ?]|?]; [|eauto]. eapply Hh. eexists; eauto.
  - intros now d u d' _ [Hd Hh] E. split; [eauto using delete_nonces_ok|]. injection E as _ <-. exact Hh.
  - intros k i t d u d' [Hd Hh] E. split; [eauto using insert_nonce_ok|]. revert E.
    unfold sql_insert_nonce. case_match; [done|]. by intros [= _ <-].
Qed.

(** A claimed handle stays with its account. *)
Lemma handle_owner_kept d i r r' h j :
  accounts d !! i = Some r -> (a_handle r = Some h -> a_handle r' = Some h) -> handle_owner d h j ->
  handle_owner (set_accounts (<[i := r']> (accounts d)) d) h j.
Proof.
  intros Hr Hk (s & L & E). destruct (decide (i = j)) as [->|Hne].
  - exists r'. split; [apply lookup_insert_eq | apply Hk; congruence].
  - exists s. split; [|done]. simpl. by rewrite lookup_insert_ne.
Qed.

Lemma closed_handle_owner T h i : closed T (fun d => handle_owner d h i).
Proof.
  split.
  - intros j name t d u d' (s & L & E). unfold sql_insert_account.
    case_bool_decide as Hn; [done|]. intros [= _ <-]. exists s. split; [|done]. simpl.
    rewrite lookup_insert_ne; [done|]. intros ->. apply Hn. by eexists.
  - intros k j t d u d' Ho. unfold sql_insert_device. case_match; [done|]. by intros [= _ <-].
  - intros k t d u d' Ho. unfold sql_touch_device. case_match; by intros [= _ <-].
  - intros j h' d n d' _ Ho. unfold sql_set_handle. destruct (accounts d !! j) as [r|] eqn:Hr;
      [|by intros [= _ <-]]. case_bool_decide as Hn; [|by intros [= _ <-]].
    case_bool_decide; [done|]. intros [= _ <-]. eapply handle_owner_kept; eauto. congruence.
  - intros j k d n d' _ Ho. unfold sql_set_nostr. destruct (accounts d !! j) as [r|] eqn:Hr;
      [|by intros [= _ <-]]. case_match; [done|]. intros [= _ <-].
    eapply handle_owner_kept; eauto.
  - intros j d n d' Ho. unfold sql_clear_nostr. destruct (accounts d !! j) as [r|] eqn:Hr;
      [|by intros [= _ <-]]. case_bool_decide; intros [= _ <-]; [|done].
    eapply handle_owner_kept; eauto.
  - by intros now d u d' _ Ho [= _ <-].
  - intros k j t d u d' Ho. unfold sql_insert_nonce. case_match; [done|]. by intros [= _ <-].
Qed.

(** ** Bindings change only by a proof *)

(** The Nostr key bound to an account. *)
Definition bound_key (d : Database) (i : string) : option bytes := accounts d !! i ≫= a_nostr_pubkey.

Definition bound_to (K : string -> option bytes) (d : Database) : Prop := forall j, bound_key d j = K j.

Lemma key_owner_bound d k i : key_owner d k i <-> bound_key d i = Some k.
Proof.
  unfold key_owner, bound_key. split.
  - intros (r & -> & E). done.
  - destruct (accounts d !! i) as [r|]; [by exists r | done].
Qed.

(** [remember_proof_nonce] and [account] on any connection. *)
Lemma query_cases {A} (f : Database -> A) c r c' :
  query f c = (r, c') -> db c' = db c /\ forall a, r = Ok a -> a = f (db c).
Proof.
  unfold query, statement. destruct (faults c) as [|[] fs]; intros [= <- <-]; simpl;
    (split; [done | by intros a [= <-]]).
Qed.

Lemma statement_cases {A} (f : Database -> result SqlError (A * Database)) c r c' :
  statement f c = (r, c') ->
  (exists e, r = Err e /\ db c' = db c) \/ (exists a, r = Ok a /\ f (db c) = Ok (a, db c')).
Proof.
  unfold statement. destruct (faults c) as [|[] fs].
  - destruct (f (db c)) as [[a d]|e] eqn:E; intros [= <- <-]; simpl; eauto.
  - intros [= <- <-]; simpl; eauto.
  - destruct (f (db c)) as [[a d]|e] eqn:E; intros [= <- <-]; simpl; eauto.
Qed.

Section BindingFacts.
Context {hex : Hex} {schnorr : Schnorr} {bech : Bech32} {ed : Ed25519}.

Lemma service_account_ok i c a c' :
  service_account i c = (Ok a, c') ->
  db c' = db c /\ exists r, accounts (db c) !! i = Some r /\ a = account_row (i, r).
Proof using Type.
  unfold service_account, account. intros H. inv_ok. apply query_cases in Ha as [Hd Hq].
  specialize (Hq _ eq_refl). split; [done|].
  destruct (accounts (db c) !! i) as [r|]; simpl in *; [|congruence]. exists r. split; congruence.
Qed.

Lemma remember_cases n i now skew c r c' :
  remember_proof_nonce n i now skew c = (r, c') ->
  accounts (db c') = accounts (db c) /\
  (r = Ok tt ->
    (forall row, nostr_proof_nonces (db c) !! n = Some row ->
       n_seen_at row < to_i64 (saturating_sub now skew)) /\
    nostr_proof_nonces (db c') !! n = Some {| n_account_id := i; n_seen_at := to_i64 now |}).
Proof using Type.
  unfold remember_proof_nonce. intros H.
  apply se_bind_cases in H as [(e & H & ->)|([] & c1 & H1 & H)].
  { apply se_map_err_cases in H as (r' & H & _).
    apply statement_cases in H as [(e' & _ & ->)|(a & _ & [= _ <-])]; done. }
  apply se_map_err_cases in H1 as (r1 & H1 & E1).
  apply statement_cases in H1 as [(e' & -> & _)|(u & -> & [= _ D1])]; [done|].
  apply se_bind_cases in H as [(e & H & ->)|([] & c2 & H2 & H)].
  { apply se_map_err_cases in H as (r' & H & _).
    apply statement_cases in H as [(e' & _ & ->)|(a & _ & Ha)]; [by rewrite <- D1|].
    split; [|done]. unfold sql_insert_nonce in Ha. case_match; [done|]. injection Ha as _ <-.
    simpl. by rewrite <- D1. }
  apply se_map_err_cases in H2 as (r2 & H2 & E2).
  apply statement_cases in H2 as [(e' & -> & _)|(u2 & -> & Ha)]; [done|].
  unfold sql_insert_nonce in Ha. case_bool_decide as Hn; [done|]. injection Ha as _ D2.
  injection H as <- <-. rewrite <- D2, <- D1. simpl. split; [done|]. intros _. split.
  - intros row Hrow. apply Z.lt_nge. intros Hge. apply Hn. rewrite <- D1. simpl.
    exists row. apply map_lookup_filter_Some. split; [done|]. simpl. lia.
  - apply lookup_insert_eq.
Qed.

(** A valid bind proof for account [i] and key [k], in the database it was checked in. *)
Definition bind_proven (config : ServiceConfig) (request : ServiceRequest) (d : Database)
  (i : string) (k : bytes) : Prop :=
  exists dev key_hex nonce_hex ts dsig_hex nsig_hex now h nonce dsig nsig,
    request = RunCommand i dev (BindNostr key_hex nonce_hex ts dsig_hex nsig_hex) now /\
    handle_owner d h i /\ fresh_timestamp ts now = Ok tt /\
    decode_nostr_key key_hex = Ok k /\ decode_nostr_key nonce_hex = Ok nonce /\
    let transcript := nostr_bind_transcript (server_public_key config) i h k nonce ts in
    ed25519_verify_strict dev transcript dsig = true /\ schnorr_verify k transcript nsig = true.

(** A valid unbind proof for account [i], whose bound key is [k]. *)
Definition unbind_proven (config : ServiceConfig) (request : ServiceRequest) (d : Database)
  (i : string) (k : bytes) : Prop :=
  exists dev nonce_hex ts dsig_hex now h nonce dsig,
    request = RunCommand i dev (UnbindNostr nonce_hex ts dsig_hex) now /\
    handle_owner d h i /\ fresh_timestamp ts now = Ok tt /\ decode_nostr_key nonce_hex = Ok nonce /\
    ed25519_verify_strict dev
      (nostr_unbind_transcript (server_public_key config) i h k nonce ts) dsig = true.

Lemma verify_device_ok dev tr sig : verify_device dev tr sig = Ok tt ->
  ed25519_verify_strict dev tr sig = true.
Proof using Type. unfold verify_device. intros H. inv_ok. by split_bools. Qed.

(** Statements other than the two that write the column leave every bound key alone. *)
Lemma bound_key_set_accounts d i r' j :
  bound_key (set_accounts (<[i := r']> (accounts d)) d) j =
  if decide (i = j) then a_nostr_pubkey r' else bound_key d j.
Proof using Type.
  unfold bound_key. simpl. destruct (decide (i = j)) as [->|];
    [by rewrite lookup_insert_eq | by rewrite lookup_insert_ne].
Qed.

Lemma keeps_bound_register K dev name now :
  keeps (fun c => bound_to K (db c)) (register dev name now).
Proof using Type.
  unfold register, create_account, random_id, touch_device, account_for_device.
  solve_keeps ltac:(intros d u d' Hd E j; rewrite <- (Hd j); revert E).
  - unfold sql_touch_device. case_match; by intros [= _ <-].
  - unfold sql_insert_account. case_bool_decide as Hn; [done|]. intros [= _ <-].
    rewrite bound_key_set_accounts. case_decide; [|done]. subst. unfold bound_key.
    destruct (accounts d !! j) eqn:Ej; [|done]. exfalso. apply Hn. by eexists.
  - unfold sql_insert_device. destruct (_ || _)%bool; [done|]. by intros [= _ <-].
Qed.

Lemma keeps_bound_claim K i h :
  keeps (fun c => bound_to K (db c)) (claim_handle i h).
Proof using Type.
  unfold claim_handle. solve_keeps ltac:(intros d u d' Hd E j; rewrite <- (Hd j); revert E).
  unfold sql_set_handle. destruct (accounts d !! i) as [r|] eqn:Hr; [|by intros [= _ <-]].
  repeat case_match; intros [= _ <-]; try done. rewrite bound_key_set_accounts.
  case_decide; [|done]. subst. unfold bound_key. by rewrite Hr.
Qed.

(** What the statements of a bind or unbind do to the bound keys. *)
Lemma bound_key_accounts d d' j : accounts d' = accounts d -> bound_key d' j = bound_key d j.
Proof using Type. unfold bound_key. by intros ->. Qed.

Lemma set_nostr_bound i k d n d' :
  sql_set_nostr i k d = Ok (n, d') ->
  d' = d \/ forall j, bound_key d' j = if decide (i = j) then Some k else bound_key d j.
Proof using Type.
  unfold sql_set_nostr. destruct (accounts d !! i); [|intros [= _ <-]; by left].
  destruct (_ && _); [done|]. intros [= _ <-]. right. intros j. by rewrite bound_key_set_accounts.
Qed.

Lemma clear_nostr_bound i d n d' :
  sql_clear_nostr i d = Ok (n, d') ->
  d' = d \/ forall j, bound_key d' j = if decide (i = j) then None else bound_key d j.
Proof using Type.
  unfold sql_clear_nostr. destruct (accounts d !! i); [|intros [= _ <-]; by left].
  case_bool_decide; intros [= _ <-]; [right | by left]. intros j. by rewrite bound_key_set_accounts.
Qed.

(** Either no bound key changed, or exactly the key of [i] did, to [k]. *)
Definition rebound (K : string -> option bytes) (i : string) (k : option bytes) (d : Database) : Prop :=
  bound_to K d \/ bound_to (fun j => if decide (i = j) then k else K j) d.

Lemma rebound_accounts K i k d d' : accounts d' = accounts d -> rebound K i k d -> rebound K i k d'.
Proof using Type.
  intros E [H|H]; [left | right]; intros j; rewrite (bound_key_accounts d d' j E); apply H.
Qed.

Lemma rebound_again K i k d d' :
  (forall j, bound_key d' j = if decide (i = j) then k else bound_key d j) ->
  rebound K i k d -> rebound K i k d'.
Proof using Type. intros E [H|H]; right; intros j; rewrite E, H; by repeat case_decide. Qed.

Lemma keeps_rebound_remember K i k nonce now :
  keeps (fun c => rebound K i k (db c)) (remember_proof_nonce nonce i now NOSTR_PROOF_SKEW_SECONDS).
Proof using Type.
  unfold remember_proof_nonce. solve_keeps ltac:(intros d u d' Hd E; revert E).
  - intros [= _ <-]. by apply (rebound_accounts _ _ _ d).
  - unfold sql_insert_nonce. case_bool_decide; [done|]. intros [= _ <-].
    by apply (rebound_accounts _ _ _ d).
Qed.

Lemma keeps_rebound_bind K i k : keeps (fun c => rebound K i (Some k) (db c)) (bind_nostr i k).
Proof using Type.
  unfold bind_nostr. solve_keeps ltac:(intros d u d' Hd E).
  destruct (set_nostr_bound _ _ _ _ _ E) as [->|]; [done | by eapply rebound_again].
Qed.

Lemma keeps_rebound_unbind K i : keeps (fun c => rebound K i None (db c)) (unbind_nostr i).
Proof using Type.
  unfold unbind_nostr, account. solve_keeps ltac:(intros d u d' Hd E).
  destruct (clear_nostr_bound _ _ _ _ E) as [->|]; [done | by eapply rebound_again].
Qed.

Lemma bound_to_self d : bound_to (bound_key d) d.
Proof using Type. by intros j. Qed.
Lemma bound_to_db d d' : d' = d -> bound_to (bound_key d) d'.
Proof using Type. by intros ->. Qed.

Lemma service_account_db i c r c' : service_account i c = (r, c') -> db c' = db c.
Proof using Type.
  unfold service_account, account. intros H.
  apply se_bind_cases in H as [(e & H & _)|(a & c1 & H & [= _ <-])];
    apply se_map_err_cases in H as (r' & (r2 & H & _)%se_map_err_cases & _);
    by apply query_cases in H as [? _].
Qed.

Lemma nostr_pubkey_cases i c r c' :
  nostr_pubkey i c = (r, c') -> db c' = db c /\
  forall k, r = Ok (Some k) -> bound_key (db c) i = Some k.
Proof using Type.
  unfold nostr_pubkey. intros H.
  apply se_bind_cases in H as [(e & H & ->)|(a & c1 & H & [= E <-])];
    apply se_map_err_cases in H as (r' & H & E'); apply query_cases in H as [? Hq]; split; try done.
  intros k ->. destruct r' as [a'|]; [|done]. injection E' as ->. specialize (Hq _ eq_refl).
  unfold bound_key. destruct (accounts (db c) !! i) as [row|]; simpl in Hq; subst; [|done].
  revert E. simpl. destruct (a_nostr_pubkey row) as [b|]; [|done]. unfold fixed_key.
  destruct (zlen b =? 32); simpl; congruence.
Qed.

Lemma se_ret_cases {S E A} (r0 : result E A) (s : S) r s' : se_ret r0 s = (r, s') -> r = r0 /\ s' = s.
Proof using Type. by intros [= <- <-]. Qed.

Lemma keeps_after {S E A} (I : S -> Prop) (c : SE S E A) s r s' :
  keeps I c -> I s -> c s = (r, s') -> I s'.
Proof using Type. intros Hc Hs Hr. specialize (Hc s Hs). by rewrite Hr in Hc. Qed.

Ltac se_ret_step H :=
  let Hr := fresh "Hr" in let x := fresh "x" in let s1 := fresh "s1" in
  apply se_bind_cases in H as [(? & H & _)|(x & s1 & Hr & H)];
  [apply se_ret_cases in H as [_ ->]; left; apply bound_to_db; congruence
  |apply se_ret_cases in Hr as [Hr ->]; symmetry in Hr].

Lemma bind_command_cases config i dev kh nh ts dh sh now c r c' :
  let request := RunCommand i dev (BindNostr kh nh ts dh sh) now in
  service_bind_nostr config i dev kh nh ts dh sh now c = (r, c') ->
  bound_to (bound_key (db c)) (db c') \/
  exists k, bind_proven config request (db c) i k /\ rebound (bound_key (db c)) i (Some k) (db c').
Proof using Type.
  intros request H. unfold service_bind_nostr in H.
  apply se_bind_cases in H as [(e & H & _)|(a & c1 & H1 & H)].
  { left. eapply bound_to_db, service_account_db, H. }
  apply service_account_ok in H1 as (D1 & row & Hrow & ->). cbn [ar_handle account_row fst snd] in H.
  do 8 se_ret_step H. inv_ok. destruct x4, x5, x6. right. exists x0. split.
  { exists dev, kh, nh, ts, dh, sh, now, x, x1, x2, x3. split; [reflexivity|].
    split; [exists row; eauto|]. cbn zeta. split_and!; try assumption.
    - by eapply verify_device_ok.
    - by apply verify_nostr_ok in Hr6 as (_ & _ & ?). }
  assert (rebound (bound_key (db c)) i (Some x0) (db c1)) as Hc1 by (left; by apply bound_to_db).
  eapply (keeps_after (fun c => rebound _ i (Some x0) (db c))); [|exact Hc1 | exact H].
  apply keeps_bind; [apply keeps_map_err, keeps_rebound_remember | intros _].
  apply keeps_bind; [apply keeps_map_err, keeps_rebound_bind | intros _; apply keeps_ret].
Qed.

Lemma unbind_command_cases config i dev nh ts dh now c r c' :
  let request := RunCommand i dev (UnbindNostr nh ts dh) now in
  service_unbind_nostr config i dev nh ts dh now c = (r, c') ->
  bound_to (bound_key (db c)) (db c') \/
  exists k, bound_key (db c) i = Some k /\ unbind_proven config request (db c) i k /\
    rebound (bound_key (db c)) i None (db c').
Proof using Type.
  intros request H. unfold service_unbind_nostr in H.
  apply se_bind_cases in H as [(e & H & _)|(a & c1 & H1 & H)].
  { left. eapply bound_to_db, service_account_db, H. }
  apply service_account_ok in H1 as (D1 & row & Hrow & ->). cbn [ar_handle account_row fst snd] in H.
  se_ret_step H.
  apply se_bind_cases in H as [(e & H & _)|(bk & c2 & H1 & H)].
  { left. apply se_map_err_cases in H as (? & H & _). apply nostr_pubkey_cases in H as [D2 _].
    apply bound_to_db. congruence. }
  apply se_map_err_cases in H1 as (r1 & H1 & E1). apply nostr_pubkey_cases in H1 as [D2 Hk].
  do 5 se_ret_step H. inv_ok. destruct r1; simplify_eq/=.
  destruct x3, x4. right. exists x0. split; [rewrite <- D1; by apply Hk|]. split.
  { exists dev, nh, ts, dh, now, x, x1, x2. split; [reflexivity|].
    split; [exists row; eauto|]. split_and!; try assumption.
    by eapply verify_device_ok. }
  assert (rebound (bound_key (db c)) i None (db c2)) as Hc1 by (left; apply bound_to_db; congruence).
  eapply (keeps_after (fun c => rebound _ i None (db c))); [|exact Hc1 | exact H].
  apply keeps_bind; [apply keeps_map_err, keeps_rebound_remember | intros _].
  apply keeps_bind; [apply keeps_map_err, keeps_rebound_unbind | intros _; apply keeps_ret].
Qed.

Lemma command_bound_cases config i dev command now c r c' :
  run_command config i dev command now c = (r, c') ->
  bound_to (bound_key (db c)) (db c') \/
  (exists k, bind_proven config (RunCommand i dev command now) (db c) i k /\
     rebound (bound_key (db c)) i (Some k) (db c')) \/
  (exists k, bound_key (db c) i = Some k /\
     unbind_proven config (RunCommand i dev command now) (db c) i k /\
     rebound (bound_key (db c)) i None (db c')).
Proof using Type.
  intros H. pose proof (bound_to_self (db c)) as Hself.
  destruct command; cbn [run_command] in H;
    try (left; eapply (keeps_after (fun c => bound_to _ (db c))); [|exact Hself | exact H];
         unfold service_account, account, nostr_pubkey, resolve, resolve_handle;
         solve_keeps ltac:(idtac); apply keeps_bound_claim).
  - apply bind_command_cases in H as [?|?]; eauto.
  - apply unbind_command_cases in H as [?|?]; eauto.
Qed.
End BindingFacts.

(** ** Replays *)

Section ReplayFacts.
Context {hex : Hex} {schnorr : Schnorr} {bech : Bech32} {ed : Ed25519}.

(** The nonce and timestamp of a proof command. *)
Definition proof_of (command : Command) : option (bytes * Z) :=
  match command with
  | BindNostr _ nonce ts _ _ | UnbindNostr nonce ts _ =>
      n ← result_ok (decode_nostr_key nonce); Some (n, ts)
  | _ => None
  end.

Definition nonce_seen (n : bytes) (t : Z) (d : Database) : Prop :=
  exists row, nostr_proof_nonces d !! n = Some row /\ n_seen_at row = to_i64 t.

(** Up to [seen + 300] seconds, no request deletes a nonce recorded at [seen]. *)
Lemma closed_nonce_seen T n t :
  0 <= t -> T <= t + NOSTR_PROOF_SKEW_SECONDS -> closed T (nonce_seen n t).
Proof using Type.
  intros H0 HT. unfold nonce_seen. split.
  - intros i name t' d u d' Hd. unfold sql_insert_account. case_bool_decide; [done|]. by intros [= _ <-].
  - intros k i t' d u d' Hd. unfold sql_insert_device. destruct (_ || _)%bool; [done|]. by intros [= _ <-].
  - intros k t' d u d' Hd. unfold sql_touch_device. case_match; by intros [= _ <-].
  - intros i h d m d' _ Hd. unfold sql_set_handle. repeat case_match; try done; by intros [= _ <-].
  - intros i k d m d' _ Hd. unfold sql_set_nostr. destruct (accounts d !! i); [|by intros [= _ <-]].
    destruct (_ && _); [done | by intros [= _ <-]].
  - intros i d m d' Hd. unfold sql_clear_nostr. repeat case_match; by intros [= _ <-].
  - intros now d u d' Hn (row & L & E) [= _ <-]. exists row. split; [|done]. simpl.
    apply map_lookup_filter_Some. split; [done|]. simpl. rewrite E. unfold to_i64.
    unfold NOSTR_PROOF_SKEW_SECONDS in *. unfold_ints. lia.
  - intros k i t' d u d' (row & L & E). unfold sql_insert_nonce. case_bool_decide as Hk; [done|].
    intros [= _ <-]. exists row. split; [|done]. simpl. rewrite lookup_insert_ne; [done|].
    intros ->. apply Hk. by eexists.
Qed.

Lemma fresh_timestamp_ok ts now : fresh_timestamp ts now = Ok tt ->
  ts <= saturating_add u64_max now 300 /\ saturating_sub now 300 <= ts.
Proof using Type.
  unfold fresh_timestamp, NOSTR_PROOF_SKEW_SECONDS. destruct (_ && _) eqn:E; [|done].
  split_bools. done.
Qed.

Lemma set_nostr_nonces i k d m d' :
  sql_set_nostr i k d = Ok (m, d') -> nostr_proof_nonces d' = nostr_proof_nonces d.
Proof using Type.
  unfold sql_set_nostr. destruct (accounts d !! i); [|by intros [= _ <-]].
  destruct (_ && _); [done | by intros [= _ <-]].
Qed.
Lemma clear_nostr_nonces i d m d' :
  sql_clear_nostr i d = Ok (m, d') -> nostr_proof_nonces d' = nostr_proof_nonces d.
Proof using Type. unfold sql_clear_nostr. repeat case_match; by intros [= _ <-]. Qed.

(** What an accepted proof command checked and recorded. *)
Lemma accepted_proof config i dev command now c v c' n ts :
  run_command config i dev command now c = (Ok v, c') -> proof_of command = Some (n, ts) ->
  fresh_timestamp ts now = Ok tt /\
  (forall row, nostr_proof_nonces (db c) !! n = Some row ->
     n_seen_at row < to_i64 (saturating_sub now NOSTR_PROOF_SKEW_SECONDS)) /\
  nonce_seen n now (db c').
Proof using Type.
  intros H Hp.
  assert (exists ca cb, (forall n', nostr_proof_nonces (db ca) !! n' = nostr_proof_nonces (db c) !! n') /\
    fresh_timestamp ts now = Ok tt /\
    remember_proof_nonce n i now NOSTR_PROOF_SKEW_SECONDS ca = (Ok tt, cb) /\
    nostr_proof_nonces (db c') = nostr_proof_nonces (db cb)) as (ca & cb & Ea & Hf & Hr & Eb).
  - destruct command; try done; simpl in Hp;
      [unfold run_command, service_bind_nostr in H | unfold run_command, service_unbind_nostr in H];
      inv_ok; destruct (decode_nostr_key nonce) as [n'|] eqn:En; simplify_eq/=.
    + match goal with R : remember_proof_nonce _ _ _ _ ?x = (Ok ?u, ?y) |- _ =>
        destruct u; exists x, y end.
      repeat match goal with A : service_account _ _ = _ |- _ =>
        apply service_account_db in A end.
      match goal with F : fresh_timestamp _ _ = Ok ?u |- _ => destruct u end.
      split_and!; [intros; congruence | done | done |].
      match goal with B : bind_nostr _ _ _ = _ |- _ => rename B into HB end.
      unfold bind_nostr in HB. inv_ok.
      match goal with S1 : statement (sql_set_nostr _ _) _ = (Ok _, _) |- _ =>
        apply statement_cases in S1 as [(? & ? & ?)|(? & ? & S1)]; [congruence|] end.
      by eapply set_nostr_nonces.
    + match goal with R : remember_proof_nonce _ _ _ _ ?x = (Ok ?u, ?y) |- _ =>
        destruct u; exists x, y end.
      repeat match goal with
      | A : service_account _ _ = _ |- _ => apply service_account_db in A
      | A : nostr_pubkey _ _ = _ |- _ => apply nostr_pubkey_cases in A as [A _] end.
      match goal with F : fresh_timestamp _ _ = Ok ?u |- _ => destruct u end.
      split_and!; [intros; congruence | done | done |].
      match goal with B : unbind_nostr _ _ = _ |- _ => rename B into HB end.
      unfold unbind_nostr, account in HB. inv_ok.
      match goal with S1 : statement (sql_clear_nostr _) _ = (Ok _, _) |- _ =>
        apply statement_cases in S1 as [(? & ? & ?)|(? & ? & S1)]; [congruence|] end.
      match goal with Q : query _ _ = _ |- _ => apply query_cases in Q as [Q _]; rewrite Q end.
      by eapply clear_nostr_nonces.
  - apply remember_cases in Hr as [_ Hr]. destruct (Hr eq_refl) as [H1 H2]. split_and!; [done | |].
    + intros row Hrow. apply H1. by rewrite Ea.
    + eexists. rewrite Eb. split; [exact H2 | done].
Qed.

Lemma handle_command_ok config i dev command now s v s' :
  handle config (RunCommand i dev command now) s = (Ok v, s') ->
  exists c, run_command config i dev command now (storage s) = (Ok v, c) /\
    s' = {| storage := c; subscribers := subscribers s |}.
Proof using Type.
  unfold handle, on_storage, se_zoom. destruct (run_command _ _ _ _ _ _) as [r c].
  cbn [fst snd]. intros [= -> <-]. eauto.
Qed.

(** A nonce seen at [now1] and still in the table stops its proof. *)
Lemma replayed_refused config i dev command now2 c v c' n ts now1 :
  run_command config i dev command now2 c = (Ok v, c') -> proof_of command = Some (n, ts) ->
  0 <= ts <= now1 -> (now2 <= now1 + NOSTR_PROOF_SKEW_SECONDS -> nonce_seen n now1 (db c)) -> False.
Proof using Type.
  intros E Hp Hts Hseen. destruct (accepted_proof _ _ _ _ _ _ _ _ _ _ E Hp) as (Hf & Hold & _).
  clear E. apply fresh_timestamp_ok in Hf as [_ Hf]. unfold NOSTR_PROOF_SKEW_SECONDS in *.
  destruct (Z.le_gt_cases now2 (now1 + 300)) as [Hle|Hgt]; [|unfold saturating_sub in *; lia].
  destruct (Hseen Hle) as (row & L & Er). specialize (Hold row L). rewrite Er in Hold.
  unfold to_i64, saturating_sub in *. lia.
Qed.
End ReplayFacts.

(** ** Panics *)

Section PanicFacts.
Context {hex : Hex} {schnorr : Schnorr} {bech : Bech32} {ed : Ed25519} {bech_laws : Bech32Laws}.

Definition no_panic {S A} (c : SE S Failure A) : Prop := forall s, (c s).1 <> Err Panicked.

Lemma no_panic_bind {S A B} (c : SE S Failure A) (k : A -> SE S Failure B) :
  no_panic c -> (forall a, no_panic (k a)) -> no_panic (se_bind c k).
Proof using Type.
  intros Hc Hk s. unfold se_bind. specialize (Hc s). destruct (c s) as [[a|e] s1]; simpl in *;
    [apply Hk | congruence].
Qed.
Lemma no_panic_bind_ret {S A B} (r : result Failure A) (k : A -> SE S Failure B) :
  r <> Err Panicked -> (forall a, r = Ok a -> no_panic (k a)) -> no_panic (se_bind (se_ret r) k).
Proof using Type. intros Hr Hk s. unfold se_bind, se_ret. destruct r; [by apply Hk | simpl; congruence]. Qed.
Lemma no_panic_storage {S A} (c : SE S StorageError A) : no_panic (se_map_err storage_error c).
Proof using Type. intros s. unfold se_map_err. simpl. by destruct (c s).1 as [|[]]. Qed.
Lemma no_panic_map_err {E A} (f : E -> ServerError) (r : result E A) :
  map_err (fun e => Refused (f e)) r <> Err Panicked.
Proof using Type. by destruct r. Qed.

Lemma binding_json_no_panic h k : zlen k = 32 -> binding_json h k <> Err Panicked.
Proof using bech_laws.
  intros Hk. unfold binding_json. by destruct (encode_npub_ok k Hk) as (s & -> & _).
Qed.

Ltac refused :=
  unfold decode_nostr_key, decode_signature_field, parse_handle, fresh_timestamp, verify_device, refuse;
  first [ apply no_panic_map_err | by case_match | by repeat case_match
        | by case_match; [apply no_panic_map_err|] 
        | match goal with |- ok_or _ ?x <> _ => by destruct x end | done ].
Ltac solve_no_panic :=
  repeat match goal with
  | |- no_panic (se_bind (se_ret _) _) => apply no_panic_bind_ret; [refused | intros]
  | |- no_panic (se_bind _ _) => apply no_panic_bind; [|intros]
  | |- no_panic (se_map_err storage_error _) => apply no_panic_storage
  | |- no_panic (match ?x with _ => _ end) => destruct x
  end; try (intros ?; simpl; refused).

Lemma no_panic_run_command config i dev command now :
  no_panic (run_command config i dev command now).
Proof using bech_laws.
  destruct command; unfold run_command, service_bind_nostr, service_unbind_nostr, service_account, resolve;
    solve_no_panic.
  intros ?. simpl. eapply binding_json_no_panic, decode_nostr_key_length; eassumption.
Qed.

Lemma no_panic_register dev name now : no_panic (register dev name now).
Proof using Type.
  unfold register. solve_no_panic.
Qed.

Lemma no_panic_nip05 config name : no_panic (nip05 config name).
Proof using Type. unfold nip05. solve_no_panic. Qed.
End PanicFacts.

Lemma requests_bounded requests :
  Forall (fun r => request_time r <= foldr Z.max 0 (request_time <$> requests)) requests.
Proof.
  induction requests as [|r rs IH]; constructor; simpl; [lia|].
  eapply Forall_impl; [exact IH|]. intros x Hx. etrans; [exact Hx | apply Z.le_max_r].
Qed.

(** ** NIP-05 *)

Section Nip05Facts.
Context {hex : Hex}.

Lemma canonical_nip05 h : is_canonical_handle h = true ->
  slen h <= 64 /\ bytes_all is_nip05_byte h = true /\ 0 < slen h.
Proof using Type.
  unfold is_canonical_handle, in_range, MIN_HANDLE_BYTES, MAX_HANDLE_BYTES, bytes_all.
  intros [[H1 H2]%andb_true_iff H3]%andb_true_iff. split_bools. split_and!; [lia | | lia].
  destruct (as_bytes h) as [|b rest]; [done|]. simpl. apply andb_true_iff in H3 as [H3 H4].
  unfold is_nip05_byte at 1. rewrite H3. simpl. eapply forallb_impl; [|exact H4].
  intros x. unfold is_handle_byte, is_nip05_byte. rewrite !orb_true_iff. tauto.
Qed.

Lemma slen_lowercase s : slen (to_ascii_lowercase s) = slen s.
Proof using Type.
  unfold to_ascii_lowercase. rewrite slen_of_bytes, <- zlen_as_bytes. unfold zlen. by rewrite length_map.
Qed.

Lemma nostr_for_handle_quiet h d t :
  db_ok d ->
  exists found, nostr_for_handle h (quiet d t) = (Ok found, quiet d t) /\
    forall k, found = Some k <-> exists i, handle_owner d h i /\ key_owner d k i.
Proof using Type.
  intros Hd. unfold nostr_for_handle, se_bind, se_map_err, query. rewrite statement_quiet.
  cbn [fst snd map_err].
  destruct (find_account (has_handle h) d) as [[i r]|] eqn:E; cbn [fmap option_fmap option_map snd].
  - apply find_account_Some in E as [Hr Hh]. unfold has_handle in Hh. split_bools.
    exists (a_nostr_pubkey r). split.
    + destruct (a_nostr_pubkey r) as [k|] eqn:Ek; [|done]. unfold fixed_key.
      rewrite (proj2 (Z.eqb_eq _ _)); [done|]. apply (ok_key_bytes d Hd k i). by exists r.
    + intros k. split; [intros Ek; exists i; split; by exists r|].
      intros (j & Hj & (s & Ls & Es)). assert (i = j) as -> by (eapply (ok_handles d Hd h); [by exists r | done]).
      congruence.
  - exists None. split; [done|]. intros k. split; [done|]. intros (i & (r & Hr & Eh) & _).
    by rewrite (find_handle d h i r) in E.
Qed.

Lemma nip05_quiet config name d t doc :
  service_ok d ->
  ((nip05 config name (quiet d t)).1 = Ok doc <->
   exists i k, handle_owner d (to_ascii_lowercase name) i /\ key_owner d k i /\
     doc = JObject (("names"%string, JObject [(to_ascii_lowercase name, JString (hex_encode k))]) ::
       if zlen (nip05_relays config) =? 0 then []
       else [("relays"%string, JObject [(hex_encode k, JArray (map JString (nip05_relays config)))])])).
Proof using Type.
  intros [Hd Hc]. set (h := to_ascii_lowercase name).
  destruct (nostr_for_handle_quiet h d t Hd) as (found & Hf & Hk).
  unfold nip05, se_bind, se_ret, se_map_err. fold h.
  split.
  - destruct (slen name =? 0); [done|]. destruct (_ || _)%bool; [done|]. rewrite Hf. cbn [fst snd map_err].
    destruct found as [k|]; [|done]. cbn [ok_or fst]. intros [= <-].
    destruct (proj1 (Hk k) eq_refl) as (i & Hi & Ho). exists i, k. split_and!; [done..|].
    by destruct (_ =? 0).
  - intros (i & k & Hi & Ho & ->). destruct (canonical_nip05 h (Hc _ _ Hi)) as (H1 & H2 & H3).
    rewrite (proj2 (Z.eqb_neq (slen name) 0)) by (unfold h in H3; rewrite slen_lowercase in H3; lia).
    rewrite (proj2 (Z.ltb_ge _ _)), H2 by done. cbn [negb orb]. rewrite Hf. cbn [fst snd map_err].
    rewrite (proj2 (Hk k)) by eauto. cbn [ok_or fst]. by destruct (_ =? 0).
Qed.

(** A well-formed name without a key is not found, unless it is too long. *)
Lemma nip05_quiet_none config name d t :
  service_ok d -> slen name <> 0 -> bytes_all is_nip05_byte (to_ascii_lowercase name) = true ->
  (forall i k, handle_owner d (to_ascii_lowercase name) i -> key_owner d k i -> False) ->
  exists e, (nip05 config name (quiet d t)).1 = Err (Refused e) /\
    code e = if 64 <? slen (to_ascii_lowercase name) then InvalidName else CNotFound.
Proof using Type.
  intros [Hd Hc] Hn Hb Hnone. set (h := to_ascii_lowercase name) in *.
  destruct (nostr_for_handle_quiet h d t Hd) as (found & Hf & Hk).
  unfold nip05, se_bind, se_ret, se_map_err. fold h. rewrite (proj2 (Z.eqb_neq (slen name) 0)), Hb by done. cbn [negb].
  rewrite orb_false_r. destruct (64 <? slen h); [by eexists|]. rewrite Hf. cbn [fst snd map_err].
  destruct found as [k|]; [|by eexists]. destruct (proj1 (Hk k) eq_refl) as (i & Hi & Ho). by destruct (Hnone i k Hi Ho).
Qed.
End Nip05Facts.

(** ** Properties *)

Section Properties.
Context {hex : Hex} {schnorr : Schnorr} {bech : Bech32} {ed : Ed25519}.

(** C1: whatever requests arrive and whichever database statements fail, the tables keep
    the schema's invariant (one account per handle, one per Nostr key, keys of 32 bytes,
    every device with its account) and every stored handle is canonical. *)
Theorem service_invariant config requests s :
  service_ok (db (storage s)) -> service_ok (db (storage (serve config requests s))).
Proof using Type.
  apply (keeps_serve (foldr Z.max 0 (request_time <$> requests))); [apply closed_service_ok|].
  apply requests_bounded.
Qed.

(** A claimed handle is permanent: after any further requests, with any faults, it
    belongs to the same account and to no other. *)
Theorem handle_permanent config requests s h i j :
  service_ok (db (storage s)) -> handle_owner (db (storage s)) h i ->
  handle_owner (db (storage (serve config requests s))) h i /\
  (handle_owner (db (storage (serve config requests s))) h j -> i = j).
Proof using Type.
  intros Hok Ho. set (T := foldr Z.max 0 (request_time <$> requests)).
  assert (handle_owner (db (storage (serve config requests s))) h i) as Ho'.
  { by apply (keeps_serve T (fun d => handle_owner d h i));
      [apply closed_handle_owner | apply requests_bounded |]. }
  split; [done|]. intros Hj. assert (service_ok (db (storage (serve config requests s)))) as [Hd _].
  { by apply (keeps_serve T); [apply closed_service_ok | apply requests_bounded |]. }
  by eapply (ok_handles _ Hd h).
Qed.

(** C2: a request changes the Nostr key bound to an account only if it is that account's
    own bind command, with a fresh proof over its handle signed by both the device and
    the new key, or its own unbind command with a fresh proof signed by the device. *)
Theorem binding_changes_need_proof config request s i :
  let d := db (storage s) in
  let d' := db (storage (handle config request s).2) in
  bound_key d' i <> bound_key d i ->
  (exists k, bound_key d' i = Some k /\ bind_proven config request d i k) \/
  (exists k, bound_key d i = Some k /\ bound_key d' i = None /\ unbind_proven config request d i k).
Proof using Type.
  intros d d' Hne. subst d d'. destruct request as [dev name now| | |name|j dev command now]; try done.
  - exfalso. apply Hne. simpl.
    by apply (keeps_bound_register (bound_key (db (storage s))) dev name now (storage s)).
  - exfalso. apply Hne. simpl.
    by apply (keeps_nip05 (bound_to (bound_key (db (storage s)))) config name (storage s)).
  - cbn [handle on_storage se_zoom snd storage] in *. revert Hne.
    destruct (run_command config j dev command now (storage s)) as [r c'] eqn:E. cbn [snd]. intros Hne.
    apply command_bound_cases in E as [Hb|[(k & Hp & [Hb|Hb])|(k & Hk & Hp & [Hb|Hb])]].
    + by rewrite Hb in Hne.
    + by rewrite Hb in Hne.
    + rewrite Hb in *. destruct (decide (j = i)) as [->|]; [left; eauto | done].
    + by rewrite Hb in Hne.
    + rewrite Hb in *. destruct (decide (j = i)) as [->|]; [right; eauto | done].
Qed.

(** C3: a proof accepted when its timestamp was not in the future is never accepted
    again: after any further requests, a bind or unbind command with the same nonce and
    timestamp is refused, for any account, provided the clock did not pass it. *)
Theorem proof_not_replayable config s i dev command now1 v s1 n ts requests i' dev' command' now2 :
  handle config (RunCommand i dev command now1) s = (Ok v, s1) ->
  proof_of command = Some (n, ts) -> 0 <= ts <= now1 ->
  Forall (fun r => request_time r <= now2) requests ->
  proof_of command' = Some (n, ts) ->
  exists e, (handle config (RunCommand i' dev' command' now2) (serve config requests s1)).1 = Err e.
Proof using Type.
  intros H1 Hp Hts Hreq Hp'. apply handle_command_ok in H1 as (c1 & E1 & ->).
  pose proof (accepted_proof _ _ _ _ _ _ _ _ _ _ E1 Hp) as (_ & _ & Hseen).
  destruct (handle config (RunCommand i' dev' command' now2) _) as [[v2|e] s2] eqn:E2; [|by eauto].
  exfalso. apply handle_command_ok in E2 as (c2 & E2 & _).
  eapply (replayed_refused _ _ _ _ _ _ _ _ _ _ now1 E2 Hp' Hts). intros Hle.
  apply (keeps_serve now2 (nonce_seen n now1)); [apply closed_nonce_seen; lia | done | done].
Qed.

(** On an intact database, a NIP-05 lookup answers exactly for the names whose
    lowercase form is a claimed handle with a bound key, with that key under that name
    and the configured relays. *)
Theorem nip05_exact config name d t doc :
  service_ok d ->
  ((nip05 config name (quiet d t)).1 = Ok doc <->
   exists i k, handle_owner d (to_ascii_lowercase name) i /\ key_owner d k i /\
     doc = JObject (("names"%string, JObject [(to_ascii_lowercase name, JString (hex_encode k))]) ::
       if zlen (nip05_relays config) =? 0 then []
       else [("relays"%string, JObject [(hex_encode k, JArray (map JString (nip05_relays config)))])])).
Proof using Type. apply nip05_quiet. Qed.

(** The service never panics: a key that reaches [binding_json] always encodes. *)
Theorem service_never_panics {bech_laws : Bech32Laws} config request s :
  (handle config request s).1 <> Err Panicked.
Proof using Type.
  destruct request as [dev name now| | |name|j dev command now]; try done.
  - apply no_panic_register.
  - apply no_panic_nip05.
  - apply no_panic_run_command.
Qed.
End Properties.

(** ** Witnesses *)

Definition sample_config : ServiceConfig :=
  {| server_public_key := key_of 2; nip05_relays := ["wss://r"%string] |}.
Definition sample_device : bytes := ed25519_public_key (key_of 1).

(** One account with the handle alice. *)
Definition sample_accounts : Database :=
  set_accounts {["a"%string := with_handle (Some "alice"%string) sample_row]} migrated.
Definition sample_service : Service :=
  {| storage := quiet sample_accounts []; subscribers := ∅ |}.

Definition sample_bind (nonce ts : Z) : Command :=
  let transcript := nostr_bind_transcript (key_of 2) "a" "alice" (key_of 7) (key_of nonce) ts in
  BindNostr (hex_encode (key_of 7)) (hex_encode (key_of nonce)) ts
    (hex_encode (ed25519_sign (key_of 1) transcript))
    (hex_encode (default [] (schnorr_sign (key_of 7) transcript (key_of 1)))).

Definition sample_unbind (nonce ts : Z) : Command :=
  let transcript := nostr_unbind_transcript (key_of 2) "a" "alice" (key_of 7) (key_of nonce) ts in
  UnbindNostr (hex_encode (key_of nonce)) ts (hex_encode (ed25519_sign (key_of 1) transcript)).

Definition sample_request (command : Command) (now : Z) : ServiceRequest :=
  RunCommand "a" sample_device command now.

Definition sample_bound : Service :=
  (handle sample_config (sample_request (sample_bind 9 1000) 1000) sample_service).2.

Lemma sample_accounts_ok : service_ok sample_accounts.
Proof.
  apply (closed_service_ok 0).(cl_handle _ _) with "a"%string "alice"%string sample_db 1;
    [reflexivity | | reflexivity].
  split; [exact sample_db_ok|]. intros h i (r & L & E). simpl in L.
  apply lookup_singleton_Some in L as [_ <-]. done.
Qed.

Lemma service_invariant_witness :
  service_ok (db (storage (serve sample_config
    [sample_request (sample_bind 9 1000) 1000; sample_request (ClaimHandle "bob") 1001] sample_service))).
Proof. apply service_invariant. exact sample_accounts_ok. Defined.

Lemma handle_permanent_witness :
  handle_owner (db (storage (serve sample_config
    [sample_request (ClaimHandle "bob") 1001; Register (key_of 8) None 1002] sample_service))) "alice" "a".
Proof.
  apply (handle_permanent sample_config [sample_request (ClaimHandle "bob") 1001; Register (key_of 8) None 1002]
    sample_service "alice" "a" "a"); [exact sample_accounts_ok|].
  exists (with_handle (Some "alice"%string) sample_row). split; reflexivity.
Defined.

Lemma binding_changes_need_proof_witness :
  exists k, bound_key (db (storage sample_bound)) "a" = Some k /\
    bind_proven sample_config (sample_request (sample_bind 9 1000) 1000) sample_accounts "a" k.
Proof.
  destruct (binding_changes_need_proof sample_config (sample_request (sample_bind 9 1000) 1000)
    sample_service "a") as [H|(k & H & _)].
  - vm_compute. discriminate.
  - exact H.
  - vm_compute in H. discriminate H.
Defined.

Lemma proof_not_replayable_witness :
  exists e, (handle sample_config (sample_request (sample_bind 9 1000) 1200)
    (serve sample_config [sample_request (sample_unbind 10 1100) 1100] sample_bound)).1 = Err e.
Proof.
  eapply (proof_not_replayable sample_config sample_service "a" sample_device (sample_bind 9 1000) 1000
    _ _ (key_of 9) 1000);
    [vm_compute; reflexivity | vm_compute; reflexivity | lia
    | repeat constructor; discriminate | vm_compute; reflexivity].
Defined.

Lemma nip05_exact_witness :
  exists doc, (nip05 sample_config "Alice" (quiet (db (storage sample_bound)) [])).1 = Ok doc.
Proof.
  eexists. apply (nip05_exact sample_config "Alice" (db (storage sample_bound)) []).
  - apply (keeps_handle 1000 service_ok); [apply closed_service_ok | discriminate | exact sample_accounts_ok].
  - exists "a"%string, (key_of 7). split_and!; [| |reflexivity]; eexists; split; vm_compute; reflexivity.
Defined.

Lemma service_never_panics_witness :
  (handle sample_config (sample_request (sample_bind 9 1000) 1000) sample_service).1 <> Err Panicked.
Proof. apply service_never_panics. Defined.

(** A proof dated ahead of the clock can be replayed. A bind proof dated 300 seconds
    ahead is accepted; the owner unbinds the key; 301 seconds later the nonce has been
    dropped but the timestamp is still fresh, and the same proof binds the key again. *)
Theorem future_proof_replayed :
  let bind := sample_bind 9 1300 in
  let s1 := (handle sample_config (sample_request bind 1000) sample_service).2 in
  let s2 := (handle sample_config (sample_request (sample_unbind 10 1200) 1200) s1).2 in
  let answer := handle sample_config (sample_request bind 1301) s2 in
  bound_key (db (storage s1)) "a" = Some (key_of 7) /\
  bound_key (db (storage s2)) "a" = None /\
  is_ok answer.1 = true /\ bound_key (db (storage answer.2)) "a" = Some (key_of 7).
Proof. vm_compute. repeat split. Qed.
