(* ===== verification/Session.v ===== *)
(** * Server sessions ([omachat-server/src/session.rs])

    One WebSocket connection: the hello and authenticate handshake, the request loop with
    its rate limit, and the frames sent back. The socket is the list of messages still to
    arrive and the list of frames sent; a fault plan makes sends fail. Other sessions
    share the service: the requests they make before each call are part of the state. *)

From Stdlib Require Import Strings.Byte Ascii String.
From S2P Require Import Prelude RustStd Libs Serde Concrete Keys Account Hosted ServerAuth Storage Service.
Local Open Scope Z_scope.

(** ** Rate limiting *)

(** Instants are nanoseconds. *)
Record TokenBucket := { tokens : Z; capacity : Z; per_second : Z; refilled : Z }.

Definition TokenBucket_new (cap rate now : Z) : TokenBucket :=
  {| tokens := cap; capacity := cap; per_second := rate; refilled := now |}.

(** [now] is read by [elapsed()], [now'] by [Instant::now()]. *)
Definition take_token (now now' : Z) (b : TokenBucket) : bool * TokenBucket :=
  let elapsed_millis := (now - refilled b) / 1000000 in
  let refill := elapsed_millis * per_second b / 1000 in
  let b :=
    if 0 <? refill then
      {| tokens := Z.min (saturating_add u32_max (tokens b) (Z.min refill u32_max)) (capacity b);
         capacity := capacity b; per_second := per_second b; refilled := now' |}
    else b in
  if tokens b =? 0 then (false, b)
  else (true, {| tokens := tokens b - 1; capacity := capacity b; per_second := per_second b;
                 refilled := refilled b |}).

(** ** Requests *)

Record Request := { rq_version : Z; rq_id : string; rq_command : Command }.

(** The one value of a member that must not be repeated. *)
Definition unique_member (k : string) (m : list (string * Value)) : option (option Value) :=
  match List.filter (fun kv => String.eqb kv.1 k) m with
  | [] => Some None
  | [(_, v)] => Some (Some v)
  | _ => None
  end.

(** [#[serde(default)] Option<String>] *)
Definition de_opt_string (v : Value) : option (option string) :=
  match v with JNull => Some None | JString s => Some (Some s) | _ => None end.

(** The content of a command: an object whose unknown members are ignored, or an array of
    its fields; absent or null for [Status], a unit variant, for which the visitor of serde's
    adjacent tagging takes a unit or nothing and refuses an object. *)
Definition command_of (m : string) (content : option Value) : option Command :=
  if String.eqb m "status" then
    match content with None | Some JNull => Some Status | _ => None end
  else
    v ← content;
    if String.eqb m "hello" then
      vs ← de_struct false ["minimum_version"; "maximum_version"; "device_public_key"]%string v;
      match vs with
      | [a; b; c] => a ← de_uint u16_max a; b ← de_uint u16_max b; c ← de_string c; Some (Hello a b c)
      | _ => None
      end
    else if String.eqb m "authenticate" then
      match v with
      | JObject fields =>
          sig ← unique_member "signature" fields; name ← unique_member "display_name" fields;
          sig ← sig; sig ← de_string sig;
          name ← de_opt_string (default JNull name); Some (Authenticate sig name)
      | JArray [sig] => sig ← de_string sig; Some (Authenticate sig None)
      | JArray [sig; name] => sig ← de_string sig; name ← de_opt_string name; Some (Authenticate sig name)
      | _ => None
      end
    else if String.eqb m "claim-handle" then
      vs ← de_struct false ["handle"]%string v;
      match vs with [h] => ClaimHandle <$> de_string h | _ => None end
    else if String.eqb m "resolve-handle" then
      vs ← de_struct false ["handle"]%string v;
      match vs with [h] => ResolveHandle <$> de_string h | _ => None end
    else if String.eqb m "bind-nostr" then
      vs ← de_struct false ["nostr_public_key"; "nonce"; "timestamp"; "device_signature";
                            "nostr_signature"]%string v;
      match vs with
      | [a; b; c; d; e] =>
          a ← de_string a; b ← de_string b; c ← de_uint u64_max c; d ← de_string d; e ← de_string e;
          Some (BindNostr a b c d e)
      | _ => None
      end
    else if String.eqb m "unbind-nostr" then
      vs ← de_struct false ["nonce"; "timestamp"; "device_signature"]%string v;
      match vs with
      | [a; b; c] => a ← de_string a; b ← de_uint u64_max b; c ← de_string c; Some (UnbindNostr a b c)
      | _ => None
      end
    else None.

(** [Request::deserialize]: the adjacently tagged command is flattened into the object. *)
Definition request_of_value (v : Value) : option Request :=
  match v with
  | JObject m =>
      ver ← unique_member "version" m; i ← unique_member "id" m;
      tag ← unique_member "method" m; content ← unique_member "params" m;
      ver ← ver; i ← i; tag ← tag;
      ver ← de_uint u16_max ver; i ← de_string i; tag ← de_string tag;
      c ← command_of tag content;
      Some {| rq_version := ver; rq_id := i; rq_command := c |}
  | _ => None
  end.

(** ** Session state *)

Inductive Message :=
| Text (t : string) | Ping (payload : bytes) | Pong | Close | Binary.

Inductive CloseReason :=
| ClientClosed | ProtocolViolation | AuthenticationFailed | Idle | Lagged | Shutdown | Failed.

Inductive SessionError :=
| AdmissionTimeout | AuthenticationTimeout | WebSocket | ServiceFailed (e : ServerError)
| Randomness | MalformedRegistration.

Record SessionReport := {
  authenticated : bool; requests : Z; reason : CloseReason; error : option SessionError
}.

Definition SessionReport_default : SessionReport :=
  {| authenticated := false; requests := 0; reason := ClientClosed; error := None |}.

(** Durations in nanoseconds. *)
Record SessionLimits := {
  admission_timeout : Z; unauthenticated_timeout : Z; idle_timeout : Z;
  requests_per_second : Z; request_burst : Z
}.

Definition from_secs (n : Z) : Z := n * 1000000000.

Definition SessionLimits_default : SessionLimits :=
  {| admission_timeout := from_secs 10; unauthenticated_timeout := from_secs 15;
     idle_timeout := from_secs 300; requests_per_second := 20; request_burst := 40 |}.

Inductive Outgoing := Frame (text : string) | PongFrame (payload : bytes).

Record Session := {
  (** [None] is a transport error *)
  incoming : list (option Message);
  sent : list Outgoing;
  send_faults : list bool;
  report : SessionReport;
  shared : Service;
  others : list (list ServiceRequest);
  challenges : Entropy
}.

Record Authenticated := { au_account_id : string; au_device_public_key : bytes }.
Inductive Handshake := HandshakeDone (a : Authenticated) | HandshakeClose.
Inductive RequestLoop := Continue | CloseLoop.

Definition set_reason (r : CloseReason) (s : Session) : Session :=
  {| incoming := incoming s; sent := sent s; send_faults := send_faults s;
     report := {| authenticated := authenticated (report s); requests := requests (report s);
                  reason := r; error := error (report s) |};
     shared := shared s; others := others s; challenges := challenges s |}.
Definition count_request (s : Session) : Session :=
  {| incoming := incoming s; sent := sent s; send_faults := send_faults s;
     report := {| authenticated := authenticated (report s); requests := requests (report s) + 1;
                  reason := reason (report s); error := error (report s) |};
     shared := shared s; others := others s; challenges := challenges s |}.
Definition with_incoming (l : list (option Message)) (s : Session) : Session :=
  {| incoming := l; sent := sent s; send_faults := send_faults s; report := report s;
     shared := shared s; others := others s; challenges := challenges s |}.

Abbreviation M A := (SE Session SessionError A).

(** A plain update of the state. *)
Definition modify (f : Session -> Session) : M unit := fun s => (Ok tt, f s).

(** [socket.send] *)
Definition socket_send (o : Outgoing) : M unit := fun s =>
  let rest := tail (send_faults s) in
  match send_faults s with
  | true :: _ =>
      (Err WebSocket, {| incoming := incoming s; sent := sent s; send_faults := rest; report := report s;
                         shared := shared s; others := others s; challenges := challenges s |})
  | _ =>
      (Ok tt, {| incoming := incoming s; sent := sent s ++ [o]; send_faults := rest; report := report s;
                 shared := shared s; others := others s; challenges := challenges s |})
  end.

Definition send_text (frame : string) : M unit :=
  if MAX_FRAME_BYTES <? slen frame
  then se_ret (Err (ServiceFailed (mkServerError TooLarge "outgoing frame exceeds wire budget")))
  else socket_send (Frame frame).

Definition random_session_challenge : M bytes :=
  se_zoom challenges (fun t s =>
    {| incoming := incoming s; sent := sent s; send_faults := send_faults s; report := report s;
       shared := shared s; others := others s; challenges := t |})
    (se_map_err (fun _ => Randomness) random_challenge).

Section Session.
Context {hex : Hex} {json : Json} {schnorr : Schnorr} {bech : Bech32} {ed : Ed25519}.
Context (config : ServiceConfig) (identity : ServerIdentity).
(** how [serde_json] describes a malformed frame *)
Context (json_error : string -> string).

(** [ServiceHandle::call]: the requests other sessions queued run first; a panic of the
    actor drops the reply. *)
Definition service_call (request : ServiceRequest) : SE Session ServerError Value := fun s =>
  let before := serve config (default [] (head (others s))) (shared s) in
  let '(r, after) := handle config request before in
  (match r with
   | Ok v => Ok v
   | Err (Refused e) => Err e
   | Err Panicked => Err (mkServerError Internal "service dropped the request")
   end,
   {| incoming := incoming s; sent := sent s; send_faults := send_faults s; report := report s;
      shared := after; others := tail (others s); challenges := challenges s |}).

Definition parse_request (text : string) : result ServerError Request :=
  let? request := ok_or (mkServerError InvalidRequest
                    ("request is not a valid protocol frame: " ++ json_error text))
                    (v ← json_from_slice (as_bytes text); request_of_value v) in
  fail_if (slen (rq_id request) =? 0) || (MAX_REQUEST_ID_BYTES <? slen (rq_id request))
    with mkServerError InvalidRequest "id is 1 to 64 bytes" ;;
  Ok request.

Definition unsupported_version : ServerError :=
  mkServerError UnsupportedVersion ("only protocol version " ++ show PROTOCOL_VERSION ++ " is supported").
Definition only_text : ServerError :=
  mkServerError InvalidRequest "only JSON text frames are accepted".

(** [next_request]: a loop over the messages that arrive. *)
Fixpoint next_request_from (messages : list (option Message)) : M (option (string * Command)) :=
  match messages with
  | [] =>
      let! _ := modify (fun s => set_reason ClientClosed (with_incoming [] s)) in
      se_ret (Ok None)
  | None :: rest =>
      let! _ := modify (with_incoming rest) in se_ret (Err WebSocket)
  | Some message :: rest =>
      let! _ := modify (with_incoming rest) in
      match message with
      | Text text =>
          let! _ := modify count_request in
          match parse_request text with
          | Ok request =>
              if rq_version request =? PROTOCOL_VERSION then
                se_ret (Ok (Some (rq_id request, rq_command request)))
              else
                let! _ := send_text (failure_frame (rq_id request) unsupported_version) in
                let! _ := modify (set_reason ProtocolViolation) in
                se_ret (Ok None)
          | Err error =>
              let! _ := send_text (failure_frame "" error) in
              let! _ := modify (set_reason ProtocolViolation) in
              se_ret (Ok None)
          end
      | Ping payload =>
          let! _ := socket_send (PongFrame payload) in
          next_request_from rest
      | Pong => next_request_from rest
      | Close =>
          let! _ := modify (set_reason ClientClosed) in
          se_ret (Ok None)
      | Binary =>
          let! _ := send_text (failure_frame "" only_text) in
          let! _ := modify (set_reason ProtocolViolation) in
          se_ret (Ok None)
      end
  end.
Definition next_request : M (option (string * Command)) := fun s => next_request_from (incoming s) s.

(** Answer with an error, record why, and close. *)
Definition refuse_handshake (rid : string) (e : ServerError) (r : CloseReason) : M Handshake :=
  let! _ := send_text (failure_frame rid e) in
  let! _ := modify (set_reason r) in
  se_ret (Ok HandshakeClose).

Definition hello_result (challenge device_public_key : bytes) : Value :=
  JObject [("challenge", JString (hex_encode challenge));
           ("server_public_key", JString (hex_encode (ServerIdentity_public_key identity)));
           ("server_signature", JString (hex_encode (sign_hello identity challenge device_public_key)));
           ("version", JInt PROTOCOL_VERSION)]%string.

(** [result.get("account_id").and_then(Value::as_str)] *)
Definition account_id_of (v : Value) : option string :=
  match v with JObject m => member "account_id" m ≫= de_string | _ => None end.

(** The part of [authenticate] after the device key is known. *)
Definition authenticate_device (hello_id : string) (device_public_key : bytes) (now : Z) : M Handshake :=
  let! challenge := random_session_challenge in
  let server_public_key := ServerIdentity_public_key identity in
  let! _ := send_text (success_frame hello_id (hello_result challenge device_public_key)) in
  let! next := next_request in
  match next with
  | None => se_ret (Ok HandshakeClose)
  | Some (auth_id, Authenticate signature display_name) =>
      let verified :=
        match decode_signature signature with
        | Ok sig => is_ok (verify_device_signature server_public_key challenge device_public_key sig)
        | Err _ => false
        end in
      if negb verified then
        refuse_handshake auth_id (mkServerError InvalidSignature
          "the challenge signature did not verify for this device key") AuthenticationFailed
      else fun s =>
        match service_call (Register device_public_key display_name now) s with
        | (Ok res, s) =>
            (let! account_id := se_ret (ok_or MalformedRegistration (account_id_of res)) in
             let! _ := send_text (success_frame auth_id res) in
             se_ret (Ok (HandshakeDone {| au_account_id := account_id;
                                          au_device_public_key := device_public_key |}))) s
        | (Err error, s) => refuse_handshake auth_id error AuthenticationFailed s
        end
  | Some (auth_id, _) =>
      refuse_handshake auth_id (mkServerError NotAuthenticated
        "send authenticate before any other request") ProtocolViolation
  end.

(** [authenticate] *)
Definition authenticate (now : Z) : M Handshake :=
  let! next := next_request in
  match next with
  | None => se_ret (Ok HandshakeClose)
  | Some (hello_id, Hello minimum_version maximum_version device_public_key) =>
      if (PROTOCOL_VERSION <? minimum_version) || (maximum_version <? PROTOCOL_VERSION) then
        refuse_handshake hello_id (mkServerError UnsupportedVersion
          ("this server speaks protocol version " ++ show PROTOCOL_VERSION)) ProtocolViolation
      else
        match decode_key device_public_key with
        | Ok key => authenticate_device hello_id key now
        | Err _ =>
            refuse_handshake hello_id (mkServerError InvalidRequest
              "device_public_key must be 64 hex characters") ProtocolViolation
        end
  | Some (hello_id, _) =>
      refuse_handshake hello_id (mkServerError NotAuthenticated
        "send hello before any other request") ProtocolViolation
  end.

(** The frame that answers a command. *)
Definition response_frame (rid : string) (r : result ServerError Value) : string :=
  match r with
  | Ok v =>
      let frame := success_frame rid v in
      if slen frame <=? MAX_FRAME_BYTES then frame
      else failure_frame rid (mkServerError TooLarge "response exceeds frame budget; use a paged request")
  | Err e => failure_frame rid e
  end.

(** [handle_request]; the bucket is the session's, the instants are those [take] reads. *)
Definition handle_request (who : Authenticated) (bucket : TokenBucket) (t t' now : Z) (text : string)
  : Session -> result SessionError RequestLoop * (TokenBucket * Session) := fun s =>
  let answer (b : TokenBucket) (m : M RequestLoop) (s : Session) :=
    let '(r, s) := m s in (r, (b, s)) in
  match parse_request text with
  | Err error =>
      answer bucket (let! _ := send_text (failure_frame "" error) in se_ret (Ok CloseLoop)) s
  | Ok request =>
      if negb (rq_version request =? PROTOCOL_VERSION) then
        answer bucket (let! _ := send_text (failure_frame (rq_id request) unsupported_version) in
                       se_ret (Ok Continue)) s
      else
        let '(granted, bucket) := take_token t t' bucket in
        if negb granted then
          answer bucket (let! _ := send_text (failure_frame (rq_id request)
                           (mkServerError RateLimited "slow down and retry")) in
                         se_ret (Ok Continue)) s
        else
          let '(r, s) := service_call (RunCommand (au_account_id who) (au_device_public_key who)
                           (rq_command request) now) s in
          answer bucket (let! _ := send_text (response_frame (rq_id request) r) in
                         se_ret (Ok Continue)) s
  end.

(** ** The request loop

    One turn of [serve]: the branch [select!] takes, what it finds, and the instants the
    branch reads. *)
Inductive SessionEvent :=
| ShutdownChanged (stopped : bool)
| InboxFrame (frame : option string) (lagged : bool)
| Incoming (message : option (option Message)) (received t t' now : Z)
| IdleTick (at_instant : Z).

Record Loop := { bucket : TokenBucket; last_activity : Z }.

(** The state [serve] starts its loop in. *)
Definition loop_new (limits : SessionLimits) (started : Z) : Loop :=
  {| bucket := TokenBucket_new (request_burst limits) (requests_per_second limits) started;
     last_activity := started |}.

(** [Ok true] returns from the loop. *)
Definition serve_step (limits : SessionLimits) (who : Authenticated) (event : SessionEvent) (l : Loop)
  : Session -> result SessionError bool * (Loop * Session) := fun s =>
  let plain (l : Loop) (m : M bool) := let '(r, s) := m s in (r, (l, s)) in
  let close (r : CloseReason) : M bool := let! _ := modify (set_reason r) in se_ret (Ok true) in
  match event with
  | ShutdownChanged stopped => if stopped then plain l (close Shutdown) else plain l (se_ret (Ok false))
  | InboxFrame None _ => plain l (close Shutdown)
  | InboxFrame (Some frame) lagged =>
      plain l (let! _ := send_text frame in
               if lagged then
                 let! _ := send_text (event_frame "lagged" (JObject [("message"%string,
                   JString "events were dropped; reload conversations and history")])) in
                 close Lagged
               else se_ret (Ok false))
  | Incoming None _ _ _ _ => plain l (close ClientClosed)
  | Incoming (Some message) received t t' now =>
      let l := {| bucket := bucket l; last_activity := received |} in
      match message with
      | None => plain l (se_ret (Err WebSocket))
      | Some (Text text) =>
          let '(r, (b, s)) := handle_request who (bucket l) t t' now text (count_request s) in
          let l := {| bucket := b; last_activity := received |} in
          match r with
          | Ok CloseLoop => (Ok true, (l, set_reason ProtocolViolation s))
          | Ok Continue => (Ok false, (l, s))
          | Err e => (Err e, (l, s))
          end
      | Some (Ping payload) => plain l (let! _ := socket_send (PongFrame payload) in se_ret (Ok false))
      | Some Pong => plain l (se_ret (Ok false))
      | Some Close => plain l (close ClientClosed)
      | Some Binary => plain l (let! _ := send_text (failure_frame "" only_text) in close ProtocolViolation)
      end
  | IdleTick at_instant =>
      if idle_timeout limits <=? at_instant - last_activity l then plain l (close Idle)
      else plain l (se_ret (Ok false))
  end.
End Session.

(** ** The token bucket *)

Definition take_run (calls : list (Z * Z)) (b : TokenBucket) : Z * TokenBucket :=
  fold_left (fun gb c => let '(granted, b) := take_token c.1 c.2 gb.2 in
                         (gb.1 + Z.b2z granted, b)) calls (0, b).

(** Each call reads the clock twice, and time does not run backwards. *)
Fixpoint monotone_calls (from : Z) (calls : list (Z * Z)) : Prop :=
  match calls with
  | [] => True
  | (t, t') :: calls => from <= t <= t' /\ monotone_calls t' calls
  end.

(** After [g] grants since [t0], at a time not before [now]. *)
Record bucket_ok (t0 now g : Z) (b : TokenBucket) : Prop := {
  bk_tokens : 0 <= tokens b <= capacity b;
  bk_rate : 0 <= per_second b;
  bk_width : capacity b <= u32_max;
  bk_time : t0 <= refilled b <= now;
  bk_budget : 1000000000 * (g + tokens b) <= 1000000000 * capacity b + (refilled b - t0) * per_second b
}.

Lemma refill_bound e rate :
  0 <= e -> 0 <= rate -> 0 <= e / 1000000 * rate / 1000 /\
  1000000000 * (e / 1000000 * rate / 1000) <= e * rate.
Proof.
  intros He Hr. assert (0 <= e / 1000000) by (apply Z.div_pos; lia).
  assert (e / 1000000 * 1000000 <= e) by (pose proof (Z.mul_div_le e 1000000); lia).
  set (q := e / 1000000) in *. split; [apply Z.div_pos; nia|].
  assert (1000 * (q * rate / 1000) <= q * rate) by (apply Z.mul_div_le; lia). nia.
Qed.

Lemma take_token_ok t0 from t t' g b :
  bucket_ok t0 from g b -> from <= t <= t' ->
  let '(granted, b') := take_token t t' b in
  bucket_ok t0 t' (g + Z.b2z granted) b' /\
  capacity b' = capacity b /\ per_second b' = per_second b.
Proof.
  intros [H1 H2 H3 H4 H5] Ht. unfold take_token.
  destruct (refill_bound (t - refilled b) (per_second b)) as [R0 R1]; [lia | lia |].
  set (refill := (t - refilled b) / 1000000 * per_second b / 1000) in *.
  set (b1 := if 0 <? refill then _ else b).
  assert (bucket_ok t0 t' g b1 /\ capacity b1 = capacity b /\ per_second b1 = per_second b) as (Hb1 & C1 & P1).
  { unfold b1. destruct (0 <? refill) eqn:E; split_bools; (split; [|done]).
    - split; cbn [tokens capacity per_second refilled]; unfold saturating_add, u32_max in *; try lia. nia.
    - split; try lia. }
  destruct Hb1 as [G1 G2 G3 G4 G5]. destruct (tokens b1 =? 0) eqn:E; split_bools.
  - split; [|done]. by rewrite Z.add_0_r.
  - split; [|done]. split; cbn [tokens capacity per_second refilled Z.b2z]; lia.
Qed.

Lemma take_run_ok t0 from calls b0 T :
  bucket_ok t0 from 0 b0 -> monotone_calls from calls -> Forall (fun c => c.2 <= T) calls -> from <= T ->
  exists now, now <= T /\ bucket_ok t0 now (take_run calls b0).1 (take_run calls b0).2 /\
    capacity (take_run calls b0).2 = capacity b0 /\ per_second (take_run calls b0).2 = per_second b0.
Proof.
  unfold take_run. generalize 0 as g. revert from b0.
  induction calls as [|[t t'] calls IH]; intros from b0 g Hb Hm HT Hf; [by exists from|].
  apply Forall_cons in HT as [HT1 HT2]. destruct Hm as [Ht Hm]. cbn [fold_left fst snd] in *.
  pose proof (take_token_ok t0 from t t' g b0 Hb Ht) as Hs.
  destruct (take_token t t' b0) as [granted b1]. destruct Hs as (Hb1 & <- & <-).
  by apply (IH t').
Qed.

(** ** What parts of a session leave alone *)

(** The service, the other sessions' requests and the challenges to come. *)
Definition untouched (sh : Service) (o : list (list ServiceRequest)) (e : Entropy) (s : Session) : Prop :=
  shared s = sh /\ others s = o /\ challenges s = e.

Lemma keeps_modify (I : Session -> Prop) f : (forall s, I s -> I (f s)) -> keeps I (modify f).
Proof. intros Hf s Hs. by apply Hf. Qed.
Lemma keeps_socket_send sh o e x : keeps (untouched sh o e) (socket_send x).
Proof. intros s Hs. unfold socket_send. destruct (send_faults s) as [|[]]; exact Hs. Qed.
Lemma keeps_send_text sh o e f : keeps (untouched sh o e) (send_text f).
Proof. unfold send_text. destruct (_ <? _); [apply keeps_ret | apply keeps_socket_send]. Qed.

Section SessionFacts.
Context {hex : Hex} {json : Json} {schnorr : Schnorr} {bech : Bech32} {ed : Ed25519}.
Context (config : ServiceConfig) (identity : ServerIdentity) (json_error : string -> string).

Lemma keeps_next_request sh o e : keeps (untouched sh o e) (next_request json_error).
Proof using Type.
  intros s Hs. unfold next_request. generalize (incoming s). intros l. revert s Hs.
  change (keeps (untouched sh o e) (next_request_from json_error l)).
  induction l as [|[m|] l IH]; cbn [next_request_from].
  - apply keeps_bind; [by apply keeps_modify | intros; apply keeps_ret].
  - apply keeps_bind; [by apply keeps_modify | intros _]. destruct m.
    + apply keeps_bind; [by apply keeps_modify | intros _].
      destruct (parse_request _ _) as [r|]; [destruct (_ =? _); [apply keeps_ret|]|];
        (apply keeps_bind; [apply keeps_send_text | intros _];
         apply keeps_bind; [by apply keeps_modify | intros _; apply keeps_ret]).
    + apply keeps_bind; [apply keeps_socket_send | intros _; exact IH].
    + exact IH.
    + apply keeps_bind; [by apply keeps_modify | intros _; apply keeps_ret].
    + apply keeps_bind; [apply keeps_send_text | intros _].
      apply keeps_bind; [by apply keeps_modify | intros _; apply keeps_ret].
  - apply keeps_bind; [by apply keeps_modify | intros; apply keeps_ret].
Qed.

Lemma refuse_handshake_not_done rid e r s who s' :
  refuse_handshake rid e r s <> (Ok (HandshakeDone who), s').
Proof using Type. unfold refuse_handshake. intros H. inv_ok. done. Qed.

(** ** Registration *)

Lemma statement_ok_inv {A} (f : Database -> result SqlError (A * Database)) c a c' :
  statement f c = (Ok a, c') -> f (db c) = Ok (a, db c').
Proof using Type.
  intros H. apply statement_cases in H as [(e & ? & _)|(a' & E & H)]; [done | congruence].
Qed.
Lemma query_ok_inv {A} (f : Database -> A) c a c' :
  query f c = (Ok a, c') -> a = f (db c) /\ db c' = db c.
Proof using Type. intros [H1 H2]%query_cases. auto. Qed.

Lemma transaction_ok_inv {A} (body : SE Connection SqlError A) c a c' :
  transaction body c = (Ok a, c') ->
  exists c1 c2, db c1 = db c /\ body c1 = (Ok a, c2) /\ db c' = db c2.
Proof using Type.
  unfold transaction. set (steps := se_bind (query _) _). destruct (steps c) as [[x|] cx] eqn:E; [|done].
  intros [= <- <-]. unfold steps in E. inv_ok.
  repeat match goal with Q : query _ _ = _ |- _ => apply query_ok_inv in Q as [_ Q] end. eauto.
Qed.

(** The account a registration returns is the one its device belongs to. *)
Lemma register_device dev name now c v c' i :
  register dev name now c = (Ok v, c') -> account_id_of v = Some i ->
  exists row, devices (db c') !! dev = Some row /\ d_account_id row = i.
Proof using Type.
  unfold register, account_for_device, touch_device, create_account. intros H Hi. inv_ok.
  match goal with Q : query _ _ = _ |- _ => apply query_ok_inv in Q as [-> Q] end.
  destruct (devices (db c) !! dev) as [row|] eqn:Ed; cbn [mbind option_bind] in H.
  1: destruct (accounts (db c) !! d_account_id row) as [ar|] eqn:Ea; cbn [mbind option_bind] in H.
  - inv_ok. injection Hi as <-.
    match goal with S1 : statement _ _ = _ |- _ => apply statement_ok_inv in S1 as E end.
    unfold sql_touch_device in E. rewrite Ha, Ed in E. injection E as _ <-.
    eexists. split; [apply lookup_insert_eq | done].
  - inv_ok. injection Hi as <-.
    match goal with T1 : transaction _ _ = _ |- _ => apply transaction_ok_inv in T1 as (c1 & c2 & D1 & B & D2) end.
    inv_ok. match goal with S2 : statement (sql_insert_device _ _ _) _ = _ |- _ =>
      apply statement_ok_inv in S2; unfold sql_insert_device in S2 end.
    destruct (_ || _)%bool; [done|]. simplify_eq. rewrite D2. rewrite <- H.
    eexists. split; [apply lookup_insert_eq | done].
  - inv_ok. injection Hi as <-.
    match goal with T1 : transaction _ _ = _ |- _ => apply transaction_ok_inv in T1 as (c1 & c2 & D1 & B & D2) end.
    inv_ok. match goal with S2 : statement (sql_insert_device _ _ _) _ = _ |- _ =>
      apply statement_ok_inv in S2; unfold sql_insert_device in S2 end.
    destruct (_ || _)%bool; [done|]. simplify_eq. rewrite D2. rewrite <- H.
    eexists. split; [apply lookup_insert_eq | done].
Qed.
End SessionFacts.

Section HandshakeFacts.
Context {hex : Hex} {json : Json} {schnorr : Schnorr} {bech : Bech32} {ed : Ed25519}.
Context (config : ServiceConfig) (identity : ServerIdentity) (json_error : string -> string).

Lemma keeps_run {S E A} (I : S -> Prop) (c : SE S E A) s r s' :
  keeps I c -> c s = (r, s') -> I s -> I s'.
Proof using Type. intros Hc Hr Hs. by eapply keeps_after. Qed.

Lemma challenge_drawn s c s' :
  random_session_challenge s = (Ok c, s') ->
  zlen c = 32 /\ challenges s = Some c :: challenges s' /\ shared s' = shared s /\ others s' = others s.
Proof using Type.
  unfold random_session_challenge, se_zoom, se_map_err.
  destruct (random_challenge (challenges s)) as [r t] eqn:E. cbn [fst snd]. intros [= Hr <-].
  destruct r as [c'|]; [|done]. injection Hr as ->.
  split; [by eapply getrandom_fill_ok|]. cbn. split_and!; [|done..].
  unfold random_challenge, getrandom_fill in E. destruct (challenges s) as [|[x|] l]; [done | | done].
  case_match; [|done]. by simplify_eq.
Qed.

(** A registration reached through the service. *)
Lemma service_register_ok dev name now s v s' i :
  service_call config (Register dev name now) s = (Ok v, s') -> account_id_of v = Some i ->
  challenges s' = challenges s /\
  exists row, devices (db (storage (shared s'))) !! dev = Some row /\ d_account_id row = i.
Proof using Type.
  unfold service_call. cbn [handle on_storage]. unfold on_storage, se_zoom.
  destruct (register dev name now _) as [r c] eqn:E. cbn [fst snd].
  destruct r as [v'|[]]; intros [= Hv <-] Hi; [|done..]. subst v'. cbn. split; [done|].
  by eapply register_device.
Qed.

Lemma authenticate_device_done hid dev now s who s' :
  authenticate_device config identity json_error hid dev now s = (Ok (HandshakeDone who), s') ->
  au_device_public_key who = dev /\
  exists challenge sig, challenges s = Some challenge :: challenges s' /\ zlen challenge = 32 /\
    verify_device_signature (ServerIdentity_public_key identity) challenge dev sig = Ok tt /\
    exists row, devices (db (storage (shared s'))) !! dev = Some row /\
      d_account_id row = au_account_id who.
Proof using Type.
  unfold authenticate_device. intros H. inv_ok. rename a into challenge.
  apply challenge_drawn in Ha as (Hl & Hc & Hsh & Ho).
  pose proof (keeps_run _ _ _ _ _ (keeps_send_text (shared s0) (others s0) (challenges s0) _) Ha0) as K1.
  destruct K1 as (S1 & O1 & C1); [done|].
  pose proof (keeps_run _ _ _ _ _ (keeps_next_request json_error (shared s1) (others s1) (challenges s1)) Ha1) as K2.
  destruct K2 as (S2 & O2 & C2); [done|].
  destruct a1 as [[rid c]|]; [|by inv_ok].
  destruct c; try (by apply refuse_handshake_not_done in H).
  destruct (decode_signature signature) as [sig|] eqn:Es; cbn [negb] in H;
    [|by apply refuse_handshake_not_done in H].
  destruct (verify_device_signature _ challenge dev sig) as [[]|] eqn:Ev; cbn [is_ok negb] in H;
    [|by apply refuse_handshake_not_done in H].
  destruct (service_call config _ s2) as [[v|e] s3] eqn:Esv; [|by apply refuse_handshake_not_done in H].
  clear Ha0. inv_ok.
  match goal with F : send_text _ ?x = _ |- _ =>
    pose proof (keeps_run _ _ _ _ _ (keeps_send_text (shared x) (others x) (challenges x) _) F) as K3 end.
  destruct K3 as (S3 & O3 & C3); [done|]. cbn [au_device_public_key au_account_id].
  split; [done|]. exists challenge, sig.
  match goal with A : account_id_of v = Some _ |- _ =>
    destruct (service_register_ok _ _ _ _ _ _ _ Esv A) as (C4 & Hrow) end.
  split_and!; [congruence | done | done |]. by rewrite S3.
Qed.

(** ** One answer per request *)

Lemma send_text_ok f s s' u :
  send_text f s = (Ok u, s') ->
  slen f <= MAX_FRAME_BYTES /\ sent s' = sent s ++ [Frame f] /\ shared s' = shared s.
Proof using Type.
  unfold send_text. destruct (_ <? _) eqn:E; [done|]. split_bools. unfold socket_send.
  destruct (send_faults s) as [|[]]; intros [= _ <-]; by split_and!.
Qed.

(** A frame that answers the request with this id, or reports a malformed one. *)
Definition answers (rid : string) (frame : string) : Prop :=
  (exists v, frame = success_frame rid v) \/ (exists e, frame = failure_frame rid e).

Lemma response_frame_answers rid r : answers rid (response_frame rid r).
Proof using Type.
  unfold response_frame, answers. destruct r; [|eauto]. destruct (_ <=? _); eauto.
Qed.
End HandshakeFacts.

(** ** Properties *)

Section Properties.
Context {hex : Hex} {json : Json} {schnorr : Schnorr} {bech : Bech32} {ed : Ed25519}.
Context (config : ServiceConfig) (identity : ServerIdentity) (json_error : string -> string).

Lemma authenticate_signed now s who s' :
  authenticate config identity json_error now s = (Ok (HandshakeDone who), s') ->
  exists challenge sig, challenges s = Some challenge :: challenges s' /\ zlen challenge = 32 /\
    verify_device_signature (ServerIdentity_public_key identity) challenge
      (au_device_public_key who) sig = Ok tt /\
    exists row, devices (db (storage (shared s'))) !! au_device_public_key who = Some row /\
      d_account_id row = au_account_id who.
Proof using Type.
  unfold authenticate. intros H. inv_ok.
  pose proof (keeps_run _ _ _ _ _ (keeps_next_request json_error (shared s) (others s) (challenges s)) Ha) as K1.
  destruct K1 as (S1 & O1 & C1); [done|].
  destruct a as [[rid c]|]; [|by inv_ok].
  destruct c; try (by apply refuse_handshake_not_done in H).
  destruct (_ || _)%bool; [by apply refuse_handshake_not_done in H|].
  destruct (decode_key device_public_key) as [key|]; [|by apply refuse_handshake_not_done in H].
  apply authenticate_device_done in H as (-> & challenge & sig & Hc & H).
  exists challenge, sig. split; [congruence | exact H].
Qed.

(** C9: the handshake completes only for a device that signed this server's key, the
    challenge drawn for this connection and its own key; the account it is bound to is
    the one the database holds for that device, whatever other sessions did meanwhile. *)
Theorem authenticate_sound now s who s' :
  authenticate config identity json_error now s = (Ok (HandshakeDone who), s') ->
  exists challenge sig, challenges s = Some challenge :: challenges s' /\ zlen challenge = 32 /\
    verify_device_signature (ServerIdentity_public_key identity) challenge
      (au_device_public_key who) sig = Ok tt /\
    exists row, devices (db (storage (shared s'))) !! au_device_public_key who = Some row /\
      d_account_id row = au_account_id who.
Proof using Type. apply authenticate_signed. Qed.

(** Every text frame is answered by exactly one frame within the size limit, which
    carries the request's id when the request could be parsed; only a malformed frame
    ends the loop. *)
Theorem one_answer_per_request who bucket t t' now text s r bucket' s' :
  handle_request config json_error who bucket t t' now text s = (Ok r, (bucket', s')) ->
  exists frame, sent s' = sent s ++ [Frame frame] /\ slen frame <= MAX_FRAME_BYTES /\
    match parse_request json_error text with
    | Ok request => answers (rq_id request) frame /\ r = Continue
    | Err e => frame = failure_frame "" e /\ r = CloseLoop /\ shared s' = shared s
    end.
Proof using Type.
  unfold handle_request. destruct (parse_request json_error text) as [request|e].
  - destruct (negb _).
    { destruct (se_bind _ _ _) as [r1 s1] eqn:E. intros [= -> _ <-]. inv_ok.
      apply send_text_ok in Ha as (L & S & _). eexists. unfold answers. eauto 10. }
    destruct (take_token t t' bucket) as [[] b1]; cbn [negb].
    + destruct (service_call config _ s) as [res s1] eqn:Es.
      destruct (se_bind _ _ _) as [r1 s2] eqn:E. intros [= -> _ <-]. inv_ok.
      apply send_text_ok in Ha as (L & S & _).
      assert (sent s1 = sent s) as Hs.
      { unfold service_call in Es. destruct (handle _ _ _). by injection Es as _ <-. }
      eexists. rewrite Hs in S. split; [exact S|]. split; [exact L|].
      split; [apply response_frame_answers | done].
    + destruct (se_bind _ _ _) as [r1 s1] eqn:E. intros [= -> _ <-]. inv_ok.
      apply send_text_ok in Ha as (L & S & _). eexists. unfold answers. eauto 10.
  - destruct (se_bind _ _ _) as [r1 s1] eqn:E. intros [= -> _ <-]. inv_ok.
    apply send_text_ok in Ha as (L & S & Sh). eexists. eauto 10.
Qed.
End Properties.

(** The token bucket never grants more than its burst plus its rate: over calls at
    non-decreasing times from [t0] to [T] (in nanoseconds), the requests granted are at
    most the capacity plus the elapsed seconds times the rate. *)
Theorem token_bucket_rate cap rate t0 T calls :
  0 <= cap <= u32_max -> 0 <= rate -> t0 <= T ->
  monotone_calls t0 calls -> Forall (fun c => c.2 <= T) calls ->
  1000000000 * (take_run calls (TokenBucket_new cap rate t0)).1 <= 1000000000 * cap + (T - t0) * rate.
Proof.
  intros Hc Hr HT Hm HF.
  destruct (take_run_ok t0 t0 calls (TokenBucket_new cap rate t0) T) as (now & Hn & Hb & C & P); try done.
  { split; cbn; lia. }
  destruct Hb as [[? ?] ? ? ? B]. rewrite C, P in B. cbn [capacity per_second TokenBucket_new] in B. nia.
Qed.

(** ** Witnesses *)

Definition sample_text (rid m : string) (params : Value) : string :=
  of_bytes (json_to_vec (JObject [("version", JInt 1); ("id", JString rid); ("method", JString m);
    ("params", params)]%string)).

Definition sample_identity : ServerIdentity := ServerIdentity_from_seed (key_of 2).

Definition sample_session : Session := {|
  incoming := [Some (Ping []);
    Some (Text (sample_text "h" "hello" (JArray [JInt 1; JInt 1;
      JString (hex_encode (ed25519_public_key (key_of 1)))])));
    Some (Text (sample_text "a" "authenticate" (JArray [JString (hex_encode
      (sign_device_challenge (key_of 1) (ServerIdentity_public_key sample_identity) (key_of 9)))])))];
  sent := []; send_faults := [];
  report := SessionReport_default;
  shared := {| storage := quiet sample_accounts [Some (be_bytes 16 77)]; subscribers := ∅ |};
  others := []; challenges := [Some (key_of 9)] |}.

Definition sample_handshake := authenticate sample_config sample_identity (fun _ => ""%string) 500 sample_session.
Definition sample_who : Authenticated :=
  match sample_handshake.1 with
  | Ok (HandshakeDone who) => who
  | _ => {| au_account_id := ""; au_device_public_key := [] |}
  end.

Lemma authenticate_sound_witness :
  exists row, devices (db (storage (shared sample_handshake.2))) !! au_device_public_key sample_who = Some row /\
    d_account_id row = au_account_id sample_who.
Proof.
  destruct (authenticate_sound sample_config sample_identity (fun _ => ""%string) 500 sample_session
    sample_who sample_handshake.2) as (_ & _ & _ & _ & _ & H); [vm_compute; reflexivity | exact H].
Defined.

Lemma one_answer_per_request_witness :
  exists frame r bucket' s',
    handle_request sample_config (fun _ => ""%string) sample_who (TokenBucket_new 1 1 0) 5 6 500
      (sample_text "q" "status" JNull) sample_handshake.2 = (Ok r, (bucket', s')) /\
    sent s' = sent sample_handshake.2 ++ [Frame frame].
Proof.
  destruct (handle_request sample_config (fun _ => ""%string) sample_who (TokenBucket_new 1 1 0) 5 6 500
    (sample_text "q" "status" JNull) sample_handshake.2) as [[r|] [bucket' s']] eqn:E;
    [|vm_compute in E; discriminate E].
  destruct (one_answer_per_request _ _ _ _ _ _ _ _ _ _ _ _ E) as (frame & H & _).
  exists frame, r, bucket', s'. split; [reflexivity | exact H].
Defined.

Lemma token_bucket_rate_witness :
  1000000000 * (take_run [(5, 6); (7, 8)] (TokenBucket_new 1 20 0)).1 <= 1000000000 * 1 + (8 - 0) * 20.
Proof.
  apply token_bucket_rate; [unfold u32_max; lia | lia | lia | simpl; lia | repeat constructor; simpl; lia].
Defined.
