(* ===== verification/SessionRun.v ===== *)
(** * A whole session of the server ([run_session] of [session.rs])

    From the accepted socket to the report: admission, the handshake under its time limit,
    the attachment to the service, the request loop and the detachment. What the socket
    layer and the timers do is the script of the session. *)

From Stdlib Require Import Strings.Byte Ascii String.
From S2P Require Import Prelude RustStd Libs Serde Concrete Account Keys Hosted ServerAuth Storage Service Session.
Local Open Scope Z_scope.

(** What [accept_async_with_config] does within [admission_timeout]. *)
Inductive Admission := AdmissionExpires | UpgradeFails | Upgrades.

Record Script := {
  sc_admission : Admission;
  (** The handshake's time limit ends while the session waits for its next message, after
      so many of them. *)
  sc_deadline : option nat;
  sc_now : Z;
  sc_started : Z;
  sc_events : list SessionEvent
}.

Definition mark_authenticated (s : Session) : Session := {|
  incoming := incoming s; sent := sent s; send_faults := send_faults s;
  report := {| authenticated := true; requests := requests (report s); reason := reason (report s); error := error (report s) |};
  shared := shared s; others := others s; challenges := challenges s |}.
Definition mark_failed (e : SessionError) (s : Session) : Session := {|
  incoming := incoming s; sent := sent s; send_faults := send_faults s;
  report := {| authenticated := authenticated (report s); requests := requests (report s); reason := Failed; error := Some e |};
  shared := shared s; others := others s; challenges := challenges s |}.

(** [timeout(unauthenticated_timeout, ..)]: a handshake that needs more messages than came
    in time is dropped where it waits. The deadline is counted in messages: one that passes
    while a message is handled is seen at the next wait. *)
Definition with_deadline (deadline : option nat) (m : M Handshake) : M Handshake := fun s =>
  let '(r, s') := m s in
  match deadline with
  | Some k =>
      if (length (incoming s) - length (incoming s') <=? k)%nat then (r, s')
      else (Err AuthenticationTimeout,
            with_incoming (drop k (incoming s)) (m (with_incoming (take k (incoming s)) s)).2)
  | None => (r, s')
  end.

Section Run.
Context {hex : Hex} {json : Json} {schnorr : Schnorr} {bech : Bech32} {ed : Ed25519}.
Context (config : ServiceConfig) (identity : ServerIdentity) (json_error : string -> string).
Context (limits : SessionLimits) (session_id : Z).

(** The loop of [serve]; [None] while it runs. *)
Fixpoint serve_loop (who : Authenticated) (events : list SessionEvent) (l : Loop) (s : Session)
  : option (result SessionError unit) * Session :=
  match events with
  | [] => (None, s)
  | event :: events =>
      match serve_step config json_error limits who event l s with
      | (Ok false, (l, s)) => serve_loop who events l s
      | (Ok true, (l, s)) => (Some (Ok tt), s)
      | (Err e, (l, s)) => (Some (Err e), s)
      end
  end.

(** After the handshake: attached, served, and detached however serving ended. *)
Definition attached_run (who : Authenticated) (sc : Script) (s : Session) : option (result SessionError unit) * Session :=
  match service_call config (Attach (au_account_id who) session_id) s with
  | (Err e, s) => (Some (Err (ServiceFailed e)), s)
  | (Ok _, s) =>
      match serve_loop who (sc_events sc) (loop_new limits (sc_started sc)) s with
      | (None, s) => (None, s)
      | (Some r, s) => (Some r, (service_call config (Detach (au_account_id who) session_id) s).2)
      end
  end.

Definition session_run (sc : Script) (s : Session) : option (result SessionError unit) * Session :=
  match sc_admission sc with
  | AdmissionExpires => (Some (Err AdmissionTimeout), s)
  | UpgradeFails => (Some (Err WebSocket), s)
  | Upgrades =>
      match with_deadline (sc_deadline sc) (authenticate config identity json_error (sc_now sc)) s with
      | (Err e, s) => (Some (Err e), s)
      | (Ok HandshakeClose, s) => (Some (Ok tt), s)
      | (Ok (HandshakeDone who), s) => attached_run who sc (mark_authenticated s)
      end
  end.

(** [run_session]: the report, once the session has ended. *)
Definition run_session (sc : Script) (s : Session) : option SessionReport * Session :=
  match session_run sc s with
  | (None, s) => (None, s)
  | (Some (Err e), s) => (Some (report (mark_failed e s)), mark_failed e s)
  | (Some (Ok _), s) => (Some (report s), s)
  end.
End Run.

(** ** What a session has the service do *)

Section Requests.
Context {hex : Hex} {json : Json} {schnorr : Schnorr} {bech : Bech32} {ed : Ed25519}.
Context (config : ServiceConfig) (identity : ServerIdentity) (json_error : string -> string).

(** From one state to a later one the service ran a list of requests, those queued by other
    sessions and those of this one that [P] allows. *)
Definition acts (P : ServiceRequest -> Prop) (s s' : Session) : Prop :=
  others s' `suffix_of` others s /\
  exists requests, shared s' = serve config requests (shared s) /\
    forall r, r ∈ requests -> r ∈ concat (others s) \/ P r.

Lemma acts_refl P s s' : shared s' = shared s -> others s' = others s -> acts P s s'.
Proof. intros Hs Ho. split; [by rewrite Ho|]. exists []. split; [done|]. by intros r ?%elem_of_nil. Qed.
Lemma acts_trans P s s1 s2 : acts P s s1 -> acts P s1 s2 -> acts P s s2.
Proof.
  intros [[o1 O1] (r1 & E1 & H1)] [[o2 O2] (r2 & E2 & H2)]. split; [exists (o1 ++ o2); by rewrite O1, O2, app_assoc|].
  exists (r1 ++ r2). split; [unfold serve in *; by rewrite fold_left_app, <- E1|].
  intros r [Hr|Hr]%elem_of_app; [by apply H1|]. destruct (H2 r Hr) as [Hin|?]; [left|by right].
  rewrite O1, concat_app. apply elem_of_app. by right.
Qed.
Lemma acts_weaken (P Q : ServiceRequest -> Prop) s s' : (forall r, P r -> Q r) -> acts P s s' -> acts Q s s'.
Proof. intros HPQ [Ho (rs & E & H)]. split; [done|]. exists rs. split; [done|]. intros r Hr. destruct (H r Hr); auto. Qed.

Lemma service_call_acts (P : ServiceRequest -> Prop) request s : P request -> acts P s (service_call config request s).2.
Proof.
  intros HP. unfold service_call. destruct (handle config request _) as [r after] eqn:E. cbn [snd].
  split; [cbn; destruct (others s); [done | by exists [l]]|]. exists (default [] (head (others s)) ++ [request]).
  cbn [shared]. split.
  - unfold serve in *. rewrite fold_left_app. cbn. by rewrite E.
  - intros x [Hx| ->%list_elem_of_singleton]%elem_of_app; [|by right]. left. destruct (others s); [by apply elem_of_nil in Hx|].
    cbn in *. apply elem_of_app. by left.
Qed.

(** A computation in which this session asks only what [P] allows *)
Definition asks {A} (P : ServiceRequest -> Prop) (c : M A) : Prop := forall s, acts P s (c s).2.

Lemma asks_untouched {A} P (c : M A) : (forall sh o e, keeps (untouched sh o e) c) \/ (forall s, shared (c s).2 = shared s /\ others (c s).2 = others s) -> asks P c.
Proof.
  intros [H|H] s; [|apply acts_refl; apply H].
  destruct (H (shared s) (others s) (challenges s) s) as (H1 & H2 & _); [by repeat split|]. by apply acts_refl.
Qed.
Lemma asks_bind {A B} P (c : M A) (k : A -> M B) : asks P c -> (forall a, asks P (k a)) -> asks P (se_bind c k).
Proof.
  intros Hc Hk s. unfold se_bind. specialize (Hc s). destruct (c s) as [[a|e] s1]; [|done]. eapply acts_trans; [exact Hc | apply Hk].
Qed.
Lemma asks_ret {A} P (r : result SessionError A) : asks P (se_ret r).
Proof. intros s. by apply acts_refl. Qed.
Lemma asks_modify P f : (forall s, shared (f s) = shared s /\ others (f s) = others s) -> asks P (modify f).
Proof. intros H s. apply acts_refl; apply H. Qed.
Lemma asks_send_text P f : asks P (send_text f).
Proof. apply asks_untouched. left. intros. apply keeps_send_text. Qed.
Lemma asks_next_request P : asks P (next_request json_error).
Proof. apply asks_untouched. left. intros. apply keeps_next_request. Qed.
Lemma asks_refuse P rid e r : asks P (refuse_handshake rid e r).
Proof. unfold refuse_handshake. apply asks_bind; [apply asks_send_text|]. intros _. apply asks_bind; [by apply asks_modify|]. intros _. apply asks_ret. Qed.

(** The device has signed the challenge drawn for this session. *)
Definition proven (s : Session) (dev : bytes) : Prop :=
  exists challenge sig, head (challenges s) = Some (Some challenge) /\
    verify_device_signature (ServerIdentity_public_key identity) challenge dev sig = Ok tt.
Definition is_register (dev : bytes) (r : ServiceRequest) : Prop := match r with Register d _ _ => d = dev | _ => False end.

Lemma authenticate_device_acts hello_id dev now s :
  acts (fun r => proven s dev /\ is_register dev r) s (authenticate_device config identity json_error hello_id dev now s).2.
Proof.
  unfold authenticate_device, se_bind at 1.
  assert (forall P, asks P random_session_challenge) as Hch by (intros P s0; by apply acts_refl).
  pose proof (Hch (fun r => proven s dev /\ is_register dev r) s) as Hc.
  destruct (random_session_challenge s) as [[challenge|e] s1] eqn:Ec; [|done]. cbn [snd] in Hc.
  apply challenge_drawn in Ec as (_ & Hdrawn & _). eapply acts_trans; [exact Hc|]. clear Hc. cbn [snd].
  match goal with |- acts ?P s1 (?c s1).2 => enough (asks P c) as H by apply H end.
  apply asks_bind; [apply asks_send_text|]. intros _. apply asks_bind; [apply asks_next_request|].
  intros [[auth_id c]|]; [|apply asks_ret]. destruct c; try apply asks_refuse.
  destruct (decode_signature signature) as [sig|] eqn:Es; [|apply asks_refuse].
  destruct (verify_device_signature _ challenge dev sig) as [[]|] eqn:Ev; [|apply asks_refuse]. cbn [is_ok negb].
  intros s2. pose proof (service_call_acts (fun r => proven s dev /\ is_register dev r) (Register dev display_name now) s2) as Hr.
  destruct (service_call config _ s2) as [[res|e] s3]; (eapply acts_trans; [apply Hr; split; [|done]; exists challenge, sig; split; [by rewrite Hdrawn | exact Ev]|]); cbn [snd].
  - match goal with |- acts ?P s3 (?c s3).2 => enough (asks P c) as H by apply H end.
    apply asks_bind; [apply asks_ret|]. intros i. apply asks_bind; [apply asks_send_text|]. intros _. apply asks_ret.
  - apply asks_refuse.
Qed.

Lemma authenticate_acts now s :
  exists dev, acts (fun r => proven s dev /\ is_register dev r) s (authenticate config identity json_error now s).2 /\
    forall who s', authenticate config identity json_error now s = (Ok (HandshakeDone who), s') -> au_device_public_key who = dev.
Proof.
  unfold authenticate, se_bind.
  pose proof (asks_next_request (fun _ => False) s) as Hn.
  assert (untouched (shared s) (others s) (challenges s) (next_request json_error s).2) as (_ & _ & He)
    by (apply keeps_next_request; by repeat split).
  destruct (next_request json_error s) as [[next|e] s1]; cbn [snd] in *.
  2: { exists []. split; [eapply acts_weaken; [|exact Hn]; done | done]. }
  destruct next as [[hello_id c]|].
  2: { exists []. split; [eapply acts_weaken; [|exact Hn]; done | done]. }
  assert (forall rid e r, acts (fun r => proven s [] /\ is_register [] r) s (refuse_handshake rid e r s1).2) as Href
    by (intros; eapply acts_trans; [eapply acts_weaken; [|exact Hn]; done | apply asks_refuse]).
  destruct c as [minimum maximum device| | | | | |]; try (exists []; split; [apply Href | by intros who s' ?%refuse_handshake_not_done]).
  destruct (_ || _); [exists []; split; [apply Href | by intros who s' ?%refuse_handshake_not_done]|].
  destruct (decode_key device) as [key|]; [|exists []; split; [apply Href | by intros who s' ?%refuse_handshake_not_done]].
  exists key. split.
  - eapply acts_trans; [eapply acts_weaken; [|exact Hn]; done|]. eapply acts_weaken; [|apply authenticate_device_acts].
    unfold proven. by rewrite He.
  - by intros who s' (-> & _)%authenticate_device_done.
Qed.
End Requests.

(** ** Subscribers *)

Section Subscribers.
Context {hex : Hex} {schnorr : Schnorr} {bech : Bech32} {ed : Ed25519}.
Context (config : ServiceConfig) (session_id : Z).

(** The session is subscribed to no account, or at most to one. *)
Definition absent (sv : Service) : Prop := forall a l, subscribers sv !! a = Some l -> session_id ∉ l.
Definition only_under (account : string) (sv : Service) : Prop :=
  forall a l, subscribers sv !! a = Some l -> session_id ∈ l -> a = account.

Definition foreign (r : ServiceRequest) : Prop := match r with Attach _ i => i <> session_id | _ => True end.

Lemma foreign_only_under account r sv : foreign r -> only_under account sv -> only_under account (handle config r sv).2.
Proof.
  intros Hr H. destruct r as [|a i|a i| |]; try exact H; intros b l; cbn [handle snd subscribers].
  - destruct (decide (b = a)) as [->|Hb]; [rewrite lookup_insert_eq | rewrite lookup_insert_ne by done; apply H].
    intros [= <-]. rewrite elem_of_app, list_elem_of_singleton. intros [Hin|Hin]; [|by destruct Hr].
    destruct (subscribers sv !! a) eqn:E; [by eapply H | by apply elem_of_nil in Hin].
  - destruct (subscribers sv !! a) as [l0|] eqn:E; [|apply H].
    destruct (_ =? 0); destruct (decide (b = a)) as [->|Hb];
      rewrite ?lookup_delete_eq, ?lookup_delete_ne, ?lookup_insert_eq, ?lookup_insert_ne by done; try apply H; [done|].
    intros [= <-] (_ & Hin)%list_elem_of_In%filter_In%and_comm. apply list_elem_of_In in Hin. by eapply H.
Qed.
Lemma foreign_serve account requests sv :
  Forall foreign requests -> only_under account sv -> only_under account (serve config requests sv).
Proof.
  unfold serve. revert sv. induction requests as [|r requests IH]; intros sv Hf H; [done|]. apply Forall_cons in Hf as [Hr Hf].
  cbn. apply IH; [done|]. by apply foreign_only_under.
Qed.
Lemma absent_only_under account sv : absent sv -> only_under account sv.
Proof. intros H a l Hl Hin. by destruct (H a l Hl). Qed.
Lemma attach_only_under account sv : absent sv -> only_under account (handle config (Attach account session_id) sv).2.
Proof.
  intros H b l. cbn. destruct (decide (b = account)) as [->|Hb]; [done|]. rewrite lookup_insert_ne by done.
  intros Hl Hin. by destruct (H b l Hl).
Qed.
Lemma detach_absent account sv : only_under account sv -> absent (handle config (Detach account session_id) sv).2.
Proof.
  intros H b l. cbn. destruct (subscribers sv !! account) as [l0|] eqn:E.
  - destruct (_ =? 0); destruct (decide (b = account)) as [->|Hb];
      rewrite ?lookup_delete_eq, ?lookup_delete_ne, ?lookup_insert_eq, ?lookup_insert_ne by done; try done;
      [by intros Hl ->%(H b l Hl) | | by intros Hl ->%(H b l Hl)].
    intros [= <-] Hin%list_elem_of_In%filter_In. destruct Hin as [_ Hin]. by rewrite Z.eqb_refl in Hin.
  - intros Hl Hin. assert (b = account) as -> by (by eapply H). congruence.
Qed.
Lemma absent_serve requests sv : Forall foreign requests -> absent sv -> absent (serve config requests sv).
Proof.
  intros Hf H a l Hl Hin. assert (forall account, a = account) as Hall.
  { intros account. eapply (foreign_serve account requests sv); [done | by apply absent_only_under | done | done]. }
  pose proof (Hall ""%string) as ->. by specialize (Hall "x"%string).
Qed.
End Subscribers.

(** ** Properties *)

Section Properties.
Context {hex : Hex} {json : Json} {schnorr : Schnorr} {bech : Bech32} {ed : Ed25519}.
Context (config : ServiceConfig) (identity : ServerIdentity) (json_error : string -> string).
Context (limits : SessionLimits) (session_id : Z).

Lemma acts_answer {A B} P (b : B) (m : M A) s : asks config P m -> acts config P s (let '(r, s1) := m s in (r, (b, s1))).2.2.
Proof. intros H. specialize (H s). by destruct (m s). Qed.

Lemma asks_text {A} P f (r : result SessionError A) : asks config P (let! _ := send_text f in se_ret r).
Proof. apply asks_bind; [apply asks_send_text | intros; apply asks_ret]. Qed.

Lemma handle_request_acts (P : ServiceRequest -> Prop) who b t t' now text s :
  (forall command, P (RunCommand (au_account_id who) (au_device_public_key who) command now)) ->
  acts config P s (handle_request config json_error who b t t' now text s).2.2.
Proof.
  intros HP. unfold handle_request. cbv zeta. destruct (parse_request json_error text) as [request|e]; [|apply acts_answer, asks_text].
  destruct (negb _); [apply acts_answer, asks_text|].
  destruct (take_token t t' b) as [[] b1]; cbn [negb]; [|apply acts_answer, asks_text].
  pose proof (service_call_acts config P _ s (HP (rq_command request))) as H.
  destruct (service_call config _ s) as [r s1]. eapply acts_trans; [exact H | apply acts_answer, asks_text].
Qed.

Lemma serve_step_acts (P : ServiceRequest -> Prop) who event l s :
  (forall command now, P (RunCommand (au_account_id who) (au_device_public_key who) command now)) ->
  acts config P s (serve_step config json_error limits who event l s).2.2.
Proof.
  intros HP. unfold serve_step. cbv zeta.
  assert (forall r, asks config P (let! _ := modify (set_reason r) in se_ret (Ok true))) as Hclose
    by (intros r; apply asks_bind; [by apply asks_modify | intros; apply asks_ret]).
  assert (forall f (k : unit -> M bool), asks config P (k tt) -> asks config P (let! u := send_text f in k u)) as Hsend
    by (intros f k Hk; apply asks_bind; [apply asks_send_text | by intros []]).
  destruct event as [[]|[frame|] lagged|[message|] received t t' now|at_instant];
    try (apply acts_answer; (apply Hclose || apply asks_ret)).
  - apply acts_answer, Hsend. destruct lagged; [apply Hsend, Hclose | apply asks_ret].
  - destruct message as [[text|payload| | |]|]; try (apply acts_answer; (apply Hclose || apply asks_ret)).
    + pose proof (handle_request_acts P who (bucket l) t t' now text (count_request s) (fun c => HP c now)) as H.
      destruct (handle_request _ _ _ _ _ _ _ _ _) as [[[]|e] [b s1]]; exact H.
    + apply acts_answer, asks_bind; [|intros; apply asks_ret]. apply asks_untouched. left. intros. apply keeps_socket_send.
    + apply acts_answer, Hsend, Hclose.
  - destruct (_ <=? _); apply acts_answer; (apply Hclose || apply asks_ret).
Qed.

Lemma serve_loop_acts (P : ServiceRequest -> Prop) who events : forall l s,
  (forall command now, P (RunCommand (au_account_id who) (au_device_public_key who) command now)) ->
  acts config P s (serve_loop config json_error limits who events l s).2.
Proof.
  induction events as [|event events IH]; intros l s HP; [by apply acts_refl|]. cbn [serve_loop].
  pose proof (serve_step_acts P who event l s HP) as H.
  destruct (serve_step _ _ _ _ _ _ _) as [[[]|e] [l1 s1]]; [done | | done]. eapply acts_trans; [exact H | by apply IH].
Qed.

(** The requests a session may make of the service for a device and an account. *)
Definition for_device (s : Session) (dev : bytes) (account : string) (r : ServiceRequest) : Prop :=
  proven identity s dev /\
  match r with
  | Register d _ _ => d = dev
  | Attach a i | Detach a i => a = account /\ i = session_id
  | RunCommand a d _ _ => a = account /\ d = dev
  | Service.Nip05 _ => False
  end.

Lemma attached_run_acts (P : ServiceRequest -> Prop) who sc s :
  (forall command now, P (RunCommand (au_account_id who) (au_device_public_key who) command now)) ->
  P (Attach (au_account_id who) session_id) -> P (Detach (au_account_id who) session_id) ->
  acts config P s (attached_run config json_error limits session_id who sc s).2.
Proof.
  intros HP HA HD. unfold attached_run. pose proof (service_call_acts config P _ s HA) as H1.
  destruct (service_call config (Attach _ _) s) as [[v|e] s1]; [|done]. eapply acts_trans; [exact H1|]. cbn [snd].
  pose proof (serve_loop_acts P who (sc_events sc) (loop_new limits (sc_started sc)) s1 HP) as H2.
  destruct (serve_loop _ _ _ _ _ _ s1) as [[r|] s2]; [|done]. cbn [snd] in *. eapply acts_trans; [exact H2|].
  by apply service_call_acts.
Qed.

(** What other sessions queued, and this one asks, leaves it under its account only. *)
Lemma acts_only_under account (P : ServiceRequest -> Prop) s s' :
  acts config P s s' -> (forall r, P r -> foreign session_id r) -> Forall (foreign session_id) (concat (others s)) ->
  only_under session_id account (shared s) -> only_under session_id account (shared s').
Proof.
  intros [_ (rs & -> & Hr)] HP Ho H. apply foreign_serve; [|done]. apply Forall_forall. intros r Hin.
  destruct (Hr r Hin) as [Hc|Hc]; [|by apply HP]. by eapply Forall_forall in Ho.
Qed.
Lemma acts_absent (P : ServiceRequest -> Prop) s s' :
  acts config P s s' -> (forall r, P r -> foreign session_id r) -> Forall (foreign session_id) (concat (others s)) ->
  absent session_id (shared s) -> absent session_id (shared s').
Proof.
  intros [_ (rs & -> & Hr)] HP Ho H. apply absent_serve; [|done]. apply Forall_forall. intros r Hin.
  destruct (Hr r Hin) as [Hc|Hc]; [|by apply HP]. by eapply Forall_forall in Ho.
Qed.
Lemma foreign_suffix o o' : o' `suffix_of` o -> Forall (foreign session_id) (concat o) -> Forall (foreign session_id) (concat o').
Proof. intros [k ->]. rewrite concat_app, Forall_app. by intros []. Qed.

Lemma service_call_shared request s :
  shared (service_call config request s).2 = (handle config request (serve config (default [] (head (others s))) (shared s))).2.
Proof. unfold service_call. by destruct (handle config request _). Qed.
Lemma foreign_head o : Forall (foreign session_id) (concat o) -> Forall (foreign session_id) (default [] (head o)).
Proof. destruct o; [done|]. cbn. rewrite Forall_app. by intros []. Qed.

(** A session that served and ended is not subscribed any more. *)
Lemma attached_run_absent who sc s r s' :
  absent session_id (shared s) -> Forall (foreign session_id) (concat (others s)) ->
  attached_run config json_error limits session_id who sc s = (Some r, s') -> absent session_id (shared s').
Proof.
  intros Ha Ho. unfold attached_run.
  assert (only_under session_id (au_account_id who) (shared (service_call config (Attach (au_account_id who) session_id) s).2)) as H1
    by (rewrite service_call_shared; by apply attach_only_under, absent_serve, Ha; apply foreign_head).
  assert (acts config (fun _ => True) s (service_call config (Attach (au_account_id who) session_id) s).2) as [O1 _] by (by apply service_call_acts).
  assert ((service_call config (Attach (au_account_id who) session_id) s).1 = Ok JNull) as E1 by done.
  destruct (service_call config (Attach _ _) s) as [v s1]. cbn [fst snd] in *. subst v. cbv iota.
  pose proof (serve_loop_acts (fun r => match r with RunCommand _ _ _ _ => True | _ => False end) who (sc_events sc)
    (loop_new limits (sc_started sc)) s1 ltac:(done)) as H2.
  destruct (serve_loop _ _ _ _ _ _ s1) as [[r'|] s2]; [|done]. intros H3.
  assert (s' = (service_call config (Detach (au_account_id who) session_id) s2).2) as -> by congruence. rewrite service_call_shared.
  apply (foreign_suffix _ _ O1) in Ho. apply detach_absent, foreign_serve.
  - apply foreign_head. destruct H2 as [O2 _]. by apply (foreign_suffix _ _ O2).
  - eapply acts_only_under; [exact H2 | by intros [] | done | done].
Qed.

(** Only the run itself marks the report as authenticated. *)
Definition unmarked (s : Session) : Prop := authenticated (report s) = false.
Lemma unmarked_send f : keeps unmarked (send_text f).
Proof. unfold send_text. destruct (_ <? _); [apply keeps_ret|]. intros s H. unfold socket_send. by destruct (send_faults s) as [|[]]. Qed.
Lemma unmarked_pong b : keeps unmarked (socket_send b).
Proof. intros s H. unfold socket_send. by destruct (send_faults s) as [|[]]. Qed.
Lemma unmarked_next l : keeps unmarked (next_request_from json_error l).
Proof.
  assert (forall f, (forall s, authenticated (report (f s)) = authenticated (report s)) -> keeps unmarked (modify f)) as Hm
    by (intros f H s Hs; unfold unmarked; cbn; by rewrite H).
  induction l as [|[message|] l IH]; cbn [next_request_from]; (apply keeps_bind; [by apply Hm|]); intros _; try apply keeps_ret.
  destruct message; try apply keeps_ret; try exact IH.
  - apply keeps_bind; [by apply Hm|]. intros _. destruct (parse_request json_error t); [destruct (_ =? _); [apply keeps_ret|]|];
      (apply keeps_bind; [apply unmarked_send|]; intros _; apply keeps_bind; [by apply Hm|]; intros _; apply keeps_ret).
  - apply keeps_bind; [apply unmarked_pong | by intros _].
  - apply keeps_bind; [by apply Hm|]. intros _. apply keeps_ret.
  - apply keeps_bind; [apply unmarked_send|]. intros _. apply keeps_bind; [by apply Hm|]. intros _. apply keeps_ret.
Qed.
Lemma unmarked_refuse rid e r : keeps unmarked (refuse_handshake rid e r).
Proof. unfold refuse_handshake. apply keeps_bind; [apply unmarked_send|]. intros _. apply keeps_bind; [by intros s H|]. intros _. apply keeps_ret. Qed.
Lemma unmarked_authenticate now : keeps unmarked (authenticate config identity json_error now).
Proof.
  assert (keeps unmarked (next_request json_error)) as Hn by (intros s H; by apply unmarked_next).
  unfold authenticate. apply keeps_bind; [exact Hn|]. intros [[hello_id c]|]; [|apply keeps_ret].
  destruct c as [minimum maximum device| | | | | |]; try apply unmarked_refuse. destruct (_ || _); [apply unmarked_refuse|].
  destruct (decode_key device) as [key|]; [|apply unmarked_refuse]. unfold authenticate_device.
  apply keeps_bind; [by intros s H|]. intros challenge. apply keeps_bind; [apply unmarked_send|]. intros _.
  apply keeps_bind; [exact Hn|]. intros [[auth_id c]|]; [|apply keeps_ret]. destruct c; try apply unmarked_refuse.
  destruct (negb _); [apply unmarked_refuse|]. intros s H.
  assert (unmarked (service_call config (Register key display_name now) s).2) as Hs
    by (unfold service_call; by destruct (handle _ _ _)).
  destruct (service_call config _ s) as [[res|e] s1]; [|by apply unmarked_refuse].
  revert s1 Hs. match goal with |- forall s1, _ -> unmarked (?c s1).2 => change (keeps unmarked c) end.
  apply keeps_bind; [apply keeps_ret|]. intros i. apply keeps_bind; [apply unmarked_send|]. intros _. apply keeps_ret.
Qed.

(** The handshake, cut off by its time limit or not. *)
Lemma deadline_acts deadline now s :
  exists dev, acts config (fun r => proven identity s dev /\ is_register dev r) s
      (with_deadline deadline (authenticate config identity json_error now) s).2 /\
    forall who s', with_deadline deadline (authenticate config identity json_error now) s = (Ok (HandshakeDone who), s') ->
      authenticate config identity json_error now s = (Ok (HandshakeDone who), s') /\ au_device_public_key who = dev.
Proof.
  unfold with_deadline. destruct (authenticate_acts config identity json_error now s) as (dev & H & Hd).
  destruct (authenticate config identity json_error now s) as [r s1] eqn:E. cbn [snd] in H.
  destruct deadline as [k|]; [destruct (_ <=? _)%nat|]; try (exists dev; split; [exact H | intros who s' [= -> ->]; eauto]).
  destruct (authenticate_acts config identity json_error now (with_incoming (take k (incoming s)) s)) as (dev' & H' & _).
  exists dev'. split; [|done]. eapply acts_trans; [|by apply acts_refl]. exact H'.
Qed.
Lemma deadline_unmarked deadline now : keeps unmarked (with_deadline deadline (authenticate config identity json_error now)).
Proof.
  intros s H. unfold with_deadline. pose proof (unmarked_authenticate now s H) as H1.
  pose proof (fun k => unmarked_authenticate now (with_incoming (take k (incoming s)) s) H) as H2.
  destruct (authenticate config identity json_error now s) as [r s1]. destruct deadline as [k|]; [|done].
  destruct (_ <=? _)%nat; [done | exact (H2 k)].
Qed.

Lemma mark_failed_acts P e s s' : acts config P s s' -> acts config P s (mark_failed e s').
Proof. intros H. eapply acts_trans; [exact H | by apply acts_refl]. Qed.

Lemma for_device_register s dev account r : proven identity s dev /\ is_register dev r -> for_device s dev account r.
Proof. intros [H1 H2]. split; [done|]. by destruct r. Qed.

(** The whole run: what it asked of the service, and for whom. *)
Lemma session_run_acts sc s out s' :
  unmarked s -> session_run config identity json_error limits session_id sc s = (out, s') ->
  exists dev account, acts config (for_device s dev account) s s' /\
    (authenticated (report s') = true -> exists s1 row, acts config (for_device s dev account) s s1 /\
       devices (db (storage (shared s1))) !! dev = Some row /\ d_account_id row = account).
Proof.
  intros Hu. unfold session_run.
  assert (forall P, acts config P s s) as Hrefl by (intros; by apply acts_refl).
  destruct (sc_admission sc); try (intros [= _ <-]; exists [], ""%string; split; [apply Hrefl | by rewrite Hu]).
  destruct (deadline_acts (sc_deadline sc) (sc_now sc) s) as (dev & Ha & Hd).
  pose proof (deadline_unmarked (sc_deadline sc) (sc_now sc) s Hu) as Hu'.
  destruct (with_deadline _ _ s) as [[[who|]|e] s1]; cbn [snd] in *;
    try (intros [= _ <-]; exists dev, ""%string; split; [eapply acts_weaken; [|exact Ha]; apply for_device_register | by rewrite Hu']).
  destruct (Hd _ _ eq_refl) as [Hauth <-]. apply authenticate_signed in Hauth as (challenge & sig & Hc & _ & Hv & row & Hrow & Hacc).
  assert (proven identity s (au_device_public_key who)) as Hp by (exists challenge, sig; by rewrite Hc).
  intros E. exists (au_device_public_key who), (au_account_id who).
  assert (acts config (for_device s (au_device_public_key who) (au_account_id who)) s (mark_authenticated s1)) as H1.
  { eapply acts_trans; [eapply acts_weaken; [|exact Ha]; apply for_device_register | by apply acts_refl]. }
  split; [|intros _; by exists (mark_authenticated s1), row].
  eapply acts_trans; [exact H1|].
  pose proof (attached_run_acts (for_device s (au_device_public_key who) (au_account_id who)) who sc (mark_authenticated s1)) as H2.
  rewrite E in H2. by apply H2.
Qed.

Lemma session_run_absent sc s r s' :
  absent session_id (shared s) -> Forall (foreign session_id) (concat (others s)) ->
  session_run config identity json_error limits session_id sc s = (Some r, s') -> absent session_id (shared s').
Proof.
  intros Ha Ho. unfold session_run. destruct (sc_admission sc); try (by intros [= _ <-]).
  destruct (deadline_acts (sc_deadline sc) (sc_now sc) s) as (dev & Hacts & _).
  destruct (with_deadline _ _ s) as [x s1]. cbn [snd] in Hacts.
  assert (absent session_id (shared s1)) as H1
    by (eapply acts_absent; [exact Hacts | intros r0 [_ H]; by destruct r0 | done | done]).
  apply (foreign_suffix _ _ (proj1 Hacts)) in Ho.
  destruct x as [[who|]|e]; try (by intros [= _ <-]). by apply attached_run_absent.
Qed.

(** C24: A connection gets to do what its device proved it may. Whatever is sent on it, whichever
    writes fail and whatever other sessions ask meanwhile, the requests it makes of the
    service are all for one device, which signed the challenge drawn for this connection, and
    for the account the database held for that device. And when the session has ended,
    however it ended, it is subscribed to nothing. *)
Theorem session_acts_for_device sc s out s' :
  authenticated (report s) = false -> run_session config identity json_error limits session_id sc s = (out, s') ->
  (exists dev account, acts config (for_device s dev account) s s' /\
    (authenticated (report s') = true -> exists s1 row, acts config (for_device s dev account) s s1 /\
       devices (db (storage (shared s1))) !! dev = Some row /\ d_account_id row = account)) /\
  (is_Some out -> absent session_id (shared s) -> Forall (foreign session_id) (concat (others s)) ->
   absent session_id (shared s')).
Proof using Type.
  intros Hu. unfold run_session. destruct (session_run _ _ _ _ _ sc s) as [r s1] eqn:E.
  destruct (session_run_acts _ _ _ _ Hu E) as (dev & account & Ha & Hm).
  assert (is_Some r -> absent session_id (shared s) -> Forall (foreign session_id) (concat (others s)) -> absent session_id (shared s1)) as Habs
    by (intros [x ->]; intros; by eapply session_run_absent).
  destruct r as [[[]|e]|]; intros [= <- <-]; (split; [exists dev, account; split; [auto using mark_failed_acts | exact Hm]|]).
  - intros _. apply Habs. by eexists.
  - intros _. apply Habs. by eexists.
  - by intros [x Hx].
Qed.
End Properties.

(** ** Witnesses *)

(** A device that authenticates, asks for its status, and leaves. *)
Definition sample_script : Script := {|
  sc_admission := Upgrades; sc_deadline := None; sc_now := 500; sc_started := 0;
  sc_events := [Incoming (Some (Some (Text (sample_text "q" "status" JNull)))) 5 5 6 500; Incoming (Some (Some Close)) 7 7 7 501] |}.

Lemma session_acts_for_device_witness :
  let s' := (run_session sample_config sample_identity (fun _ => ""%string) SessionLimits_default 3 sample_script sample_session).2 in
  authenticated (report s') = true /\ requests (report s') = 3 /\ absent 3 (shared s') /\
  exists dev account row s1, devices (db (storage (shared s1))) !! dev = Some row /\ d_account_id row = account.
Proof.
  set (run := run_session sample_config sample_identity (fun _ => ""%string) SessionLimits_default 3 sample_script sample_session).
  assert (authenticated (report run.2) = true) as H1 by (vm_compute; reflexivity).
  assert (requests (report run.2) = 3) as H2 by (vm_compute; reflexivity).
  assert (is_ok (ok_or tt run.1) = true) as H3 by (vm_compute; reflexivity).
  split; [exact H1|]. split; [exact H2|].
  destruct (session_acts_for_device sample_config sample_identity (fun _ => ""%string) SessionLimits_default 3 sample_script
    sample_session run.1 run.2 eq_refl (surjective_pairing run)) as [(dev & account & _ & Hm) Habs].
  split.
  - apply Habs; [destruct run.1; [eexists; reflexivity | discriminate H3] | intros a l H; discriminate H | constructor].
  - destruct (Hm H1) as (s1 & row & _ & Hd & Ha). exists dev, account, row, s1. exact (conj Hd Ha).
Defined.
