(* ===== verification/Host.v ===== *)
(** * The server host ([omachat-server/src/host.rs])

    The accept loop admits connections up to a global limit and a limit per address,
    runs a session for each, and counts what happened; at shutdown it waits for the
    sessions that are left. *)

From Stdlib Require Import Strings.Byte Ascii String.
From S2P Require Import Prelude RustStd Libs Session.
Local Open Scope Z_scope.

(** ** Limits and the report *)

Record HostLimits := {
  max_connections : Z; max_connections_per_ip : Z; session : SessionLimits; shutdown_grace : Z
}.

Definition HostLimits_default : HostLimits :=
  {| max_connections := 1024; max_connections_per_ip := 32; session := SessionLimits_default;
     shutdown_grace := from_secs 10 |}.

Inductive HostError := InvalidLimits | Listener | NonLoopbackListener (ip : IpAddr).

Definition HostLimits_validate (l : HostLimits) : result HostError HostLimits :=
  fail_if (max_connections l =? 0) || (max_connections_per_ip l =? 0)
    || (max_connections l <? max_connections_per_ip l)
    || (admission_timeout (session l) =? 0) || (unauthenticated_timeout (session l) =? 0)
    || (idle_timeout (session l) =? 0) || (requests_per_second (session l) =? 0)
    || (request_burst (session l) =? 0) || (shutdown_grace l =? 0)
    with InvalidLimits ;;
  Ok l.

Record HostReport := {
  admitted_connections : Z; rejected_global_limit : Z; rejected_per_ip_limit : Z;
  authenticated_sessions : Z; failed_sessions : Z; lagged_sessions : Z;
  forced_shutdown : bool; aborted_connections : Z
}.

Definition HostReport_default : HostReport :=
  {| admitted_connections := 0; rejected_global_limit := 0; rejected_per_ip_limit := 0;
     authenticated_sessions := 0; failed_sessions := 0; lagged_sessions := 0;
     forced_shutdown := false; aborted_connections := 0 |}.

(** [x += 1] on a 64-bit counter *)
Definition incr (x : Z) : Z := (x + 1) mod (u64_max + 1).
Definition incr_if (b : bool) (x : Z) : Z := if b then incr x else x.

Definition count_report (admitted global per_ip auth failed lagged : bool) (r : HostReport) : HostReport :=
  {| admitted_connections := incr_if admitted (admitted_connections r);
     rejected_global_limit := incr_if global (rejected_global_limit r);
     rejected_per_ip_limit := incr_if per_ip (rejected_per_ip_limit r);
     authenticated_sessions := incr_if auth (authenticated_sessions r);
     failed_sessions := incr_if failed (failed_sessions r);
     lagged_sessions := incr_if lagged (lagged_sessions r);
     forced_shutdown := forced_shutdown r; aborted_connections := aborted_connections r |}.

(** ** The accept loop

    [running] is the join set: the session and its peer. *)
Record Host := {
  running : list (Z * IpAddr);
  active_by_ip : gmap IpAddr Z;
  active_total : Z;
  next_session_id : Z;
  host_report : HostReport
}.

Definition Host_new : Host :=
  {| running := []; active_by_ip := ∅; active_total := 0; next_session_id := 1;
     host_report := HostReport_default |}.

Definition ip_count (ip : IpAddr) (m : gmap IpAddr Z) : Z := default 0 (m !! ip).

(** The [accept] branch of the loop. *)
Definition accept_connection (limits : HostLimits) (ip : IpAddr) (h : Host) : Host :=
  let refused (global per_ip : bool) :=
    {| running := running h; active_by_ip := active_by_ip h; active_total := active_total h;
       next_session_id := next_session_id h;
       host_report := count_report false global per_ip false false false (host_report h) |} in
  if max_connections limits <=? active_total h then refused true false
  else if max_connections_per_ip limits <=? ip_count ip (active_by_ip h) then refused false true
  else
    {| running := running h ++ [(next_session_id h, ip)];
       active_by_ip := <[ip := ip_count ip (active_by_ip h) + 1]> (active_by_ip h);
       active_total := active_total h + 1;
       next_session_id := incr (next_session_id h);
       host_report := count_report true false false false false false (host_report h) |}.

Definition release (ip : IpAddr) (active_by_ip : gmap IpAddr Z) (active_total : Z) : gmap IpAddr Z * Z :=
  (match active_by_ip !! ip with
   | Some count =>
       let count := saturating_sub count 1 in
       if count =? 0 then delete ip active_by_ip else <[ip := count]> active_by_ip
   | None => active_by_ip
   end,
   saturating_sub active_total 1).

Definition is_lagged (r : CloseReason) : bool := match r with Lagged => true | _ => false end.

(** [finish], on a task that left the join set; [None] is a task that panicked. *)
Definition finish (joined : option (IpAddr * SessionReport)) (h : Host) : Host :=
  match joined with
  | Some (ip, r) =>
      let '(by_ip, total) := release ip (active_by_ip h) (active_total h) in
      {| running := running h; active_by_ip := by_ip; active_total := total;
         next_session_id := next_session_id h;
         host_report := count_report false false false (authenticated r)
           (match error r with Some _ => true | None => false end)
           (is_lagged (reason r)) (host_report h) |}
  | None =>
      {| running := running h; active_by_ip := active_by_ip h;
         active_total := saturating_sub (active_total h) 1; next_session_id := next_session_id h;
         host_report := count_report false false false false true false (host_report h) |}
  end.

(** [sessions.join_next()] yields the session at [index], with its report or a panic. *)
Definition join (index : nat) (outcome : option SessionReport) (h : Host) : Host :=
  match running h !! index with
  | Some (_, ip) =>
      finish (pair ip <$> outcome)
        {| running := delete index (running h); active_by_ip := active_by_ip h;
           active_total := active_total h; next_session_id := next_session_id h;
           host_report := host_report h |}
  | None => h
  end.

Inductive HostEvent :=
| Accepted (ip : IpAddr)
| AcceptFailed
| Joined (index : nat) (outcome : option SessionReport).

Definition host_step (limits : HostLimits) (e : HostEvent) (h : Host) : result HostError Host :=
  match e with
  | Accepted ip => Ok (accept_connection limits ip h)
  | AcceptFailed => Err Listener
  | Joined index outcome => Ok (join index outcome h)
  end.

Fixpoint host_loop (limits : HostLimits) (events : list HostEvent) (h : Host) : result HostError Host :=
  match events with
  | [] => Ok h
  | e :: events => let? h := host_step limits e h in host_loop limits events h
  end.

(** After the shutdown signal: the sessions that end within the grace period, and
    whether it ran out first. *)
Definition drain (joins : list (nat * option SessionReport)) (h : Host) : Host :=
  fold_left (fun h j => join j.1 j.2 h) joins h.

Definition run_host (local : IpAddr) (limits : HostLimits) (events : list HostEvent)
    (joins : list (nat * option SessionReport)) (expired : bool) : result HostError HostReport :=
  let? limits := HostLimits_validate limits in
  fail_if negb (is_loopback local) with NonLoopbackListener local ;;
  let? h := host_loop limits events Host_new in
  let h := drain joins h in
  let r := host_report h in
  Ok (if expired then
        {| admitted_connections := admitted_connections r;
           rejected_global_limit := rejected_global_limit r;
           rejected_per_ip_limit := rejected_per_ip_limit r;
           authenticated_sessions := authenticated_sessions r;
           failed_sessions := failed_sessions r; lagged_sessions := lagged_sessions r;
           forced_shutdown := true; aborted_connections := active_total h |}
      else r).

(** ** Invariant

    [lost ip] slots of an address belong to sessions that panicked. *)

Definition peers (ip : IpAddr) (h : Host) : Z := zlen (filter (fun s => s.2 = ip) (running h)).

Record host_ok (limits : HostLimits) (lost : IpAddr -> Z) (h : Host) : Prop := {
  ho_total : active_total h = zlen (running h);
  ho_global : zlen (running h) <= max_connections limits;
  ho_count ip : ip_count ip (active_by_ip h) = peers ip h + lost ip;
  ho_per_ip ip : ip_count ip (active_by_ip h) <= max_connections_per_ip limits;
  ho_lost ip : 0 <= lost ip
}.

Definition one_if (P : Prop) `{Decision P} : Z := if decide P then 1 else 0.

Lemma zlen_filter_cons ip (s : Z * IpAddr) l :
  zlen (filter (fun s => s.2 = ip) (s :: l)) = one_if (s.2 = ip) + zlen (filter (fun s => s.2 = ip) l).
Proof. unfold one_if, zlen. rewrite filter_cons. destruct (decide _); cbn [length]; lia. Qed.

Lemma zlen_filter_delete ip l index s :
  l !! index = Some s ->
  zlen (filter (fun s => s.2 = ip) l) =
  one_if (s.2 = ip) + zlen (filter (fun s : Z * IpAddr => s.2 = ip) (delete index l)).
Proof.
  intros H. rewrite <- zlen_filter_cons. unfold zlen.
  apply delete_Permutation in H. by rewrite <- H.
Qed.

Lemma zlen_delete {A} (l : list A) index s : l !! index = Some s -> zlen (delete index l) = zlen l - 1.
Proof.
  intros H. pose proof (lookup_lt_Some _ _ _ H). unfold zlen. rewrite length_delete by done. lia.
Qed.

Lemma ip_count_insert ip ip' c m :
  ip_count ip (<[ip' := c]> m) = if decide (ip' = ip) then c else ip_count ip m.
Proof.
  unfold ip_count. destruct (decide (ip' = ip)) as [->|]; by rewrite ?lookup_insert_eq, ?lookup_insert_ne.
Qed.

Lemma ip_count_delete ip ip' m :
  ip_count ip (delete ip' m) = if decide (ip' = ip) then 0 else ip_count ip m.
Proof.
  unfold ip_count. destruct (decide (ip' = ip)) as [->|]; by rewrite ?lookup_delete_eq, ?lookup_delete_ne.
Qed.

Lemma accept_ok limits lost ip h : host_ok limits lost h -> host_ok limits lost (accept_connection limits ip h).
Proof.
  intros [H1 H2 H3 H4 H5]. unfold accept_connection.
  destruct (_ <=? _) eqn:E1; [by split|]. destruct (max_connections_per_ip limits <=? _) eqn:E2; [by split|].
  split_bools. split; unfold peers; cbn [running active_by_ip active_total].
  - rewrite zlen_app. unfold zlen at 2; cbn [length]. lia.
  - rewrite zlen_app. unfold zlen at 2; cbn [length]. lia.
  - intros ip'. rewrite ip_count_insert, filter_app, zlen_app, zlen_filter_cons, !H3. unfold peers, one_if.
    cbn [snd]. change (zlen (filter _ [])) with 0. destruct (decide (ip = ip')) as [->|]; lia.
  - intros ip'. rewrite ip_count_insert. destruct (decide (ip = ip')) as [->|]; [lia | apply H4].
  - exact H5.
Qed.

Lemma release_count ip ip' m :
  ip_count ip' (release ip m 0).1 =
  if decide (ip = ip') then Z.max 0 (ip_count ip' m - 1) else ip_count ip' m.
Proof.
  unfold release; cbn [fst]. destruct (m !! ip) as [c|] eqn:E.
  - unfold saturating_sub. destruct (_ =? 0) eqn:Ez; split_bools;
      rewrite ?ip_count_delete, ?ip_count_insert; destruct (decide (ip = ip')) as [<-|]; try done;
      unfold ip_count; rewrite E; cbn; lia.
  - destruct (decide (ip = ip')) as [<-|]; [|done]. unfold ip_count. by rewrite E.
Qed.

(** A session that ends takes its slot with it unless it panicked. *)
Lemma join_ok limits lost index outcome h :
  host_ok limits lost h ->
  host_ok limits
    (fun ip => lost ip + one_if (outcome = None /\ (running h !! index) ≫= (fun s => Some s.2) = Some ip))
    (join index outcome h).
Proof.
  intros [H1 H2 H3 H4 H5]. unfold join. destruct (running h !! index) as [[i ip]|] eqn:E.
  2: { split; try done; intros ip; unfold one_if; rewrite ?H3; destruct (decide _) as [[_ F]|]; try done;
       [lia | by rewrite Z.add_0_r]. }
  pose proof (zlen_delete _ _ _ E) as Hl.
  assert (forall ip', peers ip' h = one_if (ip = ip') +
    zlen (filter (fun s : Z * IpAddr => s.2 = ip') (delete index (running h)))) as Hp.
  { intros ip'. unfold peers. by rewrite (zlen_filter_delete ip' _ _ _ E). }
  pose proof (fun ip' => zlen_nonneg (filter (fun s : Z * IpAddr => s.2 = ip') (delete index (running h)))) as Hn.
  pose proof (zlen_nonneg (delete index (running h))) as Hd.
  destruct outcome as [r|]; 
    cbn [fmap option_fmap option_map finish mbind option_bind snd active_by_ip active_total].
  - destruct (release ip (active_by_ip h) (active_total h)) as [m t] eqn:Er.
    assert (forall ip', ip_count ip' m = if decide (ip = ip') then Z.max 0 (ip_count ip' (active_by_ip h) - 1)
      else ip_count ip' (active_by_ip h)) as Hm.
    { intros ip'. rewrite <- release_count. by injection Er as <- _. }
    assert (t = saturating_sub (active_total h) 1) as -> by (by injection Er as _ <-).
    split; unfold peers; cbn [running active_by_ip active_total]; unfold saturating_sub.
    + lia.
    + lia.
    + intros ip'. rewrite Hm, H3, Hp. specialize (Hn ip'). specialize (H5 ip').
      unfold one_if. destruct (decide (ip = ip')), (decide (Some r = None /\ _)) as [[? _]|]; try done; lia.
    + intros ip'. rewrite Hm. specialize (H4 ip'). specialize (H3 ip'). rewrite Hp in H3.
      specialize (Hn ip'). specialize (H5 ip'). unfold one_if in H3.
      destruct (decide (ip = ip')); lia.
    + intros ip'. specialize (H5 ip'). unfold one_if. destruct (decide _); lia.
  - split; unfold peers; cbn [running active_by_ip active_total]; unfold saturating_sub.
    + lia.
    + lia.
    + intros ip'. rewrite H3, Hp. unfold one_if.
      destruct (decide (ip = ip')) as [->|N]; [rewrite decide_True by done; lia|].
      rewrite decide_False by (intros [_ [= F]]; done). lia.
    + exact H4.
    + intros ip'. specialize (H5 ip'). unfold one_if. destruct (decide _); lia.
Qed.

Definition no_panic_event (e : HostEvent) : Prop := match e with Joined _ None => False | _ => True end.

(** Along a run the invariant holds, and without panics no slot is lost. *)
Lemma host_loop_ok limits events : forall lost h h',
  host_ok limits lost h -> host_loop limits events h = Ok h' ->
  exists lost', host_ok limits lost' h' /\ (forall ip, lost ip <= lost' ip) /\
    (Forall no_panic_event events -> forall ip, lost' ip = lost ip).
Proof.
  induction events as [|e events IH]; intros lost h h' Hok H; 
    [injection H as <-; exists lost; split_and!; [done | lia | done]|].
  cbn [host_loop] in H. apply rbind_ok_inv in H as (h1 & H1 & H2).
  destruct e as [ip| |index outcome]; cbn [host_step] in H1; [|done|]; injection H1 as <-.
  - destruct (IH _ _ _ (accept_ok _ _ ip _ Hok) H2) as (lost' & A & B & C).
    exists lost'. split_and!; [done..|]. intros [_ F]%Forall_cons_1. by apply C.
  - destruct (IH _ _ _ (join_ok _ _ index outcome _ Hok) H2) as (lost' & A & B & C).
    exists lost'. split; [done|]. split.
    + intros ip. etrans; [|apply B]. unfold one_if. destruct (decide _); lia.
    + intros [Fe F]%Forall_cons_1 ip. rewrite C by done. unfold one_if.
      destruct (decide _) as [[-> _]|]; [done | lia].
Qed.

Lemma Host_new_ok limits :
  0 <= max_connections limits -> 0 <= max_connections_per_ip limits -> host_ok limits (fun _ => 0) Host_new.
Proof. split; try done; intros ip; by rewrite ?Z.add_0_r. Qed.

(** Session numbers: all those handed out are at most [n], the last one. *)
Record ids_ok (n : Z) (h : Host) : Prop := {
  io_next : next_session_id h = n + 1;
  io_range i ip : (i, ip) ∈ running h -> 1 <= i <= n;
  io_nodup : NoDup (map fst (running h))
}.

Lemma accept_ids limits ip n h :
  ids_ok n h -> n + 2 <= u64_max -> 0 <= n ->
  exists n', n <= n' <= n + 1 /\ ids_ok n' (accept_connection limits ip h).
Proof.
  intros [H1 H2 H3] Hn H0. unfold accept_connection. destruct (_ <=? _); [exists n; split; [lia | by split]|].
  destruct (_ <=? _); [exists n; split; [lia | by split]|]. exists (n + 1). split; [lia|].
  split; cbn [next_session_id running].
  - rewrite H1. unfold incr. apply Z.mod_small. lia.
  - intros i ip' [Hi|Hi]%elem_of_app; [specialize (H2 _ _ Hi); lia|].
    apply list_elem_of_singleton in Hi as [= -> ->]. lia.
  - rewrite map_app. apply NoDup_snoc; [exact H3|]. cbn. rewrite H1.
    intros ([i ip'] & E & Hi)%list_elem_of_fmap. cbn in E. specialize (H2 _ _ Hi). lia.
Qed.

Lemma join_ids index outcome n h : ids_ok n h -> ids_ok n (join index outcome h).
Proof.
  intros [H1 H2 H3]. unfold join. destruct (running h !! index) as [[j ip]|] eqn:E; [|by split].
  assert (ids_ok n {| running := delete index (running h); active_by_ip := active_by_ip h;
    active_total := active_total h; next_session_id := next_session_id h; host_report := host_report h |}) as [I1 I2 I3].
  { apply delete_Permutation in E. split; cbn [next_session_id running]; [done | |].
    - intros i ip' Hi. apply (H2 i ip'). rewrite E. by right.
    - apply (fmap_Permutation fst) in E. rewrite E in H3. cbn in H3. by apply NoDup_cons in H3 as [_ H3]. }
  destruct outcome; cbn [fmap option_fmap option_map finish]; [destruct (release _ _ _)|]; by split.
Qed.

Lemma host_loop_ids limits events : forall n h h',
  ids_ok n h -> 0 <= n -> n + zlen events + 1 <= u64_max -> host_loop limits events h = Ok h' ->
  exists n', ids_ok n' h'.
Proof.
  induction events as [|e events IH]; intros n h h' Hok H0 Hn H; [injection H as <-; eauto|].
  cbn [host_loop] in H. apply rbind_ok_inv in H as (h1 & H1 & H2). rewrite zlen_cons in Hn.
  pose proof (zlen_nonneg events).
  destruct e as [ip| |index outcome]; cbn [host_step] in H1; [|done|]; injection H1 as <-.
  - destruct (accept_ids limits ip n h Hok) as (n' & Hn' & Hok'); [lia..|].
    apply (IH n' _ _ Hok' ltac:(lia) ltac:(lia) H2).
  - apply (IH n _ _ (join_ids _ _ _ _ Hok) H0 ltac:(lia) H2).
Qed.

Lemma accept_running limits lost ip h :
  host_ok limits lost h ->
  running (accept_connection limits ip h) = running h ++ [(next_session_id h, ip)] <->
  zlen (running h) < max_connections limits /\ peers ip h + lost ip < max_connections_per_ip limits.
Proof.
  intros [H1 H2 H3 H4 H5]. unfold accept_connection. rewrite H1, H3.
  assert (forall x : Z * IpAddr, running h <> running h ++ [x]) as Hne.
  { intros x E%(f_equal zlen). rewrite zlen_app in E. unfold zlen in E. cbn [length] in E. lia. }
  destruct (max_connections limits <=? _) eqn:E1; [|destruct (max_connections_per_ip limits <=? _) eqn:E2];
    split_bools; cbn [running].
  - split; [intros F; by apply Hne in F | lia].
  - split; [intros F; by apply Hne in F | lia].
  - split; [lia | done].
Qed.

(** Nothing before the end of the shutdown sets the last two fields of the report. *)
Definition unfinished (h : Host) : Prop :=
  forced_shutdown (host_report h) = false /\ aborted_connections (host_report h) = 0.

Lemma join_unfinished index outcome h : unfinished h -> unfinished (join index outcome h).
Proof.
  unfold join. destruct (running h !! index) as [[i ip]|]; [|done].
  destruct outcome; cbn [fmap option_fmap option_map finish]; [destruct (release _ _ _)|]; done.
Qed.

Lemma host_loop_unfinished limits events : forall h h',
  unfinished h -> host_loop limits events h = Ok h' -> unfinished h'.
Proof.
  induction events as [|e events IH]; intros h h' Hu H; [by injection H as <-|].
  cbn [host_loop] in H. apply rbind_ok_inv in H as (h1 & H1 & H2). apply (IH h1); [|done].
  destruct e as [ip| |index outcome]; cbn [host_step] in H1; [|done|]; injection H1 as <-.
  - unfold accept_connection. by repeat destruct (_ <=? _).
  - by apply join_unfinished.
Qed.

Lemma drain_ok limits joins : forall lost h,
  host_ok limits lost h -> unfinished h ->
  exists lost', host_ok limits lost' (drain joins h) /\ unfinished (drain joins h).
Proof.
  induction joins as [|[index outcome] joins IH]; intros lost h Hok Hu; [by exists lost|].
  eapply IH; [by apply join_ok | by apply join_unfinished].
Qed.

(** ** Properties *)

(** C26: Whatever connections arrive and in whichever order sessions end, the host never
    runs more sessions than its global limit, nor more per address than its limit per
    address; its total is the number of running sessions, and running sessions have
    distinct numbers. As long as no session panicked, the count of an address is its
    number of running sessions, and the next connection is admitted exactly when both
    limits leave room. *)
Theorem host_admission limits events h :
  0 <= max_connections limits -> 0 <= max_connections_per_ip limits ->
  zlen events < u64_max ->
  host_loop limits events Host_new = Ok h ->
  active_total h = zlen (running h) /\ zlen (running h) <= max_connections limits /\
  (forall ip, peers ip h <= ip_count ip (active_by_ip h) <= max_connections_per_ip limits) /\
  NoDup (map fst (running h)) /\
  (Forall no_panic_event events -> forall ip,
     ip_count ip (active_by_ip h) = peers ip h /\
     (running (accept_connection limits ip h) = running h ++ [(next_session_id h, ip)] <->
      zlen (running h) < max_connections limits /\ peers ip h < max_connections_per_ip limits)).
Proof.
  intros Hg Hi He H.
  destruct (host_loop_ok _ _ _ _ _ (Host_new_ok limits ltac:(lia) ltac:(lia)) H) as (lost & Hok & Hl & Hp).
  destruct (host_loop_ids limits events 0 Host_new h) as (n & [_ _ Hd]); try done; try lia.
  { split; [done | set_solver | constructor]. }
  split; [apply Hok|]. split; [apply Hok|]. split_and!; [|done|].
  - intros ip. rewrite (ho_count _ _ _ Hok) at 1. pose proof (ho_per_ip _ _ _ Hok ip).
    pose proof (ho_count _ _ _ Hok ip). pose proof (ho_lost _ _ _ Hok ip). lia.
  - intros F ip. specialize (Hp F ip). rewrite (accept_running _ _ _ _ Hok), Hp, (ho_count _ _ _ Hok), Hp.
    by rewrite !Z.add_0_r.
Qed.

(** The host serves only on a loopback address and under limits that are all
    positive; when every session ended before the grace period ran out it reports no
    aborted connection, and otherwise it reports as aborted exactly the sessions still
    running. *)
Theorem run_host_report local limits events joins expired r :
  0 <= max_connections limits -> 0 <= max_connections_per_ip limits ->
  run_host local limits events joins expired = Ok r ->
  is_loopback local = true /\ HostLimits_validate limits = Ok limits /\
  exists h, host_loop limits events Host_new = Ok h /\
    forced_shutdown r = expired /\
    aborted_connections r = (if expired then zlen (running (drain joins h)) else 0).
Proof.
  unfold run_host. intros Hg Hi H. apply rbind_ok_inv in H as (l & Hl & H).
  assert (l = limits) as ->. { unfold HostLimits_validate in Hl. by apply fail_if_ok_inv in Hl as [_ [= ->]]. }
  apply fail_if_ok_inv in H as [Hlo H]. apply rbind_ok_inv in H as (h & Hh & H).
  split; [by destruct (is_loopback local)|]. split; [done|]. exists h. split; [done|].
  destruct (host_loop_ok _ _ _ _ _ (Host_new_ok limits Hg Hi) Hh) as (lost & Hok & _).
  destruct (drain_ok limits joins lost h Hok) as (lost' & Hok' & Hu).
  { by eapply host_loop_unfinished; [|exact Hh]. }
  injection H as <-. destruct expired; cbn [forced_shutdown aborted_connections];
    split; (apply Hu || done || apply Hok').
Qed.

(** ** Witnesses *)

Definition sample_report : SessionReport :=
  {| authenticated := true; requests := 3; reason := ClientClosed; error := None |}.

Definition sample_events : list HostEvent :=
  [Accepted (V4 2130706433); Accepted (V4 2130706433); Joined 0 (Some sample_report); Accepted (V6 1)].

Lemma host_admission_witness :
  exists h, host_loop HostLimits_default sample_events Host_new = Ok h /\
    map fst (running h) = [2; 3] /\ active_total h = zlen (running h).
Proof.
  eexists. split; [reflexivity|]. split; [reflexivity|].
  eapply (host_admission HostLimits_default sample_events); [discriminate | discriminate | reflexivity |].
  reflexivity.
Defined.

Lemma run_host_report_witness :
  exists r, run_host (V4 2130706433) HostLimits_default sample_events [(1%nat, None)] true = Ok r /\
    aborted_connections r = 1 /\ is_loopback (V4 2130706433) = true.
Proof.
  destruct (run_host (V4 2130706433) HostLimits_default sample_events [(1%nat, None)] true) as [r|] eqn:E;
    [|discriminate E].
  exists r. split; [reflexivity|]. split; [vm_compute in E; by injection E as <-|].
  eapply (run_host_report (V4 2130706433) HostLimits_default sample_events [(1%nat, None)] true r);
    [discriminate | discriminate | exact E].
Defined.
