(* ===== verification/ServerProcess.v ===== *)
(** * Starting the server ([omachat-server/src/process.rs], [lib.rs], [bin/omachat-serverd.rs])

    The command line of [omachat-serverd], the checks on its data directory and the order in
    which [serve] brings the server up: keys, storage, service, listener, host. Arguments are
    byte strings, as an [OsString] is. *)

From Stdlib Require Import Strings.Byte Ascii String.
From S2P Require Import Prelude RustStd Libs Concrete Account Hosted ServerAuth Storage Service Session Host.
Local Open Scope Z_scope.

(** ** Paths and addresses of the standard library *)

(** [Path::join] with a relative path. *)
Definition path_join (base rel : string) : string :=
  match last (as_bytes base) with
  | None => rel
  | Some b => if Byte.eqb b x2f then base +:+ rel else base +:+ "/" +:+ rel
  end.

(** [SocketAddr]; the scope is that of an IPv6 address. *)
Record SocketAddr := { sa_ip : IpAddr; sa_scope : Z; sa_port : Z }.
#[export] Instance SocketAddr_eq_dec : EqDecision SocketAddr.
Proof. solve_decision. Defined.

Definition parse_decimal (m : Z) (l : bytes) : option Z :=
  if forallb is_ascii_digit l then parse_digits 10 m l else None.

(** [str::parse::<SocketAddr>]: an IPv4 address or a bracketed IPv6 one, then the port. *)
Definition parse_socket_v4 (l : bytes) : option SocketAddr :=
  '(ip, port) ← split_once x3a l;
  a ← parse_ipv4 ip; p ← parse_decimal u16_max port;
  Some {| sa_ip := V4 a; sa_scope := 0; sa_port := p |}.
Definition parse_socket_v6 (l : bytes) : option SocketAddr :=
  match l with
  | x5b :: l =>
      '(inside, rest) ← split_once x5d l;
      '(ip, scope) ← match split_once x25 inside with
                     | Some (ip, scope) => z ← parse_decimal u32_max scope; Some (ip, z)
                     | None => Some (inside, 0)
                     end;
      match rest with
      | x3a :: port =>
          a ← parse_ipv6 ip; p ← parse_decimal u16_max port;
          Some {| sa_ip := V6 a; sa_scope := scope; sa_port := p |}
      | _ => None
      end
  | _ => None
  end.
Definition parse_socket_addr (s : string) : option SocketAddr :=
  match parse_socket_v4 (as_bytes s) with Some a => Some a | None => parse_socket_v6 (as_bytes s) end.

(** ** The command line *)

Definition DEFAULT_LISTEN : string := "127.0.0.1:7448".
Definition MAX_NIP05_RELAYS : Z := 8.

Record ServerProcessConfig := {
  data_dir : string; server_key_file : string; storage_key_file : string;
  listen : SocketAddr; limits : HostLimits; config_relays : list string
}.

Inductive ServerProcessCommand := Run (c : ServerProcessConfig) | GenerateSecret (path : string) | Help | Version.

Inductive ServerProcessConfigError :=
| NonUtf8Option | UnknownOption (o : string) | MissingValue (o : string) | InvalidValue (o : string)
| Repeated (o : string) | MissingOption (o : string) | NonLoopbackListen (a : SocketAddr).

Section Parse.
Let E := ServerProcessConfigError.

Definition parse_utf8 (value option : string) : result E string :=
  if utf8_valid value then Ok value else Err (InvalidValue option).
Definition parse_number (value option : string) : result E Z :=
  let? text := parse_utf8 value option in
  ok_or (InvalidValue option) (parse_uint 10 u64_max (as_bytes text)).
Definition set_once {T} (slot : option T) (value : T) (option : string) : result E (Datatypes.option T) :=
  match slot with Some _ => Err (Repeated option) | None => Ok (Some value) end.

(** The local variables of the loop. *)
Record Given := {
  g_data_dir : option string; g_server_key : option string; g_storage_key : option string;
  g_listen : option SocketAddr; g_relays : list string; g_limits : HostLimits;
  seen_max_connections : option Z; seen_per_ip : option Z; seen_idle : option Z; seen_grace : option Z
}.
Definition nothing_given : Given := {|
  g_data_dir := None; g_server_key := None; g_storage_key := None; g_listen := None; g_relays := [];
  g_limits := HostLimits_default; seen_max_connections := None; seen_per_ip := None; seen_idle := None; seen_grace := None |}.

Definition relay_fits (value : string) : bool :=
  (starts_with "wss://" value || starts_with "ws://" value) && (slen value <=? 256) && negb (existsb is_whitespace (chars value)).

Definition set_idle (n : Z) (l : HostLimits) : HostLimits :=
  let s := session l in {|
  max_connections := max_connections l; max_connections_per_ip := max_connections_per_ip l;
  session := {| admission_timeout := admission_timeout s; unauthenticated_timeout := unauthenticated_timeout s;
                idle_timeout := from_secs n; requests_per_second := requests_per_second s; request_burst := request_burst s |};
  shutdown_grace := shutdown_grace l |}.

Definition with_dirs (d s k : option string) (g : Given) : Given := {|
  g_data_dir := d; g_server_key := s; g_storage_key := k; g_listen := g_listen g; g_relays := g_relays g;
  g_limits := g_limits g; seen_max_connections := seen_max_connections g; seen_per_ip := seen_per_ip g;
  seen_idle := seen_idle g; seen_grace := seen_grace g |}.
Definition with_network (a : option SocketAddr) (rs : list string) (g : Given) : Given := {|
  g_data_dir := g_data_dir g; g_server_key := g_server_key g; g_storage_key := g_storage_key g; g_listen := a; g_relays := rs;
  g_limits := g_limits g; seen_max_connections := seen_max_connections g; seen_per_ip := seen_per_ip g;
  seen_idle := seen_idle g; seen_grace := seen_grace g |}.
Definition with_limits (l : HostLimits) (m p i s : option Z) (g : Given) : Given := {|
  g_data_dir := g_data_dir g; g_server_key := g_server_key g; g_storage_key := g_storage_key g; g_listen := g_listen g;
  g_relays := g_relays g; g_limits := l; seen_max_connections := m; seen_per_ip := p; seen_idle := i; seen_grace := s |}.

(** One option with its value. *)
Definition take_option (option value : string) (g : Given) : result E Given :=
  let l := g_limits g in
  if String.eqb option "--data-dir" then
    (let? d := set_once (g_data_dir g) value option in Ok (with_dirs d (g_server_key g) (g_storage_key g) g))
  else if String.eqb option "--server-key-file" then
    (let? k := set_once (g_server_key g) value option in Ok (with_dirs (g_data_dir g) k (g_storage_key g) g))
  else if String.eqb option "--storage-key-file" then
    (let? k := set_once (g_storage_key g) value option in Ok (with_dirs (g_data_dir g) (g_server_key g) k g))
  else if String.eqb option "--nip05-relay" then
    (let? value := parse_utf8 value option in
     fail_if (MAX_NIP05_RELAYS <=? zlen (g_relays g)) || negb (relay_fits value) with InvalidValue option ;;
     Ok (with_network (g_listen g) (g_relays g ++ [value]) g))
  else if String.eqb option "--listen" then
    (let? value := parse_utf8 value option in
     let? address := ok_or (InvalidValue option) (parse_socket_addr value) in
     let? a := set_once (g_listen g) address option in Ok (with_network a (g_relays g) g))
  else if String.eqb option "--max-connections" then
    (let? n := parse_number value option in
     let? seen := set_once (seen_max_connections g) n option in
     Ok (with_limits {| max_connections := n; max_connections_per_ip := max_connections_per_ip l; session := session l;
                        shutdown_grace := shutdown_grace l |} seen (seen_per_ip g) (seen_idle g) (seen_grace g) g))
  else if String.eqb option "--max-connections-per-ip" then
    (let? n := parse_number value option in
     let? seen := set_once (seen_per_ip g) n option in
     Ok (with_limits {| max_connections := max_connections l; max_connections_per_ip := n; session := session l;
                        shutdown_grace := shutdown_grace l |} (seen_max_connections g) seen (seen_idle g) (seen_grace g) g))
  else if String.eqb option "--idle-timeout-seconds" then
    (let? n := parse_number value option in
     let? seen := set_once (seen_idle g) n option in
     Ok (with_limits (set_idle n l) (seen_max_connections g) (seen_per_ip g) seen (seen_grace g) g))
  else if String.eqb option "--shutdown-grace-seconds" then
    (let? n := parse_number value option in
     let? seen := set_once (seen_grace g) n option in
     Ok (with_limits {| max_connections := max_connections l; max_connections_per_ip := max_connections_per_ip l;
                        session := session l; shutdown_grace := from_secs n |}
           (seen_max_connections g) (seen_per_ip g) (seen_idle g) seen g))
  else Err (UnknownOption option).

Definition OPTIONS : list string :=
  ["--data-dir"; "--server-key-file"; "--storage-key-file"; "--nip05-relay"; "--listen"; "--max-connections";
   "--max-connections-per-ip"; "--idle-timeout-seconds"; "--shutdown-grace-seconds"]%string.
Definition is_known (option : string) : bool := existsb (String.eqb option) OPTIONS.

(** The loop over the arguments: an option, then its value. *)
Fixpoint parse_options (args : list string) (g : Given) : result E Given :=
  match args with
  | [] => Ok g
  | option :: rest =>
      fail_if negb (utf8_valid option) with NonUtf8Option ;;
      if is_known option then
        match rest with
        | [] => Err (MissingValue option)
        | value :: rest =>
            let? g := take_option option value g in parse_options rest g
        end
      else Err (UnknownOption option)
  end.

Definition default_listen : SocketAddr := {| sa_ip := V4 0x7f000001; sa_scope := 0; sa_port := 7448 |}.

Definition finish_config (g : Given) : result E ServerProcessCommand :=
  let a := default default_listen (g_listen g) in
  fail_if negb (is_loopback (sa_ip a)) with NonLoopbackListen a ;;
  let? l := map_err (fun _ => InvalidValue "limits") (HostLimits_validate (g_limits g)) in
  let? d := ok_or (MissingOption "--data-dir") (g_data_dir g) in
  let? k := ok_or (MissingOption "--server-key-file") (g_server_key g) in
  let? s := ok_or (MissingOption "--storage-key-file") (g_storage_key g) in
  Ok (Run {| data_dir := d; server_key_file := k; storage_key_file := s; listen := a; limits := l; config_relays := g_relays g |}).

Definition parse_server_process_args (args : list string) : result E ServerProcessCommand :=
  let remaining := tail args in
  let parsed := let? g := parse_options remaining nothing_given in finish_config g in
  match remaining with
  | [o] => if String.eqb o "--help" then Ok Help else if String.eqb o "--version" then Ok Version else parsed
  | [o; path] => if String.eqb o "--generate-secret" then Ok (GenerateSecret path) else parsed
  | _ => parsed
  end.
End Parse.

(** The default is the address its text denotes. *)
Lemma default_listen_parses : parse_socket_addr DEFAULT_LISTEN = Some default_listen.
Proof. reflexivity. Qed.

(** ** The data directory and the start *)

Definition DATABASE_FILE : string := "server.db".

Inductive Created := CreatedNow | AlreadyExists | CreateFailed.
Record Metadata := { md_is_dir : bool; md_mode : Z }.
Inductive DataDirError := DirIo | DirNotDirectory | DirPermissions.

(** [created] is what creating the directory gave, [metadata] what the system says of it. *)
Definition prepare_data_dir (path : string) (created : Created) (metadata : option Metadata) : result DataDirError string :=
  match created with
  | CreateFailed => Err DirIo
  | CreatedNow | AlreadyExists =>
      let? m := ok_or DirIo metadata in
      fail_if negb (md_is_dir m) with DirNotDirectory ;;
      fail_if negb (Z.land (md_mode m) 0x3f =? 0) with DirPermissions ;;
      Ok (path_join path DATABASE_FILE)
  end.

Inductive ServeError :=
| ServeSeed (e : SeedError) | ServeData (e : DataDirError) | ServeStorage (e : StorageError)
| ServeIo | ServeHost (e : HostError).

(** What [serve] meets: the files it opens, the data directory, the database behind the
    path, the local address of the listener, and then the connections. *)
Record Machine := {
  m_file : string -> option File;
  m_create : string -> Created; m_metadata : string -> option Metadata;
  m_database : string -> Connection;
  m_thread : bool;
  m_bind : SocketAddr -> option IpAddr;
  m_events : list HostEvent; m_joins : list (nat * option SessionReport); m_expired : bool
}.

Record Served := { sv_identity : ServerIdentity; sv_config : ServiceConfig; sv_service : Service; sv_report : HostReport }.

Section Serve.
Context {hex : Hex} {ed : Ed25519} {aead : Aead}.

Definition serve (m : Machine) (c : ServerProcessConfig) : result ServeError Served :=
  let? server_seed := map_err ServeSeed (load_seed_file (m_file m (server_key_file c))) in
  let identity := ServerIdentity_from_seed server_seed in
  let? storage_key := map_err ServeSeed (load_seed_file (m_file m (storage_key_file c))) in
  let? database := map_err ServeData (prepare_data_dir (data_dir c) (m_create m (data_dir c)) (m_metadata m (data_dir c))) in
  let '(opened, connection) := open_in_memory storage_key (m_database m database) in
  let? _ := map_err ServeStorage opened in
  let config := {| server_public_key := ServerIdentity_public_key identity; nip05_relays := config_relays c |} in
  fail_if negb (m_thread m) with ServeIo ;;
  let? local := ok_or ServeIo (m_bind m (listen c)) in
  let? report := map_err ServeHost (run_host local (limits c) (m_events m) (m_joins m) (m_expired m)) in
  Ok {| sv_identity := identity; sv_config := config;
        sv_service := {| storage := connection; subscribers := ∅ |}; sv_report := report |}.
End Serve.

(** ** The command line is read exactly *)

(** The arguments, two by two, and the values given for an option. *)
Fixpoint pairs (args : list string) : list (string * string) :=
  match args with o :: v :: rest => (o, v) :: pairs rest | _ => [] end.
Definition values (o : string) (ps : list (string * string)) : list string := map snd (List.filter (fun p => String.eqb p.1 o) ps).
Definition numbers (o : string) (ps : list (string * string)) : list (option Z) :=
  map (fun v => parse_uint 10 u64_max (as_bytes v)) (values o ps).

Definition relay_ok (r : string) : Prop := utf8_valid r = true /\ relay_fits r = true.

(** The options whose value is text; the others take a path, of any bytes. *)
Definition is_text (o : string) : bool :=
  negb (existsb (String.eqb o) ["--data-dir"; "--server-key-file"; "--storage-key-file"]%string).

(** The limits the numbers stand for, the defaults where none is given. *)
Definition limits_given (m p i s : option Z) : HostLimits :=
  let d := set_idle (default 300 i) HostLimits_default in {|
  max_connections := default 1024 m; max_connections_per_ip := default 32 p; session := session d;
  shutdown_grace := from_secs (default 10 s) |}.

Record given_ok (ps : list (string * string)) (g : Given) : Prop := {
  gi_data_dir : values "--data-dir" ps = option_list (g_data_dir g);
  gi_server_key : values "--server-key-file" ps = option_list (g_server_key g);
  gi_storage_key : values "--storage-key-file" ps = option_list (g_storage_key g);
  gi_relays : values "--nip05-relay" ps = g_relays g;
  gi_relays_ok : Forall relay_ok (g_relays g) /\ zlen (g_relays g) <= MAX_NIP05_RELAYS;
  gi_listen : map parse_socket_addr (values "--listen" ps) = map Some (option_list (g_listen g));
  gi_max : numbers "--max-connections" ps = map Some (option_list (seen_max_connections g));
  gi_per_ip : numbers "--max-connections-per-ip" ps = map Some (option_list (seen_per_ip g));
  gi_idle : numbers "--idle-timeout-seconds" ps = map Some (option_list (seen_idle g));
  gi_grace : numbers "--shutdown-grace-seconds" ps = map Some (option_list (seen_grace g));
  gi_limits : g_limits g = limits_given (seen_max_connections g) (seen_per_ip g) (seen_idle g) (seen_grace g);
  gi_known : Forall (fun p => is_known p.1 = true) ps;
  gi_text : Forall (fun p => is_text p.1 = true -> utf8_valid p.2 = true) ps
}.

Lemma values_snoc o ps o' v : values o (ps ++ [(o', v)]) = values o ps ++ (if String.eqb o' o then [v] else []).
Proof. unfold values. rewrite List.filter_app, map_app. cbn. by destruct (String.eqb o' o). Qed.
Lemma numbers_snoc o ps o' v : numbers o (ps ++ [(o', v)]) =
  numbers o ps ++ (if String.eqb o' o then [parse_uint 10 u64_max (as_bytes v)] else []).
Proof. unfold numbers. rewrite values_snoc, map_app. by destruct (String.eqb o' o). Qed.

Lemma set_once_ok {T} (slot : option T) v o r : set_once slot v o = Ok r -> slot = None /\ r = Some v.
Proof. unfold set_once. destruct slot; [done|]. by intros [= <-]. Qed.
Lemma parse_utf8_ok v o t : parse_utf8 v o = Ok t -> t = v /\ utf8_valid v = true.
Proof. unfold parse_utf8. destruct (utf8_valid v); [|done]. by intros [= <-]. Qed.
Lemma parse_number_ok v o n : parse_number v o = Ok n -> parse_uint 10 u64_max (as_bytes v) = Some n.
Proof. unfold parse_number, parse_utf8. destruct (utf8_valid v); [|done]. cbn. by intros H%ok_or_ok_inv. Qed.

Lemma parse_number_utf8 v o n : parse_number v o = Ok n -> utf8_valid v = true.
Proof. unfold parse_number, parse_utf8. by destruct (utf8_valid v). Qed.

(** Compares the names of options. *)
Ltac simplify_strings := repeat match goal with |- context [String.eqb ?a ?b] =>
  let v := eval vm_compute in (String.eqb a b) in change (String.eqb a b) with v; cbv iota end.

Lemma take_option_ok ps g o v g' : given_ok ps g -> is_known o = true -> take_option o v g = Ok g' -> given_ok (ps ++ [(o, v)]) g'.
Proof.
  intros H Hk E. unfold take_option in E.
  repeat match type of E with (if String.eqb o ?c then _ else _) = _ => destruct (String.eqb_spec o c) as [->|?] end; [..|done].
  all: repeat match goal with
       | E : rbind ?r ?k = Ok _ |- _ => apply rbind_ok_inv in E as (? & ?Ha & E)
       | E : set_once _ _ _ = Ok _ |- _ => apply set_once_ok in E as [? ->]
       | E : parse_number _ _ = Ok _ |- _ => pose proof (parse_number_utf8 _ _ _ E); apply parse_number_ok in E
       | E : ok_or _ _ = Ok _ |- _ => apply ok_or_ok_inv in E
       | E : (if ?b then Err _ else _) = Ok _ |- _ => let F := fresh "F" in destruct b eqn:F; [done|]
       | E : Ok _ = Ok _ |- _ => injection E as <-
       end.
  all: destruct g, H; cbn [g_data_dir g_server_key g_storage_key g_listen g_relays g_limits seen_max_connections
         seen_per_ip seen_idle seen_grace] in *; subst;
    (split; rewrite ?values_snoc, ?numbers_snoc; simplify_strings; rewrite ?app_nil_r;
     [..|apply Forall_app; split; [done|by repeat constructor]|
      apply Forall_app; split; [done|]; repeat constructor; cbn [fst snd]; intros ?;
      first [done | eapply parse_utf8_ok; eassumption]]); cbn; try done;
    repeat match goal with E : parse_utf8 _ _ = Ok _ |- _ => apply parse_utf8_ok in E as [-> ?] end;
    rewrite ?map_app; repeat match goal with E : _ = option_list None |- _ => rewrite E | E : _ = map Some (option_list None) |- _ => rewrite E end;
    cbn; try congruence.
  split_bools. destruct gi_relays_ok0. rewrite Forall_app, zlen_app, zlen_cons. change (zlen []) with 0.
  split; [repeat constructor; done|]. unfold MAX_NIP05_RELAYS in *. lia.
Qed.

Lemma parse_options_ok args : forall ps g g', given_ok ps g -> parse_options args g = Ok g' -> given_ok (ps ++ pairs args) g'.
Proof.
  induction args as [args IH] using (induction_ltof1 _ length). unfold ltof in IH.
  destruct args as [|o [|v rest]]; intros ps g g' H E.
  - injection E as <-. by rewrite app_nil_r.
  - cbn in E. repeat case_match; done.
  - cbn [parse_options] in E. destruct (negb (utf8_valid o)); [done|]. destruct (is_known o) eqn:Hk; [|done].
    apply rbind_ok_inv in E as (g1 & E1 & E). cbn [pairs]. rewrite (cons_middle (o, v)), app_assoc.
    eapply IH; [cbn; lia| |done]. by eapply take_option_ok.
Qed.

Lemma nothing_given_ok : given_ok [] nothing_given.
Proof. by split. Qed.

(** The configuration a command line stands for. *)
Record config_of (args : list string) (c : ServerProcessConfig) : Prop := {
  co_data_dir : values "--data-dir" (pairs args) = [data_dir c];
  co_server_key : values "--server-key-file" (pairs args) = [server_key_file c];
  co_storage_key : values "--storage-key-file" (pairs args) = [storage_key_file c];
  co_relays : values "--nip05-relay" (pairs args) = config_relays c;
  co_relays_ok : Forall relay_ok (config_relays c) /\ zlen (config_relays c) <= MAX_NIP05_RELAYS;
  co_listen : exists a, map parse_socket_addr (values "--listen" (pairs args)) = map Some (option_list a) /\
    listen c = default default_listen a;
  co_loopback : is_loopback (sa_ip (listen c)) = true;
  co_limits : exists m p i s, limits c = limits_given m p i s /\
    numbers "--max-connections" (pairs args) = map Some (option_list m) /\
    numbers "--max-connections-per-ip" (pairs args) = map Some (option_list p) /\
    numbers "--idle-timeout-seconds" (pairs args) = map Some (option_list i) /\
    numbers "--shutdown-grace-seconds" (pairs args) = map Some (option_list s);
  co_valid : HostLimits_validate (limits c) = Ok (limits c);
  co_known : Forall (fun p => is_known p.1 = true) (pairs args);
  co_text : Forall (fun p => is_text p.1 = true -> utf8_valid p.2 = true) (pairs args)
}.

Lemma limits_validate_same l l' : HostLimits_validate l = Ok l' -> l' = l.
Proof. unfold HostLimits_validate. intros H. inv_ok. done. Qed.

Lemma finish_config_ok args g c : given_ok (pairs args) g -> finish_config g = Ok (Run c) -> config_of args c.
Proof.
  intros H E. unfold finish_config in E. destruct (is_loopback _) eqn:Hl; [|done]. cbn [negb] in E. cbv iota in E.
  apply rbind_ok_inv in E as (l & E1 & E). apply map_err_ok_inv in E1. pose proof (limits_validate_same _ _ E1) as ->.
  repeat match goal with E : rbind ?r ?k = Ok _ |- _ => apply rbind_ok_inv in E as (? & ?%ok_or_ok_inv & E) end.
  injection E as <-. destruct H. split; cbn; try congruence; try done.
  1-3: match goal with E : ?o = Some ?x, F : _ = option_list ?o |- _ = [?x] => by rewrite F, E end.
  - by exists (g_listen g).
  - do 4 eexists. split_and!; eassumption.
Qed.

(** ** Every such command line is accepted *)

Record fits (ps : list (string * string)) : Prop := {
  fi_paths o : o ∈ ["--data-dir"; "--server-key-file"; "--storage-key-file"]%string -> (length (values o ps) <= 1)%nat;
  fi_listen : (length (values "--listen" ps) <= 1)%nat /\ Forall (fun v => is_Some (parse_socket_addr v)) (values "--listen" ps);
  fi_numbers o : o ∈ ["--max-connections"; "--max-connections-per-ip"; "--idle-timeout-seconds"; "--shutdown-grace-seconds"]%string ->
    (length (values o ps) <= 1)%nat /\ Forall (fun v => is_Some (parse_uint 10 u64_max (as_bytes v))) (values o ps);
  fi_relays : Forall (fun v => relay_fits v = true) (values "--nip05-relay" ps) /\ zlen (values "--nip05-relay" ps) <= MAX_NIP05_RELAYS;
  fi_text : Forall (fun p => is_text p.1 = true -> utf8_valid p.2 = true) ps
}.

Lemma values_middle o ps v ps2 : values o (ps ++ (o, v) :: ps2) = values o ps ++ v :: values o ps2.
Proof. unfold values. rewrite List.filter_app, map_app. cbn. by rewrite String.eqb_refl. Qed.

Lemma first_value o ps v ps2 {T} (slot : option T) : (length (values o (ps ++ (o, v) :: ps2)) <= 1)%nat ->
  length (values o ps) = length (option_list slot) -> slot = None.
Proof. rewrite values_middle, length_app. cbn. destruct slot; cbn; [lia|done]. Qed.

Lemma middle_value (P : string -> Prop) o ps v ps2 : Forall P (values o (ps ++ (o, v) :: ps2)) -> P v.
Proof. rewrite values_middle. by intros [_ [? _]%Forall_cons]%Forall_app. Qed.

Lemma parse_number_total v o : utf8_valid v = true -> is_Some (parse_uint 10 u64_max (as_bytes v)) ->
  exists n, parse_number v o = Ok n.
Proof. intros Hu [n Hn]. exists n. unfold parse_number, parse_utf8. rewrite Hu. cbn. by rewrite Hn. Qed.

Lemma given_numbers o ps (slot : option Z) : numbers o ps = map Some (option_list slot) -> length (values o ps) = length (option_list slot).
Proof. intros E%(f_equal length). unfold numbers in E. by rewrite !length_map in E. Qed.

Lemma take_option_total ps g o v ps2 : given_ok ps g -> is_known o = true -> fits (ps ++ (o, v) :: ps2) ->
  exists g', take_option o v g = Ok g'.
Proof.
  intros H Hk F. assert (is_text o = true -> utf8_valid v = true) as Hu.
  { pose proof (fi_text _ F) as X. apply Forall_app in X as [_ X]. by apply Forall_cons in X as [X _]. }
  unfold is_known in Hk. cbn [OPTIONS existsb] in Hk. unfold take_option.
  assert (forall c, c ∈ ["--max-connections"; "--max-connections-per-ip"; "--idle-timeout-seconds"; "--shutdown-grace-seconds"]%string ->
    o = c -> forall slot, numbers c ps = map Some (option_list slot) -> slot = None /\ exists n, parse_number v c = Ok n) as Hnum.
  { intros c Hc -> slot Hs. destruct (fi_numbers _ F c Hc) as [Hn Hx]. split; [eapply first_value; [exact Hn|by apply given_numbers]|].
    apply parse_number_total; [apply Hu|exact (middle_value _ _ _ _ _ Hx)]. clear -Hc. repeat (apply elem_of_cons in Hc as [->|Hc]; [done|]); by apply elem_of_nil in Hc. }
  repeat match goal with |- context [String.eqb o ?c] => destruct (String.eqb_spec o c) as [->|?]; cbn [orb] in Hk; cbv iota end; [..|done].
  1: rewrite (first_value _ _ _ _ (g_data_dir g) (fi_paths _ F "--data-dir" ltac:(set_solver)) ltac:(by rewrite (gi_data_dir _ _ H))); by eexists.
  1: rewrite (first_value _ _ _ _ (g_server_key g) (fi_paths _ F "--server-key-file" ltac:(set_solver)) ltac:(by rewrite (gi_server_key _ _ H))); by eexists.
  1: rewrite (first_value _ _ _ _ (g_storage_key g) (fi_paths _ F "--storage-key-file" ltac:(set_solver)) ltac:(by rewrite (gi_storage_key _ _ H))); by eexists.
  - unfold parse_utf8. rewrite Hu by done. cbn [rbind]. rewrite (middle_value _ _ _ _ _ (proj1 (fi_relays _ F))), orb_false_r.
    pose proof (proj2 (fi_relays _ F)) as Hcount. rewrite values_middle, zlen_app, zlen_cons, (gi_relays _ _ H) in Hcount.
    rewrite (proj2 (Z.leb_gt _ _)) by (pose proof (zlen_nonneg (values "--nip05-relay" ps2)); lia). by eexists.
  - unfold parse_utf8. rewrite Hu by done. cbn [rbind]. destruct (fi_listen _ F) as [Hone Hs].
    destruct (middle_value _ _ _ _ _ Hs) as [a ->]. cbn [ok_or rbind].
    rewrite (first_value _ _ _ _ (g_listen g) Hone); [by eexists|]. pose proof (f_equal length (gi_listen _ _ H)) as E. by rewrite !length_map in E.
  - destruct (Hnum "--max-connections"%string ltac:(set_solver) eq_refl _ (gi_max _ _ H)) as [-> [m ->]]. by eexists.
  - destruct (Hnum "--max-connections-per-ip"%string ltac:(set_solver) eq_refl _ (gi_per_ip _ _ H)) as [-> [m ->]]. by eexists.
  - destruct (Hnum "--idle-timeout-seconds"%string ltac:(set_solver) eq_refl _ (gi_idle _ _ H)) as [-> [m ->]]. by eexists.
  - destruct (Hnum "--shutdown-grace-seconds"%string ltac:(set_solver) eq_refl _ (gi_grace _ _ H)) as [-> [m ->]]. by eexists.
Qed.

Lemma known_utf8 o : is_known o = true -> utf8_valid o = true.
Proof. unfold is_known. intros (c & Hc & ->%String.eqb_eq)%existsb_exists. repeat (destruct Hc as [<-|Hc]; [done|]). done. Qed.

Lemma parse_options_total args : forall ps g, Nat.even (length args) = true -> given_ok ps g -> fits (ps ++ pairs args) ->
  Forall (fun p => is_known p.1 = true) (pairs args) -> exists g', parse_options args g = Ok g'.
Proof.
  induction args as [args IH] using (induction_ltof1 _ length). unfold ltof in IH.
  destruct args as [|o [|v rest]]; intros ps g He H F Hk; [by eexists|done|].
  cbn [pairs] in *. apply Forall_cons in Hk as [Ho Hk]. cbn [fst] in Ho. cbn [parse_options].
  rewrite (known_utf8 _ Ho), Ho. cbn [negb]. cbv iota. destruct (take_option_total _ _ _ _ _ H Ho F) as [g1 E1]. rewrite E1. cbn [rbind].
  apply (IH rest ltac:(cbn; lia) (ps ++ [(o, v)])); [done|by eapply take_option_ok|by rewrite <- app_assoc|done].
Qed.

Lemma map_some_inj {A} (a b : list A) : map Some a = map Some b -> a = b.
Proof. apply list_fmap_eq_inj. by intros ? ? [= ->]. Qed.
Lemma option_list_inj {A} (a b : option A) : option_list a = option_list b -> a = b.
Proof. by destruct a, b; intros; simplify_eq/=. Qed.
Lemma at_most_one {A} (f : string -> option A) l (o : option A) : map f l = map Some (option_list o) ->
  (length l <= 1)%nat /\ Forall (fun v => is_Some (f v)) l.
Proof. destruct o; destruct l as [|v [|]]; cbn; intros; simplify_eq; (split; [lia|]); repeat constructor. by rewrite H. Qed.

Lemma config_of_fits args c : config_of args c -> fits (pairs args).
Proof.
  intros H. destruct (co_limits _ _ H) as (m & p & i & s & _ & Hm & Hp & Hi & Hs). destruct (co_listen _ _ H) as (a & Ha & _). split.
  - intros o Ho. repeat (apply elem_of_cons in Ho as [->|Ho]; [by rewrite ?(co_data_dir _ _ H), ?(co_server_key _ _ H), ?(co_storage_key _ _ H)|]).
    by apply elem_of_nil in Ho.
  - by eapply at_most_one.
  - intros o Ho. repeat (apply elem_of_cons in Ho as [->|Ho]; [by eapply at_most_one|]). by apply elem_of_nil in Ho.
  - rewrite (co_relays _ _ H). destruct (co_relays_ok _ _ H) as [Hr ?]. split; [|done]. eapply Forall_impl; [exact Hr|]. by intros ? [_ ?].
  - apply H.
Qed.

Lemma finish_config_total args g c : given_ok (pairs args) g -> config_of args c -> finish_config g = Ok (Run c).
Proof.
  intros G H. destruct (co_limits _ _ H) as (m & p & i & s & El & Hm & Hp & Hi & Hs). destruct (co_listen _ _ H) as (a & Ha & Ea).
  assert (g_listen g = a) as Eg by (apply option_list_inj, map_some_inj; by rewrite <- Ha, <- (gi_listen _ _ G)).
  assert (g_limits g = limits c) as Eq.
  { rewrite (gi_limits _ _ G), El. f_equal; apply option_list_inj, map_some_inj;
      by rewrite <- ?Hm, <- ?Hp, <- ?Hi, <- ?Hs, <- ?(gi_max _ _ G), <- ?(gi_per_ip _ _ G), <- ?(gi_idle _ _ G), <- ?(gi_grace _ _ G). }
  assert (g_data_dir g = Some (data_dir c)) as Ed by (apply option_list_inj; by rewrite <- (gi_data_dir _ _ G), (co_data_dir _ _ H)).
  assert (g_server_key g = Some (server_key_file c)) as Ek
    by (apply option_list_inj; by rewrite <- (gi_server_key _ _ G), (co_server_key _ _ H)).
  assert (g_storage_key g = Some (storage_key_file c)) as Es
    by (apply option_list_inj; by rewrite <- (gi_storage_key _ _ G), (co_storage_key _ _ H)).
  unfold finish_config. rewrite Eg, <- Ea, (co_loopback _ _ H), Eq, (co_valid _ _ H), Ed, Ek, Es. cbn.
  rewrite <- (gi_relays _ _ G), (co_relays _ _ H). by destruct c.
Qed.

Lemma not_special args r : Nat.even (length args) = true -> Forall (fun p => is_known p.1 = true) (pairs args) ->
  (let? g := parse_options args nothing_given in finish_config g) = r ->
  forall program, parse_server_process_args (program :: args) = r.
Proof.
  intros He Hk Er program. unfold parse_server_process_args. cbn [tail]. destruct args as [|o [|v [|]]]; try done.
  cbn [pairs] in Hk. apply Forall_cons in Hk as [Ho _]. cbn [fst] in Ho.
  destruct (String.eqb_spec o "--generate-secret") as [->|]; [done|]. done.
Qed.

Lemma parse_options_even args : forall g g', parse_options args g = Ok g' -> Nat.even (length args) = true.
Proof.
  induction args as [args IH] using (induction_ltof1 _ length). unfold ltof in IH.
  destruct args as [|o [|v rest]]; intros g g' E; [done|cbn in E; repeat case_match; done|].
  cbn [parse_options] in E. destruct (negb (utf8_valid o)); [done|]. destruct (is_known o); [|done].
  apply rbind_ok_inv in E as (g1 & _ & E). by eapply (IH rest); [cbn; lia|].
Qed.

Lemma server_args_accepted program args c : parse_server_process_args (program :: args) = Ok (Run c) ->
  Nat.even (length args) = true /\ config_of args c.
Proof.
  intros E. assert ((let? g := parse_options args nothing_given in finish_config g) = Ok (Run c)) as E'.
  { unfold parse_server_process_args in E. cbn [tail] in E. by repeat case_match. }
  apply rbind_ok_inv in E' as (g & E1 & E2). split; [by eapply parse_options_even|].
  eapply finish_config_ok; [|done]. eapply (parse_options_ok _ []); [apply nothing_given_ok|done].
Qed.

Lemma host_loop_err l events : forall h e, host_loop l events h = Err e -> e = Listener.
Proof.
  induction events as [|ev events IH]; intros h e; cbn [host_loop]; [done|].
  intros [E|(h' & _ & E)]%rbind_err_inv; [|by eapply IH]. destruct ev; cbn in E; by simplify_eq.
Qed.

(** ** Theorems *)

(** The command line is read exactly: the server runs with a configuration if and only if
    the arguments are pairs of a known option and its value that stand for it, every option
    but the relays given at most once, the three paths exactly once, the listener loopback,
    at most eight relays and limits that are all usable. *)
Theorem server_args_exact program args c :
  parse_server_process_args (program :: args) = Ok (Run c) <->
  Nat.even (length args) = true /\ config_of args c.
Proof.
  split; [apply server_args_accepted|].
  intros [He H]. apply not_special; [done|apply H|].
  destruct (parse_options_total args [] nothing_given He nothing_given_ok (config_of_fits _ _ H) (co_known _ _ H)) as [g E].
  rewrite E. cbn [rbind]. apply (finish_config_total args); [|done].
  eapply (parse_options_ok _ []); [apply nothing_given_ok|done].
Qed.

Section Properties.
Context {hex : Hex} {ed : Ed25519} {aead : Aead}.

(** A server started with an accepted command line, on the address it asks for, fails only
    for its files, its database or its listener: the host accepts its limits and its
    address. When it serves, it has the identity of its seed file, and the service knows
    that key and the relays of the command line. *)
Theorem server_starts_as_told program args c m r :
  parse_server_process_args (program :: args) = Ok (Run c) -> (forall a ip, m_bind m a = Some ip -> ip = sa_ip a) ->
  serve m c = r ->
  match r with
  | Err (ServeHost e) => e = Listener
  | Err _ => True
  | Ok s => exists seed, load_seed_file (m_file m (server_key_file c)) = Ok seed /\
      sv_identity s = ServerIdentity_from_seed seed /\
      sv_config s = {| server_public_key := ed25519_public_key seed; nip05_relays := values "--nip05-relay" (pairs args) |}
  end.
Proof.
  intros Hp Hbind <-. apply server_args_accepted in Hp as [_ H]. unfold serve.
  destruct (load_seed_file (m_file m (server_key_file c))) as [seed|]; [|done]. cbn [map_err rbind].
  destruct (load_seed_file (m_file m (storage_key_file c))) as [key|]; [|done]. cbn [map_err rbind].
  destruct (prepare_data_dir _ _ _) as [database|]; [|done]. cbn [map_err rbind].
  destruct (open_in_memory key (m_database m database)) as [[[]|] connection]; [|done]. cbn [map_err rbind].
  destruct (m_thread m); [|done]. cbn [negb]. cbv iota. destruct (m_bind m (listen c)) as [ip|] eqn:Eb; [|done]. cbn [ok_or rbind].
  apply Hbind in Eb as ->. unfold run_host. rewrite (co_valid _ _ H). cbn [rbind]. rewrite (co_loopback _ _ H). cbn [negb]. cbv iota.
  destruct (host_loop _ _ _) as [h|e] eqn:El; cbn; [|by apply host_loop_err in El].
  exists seed. by rewrite (co_relays _ _ H).
Qed.
End Properties.

(** ** Witness *)

Definition sample_args : list string :=
  ["--data-dir"; "/srv/omachat"; "--nip05-relay"; "wss://relay.example"; "--server-key-file"; "/etc/omachat/server";
   "--storage-key-file"; "/etc/omachat/storage"; "--max-connections"; "64"; "--listen"; "[::1]:7000"]%string.
Definition sample_key_file : File :=
  {| is_file := true; file_mode := 0x180; file_len := 64; contents := Some (repeat x61 64) |}.
Definition sample_machine : Machine := {|
  m_file := fun _ => Some sample_key_file; m_create := fun _ => AlreadyExists;
  m_metadata := fun _ => Some {| md_is_dir := true; md_mode := 0x1c0 |};
  m_database := fun _ => quiet empty_database [Some (repeat x00 24)];
  m_thread := true; m_bind := fun a => Some (sa_ip a); m_events := [Accepted (V4 0x7f000001)]; m_joins := []; m_expired := false |}.
Definition sample_server : ServerProcessConfig := {|
  data_dir := "/srv/omachat"; server_key_file := "/etc/omachat/server"; storage_key_file := "/etc/omachat/storage";
  listen := {| sa_ip := V6 1; sa_scope := 0; sa_port := 7000 |};
  limits := limits_given (Some 64) None None None; config_relays := ["wss://relay.example"%string] |}.

Lemma server_starts_as_told_witness :
  match serve sample_machine sample_server with
  | Ok s => admitted_connections (sv_report s) = 1 /\ nip05_relays (sv_config s) = ["wss://relay.example"%string]
  | Err _ => False
  end.
Proof.
  pose proof (server_starts_as_told "omachat-serverd" sample_args sample_server sample_machine (serve sample_machine sample_server)) as H.
  assert (parse_server_process_args ("omachat-serverd"%string :: sample_args) = Ok (Run sample_server)) as E by (vm_compute; reflexivity).
  specialize (H E). assert (forall a ip, m_bind sample_machine a = Some ip -> ip = sa_ip a) as Hb by (by intros a ip [= <-]).
  specialize (H Hb eq_refl).
  assert (match serve sample_machine sample_server with Ok s => admitted_connections (sv_report s) = 1 | Err _ => False end) as R
    by (vm_compute; reflexivity).
  destruct (serve sample_machine sample_server) as [s|]; [|done]. destruct H as (seed & _ & _ & Hc). split; [exact R|].
  rewrite Hc. vm_compute. reflexivity.
Defined.
