(* ===== verification/ServerNip05.v ===== *)
(** * The NIP-05 HTTP endpoint ([omachat-server/src/nip05.rs] and the preface of [host.rs])

    A connection whose first bytes look like a request for [/.well-known/nostr.json] is
    answered over plain HTTP; any other connection becomes a WebSocket session. *)

From Stdlib Require Import Strings.Byte Ascii String.
From S2P Require Import Prelude RustStd Libs Concrete Hosted Storage Service.
Local Open Scope Z_scope.

(** ** What the code uses of [std] *)

(** The first sequence of [String::from_utf8_lossy]: whether it is a character, and its
    length. An invalid sequence is the longest prefix of a character, or one byte. *)
Definition utf8_chunk (l : bytes) : bool * nat :=
  let cont k := match l !! k with Some b => is_cont b | None => false end in
  let second lo hi := match l !! 1%nat with Some b => in_range lo hi (byte_val b) | None => false end in
  match l with
  | [] => (true, 0%nat)
  | b0 :: _ =>
      let v0 := byte_val b0 in
      if v0 <? 128 then (true, 1%nat)
      else if in_range 194 223 v0 then if cont 1%nat then (true, 2%nat) else (false, 1%nat)
      else if in_range 224 239 v0 then
        if second (if v0 =? 224 then 160 else 128) (if v0 =? 237 then 159 else 191) then
          if cont 2%nat then (true, 3%nat) else (false, 2%nat)
        else (false, 1%nat)
      else if in_range 240 244 v0 then
        if second (if v0 =? 240 then 144 else 128) (if v0 =? 244 then 143 else 191) then
          if cont 2%nat then if cont 3%nat then (true, 4%nat) else (false, 3%nat) else (false, 2%nat)
        else (false, 1%nat)
      else (false, 1%nat)
  end.

(** U+FFFD *)
Definition replacement : bytes := [xef; xbf; xbd].

Fixpoint lossy_from (fuel : nat) (l : bytes) : bytes :=
  match fuel, l with
  | S fuel, _ :: _ =>
      let '(valid, n) := utf8_chunk l in
      (if valid then take n l else replacement) ++ lossy_from fuel (drop n l)
  | _, _ => []
  end.

(** [String::from_utf8_lossy]; every sequence has at least one byte *)
Definition from_utf8_lossy (l : bytes) : bytes := lossy_from (length l) l.

(** [str::lines().next().unwrap_or("")] *)
Definition first_line (l : bytes) : bytes :=
  match split_once nl l with
  | Some (line, _) =>
      match reverse line with c :: rest => if Byte.eqb c cr then reverse rest else line | [] => line end
  | None => l
  end.

Fixpoint word (l : bytes) : bytes * bytes :=
  match l with
  | [] => ([], [])
  | b :: r => match ws_len l with O => let '(w, t) := word r in (b :: w, t) | S _ => ([], l) end
  end.

(** One [next().unwrap_or("")] of [split_whitespace]: an empty word is no word. *)
Definition next_word (l : bytes) : bytes * bytes := word (skip_whitespace (length l) l).

(** [char::to_digit(16)] *)
Definition to_digit_16 (b : byte) : option Z :=
  let v := byte_val b in
  if in_range 48 57 v then Some (v - 48)
  else if in_range 97 102 v then Some (v - 87)
  else if in_range 65 70 v then Some (v - 55)
  else None.

(** [u8::from_str_radix(s, 16)]: a leading plus sign is accepted *)
Definition u8_from_str_radix_16 (s : bytes) : option Z :=
  let digits (s : bytes) :=
    match s with
    | [] => None
    | _ => foldl (fun acc b => a ← acc; d ← to_digit_16 b; checked_add u8_max (a * 16) d) (Some 0) s
    end in
  match s with
  | x2b :: rest => digits rest
  | _ => digits s
  end.

(** ** Parsing the request *)

Definition MAX_REQUEST_BYTES : Z := 8 * 1024.

Fixpoint percent_decode_bytes (l : bytes) : option bytes :=
  match l with
  | [] => Some []
  | b :: l =>
      if Byte.eqb b x2b then cons x20 <$> percent_decode_bytes l
      else if Byte.eqb b x25 then
        match l with
        | h :: d :: l =>
            _ ← from_utf8 [h; d];
            v ← u8_from_str_radix_16 [h; d];
            cons (byte_of_Z v) <$> percent_decode_bytes l
        | _ => None
        end
      else cons b <$> percent_decode_bytes l
  end.

Definition percent_decode (value : bytes) : option string :=
  output ← percent_decode_bytes value; from_utf8 output.

(** The loop over the pairs of the query; the last [name] counts, any bad one fails. *)
Fixpoint query_pairs (pairs : list bytes) (name : option string) : option (option string) :=
  match pairs with
  | [] => Some name
  | item :: pairs =>
      let '(key, value) := default (item, []) (split_once x3d item) in
      if bool_decide (key = as_bytes "name") then
        n ← percent_decode value; query_pairs pairs (Some n)
      else query_pairs pairs name
  end.

Definition query_name (target : bytes) : option string :=
  let '(path, query) := default (target, []) (split_once x3f target) in
  if negb (bool_decide (path = as_bytes "/.well-known/nostr.json")) then None
  else
    name ← (if zlen query =? 0 then Some None else query_pairs (split_on x26 query) None);
    name.

Definition status_for (e : ServerError) : Z :=
  match code e with
  | CNotFound => 404
  | InvalidName | InvalidRequest => 400
  | _ => 500
  end.

Definition PREFIXES : list bytes :=
  map as_bytes ["GET /.well-known/nostr.json"; "HEAD /.well-known/nostr.json";
                "OPTIONS /.well-known/nostr.json"]%string.

Definition is_nip05_request (head : bytes) : bool := existsb (fun p => bytes_prefix p head) PREFIXES.

(** ** Responses *)

Definition crlf : string := of_bytes [cr; nl].

Definition reason_phrase (status : Z) : string :=
  if status =? 200 then "OK" else if status =? 204 then "No Content"
  else if status =? 400 then "Bad Request" else if status =? 404 then "Not Found"
  else if status =? 405 then "Method Not Allowed" else "Internal Server Error".

Definition write_head (status length : Z) : string :=
  "HTTP/1.1 " ++ show status ++ " " ++ reason_phrase status ++ crlf ++
  "Content-Type: application/json; charset=utf-8" ++ crlf ++
  "Content-Length: " ++ show length ++ crlf ++
  "Access-Control-Allow-Origin: *" ++ crlf ++
  "Access-Control-Allow-Methods: GET, HEAD, OPTIONS" ++ crlf ++
  "Cache-Control: no-store" ++ crlf ++
  "Connection: close" ++ crlf ++ crlf.

Definition write_options : string :=
  "HTTP/1.1 204 No Content" ++ crlf ++
  "Access-Control-Allow-Origin: *" ++ crlf ++
  "Access-Control-Allow-Methods: GET, HEAD, OPTIONS" ++ crlf ++
  "Access-Control-Allow-Headers: *" ++ crlf ++
  "Content-Length: 0" ++ crlf ++
  "Connection: close" ++ crlf ++ crlf.

Definition no_names : Value := JObject [("names"%string, JObject [])].

Section Http.
Context {hex : Hex} {json : Json} {schnorr : Schnorr} {bech : Bech32} {ed : Ed25519}.
Context (config : ServiceConfig).

Definition write_response (status : Z) (body : Value) : bytes :=
  let encoded := json_to_vec body in
  as_bytes (write_head status (zlen encoded)) ++ encoded.

(** [serve] once the end of the header arrived: what is written, and the service. *)
Definition respond (buffer : bytes) (service : Service) : bytes * Service :=
  let request_line := first_line (from_utf8_lossy buffer) in
  let '(method, parts) := next_word request_line in
  let '(target, _) := next_word parts in
  if bool_decide (method = as_bytes "OPTIONS") then (as_bytes write_options, service)
  else if negb (bool_decide (method = as_bytes "GET")) && negb (bool_decide (method = as_bytes "HEAD"))
  then (write_response 405 no_names, service)
  else
    let '(status, body, service) :=
      match query_name target with
      | None => (400, no_names, service)
      | Some name =>
          match handle config (Nip05 name) service with
          | (Ok document, service) => (200, document, service)
          | (Err (Refused error), service) => (status_for error, no_names, service)
          | (Err Panicked, service) =>
              (status_for (mkServerError Internal "service dropped the request"), no_names, service)
          end
      end in
    (if bool_decide (method = as_bytes "HEAD") then as_bytes (write_head status 0)
     else write_response status body, service).

(** [serve]: the reads that arrive in time. [None] is a read error and an empty read the
    end of the stream; when the reads run out the five seconds are over. *)
Fixpoint http_serve (reads : list (option bytes)) (buffer : bytes) (service : Service)
  : option bytes * Service :=
  if contains [cr; nl; cr; nl] buffer then
    let '(out, service) := respond buffer service in (Some out, service)
  else if MAX_REQUEST_BYTES <=? zlen buffer then (Some (write_response 400 no_names), service)
  else
    match reads with
    | Some (b :: chunk) :: reads => http_serve reads (buffer ++ b :: chunk) service
    | _ => (None, service)
    end.
End Http.

(** ** The preface

    [peek] shows the bytes received so far, at most 128; [None] is an error. When the
    results run out the two seconds are over. *)
Fixpoint nip05_preface (peeks : list (option bytes)) : bool :=
  match peeks with
  | Some (b :: rest) :: peeks =>
      let head := b :: rest in
      if contains [cr; nl] head || (zlen head =? 128) then is_nip05_request head
      else if existsb (fun prefix => bytes_prefix head prefix) PREFIXES then nip05_preface peeks
      else false
  | _ => false
  end.

(** When the preface looked while the first bytes arrived, what it needs to see: at first
    nothing beyond the path, and then the whole first line or 128 bytes. *)
Definition sees_first_line (request : bytes) (looks : list nat) : Prop :=
  exists early n later, looks = early ++ n :: later /\ Forall (fun k => 0 < k <= 27)%nat early /\
    (contains [cr; nl] (take (Nat.min n 128) request) = true \/ (128 <= n <= length request)%nat).

(** [peek] after [n] bytes of a request have arrived *)
Definition peek (request : bytes) (n : nat) : option bytes := Some (take (Nat.min n 128) request).

Lemma preface_accepts request rest looks :
  request = as_bytes "GET /.well-known/nostr.json" ++ rest -> sees_first_line request looks ->
  nip05_preface (map (peek request) looks) = true.
Proof.
  intros -> (early & n & later & -> & Hearly & Hn). set (path := as_bytes "GET /.well-known/nostr.json") in *.
  assert (forall k, (0 < k <= 27)%nat -> contains [cr; nl] (take k path) = false /\ (zlen (take k path) =? 128) = false /\
    existsb (fun prefix => bytes_prefix (take k path) prefix) PREFIXES = true /\ take k path <> []) as Hpath.
  { intros k Hk. assert (forallb (fun k => negb (contains [cr; nl] (take k path)) && negb (zlen (take k path) =? 128) &&
      existsb (fun prefix => bytes_prefix (take k path) prefix) PREFIXES && negb (bool_decide (take k path = []))) (seq 1 27) = true) as H
      by (vm_compute; reflexivity).
    eapply forallb_forall in H; [|apply in_seq; instantiate (1 := k); lia]. split_bools. split_and!; try done.
    by apply Z.eqb_neq. }
  assert (forall k, (k <= 27)%nat -> take (Nat.min k 128) (path ++ rest) = take k path) as Htake.
  { intros k Hk. rewrite Nat.min_l by lia. rewrite take_app_le; [done|]. change (length path) with 27%nat. lia. }
  induction early as [|k early IH]; cbn [app map nip05_preface].
  - unfold peek at 1. set (head := take (Nat.min n 128) (path ++ rest)) in *.
    assert (27 < n)%nat as Hgt.
    { destruct Hn as [Hn|Hn]; [|lia]. destruct (decide (27 < n)%nat); [done|]. unfold head in Hn. rewrite Htake in Hn by lia.
      destruct n as [|n]; [done|]. destruct (Hpath (S n)) as [Hf _]; [lia|]. congruence. }
    assert (head = path ++ take (Nat.min n 128 - 27) rest) as Eh.
    { unfold head. rewrite take_app_ge by (change (length path) with 27%nat; lia). done. }
    assert (contains [cr; nl] head || (zlen head =? 128) = true) as Hd.
    { destruct Hn as [->|[H1 H2]]; [done|]. apply orb_true_iff. right. apply Z.eqb_eq. unfold zlen, head. rewrite length_take. clear - H1 H2. lia. }
    assert (is_nip05_request head = true) as Hr.
    { rewrite Eh. unfold is_nip05_request, PREFIXES. cbn [map existsb]. apply orb_true_iff. left. apply bytes_prefix_spec. by eexists. }
    destruct head as [|b head]; [done|]. by rewrite Hd.
  - apply Forall_cons in Hearly as [Hk Hearly]. unfold peek at 1. rewrite Htake by lia.
    destruct (Hpath k Hk) as (H1 & H2 & H3 & H4). destruct (take k path) as [|b head]; [done|]. rewrite H1, H2, H3. cbn [orb]. by apply IH.
Qed.

(** ** Percent encoding

    A client may escape any byte, and must escape all but the unreserved ones. *)
Definition is_unreserved (b : byte) : bool :=
  is_ascii_alphanumeric b || Byte.eqb b x2d || Byte.eqb b x2e || Byte.eqb b x5f || Byte.eqb b x7e.

Definition percent_encode (p : byte -> bool) (l : bytes) : bytes :=
  flat_map (fun b => if p b then x25 :: hex_byte b else [b]) l.

Lemma unescape_byte b :
  exists h d, hex_byte b = [h; d] /\ from_utf8 [h; d] = Some (of_bytes [h; d]) /\
    u8_from_str_radix_16 [h; d] = Some (byte_val b).
Proof.
  unfold hex_byte. do 2 eexists. split; [reflexivity|].
  assert (forallb (fun b => let l := hex_byte b in
    bool_decide (from_utf8 l = Some (of_bytes l)) &&
    bool_decide (u8_from_str_radix_16 l = Some (byte_val b))) all_bytes = true) as H by (vm_compute; reflexivity).
  pose proof (byte_forall _ H b) as Hb. cbv zeta beta in Hb. split_bools. by split.
Qed.

Lemma percent_decode_encode p l :
  (forall b, p b = false -> is_unreserved b = true) -> percent_decode_bytes (percent_encode p l) = Some l.
Proof.
  intros Hp. induction l as [|b l IH]; [done|]. unfold percent_encode in *. cbn [flat_map].
  destruct (p b) eqn:E.
  - destruct (unescape_byte b) as (h & d & -> & Hu & Hr). cbn [app percent_decode_bytes].
    change (Byte.eqb x25 x2b) with false. change (Byte.eqb x25 x25) with true. cbv iota.
    rewrite Hu. cbn [mbind option_bind]. rewrite Hr. cbn [mbind option_bind].
    by rewrite IH, byte_of_Z_val.
  - apply Hp in E. cbn [app percent_decode_bytes]. rewrite IH. by destruct b; try discriminate E.
Qed.

(** ** Graphic ASCII: what a request line is made of, between its spaces *)
Definition is_graphic (b : byte) : bool := in_range 33 126 (byte_val b).

Lemma percent_encode_bytes (q : byte -> bool) p l :
  (forall b, p b = false -> is_unreserved b = true) ->
  q x25 = true -> (forall b, is_unreserved b = true -> q b = true) ->
  forallb q (percent_encode p l) = true.
Proof.
  intros Hp H25 Hq. apply forallb_forall. intros c (b & _ & Hc)%in_flat_map.
  destruct (p b) eqn:E; [|destruct Hc as [<-|[]]; by apply Hq, Hp].
  destruct Hc as [<-|Hc]; [done|]. apply Hq.
  destruct (hex_byte_facts b) as (h & d & Ehd & Lh & Ld & _). rewrite Ehd in Hc.
  assert (forall x, is_lower_hex_byte x = true -> is_unreserved x = true) as Hx.
  { intros x. by destruct x. }
  destruct Hc as [<-|[<-|[]]]; by apply Hx.
Qed.

Lemma lossy_ascii a l :
  forallb (fun b => byte_val b <? 128) a = true -> from_utf8_lossy (a ++ l) = a ++ from_utf8_lossy l.
Proof.
  induction a as [|b a IH]; [done|]. cbn [forallb app]. intros H. split_bools.
  unfold from_utf8_lossy in *. cbn [length lossy_from]. unfold utf8_chunk.
  destruct (byte_val b <? 128) eqn:E; [|lia]. rewrite firstn_cons, skipn_cons, skipn_O, firstn_O.
  cbn [app]. by rewrite IH.
Qed.

Lemma ws_len_graphic b l : is_graphic b = true -> ws_len (b :: l) = 0%nat.
Proof.
  unfold is_graphic, in_range. intros H. split_bools. unfold ws_len. cbn [take map].
  assert (in_range 9 13 (byte_val b) || (byte_val b =? 32) = false) as -> by (unfold in_range; lia).
  assert ((byte_val b =? 194) = false) as -> by lia.
  assert (in_range 224 239 (byte_val b) = false) as -> by (unfold in_range; lia).
  cbn [andb]. destruct (map byte_val (take 2 l)) as [|? [|? []]]; done.
Qed.

Lemma word_graphic w l : forallb is_graphic w = true -> word (w ++ x20 :: l) = (w, x20 :: l).
Proof.
  intros Hw. induction w as [|b w IH]; [done|].
  cbn [forallb] in Hw. split_bools. cbn [app word]. rewrite ws_len_graphic by done. by rewrite IH.
Qed.

(** A word of graphic characters before a space, after one space or none. *)
Lemma next_word_graphic w l :
  forallb is_graphic w = true -> w <> [] ->
  next_word (w ++ x20 :: l) = (w, x20 :: l) /\ next_word (x20 :: w ++ x20 :: l) = (w, x20 :: l).
Proof.
  intros Hw Hne. destruct w as [|b w]; [done|].
  assert (ws_len ((b :: w) ++ x20 :: l) = 0%nat) as H0.
  { cbn [forallb] in Hw. split_bools. by apply ws_len_graphic. }
  assert (forall n, skip_whitespace n ((b :: w) ++ x20 :: l) = (b :: w) ++ x20 :: l) as Hs.
  { intros [|n]; [done|]. cbn [skip_whitespace]. by rewrite H0. }
  unfold next_word. rewrite Hs. split; [by apply word_graphic|].
  cbn [length skip_whitespace]. change (ws_len (x20 :: (b :: w) ++ x20 :: l)) with 1%nat.
  cbv iota. rewrite skipn_cons, skipn_O, Hs. by apply word_graphic.
Qed.

(** ** Splitting *)

Lemma split_on_none sep a :
  forallb (fun b => negb (Byte.eqb b sep)) a = true -> split_on sep a = [a].
Proof.
  induction a as [|b a IH]; cbn [split_on forallb]; intros H; [done|].
  split_bools. destruct (Byte.eqb b sep); [done|]. by rewrite IH.
Qed.

(** The first occurrence of a separator is the same in two byte strings of which one is a
    prefix of the other. *)
Lemma split_once_prefix sep a l buffer rest :
  forallb (fun b => negb (Byte.eqb b sep)) a = true ->
  buffer ++ rest = a ++ sep :: l -> contains [sep] buffer = true ->
  exists l', buffer = a ++ sep :: l'.
Proof.
  intros Ha. revert a Ha. induction buffer as [|c buffer IH]; intros a Ha E Hc; [done|].
  destruct a as [|b a]; injection E as -> E; [by exists buffer|].
  cbn [forallb] in Ha. split_bools. cbn [contains bytes_prefix] in Hc.
  assert (Byte.eqb sep b = false) as Hb.
  { destruct (Byte.eqb sep b) eqn:Eb; [|done]. apply Byte.byte_dec_bl in Eb as ->.
    by rewrite (Byte.byte_dec_lb eq_refl) in *. }
  rewrite Hb in Hc. destruct (IH a) as [l' ->]; try done. by exists l'.
Qed.

(** The end of the header, and the newline it contains. *)
Lemma header_end_newline l : contains [cr; nl; cr; nl] l = true -> contains [nl] l = true.
Proof.
  intros (a & r & ->)%contains_inv.
  change (a ++ [cr; nl; cr; nl] ++ r) with (a ++ [cr] ++ [nl] ++ cr :: nl :: r).
  rewrite app_assoc. apply contains_app.
Qed.

Definition lookup_target (p : byte -> bool) (name : string) : bytes :=
  as_bytes "/.well-known/nostr.json?name=" ++ percent_encode p (as_bytes name).

Definition request_line (p : byte -> bool) (name : string) : bytes :=
  as_bytes "GET" ++ x20 :: lookup_target p name ++ x20 :: as_bytes "HTTP/1.1".

Definition http_request (p : byte -> bool) (name headers : string) : bytes :=
  request_line p name ++ [cr; nl] ++ as_bytes headers ++ [cr; nl; cr; nl].

Section Facts.
Context (p : byte -> bool) (Hp : forall b, p b = false -> is_unreserved b = true).

Lemma lookup_target_bytes (q : byte -> bool) name :
  forallb q (as_bytes "/.well-known/nostr.json?name=") = true ->
  q x25 = true -> (forall b, is_unreserved b = true -> q b = true) ->
  forallb q (lookup_target p name) = true.
Proof using Hp. intros H1 H2 H3. unfold lookup_target. by rewrite forallb_app, H1, percent_encode_bytes. Qed.

Lemma lookup_target_graphic name : forallb is_graphic (lookup_target p name) = true.
Proof using Hp. apply lookup_target_bytes; [done..|]. intros b. by destruct b. Qed.

Lemma query_name_target name : utf8_valid name = true -> query_name (lookup_target p name) = Some name.
Proof using Hp.
  intros Hn. unfold query_name, lookup_target.
  change (as_bytes "/.well-known/nostr.json?name=") with
    (as_bytes "/.well-known/nostr.json" ++ x3f :: as_bytes "name" ++ [x3d]).
  rewrite <- app_assoc. cbn [app]. rewrite split_once_app by done.
  cbv beta iota delta [default from_option id].
  rewrite bool_decide_true by done. cbn [negb].
  rewrite <- app_assoc. cbn [app]. rewrite zlen_app. change (zlen (as_bytes "name")) with 4.
  pose proof (zlen_nonneg (x3d :: percent_encode p (as_bytes name))).
  destruct (4 + _ =? 0) eqn:E; [lia|]. rewrite split_on_none.
  - cbn [query_pairs]. rewrite split_once_app by done.
    cbv beta iota delta [default from_option id].
    rewrite bool_decide_true by done. unfold percent_decode. rewrite percent_decode_encode by done.
    cbn [mbind option_bind]. by rewrite from_utf8_as_bytes.
  - rewrite forallb_app. cbn [forallb]. rewrite percent_encode_bytes; try done. intros b. by destruct b.
Qed.

Lemma request_line_bytes (q : byte -> bool) name :
  forallb q (as_bytes "/.well-known/nostr.json?name=") = true ->
  q x25 = true -> (forall b, is_unreserved b = true -> q b = true) ->
  forallb q (as_bytes "GET HTTP/1.1") = true ->
  forallb q (request_line p name) = true.
Proof using Hp.
  intros H1 H2 H3 H4. unfold request_line. rewrite forallb_app. cbn [forallb].
  rewrite forallb_app, lookup_target_bytes by done. cbn [forallb].
  change (as_bytes "GET HTTP/1.1") with (as_bytes "GET" ++ x20 :: as_bytes "HTTP/1.1") in H4.
  rewrite forallb_app in H4. cbn [forallb] in H4. split_bools.
  by repeat match goal with H : forallb q _ = true |- _ => rewrite H | H : q _ = true |- _ => rewrite H end.
Qed.

Lemma first_line_request name rest :
  first_line (from_utf8_lossy (request_line p name ++ [cr; nl] ++ rest)) = request_line p name.
Proof using Hp.
  rewrite lossy_ascii by (apply request_line_bytes; try done; intros b; by destruct b).
  rewrite lossy_ascii by done.
  unfold first_line. change ([cr; nl] ++ ?x) with ([cr] ++ nl :: x). rewrite app_assoc, split_once_app.
  - rewrite reverse_app. cbn [reverse rev_append app]. change (Byte.eqb cr cr) with true.
    apply reverse_involutive.
  - rewrite forallb_app, request_line_bytes; try done. intros b. by destruct b.
Qed.

Context {hex : Hex} {json : Json} {schnorr : Schnorr} {bech : Bech32} {ed : Ed25519}.
Context (config : ServiceConfig).

(** The answer to a lookup of a name. *)
Definition lookup_answer (name : string) (service : Service) : bytes * Service :=
  match handle config (Nip05 name) service with
  | (Ok document, service) => (write_response 200 document, service)
  | (Err (Refused e), service) => (write_response (status_for e) no_names, service)
  | (Err Panicked, service) => (write_response 500 no_names, service)
  end.

Lemma respond_lookup name rest service :
  utf8_valid name = true ->
  respond config (request_line p name ++ [cr; nl] ++ rest) service = lookup_answer name service.
Proof using Hp.
  intros Hn. unfold respond. rewrite first_line_request. unfold request_line.
  rewrite (proj1 (next_word_graphic (as_bytes "GET") _ eq_refl ltac:(done))).
  rewrite (proj2 (next_word_graphic (lookup_target p name) _ (lookup_target_graphic name) ltac:(done))).
  rewrite query_name_target by done. unfold lookup_answer.
  rewrite bool_decide_false by done. rewrite bool_decide_true by done. cbn [negb andb].
  rewrite bool_decide_false by done. by destruct (handle config (Nip05 name) service) as [[d|[e|]] s'].
Qed.

Lemma http_serve_lookup name headers later service : forall reads buffer,
  utf8_valid name = true -> zlen (http_request p name headers) <= MAX_REQUEST_BYTES ->
  Forall (fun r => r <> []) reads ->
  buffer ++ concat reads = http_request p name headers ++ later ->
  http_serve config (map Some reads) buffer service =
    let '(out, service) := lookup_answer name service in (Some out, service).
Proof using Hp.
  intros reads buffer Hn Hmax. revert buffer.
  assert (forall buffer rest, buffer ++ rest = http_request p name headers ++ later ->
    contains [cr; nl; cr; nl] buffer = true ->
    respond config buffer service = lookup_answer name service) as Hdone.
  { intros buffer rest E Hc%header_end_newline. unfold http_request in E.
    rewrite <- !app_assoc in E. change ([cr; nl] ++ ?x) with ([cr] ++ nl :: x) in E.
    rewrite app_assoc in E. apply split_once_prefix in E as [l' ->]; [| |done].
    - rewrite <- app_assoc. by apply respond_lookup.
    - rewrite forallb_app, request_line_bytes; try done. intros b. by destruct b. }
  assert (forall buffer rest, buffer ++ rest = http_request p name headers ++ later ->
    contains [cr; nl; cr; nl] buffer = false -> zlen buffer < zlen (http_request p name headers)) as Hmore.
  { intros buffer rest E Hc. destruct (Z_lt_ge_dec (zlen buffer) (zlen (http_request p name headers)))
      as [|Hge]; [done|]. exfalso.
    apply app_eq_inv in E as [(k & -> & _)|(k & Ek & _)].
    - unfold http_request in Hc. rewrite <- !app_assoc, app_assoc, (app_assoc _ (as_bytes headers)) in Hc.
      by rewrite contains_app in Hc.
    - rewrite Ek in Hge. destruct k as [|c k]; [|rewrite zlen_app, zlen_cons in Hge; pose proof (zlen_nonneg k); lia].
      rewrite app_nil_r in Ek. rewrite <- Ek in Hc. unfold http_request in Hc.
      rewrite app_assoc, app_assoc, <- (app_nil_r [cr; nl; cr; nl]) in Hc. by rewrite contains_app in Hc. }
  induction reads as [|r reads IH]; intros buffer Hr E; cbn [map http_serve];
    destruct (contains [cr; nl; cr; nl] buffer) eqn:Hc.
  - erewrite Hdone by eauto. by destruct (lookup_answer name service).
  - exfalso. pose proof (Hmore _ _ E Hc). cbn [concat] in E. rewrite app_nil_r in E.
    rewrite E, zlen_app in H. pose proof (zlen_nonneg later). lia.
  - erewrite Hdone by eauto. by destruct (lookup_answer name service).
  - pose proof (Hmore _ _ E Hc). destruct (MAX_REQUEST_BYTES <=? _) eqn:Em; [split_bools; lia|].
    apply Forall_cons in Hr as [Hr Hrs]. destruct r as [|b r]; [done|].
    apply IH; [done|]. by rewrite <- app_assoc.
Qed.
End Facts.

(** ** Properties *)

Section Properties.
Context {hex : Hex} {json : Json} {schnorr : Schnorr} {bech : Bech32} {ed : Ed25519}.

(** A [GET] lookup of at most 8 KiB, with any bytes of the name percent-encoded and
    any headers, cut into reads in any way and followed by anything, is answered by what
    the service says of that very name: 200 with its document, or the status of its
    error with no names. *)
Theorem nip05_http_exact config p name headers later reads service :
  (forall b, p b = false -> is_unreserved b = true) -> utf8_valid name = true ->
  zlen (http_request p name headers) <= MAX_REQUEST_BYTES ->
  Forall (fun r => r <> []) reads -> concat reads = http_request p name headers ++ later ->
  http_serve config (map Some reads) [] service =
    match handle config (Nip05 name) service with
    | (Ok document, service) => (Some (write_response 200 document), service)
    | (Err (Refused e), service) => (Some (write_response (status_for e) no_names), service)
    | (Err Panicked, service) => (Some (write_response 500 no_names), service)
    end.
Proof using Type.
  intros Hp Hn Hmax Hr E. rewrite (http_serve_lookup p Hp config name headers later) by done.
  unfold lookup_answer. by destruct (handle config (Nip05 name) service) as [[d|[e|]] s'].
Qed.
End Properties.

(** A NIP-05 request is taken for a WebSocket connection when its first segment ends
    inside its first line but after the path: the preface answers no at once, although
    the bytes are a NIP-05 request, whatever arrives later. *)
Theorem preface_misroutes prefix extra peeks :
  prefix ∈ PREFIXES -> extra <> [] -> contains [cr; nl] (prefix ++ extra) = false ->
  zlen (prefix ++ extra) < 128 ->
  is_nip05_request (prefix ++ extra) = true /\ nip05_preface (Some (prefix ++ extra) :: peeks) = false.
Proof.
  intros Hin Hne Hc Hl. split.
  - unfold is_nip05_request. apply existsb_exists. exists prefix.
    split; [by apply list_elem_of_In | apply bytes_prefix_spec; eauto].
  - assert (existsb (fun q => bytes_prefix (prefix ++ extra) q) PREFIXES = false) as He.
    { destruct extra as [|x extra]; [done|]. unfold PREFIXES in Hin.
      repeat (apply elem_of_cons in Hin as [->|Hin]; [reflexivity|]). by apply elem_of_nil in Hin. }
    destruct (prefix ++ extra) as [|b head]; [discriminate He|]. cbn [nip05_preface].
    rewrite Hc, He. destruct (_ =? _) eqn:E; [split_bools; lia | done].
Qed.

(** ** Witnesses *)

(** escape every byte that is not a letter *)
Definition escape_some (b : byte) : bool := negb (is_ascii_lowercase b).

Lemma nip05_http_exact_witness :
  http_serve sample_config
    (map Some [take 20 (http_request escape_some "bob" "Host: example"); drop 20 (http_request escape_some "bob" "Host: example")])
    [] sample_service =
  (Some (write_response 404 no_names), sample_service).
Proof.
  rewrite (nip05_http_exact sample_config escape_some "bob" "Host: example" []).
  - vm_compute. reflexivity.
  - intros b. by destruct b.
  - reflexivity.
  - vm_compute. discriminate.
  - repeat constructor; vm_compute; discriminate.
  - cbn [concat]. by rewrite app_nil_r, take_drop, app_nil_r.
Defined.

Lemma preface_misroutes_witness :
  is_nip05_request (as_bytes "GET /.well-known/nostr.json" ++ as_bytes "?name=bo") = true /\
  nip05_preface [Some (as_bytes "GET /.well-known/nostr.json" ++ as_bytes "?name=bo");
                 Some (as_bytes ("GET /.well-known/nostr.json?name=bob HTTP/1.1" ++ crlf))] = false.
Proof.
  apply preface_misroutes; [|discriminate | reflexivity | reflexivity].
  apply list_elem_of_In. left. reflexivity.
Defined.
