(* ===== verification/Nip05.v ===== *)
(** * Resolving a NIP-05 handle ([omachat-nostr/src/nip05.rs])

    The client side of NIP-05: the URL is derived from the handle alone, fetched with the
    bounded HTTP client, and the key read from the document. With the server side of
    [ServerNip05], the two ends of a lookup are composed here. *)

From Stdlib Require Import Strings.Byte Ascii String.
From stdpp Require Import pretty.
From S2P Require Import Prelude RustStd BTree Libs Serde Concrete Event Frame Relay Nip11 Account Hosted Storage Service ServerNip05.
Local Open Scope Z_scope.

Definition MAX_DOCUMENT_BYTES : Z := 64 * 1024.

Record ResolvedNip05 := {
  rn_name : string;
  rn_domain : string;
  rn_public_key : bytes
}.

(** [Fetch] also carries a panic of the HTTP client. *)
Inductive Nip05Error :=
| N5InvalidHandle
| N5NotFound
| N5Malformed
| N5Fetch (e : HttpFailure).

Definition is_handle_name_byte (b : byte) : bool :=
  is_ascii_alphanumeric b || (byte_val b =? 95) || (byte_val b =? 45) || (byte_val b =? 46).
Definition is_domain_byte (b : byte) : bool :=
  is_ascii_alphanumeric b || (byte_val b =? 45) || (byte_val b =? 46).

Definition parse_handle (handle : string) : result Nip05Error (string * string) :=
  fail_if (320 <? slen handle) || existsb is_whitespace (chars handle) with N5InvalidHandle ;;
  match split_once x40 (as_bytes handle) with
  | None => Err N5InvalidHandle
  | Some (name, domain) =>
      fail_if (zlen name =? 0) || (zlen domain =? 0) || contains [x40] name || contains [x40] domain
        || negb (forallb is_handle_name_byte name) || negb (forallb is_domain_byte domain)
        with N5InvalidHandle ;;
      Ok (to_ascii_lowercase (of_bytes name), to_ascii_lowercase (of_bytes domain))
  end.

Definition validate_public_domain (domain : string) : result Nip05Error unit :=
  let b := as_bytes domain in
  fail_if (253 <? slen domain) || negb (contains [x2e] b) || bytes_prefix [x2e] b || bytes_prefix [x2e] (reverse b)
    || contains [x2e; x2e] b || bool_decide (is_Some (parse_ip domain)) with N5InvalidHandle ;;
  Ok tt.

Section Nip05.
Context {hex : Hex} {json : Json} {schnorr : Schnorr} {url : UrlLib}.

Definition loopback_url (base name : string) : result Nip05Error string :=
  let? parsed := ok_or N5InvalidHandle (url_parse base) in
  let loopback := String.eqb (url_scheme parsed) "http"
    && match url_host parsed with
       | Some (HostIpv4 address) => is_loopback (V4 address)
       | Some (HostIpv6 address) => is_loopback (V6 address)
       | _ => false
       end in
  fail_if negb loopback || bool_decide (is_Some (url_query parsed)) || bool_decide (is_Some (url_fragment parsed))
    with N5InvalidHandle ;;
  Ok (url_to_string (url_append_pair "name" name (url_set_path "/.well-known/nostr.json" parsed))).

Definition well_known_url (domain name : string) : string :=
  ("https://" +:+ domain +:+ "/.well-known/nostr.json?name=" +:+ name)%string.

(** [names.iter().find(..)]: the map iterates in key order. *)
Definition find_name (name : string) (names : BTreeMap Value) : option Value :=
  snd <$> find (fun kv => eq_ignore_ascii_case (as_bytes kv.1) (as_bytes name)) names.

Definition public_key_from_document (body : bytes) (name : string) : result Nip05Error bytes :=
  let? document := ok_or N5Malformed (json_from_slice body) in
  let? names := ok_or N5Malformed
    (match document with
     | JObject members =>
         match bt_get "names"%string (object_map members) with Some (JObject m) => Some (object_map m) | _ => None end
     | _ => None
     end) in
  let? encoded := ok_or N5NotFound (v ← find_name name names; de_string v) in
  fail_if negb (slen encoded =? 64) || negb (bytes_all is_ascii_hexdigit encoded) with N5Malformed ;;
  let? public_key := ok_or N5Malformed (hex_decode_to_slice 32 encoded) in
  fail_if negb (schnorr_key_ok public_key) with N5Malformed ;;
  Ok public_key.

Definition resolve_handle (net : Network) (handle : string) (loopback_base : option string)
  : result Nip05Error ResolvedNip05 :=
  let? nd := parse_handle handle in
  let '(name, domain) := nd in
  let? url_text :=
    match loopback_base with
    | Some base => loopback_url base name
    | None => let? _ := validate_public_domain domain in Ok (well_known_url domain name)
    end in
  let? body := map_err N5Fetch (fetch_http_document net url_text "application/json" MAX_DOCUMENT_BYTES) in
  let? public_key := public_key_from_document body name in
  Ok {| rn_name := name; rn_domain := domain; rn_public_key := public_key |}.
End Nip05.

(** ** Header lines *)

Fixpoint join_lines (lines : list bytes) : bytes :=
  match lines with
  | [] => []
  | [l] => l
  | l :: lines => l ++ Nip11.crlf ++ join_lines lines
  end.

Definition line_ok (l : bytes) : bool :=
  forallb (fun b => negb (Byte.eqb b cr)) l && negb (zlen l =? 0).

Lemma split_first_skip p l x :
  forallb (fun b => negb (Byte.eqb b cr)) l = true ->
  split_first (cr :: p) (l ++ x) = (fun r => (l ++ r.1, r.2)) <$> split_first (cr :: p) x.
Proof.
  induction l as [|b l IH]; intros Hl; [cbn [app]; by destruct (split_first (cr :: p) x) as [[]|]|].
  cbn [forallb] in Hl. split_bools. cbn [app split_first bytes_prefix].
  assert (Byte.eqb cr b = false) as ->.
  { destruct (Byte.eqb cr b) eqn:E; [|done]. apply Byte.byte_dec_bl in E as <-. done. }
  cbn [andb]. rewrite IH by done. by destruct (split_first (cr :: p) x) as [[]|].
Qed.

Lemma split_first_join lines body :
  lines <> [] -> forallb line_ok lines = true ->
  split_first (Nip11.crlf ++ Nip11.crlf) (join_lines lines ++ Nip11.crlf ++ Nip11.crlf ++ body) = Some (join_lines lines, body).
Proof.
  intros Hne Hl. induction lines as [|l lines IH]; [done|]. cbn [forallb] in Hl. unfold line_ok at 1 in Hl. split_bools.
  destruct lines as [|l' lines].
  - cbn [join_lines]. change (Nip11.crlf ++ Nip11.crlf) with (cr :: [nl; cr; nl]) at 1. rewrite split_first_skip by done.
    destruct body; cbn; by rewrite app_nil_r.
  - change (join_lines (l :: l' :: lines)) with (l ++ Nip11.crlf ++ join_lines (l' :: lines)). rewrite <- !app_assoc.
    change (Nip11.crlf ++ Nip11.crlf) with (cr :: [nl; cr; nl]) at 1. rewrite split_first_skip by done.
    specialize (IH ltac:(done) ltac:(done)). change (Nip11.crlf ++ Nip11.crlf) with (cr :: [nl; cr; nl]) in IH at 1.
    set (rest := join_lines (l' :: lines) ++ Nip11.crlf ++ Nip11.crlf ++ body) in *.
    assert (exists c rest', rest = c :: rest' /\ Byte.eqb cr c = false) as (c & rest' & Er & Hc).
    { cbn [forallb] in *. unfold line_ok at 1 in H0. split_bools. destruct l' as [|c l']; [done|].
      cbn [forallb] in *. split_bools. exists c. destruct lines; cbn [join_lines app] in *; eexists; (split; [reflexivity|]);
        (destruct (Byte.eqb cr c) eqn:E; [|done]; apply Byte.byte_dec_bl in E as <-; done). }
    assert (split_first (cr :: [nl; cr; nl]) (Nip11.crlf ++ rest) = Some (Nip11.crlf ++ join_lines (l' :: lines), body)) as ->; [|done].
    change (Nip11.crlf ++ rest) with (cr :: nl :: rest). cbn [split_first bytes_prefix].
    rewrite Er at 1. rewrite Hc. cbn [andb Byte.eqb]. change (Byte.eqb cr nl) with false. cbn [andb].
    rewrite Er in IH |- *. rewrite IH. done.
Qed.

Lemma split_first_crlf_none l : forallb (fun b => negb (Byte.eqb b cr)) l = true -> split_first Nip11.crlf l = None.
Proof.
  intros Hl. rewrite <- (app_nil_r l). change Nip11.crlf with (cr :: [nl]). rewrite split_first_skip by done. done.
Qed.

Lemma split_all_join lines fuel :
  lines <> [] -> forallb line_ok lines = true -> (length lines <= S fuel)%nat ->
  split_all fuel Nip11.crlf (join_lines lines) = lines.
Proof.
  intros Hne Hl. revert fuel. induction lines as [|l lines IH]; [done|]. intros fuel Hf. cbn [forallb] in Hl.
  unfold line_ok at 1 in Hl. split_bools. destruct lines as [|l' lines].
  - cbn [join_lines]. destruct fuel; cbn [split_all]; by rewrite split_first_crlf_none.
  - change (join_lines (l :: l' :: lines)) with (l ++ Nip11.crlf ++ join_lines (l' :: lines)).
    cbn [length] in *. destruct fuel as [|fuel]; [lia|]. cbn [split_all]. rewrite split_first_crlf by done. rewrite IH by (done || lia). done.
Qed.

Lemma join_lines_length lines : forallb line_ok lines = true -> (length lines <= S (length (join_lines lines)))%nat.
Proof.
  induction lines as [|l lines IH]; [cbn; lia|]. cbn [forallb]. intros Hl. split_bools. destruct lines as [|l' lines]; [cbn; lia|].
  specialize (IH ltac:(done)). change (join_lines (l :: l' :: lines)) with (l ++ Nip11.crlf ++ join_lines (l' :: lines)).
  rewrite !length_app. cbn [length] in *. change (length Nip11.crlf) with 2%nat. lia.
Qed.

Lemma split_str_join lines : lines <> [] -> forallb line_ok lines = true -> split_str Nip11.crlf (join_lines lines) = lines.
Proof. intros Hne Hl. unfold split_str. apply split_all_join; [done|done|by apply join_lines_length]. Qed.

(** ** The server's response, read by the client *)

Definition head_lines (status n : Z) : list bytes :=
  [as_bytes ("HTTP/1.1 " +:+ show status +:+ " " +:+ reason_phrase status);
   as_bytes "Content-Type: application/json; charset=utf-8";
   as_bytes "Content-Length:" ++ x20 :: as_bytes (show n);
   as_bytes "Access-Control-Allow-Origin: *";
   as_bytes "Access-Control-Allow-Methods: GET, HEAD, OPTIONS";
   as_bytes "Cache-Control: no-store";
   as_bytes "Connection: close"].

Lemma write_head_lines status n :
  as_bytes (write_head status n) = join_lines (head_lines status n) ++ Nip11.crlf ++ Nip11.crlf.
Proof.
  unfold write_head, head_lines. cbn [join_lines]. rewrite !as_bytes_app.
  change (as_bytes crlf) with Nip11.crlf. change (as_bytes "Content-Length: ") with (as_bytes "Content-Length:" ++ [x20]).
  by rewrite <- !app_assoc.
Qed.

Definition known_status (status : Z) : bool := bool_decide (status ∈ [200; 400; 404; 500]).

Lemma known_status_cases status : known_status status = true -> status = 200 \/ status = 400 \/ status = 404 \/ status = 500.
Proof.
  unfold known_status. intros H%bool_decide_eq_true. repeat (apply elem_of_cons in H as [->|H]; [by auto|]). by apply elem_of_nil in H.
Qed.

Lemma digits_graphic l : forallb is_ascii_digit l = true -> forallb is_graphic l = true.
Proof. apply forallb_impl. intros b. unfold is_ascii_digit, is_graphic, in_range. lia. Qed.

Lemma head_lines_ok status n : known_status status = true -> 0 <= n -> forallb line_ok (head_lines status n) = true.
Proof.
  intros Hs Hn. unfold head_lines. cbn [forallb].
  assert (line_ok (as_bytes "Content-Length:" ++ x20 :: as_bytes (show n)) = true) as ->.
  { unfold line_ok. rewrite forallb_app. cbn [forallb]. destruct (show_digits n Hn) as [Hd _].
    assert (forallb (fun b => negb (Byte.eqb b cr)) (as_bytes (show n)) = true) as ->.
    { eapply forallb_impl, Hd. intros b. by destruct b. }
    rewrite zlen_app. pose proof (zlen_nonneg (x20 :: as_bytes (show n))). change (zlen (as_bytes "Content-Length:")) with 15.
    rewrite (proj2 (Z.eqb_neq _ _)) by lia. done. }
  apply known_status_cases in Hs as [->|[->|[->| ->]]]; vm_compute; reflexivity.
Qed.

Lemma trim_end_graphic w : forallb is_graphic w = true -> trim_end w = w.
Proof.
  induction w as [|b w IH]; [done|]. cbn [forallb]. intros Hw. split_bools. cbn [trim_end length all_whitespace].
  rewrite ws_len_graphic by done. by rewrite IH.
Qed.

Lemma trim_space_graphic w : forallb is_graphic w = true -> trim (x20 :: w) = w.
Proof.
  intros Hw. unfold trim. cbn [length skip_whitespace]. change (ws_len (x20 :: w)) with 1%nat. cbv iota.
  rewrite skipn_cons, skipn_O. assert (skip_whitespace (length w) w = w) as ->; [|by apply trim_end_graphic].
  destruct w as [|b w]; [done|]. cbn [forallb] in Hw. split_bools. cbn [length skip_whitespace]. by rewrite ws_len_graphic.
Qed.

Lemma header_loop_head status n :
  0 <= n <= u64_max -> header_loop (tail (head_lines status n)) None false = Ok (Some n, false).
Proof.
  intros Hn. unfold head_lines. cbn [tail].
  assert (forall lines cl, header_loop (as_bytes "Content-Type: application/json; charset=utf-8" :: lines) cl false =
    header_loop lines cl false) as -> by reflexivity.
  assert (forall lines cl, header_loop ((as_bytes "Content-Length:" ++ x20 :: as_bytes (show n)) :: lines) cl false =
    header_loop lines (Some n) false) as ->; [|reflexivity].
  intros lines cl. cbn [header_loop].
  assert (split_once x3a (as_bytes "Content-Length:" ++ x20 :: as_bytes (show n)) =
    Some (as_bytes "Content-Length", x20 :: as_bytes (show n))) as -> by reflexivity.
  rewrite trim_space_graphic by (apply digits_graphic, show_digits; lia). rewrite parse_show by done.
  change (eq_ignore_ascii_case (as_bytes "Content-Length") (as_bytes "content-length")) with true. cbv iota. done.
Qed.

Lemma parse_status_head status : known_status status = true ->
  parse_status (as_bytes ("HTTP/1.1 " +:+ show status +:+ " " +:+ reason_phrase status)) = Ok status.
Proof. intros [->|[->|[->| ->]]]%known_status_cases; vm_compute; reflexivity. Qed.

Lemma head_ascii status n : known_status status = true -> 0 <= n ->
  is_ok (ok_or tt (from_utf8 (join_lines (head_lines status n)))) = true.
Proof.
  intros Hs Hn. unfold from_utf8. rewrite utf8_decode_ascii; [done|]. unfold head_lines. cbn [join_lines].
  assert (forallb (fun b => byte_val b <? 128) (as_bytes (show n)) = true) as Hd.
  { eapply forallb_impl, show_digits; [|done]. intros b. unfold is_ascii_digit, in_range. lia. }
  rewrite !forallb_app. cbn [forallb]. rewrite Hd.
  apply known_status_cases in Hs as [->|[->|[->| ->]]]; vm_compute; reflexivity.
Qed.

Lemma head_length status n : known_status status = true -> 0 <= n < 10 ^ 20 ->
  zlen (join_lines (head_lines status n)) + 4 <= 512.
Proof.
  intros Hs Hn. unfold head_lines. cbn [join_lines]. rewrite !zlen_app, zlen_cons.
  rewrite (zlen_as_bytes (show n)). pose proof (show_length 20 n ltac:(done) ltac:(lia)).
  apply known_status_cases in Hs as [->|[->|[->| ->]]].
  all: repeat match goal with |- context [zlen ?x] => let v := eval vm_compute in (zlen x) in change (zlen x) with v end; lia.
Qed.

Section Response.
Context {json : Json}.

(** What the client makes of an answer of the server *)
Lemma try_complete_response status document eof limits :
  known_status status = true -> zlen (json_to_vec document) <= max_document_bytes limits -> max_document_bytes limits <= u64_max ->
  try_complete (write_response status document) eof limits =
    if status =? 200 then Ok (Some (json_to_vec document)) else Err (HttpError (NIHttpStatus status)).
Proof.
  intros Hs Hz Hmax. unfold write_response. set (b := json_to_vec document) in *. pose proof (zlen_nonneg b).
  unfold try_complete. rewrite write_head_lines, <- !app_assoc, split_first_join; [|done|by apply head_lines_ok].
  rewrite head_ascii by done. cbn [negb]. rewrite split_str_join; [|done|by apply head_lines_ok].
  unfold head_lines at 1. rewrite parse_status_head by done. cbn [rbind].
  pose proof (header_loop_head status (zlen b) ltac:(lia)) as Hh. cbn [tail head_lines] in Hh. rewrite Hh. cbn [rbind fst snd].
  rewrite Z.ltb_irrefl. cbn [rbind].
  assert (take (Z.to_nat (zlen b)) b = b) as -> by (apply take_ge; unfold zlen; lia).
  rewrite (proj2 (Z.ltb_ge _ _)) by done. by destruct (status =? 200).
Qed.

Lemma exchange_response status document limits pieces :
  known_status status = true -> zlen (json_to_vec document) <= max_document_bytes limits -> max_document_bytes limits <= 2 ^ 20 ->
  Forall (fun r => r <> []) pieces -> concat pieces = write_response status document ->
  exchange limits (map Ok pieces ++ [Ok []]) [] =
    if status =? 200 then Ok (json_to_vec document) else Err (HttpError (NIHttpStatus status)).
Proof.
  intros Hs Hz Hmax Hp Hc. pose proof (zlen_nonneg (json_to_vec document)).
  assert (write_response status document = join_lines (head_lines status (zlen (json_to_vec document)))
    ++ Nip11.crlf ++ Nip11.crlf ++ json_to_vec document) as Ew.
  { unfold write_response. by rewrite write_head_lines, <- !app_assoc. }
  assert (zlen (json_to_vec document) < 10 ^ 20) as Hd by (change (10 ^ 20) with 100000000000000000000; change (2 ^ 20) with 1048576 in Hmax; lia).
  pose proof (head_length status (zlen (json_to_vec document)) Hs (conj H Hd)).
  assert (zlen (write_response status document) <= MAX_HEADER_BYTES + max_document_bytes limits) as Hlen.
  { rewrite Ew, !zlen_app. change (zlen Nip11.crlf) with 2. unfold MAX_HEADER_BYTES. lia. }
  assert (write_response status document <> []) as Hne by (unfold write_response; by destruct (as_bytes (write_head _ _)) eqn:E; [apply as_bytes_nil in E|]).
  rewrite exchange_pieces; cbn [app].
  - rewrite Hc, exchange_read by done. cbn [app]. rewrite (proj2 (Z.ltb_ge _ _)) by done.
    rewrite try_complete_response by (done || unfold u64_max; lia). by destruct (status =? 200).
  - intros ->. cbn in Hc. congruence.
  - done.
  - rewrite Hc. intros head body. rewrite Ew, split_first_join; [|done|by apply head_lines_ok].
    intros E%(inj Some). apply (f_equal fst) in E. cbn [fst] in E. rewrite <- E. unfold MAX_HEADER_BYTES. lia.
  - by rewrite Hc.
  - lia.
Qed.
End Response.

(** ** Handles *)

Lemma lower_name_byte b : is_handle_name_byte b = true ->
  is_unreserved (ascii_lower b) = true /\ is_ascii_control (ascii_lower b) = false /\ (byte_val (ascii_lower b) <? 128) = true /\
  ascii_lower (ascii_lower b) = ascii_lower b.
Proof. destruct b; try discriminate; intros _; vm_compute; auto. Qed.

Lemma domain_byte_name b : is_domain_byte b = true -> is_handle_name_byte b = true.
Proof. unfold is_domain_byte, is_handle_name_byte. rewrite !orb_true_iff. tauto. Qed.

(** The bytes of both parts of a handle *)
Lemma parse_handle_inv h name domain :
  parse_handle h = Ok (name, domain) ->
  exists n d, name = to_ascii_lowercase (of_bytes n) /\ domain = to_ascii_lowercase (of_bytes d) /\
    forallb is_handle_name_byte n = true /\ forallb is_handle_name_byte d = true /\ zlen n + zlen d <= 320 /\ n <> [].
Proof.
  unfold parse_handle. intros Hp. apply fail_if_ok_inv in Hp as [Hl Hp]. split_bools.
  destruct (split_once x40 (as_bytes h)) as [[n d]|] eqn:Es; [|done].
  apply fail_if_ok_inv in Hp as [Hg Hp]. injection Hp as <- <-. split_bools.
  exists n, d. split_and!; [done|done|done| | |].
  - eapply forallb_impl; [exact domain_byte_name | done].
  - apply split_once_some in Es. rewrite <- zlen_as_bytes, Es, zlen_app, zlen_cons in *. lia.
  - by intros ->.
Qed.

Lemma lower_bytes n : as_bytes (to_ascii_lowercase (of_bytes n)) = map ascii_lower n.
Proof. unfold to_ascii_lowercase. by rewrite !as_bytes_of_bytes. Qed.

Lemma lower_forallb (p : byte -> bool) n :
  (forall b, is_handle_name_byte b = true -> p (ascii_lower b) = true) ->
  forallb is_handle_name_byte n = true -> forallb p (map ascii_lower n) = true.
Proof.
  intros Hp Hn. apply forallb_forall. intros x (b & <- & Hb)%in_map_iff. eapply Hp, forallb_forall; [exact Hn | exact Hb].
Qed.

Lemma lowercase_idem n : forallb is_handle_name_byte n = true ->
  to_ascii_lowercase (to_ascii_lowercase (of_bytes n)) = to_ascii_lowercase (of_bytes n).
Proof.
  intros Hn. apply as_bytes_inj. unfold to_ascii_lowercase. rewrite !as_bytes_of_bytes, map_map. apply map_ext_in.
  intros b Hb. apply lower_name_byte. eapply forallb_forall; [exact Hn | exact Hb].
Qed.

(** ** A lookup, from end to end *)

(** The network between a client and this server: the host looks at the first bytes of the
    request as they arrive, after [looks request] bytes each time, and takes it for a lookup
    or for a WebSocket; a lookup reaches the server in some pieces, its response the client
    in some pieces, and the stream ends. What the WebSocket library does with a request
    that is none is a parameter. *)
Definition server_network `{Hex, Json, Schnorr, Bech32, Ed25519} (config : ServiceConfig) (service : Service)
  (websocket : bytes -> result RelayInformationError (list (result string bytes)))
  (looks : bytes -> list nat) (cut : bytes -> list bytes) : Network := fun _ _ _ _ request =>
  if nip05_preface (map (peek request) (looks request)) then
    match (http_serve config (map Some (cut request)) [] service).1 with
    | Some response => Ok (map Ok (cut response) ++ [Ok []])
    | None => Ok [Ok []]
    end
  else websocket request.

(** Escaping only what must be escaped *)
Definition escape_reserved (b : byte) : bool := negb (is_unreserved b).

Section Lookup.
Context {hex : Hex} {json : Json} {schnorr : Schnorr} {bech : Bech32} {ed : Ed25519} {url : UrlLib}.
Context {hex_laws : HexLaws} {json_laws : JsonLaws}.

Lemma http_get_request name host :
  forallb is_unreserved (as_bytes name) = true ->
  http_get ("/.well-known/nostr.json?name=" +:+ name) host "application/json" =
    http_request escape_reserved name
      ("Host: " +:+ host +:+ crlf +:+ "Accept: application/json" +:+ crlf +:+ "User-Agent: omachat" +:+ crlf +:+ "Connection: close").
Proof.
  intros Hn. unfold http_get, http_request, request_line, lookup_target.
  assert (percent_encode escape_reserved (as_bytes name) = as_bytes name) as ->.
  { unfold percent_encode. revert Hn. generalize (as_bytes name). intros l. induction l as [|b l IH]; [done|].
    cbn [forallb flat_map]. intros Hl. split_bools. unfold escape_reserved at 1.
    match goal with E : is_unreserved b = true |- _ => rewrite E end. cbn [negb app]. by rewrite IH. }
  rewrite !as_bytes_app. change (as_bytes crlf) with Nip11.crlf. rewrite <- !app_assoc. cbn [app]. rewrite <- !app_assoc.
  change (as_bytes "GET ") with (as_bytes "GET" ++ [x20]). change (as_bytes " HTTP/1.1") with (x20 :: as_bytes "HTTP/1.1").
  change (as_bytes "Accept: application/json") with (as_bytes "Accept: " ++ as_bytes "application/json").
  change [cr; nl; cr; nl] with (Nip11.crlf ++ Nip11.crlf). change (cr :: nl :: ?x) with (Nip11.crlf ++ x).
  rewrite <- !app_assoc. reflexivity.
Qed.

Lemma public_key_document config name k :
  utf8_valid name = true -> zlen k = 32 -> schnorr_key_ok k = true -> forallb utf8_valid (nip05_relays config) = true ->
  public_key_from_document (json_to_vec (JObject (("names"%string, JObject [(name, JString (hex_encode k))]) ::
    if zlen (nip05_relays config) =? 0 then []
    else [("relays"%string, JObject [(hex_encode k, JArray (map JString (nip05_relays config)))])]))) name = Ok k.
Proof using hex_laws json_laws.
  intros Hn Hk Hok Hr. unfold public_key_from_document.
  assert (utf8_valid (hex_encode k) = true) as Hhex.
  { unfold utf8_valid. rewrite utf8_decode_ascii; [done|]. eapply forallb_impl, hex_encode_lower. intros b. by destruct b. }
  rewrite json_roundtrip.
  - cbn [ok_or rbind]. assert (forall l, bt_get "names"%string (object_map (("names"%string, JObject [(name, JString (hex_encode k))]) ::
      if zlen l =? 0 then [] else [("relays"%string, JObject [(hex_encode k, JArray (map JString l))])])) =
        Some (JObject [(name, JString (hex_encode k))])) as -> by (intros l; by destruct (zlen l =? 0)).
    cbn [ok_or rbind]. unfold find_name. cbn [object_map fold_left bt_insert find fst snd].
    unfold eq_ignore_ascii_case. rewrite bool_decide_true by done. cbn [fmap option_fmap option_map mbind option_bind de_string snd ok_or rbind].
    rewrite hex_encode_length, Hk. cbn [negb Z.eqb Z.mul Pos.mul Pos.eqb orb].
    assert (bytes_all is_ascii_hexdigit (hex_encode k) = true) as ->.
    { eapply forallb_impl, hex_encode_lower. intros b. by destruct b. }
    cbn [negb]. rewrite hex_decode_to_slice_encode by done. cbn [ok_or rbind]. by rewrite Hok.
  - destruct (zlen _ =? 0); cbn [json_wf forallb fst snd]; rewrite Hn, Hhex; [done|]. cbn [andb].
    change (utf8_valid "names") with true. change (utf8_valid "relays") with true. rewrite ?andb_true_r. cbn [andb].
    change (json_wf (ser_strings (nip05_relays config)) = true). by rewrite json_wf_strings.
Qed.
End Lookup.

(** ** Properties *)

Section EndToEnd.
Context {hex : Hex} {json : Json} {schnorr : Schnorr} {bech : Bech32} {ed : Ed25519} {url : UrlLib}.
Context {hex_laws : HexLaws} {json_laws : JsonLaws}.

(** A lookup of [name] at [domain]: its URL, split as the URL library documents *)
Record lookup_url (name domain : string) (u : Url) (host : string) : Prop := {
  lu_parse : url_parse (well_known_url domain name) = Some u;
  lu_scheme : url_scheme u = "https"%string;
  lu_host : url_host_str u = Some host;
  lu_port : is_Some (url_port_or_known_default u);
  lu_path : url_path u = "/.well-known/nostr.json"%string;
  lu_query : url_query u = Some ("name=" +:+ name)%string
}.

Variables (config : ServiceConfig) (d : Database) (t : Entropy) (subs : gmap string (list Z)).
Variables (websocket : bytes -> result RelayInformationError (list (result string bytes))) (looks : bytes -> list nat).
Variable cut : bytes -> list bytes.
Let service := {| storage := quiet d t; subscribers := subs |}.

(** What the client receives of a lookup, over any cutting into pieces *)
Lemma fetch_lookup name domain u host :
  (forall b, Forall (fun r => r <> []) (cut b) /\ concat (cut b) = b) ->
  forallb is_unreserved (as_bytes name) = true -> utf8_valid name = true ->
  existsb is_ascii_control (as_bytes (well_known_url domain name)) = false -> slen (well_known_url domain name) <= 2048 ->
  lookup_url name domain u host ->
  zlen (http_get (request_path u) (host_header u host) "application/json") <= MAX_REQUEST_BYTES ->
  sees_first_line (http_get (request_path u) (host_header u host) "application/json")
    (looks (http_get (request_path u) (host_header u host) "application/json")) ->
  (forall doc, (nip05 config name (quiet d t)).1 = Ok doc -> zlen (json_to_vec doc) <= MAX_DOCUMENT_BYTES) ->
  zlen (json_to_vec no_names) <= MAX_DOCUMENT_BYTES ->
  fetch_http_document (server_network config service websocket looks cut) (well_known_url domain name) "application/json" MAX_DOCUMENT_BYTES =
    match (nip05 config name (quiet d t)).1 with
    | Ok document => Ok (json_to_vec document)
    | Err (Refused e) => Err (HttpError (NIHttpStatus (status_for e)))
    | Err Panicked => Err (HttpError (NIHttpStatus 500))
    end.
Proof using Type.
  intros Hcut Hun Hutf Hctl Hlen [Hp Hs Hh [port Hport] Hpath Hq] Hreq Hsee Hdoc Hno. unfold fetch_http_document.
  rewrite Hctl, (proj2 (Z.ltb_ge 2048 _)) by done.
  change (_ || _) with false. cbv iota. rewrite Hp. cbn [ok_or rbind]. rewrite Hs. cbn [rbind]. unfold http_exchange.
  rewrite Hh, Hport. cbn [ok_or rbind]. unfold request_path in *. rewrite Hpath, Hq in *.
  change (if slen "/.well-known/nostr.json" =? 0 then _ else _) with "/.well-known/nostr.json"%string in *.
  change ("/.well-known/nostr.json" +:+ "?" +:+ "name=" +:+ name)%string with ("/.well-known/nostr.json?name=" +:+ name)%string in *.
  rewrite http_get_request in * by done. unfold server_network.
  set (request := http_request _ _ _) in *. rewrite (preface_accepts request (drop 27 request) _ eq_refl Hsee). destruct (Hcut request) as [Hc1 Hc2].
  assert (forall b, escape_reserved b = false -> is_unreserved b = true) as Hesc.
  { intros b. unfold escape_reserved. by destruct (is_unreserved b). }
  rewrite (http_serve_lookup escape_reserved Hesc config name _ []) by (done || by rewrite app_nil_r).
  unfold lookup_answer, handle, on_storage, se_zoom. cbn [storage service].
  set (limits := {| max_document_bytes := _ |}).
  assert (forall status document, known_status status = true -> zlen (json_to_vec document) <= MAX_DOCUMENT_BYTES ->
    exchange limits (map Ok (cut (write_response status document)) ++ [Ok []]) [] =
    if status =? 200 then Ok (json_to_vec document) else Err (HttpError (NIHttpStatus status))) as Hex.
  { intros status document Hst Hz. destruct (Hcut (write_response status document)) as [Hw1 Hw2].
    apply exchange_response; try done. }
  destruct (nip05 config name (quiet d t)) as [[document|[e|]] st] eqn:En; cbn [fst snd map_err rbind].
  - rewrite Hex; [done | done | by apply Hdoc].
  - assert (known_status (status_for e) = true /\ (status_for e =? 200) = false) as [Hst Hne].
    { unfold status_for. by destruct (code e). }
    rewrite Hex by done. by rewrite Hne.
  - by rewrite Hex.
Qed.

(** C18: A NIP-05 lookup works from end to end. For any handle the client accepts at a public
    domain served by an intact database, the client resolves exactly the key bound to the
    account that claimed the name; when there is none it reports status 404, or 400 for a
    name longer than the server's 64 bytes. The request and the response may be cut into
    pieces in any way, provided that whenever the host looks at the first bytes to tell a
    lookup from a WebSocket it sees no more than the path, until it sees the first line or
    128 bytes: a first segment that ends in between is misrouted. The request and the
    document are assumed to be within the limits of server and client. *)
Theorem nip05_end_to_end h name domain u host :
  (forall b, Forall (fun r => r <> []) (cut b) /\ concat (cut b) = b) ->
  service_ok d -> (forall i k, key_owner d k i -> schnorr_key_ok k = true) -> forallb utf8_valid (nip05_relays config) = true ->
  parse_handle h = Ok (name, domain) -> validate_public_domain domain = Ok tt -> lookup_url name domain u host ->
  let request := http_get (request_path u) (host_header u host) "application/json" in
  zlen request <= MAX_REQUEST_BYTES -> sees_first_line request (looks request) ->
  (forall doc, (nip05 config name (quiet d t)).1 = Ok doc -> zlen (json_to_vec doc) <= MAX_DOCUMENT_BYTES) ->
  zlen (json_to_vec no_names) <= MAX_DOCUMENT_BYTES ->
  let resolved := resolve_handle (server_network config service websocket looks cut) h None in
  (forall i k, handle_owner d name i -> key_owner d k i ->
     resolved = Ok {| rn_name := name; rn_domain := domain; rn_public_key := k |}) /\
  ((forall i k, handle_owner d name i -> key_owner d k i -> False) ->
     resolved = Err (N5Fetch (HttpError (NIHttpStatus (if 64 <? slen name then 400 else 404))))).
Proof using hex_laws json_laws.
  intros Hcut Hd Hkeys Hrel Hh Hdom Hurl request Hreq Hsee Hdoc Hno. cbv zeta.
  destruct (parse_handle_inv _ _ _ Hh) as (n & dm & Hname & Hdomain & Hn & Hdm & Hlen & Hne).
  assert (forallb is_unreserved (as_bytes name) = true) as Hun.
  { rewrite Hname, lower_bytes. apply lower_forallb; [apply lower_name_byte | done]. }
  assert (utf8_valid name = true) as Hutf.
  { unfold utf8_valid. rewrite Hname, lower_bytes, utf8_decode_ascii; [done|]. apply lower_forallb; [apply lower_name_byte | done]. }
  assert (to_ascii_lowercase name = name) as Hlow by (rewrite Hname; by apply lowercase_idem).
  assert (existsb is_ascii_control (as_bytes (well_known_url domain name)) = false) as Hctl.
  { unfold well_known_url. rewrite !as_bytes_app, Hname, Hdomain, !lower_bytes. apply not_true_iff_false.
    intros (x & Hx & Hc)%existsb_exists.
    assert (forall l, forallb is_handle_name_byte l = true -> In x (map ascii_lower l) -> False) as Hm.
    { intros l Hl (b & <- & Hb)%in_map_iff. eapply forallb_forall in Hl; [|exact Hb]. apply lower_name_byte in Hl. destruct Hl as (_ & Hf & _). congruence. }
    assert (forall s, forallb (fun b => negb (is_ascii_control b)) (as_bytes s) = true -> In x (as_bytes s) -> False) as Hk.
    { intros s Hs Hin. eapply forallb_forall in Hs; [|exact Hin]. by rewrite Hc in Hs. }
    rewrite !in_app_iff in Hx. destruct Hx as [Hx|[Hx|[Hx|Hx]]]; [eapply Hk, Hx; reflexivity | by eapply Hm, Hx | eapply Hk, Hx; reflexivity | by eapply Hm, Hx]. }
  assert (slen (well_known_url domain name) <= 2048) as Hul.
  { unfold well_known_url. rewrite <- zlen_as_bytes, !as_bytes_app, !zlen_app, Hname, Hdomain, !lower_bytes.
    unfold zlen in *. rewrite !length_map. cbn [as_bytes list_byte_of_string length]. 
    change (length (as_bytes "https://")) with 8%nat. change (length (as_bytes "/.well-known/nostr.json?name=")) with 29%nat. lia. }
  unfold resolve_handle. rewrite Hh. cbn [rbind]. rewrite Hdom. cbn [rbind].
  rewrite (fetch_lookup name domain u host) by done.
  pose proof (fun doc => nip05_quiet config name d t doc Hd) as Hq. rewrite Hlow in Hq. split.
  - intros i k Hi Hk. erewrite (proj2 (Hq _)) by (exists i, k; split_and!; [done | done | reflexivity]). cbn [map_err rbind].
    rewrite public_key_document; [done | done | by eapply ok_key_bytes; [apply Hd | exact Hk] | by eapply Hkeys | done].
  - intros Hnone. destruct (nip05_quiet_none config name d t Hd) as (e & He & Hcode).
    + rewrite Hname, <- zlen_as_bytes, lower_bytes. unfold zlen. rewrite length_map. by destruct n.
    + rewrite Hlow, Hname. unfold bytes_all. rewrite lower_bytes. apply lower_forallb; [|done]. intros b. by destruct b.
    + by rewrite Hlow.
    + rewrite He, Hlow in *. cbn [map_err rbind]. unfold status_for. rewrite Hcode. by destruct (64 <? slen name).
Qed.
End EndToEnd.

(** ** Witness *)

Definition cut_at_7 (b : bytes) : list bytes :=
  match take 7 b, drop 7 b with
  | [], _ => []
  | l, [] => [l]
  | l, r => [l; r]
  end.

Lemma cut_at_7_ok b : Forall (fun r => r <> []) (cut_at_7 b) /\ concat (cut_at_7 b) = b.
Proof.
  pose proof (take_drop 7 b) as E. unfold cut_at_7. destruct (take 7 b) as [|x l] eqn:Et, (drop 7 b) as [|y m]; cbn [app concat] in *;
    rewrite ?app_nil_r in *; try (split; [by repeat constructor | done]).
  exfalso. by destruct b.
Qed.

(** The host looks when seven bytes have arrived, and again when all have. *)
Definition looks_twice (request : bytes) : list nat := [7%nat; length request].
Definition no_websocket (_ : bytes) : result RelayInformationError (list (result string bytes)) := Ok [].

Definition bound_db : Database := db (storage sample_bound).

Lemma keys_check d i k :
  forallb (fun e => match a_nostr_pubkey e.2 with Some k => schnorr_key_ok k | None => true end) (map_to_list (accounts d)) = true ->
  key_owner d k i -> schnorr_key_ok k = true.
Proof.
  intros Hall (r & Hr & Hk). rewrite forallb_forall in Hall. specialize (Hall (i, r)). cbn [snd] in Hall. rewrite Hk in Hall.
  apply Hall, list_elem_of_In, elem_of_map_to_list, Hr.
Qed.

Lemma nip05_end_to_end_witness :
  resolve_handle (server_network sample_config {| storage := quiet bound_db []; subscribers := ∅ |} no_websocket looks_twice cut_at_7)
    "Alice@Example.com" None = Ok {| rn_name := "alice"; rn_domain := "example.com"; rn_public_key := key_of 7 |}.
Proof.
  destruct (url_parse (well_known_url "example.com" "alice")) as [u|] eqn:Eu; [|by vm_compute in Eu].
  assert (url_to_string u = well_known_url "example.com" "alice" /\ lookup_url "alice" "example.com" u "example.com") as [_ Hu].
  { revert Eu. vm_compute (url_parse _). intros [= <-]. split; [reflexivity|]. split; try reflexivity. eexists. reflexivity. }
  destruct (nip05_end_to_end sample_config bound_db [] ∅ no_websocket looks_twice cut_at_7 "Alice@Example.com" "alice" "example.com" u "example.com") as [Hok _].
  - exact cut_at_7_ok.
  - apply (keeps_handle 1000 service_ok); [apply closed_service_ok | discriminate | exact sample_accounts_ok].
  - intros i k. apply keys_check. vm_compute. reflexivity.
  - vm_compute. reflexivity.
  - vm_compute. reflexivity.
  - vm_compute. reflexivity.
  - exact Hu.
  - unfold request_path, host_header. rewrite (lu_path _ _ _ _ Hu), (lu_query _ _ _ _ Hu).
    revert Eu. vm_compute (url_parse _). intros [= <-]. vm_compute. discriminate.
  - exists [7%nat]. eexists. exists []. split; [reflexivity|]. split; [constructor; [lia | constructor]|]. left.
    unfold request_path, host_header. rewrite (lu_path _ _ _ _ Hu), (lu_query _ _ _ _ Hu).
    revert Eu. vm_compute (url_parse _). intros [= <-]. vm_compute. reflexivity.
  - intros doc Hdoc.
    assert ((match (nip05 sample_config "alice" (quiet bound_db [])).1 with
             | Ok doc => zlen (json_to_vec doc) <=? MAX_DOCUMENT_BYTES | Err _ => true end) = true) as Hz by (vm_compute; reflexivity).
    rewrite Hdoc in Hz. by apply Z.leb_le.
  - vm_compute. discriminate.
  - apply (Hok "a"%string (key_of 7)); eexists; (split; vm_compute; reflexivity).
Defined.
