(* ===== verification/Confirmation.v ===== *)
(** * Destructive confirmations ([omachatd/src/confirmation.rs])

    A destructive action needs a token the daemon writes to its state directory: minted
    by [issue], spent by [redeem]. *)

From Stdlib Require Import Strings.Byte Ascii String.
From S2P Require Import Prelude RustStd Libs Concrete.
Local Open Scope Z_scope.

Definition CONFIRMATION_TTL_SECONDS : Z := 2 * 60.

Inductive ConfirmationAction := PanicErase.
#[export] Instance ConfirmationAction_eq_dec : EqDecision ConfirmationAction.
Proof. solve_decision. Defined.

Definition file_name (a : ConfirmationAction) : string :=
  match a with PanicErase => "panic.token" end.

Record PendingToken := { p_action : ConfirmationAction; p_token : string; p_expires_at : Z }.
Record IssuedConfirmation := { token_path : string; expires_at : Z }.

Inductive ConfirmationError := Missing | Mismatch | Expired.
Inductive IssueError := IssueRandom | IssueIo.

#[export] Instance ConfirmationError_eq_dec : EqDecision ConfirmationError.
Proof. solve_decision. Defined.

(** The map behind the mutex, the files of the confirmations directory, the randomness
    and the plan of file-system failures ([true] fails one call). *)
Record Confirmations := {
  pending : gmap string PendingToken;
  files : gmap string string;
  c_entropy : Entropy;
  c_faults : list bool
}.

Definition with_pending p s := {| pending := p; files := files s; c_entropy := c_entropy s;
  c_faults := c_faults s |}.
Definition with_files f s := {| pending := pending s; files := f; c_entropy := c_entropy s;
  c_faults := c_faults s |}.

(** One file-system call. *)
Definition fs_call (effect : gmap string string -> gmap string string)
  : SE Confirmations IssueError unit := fun s =>
  let rest := {| pending := pending s; files := files s; c_entropy := c_entropy s;
                 c_faults := tail (c_faults s) |} in
  match c_faults s with
  | true :: _ => (Err IssueIo, rest)
  | _ => (Ok tt, with_files (effect (files s)) rest)
  end.

Section Confirmation.
Context {hex : Hex}.

Definition issue (action : ConfirmationAction) (now : Z) : SE Confirmations IssueError IssuedConfirmation :=
  let! b := se_zoom c_entropy (fun t s => {| pending := pending s; files := files s; c_entropy := t;
              c_faults := c_faults s |}) (getrandom_fill IssueRandom 32) in
  let token := hex_encode b in
  let name := file_name action in
  let! _ := fs_call (fun f => f) in                 (* create_dir_all *)
  let! _ := fs_call (fun f => f) in                 (* set_permissions *)
  let! _ := fs_call (fun f => <[name := ""%string]> f) in  (* open, truncating *)
  let! _ := fs_call (fun f => f) in                 (* set_permissions *)
  let! _ := fs_call (fun f => <[name := token]> f) in      (* write_all *)
  let expires := saturating_add u64_max now CONFIRMATION_TTL_SECONDS in
  fun s => (Ok {| token_path := name; expires_at := expires |},
            with_pending (<[name := {| p_action := action; p_token := token;
                                       p_expires_at := expires |}]> (pending s)) s).

(** A failure of [remove_file] is ignored; [removed] says whether it happened. *)
Definition consume_pending_token (removed : bool) (action : ConfirmationAction) (s : Confirmations)
  : option PendingToken * Confirmations :=
  let s' := with_pending (delete (file_name action) (pending s)) s in
  (pending s !! file_name action,
   if removed then with_files (delete (file_name action) (files s')) s' else s').

Definition redeem (removed : bool) (action : ConfirmationAction) (presented : string) (now : Z)
  : SE Confirmations ConfirmationError unit := fun s =>
  let '(found, s) := consume_pending_token removed action s in
  match found with
  | None => (Err Missing, s)
  | Some p =>
      if p_expires_at p <=? now then (Err Expired, s)
      else if negb (bool_decide (p_action p = action)) || negb (String.eqb (p_token p) presented)
      then (Err Mismatch, s)
      else (Ok tt, s)
  end.
End Confirmation.

Section Facts.
Context {hex : Hex}.

Lemma fs_call_ok e s s' u :
  fs_call e s = (Ok u, s') -> pending s' = pending s /\ files s' = e (files s).
Proof using Type. unfold fs_call. destruct (c_faults s) as [|[]]; by intros [= _ <-]. Qed.

Lemma issue_inv action now s i s' :
  issue action now s = (Ok i, s') ->
  exists token, zlen token = 32 /\ files s' !! file_name action = Some (hex_encode token) /\
    expires_at i = saturating_add u64_max now CONFIRMATION_TTL_SECONDS /\
    pending s' = <[file_name action := {| p_action := action; p_token := hex_encode token;
      p_expires_at := expires_at i |}]> (pending s).
Proof using Type.
  unfold issue. intros H. inv_ok. injection H as <- <-.
  repeat match goal with F : fs_call _ _ = _ |- _ => apply fs_call_ok in F as [? F] end.
  unfold se_zoom in Ha. injection Ha as Hg Hs. exists a. cbn [files pending with_pending expires_at].
  split; [|split; [|split]].
  - destruct (getrandom_fill IssueRandom 32 (c_entropy s)) as [r t] eqn:E. simpl in Hg. subst r.
    by eapply getrandom_fill_ok.
  - by match goal with F : files s5 = _ |- _ => rewrite F; apply lookup_insert_eq end.
  - done.
  - f_equal. rewrite <- Hs in *. simpl in *. congruence.
Qed.
End Facts.

(** ** Properties *)

Section Properties.
Context {hex : Hex}.

(** After [issue], [redeem] succeeds exactly for the token written to the file and
    strictly before two minutes have passed (saturating), and whatever [redeem] answers,
    the token is spent: the next [redeem] finds none. *)
Theorem confirmation_single_use action now s i s' removed presented later :
  issue action now s = (Ok i, s') ->
  let '(r, s2) := redeem removed action presented later s' in
  (r = Ok tt <-> files s' !! file_name action = Some presented /\
     later < saturating_add u64_max now CONFIRMATION_TTL_SECONDS) /\
  forall removed' presented' later',
    (redeem removed' action presented' later' s2).1 = Err Missing.
Proof using Type.
  intros (token & _ & Hf & He & Hp)%issue_inv. unfold redeem, consume_pending_token.
  rewrite Hp, lookup_insert_eq, Hf. cbn [p_expires_at p_action p_token]. rewrite He.
  assert (forall (s2 : Confirmations) r p t, pending s2 !! file_name action = None ->
    (let '(found, s) := consume_pending_token r action s2 in
     match found with None => (Err Missing, s) | Some q => if p_expires_at q <=? t then (Err Expired, s)
       else if negb (bool_decide (p_action q = action)) || negb (String.eqb (p_token q) p)
       then (Err Mismatch, s) else (Ok tt, s) end).1 = Err Missing) as Hspent
    by (intros s2 r p t Hn; unfold consume_pending_token; by rewrite Hn).
  rewrite bool_decide_true by done. cbn [negb orb].
  set (s2 := if removed then _ else _).
  assert (pending s2 !! file_name action = None) as Hn
    by (unfold s2; destruct removed; simpl; apply lookup_delete_eq).
  destruct (_ <=? later) eqn:El; split_bools; [|destruct (String.eqb _ presented) eqn:Et]; cbn [negb];
    (split; [|intros; by apply Hspent]).
  - split; [done | lia].
  - apply String.eqb_eq in Et. split; [intros _; split; [congruence | lia] | done].
  - apply String.eqb_neq in Et. split; [done | intros [? _]; congruence].
Qed.
End Properties.

Definition sample_confirmations : Confirmations :=
  {| pending := ∅; files := ∅; c_entropy := [Some (key_of 5)]; c_faults := [] |}.

Lemma confirmation_single_use_witness :
  (redeem true PanicErase (hex_encode (key_of 5)) 150 (issue PanicErase 100 sample_confirmations).2).1 = Ok tt.
Proof.
  destruct (issue PanicErase 100 sample_confirmations) as [[i|] s'] eqn:E; [|vm_compute in E; discriminate E].
  pose proof (confirmation_single_use PanicErase 100 sample_confirmations i s' true
    (hex_encode (key_of 5)) 150 E) as H. simpl snd.
  assert (files s' !! file_name PanicErase = Some (hex_encode (key_of 5))) as Hf
    by (vm_compute in E; injection E as _ <-; vm_compute; reflexivity).
  destruct (redeem true PanicErase (hex_encode (key_of 5)) 150 s') as [r s2].
  apply (proj2 (proj1 H)). split; [exact Hf | reflexivity].
Defined.
