(* ===== verification/Ipc.v ===== *)
(** * The local IPC protocol ([omachat-proto/src/ipc.rs])

    Newline-delimited JSON between the daemon and its clients: commands, the strict wire
    format, the incremental decoder and version negotiation. *)

From Stdlib Require Import Strings.Byte Ascii String.
From S2P Require Import Prelude RustStd Libs Serde Concrete.
Local Open Scope Z_scope.

Definition VERSION : Z := 4.
Definition MAX_LINE_BYTES : Z := 64 * 1024.
Definition MAX_CORRELATION_ID_BYTES : Z := 128.

Inductive Topic := TStatus | TConversations | TMessages | TPresence | TDelivery.

Inductive Command :=
| Hello (minimum_version maximum_version : Z)
| Status
| Fingerprint
| IdentityShow
| IdentityExport
| IdentityGenerate
| IdentityImport (nsec : string)
| RequestPanicConfirmation
| Panic (confirmation : string)
| Subscribe (topics : list Topic)
| HostedClaimHandle (handle : string)
| HostedResolveHandle (handle : string)
| HostedBindNostr
| HostedUnbindNostr
| ChatPrepare
| ContactsAdd (peer : string)
| ContactsRemove (npub : string)
| ContactsList
| RelaysShow
| RelaysSet (relays : list string)
| Send (peer text : string)
| Messages.

Record Request := { version : Z; id : string; command : Command }.

Inductive IpcError :=
| LineTooLarge (maximum : Z)
| MalformedJson
| TruncatedLine
| Encoding
| InvalidCorrelationId
| UnsupportedVersion (version : Z)
| VersionMismatch (minimum maximum supported : Z).

#[export] Instance Topic_eq_dec : EqDecision Topic.
Proof. solve_decision. Defined.
#[export] Instance Command_eq_dec : EqDecision Command.
Proof. solve_decision. Defined.
#[export] Instance Request_eq_dec : EqDecision Request.
Proof. solve_decision. Defined.
#[export] Instance IpcError_eq_dec : EqDecision IpcError.
Proof. solve_decision. Defined.

(** ** The wire format *)

Definition topic_str (t : Topic) : string :=
  match t with
  | TStatus => "status" | TConversations => "conversations" | TMessages => "messages"
  | TPresence => "presence" | TDelivery => "delivery"
  end.

Definition topic_of_str (s : string) : option Topic :=
  List.find (fun t => String.eqb (topic_str t) s)
    [TStatus; TConversations; TMessages; TPresence; TDelivery].

(** A unit variant is its name, or an object that maps its name to null. *)
Definition de_topic (v : Value) : option Topic :=
  match v with
  | JString s | JObject [(s, JNull)] => topic_of_str s
  | _ => None
  end.

(** The [method] of a command and its [params], absent for a unit variant. *)
Definition command_wire (c : Command) : string * option (list (string * Value)) :=
  match c with
  | Hello minimum maximum =>
      ("hello", Some [("minimum_version", JInt minimum); ("maximum_version", JInt maximum)])
  | Status => ("status", None)
  | Fingerprint => ("fingerprint", None)
  | IdentityShow => ("identity-show", None)
  | IdentityExport => ("identity-export", None)
  | IdentityGenerate => ("identity-generate", None)
  | IdentityImport nsec => ("identity-import", Some [("nsec", JString nsec)])
  | RequestPanicConfirmation => ("request-panic-confirmation", None)
  | Panic confirmation => ("panic", Some [("confirmation", JString confirmation)])
  | Subscribe topics => ("subscribe", Some [("topics", ser_strings (map topic_str topics))])
  | HostedClaimHandle handle => ("hosted-claim-handle", Some [("handle", JString handle)])
  | HostedResolveHandle handle => ("hosted-resolve-handle", Some [("handle", JString handle)])
  | HostedBindNostr => ("hosted-bind-nostr", None)
  | HostedUnbindNostr => ("hosted-unbind-nostr", None)
  | ChatPrepare => ("chat-prepare", None)
  | ContactsAdd peer => ("contacts-add", Some [("peer", JString peer)])
  | ContactsRemove npub => ("contacts-remove", Some [("npub", JString npub)])
  | ContactsList => ("contacts-list", None)
  | RelaysShow => ("relays-show", None)
  | RelaysSet relays => ("relays-set", Some [("relays", ser_strings relays)])
  | Send peer text => ("send", Some [("peer", JString peer); ("text", JString text)])
  | Messages => ("messages", None)
  end%string.

(** [FlatRequestRef]: the tag and content of the command are flattened into the request. *)
Definition request_value (r : Request) : Value :=
  let '(m, params) := command_wire (command r) in
  JObject ([("version", JInt (version r)); ("id", JString (id r)); ("method", JString m)]%string ++
    match params with Some p => [("params"%string, JObject p)] | None => [] end).

(** An internally tagged enum: the tag, and the rest of the object or array. *)
Definition untag (tag : string) (v : Value) : option (string * Value) :=
  match v with
  | JObject m =>
      match List.filter (fun kv => String.eqb kv.1 tag) m with
      | [(_, JString t)] => Some (t, JObject (List.filter (fun kv => negb (String.eqb kv.1 tag)) m))
      | _ => None
      end
  | JArray (JString t :: rest) => Some (t, JArray rest)
  | _ => None
  end.

(** The [Params] structs of the wire format, all [deny_unknown_fields]. *)
Definition de_one {A} (field : string) (f : Value -> option A) (v : Value) : option A :=
  vs ← de_struct true [field] v;
  match vs with [x] => f x | _ => None end.
Definition de_two {A B} (f1 f2 : string) (g1 : Value -> option A) (g2 : Value -> option B) (v : Value)
  : option (A * B) :=
  vs ← de_struct true [f1; f2] v;
  match vs with [x; y] => a ← g1 x; b ← g2 y; Some (a, b) | _ => None end.

(** The variants of [StrictRequestWire] without and with a [params] field. *)
Definition unit_methods : list (string * Command) :=
  [("status", Status); ("fingerprint", Fingerprint); ("identity-show", IdentityShow);
   ("identity-export", IdentityExport); ("identity-generate", IdentityGenerate);
   ("request-panic-confirmation", RequestPanicConfirmation);
   ("hosted-bind-nostr", HostedBindNostr); ("hosted-unbind-nostr", HostedUnbindNostr);
   ("chat-prepare", ChatPrepare); ("contacts-list", ContactsList); ("relays-show", RelaysShow);
   ("messages", Messages)]%string.

Definition param_methods : list (string * (Value -> option Command)) :=
  [("hello", fun v => uncurry Hello <$> de_two "minimum_version" "maximum_version"
                        (de_uint u16_max) (de_uint u16_max) v);
   ("identity-import", fun v => IdentityImport <$> de_one "nsec" de_string v);
   ("panic", fun v => Panic <$> de_one "confirmation" de_string v);
   ("subscribe", fun v => Subscribe <$> de_one "topics" (de_vec de_topic) v);
   ("hosted-claim-handle", fun v => HostedClaimHandle <$> de_one "handle" de_string v);
   ("hosted-resolve-handle", fun v => HostedResolveHandle <$> de_one "handle" de_string v);
   ("contacts-add", fun v => ContactsAdd <$> de_one "peer" de_string v);
   ("contacts-remove", fun v => ContactsRemove <$> de_one "npub" de_string v);
   ("relays-set", fun v => RelaysSet <$> de_one "relays" (de_vec de_string) v);
   ("send", fun v => uncurry Send <$> de_two "peer" "text" de_string de_string v)]%string.

Definition assoc {A} (k : string) (l : list (string * A)) : option A :=
  snd <$> List.find (fun kv => String.eqb kv.1 k) l.

(** [StrictRequestWire::deserialize] and [Request::from] *)
Definition request_of_value (v : Value) : option Request :=
  '(m, body) ← untag "method" v;
  match assoc m unit_methods, assoc m param_methods with
  | Some c, _ =>
      '(ver, i) ← de_two "version" "id" (de_uint u16_max) de_string body;
      Some {| version := ver; id := i; command := c |}
  | None, Some params =>
      vs ← de_struct true ["version"; "id"; "params"]%string body;
      match vs with
      | [x; y; z] =>
          ver ← de_uint u16_max x; i ← de_string y; c ← params z;
          Some {| version := ver; id := i; command := c |}
      | _ => None
      end
  | None, None => None
  end.

(** ** The decoder *)

Record RequestDecoder := { buffer : bytes; maximum : Z }.

Definition RequestDecoder_new (m : Z) : RequestDecoder := {| buffer := []; maximum := m |}.

Definition validate_request (r : Request) : result IpcError unit :=
  fail_if negb (version r =? VERSION) with UnsupportedVersion (version r) ;;
  fail_if (slen (id r) =? 0) || (MAX_CORRELATION_ID_BYTES <? slen (id r))
    || existsb is_control (chars (id r)) with InvalidCorrelationId ;;
  Ok tt.

(** [if line.last() == Some(&b'\r') { line.pop(); }] *)
Definition strip_cr (line : bytes) : bytes :=
  match last line with
  | Some b => if Byte.eqb b cr then take (length line - 1) line else line
  | None => line
  end.

Section Decoder.
Context {json : Json}.

(** What the loop of [push] does with one line, once the newline is removed. *)
Definition parse_line (line : bytes) : result IpcError Request :=
  let? request := ok_or MalformedJson (v ← json_from_slice (strip_cr line); request_of_value v) in
  let? _ := validate_request request in
  Ok request.

(** The loop of [push]: each turn removes a line from the front of the buffer, so more
    turns than bytes are never needed. *)
Fixpoint drain (fuel : nat) (m : Z) (buf : bytes) (decoded : list Request)
  : result IpcError (list Request) * bytes :=
  match fuel with
  | O => (Ok decoded, buf)
  | S fuel =>
      match split_once nl buf with
      | None => (Ok decoded, buf)
      | Some (line, rest) =>
          if m <? zlen line then (Err (LineTooLarge m), rest)
          else match parse_line line with
               | Ok request => drain fuel m rest (decoded ++ [request])
               | Err e => (Err e, rest)
               end
      end
  end.

(** [RequestDecoder::push] *)
Definition push (b : bytes) : SE RequestDecoder IpcError (list Request) := fun d =>
  let m := maximum d in
  if (m <? saturating_add usize_max (zlen (buffer d)) (zlen b))
     && negb (existsb (Byte.eqb nl)
                (take (Z.to_nat (saturating_sub m (zlen (buffer d)) + 1)) b))
  then (Err (LineTooLarge m), {| buffer := []; maximum := m |})
  else
    let buf := buffer d ++ b in
    match drain (S (length buf)) m buf [] with
    | (Err e, rest) => (Err e, {| buffer := rest; maximum := m |})
    | (Ok decoded, rest) =>
        if m <? zlen rest then (Err (LineTooLarge m), {| buffer := []; maximum := m |})
        else (Ok decoded, {| buffer := rest; maximum := m |})
    end.

(** [RequestDecoder::finish] *)
Definition finish (d : RequestDecoder) : result IpcError unit :=
  if zlen (buffer d) =? 0 then Ok tt else Err TruncatedLine.

(** [encode_line] of a request *)
Definition encode_line (v : Value) : result IpcError bytes :=
  let encoded := json_to_vec v in
  fail_if MAX_LINE_BYTES <? zlen encoded with LineTooLarge MAX_LINE_BYTES ;;
  Ok (encoded ++ [nl]).

(** Successive reads from one connection, until one fails. *)
Fixpoint feed (chunks : list bytes) (d : RequestDecoder) : result IpcError (list Request * RequestDecoder) :=
  match chunks with
  | [] => Ok ([], d)
  | b :: chunks =>
      match push b d with
      | (Err e, _) => Err e
      | (Ok rs, d) => let? (rs', d) := feed chunks d in Ok (rs ++ rs', d)
      end
  end.
End Decoder.

Definition negotiate (minimum maximum : Z) : result IpcError Z :=
  if (minimum <=? VERSION) && (VERSION <=? maximum) then Ok VERSION
  else Err (VersionMismatch minimum maximum VERSION).

(** ** Lines of a byte stream *)

(** The complete lines of a stream, without their newlines, and what follows the last. *)
Fixpoint lines_rest (l : bytes) : list bytes * bytes :=
  match l with
  | [] => ([], [])
  | b :: l =>
      let '(ls, r) := lines_rest l in
      if Byte.eqb b nl then ([] :: ls, r)
      else match ls with
           | [] => ([], b :: r)
           | h :: t => ((b :: h) :: t, r)
           end
  end.

Lemma lines_rest_app x y :
  lines_rest (x ++ y) =
  ((lines_rest x).1 ++ (lines_rest ((lines_rest x).2 ++ y)).1, (lines_rest ((lines_rest x).2 ++ y)).2).
Proof.
  induction x as [|b x IH]; [simpl; by destruct (lines_rest y)|].
  cbn [app lines_rest]. rewrite IH. destruct (lines_rest x) as [ls r]. cbn [fst snd].
  destruct (lines_rest (r ++ y)) as [l2 r2] eqn:E. cbn [fst snd].
  destruct (Byte.eqb b nl) eqn:Eb; [cbn [fst snd]; by rewrite E|].
  destruct ls as [|h t]; cbn [app fst snd]; [|by rewrite E].
  cbn [lines_rest]. rewrite E, Eb. by destruct l2.
Qed.

Lemma split_once_lines l :
  match split_once nl l with
  | Some (h, t) => lines_rest l = (h :: (lines_rest t).1, (lines_rest t).2) /\
                   (length t < length l)%nat
  | None => lines_rest l = ([], l)
  end.
Proof.
  induction l as [|b l IH]; [done|]. cbn [split_once lines_rest]. destruct (Byte.eqb b nl).
  - split; [by destruct (lines_rest l) | simpl; lia].
  - destruct (split_once nl l) as [[h t]|].
    + destruct IH as [-> Hl]. simpl. split; [done | lia].
    + by rewrite IH.
Qed.

Lemma lines_rest_rest l : lines_rest (lines_rest l).2 = ([], (lines_rest l).2).
Proof.
  induction l as [|b l IH]; [done|]. cbn [lines_rest]. destruct (lines_rest l) as [ls r].
  destruct (Byte.eqb b nl) eqn:Eb; [exact IH|]. destruct ls; [|exact IH].
  cbn [snd] in *. cbn [lines_rest]. by rewrite IH, Eb.
Qed.

(** What follows a partial line completes it. *)
Lemma lines_rest_partial buf b :
  lines_rest buf = ([], buf) ->
  lines_rest (buf ++ b) =
  match lines_rest b with
  | ([], r) => ([], buf ++ r)
  | (h :: t, r) => ((buf ++ h) :: t, r)
  end.
Proof.
  induction buf as [|c buf IH]; intros Hb; [cbn [app]; by destruct (lines_rest b) as [[|h t] r]|].
  cbn [lines_rest] in Hb. destruct (lines_rest buf) as [lb rbuf].
  destruct (Byte.eqb c nl) eqn:Ec; [done|]. destruct lb; [|done]. injection Hb as ->.
  cbn [app lines_rest]. rewrite IH by done. destruct (lines_rest b) as [[|h t] r]; by rewrite Ec.
Qed.

Lemma no_newline_lines l : existsb (Byte.eqb nl) l = false -> lines_rest l = ([], l).
Proof.
  induction l as [|b l IH]; [done|]. cbn [existsb lines_rest]. intros [Hb Hl]%orb_false_iff.
  rewrite IH by done. destruct (Byte.eqb b nl) eqn:E; [|done].
  apply Byte.byte_dec_bl in E. subst b. discriminate Hb.
Qed.

(** A line that starts within the first [n] bytes of a stream and is at most [n] long
    brings its newline within the first [n + 1] bytes. *)
Lemma newline_within h t l n :
  lines_rest l = (h :: t, (lines_rest l).2) -> (length h <= n)%nat ->
  existsb (Byte.eqb nl) (take (n + 1) l) = true.
Proof.
  revert h n. induction l as [|b l IH]; intros h n Hl Hn; [done|].
  rewrite Nat.add_1_r. cbn [take existsb]. cbn [lines_rest] in Hl. destruct (Byte.eqb b nl) eqn:Eb.
  { apply Byte.byte_dec_bl in Eb. by subst b. }
  apply orb_true_iff. right. destruct (lines_rest l) as [[|h' t'] r] eqn:El; [done|].
  cbn [snd] in Hl. injection Hl as <- <-. simpl in Hn.
  destruct n as [|n]; [lia|]. rewrite <- Nat.add_1_r. apply (IH h'); [done | lia].
Qed.

Section DecoderFacts.
Context {json : Json}.

(** What the decoder answers for a list of complete lines. *)
Fixpoint decode_lines (m : Z) (ls : list bytes) : result IpcError (list Request) :=
  match ls with
  | [] => Ok []
  | l :: ls =>
      fail_if m <? zlen l with LineTooLarge m ;;
      let? r := parse_line l in
      let? rs := decode_lines m ls in
      Ok (r :: rs)
  end.

Lemma decode_lines_app m l1 l2 :
  decode_lines m (l1 ++ l2) =
  (let? r1 := decode_lines m l1 in let? r2 := decode_lines m l2 in Ok (r1 ++ r2)).
Proof using Type.
  induction l1 as [|l l1 IH]; simpl; [by destruct (decode_lines m l2)|].
  destruct (m <? zlen l); [done|]. destruct (parse_line l); simpl; [|done]. rewrite IH.
  destruct (decode_lines m l1); simpl; [|done]. by destruct (decode_lines m l2).
Qed.

Lemma decode_lines_bound m ls rs : decode_lines m ls = Ok rs -> Forall (fun l => zlen l <= m) ls.
Proof using Type.
  revert rs. induction ls as [|l ls IH]; intros rs H; [constructor|]. simpl in H. inv_ok. split_bools.
  constructor; [done | eauto].
Qed.

Lemma drain_spec fuel m buf dec :
  (length buf < fuel)%nat ->
  (drain fuel m buf dec).1 =
    (let? rs := decode_lines m (lines_rest buf).1 in Ok (dec ++ rs)) /\
  (is_ok (drain fuel m buf dec).1 = true -> (drain fuel m buf dec).2 = (lines_rest buf).2).
Proof using Type.
  revert buf dec. induction fuel as [|fuel IH]; intros buf dec Hf; [lia|].
  pose proof (split_once_lines buf) as Hs. cbn [drain].
  destruct (split_once nl buf) as [[h t]|].
  - destruct Hs as [-> Hl]. cbn [fst snd decode_lines]. destruct (m <? zlen h); [done|].
    destruct (parse_line h) as [r|e]; cbn [rbind]; [|done].
    destruct (IH t (dec ++ [r]) ltac:(lia)) as [E1 E2]. rewrite E1 in *. split; [|exact E2].
    destruct (decode_lines m (lines_rest t).1); simpl; [by rewrite <- app_assoc | done].
  - rewrite Hs. cbn. by rewrite app_nil_r.
Qed.

(** A decoder between two reads: its buffer is the start of one line. *)
Definition decoder_ok (d : RequestDecoder) : Prop :=
  lines_rest (buffer d) = ([], buffer d) /\ zlen (buffer d) <= maximum d /\
  0 <= maximum d.

Definition stream_ok (m : Z) (s : bytes) (rs : list Request) (rest : bytes) : Prop :=
  decode_lines m (lines_rest s).1 = Ok rs /\ (lines_rest s).2 = rest /\ zlen rest <= m.

(** A read that the size test refuses holds no complete line, and its line is too long. *)
Lemma push_refused m (buf b : bytes) :
  lines_rest buf = ([], buf) -> zlen buf <= m ->
  (m <? saturating_add usize_max (zlen buf) (zlen b))
    && negb (existsb (Byte.eqb nl) (take (Z.to_nat (saturating_sub m (zlen buf) + 1)) b)) = true ->
  m < zlen (buf ++ b) /\
  forall h t, lines_rest (buf ++ b) = (h :: t, (lines_rest (buf ++ b)).2) -> m < zlen h.
Proof using Type.
  intros Hb Hm [H1 H2]%andb_true_iff. split_bools. split.
  { rewrite zlen_app. unfold saturating_add in *. lia. }
  intros h t E. rewrite (lines_rest_partial buf b Hb) in E.
  destruct (lines_rest b) as [[|hb tb] rb] eqn:Eb; [done|]. injection E as <- <-.
  apply Z.lt_nge. intros Hle. apply not_true_iff_false in H2. apply H2.
  rewrite zlen_app in Hle. pose proof (zlen_nonneg hb).
  replace (Z.to_nat (saturating_sub m (zlen buf) + 1)) with (Z.to_nat (m - zlen buf) + 1)%nat
    by (unfold saturating_sub; lia).
  apply (newline_within hb tb); [by rewrite Eb | unfold zlen in *; lia].
Qed.
End DecoderFacts.

Lemma lines_rest_nil l : (lines_rest l).1 = [] -> (lines_rest l).2 = l.
Proof.
  induction l as [|b l IH]; [done|]. cbn [lines_rest]. destruct (lines_rest l) as [[|h t] r]; cbn [fst snd] in *.
  - destruct (Byte.eqb b nl); [done|]. intros _. cbn. by rewrite IH.
  - by destruct (Byte.eqb b nl).
Qed.

Lemma rest_no_newline l : existsb (Byte.eqb nl) (lines_rest l).2 = false.
Proof.
  induction l as [|b l IH]; [done|]. cbn [lines_rest]. destruct (lines_rest l) as [[|h t] r];
    destruct (Byte.eqb b nl) eqn:E; cbn [fst snd existsb] in *; try exact IH.
  rewrite IH, orb_false_r. apply not_true_is_false. intros E'. apply Byte.byte_dec_bl in E'.
  subst b. discriminate E.
Qed.

Section FeedFacts.
Context {json : Json}.

Lemma push_ok b d rs d' :
  decoder_ok d ->
  push b d = (Ok rs, d') <->
  stream_ok (maximum d) (buffer d ++ b) rs (buffer d') /\ maximum d' = maximum d.
Proof using Type.
  intros (Hb & Hm & H0). unfold push, stream_ok.
  pose proof (push_refused (maximum d) (buffer d) b Hb Hm) as Href.
  destruct (_ && _).
  - split; [done|]. intros [(Hd & Hr & Hl) _]. exfalso. destruct (Href eq_refl) as [H1 H2].
    destruct (lines_rest (buffer d ++ b)) as [[|h t] r] eqn:E; cbn [fst snd] in *.
    + pose proof (lines_rest_nil (buffer d ++ b)) as Hn. rewrite E in Hn.
      cbn [fst snd] in Hn. specialize (Hn eq_refl). rewrite <- Hr, Hn in Hl. lia.
    + specialize (H2 h t eq_refl). apply decode_lines_bound in Hd. apply Forall_cons in Hd as [? _]. lia.
  - destruct (drain_spec (S (length (buffer d ++ b))) (maximum d) (buffer d ++ b) [] ltac:(lia)) as [E1 E2].
    destruct (drain _ _ _ _) as [[out|e] rest]; cbn [fst snd is_ok] in *.
    + specialize (E2 eq_refl). destruct (decode_lines _ _) as [rs'|]; [|done]. cbn [rbind app] in E1.
      injection E1 as ->. destruct (maximum d <? zlen rest) eqn:El; split_bools.
      * split; [done|]. intros [(_ & Hr & Hl) _]. rewrite <- Hr, <- E2 in Hl. lia.
      * split; [intros [= <- <-]; cbn; subst; done|]. intros [(E & Hr & Hl) Hd].
        destruct d'; cbn in *. congruence.
    + destruct (decode_lines _ _) as [rs'|]; [done|]. split; [done|]. by intros [[? _] _].
Qed.

Lemma stream_decoder_ok m s rs d' :
  0 <= m -> stream_ok m s rs (buffer d') -> maximum d' = m -> decoder_ok d'.
Proof using Type.
  intros H0 (_ & Hr & Hl) Hm. unfold decoder_ok. rewrite Hm, <- Hr in *.
  split_and!; [apply lines_rest_rest | done | done].
Qed.

Lemma stream_ok_app m s1 s2 rs out :
  stream_ok m (s1 ++ s2) rs out <->
  exists r1 r2 mid, stream_ok m s1 r1 mid /\ stream_ok m (mid ++ s2) r2 out /\ rs = r1 ++ r2.
Proof using Type.
  unfold stream_ok. rewrite lines_rest_app. cbn [fst snd].
  pose proof (lines_rest_rest s1) as Hp. destruct (lines_rest s1) as [l1 mid]. cbn [fst snd] in *.
  rewrite decode_lines_app. split.
  - intros (Hd & Hr & Hl). destruct (decode_lines m l1) as [r1|]; [|done]. cbn [rbind] in Hd.
    destruct (decode_lines m (lines_rest (mid ++ s2)).1) as [r2|] eqn:E2; [|done].
    injection Hd as <-. exists r1, r2, mid. split_and!; try done.
    rewrite (lines_rest_partial mid s2 Hp) in Hr, E2.
    destruct (lines_rest s2) as [[|h t] r]; cbn [fst snd] in *.
    + subst. rewrite zlen_app in Hl. pose proof (zlen_nonneg r). lia.
    + apply decode_lines_bound, Forall_cons in E2 as [Hb _]. rewrite zlen_app in Hb.
      pose proof (zlen_nonneg h). lia.
  - intros (r1 & r2 & mid' & (H1 & <- & H3) & (H4 & H5 & H6) & ->). by rewrite H1, H4.
Qed.

Lemma feed_ok chunks d rs d' :
  decoder_ok d ->
  feed chunks d = Ok (rs, d') <->
  stream_ok (maximum d) (buffer d ++ concat chunks) rs (buffer d') /\ maximum d' = maximum d.
Proof using Type.
  revert d rs. induction chunks as [|b chunks IH]; intros d rs Hd; cbn [feed concat].
  - destruct Hd as (Hb & Hm & _). rewrite app_nil_r. unfold stream_ok. rewrite Hb. cbn [fst snd decode_lines].
    split; [intros [= <- <-]; done|]. intros [([= <-] & H1 & _) H2]. destruct d, d'; cbn in *. congruence.
  - rewrite app_assoc, stream_ok_app. split.
    + destruct (push b d) as [[r1|] d1] eqn:Ep; [|done].
      apply push_ok in Ep as [Hs Hm]; [|done].
      intros H. inv_ok. destruct a as [r2 d2]. injection H as <- <-.
      apply IH in Ha as [Hs2 Hm2]; [|eapply stream_decoder_ok; eauto; by destruct Hd as (_ & _ & ?)].
      rewrite Hm in *. split; [|done]. exists r1, r2, (buffer d1). done.
    + intros [(r1 & r2 & mid & H1 & H2 & ->) Hm].
      rewrite (proj2 (push_ok b d r1 {| buffer := mid; maximum := maximum d |} Hd)) by done.
      rewrite (proj2 (IH {| buffer := mid; maximum := maximum d |} r2 ltac:(
        eapply stream_decoder_ok; [|exact H1 | done]; by destruct Hd as (_ & _ & ?)))) by done. done.
Qed.

Lemma decode_lines_valid m ls rs :
  decode_lines m ls = Ok rs ->
  Forall (fun r => version r = VERSION /\ 1 <= slen (id r) <= MAX_CORRELATION_ID_BYTES /\
            existsb is_control (chars (id r)) = false) rs.
Proof using Type.
  revert rs. induction ls as [|l ls IH]; intros rs H; simpl in H; inv_ok; constructor; [|eauto].
  unfold parse_line, validate_request in Ha. inv_ok. split_bools.
  match goal with |- context [slen ?s] => pose proof (slen_nonneg s) end.
  split_and!; [done | lia | lia | done].
Qed.

Lemma decoder_new_ok m : 0 <= m -> decoder_ok (RequestDecoder_new m).
Proof using Type. intros Hm. split_and!; [done | exact Hm | exact Hm]. Qed.
End FeedFacts.

(** ** Encoding and decoding requests *)

Definition command_wf (c : Command) : bool :=
  match c with
  | Hello a b => in_range 0 u16_max a && in_range 0 u16_max b
  | IdentityImport s | Panic s | HostedClaimHandle s | HostedResolveHandle s | ContactsAdd s
  | ContactsRemove s => utf8_valid s
  | RelaysSet l => forallb utf8_valid l
  | Send a b => utf8_valid a && utf8_valid b
  | _ => true
  end.
Definition request_wf (r : Request) : bool :=
  in_range 0 u16_max (version r) && utf8_valid (id r) && command_wf (command r).

Lemma topics_roundtrip l : mapM de_topic (map JString (map topic_str l)) = Some l.
Proof. induction l as [|t l IH]; [done|]. simpl. rewrite IH. by destruct t. Qed.

Lemma de_one_object {A} field (f : Value -> option A) v :
  de_one field f (JObject [(field, v)]) = f v.
Proof.
  unfold de_one. change [(field, v)] with (zip [field] [v]).
  rewrite de_struct_zip; [done | apply NoDup_singleton | done].
Qed.

Lemma de_two_object {A B} f1 f2 (g1 : Value -> option A) (g2 : Value -> option B) x y :
  f1 <> f2 -> de_two f1 f2 g1 g2 (JObject [(f1, x); (f2, y)]) = (a ← g1 x; b ← g2 y; Some (a, b)).
Proof.
  intros Hne. unfold de_two. change [(f1, x); (f2, y)] with (zip [f1; f2] [x; y]).
  rewrite de_struct_zip; [done | | done].
  apply NoDup_cons. split; [by intros ->%list_elem_of_singleton | apply NoDup_singleton].
Qed.

(** A request without, and with, a [params] object. *)
Lemma unit_request v i m c :
  in_range 0 u16_max v = true -> assoc m unit_methods = Some c ->
  request_of_value (JObject [("version", JInt v); ("id", JString i); ("method", JString m)]%string)
    = Some {| version := v; id := i; command := c |}.
Proof.
  intros Hv Hm. unfold request_of_value.
  change (untag "method" _) with (Some (m, JObject [("version", JInt v); ("id", JString i)]%string)).
  cbn [mbind option_bind]. rewrite Hm, de_two_object by done. cbn [de_uint]. by rewrite Hv.
Qed.

Lemma param_request v i m f p c :
  in_range 0 u16_max v = true -> assoc m unit_methods = None -> assoc m param_methods = Some f ->
  f (JObject p) = Some c ->
  request_of_value (JObject [("version", JInt v); ("id", JString i); ("method", JString m);
    ("params", JObject p)]%string) = Some {| version := v; id := i; command := c |}.
Proof.
  intros Hv Hu Hm Hf. unfold request_of_value.
  change (untag "method" _) with
    (Some (m, JObject (zip ["version"; "id"; "params"]%string [JInt v; JString i; JObject p]))).
  cbn [mbind option_bind]. rewrite Hu, Hm, de_struct_zip; [|by apply (bool_decide_eq_true_1 _) | done].
  cbn [mbind option_bind de_uint de_string]. rewrite Hv. cbn [mbind option_bind]. by rewrite Hf.
Qed.

Lemma request_value_roundtrip r : request_wf r = true -> request_of_value (request_value r) = Some r.
Proof.
  destruct r as [v i c]. unfold request_wf. cbn [version id command].
  intros [[Hv Hi]%andb_true_iff Hc]%andb_true_iff.
  destruct c; first
    [ by apply unit_request
    | eapply param_request; [exact Hv | reflexivity | reflexivity |]; cbn [snd];
      rewrite ?de_one_object, ?de_two_object by done; try reflexivity ].
  - cbn [command_wf] in Hc. apply andb_true_iff in Hc as [H1 H2]. cbn [de_uint].
    rewrite H1, H2. done.
  - unfold ser_strings, de_vec. by rewrite topics_roundtrip.
  - by rewrite de_vec_strings.
Qed.

Lemma request_value_wf r : request_wf r = true -> json_wf (request_value r) = true.
Proof.
  destruct r as [v i c]. unfold request_wf, in_range. cbn [version id command]. intros Hw. split_bools.
  assert (forall z, 0 <= z <= u16_max -> json_wf (JInt z) = true) as Hz
    by (intros z Hz; cbn [json_wf]; unfold_ints; rewrite !(proj2 (Z.leb_le _ _)) by lia; done).
  assert (forall p, forallb (fun kv => utf8_valid kv.1 && json_wf kv.2) p = true ->
    json_wf (JObject p) = true) as Ho by done.
  unfold request_value. cbn [command version id].
  destruct c; cbn [command_wire command_wf] in *; cbn [app]; apply Ho; cbn [forallb fst snd];
    rewrite (Hz v) by done; cbn [json_wf forallb fst snd]; unfold in_range in *; split_bools;
    rewrite ?json_wf_strings; repeat (apply andb_true_intro; split); try assumption; try reflexivity;
    try (apply Z.leb_le; unfold_ints; lia).
  apply forallb_forall. intros x (t & <- & _)%in_map_iff. by destruct t.
Qed.

Section RoundtripFacts.
Context {json : Json} {json_laws : JsonLaws}.

Lemma no_control_no_newline l :
  forallb (fun b => 31 <? byte_val b) l = true -> existsb (Byte.eqb nl) l = false.
Proof using Type.
  intros H. apply not_true_is_false. intros (b & Hb & E)%existsb_exists.
  eapply forallb_forall in H; [|exact Hb]. cbv beta in H. apply Byte.byte_dec_bl in E. by subst b.
Qed.

Lemma no_control_strip_cr l :
  forallb (fun b => 31 <? byte_val b) l = true -> strip_cr l = l.
Proof using Type.
  intros H. unfold strip_cr. destruct (last l) as [b|] eqn:El; [|done].
  destruct (Byte.eqb b cr) eqn:E; [|done]. exfalso. apply last_Some in El as [l' ->].
  rewrite forallb_app in H. apply andb_true_iff in H as [_ H]. apply Byte.byte_dec_bl in E. by subst b.
Qed.

Lemma parse_encoded r :
  request_wf r = true -> validate_request r = Ok tt -> parse_line (json_to_vec (request_value r)) = Ok r.
Proof using json_laws.
  intros Hw Hv. unfold parse_line. rewrite no_control_strip_cr by apply json_to_vec_no_control.
  rewrite json_roundtrip by (by apply request_value_wf). cbn [mbind option_bind].
  rewrite request_value_roundtrip by done. cbn [ok_or rbind]. by rewrite Hv.
Qed.

(** The bytes [encode_line] produces for several requests, one after another. *)
Fixpoint encode_lines (rs : list Request) : result IpcError bytes :=
  match rs with
  | [] => Ok []
  | r :: rs => let? l := encode_line (request_value r) in let? ls := encode_lines rs in Ok (l ++ ls)
  end.

Lemma encoded_stream m rs s :
  MAX_LINE_BYTES <= m ->
  Forall (fun r => request_wf r = true /\ validate_request r = Ok tt) rs ->
  encode_lines rs = Ok s -> stream_ok m s rs [].
Proof using json_laws.
  intros Hm. revert s. induction rs as [|r rs IH]; intros s Hf He; simpl in He; inv_ok.
  { split_and!; [done | done | unfold MAX_LINE_BYTES, zlen in *; simpl; lia]. }
  apply Forall_cons in Hf as [[Hw Hv] Hf]. specialize (IH _ Hf Ha0).
  unfold encode_line in Ha. inv_ok. split_bools.
  apply stream_ok_app. exists [r], rs, []. split_and!; [| exact IH | done].
  assert (lines_rest (json_to_vec (request_value r) ++ [nl]) = ([json_to_vec (request_value r)], [])) as El.
  { rewrite lines_rest_partial
      by (apply no_newline_lines, no_control_no_newline, json_to_vec_no_control).
    cbn. by rewrite app_nil_r. }
  unfold stream_ok. rewrite El. cbn [fst snd decode_lines].
  rewrite (proj2 (Z.ltb_ge _ _)) by lia. rewrite parse_encoded by done. cbn [rbind].
  split_and!; [done | done | unfold MAX_LINE_BYTES, zlen in *; simpl; lia].
Qed.
End RoundtripFacts.

(** ** Properties *)

Section Properties.
Context {json : Json}.

(** C33: however a byte stream is cut into reads, the decoder accepts it exactly when
    every complete line is at most the maximum and a valid request, and the unfinished
    line is at most the maximum; it then returns the lines' requests in order and holds
    only the unfinished line. *)
Theorem decoder_exact m chunks rs d :
  0 <= m ->
  feed chunks (RequestDecoder_new m) = Ok (rs, d) <->
  decode_lines m (lines_rest (concat chunks)).1 = Ok rs /\
  d = {| buffer := (lines_rest (concat chunks)).2; maximum := m |} /\ zlen (buffer d) <= m.
Proof using Type.
  intros Hm. rewrite feed_ok by (by apply decoder_new_ok). unfold stream_ok. cbn [buffer maximum
    RequestDecoder_new app]. destruct d as [b m']. cbn [buffer maximum]. split.
  - intros [(H1 & H2 & H3) ->]. subst. done.
  - intros (H1 & H2 & H3). injection H2 as -> ->. done.
Qed.

(** Requests written with [encode_line] and cut into reads in any way are decoded to
    the same requests in the same order, with nothing left in the buffer. *)
Theorem ipc_roundtrip {json_laws : JsonLaws} rs s chunks :
  Forall (fun r => request_wf r = true /\ validate_request r = Ok tt) rs ->
  encode_lines rs = Ok s -> concat chunks = s ->
  feed chunks (RequestDecoder_new MAX_LINE_BYTES) = Ok (rs, RequestDecoder_new MAX_LINE_BYTES).
Proof using Type.
  intros Hf He <-. apply feed_ok; [by apply decoder_new_ok|]. split; [|done].
  cbn [maximum RequestDecoder_new buffer app]. by apply encoded_stream.
Qed.

(** A successful read leaves at most the maximum number of bytes, with no newline
    among them, and every request it returned has the supported version and a printable
    correlation id of 1 to 128 bytes. *)
Theorem push_bounded m chunks b rs0 d rs d' :
  0 <= m -> feed chunks (RequestDecoder_new m) = Ok (rs0, d) -> push b d = (Ok rs, d') ->
  zlen (buffer d') <= m /\ existsb (Byte.eqb nl) (buffer d') = false /\
  Forall (fun r => version r = VERSION /\ 1 <= slen (id r) <= MAX_CORRELATION_ID_BYTES /\
            existsb is_control (chars (id r)) = false) rs.
Proof using Type.
  intros Hm Hf Hp. pose proof (decoder_new_ok m Hm) as Hn. apply feed_ok in Hf as [Hs Hd]; [|done].
  cbn [maximum RequestDecoder_new] in *.
  pose proof (stream_decoder_ok m _ _ d Hm Hs Hd) as Hok.
  apply push_ok in Hp as [(H1 & H2 & H3) H4]; [|done]. rewrite Hd in *.
  split; [done|]. split; [rewrite <- H2; apply rest_no_newline|]. by eapply decode_lines_valid.
Qed.

(** Version negotiation returns this version exactly when the client's range holds it. *)
Theorem negotiate_exact lo hi v : negotiate lo hi = Ok v <-> v = VERSION /\ lo <= VERSION <= hi.
Proof using Type.
  unfold negotiate. destruct (_ && _) eqn:E; split_bools.
  - split; [by intros [= <-] | by intros [-> _]].
  - apply andb_false_iff in E. split; [done|]. intros [_ ?]. destruct E; split_bools; lia.
Qed.
End Properties.

Definition sample_requests : list Request :=
  [{| version := 4; id := "a"; command := Send "bob" "hi" |};
   {| version := 4; id := "b"; command := Hello 1 4 |}]%string.

Lemma decoder_exact_witness :
  exists d, feed [as_bytes "{"] (RequestDecoder_new 8) = Ok ([], d).
Proof.
  eexists. apply (decoder_exact 8); [discriminate|]. split; [vm_compute; reflexivity|].
  split; [reflexivity | vm_compute; discriminate].
Defined.

Lemma ipc_roundtrip_witness :
  exists s, encode_lines sample_requests = Ok s /\
    feed [take 10 s; drop 10 s] (RequestDecoder_new MAX_LINE_BYTES)
      = Ok (sample_requests, RequestDecoder_new MAX_LINE_BYTES).
Proof.
  destruct (encode_lines sample_requests) as [s|] eqn:E; [|vm_compute in E; discriminate E].
  exists s. split; [reflexivity|]. apply (ipc_roundtrip sample_requests s); [| exact E |].
  - repeat constructor; vm_compute; reflexivity.
  - simpl. rewrite app_nil_r. apply take_drop.
Defined.

Lemma push_bounded_witness :
  exists d', push (as_bytes "{") (RequestDecoder_new 8) = (Ok [], d') /\ zlen (buffer d') <= 8.
Proof.
  eexists. split; [vm_compute; reflexivity|].
  apply (push_bounded 8 [] (as_bytes "{") [] (RequestDecoder_new 8) []);
    [discriminate | reflexivity | vm_compute; reflexivity].
Defined.
