(* ===== verification/Store.v ===== *)
(** * The sealed store of the client ([omachat-store])

    Records are encrypted under one master key and replaced atomically; the key is kept
    in a file or in the desktop's secret service. The model is the file tree of one state
    directory; every file-system call can fail or end the process. *)

From Stdlib Require Import Strings.Byte Ascii String.
From S2P Require Import Prelude RustStd Libs Serde Concrete Account Keys.
Local Open Scope Z_scope.

(** ** Files, faults and crashes *)

Inductive Dir := StateDir | RecordsDir.
#[export] Instance Dir_eq_dec : EqDecision Dir.
Proof. solve_decision. Defined.
#[export] Instance Dir_countable : Countable Dir.
Proof.
  refine (inj_countable' (fun d => match d with StateDir => true | RecordsDir => false end)
    (fun b : bool => if b then StateDir else RecordsDir) _).
  by intros [].
Defined.

Abbreviation Path := (Dir * string)%type.

Record FileData := { contents : bytes; mode : Z }.
Abbreviation Tree := (gmap Path FileData).

(** What happens to one call: it runs, it fails, or the process ends in it. A write that
    is cut short leaves the first [n] bytes. *)
Inductive Fault := Runs | Fails (n : nat) | Crashes (n : nat).

Inductive IoError := NotFound | AlreadyExists | InvalidData | OtherIo.
#[export] Instance IoError_eq_dec : EqDecision IoError.
Proof. solve_decision. Defined.

Inductive StoreError :=
| Io (e : IoError) | Random | SecretServiceUnavailable | SecretServiceLocked | MissingMasterKey
| DuplicateMasterKey | InvalidMasterKey | InvalidProviderMarker | ProviderConflict | ProviderStateExists
| InsecurePermissions | InvalidRecordName | InvalidPath | InvalidEnvelope | RecordNotFound
| UnsupportedVersion (v : Z) | RecordTooLarge | Encryption | Authentication | UnsafeEraseTarget | Erased.
#[export] Instance StoreError_eq_dec : EqDecision StoreError.
Proof. solve_decision. Defined.

(** The desktop's secret service: the calls the store makes of it, on its own state.
    [None] and [false] are errors. *)
Class SecretApi (W : Type) := {
  ss_connect : W -> bool * W;
  ss_default_collection : W -> bool * W;
  ss_is_locked : W -> option bool * W;
  ss_search : W -> option (list Z) * W;
  ss_get_secret : Z -> W -> option bytes * W;
  ss_create : bytes -> W -> bool * W;
  ss_delete : Z -> W -> bool * W
}.

Record Disk {W : Type} := {
  files : Tree;
  keyring : W;
  crashed : bool;
  tape : list Fault;
  rng : Entropy;
  pid : Z
}.
Arguments Disk : clear implicits.

Definition set_files {W : Type} (fs : Tree) (d : Disk W) : Disk W :=
  {| files := fs; keyring := keyring d; crashed := crashed d; tape := tape d; rng := rng d; pid := pid d |}.
Definition set_tape {W : Type} (c : bool) (t : list Fault) (d : Disk W) : Disk W :=
  {| files := files d; keyring := keyring d; crashed := c; tape := t; rng := rng d; pid := pid d |}.

(** One call. A process that ended does nothing any more. *)
Definition syscall {W A : Type} (run : Tree -> result IoError (A * Tree))
    (cut : nat -> Tree -> Tree) : SE (Disk W) IoError A := fun d =>
  if crashed d then (Err OtherIo, d)
  else
    let rest := tail (tape d) in
    match tape d with
    | Fails n :: _ => (Err OtherIo, set_tape false rest (set_files (cut n (files d)) d))
    | Crashes n :: _ => (Err OtherIo, set_tape true rest (set_files (cut n (files d)) d))
    | _ =>
        match run (files d) with
        | Ok (a, fs) => (Ok a, set_tape false rest (set_files fs d))
        | Err e => (Err e, set_tape false rest d)
        end
    end.

Definition whole (n : nat) (fs : Tree) : Tree := fs.

(** A call that changes no file: creating an existing directory, [fsync], permissions of
    a directory. *)
Definition sys_none {W : Type} : SE (Disk W) IoError unit := syscall (fun fs => Ok (tt, fs)) whole.
Definition sys_create_new {W : Type} (p : Path) (m : Z) : SE (Disk W) IoError unit :=
  syscall (fun fs => match fs !! p with
                     | Some _ => Err AlreadyExists
                     | None => Ok (tt, <[p := {| contents := []; mode := m |}]> fs)
                     end) whole.
Definition append_to (p : Path) (b : bytes) (fs : Tree) : Tree :=
  alter (fun f => {| contents := contents f ++ b; mode := mode f |}) p fs.
Definition sys_write_all {W : Type} (p : Path) (b : bytes) : SE (Disk W) IoError unit :=
  syscall (fun fs => Ok (tt, append_to p b fs)) (fun n => append_to p (take n b)).
Definition sys_rename {W : Type} (from to : Path) : SE (Disk W) IoError unit :=
  syscall (fun fs => match fs !! from with
                     | Some f => Ok (tt, <[to := f]> (delete from fs))
                     | None => Err NotFound
                     end) whole.
Definition sys_set_mode {W : Type} (p : Path) (m : Z) : SE (Disk W) IoError unit :=
  syscall (fun fs => match fs !! p with
                     | Some f => Ok (tt, <[p := {| contents := contents f; mode := m |}]> fs)
                     | None => Err NotFound
                     end) whole.
Definition sys_remove {W : Type} (p : Path) : SE (Disk W) IoError unit :=
  syscall (fun fs => match fs !! p with
                     | Some _ => Ok (tt, delete p fs)
                     | None => Err NotFound
                     end) whole.
Definition sys_stat {W : Type} (p : Path) : SE (Disk W) IoError FileData :=
  syscall (fun fs => match fs !! p with Some f => Ok (f, fs) | None => Err NotFound end) whole.
Definition sys_read {W : Type} (p : Path) : SE (Disk W) IoError bytes :=
  syscall (fun fs => match fs !! p with Some f => Ok (contents f, fs) | None => Err NotFound end) whole.
(** [fs::read_dir]: the names in a directory *)
Definition names_in (dir : Dir) (fs : Tree) : list string :=
  map snd (List.filter (fun p => bool_decide (p.1 = dir)) (map fst (map_to_list fs))).
Definition sys_list {W : Type} (dir : Dir) : SE (Disk W) IoError (list string) :=
  syscall (fun fs => Ok (names_in dir fs, fs)) whole.

Definition draw {W : Type} (n : Z) : SE (Disk W) StoreError bytes := fun d =>
  let '(r, t) := getrandom_fill Random n (rng d) in
  (r, {| files := files d; keyring := keyring d; crashed := crashed d; tape := tape d; rng := t; pid := pid d |}).

(** A call of the secret service, which a process that ended does not make. *)
Definition secret_call {W A : Type} (f : W -> A * W) (dead : A) : Disk W -> A * Disk W := fun d =>
  if crashed d then (dead, d)
  else let '(a, w) := f (keyring d) in
       (a, {| files := files d; keyring := w; crashed := crashed d; tape := tape d; rng := rng d;
              pid := pid d |}).
Definition secret_or {W A : Type} (f : W -> option A * W) : SE (Disk W) StoreError A := fun d =>
  let '(a, d) := secret_call f None d in (ok_or SecretServiceUnavailable a, d).
Definition secret_unit {W : Type} (f : W -> bool * W) : SE (Disk W) StoreError unit := fun d =>
  let '(b, d) := secret_call f false d in ((if b then Ok tt else Err SecretServiceUnavailable), d).

(** ** Constants *)

Definition MODE_MARKER : string := "storage-mode".
Definition FILE_KEY_NAME : string := "master.key".
Definition RECORD_MAGIC : bytes := as_bytes "OMACREC" ++ [x00].
Definition RECORD_VERSION : Z := 1.
Definition NONCE_BYTES : Z := 24.
Definition TAG_BYTES : Z := 16.
Definition KEY_BYTES : Z := 32.
Definition MAX_RECORD_BYTES : Z := 4 * 1024 * 1024.

Inductive ProviderKind := PSecretService | PFile.
Inductive RequestedProvider := RAuto | RSecretService | RFile.
#[export] Instance ProviderKind_eq_dec : EqDecision ProviderKind.
Proof. solve_decision. Defined.

(** [SealedStore] with its [KeyState]. *)
Record SealedStore := { provider : ProviderKind; master_key : bytes; erased : bool }.

(** ** Atomic writes *)

Definition temporary_name (file_name : string) (pid random : Z) : string :=
  "." ++ file_name ++ ".tmp-" ++ show pid ++ "-" ++ show random.

Definition io {W A : Type} (c : SE (Disk W) IoError A) : SE (Disk W) StoreError A := se_map_err Io c.

(** The closure of [atomic_write]. *)
Definition write_steps {W : Type} (temporary path : Path) (b : bytes) : SE (Disk W) StoreError unit :=
  let! _ := io (sys_create_new temporary 0x180) in
  let! _ := io (sys_write_all temporary b) in
  let! _ := io sys_none in
  let! _ := io (sys_rename temporary path) in
  let! _ := io (sys_set_mode path 0x180) in
  io sys_none.

Definition atomic_write {W : Type} (dir : Dir) (file_name : string) (b : bytes)
  : SE (Disk W) StoreError unit :=
  let! random := draw 8 in
  fun d =>
    let temporary := (dir, temporary_name file_name (pid d) (from_le_bytes random)) in
    match write_steps temporary (dir, file_name) b d with
    | (Ok _, d) => (Ok tt, d)
    | (Err e, d) => (Err e, (sys_remove temporary d).2)
    end.

(** The loop of [recover_interrupted_writes] over the entries of the directory; names are
    UTF-8 here. *)
Definition is_temporary (name : string) : bool :=
  starts_with "." name && contains (as_bytes ".tmp-") (as_bytes name).

Fixpoint remove_temporaries {W : Type} (names : list string) : SE (Disk W) StoreError unit :=
  match names with
  | [] => se_ret (Ok tt)
  | name :: names =>
      if is_temporary name then
        let! _ := io (sys_remove (RecordsDir, name)) in remove_temporaries names
      else remove_temporaries names
  end.

Definition recover_interrupted_writes {W : Type} : SE (Disk W) StoreError unit :=
  let! names := io (sys_list RecordsDir) in
  let! _ := remove_temporaries names in
  io sys_none.

(** ** The master key *)

Definition decode_key (b : bytes) : result StoreError bytes :=
  if zlen b =? KEY_BYTES then Ok b else Err InvalidMasterKey.

Definition load_file_key {W : Type} : SE (Disk W) StoreError bytes :=
  let! metadata := se_map_err (fun e => match e with NotFound => MissingMasterKey | e => Io e end)
                     (sys_stat (StateDir, FILE_KEY_NAME)) in
  let! _ := se_ret (fail_if negb (Z.land (mode metadata) 0x3f =? 0) with InsecurePermissions ;; Ok tt) in
  let! b := io (sys_read (StateDir, FILE_KEY_NAME)) in
  se_ret (decode_key b).

(** [path.exists()] is false also when the call fails. *)
Definition create_file_key {W : Type} : SE (Disk W) StoreError bytes := fun d =>
  match sys_stat (StateDir, FILE_KEY_NAME) d with
  | (Ok _, d) => (Err ProviderStateExists, d)
  | (Err _, d) =>
      (let! key := draw KEY_BYTES in
       let! _ := atomic_write StateDir FILE_KEY_NAME key in
       se_ret (Ok key)) d
  end.

Section Secret.
Context {W : Type} {api : SecretApi W}.

Definition open_collection : SE (Disk W) StoreError unit :=
  let! _ := secret_unit ss_connect in
  let! _ := secret_unit ss_default_collection in
  let! locked := secret_or ss_is_locked in
  se_ret (if locked : bool then Err SecretServiceLocked else Ok tt).

Definition load_secret_service_key (create : bool) : SE (Disk W) StoreError bytes :=
  let! _ := open_collection in
  let! items := secret_or ss_search in
  match items with
  | _ :: _ :: _ => se_ret (Err DuplicateMasterKey)
  | [item] =>
      let! secret := secret_or (ss_get_secret item) in
      se_ret (decode_key secret)
  | [] =>
      if negb create then se_ret (Err MissingMasterKey)
      else
        let! key := draw KEY_BYTES in
        let! _ := secret_unit (ss_create key) in
        se_ret (Ok key)
  end.

Definition delete_secret_service_key : SE (Disk W) StoreError unit :=
  let! _ := open_collection in
  let! items := secret_or ss_search in
  match items with
  | [item] => secret_unit (ss_delete item)
  | [] => se_ret (Err MissingMasterKey)
  | _ => se_ret (Err DuplicateMasterKey)
  end.

Definition select_first_run (requested : RequestedProvider) : SE (Disk W) StoreError (ProviderKind * bytes) :=
  match requested with
  | RSecretService => let! key := load_secret_service_key true in se_ret (Ok (PSecretService, key))
  | RFile => let! key := create_file_key in se_ret (Ok (PFile, key))
  | RAuto => fun d =>
      match load_secret_service_key true d with
      | (Ok key, d) => (Ok (PSecretService, key), d)
      | (Err (SecretServiceUnavailable | SecretServiceLocked), d) =>
          (let! key := create_file_key in se_ret (Ok (PFile, key))) d
      | (Err e, d) => (Err e, d)
      end
  end.

(** ** Opening *)

Definition request_matches (requested : RequestedProvider) (selected : ProviderKind) : bool :=
  match requested, selected with
  | RAuto, _ | RSecretService, PSecretService | RFile, PFile => true
  | _, _ => false
  end.

Definition provider_name (p : ProviderKind) : string :=
  match p with PSecretService => "secret-service" ++ of_bytes [nl] | PFile => "file" ++ of_bytes [nl] end.

(** [fs::read_to_string] fails on text that is not UTF-8. *)
Definition read_provider : SE (Disk W) StoreError (option ProviderKind) := fun d =>
  match sys_read (StateDir, MODE_MARKER) d with
  | (Err NotFound, d) => (Ok None, d)
  | (Err e, d) => (Err (Io e), d)
  | (Ok b, d) =>
      match from_utf8 b with
      | None => (Err (Io InvalidData), d)
      | Some value =>
          let trimmed := trim_chars (chars value) in
          (if bool_decide (trimmed = chars "secret-service") then Ok (Some PSecretService)
           else if bool_decide (trimmed = chars "file") then Ok (Some PFile)
           else Err InvalidProviderMarker, d)
      end
  end.

(** [create_dir_all] and [set_permissions] *)
Definition ensure_private_directory : SE (Disk W) StoreError unit :=
  let! _ := io sys_none in io sys_none.

Definition open (requested : RequestedProvider) : SE (Disk W) StoreError SealedStore :=
  let! _ := ensure_private_directory in
  let! existing := read_provider in
  let! selected :=
    match existing with
    | Some p =>
        let! _ := se_ret (fail_if negb (request_matches requested p) with ProviderConflict ;; Ok tt) in
        let! key := match p with
                    | PSecretService => load_secret_service_key false
                    | PFile => load_file_key
                    end in
        se_ret (Ok (p, key))
    | None => select_first_run requested
    end in
  let! _ := match existing with
            | None => atomic_write StateDir MODE_MARKER (as_bytes (provider_name selected.1))
            | Some _ => se_ret (Ok tt)
            end in
  let! _ := ensure_private_directory in
  let! _ := recover_interrupted_writes in
  se_ret (Ok {| provider := selected.1; master_key := selected.2; erased := false |}).
End Secret.

(** ** Records *)

Definition is_record_byte (b : byte) : bool :=
  is_ascii_alphanumeric b || Byte.eqb b x2d || Byte.eqb b x5f || Byte.eqb b x2e.

Definition validate_record_name (name : string) : result StoreError unit :=
  fail_if (slen name =? 0) || (128 <? slen name) || starts_with "." name
          || negb (bytes_all is_record_byte name) with InvalidRecordName ;;
  Ok tt.

Definition record_aad (name : string) : bytes :=
  RECORD_MAGIC ++ byte_of_Z RECORD_VERSION :: as_bytes name.

Definition key_of_store (st : SealedStore) : result StoreError bytes :=
  if erased st then Err Erased else Ok (master_key st).

Section Records.
Context {W : Type} {aead : Aead}.

Definition write_with_nonce (name : string) (plaintext nonce key : bytes) : SE (Disk W) StoreError unit :=
  let! ciphertext := se_ret (ok_or Encryption (aead_encrypt key nonce (record_aad name) plaintext)) in
  atomic_write RecordsDir name (RECORD_MAGIC ++ byte_of_Z RECORD_VERSION :: nonce ++ ciphertext).

Definition write (st : SealedStore) (name : string) (plaintext : bytes) : SE (Disk W) StoreError unit :=
  let! _ := se_ret (validate_record_name name) in
  let! _ := se_ret (fail_if MAX_RECORD_BYTES <? zlen plaintext with RecordTooLarge ;; Ok tt) in
  let! nonce := draw NONCE_BYTES in
  let! key := se_ret (key_of_store st) in
  write_with_nonce name plaintext nonce key.

(** [Read::take(limit)] and [read_to_end] *)
Fixpoint take_bytes (limit : Z) (l : bytes) : bytes :=
  match l with
  | [] => []
  | b :: l => if limit <=? 0 then [] else b :: take_bytes (limit - 1) l
  end.

(** What [read] makes of the bytes of a record. *)
Definition open_envelope (key : bytes) (name : string) (file : bytes) : result StoreError bytes :=
  let b := take_bytes (MAX_RECORD_BYTES + NONCE_BYTES + TAG_BYTES + 10) file in
  fail_if MAX_RECORD_BYTES + NONCE_BYTES + TAG_BYTES + 9 <? zlen b with RecordTooLarge ;;
  fail_if (zlen b <? zlen RECORD_MAGIC + 1 + NONCE_BYTES + TAG_BYTES)
          || negb (bool_decide (take 8 b = RECORD_MAGIC)) with InvalidEnvelope ;;
  let version := match b !! 8%nat with Some v => byte_val v | None => 0 end in
  fail_if negb (version =? RECORD_VERSION) with UnsupportedVersion version ;;
  let nonce := take 24 (drop 9 b) in
  ok_or Authentication (aead_decrypt key nonce (record_aad name) (drop 33 b)).

Definition read (st : SealedStore) (name : string) : SE (Disk W) StoreError bytes :=
  let! _ := se_ret (validate_record_name name) in
  let! key := se_ret (key_of_store st) in
  let! file := se_map_err (fun e => match e with NotFound => RecordNotFound | e => Io e end)
                 (sys_read (RecordsDir, name)) in
  se_ret (open_envelope key name file).

Definition store_delete (st : SealedStore) (name : string) : SE (Disk W) StoreError unit :=
  let! _ := se_ret (validate_record_name name) in
  let! _ := se_ret (key_of_store st) in
  fun d =>
    match sys_remove (RecordsDir, name) d with
    | (Ok _, d) => io sys_none d
    | (Err NotFound, d) => (Ok tt, d)
    | (Err e, d) => (Err (Io e), d)
    end.
End Records.

(** ** Panic erase ([erase.rs]) *)

Section Erase.
Context {W : Type} {api : SecretApi W}.

Definition delete_external_master_key (st : SealedStore) : SE (Disk W) StoreError unit :=
  match provider st with
  | PFile => fun d =>
      match sys_remove (StateDir, FILE_KEY_NAME) d with
      | (Ok _, d) => io sys_none d
      | (Err NotFound, d) => (Err MissingMasterKey, d)
      | (Err e, d) => (Err (Io e), d)
      end
  | PSecretService => delete_secret_service_key
  end.

(** [fs::remove_dir_all]: cut short, it leaves some of the files. *)
Definition sys_remove_all : SE (Disk W) IoError unit :=
  syscall (fun _ => Ok (tt, ∅)) (fun n fs => list_to_map (drop n (map_to_list fs))).

Definition delete_ciphertext_before_reporting : SE (Disk W) StoreError unit :=
  let! _ := io sys_remove_all in io sys_none.

(** [panic_erase]; [safe_target] says that the state directory is a directory, not a
    symbolic link, and has a parent and a name. The store in memory comes back too. *)
Definition panic_erase (safe_target : bool) (st : SealedStore) (d : Disk W)
  : result StoreError ProviderKind * (SealedStore * Disk W) :=
  if erased st then (Err Erased, (st, d))
  else
    let st := {| provider := provider st; master_key := replicate 32 x00; erased := true |} in
    match io sys_none d with
    | (Err e, d) => (Err e, (st, d))
    | (Ok _, d) =>
        if negb safe_target then (Err UnsafeEraseTarget, (st, d))
        else
          let '(key_cleanup, d) := delete_external_master_key st d in
          let '(ciphertext_cleanup, d) := delete_ciphertext_before_reporting d in
          (let? _ := key_cleanup in
           let? _ := ciphertext_cleanup in
           Ok (provider st), (st, d))
    end.
End Erase.

(** ** Vaults ([identity.rs], [nostr.rs]) *)

Definition ser_bytes (b : bytes) : Value := JArray (map (fun x => JInt (byte_val x)) b).
Definition de_bytes (n : nat) (v : Value) : option bytes :=
  l ← de_vec (de_uint u8_max) v; if bool_decide (length l = n) then Some (map byte_of_Z l) else None.

Definition IDENTITY_RECORD : string := "identity-v1".
Definition NOSTR_RECORD : string := "nostr-identity-v1".

Inductive VaultError := VStore (e : StoreError) | VIdentity | VEncoding | AlreadyPresent.

Definition stored_value (field : string) (b : bytes) : Value := JObject [(field, ser_bytes b)].
Definition stored_of_value (field : string) (v : Value) : option bytes :=
  vs ← de_struct false [field] v;
  match vs with [b] => de_bytes 32 b | _ => None end.

Section Vaults.
Context {W : Type} {aead : Aead} {json : Json} {schnorr : Schnorr}.

Definition load_or_create (st : SealedStore) : SE (Disk W) VaultError IdentitySecrets := fun d =>
  match read st IDENTITY_RECORD d with
  | (Ok b, d) =>
      (match json_from_slice b ≫= stored_of_value "signing_seed" with
       | Some seed => Ok {| signing_seed := seed |}
       | None => Err VEncoding
       end, d)
  | (Err RecordNotFound, d) =>
      (let! seed := se_map_err (fun _ => VIdentity) (draw 32) in
       let! _ := se_map_err VStore
                   (write st IDENTITY_RECORD (json_to_vec (stored_value "signing_seed" seed))) in
       se_ret (Ok {| signing_seed := seed |})) d
  | (Err e, d) => (Err (VStore e), d)
  end.

Definition nostr_load (st : SealedStore) : SE (Disk W) VaultError (option NostrSecret) := fun d =>
  match read st NOSTR_RECORD d with
  | (Ok b, d) =>
      (match json_from_slice b ≫= stored_of_value "secret" with
       | Some key => let? s := map_err (fun _ => VIdentity) (NostrSecret_from_bytes key) in Ok (Some s)
       | None => Err VEncoding
       end, d)
  | (Err RecordNotFound, d) => (Ok None, d)
  | (Err e, d) => (Err (VStore e), d)
  end.

Definition save_new (st : SealedStore) (s : NostrSecret) : SE (Disk W) VaultError unit := fun d =>
  match read st NOSTR_RECORD d with
  | (Ok _, d) => (Err AlreadyPresent, d)
  | (Err _, d) =>
      se_map_err VStore (write st NOSTR_RECORD (json_to_vec (stored_value "secret" (secret s)))) d
  end.
End Vaults.

(** ** Facts about single calls *)

Lemma hoare_syscall {W A : Type} (run : Tree -> result IoError (A * Tree)) (cut : nat -> Tree -> Tree) (P : Tree -> Prop)
    (Q : A -> Tree -> Prop) (R : Tree -> Prop) :
  (forall fs a fs', P fs -> run fs = Ok (a, fs') -> Q a fs') ->
  (forall fs, P fs -> R fs) -> (forall n fs, P fs -> R (cut n fs)) ->
  hoare (fun d : Disk W => P (files d)) (syscall run cut) (fun a d => Q a (files d)) (fun d => R (files d)).
Proof.
  intros HQ HR Hc d Hd. unfold syscall. destruct (crashed d); [by apply HR|].
  destruct (tape d) as [|[] t]; try (by apply Hc);
    (destruct (run (files d)) as [[a fs]|e] eqn:E; [by eapply HQ | by apply HR]).
Qed.

(** The file tree with the file at [temp] in whatever state, and all others as they were. *)
Definition kept (old : Tree) (temp : Path) (fs : Tree) : Prop :=
  forall p, p <> temp -> fs !! p = old !! p.
(** The same, with the new contents at [path]. *)
Definition replaced (old : Tree) (temp path : Path) (f : FileData)
    (fs : Tree) : Prop :=
  fs !! path = Some f /\ forall p, p <> temp -> p <> path -> fs !! p = old !! p.

Lemma kept_delete old temp fs : kept old temp fs -> kept old temp (delete temp fs).
Proof. intros H p Hp. by rewrite lookup_delete_ne, H by done. Qed.
Lemma replaced_delete old temp path f fs :
  temp <> path -> replaced old temp path f fs -> replaced old temp path f (delete temp fs).
Proof.
  intros Hne [H1 H2]. split; [by rewrite lookup_delete_ne|]. intros p Hp Hq. by rewrite lookup_delete_ne, H2 by done.
Qed.

Lemma string_app_length (s t : string) : String.length (s ++ t)%string = (String.length s + String.length t)%nat.
Proof.
  induction s as [|c s IH]; [done|]. change (String c s ++ t)%string with (String c (s ++ t)).
  cbn [String.length]. by rewrite IH.
Qed.

Lemma temporary_name_ne name pid r : temporary_name name pid r <> name.
Proof. intros E%(f_equal String.length). unfold temporary_name in E. rewrite !string_app_length in E. simpl in E. lia. Qed.

Lemma temporary_is_temporary name pid r : is_temporary (temporary_name name pid r) = true.
Proof.
  unfold is_temporary, temporary_name. apply andb_true_iff. split.
  - unfold starts_with. apply bytes_prefix_spec. rewrite as_bytes_app. eauto.
  - rewrite !as_bytes_app, app_assoc. apply contains_app.
Qed.

Section AtomicWrite.
Context {W : Type} (dir : Dir) (name : string) (b : bytes).

(** The contents of a file that [atomic_write] completes. *)
Definition written : FileData := {| contents := b; mode := 0x180 |}.

(** The temporary file exists, and everything else is as before. *)
Definition staged (old : Tree) (temp : Path) (c : bytes) (fs : Tree) : Prop :=
  old !! temp = None /\ fs = <[temp := {| contents := c; mode := 0x180 |}]> old.

Lemma staged_kept old temp c fs : staged old temp c fs -> kept old temp fs.
Proof. intros [_ ->] p Hp. by rewrite lookup_insert_ne. Qed.

Definition torn (old : Tree) (temp : Path) (fs : Tree) : Prop :=
  kept old temp fs \/ replaced old temp (dir, name) written fs.

Lemma write_steps_spec old temp : temp <> (dir, name) ->
  hoare (fun d : Disk W => files d = old) (write_steps temp (dir, name) b)
    (fun _ d => files d = <[(dir, name) := written]> old) (fun d => torn old temp (files d)).
Proof.
  intros Hne. unfold write_steps.
  assert (forall fs, fs = <[(dir, name) := written]> old -> torn old temp fs) as Hnew.
  { intros fs ->. right. split; [by rewrite lookup_insert_eq|]. intros p _ Hp. by rewrite lookup_insert_ne. }
  apply (hoare_bind _ _ _ (fun _ d => staged old temp [] (files d))).
  { apply hoare_map_err, (hoare_syscall _ _ (fun fs => fs = old) (fun _ => staged old temp []) (torn old temp)).
    - intros fs a fs' -> H. destruct (old !! temp) eqn:E; [done|]. by injection H as <- <-.
    - intros fs ->. by left.
    - intros n fs ->. by left. }
  intros _. apply (hoare_bind _ _ _ (fun _ d => staged old temp b (files d))).
  { apply hoare_map_err, (hoare_syscall _ _ (staged old temp []) (fun _ => staged old temp b) (torn old temp)).
    - intros fs a fs' [Ho ->] [= <- <-]. split; [done|]. unfold append_to.
      apply map_eq. intros p. destruct (decide (p = temp)) as [->|Hp].
      + by rewrite lookup_alter_eq, !lookup_insert_eq.
      + by rewrite lookup_alter_ne, !lookup_insert_ne by done.
    - intros fs H. left. by eapply staged_kept.
    - intros n fs H. left. intros p Hp. unfold append_to. rewrite lookup_alter_ne by done.
      by apply (staged_kept _ _ _ _ H). }
  intros _. apply (hoare_bind _ _ _ (fun _ d => staged old temp b (files d))).
  { apply hoare_map_err, (hoare_syscall _ _ (staged old temp b) (fun _ => staged old temp b) (torn old temp)).
    - by intros fs a fs' H [= <- <-].
    - intros fs H. left. by eapply staged_kept.
    - intros n fs H. left. by eapply staged_kept. }
  intros _. apply (hoare_bind _ _ _ (fun _ d => files d = <[(dir, name) := written]> old)).
  { apply hoare_map_err, (hoare_syscall _ _ (staged old temp b)
      (fun _ fs => fs = <[(dir, name) := written]> old) (torn old temp)).
    - intros fs a fs' [Ho ->]. rewrite lookup_insert_eq. intros [= <- <-].
      rewrite delete_insert_id by done. done.
    - intros fs H. left. by eapply staged_kept.
    - intros n fs H. left. by eapply staged_kept. }
  intros _. apply (hoare_bind _ _ _ (fun _ d => files d = <[(dir, name) := written]> old)).
  { apply hoare_map_err, (hoare_syscall _ _ (fun fs => fs = <[(dir, name) := written]> old)
      (fun _ fs => fs = <[(dir, name) := written]> old) (torn old temp)); [|by auto..].
    intros fs a fs' ->. rewrite lookup_insert_eq. intros [= <- <-]. by rewrite insert_insert_eq. }
  intros _. apply hoare_map_err, (hoare_syscall _ _ (fun fs => fs = <[(dir, name) := written]> old)
    (fun _ fs => fs = <[(dir, name) := written]> old) (torn old temp)); [|by auto..].
  by intros fs a fs' H [= <- <-].
Qed.

Lemma remove_torn old temp : temp <> (dir, name) -> forall fs (a : unit) fs',
  torn old temp fs ->
  match fs !! temp with Some _ => Ok (tt, delete temp fs) | None => Err NotFound end = Ok (a, fs') ->
  torn old temp fs'.
Proof.
  intros Hne fs a fs' H E. destruct (fs !! temp); [|done]. injection E as <- <-.
  destruct H as [H|H]; [left; by apply kept_delete | right; by apply replaced_delete].
Qed.

(** What is left of an interrupted or failed [atomic_write]: the old file or the whole new
    one, and perhaps a temporary file. *)
Lemma atomic_write_spec (d : Disk W) :
  match atomic_write dir name b d with
  | (Ok _, d') => files d' = <[(dir, name) := written]> (files d)
  | (Err _, d') => exists r, torn (files d) (dir, temporary_name name (pid d) r) (files d')
  end.
Proof.
  unfold atomic_write, se_bind. destruct (draw 8 d) as [[random|e] d1] eqn:E.
  2: { unfold draw in E. destruct (getrandom_fill Random 8 (rng d)). injection E as _ <-. exists 0. by left. }
  assert (files d1 = files d /\ pid d1 = pid d) as [Hf Hpid].
  { unfold draw in E. destruct (getrandom_fill Random 8 (rng d)). by injection E as _ <-. }
  set (temp := (dir, temporary_name name (pid d1) (from_le_bytes random))).
  assert (temp <> (dir, name)) as Hne by (intros [= F]; by eapply temporary_name_ne).
  pose proof (write_steps_spec (files d) temp Hne d1 Hf) as H. cbv beta in H.
  destruct (write_steps temp (dir, name) b d1) as [[[]|e] d2]; [done|].
  exists (from_le_bytes random). rewrite <- Hpid.
  fold temp.
  pose proof (hoare_syscall (W := W) _ whole (torn (files d) temp) (fun _ : unit => torn (files d) temp)
    (torn (files d) temp) (remove_torn (files d) temp Hne)) as Hr.
  unfold sys_remove. specialize (Hr ltac:(done) ltac:(done) d2 H).
  by destruct (syscall _ _ d2) as [[]].
Qed.
End AtomicWrite.

(** ** A process that starts again, without faults *)

Definition reboot {W : Type} (d : Disk W) : Disk W := set_tape false [] d.

(** The disk is quiet: alive, and no fault is planned. *)
Definition calm {W : Type} (d : Disk W) : Prop := crashed d = false /\ tape d = [].

Lemma calm_eq {W : Type} (d : Disk W) : calm d -> d = set_tape false [] d.
Proof. intros [H1 H2]. destruct d; cbn in *. by subst. Qed.

Lemma syscall_calm {W A : Type} (run : Tree -> result IoError (A * Tree)) cut (d : Disk W) :
  calm d ->
  syscall run cut d =
    match run (files d) with
    | Ok (a, fs) => (Ok a, set_files fs d)
    | Err e => (Err e, d)
    end.
Proof.
  intros [H1 H2]. unfold syscall. rewrite H1, H2. cbn [tail].
  destruct (run (files d)) as [[a fs]|e]; f_equal; destruct d; cbn in *; by subst.
Qed.

Lemma calm_files {W : Type} fs (d : Disk W) : calm d -> calm (set_files fs d).
Proof. by intros []. Qed.

Lemma set_files_same {W : Type} (d : Disk W) : set_files (files d) d = d.
Proof. by destruct d. Qed.

Lemma sys_none_calm {W : Type} (d : Disk W) : calm d -> io sys_none d = (Ok tt, d).
Proof.
  intros H. unfold io, se_map_err, sys_none. rewrite syscall_calm by done. cbn. by rewrite set_files_same.
Qed.

Definition record_temporary (p : Path) : bool := bool_decide (p.1 = RecordsDir) && is_temporary p.2.

Lemma bool_decide_cons_ne (m n : string) names :
  m <> n -> bool_decide (m ∈ n :: names) = bool_decide (m ∈ names).
Proof. intros H. apply bool_decide_ext. rewrite elem_of_cons. split; [by intros [?|?] | by right]. Qed.

Lemma remove_temporaries_calm {W : Type} names : forall d : Disk W,
  calm d -> NoDup names -> (forall n, n ∈ names -> is_Some (files d !! (RecordsDir, n))) ->
  exists fs, remove_temporaries names d = (Ok tt, set_files fs d) /\
    forall p, fs !! p = if record_temporary p && bool_decide (p.2 ∈ names) then None else files d !! p.
Proof.
  induction names as [|n names IH]; intros d Hq Hnd Hin.
  - exists (files d). rewrite set_files_same. split; [done|]. intros p.
    rewrite (bool_decide_false (p.2 ∈ [])) by apply not_elem_of_nil. by rewrite andb_false_r.
  - apply NoDup_cons in Hnd as [Hn Hnd]. cbn [remove_temporaries]. destruct (is_temporary n) eqn:Et.
    + destruct (Hin n) as [f Hf]; [by left|]. unfold se_bind, io, se_map_err, sys_remove.
      rewrite syscall_calm, Hf by done. cbn [fst snd map_err].
      destruct (IH (set_files (delete (RecordsDir, n) (files d)) d)) as (fs & Hr & Hfs); [done|done| |].
      { intros m Hm. cbn [files set_files]. rewrite lookup_delete_ne by (intros [= ->]; done).
        apply Hin. by right. }
      exists fs. split; [exact Hr|]. intros [dr m]. rewrite Hfs. cbn [files set_files fst snd].
      unfold record_temporary. cbn [fst snd]. destruct (decide (dr = RecordsDir)) as [->|Hd].
      * rewrite (bool_decide_true (RecordsDir = RecordsDir)) by done. cbn [andb].
        destruct (decide (m = n)) as [->|Hm].
        -- rewrite Et, lookup_delete_eq, (bool_decide_true (n ∈ n :: names)) by (by left).
           by destruct (_ && _).
        -- rewrite lookup_delete_ne by (intros [= ?]; done).
           by rewrite bool_decide_cons_ne.
      * rewrite (bool_decide_false (dr = RecordsDir)) by done. cbn [andb].
        by rewrite lookup_delete_ne by (intros [= ? ?]; done).
    + destruct (IH d Hq Hnd) as (fs & Hr & Hfs); [intros m Hm; apply Hin; by right|].
      exists fs. split; [exact Hr|]. intros [dr m]. rewrite Hfs. unfold record_temporary. cbn [fst snd].
      destruct (decide (m = n)) as [->|Hm]; [by rewrite Et, andb_false_r|].
      by rewrite bool_decide_cons_ne.
Qed.

Lemma elem_of_names_in dir n fs : n ∈ names_in dir fs <-> is_Some (fs !! (dir, n)).
Proof.
  unfold names_in. rewrite list_elem_of_In, in_map_iff. split.
  - intros ([dr m] & <- & H). apply filter_In in H as [H Hd]. apply bool_decide_eq_true in Hd. cbn in *. subst.
    apply in_map_iff in H as ([p f] & E & H). cbn in E. subst.
    apply list_elem_of_In, elem_of_map_to_list in H. eauto.
  - intros [f Hf]. exists (dir, n). split; [done|]. apply filter_In. split; [|by apply bool_decide_eq_true].
    apply in_map_iff. exists ((dir, n), f). split; [done|]. by apply list_elem_of_In, elem_of_map_to_list.
Qed.

Lemma names_in_nodup dir fs : NoDup (names_in dir fs).
Proof.
  unfold names_in. apply NoDup_fmap_2_strong.
  - intros [d1 m1] [d2 m2] H1 H2 E. cbn in E. subst.
    apply list_elem_of_In, filter_In in H1 as [_ H1], H2 as [_ H2].
    apply bool_decide_eq_true in H1, H2. cbn in *. congruence.
  - apply NoDup_ListNoDup, List.NoDup_filter, NoDup_ListNoDup. apply NoDup_fst_map_to_list.
Qed.

(** Recovery removes the temporary files of the records directory, and nothing else. *)
Lemma recover_calm {W : Type} (d : Disk W) : calm d ->
  exists fs, recover_interrupted_writes d = (Ok tt, set_files fs d) /\
    forall p, fs !! p = if record_temporary p then None else files d !! p.
Proof.
  intros Hq. unfold recover_interrupted_writes, se_bind, io at 1, se_map_err, sys_list.
  rewrite syscall_calm by done. cbn [fst snd map_err]. rewrite set_files_same.
  destruct (remove_temporaries_calm (names_in RecordsDir (files d)) d Hq (names_in_nodup _ _)) as (fs & -> & Hfs).
  { intros n. by rewrite elem_of_names_in. }
  rewrite sys_none_calm by (by apply calm_files). exists fs. split; [done|].
  intros [dr m]. rewrite Hfs. unfold record_temporary. cbn [fst snd].
  destruct (decide (dr = RecordsDir)) as [->|Hd]; [|by rewrite bool_decide_false].
  rewrite bool_decide_true by done. cbn [andb]. destruct (is_temporary m); [|done]. cbn [andb].
  destruct (files d !! (RecordsDir, m)) eqn:E.
  - by rewrite bool_decide_true by (apply elem_of_names_in; eauto).
  - by destruct (bool_decide _).
Qed.

(** ** A file-provider store on disk *)

Record file_store (key : bytes) (fs : Tree) : Prop := {
  fst_marker : exists m, fs !! (StateDir, MODE_MARKER) =
    Some {| contents := as_bytes (provider_name PFile); mode := m |};
  fst_key : exists m, fs !! (StateDir, FILE_KEY_NAME) = Some {| contents := key; mode := m |} /\
    Z.land m 0x3f = 0;
  fst_length : zlen key = KEY_BYTES
}.

Lemma read_provider_file {W : Type} (d : Disk W) key :
  calm d -> file_store key (files d) -> read_provider d = (Ok (Some PFile), d).
Proof.
  intros Hq [[m Hm] _ _]. unfold read_provider, sys_read. rewrite syscall_calm, Hm by done.
  cbn [contents]. rewrite set_files_same. reflexivity.
Qed.

Lemma load_file_key_ok {W : Type} (d : Disk W) key :
  calm d -> file_store key (files d) -> load_file_key d = (Ok key, d).
Proof.
  intros Hq [_ (m & Hm & Hp) Hl]. unfold load_file_key, se_bind, se_map_err, io, sys_stat, sys_read.
  rewrite syscall_calm, Hm by done. cbn [fst snd map_err mode]. rewrite set_files_same, Hp. cbn [Z.eqb negb].
  unfold se_ret, se_map_err. rewrite syscall_calm, Hm by done. cbn [fst snd map_err contents].
  rewrite set_files_same. unfold decode_key. by rewrite (proj2 (Z.eqb_eq _ _) Hl).
Qed.

(** Opening an existing file store gives its key back and only removes temporary files. *)
Lemma open_file_store {W : Type} {api : SecretApi W} (d : Disk W) key :
  calm d -> file_store key (files d) ->
  exists fs, open RAuto d = (Ok {| provider := PFile; master_key := key; erased := false |}, set_files fs d) /\
    forall p, fs !! p = if record_temporary p then None else files d !! p.
Proof.
  intros Hq Hs. destruct (recover_calm d Hq) as (fs & Hr & Hfs). exists fs. split; [|done].
  unfold open, ensure_private_directory.
  assert (forall B (k : unit -> SE (Disk W) StoreError B), se_bind (se_bind (io sys_none) (fun _ => io sys_none)) k d = k tt d) as Hn.
  { intros B k. unfold se_bind. by rewrite !sys_none_calm by done. }
  rewrite Hn. unfold se_bind at 1. rewrite (read_provider_file _ key) by done.
  unfold se_bind at 1 2 3. cbn [request_matches negb]. unfold se_ret at 1 2.
  rewrite (load_file_key_ok _ key) by done. cbn [fst snd]. unfold se_bind at 1. unfold se_ret at 1.
  rewrite Hn. unfold se_bind. by rewrite Hr.
Qed.

(** What [read] answers is determined by the record's file. *)
Section ReadFacts.
Context {W : Type} {aead : Aead}.

Lemma read_same (st : SealedStore) n (d1 d2 : Disk W) :
  calm d1 -> calm d2 -> files d1 !! (RecordsDir, n) = files d2 !! (RecordsDir, n) ->
  (read st n d1).1 = (read st n d2).1.
Proof.
  intros H1 H2 E. unfold read, se_bind, se_ret, se_map_err, sys_read.
  destruct (validate_record_name n) as [[]|]; [|done]. destruct (key_of_store st); [|done].
  rewrite !syscall_calm, E by done. by destruct (files d2 !! (RecordsDir, n)).
Qed.

Lemma valid_name_not_temporary n : validate_record_name n = Ok tt -> is_temporary n = false.
Proof.
  unfold validate_record_name. intros H. apply fail_if_ok_inv in H as [H _]. split_bools.
  unfold is_temporary. by destruct (starts_with "." n).
Qed.

Lemma take_bytes_all l : forall limit, zlen l <= limit -> take_bytes limit l = l.
Proof.
  induction l as [|b l IH]; intros limit H; [done|]. rewrite zlen_cons in H. pose proof (zlen_nonneg l).
  cbn [take_bytes]. destruct (limit <=? 0) eqn:E; split_bools; [lia|]. by rewrite IH by lia.
Qed.

Context {aead_laws : AeadLaws}.

Lemma open_envelope_sealed key n pt nonce ct :
  zlen nonce = NONCE_BYTES -> zlen pt <= MAX_RECORD_BYTES ->
  aead_encrypt key nonce (record_aad n) pt = Some ct ->
  open_envelope key n (RECORD_MAGIC ++ byte_of_Z RECORD_VERSION :: nonce ++ ct) = Ok pt.
Proof using aead_laws.
  intros Hn Hp He. destruct (aead_roundtrip _ _ _ _ _ He) as [Hl Hd].
  assert (length nonce = 24%nat) as Hn' by (unfold zlen, NONCE_BYTES in Hn; lia).
  set (env := RECORD_MAGIC ++ byte_of_Z RECORD_VERSION :: nonce ++ ct).
  assert (zlen env = zlen pt + 49) as Hz.
  { unfold env. rewrite zlen_app, zlen_cons, zlen_app, Hn, Hl. change (zlen RECORD_MAGIC) with 8.
    unfold NONCE_BYTES. lia. }
  pose proof (zlen_nonneg pt). unfold open_envelope.
  rewrite take_bytes_all by (unfold MAX_RECORD_BYTES, NONCE_BYTES, TAG_BYTES in *; lia).
  destruct (_ <? zlen env) eqn:E1; [unfold MAX_RECORD_BYTES, NONCE_BYTES, TAG_BYTES in *; split_bools; lia|].
  destruct (zlen env <? _) eqn:E2.
  { change (zlen RECORD_MAGIC) with 8 in E2. unfold NONCE_BYTES, TAG_BYTES in *. split_bools; lia. }
  assert (take 8 env = RECORD_MAGIC) as -> by reflexivity. rewrite bool_decide_true by done. cbn [orb negb].
  assert (env !! 8%nat = Some (byte_of_Z RECORD_VERSION)) as -> by reflexivity.
  change (byte_val (byte_of_Z RECORD_VERSION)) with 1. cbn [Z.eqb negb RECORD_VERSION Pos.eqb].
  assert (drop 9 env = nonce ++ ct) as -> by reflexivity.
  assert (drop 33 env = drop 24 (drop 9 env)) as -> by (by rewrite drop_drop).
  assert (drop 9 env = nonce ++ ct) as -> by reflexivity.
  rewrite (take_app_length' _ _ 24), (drop_app_length' _ _ 24) by done. by rewrite Hd.
Qed.

(** Every way a [write] can end: nothing stored, torn, or complete. *)
Lemma write_cases (st : SealedStore) name pt (d : Disk W) r d1 :
  erased st = false -> write st name pt d = (r, d1) ->
  (files d1 = files d /\ r <> Ok tt) \/
  (validate_record_name name = Ok tt /\
   exists env, open_envelope (master_key st) name env = Ok pt /\
     ((r = Ok tt /\ files d1 = <[(RecordsDir, name) := written env]> (files d)) \/
      (r <> Ok tt /\ exists i, torn RecordsDir name env (files d)
         (RecordsDir, temporary_name name (pid d) i) (files d1)))).
Proof using aead_laws.
  intros He. unfold write, se_bind at 1, se_ret at 1.
  destruct (validate_record_name name) as [[]|e] eqn:Ev; [|intros [= <- <-]; by left].
  unfold se_bind at 1, se_ret at 1. destruct (_ <? zlen pt) eqn:Es; [intros [= <- <-]; by left|].
  split_bools. unfold se_bind at 1.
  destruct (draw NONCE_BYTES d) as [rn d2] eqn:Ed.
  assert (files d2 = files d /\ pid d2 = pid d /\ forall n, rn = Ok n -> zlen n = NONCE_BYTES) as (Hf & Hp & Hn).
  { unfold draw in Ed. destruct (getrandom_fill Random NONCE_BYTES (rng d)) as [x t] eqn:Eg.
    injection Ed as <- <-. split_and!; [done..|]. intros n ->. by eapply getrandom_fill_ok. }
  destruct rn as [nonce|]; [|intros [= <- <-]; by left].
  unfold se_bind at 1, se_ret at 1, key_of_store. rewrite He.
  unfold write_with_nonce, se_bind at 1, se_ret at 1.
  destruct (aead_encrypt _ _ _ _) as [ct|] eqn:Ec; cbn [ok_or]; [|intros [= <- <-]; by left].
  set (env := RECORD_MAGIC ++ _). intros E. right. split; [done|]. exists env.
  split; [apply open_envelope_sealed; auto with lia|].
  pose proof (atomic_write_spec RecordsDir name env d2) as Ha. rewrite E, Hf, Hp in Ha.
  destruct r as [[]|]; [by left | right; split; [done | exact Ha]].
Qed.
(** The file tree after a [write]: nothing but temporary files and the record itself
    changed, and the record is the old file or one that opens to the new text. *)
Lemma write_files (st : SealedStore) name pt (d : Disk W) r d1 :
  erased st = false -> write st name pt d = (r, d1) ->
  (forall p, p <> (RecordsDir, name) -> record_temporary p = false -> files d1 !! p = files d !! p) /\
  ((r <> Ok tt /\ files d1 !! (RecordsDir, name) = files d !! (RecordsDir, name)) \/
   (validate_record_name name = Ok tt /\ exists env, open_envelope (master_key st) name env = Ok pt /\
      files d1 !! (RecordsDir, name) = Some (written env))).
Proof using aead_laws.
  intros He Hw. assert (forall i, record_temporary (RecordsDir, temporary_name name (pid d) i) = true) as Ht.
  { intros i. unfold record_temporary. cbn [fst snd]. by rewrite temporary_is_temporary. }
  assert (forall i, (RecordsDir, name) <> (RecordsDir, temporary_name name (pid d) i)) as Hne.
  { intros i [= E]. symmetry in E. by apply temporary_name_ne in E. }
  destruct (write_cases _ _ _ _ _ _ He Hw) as [[-> Hr]|(Hv & env & Ho & [[-> ->]|(Hr & i & K)])].
  - auto.
  - split; [intros p Hp _; by rewrite lookup_insert_ne by congruence|].
    right. split; [done|]. exists env. by rewrite lookup_insert_eq.
  - assert (forall p, record_temporary p = false -> p <> (RecordsDir, temporary_name name (pid d) i)) as Hp.
    { intros p Hp ->. by rewrite Ht in Hp. }
    destruct K as [K|[K1 K2]]; split; [|left; auto | | right; eauto]; intros p ? ?; auto.
Qed.

(** A name that [read] refuses is refused on every disk. *)
Lemma read_invalid (st : SealedStore) n (d3 d4 : Disk W) :
  validate_record_name n <> Ok tt -> (read st n d3).1 = (read st n d4).1.
Proof using Type. intros Hv. unfold read, se_bind, se_ret. by destruct (validate_record_name n) as [[]|]. Qed.
End ReadFacts.

Lemma erased_refuses {W : Type} {aead : Aead} (st : SealedStore) name (d : Disk W) :
  erased st = true -> validate_record_name name = Ok tt ->
  read st name d = (Err Erased, d) /\ store_delete st name d = (Err Erased, d).
Proof.
  intros He Hv. unfold read, store_delete, se_bind, se_ret, key_of_store. by rewrite Hv, He.
Qed.

Lemma erased_write {W : Type} {aead : Aead} (st : SealedStore) name pt (d : Disk W) :
  erased st = true -> (write st name pt d).1 <> Ok tt /\ files (write st name pt d).2 = files d.
Proof.
  intros He. unfold write, se_bind, se_ret, key_of_store. destruct (validate_record_name name) as [[]|]; [|done].
  destruct (_ <? _); [done|]. unfold draw. destruct (getrandom_fill _ _ _) as [[]]; [|done].
  by rewrite He.
Qed.

Lemma write_ok_alive {W : Type} {aead : Aead} (st : SealedStore) name pt (d d1 : Disk W) :
  write st name pt d = (Ok tt, d1) -> erased st = false.
Proof.
  intros Hw. destruct (erased st) eqn:E; [|done].
  destruct (erased_write st name pt d E) as [F _]. by rewrite Hw in F.
Qed.

(** [remove_dir_all] and a directory sync that both succeeded left nothing. *)
Lemma delete_ciphertext_ok {W : Type} (d d' : Disk W) u :
  delete_ciphertext_before_reporting d = (Ok u, d') -> files d' = ∅.
Proof.
  intros H. unfold delete_ciphertext_before_reporting in H. apply se_bind_ok_inv in H as (a & d1 & H1 & H2).
  apply se_map_err_ok_inv in H1, H2.
  pose proof (hoare_syscall (W := W) (fun _ => Ok (tt, ∅)) (fun n fs => list_to_map (drop n (map_to_list fs)))
    (fun _ => True) (fun _ fs => fs = ∅) (fun _ => True) ltac:(by intros ? ? ? _ [= _ <-]) ltac:(done) ltac:(done) d I) as K.
  unfold sys_remove_all in H1. rewrite H1 in K.
  pose proof (hoare_syscall (W := W) (fun fs => Ok (tt, fs)) whole
    (fun fs => fs = ∅) (fun _ fs => fs = ∅) (fun _ => True) ltac:(by intros ? ? ? ? [= _ <-]) ltac:(done) ltac:(done) d1 K) as K2.
  unfold sys_none in H2. by rewrite H2 in K2.
Qed.

(** ** The stored key records *)

Lemma stored_value_roundtrip `{JsonLaws} field b :
  utf8_valid field = true -> zlen b = 32 ->
  json_from_slice (json_to_vec (stored_value field b)) ≫= stored_of_value field = Some b.
Proof.
  intros Hf Hb. rewrite json_roundtrip.
  - cbn [mbind option_bind]. unfold stored_of_value, stored_value.
    change [(field, ser_bytes b)] with (zip [field] [ser_bytes b]).
    rewrite de_struct_zip by (done || apply NoDup_singleton). cbn [mbind option_bind]. unfold de_bytes, ser_bytes.
    rewrite <- (map_map byte_val JInt), de_vec_map.
    + cbn [mbind option_bind]. rewrite length_map, bool_decide_true by (unfold zlen in Hb; lia).
      f_equal. rewrite map_map. rewrite <- (map_id b) at 2. apply map_ext. apply byte_of_Z_val.
    + apply Forall_forall. intros z (x & -> & _)%list_elem_of_fmap. apply de_uint_int.
      pose proof (byte_val_range x). unfold u8_max. lia.
  - cbn. rewrite Hf. cbn. rewrite andb_true_r. apply forallb_forall. intros v (x & <- & _)%in_map_iff.
    pose proof (byte_val_range x). cbn. unfold_ints. lia.
Qed.

Lemma draw_length {W : Type} n (d d' : Disk W) b : draw n d = (Ok b, d') -> zlen b = n.
Proof.
  unfold draw. destruct (getrandom_fill Random n (rng d)) as [r t] eqn:E. intros [= -> _].
  by eapply getrandom_fill_ok.
Qed.

(** A record that was read can be read again by the next process. *)
Lemma read_ok_again {W : Type} {aead : Aead} (st : SealedStore) name (d d' : Disk W) b :
  read st name d = (Ok b, d') -> read st name (reboot d') = (Ok b, reboot d').
Proof.
  intros H. unfold read in *. apply se_bind_ok_inv in H as ([] & d1 & Hv & H). injection Hv as Hv <-.
  apply se_bind_ok_inv in H as (key & d1 & Hk & H). injection Hk as Hk <-.
  apply se_bind_ok_inv in H as (file & d1 & Hf & H). injection H as Ho <-.
  apply se_map_err_ok_inv in Hf.
  assert (exists f, files d !! (RecordsDir, name) = Some f /\ contents f = file /\ files d1 = files d) as (f & E & <- & Ed).
  { unfold sys_read, syscall in Hf. destruct (crashed d); [done|].
    destruct (tape d) as [|[] t]; try done; destruct (files d !! (RecordsDir, name)) as [f|] eqn:Ef; try done;
      injection Hf as <- <-; by exists f. }
  unfold se_bind, se_ret, se_map_err, sys_read. rewrite Hv, Hk, syscall_calm by done.
  cbn [files reboot set_tape]. rewrite Ed, E. cbn [fst snd map_err]. rewrite Ho, <- Ed. done.
Qed.

(** A successful [write] is what the next process reads. *)
Lemma write_then_read {W : Type} `{AeadLaws} (st : SealedStore) name pt (d d1 : Disk W) :
  write st name pt d = (Ok tt, d1) ->
  (read st name (reboot d1)) = (Ok pt, reboot d1).
Proof.
  intros Hw. pose proof (write_ok_alive _ _ _ _ _ Hw) as He.
  destruct (write_files _ _ _ _ _ _ He Hw) as [_ [[F _]|(Hv & env & Ho & E)]]; [done|].
  unfold read, se_bind, se_ret, se_map_err, sys_read, key_of_store. rewrite Hv, He, syscall_calm by done.
  cbn [files reboot set_tape]. rewrite E. cbn [fst snd map_err contents written]. by rewrite Ho.
Qed.

(** ** Properties *)

Section Properties.
Context {W : Type} {api : SecretApi W} {aead : Aead} {aead_laws : AeadLaws}.

(** C11: Records are replaced atomically. Whatever file-system call of a [write] fails or
    ends the process, the store opens again with its key; every other record reads as
    before, and the written one reads as before or as the new text, the new text if the
    write succeeded; no temporary file is left. *)
Theorem write_crash_safe (st : SealedStore) name pt (d d1 : Disk W) r :
  provider st = PFile -> erased st = false -> file_store (master_key st) (files d) ->
  write st name pt d = (r, d1) ->
  exists d2, open RAuto (reboot d1) = (Ok st, d2) /\
    (forall n, n <> name -> (read st n d2).1 = (read st n (reboot d)).1) /\
    ((r <> Ok tt /\ (read st name d2).1 = (read st name (reboot d)).1) \/ (read st name d2).1 = Ok pt) /\
    (forall n, is_temporary n = true -> files d2 !! (RecordsDir, n) = None).
Proof using Type*.
  intros Hpr He Hs Hw. destruct (write_files _ _ _ _ _ _ He Hw) as [Hoth Hrec].
  destruct (open_file_store (reboot d1) (master_key st)) as (fs & Ho & Hfs); [done| |].
  { destruct Hs as [[m Hm] (k & Hk & Hl) Hz]. cbn [reboot set_tape files].
    split; [exists m | exists k | done]; by rewrite Hoth by done. }
  exists (set_files fs (reboot d1)). split; [by destruct st; cbn in *; subst|].
  assert (forall n, validate_record_name n = Ok tt ->
    files (set_files fs (reboot d1)) !! (RecordsDir, n) = files d1 !! (RecordsDir, n)) as Hn.
  { intros n Hn%valid_name_not_temporary. cbn [files set_files]. rewrite Hfs. unfold record_temporary.
    cbn [fst snd]. by rewrite Hn, andb_false_r. }
  split_and!.
  - intros n Hne. destruct (decide (validate_record_name n = Ok tt)) as [Hv|Hv]; [|by apply read_invalid].
    apply read_same; [done..|]. rewrite Hn by done. apply Hoth; [congruence|].
    unfold record_temporary. cbn [fst snd]. by rewrite (valid_name_not_temporary _ Hv).
  - destruct Hrec as [[Hr E]|(Hv & env & Hopen & E)].
    + left. split; [done|]. destruct (decide (validate_record_name name = Ok tt)) as [Hv|Hv]; [|by apply read_invalid].
      apply read_same; [done..|]. by rewrite Hn.
    + right. unfold read, se_bind, se_ret, se_map_err, sys_read, key_of_store. rewrite Hv, He.
      rewrite syscall_calm, Hn, E by done. cbn. by rewrite Hopen.
  - intros n Ht. cbn [files set_files]. rewrite Hfs. unfold record_temporary. cbn [fst snd]. by rewrite Ht.
Qed.

Lemma panic_erase_erased safe_target st (d d' : Disk W) r st' :
  panic_erase safe_target st d = (r, (st', d')) -> erased st' = true.
Proof using Type.
  unfold panic_erase. destruct (erased st) eqn:E; [by intros [= _ <- _]|].
  destruct (io sys_none d) as [[]]; [|by intros [= _ <- _]]. destruct safe_target; [|by intros [= _ <- _]].
  cbn [negb]. destruct (delete_external_master_key _ _) as [k d3].
  destruct (delete_ciphertext_before_reporting d3). by intros [= _ <- _].
Qed.

(** An erasure that succeeds leaves no file. *)
Lemma panic_erase_files safe_target st (d d' : Disk W) k st' :
  panic_erase safe_target st d = (Ok k, (st', d')) -> files d' = ∅.
Proof using Type.
  unfold panic_erase. destruct (erased st); [done|]. destruct (io sys_none d) as [[u|e] d2]; [|done].
  destruct safe_target; [|done]. cbn [negb]. destruct (delete_external_master_key _ d2) as [x d3].
  destruct (delete_ciphertext_before_reporting d3) as [y d4] eqn:Ec. intros [= H <- <-].
  destruct x; [|done]. destruct y; [|done]. by apply delete_ciphertext_ok in Ec.
Qed.

(** After [panic_erase] the store in memory is dead, whatever happened on disk: every
    later read, write and delete is refused. When the process survives and the directory
    is a plain one, all files are gone even if the master key could not be deleted, and
    success means that they are gone. *)
Theorem panic_erase_terminal safe_target st (d d' : Disk W) r st' :
  panic_erase safe_target st d = (r, (st', d')) ->
  (forall name (d2 : Disk W), validate_record_name name = Ok tt ->
     read st' name d2 = (Err Erased, d2) /\ store_delete st' name d2 = (Err Erased, d2)) /\
  (forall name pt (d2 : Disk W), (write st' name pt d2).1 <> Ok tt /\ files (write st' name pt d2).2 = files d2) /\
  (r = Ok (provider st) -> files d' = ∅) /\
  (calm d -> safe_target = true -> erased st = false -> provider st = PFile -> files d' = ∅).
Proof using Type.
  intros H. pose proof (panic_erase_erased _ _ _ _ _ _ H) as He.
  split; [intros; by apply erased_refuses|]. split; [intros; by apply erased_write|].
  split; [intros ->; by eapply panic_erase_files|]. intros Hq Hsafe Herased Hp.
  unfold panic_erase in H. rewrite Herased, sys_none_calm, Hsafe in H by done. cbn [negb] in H.
  destruct (delete_external_master_key _ d) as [k d3] eqn:Ek.
  destruct (delete_ciphertext_before_reporting d3) as [c d4] eqn:Ec. injection H as <- <- <-.
  assert (calm d3) as Hq3.
  { unfold delete_external_master_key in Ek. cbn [provider] in Ek. rewrite Hp in Ek.
    unfold sys_remove in Ek. rewrite syscall_calm in Ek by done.
    destruct (files d !! _); [|by injection Ek as _ <-].
    rewrite sys_none_calm in Ek by done. by injection Ek as _ <-. }
  unfold delete_ciphertext_before_reporting, se_bind, io at 1, se_map_err, sys_remove_all in Ec.
  rewrite syscall_calm in Ec by done. cbn [fst snd map_err] in Ec.
  rewrite sys_none_calm in Ec by done. by injection Ec as _ <-.
Qed.

(** An identity is created once. When [load_or_create] returned an identity, from the
    record or a new one, the next process loads that same identity. *)
Theorem identity_stable {json : Json} {json_laws : JsonLaws} st (d d1 : Disk W) i :
  load_or_create st d = (Ok i, d1) -> (load_or_create st (reboot d1)).1 = Ok i.
Proof using aead_laws.
  unfold load_or_create at 1. destruct (read st IDENTITY_RECORD d) as [[b|e] d0] eqn:Er.
  - intros H. assert (read st IDENTITY_RECORD (reboot d1) = (Ok b, reboot d1)) as E.
    { apply read_ok_again in Er. injection H as _ <-. exact Er. }
    unfold load_or_create. rewrite E. by destruct (json_from_slice b ≫= _); injection H as <- <-.
  - destruct e; try done. intros H. apply se_bind_ok_inv in H as (seed & d2 & Hs & H).
    apply se_bind_ok_inv in H as ([] & d3 & Hw & H). injection H as <- <-.
    apply se_map_err_ok_inv in Hs, Hw. unfold load_or_create. rewrite (write_then_read _ _ _ _ _ Hw).
    rewrite stored_value_roundtrip; [done..|]. by apply draw_length in Hs.
Qed.

(** [save_new] replaces a key record it cannot read: if the stored record is there but
    damaged, of a newer version or sealed under another key, it reports success and the
    old record is gone. *)
Theorem save_new_overwrites {json : Json} st s (d d1 : Disk W) f e :
  files d !! (RecordsDir, NOSTR_RECORD) = Some f ->
  calm d -> (read st NOSTR_RECORD d).1 = Err e ->
  save_new st s d = (Ok tt, d1) ->
  exists env, files d1 !! (RecordsDir, NOSTR_RECORD) = Some (written env) /\
    open_envelope (master_key st) NOSTR_RECORD env = Ok (json_to_vec (stored_value "secret" (secret s))).
Proof using aead_laws.
  intros Hf Hq He H. unfold save_new in H. destruct (read st NOSTR_RECORD d) as [[b|e'] d2]; [done|].
  apply se_map_err_ok_inv in H. pose proof (write_ok_alive _ _ _ _ _ H) as Her.
  destruct (write_files _ _ _ _ _ _ Her H) as [_ [[F _]|(_ & env & Ho & E)]]; [done | eauto].
Qed.

(** A first run interrupted between writing the key file and the provider marker never
    completes with the file provider: every later start is refused, and changes nothing. *)
Theorem interrupted_first_run_stuck (d : Disk W) f :
  calm d -> files d !! (StateDir, MODE_MARKER) = None -> files d !! (StateDir, FILE_KEY_NAME) = Some f ->
  open RFile d = (Err ProviderStateExists, d).
Proof using Type.
  intros Hq Hm Hk. unfold open, ensure_private_directory, se_bind. rewrite !sys_none_calm by done.
  unfold read_provider, sys_read. rewrite syscall_calm, Hm by done.
  unfold select_first_run, create_file_key, se_bind, sys_stat. rewrite syscall_calm, Hk by done.
  by rewrite set_files_same.
Qed.
End Properties.

(** ** Witnesses *)

(** No secret service at all. *)
#[local] Instance no_secrets : SecretApi unit := {|
  ss_connect w := (false, w); ss_default_collection w := (false, w); ss_is_locked w := (None, w);
  ss_search w := (None, w); ss_get_secret _ w := (None, w); ss_create _ w := (false, w);
  ss_delete _ w := (false, w)
|}.

Definition sample_tree : Tree :=
  <[(StateDir, MODE_MARKER) := {| contents := as_bytes (provider_name PFile); mode := 0x180 |}]>
  {[(StateDir, FILE_KEY_NAME) := {| contents := key_of 9; mode := 0x180 |}]}.

Definition sample_disk (t : list Fault) (e : Entropy) : Disk unit :=
  {| files := sample_tree; keyring := tt; crashed := false; tape := t; rng := e; pid := 7 |}.

Definition sample_store : SealedStore := {| provider := PFile; master_key := key_of 9; erased := false |}.

Lemma sample_tree_ok : file_store (key_of 9) sample_tree.
Proof.
  split; [eexists; reflexivity | eexists; split; reflexivity | reflexivity].
Qed.

(** The process ends in the middle of the write of the temporary file. *)
Definition sample_crash : result StoreError unit * Disk unit :=
  write sample_store "a" [x41] (sample_disk [Runs; Crashes 3] [Some (be_bytes 24 1); Some (be_bytes 8 2)]).

Lemma write_crash_safe_witness :
  crashed sample_crash.2 = true /\
  exists d2, open RAuto (reboot sample_crash.2) = (Ok sample_store, d2) /\
    (forall n, is_temporary n = true -> files d2 !! (RecordsDir, n) = None).
Proof.
  split; [vm_compute; reflexivity|].
  destruct (write_crash_safe sample_store "a" [x41]
    (sample_disk [Runs; Crashes 3] [Some (be_bytes 24 1); Some (be_bytes 8 2)]) sample_crash.2 sample_crash.1)
    as (d2 & Ho & _ & _ & Ht); [reflexivity | reflexivity | exact sample_tree_ok | exact (surjective_pairing sample_crash) |].
  exists d2. split; [exact Ho | exact Ht].
Defined.

Lemma panic_erase_terminal_witness :
  files (panic_erase true sample_store (sample_disk [] [])).2.2 = ∅ /\
  (panic_erase true sample_store (sample_disk [] [])).1 = Ok PFile.
Proof.
  split; [|vm_compute; reflexivity].
  apply (panic_erase_terminal true sample_store (sample_disk [] []) _
    (panic_erase true sample_store (sample_disk [] [])).1
    (panic_erase true sample_store (sample_disk [] [])).2.1);
    [vm_compute; reflexivity | split; reflexivity | reflexivity | reflexivity | reflexivity].
Defined.

Definition sample_created := load_or_create sample_store
  (sample_disk [] [Some (key_of 33); Some (be_bytes 24 1); Some (be_bytes 8 2)]).

Lemma identity_stable_witness :
  (load_or_create sample_store (reboot sample_created.2)).1 = Ok {| signing_seed := key_of 33 |}.
Proof.
  apply (identity_stable sample_store
    (sample_disk [] [Some (key_of 33); Some (be_bytes 24 1); Some (be_bytes 8 2)])).
  vm_compute. reflexivity.
Defined.

(** A record of a later version, which this program cannot read. *)
Definition newer_record : FileData :=
  {| contents := RECORD_MAGIC ++ x02 :: replicate 60 x00; mode := 0x180 |}.
Definition newer_disk : Disk unit :=
  set_files (<[(RecordsDir, NOSTR_RECORD) := newer_record]> sample_tree)
    (sample_disk [] [Some (be_bytes 24 1); Some (be_bytes 8 2)]).
Definition sample_saved := save_new sample_store {| secret := key_of 3 |} newer_disk.

Lemma save_new_overwrites_witness :
  exists env, files sample_saved.2 !! (RecordsDir, NOSTR_RECORD) = Some (written env) /\
    open_envelope (key_of 9) NOSTR_RECORD env = Ok (json_to_vec (stored_value "secret" (key_of 3))).
Proof.
  apply (save_new_overwrites sample_store {| secret := key_of 3 |} newer_disk sample_saved.2 newer_record
    (UnsupportedVersion 2)); [vm_compute; reflexivity | split; reflexivity | vm_compute; reflexivity |].
  vm_compute. reflexivity.
Defined.

(** A first run that ends just after the key file was renamed into place. *)
Definition sample_first_run : Disk unit :=
  (open RFile {| files := ∅; keyring := tt; crashed := false;
     tape := [Runs; Runs; Runs; Runs; Runs; Runs; Runs; Runs; Crashes 0];
     rng := [Some (key_of 9); Some (be_bytes 8 1)]; pid := 7 |}).2.

Lemma interrupted_first_run_stuck_witness :
  crashed sample_first_run = true /\
  open RFile (reboot sample_first_run) = (Err ProviderStateExists, reboot sample_first_run).
Proof.
  split; [vm_compute; reflexivity|].
  apply (interrupted_first_run_stuck (reboot sample_first_run) {| contents := key_of 9; mode := 0x180 |});
    [split; reflexivity | vm_compute; reflexivity | vm_compute; reflexivity].
Defined.
