(* ===== verification/Migration.v ===== *)
(** * Moving the sealed store to another key provider ([migrate_provider] of [sealed.rs])

    A migration writes every record again, under the key of the other provider, into a new
    directory beside the state directory, and then swaps the two with two renames. The
    state is the directories involved, on the machine of [Store], whose calls can fail or
    end the process. *)

From Stdlib Require Import Strings.Byte Ascii String.
From S2P Require Import Prelude RustStd Libs Serde Concrete Account Keys Store.
Local Open Scope Z_scope.

(** ** Directories beside the state directory *)

(** The state directory, [.leaf.migration-N] and [.leaf.backup-N]. *)
Inductive Place := Home | Migrating (suffix : Z) | Backup (suffix : Z).
#[export] Instance Place_eq_dec : EqDecision Place.
Proof. solve_decision. Defined.
#[export] Instance Place_countable : Countable Place.
Proof.
  refine (inj_countable' (fun p => match p with Home => inl tt | Migrating s => inr (inl s) | Backup s => inr (inr s) end)
    (fun x => match x with inl _ => Home | inr (inl s) => Migrating s | inr (inr s) => Backup s end) _).
  by intros [].
Defined.

(** The file trees, and the machine; the [files] of the machine are those of the place it
    worked in last. *)
Record Volume {W : Type} := { trees : gmap Place Tree; machine : Disk W }.
Arguments Volume : clear implicits.

Definition tree_at {W : Type} (pl : Place) (v : Volume W) : Tree := default ∅ (trees v !! pl).
Definition disk_at {W : Type} (pl : Place) (v : Volume W) : Disk W := set_files (tree_at pl v) (machine v).

(** A store operation in one of the directories, which opening it creates. *)
Definition at_place {W E A : Type} (pl : Place) (c : SE (Disk W) E A) : SE (Volume W) E A := fun v =>
  let '(r, d) := c (disk_at pl v) in (r, {| trees := <[pl := files d]> (trees v); machine := d |}).

(** What touches no directory: randomness and the secret service. *)
Definition on_machine {W E A : Type} (c : SE (Disk W) E A) : SE (Volume W) E A := fun v =>
  let '(r, d) := c (machine v) in (r, {| trees := trees v; machine := d |}).

(** A call on the directories themselves. *)
Definition directory_call {W : Type} (run : gmap Place Tree -> result IoError (gmap Place Tree))
  : SE (Volume W) IoError unit := fun v =>
  match sys_none (machine v) with
  | (Err e, d) => (Err e, {| trees := trees v; machine := d |})
  | (Ok _, d) =>
      match run (trees v) with
      | Ok ts => (Ok tt, {| trees := ts; machine := d |})
      | Err e => (Err e, {| trees := trees v; machine := d |})
      end
  end.

(** [rename] of a directory: onto nothing or onto an empty directory *)
Definition rename_directory {W : Type} (from to : Place) : SE (Volume W) IoError unit :=
  directory_call (fun ts =>
    match ts !! from with
    | None => Err NotFound
    | Some fs => if bool_decide (default ∅ (ts !! to) = ∅) then Ok (<[to := fs]> (delete from ts)) else Err OtherIo
    end).
Definition sync_parent {W : Type} : SE (Volume W) IoError unit := directory_call Ok.

(** [fs::remove_dir_all]: cut short, it leaves some of the files. *)
Definition remove_dir_all {W : Type} (pl : Place) : SE (Volume W) IoError unit := fun v =>
  match trees v !! pl with
  | None => directory_call (fun _ => Err NotFound) v
  | Some _ =>
      match at_place pl sys_remove_all v with
      | (Ok _, v) => (Ok tt, {| trees := delete pl (trees v); machine := machine v |})
      | (Err e, v) => (Err e, v)
      end
  end.

Definition volume_io {W A : Type} (c : SE (Volume W) IoError A) : SE (Volume W) StoreError A := se_map_err Io c.

(** [let _ = ...]: the outcome is dropped. *)
Definition ignoring {S E A : Type} (c : SE S E A) (s : S) : S := (c s).2.

(** ** The migration *)

Section Migration.
Context {W : Type} {api : SecretApi W} {aead : Aead}.

Fixpoint read_records (source : SealedStore) (names : list string) : SE (Volume W) StoreError (list (string * bytes)) :=
  match names with
  | [] => se_ret (Ok [])
  | name :: names =>
      let! plaintext := at_place Home (read source name) in
      let! records := read_records source names in
      se_ret (Ok ((name, plaintext) :: records))
  end.

(** The source store, and every record of it in the clear. *)
Definition gather_records (target : ProviderKind) : SE (Volume W) StoreError (SealedStore * list (string * bytes)) :=
  let! source := at_place Home (open RAuto) in
  let! _ := se_ret (fail_if bool_decide (provider source = target) with ProviderConflict ;; Ok tt) in
  let! names := at_place Home (io (sys_list RecordsDir)) in
  let! records := read_records source names in
  se_ret (Ok (source, records)).

Fixpoint write_records (replacement : SealedStore) (records : list (string * bytes)) : SE (Disk W) StoreError unit :=
  match records with
  | [] => se_ret (Ok tt)
  | (name, plaintext) :: records =>
      let! _ := write replacement name plaintext in write_records replacement records
  end.

Definition requested_for (target : ProviderKind) : RequestedProvider :=
  match target with PSecretService => RSecretService | PFile => RFile end.

Definition forget_target_key (target : ProviderKind) (v : Volume W) : Volume W :=
  match target with
  | PSecretService => ignoring (on_machine delete_secret_service_key) v
  | PFile => v
  end.

(** The replacement: opened, filled, and removed again when either fails. *)
Definition build_replacement (target : ProviderKind) (suffix : Z) (records : list (string * bytes))
  : SE (Volume W) StoreError SealedStore := fun v =>
  match at_place (Migrating suffix) (open (requested_for target)) v with
  | (Err e, v) => (Err e, ignoring (remove_dir_all (Migrating suffix)) v)
  | (Ok replacement, v) =>
      match at_place (Migrating suffix) (write_records replacement records) v with
      | (Err e, v) => (Err e, forget_target_key target (ignoring (remove_dir_all (Migrating suffix)) v))
      | (Ok _, v) => (Ok replacement, v)
      end
  end.

(** The second rename, undone when it fails. *)
Definition publish_replacement (target : ProviderKind) (suffix : Z) : SE (Volume W) StoreError unit := fun v =>
  match rename_directory (Migrating suffix) Home v with
  | (Err e, v) => (Err (Io e), forget_target_key target (ignoring (rename_directory (Backup suffix) Home) v))
  | (Ok _, v) => (Ok tt, v)
  end.

(** What is left to do once the new store is in place. *)
Definition retire_source (source_provider : ProviderKind) (suffix : Z) : SE (Volume W) StoreError unit :=
  let! _ := volume_io sync_parent in
  let! _ := match source_provider with
            | PSecretService => on_machine delete_secret_service_key
            | PFile => se_ret (Ok tt)
            end in
  let! _ := volume_io (remove_dir_all (Backup suffix)) in
  volume_io sync_parent.

(** [migrate_provider]; [safe_target] says that the state directory has a parent and a name
    in UTF-8. *)
Definition migrate_provider (safe_target : bool) (target : ProviderKind) : SE (Volume W) StoreError unit :=
  let! gathered := gather_records target in
  let! _ := se_ret (fail_if negb safe_target with UnsafeEraseTarget ;; Ok tt) in
  let! random := on_machine (draw 8) in
  let suffix := from_le_bytes random in
  let! _ := build_replacement target suffix gathered.2 in
  let! _ := volume_io (rename_directory Home (Backup suffix)) in
  let! _ := publish_replacement target suffix in
  retire_source (provider gathered.1) suffix.
End Migration.

(** ** What calls leave of the files *)

(** The same files, but for temporary files of the records directory. *)
Definition settled (old fs : Tree) : Prop := forall p, record_temporary p = false -> fs !! p = old !! p.

Lemma settled_refl fs : settled fs fs.
Proof. by intros p _. Qed.
Lemma settled_trans a b c : settled a b -> settled b c -> settled a c.
Proof. intros H1 H2 p Hp. by rewrite H2, H1. Qed.
#[local] Hint Resolve settled_refl : omachat.

Create HintDb leaves.

Section Files.
Context {W : Type}.

(** Calls that leave every file as it is. *)
Definition leaves_files {E A : Type} (c : SE (Disk W) E A) : Prop := forall d, files (c d).2 = files d.

Lemma leaves_ret {E A} (r : result E A) : leaves_files (se_ret r).
Proof. done. Qed.
Lemma leaves_bind {E A B} (c : SE (Disk W) E A) (k : A -> SE (Disk W) E B) :
  leaves_files c -> (forall a, leaves_files (k a)) -> leaves_files (se_bind c k).
Proof.
  intros Hc Hk d. unfold se_bind. specialize (Hc d). destruct (c d) as [[a|e] d1]; [|done]. cbn in Hc.
  by rewrite (Hk a).
Qed.
Lemma leaves_map_err {E F A} (f : E -> F) (c : SE (Disk W) E A) : leaves_files c -> leaves_files (se_map_err f c).
Proof. intros Hc d. unfold se_map_err. specialize (Hc d). by destruct (c d). Qed.
Lemma leaves_syscall {A} (run : Tree -> result IoError (A * Tree)) :
  (forall fs a fs', run fs = Ok (a, fs') -> fs' = fs) -> leaves_files (syscall run whole).
Proof.
  intros H d. unfold syscall. destruct (crashed d); [done|].
  destruct (tape d) as [|[] t]; try done; (destruct (run (files d)) as [[a fs]|e] eqn:E; [by apply H in E as -> | done]).
Qed.
Lemma leaves_none : leaves_files sys_none.
Proof. apply leaves_syscall. by intros fs a fs' [= _ <-]. Qed.
Lemma leaves_list dir : leaves_files (sys_list dir).
Proof. apply leaves_syscall. by intros fs a fs' [= _ <-]. Qed.
Lemma leaves_stat p : leaves_files (sys_stat p).
Proof. apply leaves_syscall. intros fs a fs'. destruct (fs !! p); [by intros [= _ <-] | done]. Qed.
Lemma leaves_read_file p : leaves_files (sys_read p).
Proof. apply leaves_syscall. intros fs a fs'. destruct (fs !! p); [by intros [= _ <-] | done]. Qed.
Lemma leaves_draw n : leaves_files (draw n).
Proof. intros d. unfold draw. by destruct (getrandom_fill Random n (rng d)). Qed.
Lemma leaves_secret_unit f : leaves_files (secret_unit f).
Proof. intros d. unfold secret_unit, secret_call. destruct (crashed d); [done|]. by destruct (f (keyring d)). Qed.
Lemma leaves_secret_or {A} (f : W -> option A * W) : leaves_files (secret_or f).
Proof. intros d. unfold secret_or, secret_call. destruct (crashed d); [done|]. by destruct (f (keyring d)). Qed.
#[local] Hint Resolve leaves_ret leaves_bind leaves_map_err leaves_none leaves_list leaves_stat leaves_read_file leaves_draw
  leaves_secret_unit leaves_secret_or : leaves.

Ltac solve_leaves := unfold io; repeat (match goal with
  | |- leaves_files (se_bind _ _) => apply leaves_bind; [|intros]
  | |- leaves_files (match ?x with _ => _ end) => destruct x
  | |- _ => solve [auto with leaves]
  end).

Lemma leaves_ensure : leaves_files (ensure_private_directory (W := W)).
Proof. unfold ensure_private_directory. solve_leaves. Qed.
Lemma leaves_read_provider : leaves_files (read_provider (W := W)).
Proof.
  intros d. unfold read_provider. pose proof (leaves_read_file (StateDir, MODE_MARKER) d) as H.
  destruct (sys_read (StateDir, MODE_MARKER) d) as [[b|[]] d1]; try done. by destruct (from_utf8 b).
Qed.
Lemma leaves_load_file_key : leaves_files (load_file_key (W := W)).
Proof. unfold load_file_key. solve_leaves. Qed.

Context {api : SecretApi W}.
Lemma leaves_open_collection : leaves_files open_collection.
Proof. unfold open_collection. solve_leaves. Qed.
#[local] Hint Resolve leaves_open_collection : leaves.
Lemma leaves_load_secret create : leaves_files (load_secret_service_key create).
Proof. unfold load_secret_service_key. solve_leaves. Qed.
Lemma leaves_delete_secret : leaves_files delete_secret_service_key.
Proof. unfold delete_secret_service_key. solve_leaves. Qed.

Lemma leaves_read {aead : Aead} st name : leaves_files (read st name).
Proof. unfold read. solve_leaves. Qed.

Lemma ok_files {E A} (c : SE (Disk W) E A) d r d' : leaves_files c -> c d = (r, d') -> files d' = files d.
Proof. intros H E0. specialize (H d). by rewrite E0 in H. Qed.

(** Recovery leaves everything but temporary files. *)
Lemma sys_remove_settled old n : is_temporary n = true ->
  keeps (fun d : Disk W => settled old (files d)) (io (sys_remove (RecordsDir, n))).
Proof.
  intros Et. apply keeps_map_err. intros d Hd.
  pose proof (hoare_syscall (W := W) (fun fs => match fs !! (RecordsDir, n) with
      Some _ => Ok (tt, delete (RecordsDir, n) fs) | None => Err NotFound end)
    whole (settled old) (fun _ => settled old) (settled old)) as H.
  assert (forall fs (a : unit) fs', settled old fs -> (match fs !! (RecordsDir, n) with
      Some _ => Ok (tt, delete (RecordsDir, n) fs) | None => Err NotFound end) = Ok (a, fs') -> settled old fs') as Hr.
  { intros fs a fs' Hs E. destruct (fs !! (RecordsDir, n)); [|done]. injection E as _ <-. intros p Hp.
    rewrite lookup_delete_ne; [by apply Hs|]. intros <-. unfold record_temporary in Hp. cbn in Hp. by rewrite Et in Hp. }
  specialize (H Hr ltac:(done) ltac:(done) d Hd). unfold sys_remove. by destruct (syscall _ _ d) as [[]].
Qed.
Lemma remove_temporaries_settled old names :
  keeps (fun d : Disk W => settled old (files d)) (remove_temporaries names).
Proof.
  induction names as [|n names IH]; cbn [remove_temporaries]; [apply keeps_ret|].
  destruct (is_temporary n) eqn:Et; [|exact IH]. apply keeps_bind; [by apply sys_remove_settled | by intros _].
Qed.
Lemma leaves_settled {E A} old (c : SE (Disk W) E A) :
  leaves_files c -> keeps (fun d => settled old (files d)) c.
Proof. intros H d Hd. by rewrite H. Qed.
Lemma recover_settled old : keeps (fun d : Disk W => settled old (files d)) recover_interrupted_writes.
Proof.
  apply keeps_bind; [apply leaves_settled; unfold io; auto with leaves|]. intros names.
  apply keeps_bind; [apply remove_temporaries_settled|]. intros _. apply leaves_settled. unfold io; auto with leaves.
Qed.

Lemma marked_provider (d : Disk W) : is_Some (files d !! (StateDir, MODE_MARKER)) -> (read_provider d).1 <> Ok None.
Proof.
  intros [f Hf]. unfold read_provider, sys_read, syscall. destruct (crashed d); [done|]. rewrite Hf.
  destruct (tape d) as [|[] t]; try done; destruct (from_utf8 _); try done; by repeat case_bool_decide.
Qed.

(** Opening a directory that has a provider marker writes nothing. *)
Lemma open_marked requested (d : Disk W) :
  is_Some (files d !! (StateDir, MODE_MARKER)) -> settled (files d) (files (open requested d).2).
Proof.
  intros Hm. unfold open, se_bind at 1. pose proof (leaves_ensure d) as H1.
  destruct (ensure_private_directory d) as [[[]|e] d1]; cbn in H1; [|rewrite <- H1; apply settled_refl].
  unfold se_bind at 1. pose proof (leaves_read_provider d1) as H2.
  assert ((read_provider d1).1 <> Ok None) as H3 by (apply marked_provider; by rewrite H1).
  destruct (read_provider d1) as [[[p|]|e] d2]; cbn [fst snd] in *; rewrite <- H1, <- H2; [|done|apply settled_refl].
  revert d2 H2. assert (forall old, keeps (fun d => settled old (files d)) (
    let! selected := let! _ := se_ret (fail_if negb (request_matches requested p) with ProviderConflict ;; Ok tt) in
        let! key := match p with PSecretService => load_secret_service_key false | PFile => load_file_key end in
        se_ret (Ok (p, key)) in
    let! _ := se_ret (Ok tt) in
    let! _ := ensure_private_directory in
    let! _ := recover_interrupted_writes in
    se_ret (Ok {| provider := selected.1; master_key := selected.2; erased := false |}))) as K.
  { intros old. repeat (match goal with |- keeps _ (se_bind _ _) => apply keeps_bind; [|intros] end);
      try apply keeps_ret; try apply recover_settled;
      apply leaves_settled; [destruct p; [apply leaves_load_secret | apply leaves_load_file_key] | apply leaves_ensure]. }
  intros d2 _. exact (K _ d2 (settled_refl _)).
Qed.
End Files.

(** ** What the secret service holds *)

(** The documented behaviour of a secret service that the migration relies on: it holds some
    secrets under the attributes of this program; looking for them changes nothing and finds
    them, and a secret that was created is held. *)
Class KeyringLaws (W : Type) {api : SecretApi W} := {
  kr_held : W -> list bytes;
  kr_connect w : kr_held (ss_connect w).2 = kr_held w;
  kr_collection w : kr_held (ss_default_collection w).2 = kr_held w;
  kr_locked w : kr_held (ss_is_locked w).2 = kr_held w;
  kr_search w : kr_held (ss_search w).2 = kr_held w;
  kr_get item w : kr_held (ss_get_secret item w).2 = kr_held w;
  kr_found w items : (ss_search w).1 = Some items -> length items = length (kr_held w);
  kr_secret w item secret :
    (ss_search w).1 = Some [item] -> (ss_get_secret item (ss_search w).2).1 = Some secret -> kr_held w = [secret];
  kr_created w secret : kr_held w = [] -> (ss_create secret w).1 = true -> kr_held (ss_create secret w).2 = [secret]
}.

Create HintDb holds.

Section Keyring.
Context {W : Type} {api : SecretApi W} {laws : KeyringLaws W}.

Definition held (d : Disk W) : list bytes := kr_held (keyring d).

(** Calls that leave the service with what it holds. *)
Definition leaves_held {E A : Type} (c : SE (Disk W) E A) : Prop := forall d, held (c d).2 = held d.

Lemma holds_ret {E A} (r : result E A) : leaves_held (se_ret r).
Proof. done. Qed.
Lemma holds_bind {E A B} (c : SE (Disk W) E A) (k : A -> SE (Disk W) E B) :
  leaves_held c -> (forall a, leaves_held (k a)) -> leaves_held (se_bind c k).
Proof.
  intros Hc Hk d. unfold se_bind. specialize (Hc d). destruct (c d) as [[a|e] d1]; [|done]. cbn in Hc.
  by rewrite (Hk a).
Qed.
Lemma holds_map_err {E F A} (f : E -> F) (c : SE (Disk W) E A) : leaves_held c -> leaves_held (se_map_err f c).
Proof. intros Hc d. unfold se_map_err. specialize (Hc d). by destruct (c d). Qed.
Lemma holds_syscall {A} (run : Tree -> result IoError (A * Tree)) cut : leaves_held (syscall run cut).
Proof.
  intros d. unfold syscall. destruct (crashed d); [done|].
  destruct (tape d) as [|[] t]; try done; by destruct (run (files d)) as [[a fs]|e].
Qed.
Lemma holds_draw n : leaves_held (draw n).
Proof. intros d. unfold draw. by destruct (getrandom_fill Random n (rng d)). Qed.
Lemma holds_secret_unit f : (forall w, kr_held (f w).2 = kr_held w) -> leaves_held (secret_unit f).
Proof. intros Hf d. unfold secret_unit, secret_call. destruct (crashed d); [done|]. specialize (Hf (keyring d)). by destruct (f (keyring d)). Qed.
Lemma holds_secret_or {A} (f : W -> option A * W) : (forall w, kr_held (f w).2 = kr_held w) -> leaves_held (secret_or f).
Proof. intros Hf d. unfold secret_or, secret_call. destruct (crashed d); [done|]. specialize (Hf (keyring d)). by destruct (f (keyring d)). Qed.
#[local] Hint Resolve holds_ret holds_bind holds_map_err holds_syscall holds_draw holds_secret_unit holds_secret_or
  kr_connect kr_collection kr_locked kr_search kr_get : holds.

Ltac solve_held := unfold io; repeat (match goal with
  | |- leaves_held (se_bind _ _) => apply holds_bind; [|intros]
  | |- leaves_held (match ?x with _ => _ end) => destruct x
  | |- _ => solve [auto with holds]
  end).

Lemma holds_atomic_write dir n b : leaves_held (atomic_write dir n b).
Proof.
  unfold atomic_write. apply holds_bind; [auto with holds|]. intros random d.
  assert (leaves_held (write_steps (dir, temporary_name n (pid d) (from_le_bytes random)) (dir, n) b)) as H.
  { unfold write_steps, sys_create_new, sys_write_all, sys_none, sys_rename, sys_set_mode. solve_held. }
  specialize (H d). destruct (write_steps _ _ b d) as [[]]; [done|]. cbn [snd] in *. rewrite <- H. apply holds_syscall.
Qed.
#[local] Hint Resolve holds_atomic_write : holds.
Lemma holds_recover : leaves_held recover_interrupted_writes.
Proof.
  unfold recover_interrupted_writes, sys_list, sys_none. solve_held.
  match goal with |- leaves_held (remove_temporaries ?l) => induction l as [|n names IH]; cbn [remove_temporaries]; [apply holds_ret|] end.
  unfold sys_remove. destruct (is_temporary n); [|exact IH]. solve_held.
Qed.
Lemma holds_ensure : leaves_held ensure_private_directory.
Proof. unfold ensure_private_directory, sys_none. solve_held. Qed.
Lemma holds_read_provider : leaves_held read_provider.
Proof.
  intros d. unfold read_provider. pose proof (holds_syscall (fun fs => match fs !! (StateDir, MODE_MARKER) with
    Some f => Ok (contents f, fs) | None => Err NotFound end) whole d) as H. unfold sys_read.
  destruct (syscall _ _ d) as [[b|[]] d1]; try done. by destruct (from_utf8 b).
Qed.
Lemma holds_file_keys : leaves_held load_file_key /\ leaves_held create_file_key.
Proof.
  split; [unfold load_file_key, sys_stat, sys_read; solve_held|]. intros d. unfold create_file_key.
  pose proof (holds_syscall (fun fs => match fs !! (StateDir, FILE_KEY_NAME) with Some f => Ok (f, fs) | None => Err NotFound end) whole d) as H.
  unfold sys_stat. destruct (syscall _ _ d) as [[f|e] d1]; [done|]. cbn [snd] in H. rewrite <- H.
  match goal with |- held (?c d1).2 = _ => assert (leaves_held c) as Hc by solve_held end. apply Hc.
Qed.
Lemma holds_open_collection : leaves_held open_collection.
Proof. unfold open_collection. solve_held. Qed.
#[local] Hint Resolve holds_recover holds_ensure holds_read_provider holds_open_collection : holds.
Lemma holds_load_existing : leaves_held (load_secret_service_key false).
Proof. unfold load_secret_service_key. cbn [negb]. solve_held. Qed.

(** A key that was loaded or created is the one the service holds. *)
Lemma load_secret_held create (d d' : Disk W) key :
  load_secret_service_key create d = (Ok key, d') -> held d' = [key].
Proof.
  unfold load_secret_service_key. intros H. apply se_bind_ok_inv in H as ([] & d1 & _ & H).
  apply se_bind_ok_inv in H as (items & d2 & Hi & H).
  assert (held d2 = held d1) as Hh2
    by (pose proof (holds_secret_or ss_search kr_search d1) as E; by rewrite Hi in E).
  unfold secret_or, secret_call in Hi. destruct (crashed d1); [done|].
  destruct (ss_search (keyring d1)) as [ri w] eqn:Es. injection Hi as Hi Hd2. apply ok_or_ok_inv in Hi. subst ri.
  pose proof (kr_found (keyring d1) items ltac:(by rewrite Es)) as Hl. fold (held d1) in Hl. rewrite <- Hh2 in Hl.
  destruct items as [|item [|]]; [| |done].
  - destruct create; [|done]. cbn [negb] in H. apply se_bind_ok_inv in H as (k & d3 & Hd & H).
    apply se_bind_ok_inv in H as ([] & d4 & Hc & H). injection H as <- <-.
    assert (held d3 = held d2) as Hh3 by (pose proof (holds_draw KEY_BYTES d2) as E; by rewrite Hd in E).
    unfold secret_unit, secret_call in Hc. destruct (crashed d3); [done|].
    pose proof (kr_created (keyring d3) k) as Hk. fold (held d3) in Hk. rewrite Hh3 in Hk. specialize (Hk ltac:(by destruct (held d2))).
    destruct (ss_create k (keyring d3)) as [[] w']; [|done]. injection Hc as <-. by apply Hk.
  - apply se_bind_ok_inv in H as (secret & d3 & Hg & H). injection H as Hdec <-.
    assert (held d3 = held d2) as -> by (pose proof (holds_secret_or (ss_get_secret item) (kr_get item) d2) as E; by rewrite Hg in E).
    rewrite Hh2. unfold secret_or, secret_call in Hg. rewrite <- Hd2 in Hg. cbn [crashed keyring] in Hg. cbv iota in Hg.
    destruct (ss_get_secret item w) as [rs w'] eqn:Eg. injection Hg as Hg _. apply ok_or_ok_inv in Hg. subst rs.
    unfold decode_key in Hdec. destruct (_ =? _); [|done]. injection Hdec as <-.
    apply (kr_secret (keyring d1) item); by rewrite Es; cbn; rewrite ?Eg.
Qed.

(** Opening a directory with a marker, or with a key file, creates nothing in the service. *)
Lemma open_marked_held requested (d : Disk W) :
  is_Some (files d !! (StateDir, MODE_MARKER)) -> held (open requested d).2 = held d.
Proof.
  intros Hm. unfold open, se_bind at 1. pose proof (leaves_ensure d) as H1. pose proof (holds_ensure d) as K1.
  destruct (ensure_private_directory d) as [[[]|e] d1]; cbn [snd] in *; [|done].
  unfold se_bind at 1. pose proof (holds_read_provider d1) as K2.
  assert ((read_provider d1).1 <> Ok None) as H3 by (apply marked_provider; by rewrite H1).
  destruct (read_provider d1) as [[[p|]|e] d2]; cbn [fst snd] in *; rewrite <- K1, <- K2; [|done|done].
  match goal with |- held (?c d2).2 = _ => assert (leaves_held c) as Hc end; [|apply Hc].
  destruct holds_file_keys. pose proof holds_load_existing. destruct p; solve_held.
Qed.
Lemma holds_open_file : leaves_held (open RFile).
Proof.
  destruct holds_file_keys. pose proof holds_load_existing. unfold open, select_first_run. solve_held.
Qed.
Lemma holds_write {aead : Aead} st n pt : leaves_held (write st n pt).
Proof. unfold write, write_with_nonce. solve_held. Qed.
Lemma holds_read {aead : Aead} st n : leaves_held (read st n).
Proof. unfold read, sys_read. solve_held. Qed.
Lemma holds_write_records {aead : Aead} st records : leaves_held (write_records st records).
Proof.
  induction records as [|[n pt] records IH]; cbn [write_records]; [apply holds_ret|].
  apply holds_bind; [apply holds_write | by intros _].
Qed.
End Keyring.

(** ** A new store, and its records *)

(** The provider marker of a directory. *)
Definition marked (p : ProviderKind) (fs : Tree) : Prop :=
  exists m, fs !! (StateDir, MODE_MARKER) = Some {| contents := as_bytes (provider_name p); mode := m |}.

(** A record of a directory that opens under a key. *)
Definition readable `{Aead} (key : bytes) (fs : Tree) (name : string) (plaintext : bytes) : Prop :=
  exists f, fs !! (RecordsDir, name) = Some f /\ open_envelope key name (contents f) = Ok plaintext.

(** A directory that holds a store, given the secrets that the secret service holds: its
    marker, and its key in its file or as the one secret of the service. *)
Record opened_store (st : SealedStore) (fs : Tree) (secrets : list bytes) : Prop := {
  os_alive : erased st = false;
  os_marked : marked (provider st) fs;
  os_file : provider st = PFile -> file_store (master_key st) fs;
  os_secret : provider st = PSecretService -> secrets = [master_key st]
}.

Lemma same_state_store st fs fs' secrets :
  (forall n, fs' !! (StateDir, n) = fs !! (StateDir, n)) -> opened_store st fs secrets -> opened_store st fs' secrets.
Proof.
  intros He [H1 [m Hm] H3 H4]. split; [done | exists m; by rewrite He | | done].
  intros Hp. destruct (H3 Hp) as [[m1 K1] (m2 & K2 & K3) K4]. split; [exists m1 | exists m2 | done]; by rewrite He.
Qed.

Section NewStore.
Context {W : Type} {api : SecretApi W} {laws : KeyringLaws W}.

Lemma first_run_key (d d' : Disk W) target selected :
  files d = ∅ -> select_first_run (requested_for target) d = (Ok selected, d') ->
  selected.1 = target /\
  match target with
  | PFile => zlen selected.2 = KEY_BYTES /\ files d' = {[(StateDir, FILE_KEY_NAME) := written selected.2]}
  | PSecretService => files d' = ∅ /\ held d' = [selected.2]
  end.
Proof.
  intros Hf. destruct target; cbn [requested_for select_first_run]; intros H; inv_ok.
  - split; [done|]. split; [|by eapply load_secret_held]. erewrite ok_files; [exact Hf | apply leaves_load_secret | eassumption].
  - cbn [fst snd]. split; [done|].
    match goal with H : create_file_key d = _ |- _ => rename H into Hc end. unfold create_file_key in Hc.
    pose proof (leaves_stat (StateDir, FILE_KEY_NAME) d) as Hs.
    destruct (sys_stat (StateDir, FILE_KEY_NAME) d) as [[f|e] d1] eqn:Es; [done|]. cbn in Hs.
    apply se_bind_ok_inv in Hc as (key & d2 & Hd & Hc). apply se_bind_ok_inv in Hc as ([] & d3 & Hw & Hc). injection Hc as -> ->.
    pose proof (draw_length _ _ _ _ Hd) as Hl. pose proof (ok_files _ _ _ _ (leaves_draw KEY_BYTES) Hd) as Hd2.
    pose proof (atomic_write_spec StateDir FILE_KEY_NAME a d2) as K. rewrite Hw in K.
    split; [done|]. rewrite K, Hd2, Hs, Hf. done.
Qed.

(** A store that was opened in a new directory. *)
Lemma open_new (d d' : Disk W) target st :
  files d = ∅ -> open (requested_for target) d = (Ok st, d') ->
  provider st = target /\ opened_store st (files d') (held d') /\
  forall n, is_temporary n = false -> files d' !! (RecordsDir, n) = None.
Proof.
  intros Hf H. unfold open in H. apply se_bind_ok_inv in H as ([] & d1 & H1 & H).
  apply (ok_files _ _ _ _ leaves_ensure) in H1. apply se_bind_ok_inv in H as (existing & d2 & H2 & H).
  assert (existing = None) as ->.
  { unfold read_provider, sys_read, syscall in H2. destruct (crashed d1); [done|]. rewrite H1, Hf, lookup_empty in H2.
    destruct (tape d1) as [|[] t]; by simplify_eq/=. }
  apply (ok_files _ _ _ _ leaves_read_provider) in H2. apply se_bind_ok_inv in H as (selected & d3 & H3 & H).
  apply first_run_key in H3 as [Hsel H3]; [|congruence].
  apply se_bind_ok_inv in H as ([] & d4 & H4 & H).
  pose proof (atomic_write_spec StateDir MODE_MARKER (as_bytes (provider_name selected.1)) d3) as K. rewrite H4 in K.
  apply se_bind_ok_inv in H as ([] & d5 & H5' & H). pose proof (ok_files _ _ _ _ leaves_ensure H5') as H5.
  apply se_bind_ok_inv in H as ([] & d6 & H6 & H). injection H as <- <-.
  pose proof (recover_settled (files d4) d5) as K2. rewrite H6 in K2. cbn [provider].
  assert (held d6 = held d3) as Hh.
  { pose proof (holds_atomic_write StateDir MODE_MARKER (as_bytes (provider_name selected.1)) d3) as E4. rewrite H4 in E4.
    pose proof (holds_ensure d4) as E5. rewrite H5' in E5. pose proof (holds_recover d5) as E6. rewrite H6 in E6.
    cbn [snd] in *. congruence. }
  assert (settled (files d4) (files d6)) as Hs by (apply K2; rewrite H5; apply settled_refl). split; [done|]. split.
  2: { intros n Hn. rewrite Hs by (unfold record_temporary; cbn; by rewrite Hn). rewrite K, lookup_insert_ne by done.
       destruct target; [destruct H3 as [-> _]; apply lookup_empty | destruct H3 as [_ ->]]. by rewrite lookup_singleton_ne. }
  eapply same_state_store; [intros n; by apply Hs|]. rewrite K, Hsel, Hh. split; cbn [erased provider master_key].
  - done.
  - eexists. apply lookup_insert_eq.
  - intros ->. destruct H3 as [Hl ->]. split; [eexists; apply lookup_insert_eq | | done].
    eexists. split; [rewrite lookup_insert_ne by done; apply lookup_insert_eq | done].
  - intros ->. by apply H3.
Qed.

Context {aead : Aead} {aead_laws : AeadLaws}.

(** All records written: each of them is there, and the store is as it was otherwise. *)
Lemma write_records_ok st records : forall d d' : Disk W,
  erased st = false -> NoDup (map fst records) -> write_records st records d = (Ok tt, d') ->
  (forall n pt, (n, pt) ∈ records -> readable (master_key st) (files d') n pt) /\
  (forall p, record_temporary p = false -> (forall n, n ∈ map fst records -> p <> (RecordsDir, n)) -> files d' !! p = files d !! p).
Proof using aead_laws.
  induction records as [|[n pt] records IH]; intros d d' He Hnd H; cbn [write_records] in H.
  - injection H as <-. split; [by intros ? ? ?%elem_of_nil | done].
  - apply se_bind_ok_inv in H as ([] & d1 & Hw & H). cbn [map fst] in Hnd. apply NoDup_cons in Hnd as [Hn Hnd].
    destruct (write_files _ _ _ _ _ _ He Hw) as [Ho [[F _]|(Hv & env & Hopen & E)]]; [done|].
    destruct (IH _ _ He Hnd H) as [H1 H2]. split.
    + intros m pm Hm. apply elem_of_cons in Hm as [[= -> ->]|Hm]; [|by apply H1].
      exists (written env). split; [|done]. rewrite H2, E; [done| |].
      * unfold record_temporary. cbn [fst snd]. by rewrite (valid_name_not_temporary _ Hv).
      * intros m Hm [= <-]. done.
    + intros p Hp Hne. rewrite H2, Ho; [done | | done | done |].
      * intros ->. eapply Hne; [by left | done].
      * intros m Hm. apply Hne. by right.
Qed.
End NewStore.

(** ** The directories during a migration *)

Section Volume.
Context {W : Type} {api : SecretApi W} {laws : KeyringLaws W} {aead : Aead}.

Lemma at_place_other {E A} pl (c : SE (Disk W) E A) v q : q <> pl -> trees (at_place pl c v).2 !! q = trees v !! q.
Proof. intros Hq. unfold at_place. destruct (c _). cbn. by rewrite lookup_insert_ne. Qed.
Lemma at_place_same {E A} pl (c : SE (Disk W) E A) v : trees (at_place pl c v).2 !! pl = Some (files (c (disk_at pl v)).2).
Proof. unfold at_place. destruct (c _). apply lookup_insert_eq. Qed.
Lemma directory_call_err run (v v' : Volume W) e : directory_call run v = (Err e, v') -> trees v' = trees v.
Proof. unfold directory_call. destruct (sys_none _) as [[]]; [destruct (run _)|]; by intros [= _ <-]. Qed.
Lemma directory_call_ok run (v v' : Volume W) u : directory_call run v = (Ok u, v') -> run (trees v) = Ok (trees v').
Proof. unfold directory_call. destruct (sys_none _) as [[]]; [destruct (run _) eqn:E|]; try done. by intros [= _ <-]. Qed.
Lemma directory_call_cases run (v v' : Volume W) r : directory_call run v = (r, v') ->
  trees v' = trees v \/ run (trees v) = Ok (trees v').
Proof. destruct r; [right; by eapply directory_call_ok | left; by eapply directory_call_err]. Qed.
Lemma remove_dir_other pl (v : Volume W) q : q <> pl -> trees (remove_dir_all pl v).2 !! q = trees v !! q.
Proof.
  intros Hq. unfold remove_dir_all. destruct (trees v !! pl).
  - pose proof (at_place_other pl sys_remove_all v q Hq) as H. destruct (at_place _ _ v) as [[]]; [|done].
    cbn in *. by rewrite lookup_delete_ne.
  - destruct (directory_call _ v) as [r v'] eqn:E. apply directory_call_cases in E as [E|E]; cbn in *; [by rewrite E | done].
Qed.

(** The state directory still holds the files it had. *)
Definition home_kept (fs0 : Tree) (v : Volume W) : Prop := exists fs, trees v !! Home = Some fs /\ settled fs0 fs.

Lemma home_elsewhere {E A} fs0 pl (c : SE (Disk W) E A) : pl <> Home -> keeps (home_kept fs0) (at_place pl c).
Proof. intros Hp v (fs & H & Hs). exists fs. by rewrite at_place_other. Qed.
Lemma home_machine {E A : Type} (P : gmap Place Tree -> Prop) (c : SE (Disk W) E A) : keeps (fun v => P (trees v)) (on_machine c).
Proof. intros v H. unfold on_machine. by destruct (c _). Qed.
Lemma home_in_place {E A} fs0 (c : SE (Disk W) E A) : leaves_files c -> keeps (home_kept fs0) (at_place Home c).
Proof.
  intros Hc v (fs & H & Hs). exists fs. rewrite at_place_same, Hc. cbn [disk_at files set_files]. unfold tree_at. by rewrite H.
Qed.
Lemma home_open fs0 requested : is_Some (fs0 !! (StateDir, MODE_MARKER)) -> keeps (home_kept fs0) (at_place Home (open requested)).
Proof.
  intros Hm v (fs & H & Hs). eexists. split; [apply at_place_same|]. eapply settled_trans; [exact Hs|].
  assert (files (disk_at Home v) = fs) as <- by (cbn; unfold tree_at; by rewrite H).
  apply open_marked. cbn. unfold tree_at. rewrite H. cbn. by rewrite Hs.
Qed.
Lemma home_read_records fs0 source names : keeps (home_kept fs0) (read_records source names).
Proof.
  induction names as [|n names IH]; cbn [read_records]; [apply keeps_ret|].
  apply keeps_bind; [apply home_in_place, leaves_read|]. intros pt. apply keeps_bind; [exact IH|]. intros. apply keeps_ret.
Qed.
Lemma home_forget (P : gmap Place Tree -> Prop) target v : P (trees v) -> P (trees (forget_target_key target v)).
Proof. intros H. destruct target; [|done]. unfold forget_target_key, ignoring. by apply home_machine. Qed.
Lemma home_removed fs0 pl (v : Volume W) : pl <> Home -> home_kept fs0 v -> home_kept fs0 (ignoring (remove_dir_all pl) v).
Proof. intros Hp (fs & H & Hs). exists fs. unfold ignoring. by rewrite remove_dir_other. Qed.
Lemma home_build fs0 target suffix records : keeps (home_kept fs0) (build_replacement target suffix records).
Proof.
  intros v H. unfold build_replacement.
  pose proof (home_elsewhere fs0 (Migrating suffix) (open (requested_for target)) ltac:(done) v H) as H1.
  destruct (at_place _ (open _) v) as [[st|e] v1]; [|by apply home_removed].
  pose proof (home_elsewhere fs0 (Migrating suffix) (write_records st records) ltac:(done) v1 H1) as H2.
  destruct (at_place _ (write_records _ _) v1) as [[u|e] v2]; [done|].
  unfold home_kept. apply (home_forget (fun ts => exists fs, ts !! Home = Some fs /\ settled fs0 fs)). by apply home_removed.
Qed.

Lemma read_readable (st : SealedStore) n (d d' : Disk W) pt :
  read st n d = (Ok pt, d') -> readable (master_key st) (files d) n pt.
Proof.
  intros H. unfold read in H. apply se_bind_ok_inv in H as ([] & d1 & Hv & H). injection Hv as Hv <-.
  apply se_bind_ok_inv in H as (key & d1 & Hk & H). injection Hk as Hk <-. unfold key_of_store in Hk.
  apply se_bind_ok_inv in H as (file & d1 & Hf & H). injection H as Ho <-. apply se_map_err_ok_inv in Hf.
  destruct (erased st); [done|]. injection Hk as ->.
  unfold sys_read, syscall in Hf. destruct (crashed d); [done|].
  destruct (tape d) as [|[] t]; try done; destruct (files d !! (RecordsDir, n)) as [f|] eqn:Ef; try done;
    injection Hf as <- _; by exists f.
Qed.

Lemma read_records_ok source names fs : forall (v v' : Volume W) records,
  trees v !! Home = Some fs -> read_records source names v = (Ok records, v') ->
  trees v' = trees v /\ map fst records = names /\
  forall n pt, (n, pt) ∈ records -> readable (master_key source) fs n pt.
Proof.
  induction names as [|n names IH]; intros v v' records Hh H; cbn [read_records] in H.
  - injection H as <- <-. split_and!; [done..|]. by intros ? ? ?%elem_of_nil.
  - apply se_bind_ok_inv in H as (pt & v1 & Hr & H). apply se_bind_ok_inv in H as (rest & v2 & Hrest & H). injection H as <- <-.
    assert (tree_at Home v = fs) as Ht by (unfold tree_at; by rewrite Hh).
    unfold at_place in Hr. destruct (read source n (disk_at Home v)) as [r d] eqn:Er. injection Hr as -> <-.
    pose proof (ok_files _ _ _ _ (leaves_read _ _) Er) as Hf. cbn in Hf. rewrite Ht in Hf.
    apply read_readable in Er. cbn in Er. rewrite Ht in Er.
    apply IH in Hrest as (Hv & Hm & Hall); [|cbn; rewrite Hf; apply lookup_insert_eq].
    cbn in Hv. rewrite Hf, insert_id in Hv by done. split_and!; [done | by rewrite <- Hm |].
    intros m pm Hin. apply elem_of_cons in Hin as [[= -> ->]|Hin]; [done | by apply Hall].
Qed.

Context {aead_laws : AeadLaws}.

(** A replacement that was built holds the records, and nothing else. *)
Lemma build_ok target suffix records (v v' : Volume W) st :
  trees v !! Migrating suffix = None -> NoDup (map fst records) ->
  build_replacement target suffix records v = (Ok st, v') ->
  provider st = target /\ exists fs, trees v' !! Migrating suffix = Some fs /\ opened_store st fs (held (machine v')) /\
    forall n pt, is_temporary n = false -> (n, pt) ∈ records <-> readable (master_key st) fs n pt.
Proof using aead_laws.
  intros Hn Hnd H. unfold build_replacement, at_place at 1 in H.
  destruct (open (requested_for target) (disk_at (Migrating suffix) v)) as [[st'|e] d1] eqn:Eo; [|done].
  apply open_new in Eo as (Hp & Hos & Hnone); [|cbn; unfold tree_at; by rewrite Hn].
  set (v1 := {| trees := _; machine := d1 |}) in H. unfold at_place in H.
  destruct (write_records st' records (disk_at (Migrating suffix) v1)) as [[[]|e] d2] eqn:Ew; [|done].
  injection H as -> <-. split; [done|]. exists (files d2). split; [apply lookup_insert_eq|].
  assert (files (disk_at (Migrating suffix) v1) = files d1) as Hd1.
  { cbn. unfold tree_at, v1. cbn. by rewrite lookup_insert_eq. }
  assert (held d2 = held d1) as Hh2 by (pose proof (holds_write_records st records (disk_at (Migrating suffix) v1)) as E; by rewrite Ew in E).
  apply write_records_ok in Ew as [H1 H2]; [|apply Hos|done]. rewrite Hd1 in H2. split.
  - cbn [machine]. rewrite Hh2. eapply same_state_store; [|exact Hos]. intros n. apply H2; [done|]. by intros m _ [=].
  - intros n pt Ht. split; [apply H1|]. intros (f & Hf & Hopen).
    destruct (decide (n ∈ map fst records)) as [Hin|Hin].
    + apply list_elem_of_fmap in Hin as ([n' pt'] & -> & Hin). cbn in *. destruct (H1 _ _ Hin) as (f' & Hf' & Ho').
      rewrite Hf in Hf'. injection Hf' as <-. rewrite Hopen in Ho'. by injection Ho' as ->.
    + rewrite H2, Hnone in Hf; [done | done | unfold record_temporary; cbn; by rewrite Ht | by intros m Hm [= <-]].
Qed.

(** The swap: the old files are in one of the two places, or the new ones in the first. *)
Lemma publish_cases target suffix (v v' : Volume W) r fs fsM :
  trees v !! Backup suffix = Some fs -> trees v !! Home = None -> trees v !! Migrating suffix = Some fsM ->
  publish_replacement target suffix v = (r, v') ->
  (r = Ok tt /\ trees v' !! Home = Some fsM) \/
  (r <> Ok tt /\ (trees v' !! Home = Some fs \/ trees v' !! Backup suffix = Some fs)).
Proof.
  intros Hb Hh Hm H. unfold publish_replacement in H.
  destruct (rename_directory (Migrating suffix) Home v) as [[u|e] v1] eqn:E; unfold rename_directory in E.
  - apply directory_call_ok in E. rewrite Hm, Hh, bool_decide_true in E by done. injection E as E. injection H as <- <-.
    left. split; [done|]. rewrite <- E. apply lookup_insert_eq.
  - apply directory_call_err in E. injection H as <- <-. right. split; [done|].
    apply (home_forget (fun ts => ts !! Home = Some fs \/ ts !! Backup suffix = Some fs)).
    unfold ignoring. destruct (rename_directory _ _ v1) as [r' v2] eqn:E2. cbn [snd].
    apply directory_call_cases in E2 as [->|E2]; rewrite E in *; [by right|]. rewrite Hb, Hh, bool_decide_true in E2 by done.
    injection E2 as <-. left. apply lookup_insert_eq.
Qed.

Lemma retire_home p suffix fsM : keeps (fun v : Volume W => trees v !! Home = Some fsM) (retire_source p suffix).
Proof.
  assert (forall run : gmap Place Tree -> result IoError (gmap Place Tree), run = Ok ->
    keeps (fun v : Volume W => trees v !! Home = Some fsM) (volume_io (directory_call run))) as Hs.
  { intros run ->. apply keeps_map_err. intros v Hv. destruct (directory_call Ok v) as [r v'] eqn:E.
    apply directory_call_cases in E as [E|E]; cbn; [by rewrite E | by injection E as <-]. }
  unfold retire_source, sync_parent. apply keeps_bind; [by apply Hs|]. intros _. apply keeps_bind.
  { destruct p; first [apply keeps_ret | apply (home_machine (fun ts => ts !! Home = Some fsM))]. }
  intros _. apply keeps_bind; [|intros _; by apply Hs]. apply keeps_map_err. intros v Hv. by rewrite remove_dir_other.
Qed.

(** *** The secret service during a migration *)

Definition holding (secrets : list bytes) (v : Volume W) : Prop := held (machine v) = secrets.

Lemma holding_at {E A} secrets pl (c : SE (Disk W) E A) : leaves_held c -> keeps (holding secrets) (at_place pl c).
Proof using Type.
  intros Hc v H. unfold at_place, holding in *. specialize (Hc (disk_at pl v)). destruct (c (disk_at pl v)) as [r d]. cbn in *.
  by rewrite Hc.
Qed.
Lemma holding_machine {E A} secrets (c : SE (Disk W) E A) : leaves_held c -> keeps (holding secrets) (on_machine c).
Proof using Type.
  intros Hc v H. unfold on_machine, holding in *. specialize (Hc (machine v)). destruct (c (machine v)) as [r d]. cbn in *. congruence.
Qed.
Lemma holding_directory secrets run : keeps (holding secrets) (directory_call (W := W) run).
Proof using Type.
  intros v H. unfold directory_call, holding in *. pose proof (holds_syscall (fun fs => Ok (tt, fs)) whole (machine v)) as Hs.
  fold (sys_none (W := W)) in Hs. destruct (sys_none (machine v)) as [[u|e] d]; cbn in *; [destruct (run (trees v)); cbn|]; congruence.
Qed.
Lemma holding_remove secrets pl : keeps (holding secrets) (remove_dir_all pl).
Proof using Type.
  intros v H. unfold remove_dir_all. destruct (trees v !! pl); [|by apply holding_directory].
  pose proof (holding_at secrets pl sys_remove_all (holds_syscall _ _) v H) as H1. by destruct (at_place pl sys_remove_all v) as [[]].
Qed.
Lemma holding_read_records secrets source names : keeps (holding secrets) (read_records source names).
Proof using Type.
  induction names as [|n names IH]; cbn [read_records]; [apply keeps_ret|].
  apply keeps_bind; [apply holding_at, holds_read|]. intros pt. apply keeps_bind; [exact IH|]. intros. apply keeps_ret.
Qed.

(** Gathering only reads, of the service too. *)
Lemma holding_gather fs0 secrets target : is_Some (fs0 !! (StateDir, MODE_MARKER)) ->
  forall v, home_kept fs0 v -> holding secrets v -> holding secrets (gather_records target v).2.
Proof using Type.
  intros Hm v (fs & Hf & Hs) Hv. unfold gather_records, se_bind at 1.
  assert (holding secrets (at_place Home (open RAuto) v).2) as H1.
  { unfold at_place, holding in *. pose proof (open_marked_held RAuto (disk_at Home v)) as E.
    destruct (open RAuto (disk_at Home v)) as [r d]. cbn in *. rewrite E; [done|]. unfold tree_at. rewrite Hf. cbn. by rewrite Hs. }
  destruct (at_place Home (open RAuto) v) as [[source|e] v1]; [|done]. cbn [snd] in H1. revert v1 H1.
  match goal with |- forall v1, _ -> holding _ (?c v1).2 => change (keeps (holding secrets) c) end.
  apply keeps_bind; [apply keeps_ret|]. intros _.
  apply keeps_bind; [apply holding_at; unfold io; apply holds_map_err, holds_syscall|]. intros names.
  apply keeps_bind; [apply holding_read_records|]. intros. apply keeps_ret.
Qed.

(** The way to a file store does not touch the service. *)
Lemma holding_build secrets suffix records : keeps (holding secrets) (build_replacement PFile suffix records).
Proof using Type.
  intros v H. unfold build_replacement. cbn [requested_for forget_target_key].
  pose proof (holding_at secrets (Migrating suffix) (open RFile) holds_open_file v H) as H1.
  destruct (at_place _ (open RFile) v) as [[st|e] v1]; [|by apply holding_remove].
  pose proof (holding_at secrets (Migrating suffix) _ (holds_write_records st records) v1 H1) as H2.
  destruct (at_place _ (write_records _ _) v1) as [[u|e] v2]; [done|]. by apply holding_remove.
Qed.
Lemma holding_publish secrets target suffix (v v' : Volume W) r :
  publish_replacement target suffix v = (r, v') -> target = PFile \/ r = Ok tt -> holding secrets v -> holding secrets v'.
Proof using Type.
  intros H Ht Hv. unfold publish_replacement in H.
  pose proof (holding_directory secrets _ v Hv : holding secrets (rename_directory (Migrating suffix) Home v).2) as H1.
  destruct (rename_directory (Migrating suffix) Home v) as [[u|e] v1]; injection H as <- <-; [done|].
  destruct Ht as [->|Ht]; [|done]. cbn [forget_target_key]. by apply holding_directory.
Qed.
(** Retiring a file store keeps the secret of the new one. *)
Lemma holding_retire secrets suffix : keeps (holding secrets) (retire_source PFile suffix).
Proof using Type.
  unfold retire_source, volume_io. repeat (apply keeps_bind; [|intros _]); try apply keeps_ret; apply keeps_map_err;
    [apply holding_directory | apply holding_remove | apply holding_directory].
Qed.
End Volume.

(** ** Properties *)

(** The provider that a directory is marked with *)
Definition marker_provider (fs : Tree) : option ProviderKind :=
  f ← fs !! (StateDir, MODE_MARKER);
  value ← from_utf8 (contents f);
  if bool_decide (trim_chars (chars value) = chars "secret-service") then Some PSecretService
  else if bool_decide (trim_chars (chars value) = chars "file") then Some PFile
  else None.

Section Properties.
Context {W : Type} {api : SecretApi W} {laws : KeyringLaws W} {aead : Aead} {aead_laws : AeadLaws}.

(** The original files, where they were or in the backup, and, unless they hold their own
    key, the secret service with the secrets it held. *)
Definition original_kept (fs0 : Tree) (secrets : list bytes) (v : Volume W) : Prop :=
  exists pl fs, (pl = Home \/ exists s, pl = Backup s) /\ trees v !! pl = Some fs /\ settled fs0 fs /\
    (marker_provider fs0 <> Some PFile -> holding secrets v).
(** The state directory holds a store of the target provider with the same records, and its
    key is at hand. *)
Definition migrated (target : ProviderKind) (key : bytes) (fs0 : Tree) (v : Volume W) : Prop :=
  exists st fs, trees v !! Home = Some fs /\ provider st = target /\ opened_store st fs (held (machine v)) /\
    forall n pt, is_temporary n = false -> readable key fs0 n pt <-> readable (master_key st) fs n pt.

Lemma home_original fs0 secrets v : home_kept fs0 v -> (marker_provider fs0 <> Some PFile -> holding secrets v) ->
  original_kept fs0 secrets v.
Proof. intros (fs & H & Hs) Hk. exists Home, fs. auto. Qed.

(** The provider of a store that was opened is the one of the marker. *)
Lemma open_provider (d d' : Disk W) st : is_Some (files d !! (StateDir, MODE_MARKER)) ->
  open RAuto d = (Ok st, d') -> marker_provider (files d) = Some (provider st).
Proof.
  intros Hm H. unfold open in H. apply se_bind_ok_inv in H as ([] & d1 & H1 & H).
  apply (ok_files _ _ _ _ leaves_ensure) in H1. apply se_bind_ok_inv in H as (existing & d2 & H2 & H).
  assert (marker_provider (files d) = existing /\ is_Some existing) as [E [p ->]].
  { pose proof (marked_provider d1 ltac:(by rewrite H1)) as Hn. rewrite H2 in Hn. cbn in Hn.
    split; [|destruct existing; by eauto]. destruct existing as [p|]; [|done].
    unfold read_provider, sys_read, syscall in H2. destruct (crashed d1); [done|]. unfold marker_provider. rewrite <- H1.
    destruct (files d1 !! (StateDir, MODE_MARKER)) as [f|]; [|by destruct (tape d1) as [|[] t]].
    cbn [mbind option_bind]. destruct (tape d1) as [|[] t]; try done; destruct (from_utf8 (contents f)); try done;
      cbn [mbind option_bind]; repeat case_bool_decide; try done; by injection H2 as <-. }
  rewrite E. f_equal. apply se_bind_ok_inv in H as (selected & d3 & H3 & H).
  apply se_bind_ok_inv in H3 as ([] & d4 & _ & H3). apply se_bind_ok_inv in H3 as (key & d5 & _ & H3). injection H3 as <- <-.
  apply se_bind_ok_inv in H as ([] & d6 & _ & H). apply se_bind_ok_inv in H as ([] & d7 & _ & H).
  apply se_bind_ok_inv in H as ([] & d8 & _ & H). by injection H as <- _.
Qed.

(** The records that were read are all there are. *)
Lemma records_exact (source : SealedStore) fs0 fs names records :
  settled fs0 fs -> names = names_in RecordsDir fs -> map fst records = names ->
  (forall n pt, (n, pt) ∈ records -> readable (master_key source) fs n pt) ->
  forall n pt, is_temporary n = false -> (n, pt) ∈ records <-> readable (master_key source) fs0 n pt.
Proof.
  intros Hs -> Hm Hr n pt Ht.
  assert (readable (master_key source) fs0 n pt <-> readable (master_key source) fs n pt) as ->.
  { unfold readable. by rewrite Hs by (unfold record_temporary; cbn; by rewrite Ht). }
  split; [apply Hr|]. intros (f & Hf & Ho). assert (n ∈ map fst records) as Hin by (rewrite Hm; apply elem_of_names_in; eauto).
  apply list_elem_of_fmap in Hin as ([n' pt'] & -> & Hin). cbn in *. destruct (Hr _ _ Hin) as (f' & Hf' & Ho').
  rewrite Hf in Hf'. injection Hf' as <-. rewrite Ho in Ho'. by injection Ho' as ->.
Qed.

Lemma home_failed {A} fs0 secrets (c : SE (Volume W) StoreError A) v e v' :
  keeps (home_kept fs0) c -> home_kept fs0 v -> c v = (Err e, v') ->
  (marker_provider fs0 <> Some PFile -> holding secrets v') -> original_kept fs0 secrets v'.
Proof. intros Hk K E Hh. specialize (Hk v K). rewrite E in Hk. by apply home_original. Qed.

Lemma leaves_names : leaves_files (io (W := W) (sys_list RecordsDir)).
Proof. apply leaves_map_err, leaves_list. Qed.

(** Gathering the records changes nothing but temporary files. *)
Lemma home_gather fs0 target : is_Some (fs0 !! (StateDir, MODE_MARKER)) -> keeps (home_kept fs0) (gather_records target).
Proof.
  intros Hm. apply keeps_bind; [by apply home_open|]. intros source. apply keeps_bind; [apply keeps_ret|]. intros _.
  apply keeps_bind; [apply home_in_place, leaves_names|]. intros names.
  apply keeps_bind; [apply home_read_records|]. intros records. apply keeps_ret.
Qed.

Lemma names_listed (v v' : Volume W) names fs :
  at_place Home (io (sys_list RecordsDir)) v = (Ok names, v') -> trees v' !! Home = Some fs -> names = names_in RecordsDir fs.
Proof.
  intros Hl Hf. pose proof (at_place_same Home (io (sys_list RecordsDir)) v) as E. rewrite Hl in E. cbn [snd] in E.
  rewrite Hf in E. injection E as E. rewrite (leaves_list RecordsDir (disk_at Home v)) in E.
  unfold at_place in Hl.
  destruct (io (sys_list RecordsDir) (disk_at Home v)) as [rl dl] eqn:El. injection Hl as -> _.
  unfold io in El. apply se_map_err_ok_inv in El. rewrite E. unfold sys_list, syscall in El.
  destruct (crashed _); [done|]. by destruct (tape _) as [|[] t]; simplify_eq/=.
Qed.

Lemma gather_ok fs0 target (v v' : Volume W) source records :
  home_kept fs0 v -> is_Some (fs0 !! (StateDir, MODE_MARKER)) -> (forall s, trees v !! Migrating s = None) ->
  gather_records target v = (Ok (source, records), v') ->
  (exists d, open RAuto (disk_at Home v) = (Ok source, d)) /\ NoDup (map fst records) /\
  (forall n pt, is_temporary n = false -> (n, pt) ∈ records <-> readable (master_key source) fs0 n pt) /\
  forall s, trees v' !! Migrating s = None.
Proof.
  intros K0 Hm Hfree H. apply se_bind_ok_inv in H as (source' & v1 & Ho & H).
  pose proof (home_open fs0 RAuto Hm v K0) as K1. rewrite Ho in K1.
  assert (forall s, trees v1 !! Migrating s = None) as F1
    by (intros s; rewrite <- (Hfree s), <- (at_place_other Home (open RAuto) v) by done; by rewrite Ho).
  unfold at_place in Ho. destruct (open RAuto (disk_at Home v)) as [ro d] eqn:Eo. injection Ho as -> _.
  apply se_bind_ok_inv in H as ([] & v2 & Hr & H). injection Hr as _ <-.
  apply se_bind_ok_inv in H as (names & v2 & Hl & H).
  pose proof (home_in_place fs0 _ leaves_names v1 K1) as K2. rewrite Hl in K2. destruct K2 as (fs & Hf2 & Hs2).
  assert (forall s, trees v2 !! Migrating s = None) as F2
    by (intros s; rewrite <- (F1 s), <- (at_place_other Home (io (sys_list RecordsDir)) v1) by done; by rewrite Hl).
  pose proof (names_listed _ _ _ _ Hl Hf2) as Hnames.
  apply se_bind_ok_inv in H as (records' & v3 & Hr & H). injection H as <- <- <-.
  destruct (read_records_ok _ _ _ _ _ _ Hf2 Hr) as (Hv3 & Hnm & Hall).
  split_and!; [eauto | rewrite Hnm, Hnames; apply names_in_nodup | eapply records_exact; eassumption | by rewrite Hv3].
Qed.

Lemma gather_other target (v v' : Volume W) source records :
  gather_records target v = (Ok (source, records), v') -> provider source <> target.
Proof.
  intros H. apply se_bind_ok_inv in H as (source' & v1 & _ & H). apply se_bind_ok_inv in H as ([] & v2 & Hc & H).
  apply se_bind_ok_inv in H as (names & v3 & _ & H). apply se_bind_ok_inv in H as (rs & v4 & _ & H). injection H as <- <- <-.
  injection Hc as Hc _. by case_bool_decide.
Qed.

(** The swap of a replacement that is ready. *)
Lemma swap_keeps target key p suffix fs0 secrets st fsM (records : list (string * bytes)) (v : Volume W) r v' :
  home_kept fs0 v -> trees v !! Migrating suffix = Some fsM -> provider st = target -> opened_store st fsM (held (machine v)) ->
  marker_provider fs0 = Some p -> p <> target -> (target = PFile -> holding secrets v) ->
  (forall n pt, is_temporary n = false -> (n, pt) ∈ records <-> readable key fs0 n pt) ->
  (forall n pt, is_temporary n = false -> (n, pt) ∈ records <-> readable (master_key st) fsM n pt) ->
  (let! _ := volume_io (rename_directory Home (Backup suffix)) in
   let! _ := publish_replacement target suffix in
   retire_source p suffix) v = (r, v') ->
  (r <> Ok tt /\ original_kept fs0 secrets v') \/ migrated target key fs0 v'.
Proof using Type.
  intros (fs & Hh & Hs) Hm Hp Hos Hmk Hpt Hsec H1 H2 H.
  assert (marker_provider fs0 <> Some PFile -> target = PFile) as Htf by (rewrite Hmk; by destruct p, target).
  assert (forall k, holding k v -> holding k (volume_io (rename_directory Home (Backup suffix)) v).2) as Kr
    by (intros k; apply keeps_map_err, holding_directory).
  apply se_bind_cases in H as [(e & H & ->)|([] & v1 & Hr & H)].
  - left. split; [done|]. exists Home, fs. split; [by left|]. rewrite H in Kr. cbn [snd] in Kr.
    split; [|split; [done | by intros ?%Htf; apply Kr, Hsec]]. unfold volume_io, se_map_err in H.
    destruct (rename_directory _ _ v) as [[]] eqn:E; [done|]. injection H as _ <-. apply directory_call_err in E. by rewrite E.
  - rewrite Hr in Kr. cbn [snd] in Kr.
    apply se_map_err_ok_inv, directory_call_ok in Hr. rewrite Hh in Hr. case_bool_decide; [|done]. injection Hr as Hv.
    apply se_bind_cases in H as [(e & Hpub & ->)|([] & v2 & Hpub & H)]; pose proof Hpub as Hpub';
      (apply (publish_cases _ _ _ _ _ fs fsM) in Hpub as [[Hr Hhome]|[Hr Hkept]];
        [ | | rewrite <- Hv; apply lookup_insert_eq | rewrite <- Hv, lookup_insert_ne by done; apply lookup_delete_eq
        | rewrite <- Hv, lookup_insert_ne, lookup_delete_ne by done; exact Hm ]); try done.
    + left. split; [done|]. assert (marker_provider fs0 <> Some PFile -> holding secrets v') as Hk.
      { intros Ht%Htf. eapply holding_publish; [exact Hpub' | by left | by apply Kr, Hsec]. }
      destruct Hkept; [exists Home, fs | exists (Backup suffix), fs]; split_and!; eauto.
    + right. pose proof (retire_home p suffix fsM v2 Hhome) as K. rewrite H in K. exists st, fsM. split_and!; try done.
      * destruct Hos as [O1 O2 O3 O4]. split; [done..|]. intros Ep. rewrite Hp in Ep. subst target. assert (p = PFile) as -> by (by destruct p).
        assert (holding (held (machine v)) v2) as Hk2 by (eapply holding_publish; [exact Hpub' | by right | by apply Kr]).
        apply (holding_retire _ suffix) in Hk2. rewrite H in Hk2. cbn [snd] in Hk2. unfold holding in Hk2. rewrite Hk2. by apply O4.
      * intros n pt Hn. by rewrite <- H1, H2 by done.
Qed.

(** C29: A migration loses no record. Whatever call of it fails or ends the process, either the
    original files are there, in the state directory or in the backup, with the secret
    service as it was unless they hold their own key; or the state directory is one of the
    target provider whose key is in its file or held by the secret service, and exactly the
    records that could be read before can be read with that key, with the same contents.
    When the migration succeeds it is the latter. The state directory is one whose provider
    is recorded, and no earlier migration left an unfinished copy beside it; the secret
    service is assumed to answer searches truthfully and to hold what it was given. *)
Theorem migration_keeps_records safe_target target (v v' : Volume W) fs0 r :
  trees v !! Home = Some fs0 -> is_Some (fs0 !! (StateDir, MODE_MARKER)) ->
  (forall s, trees v !! Migrating s = None) ->
  migrate_provider safe_target target v = (r, v') ->
  (r <> Ok tt /\ original_kept fs0 (held (machine v)) v') \/
  exists source d, open RAuto (disk_at Home v) = (Ok source, d) /\ migrated target (master_key source) fs0 v'.
Proof using aead_laws.
  intros Hh Hm Hfree H. assert (home_kept fs0 v) as K0 by (exists fs0; auto using settled_refl). unfold migrate_provider in H.
  set (secrets := held (machine v)). pose proof (holding_gather fs0 secrets target Hm v K0 eq_refl) as G1.
  apply se_bind_cases in H as [(e & H & ->)|([source records] & v1 & Hg & H)];
    [left; split; [done|]; rewrite H in G1; eapply home_failed; [by apply home_gather | exact K0 | exact H | done]|].
  rewrite Hg in G1. cbn [snd] in G1.
  pose proof (home_gather fs0 target Hm v K0) as K1. rewrite Hg in K1. cbn [snd] in K1.
  pose proof (gather_other target v v1 source records Hg) as Hne.
  apply (gather_ok fs0) in Hg as ((d & Ho) & Hnd & Hex & F1); [|done..].
  assert (marker_provider fs0 = Some (provider source)) as Hmp.
  { apply open_provider in Ho; cbn in Ho |- *; unfold tree_at in *; rewrite Hh in *; done. }
  apply se_bind_cases in H as [(e & H & ->)|([] & v2 & Hsafe & H)]; [injection H as _ <-; left; auto using home_original|].
  injection Hsafe as _ <-.
  pose proof (home_machine (E := StoreError) (fun ts => (exists fs, ts !! Home = Some fs /\ settled fs0 fs) /\
    forall s, ts !! Migrating s = None) (draw (W := W) 8) v1 (conj K1 F1)) as [K2 F2].
  pose proof (holding_machine secrets (draw 8) (holds_draw 8) v1 G1) as G2.
  apply se_bind_cases in H as [(e & H & ->)|(random & v2 & Hd & H)];
    [rewrite H in K2, G2; left; auto using home_original|]. rewrite Hd in K2, F2, G2. cbn [fst snd] in *.
  assert (target = PFile -> holding secrets (build_replacement target (from_le_bytes random) records v2).2) as G3
    by (intros ->; by apply holding_build).
  apply se_bind_cases in H as [(e & H & ->)|(st & v3 & Hb & H)].
  { left. split; [done|]. rewrite H in G3. eapply home_failed; [apply home_build | exact K2 | exact H |].
    intros Hf. apply G3. rewrite Hmp in Hf. by destruct (provider source), target. }
  rewrite Hb in G3. cbn [snd] in G3.
  pose proof (home_build fs0 target (from_le_bytes random) records v2 K2) as K3. rewrite Hb in K3.
  apply build_ok in Hb as (Hp & fsM & HM & Hos & Hrec); [|apply F2|done].
  destruct (swap_keeps target (master_key source) (provider source) (from_le_bytes random) fs0 secrets st fsM records v3 r v')
    as [L|R]; try done; [by left | right; eauto].
Qed.
End Properties.

(** ** Witnesses and defects *)

(** A secret service that keeps one secret. *)
#[local] Instance one_secret : SecretApi (option bytes) := {|
  ss_connect w := (true, w); ss_default_collection w := (true, w); ss_is_locked w := (Some false, w);
  ss_search w := (Some (match w with Some _ => [0] | None => [] end), w);
  ss_get_secret _ w := (w, w); ss_create k _ := (true, Some k); ss_delete _ _ := (true, None)
|}.

#[local] Instance one_secret_laws : KeyringLaws (option bytes).
Proof.
  refine {| kr_held := fun w => match w with Some k => [k] | None => [] end |}; try done.
  - intros [k|] items [= <-]; done.
  - intros [k|] item secret; cbn; [by intros _ [= ->] | done].
Defined.

(** A file store with one record, and what the calls of a migration will meet. *)
Definition sample_home : Tree :=
  files (write sample_store "a" [x41] (sample_disk [] [Some (be_bytes 24 1); Some (be_bytes 8 2)])).2.
Definition sample_volume (faults : list Fault) : Volume (option bytes) := {|
  trees := {[Home := sample_home]};
  machine := {| files := ∅; keyring := None; crashed := false; tape := faults; pid := 7;
    rng := [Some (be_bytes 8 3); Some (key_of 5); Some (be_bytes 8 4); Some (be_bytes 24 5); Some (be_bytes 8 6);
            Some (be_bytes 8 7)] |} |}.
Definition sample_migration (faults : list Fault) := migrate_provider true PSecretService (sample_volume faults).
Definition sample_suffix : Z := from_le_bytes (be_bytes 8 3).

Lemma migration_keeps_records_witness :
  (sample_migration []).1 = Ok tt /\
  exists source d, open RAuto (disk_at Home (sample_volume [])) = (Ok source, d) /\
    migrated PSecretService (master_key source) sample_home (sample_migration []).2.
Proof.
  assert ((sample_migration []).1 = Ok tt) as E by (vm_compute; reflexivity). split; [exact E|].
  destruct (migration_keeps_records true PSecretService (sample_volume []) (sample_migration []).2 sample_home (sample_migration []).1)
    as [[F _]|H]; [reflexivity | eexists; vm_compute; reflexivity | reflexivity | apply surjective_pairing | contradiction F | exact H].
Defined.

Lemma readable_compute `{Aead} key fs name pt :
  match fs !! (RecordsDir, name) with Some f => open_envelope key name (contents f) | None => Err RecordNotFound end = Ok pt ->
  readable key fs name pt.
Proof. intros E. destruct (fs !! (RecordsDir, name)) as [f|] eqn:Ef; [by exists f | done]. Qed.

(** The state directory of the next process. *)
Definition restarted (v : Volume (option bytes)) : Disk (option bytes) := reboot (disk_at Home v).

(** The swap is not atomic: when the process ends between the two renames, there is no state
    directory, and the next start makes a new, empty store in its place; the records are in
    the backup, which nothing looks for. *)
Theorem interrupted_swap_starts_empty : exists faults st d,
  let v := (sample_migration faults).2 in
  trees v !! Home = None /\ open RAuto (restarted v) = (Ok st, d) /\
  (read st "a" d).1 = Err RecordNotFound /\
  readable (key_of 9) (tree_at (Backup sample_suffix) v) "a" [x41].
Proof.
  exists (repeat Runs 31 ++ [Crashes 0]). eexists. eexists. cbv zeta.
  split; [vm_compute; reflexivity|]. split; [vm_compute; reflexivity|]. split; [vm_compute; reflexivity|].
  apply readable_compute. vm_compute. reflexivity.
Qed.

(** The next process erases everything. *)
Definition erase_restarted (v : Volume (option bytes)) : result StoreError ProviderKind * Volume (option bytes) :=
  match open RAuto (restarted v) with
  | (Ok st, d) =>
      let '(r, (_, d)) := panic_erase true st d in (r, {| trees := <[Home := files d]> (trees v); machine := d |})
  | (Err e, d) => (Err e, {| trees := trees v; machine := d |})
  end.

(** An interrupted migration leaves a copy of the store with its key beside the state
    directory, and a panic erasure that reports success does not touch it: the records can
    still be read. *)
Theorem backup_survives_erasure : exists faults,
  let v := (erase_restarted (sample_migration faults).2).2 in
  (erase_restarted (sample_migration faults).2).1 = Ok PSecretService /\
  tree_at Home v = ∅ /\ keyring (machine v) = None /\
  file_store (key_of 9) (tree_at (Backup sample_suffix) v) /\
  readable (key_of 9) (tree_at (Backup sample_suffix) v) "a" [x41].
Proof.
  exists (repeat Runs 32 ++ [Crashes 0]). cbv zeta. split; [vm_compute; reflexivity|]. split; [vm_compute; reflexivity|].
  split; [vm_compute; reflexivity|]. split.
  - split; [exists 0x180; vm_compute; reflexivity | exists 0x180; split; vm_compute; reflexivity | reflexivity].
  - apply readable_compute. vm_compute. reflexivity.
Qed.
