(* ===== verification/Daemon.v ===== *)
(** * The client daemon's configuration and event hub
    ([omachatd/src/config.rs], [EventHub] of [omachatd/src/ipc_server.rs]) *)

From Stdlib Require Import Strings.Byte Ascii String.
From S2P Require Import Prelude RustStd Libs Serde Concrete Hosted RelayList Store Ipc.
Local Open Scope Z_scope.

(** ** Configuration *)

(** The fields of a struct of which some have a default: [None] is a field that is not
    given. Only the last fields of an array can be missing. *)
Definition de_fields (deny_unknown : bool) (fields : list string) (v : Value) : option (list (option Value)) :=
  match v with
  | JObject m =>
      let known := filter (fun kv => kv.1 ∈ fields) m in
      if (negb deny_unknown || bool_decide (length known = length m)) && bool_decide (NoDup (fst <$> known))
      then Some (map (fun k => member k known) fields) else None
  | JArray l =>
      if bool_decide (length l <= length fields)%nat
      then Some (map Some l ++ replicate (length fields - length l) None) else None
  | _ => None
  end.

Definition de_option {A} (f : Value -> option A) (v : Value) : option (option A) :=
  match v with JNull => Some None | v => Some <$> f v end.
(** [#[serde(default)]] *)
Definition de_default {A} (d : A) (f : Value -> option A) (v : option Value) : option A :=
  match v with Some v => f v | None => Some d end.

(** A unit variant: its name, or an object with that one name and no content. *)
Definition de_variant (v : Value) : option string :=
  match v with JString s | JObject [(s, JNull)] => Some s | _ => None end.

Inductive StorageProviderConfig := SAuto | SSecretService | SFile.
Definition requested_provider (p : StorageProviderConfig) : RequestedProvider :=
  match p with SAuto => RAuto | SSecretService => RSecretService | SFile => RFile end.
Definition de_storage_provider (v : Value) : option StorageProviderConfig :=
  s ← de_variant v;
  if String.eqb s "auto" then Some SAuto
  else if String.eqb s "secret-service" then Some SSecretService
  else if String.eqb s "file" then Some SFile else None.

Record HostedConfig := {
  hc_url : string;
  hc_pinned_server_public_key : string;
  hc_display_name : option string
}.
Record DaemonConfig := {
  storage_provider : StorageProviderConfig;
  hosted : option HostedConfig;
  dm_relays : list string
}.
Definition DaemonConfig_default : DaemonConfig := {| storage_provider := SAuto; hosted := None; dm_relays := [] |}.

(** The errors of configuration: [CoreError::InvalidConfig] and [CoreError::Io] *)
Inductive ConfigError := InvalidConfig | ConfigIo.

Definition de_hosted (v : Value) : option HostedConfig :=
  vs ← de_fields true ["url"; "pinned_server_public_key"; "display_name"]%string v;
  match vs with
  | [Some u; Some k; n] =>
      u ← de_string u; k ← de_string k; n ← de_default None (de_option de_string) n;
      Some {| hc_url := u; hc_pinned_server_public_key := k; hc_display_name := n |}
  | _ => None
  end.
Definition de_config (v : Value) : option DaemonConfig :=
  vs ← de_fields true ["storage_provider"; "hosted"; "dm_relays"]%string v;
  match vs with
  | [p; h; r] =>
      p ← de_default SAuto de_storage_provider p; h ← de_default None (de_option de_hosted) h;
      r ← de_default [] (de_vec de_string) r;
      Some {| storage_provider := p; hosted := h; dm_relays := r |}
  | _ => None
  end.

Section Config.
Context {hex : Hex} {json : Json} {ed : Ed25519} {url : UrlLib}.

Definition numeric_loopback (u : Url) : bool :=
  match url_host u with
  | Some (HostIpv4 address) => is_loopback (V4 address)
  | Some (HostIpv6 address) => is_loopback (V6 address)
  | _ => false
  end.

Definition canonical_publication_url (raw : string) : result ConfigError string :=
  let? u := ok_or InvalidConfig (url_parse raw) in
  let secure := String.eqb (url_scheme u) "wss" in
  let loopback := String.eqb (url_scheme u) "ws" && numeric_loopback u in
  fail_if (negb secure && negb loopback) || negb (is_some (url_host_str u))
    || negb (is_some (url_port_or_known_default u)) || negb (String.eqb (url_username u) "")
    || is_some (url_password u) || is_some (url_query u) || is_some (url_fragment u) with InvalidConfig ;;
  Ok (url_to_string u).

Definition pinned_server_public_key_bytes (c : HostedConfig) : result ConfigError bytes :=
  let? k := ok_or InvalidConfig (hex_decode_to_slice 32 (hc_pinned_server_public_key c)) in
  fail_if negb (ed25519_key_ok k) with InvalidConfig ;;
  fail_if ed25519_key_weak k with InvalidConfig ;;
  Ok k.

Definition HostedConfig_validate (c : HostedConfig) : result ConfigError unit :=
  let? _ := canonical_publication_url (hc_url c) in
  let? _ := pinned_server_public_key_bytes c in
  match hc_display_name c with
  | Some n => let? _ := map_err (fun _ => InvalidConfig) (validate_name n) in Ok tt
  | None => Ok tt
  end.

(** The loop over the relays, with the canonical forms seen *)
Fixpoint distinct_relays (relays seen : list string) : result ConfigError unit :=
  match relays with
  | [] => Ok tt
  | relay :: relays =>
      let? canonical := canonical_publication_url relay in
      fail_if bool_decide (canonical ∈ seen) with InvalidConfig ;;
      distinct_relays relays (seen ++ [canonical])
  end.

Definition DaemonConfig_validate (c : DaemonConfig) : result ConfigError unit :=
  let? _ := match hosted c with Some h => HostedConfig_validate h | None => Ok tt end in
  fail_if 4 <? zlen (dm_relays c) with InvalidConfig ;;
  distinct_relays (dm_relays c) [].

(** [DaemonConfig::load], given what reading the file returns *)
Definition DaemonConfig_load (file : option bytes) : result ConfigError DaemonConfig :=
  let? b := ok_or ConfigIo file in
  let? c := ok_or InvalidConfig (v ← json_from_slice b; de_config v) in
  let? _ := DaemonConfig_validate c in
  Ok c.
End Config.

(** ** The event hub *)

Definition EVENT_QUEUE_CAPACITY : Z := 64.

(** [omachat_proto::ipc::Event] *)
Record IpcEvent := { ev_version : Z; ev_sequence : Z; ev_topic : Topic; ev_payload : Value }.

(** One subscription: the channel, its two ends, and what the client has taken from it.
    A sender that is not alive has been dropped from the hub's vector. *)
Record Subscriber := {
  taken : list IpcEvent;
  queued : list IpcEvent;
  sender_alive : bool;
  receiver_alive : bool
}.
Abbreviation EventHub := (list Subscriber).

Definition hub_subscribe (h : EventHub) : EventHub :=
  h ++ [{| taken := []; queued := []; sender_alive := true; receiver_alive := true |}].

(** [try_send]: a full or closed channel drops the sender. *)
Definition offer (e : IpcEvent) (s : Subscriber) : Subscriber :=
  if sender_alive s then
    if receiver_alive s && (zlen (queued s) <? EVENT_QUEUE_CAPACITY)
    then {| taken := taken s; queued := queued s ++ [e]; sender_alive := true; receiver_alive := receiver_alive s |}
    else {| taken := taken s; queued := queued s; sender_alive := false; receiver_alive := receiver_alive s |}
  else s.
Definition hub_publish (e : IpcEvent) (h : EventHub) : EventHub := map (offer e) h.
Definition subscriber_count (h : EventHub) : nat := length (List.filter sender_alive h).

(** The client's side of the channel *)
Definition receive (s : Subscriber) : Subscriber :=
  match queued s with
  | e :: q => if receiver_alive s
              then {| taken := taken s ++ [e]; queued := q; sender_alive := sender_alive s;
                      receiver_alive := receiver_alive s |}
              else s
  | [] => s
  end.
Definition close_receiver (s : Subscriber) : Subscriber :=
  {| taken := taken s; queued := []; sender_alive := sender_alive s; receiver_alive := false |}.

Inductive HubOp := HSubscribe | HPublish (e : IpcEvent) | HReceive (i : nat) | HClose (i : nat).

Definition hub_step (o : HubOp) (h : EventHub) : EventHub :=
  match o with
  | HSubscribe => hub_subscribe h
  | HPublish e => hub_publish e h
  | HReceive i => alter receive i h
  | HClose i => alter close_receiver i h
  end.
Definition hub_run (ops : list HubOp) (h : EventHub) : EventHub := fold_left (fun h o => hub_step o h) ops h.

Definition published (ops : list HubOp) : list IpcEvent :=
  omap (fun o => match o with HPublish e => Some e | _ => None end) ops.
Definition subscriptions (ops : list HubOp) : nat :=
  length (List.filter (fun o => match o with HSubscribe => true | _ => false end) ops).

(** ** What a subscriber sees *)

(** A subscriber that was given the events [es] to see *)
Definition sees (es : list IpcEvent) (s : Subscriber) : Prop :=
  taken s ++ queued s `prefix_of` es /\ zlen (queued s) <= EVENT_QUEUE_CAPACITY /\
  (sender_alive s = true -> receiver_alive s = true -> taken s ++ queued s = es).

Lemma sees_offer e es s : sees es s -> sees (es ++ [e]) (offer e s).
Proof.
  intros (Hp & Hc & He). unfold offer.
  assert (taken s ++ queued s `prefix_of` es ++ [e]) as Hp' by (by apply prefix_app_r).
  destruct (sender_alive s) eqn:Es; [|by rewrite <- Es in *; split_and!; [..|congruence]].
  destruct (receiver_alive s && (zlen (queued s) <? EVENT_QUEUE_CAPACITY)) eqn:Eb; unfold sees; cbn.
  - split_bools. rewrite app_assoc, He by done. split_and!; [done | | done].
    rewrite zlen_app. change (zlen [e]) with 1. lia.
  - split_and!; [done | done | discriminate].
Qed.

Lemma sees_receive es s : sees es s -> sees es (receive s).
Proof.
  unfold receive, sees. destruct (queued s) as [|e q] eqn:Eq; [by rewrite Eq|].
  destruct (receiver_alive s) eqn:Er; [|by rewrite Eq, Er].
  cbn. rewrite <- app_assoc. cbn. rewrite zlen_cons. intros (? & ? & ?). split_and!; auto; lia.
Qed.

Lemma sees_close es s : sees es s -> sees es (close_receiver s).
Proof.
  intros ([k Hp] & _ & _). unfold sees, close_receiver. cbn. rewrite app_nil_r. split_and!; [|done|done].
  exists (queued s ++ k). by rewrite Hp, <- app_assoc.
Qed.

Lemma hub_step_sees o es h i s : h !! i = Some s -> sees es s ->
  exists s', hub_step o h !! i = Some s' /\ sees (es ++ published [o]) s'.
Proof.
  intros Hi Hs. destruct o as [|e|j|j]; cbn; rewrite ?app_nil_r.
  - exists s. split; [|done]. unfold hub_subscribe. apply lookup_app_l_Some. done.
  - exists (offer e s). split; [|by apply sees_offer]. unfold hub_publish. by rewrite list_lookup_fmap, Hi.
  - destruct (decide (i = j)) as [->|Hne].
    + exists (receive s). rewrite list_lookup_alter_eq, Hi. eauto using sees_receive.
    + exists s. by rewrite list_lookup_alter_ne by done.
  - destruct (decide (i = j)) as [->|Hne].
    + exists (close_receiver s). rewrite list_lookup_alter_eq, Hi. eauto using sees_close.
    + exists s. by rewrite list_lookup_alter_ne by done.
Qed.

Lemma hub_run_sees ops : forall es h i s, h !! i = Some s -> sees es s ->
  exists s', hub_run ops h !! i = Some s' /\ sees (es ++ published ops) s'.
Proof.
  induction ops as [|o ops IH]; intros es h i s Hi Hs; cbn; [rewrite app_nil_r; eauto|].
  destruct (hub_step_sees o es h i s Hi Hs) as (s' & Hi' & Hs').
  destruct (IH _ _ _ _ Hi' Hs') as (s2 & H2 & Hs2). exists s2. split; [done|].
  enough (published [o] ++ published ops = published (o :: ops)) as E by (by rewrite <- app_assoc, E in Hs2).
  by destruct o.
Qed.

Lemma hub_run_length ops : forall h, length (hub_run ops h) = (length h + subscriptions ops)%nat.
Proof.
  induction ops as [|o ops IH]; intros h; cbn; [unfold subscriptions; cbn; lia|].
  unfold hub_run in IH. rewrite IH. unfold subscriptions. destruct o; cbn.
  - unfold hub_subscribe. rewrite length_app. cbn. lia.
  - unfold hub_publish. rewrite length_map. lia.
  - rewrite length_alter. lia.
  - rewrite length_alter. lia.
Qed.

(** ** Properties *)

(** The hub gives a subscriber the events published after it subscribed, in order and with
    no gap: a slow or closed client is cut off at one point and never skips an event, one
    that is not cut off misses nothing, and no queue grows past 64 events. *)
Theorem hub_no_gaps before after :
  exists s, hub_run (before ++ HSubscribe :: after) [] !! subscriptions before = Some s /\
    taken s ++ queued s `prefix_of` published after /\
    zlen (queued s) <= EVENT_QUEUE_CAPACITY /\
    (sender_alive s = true -> receiver_alive s = true -> taken s ++ queued s = published after).
Proof.
  unfold hub_run. rewrite fold_left_app. cbn [fold_left].
  pose proof (hub_run_length before []) as Hl. cbn in Hl.
  destruct (hub_run_sees after [] (hub_subscribe (hub_run before [])) (subscriptions before)
    {| taken := []; queued := []; sender_alive := true; receiver_alive := true |}) as (s & Hs & Hv).
  - unfold hub_subscribe. by rewrite lookup_app_r, Hl, Nat.sub_diag by lia.
  - unfold sees, EVENT_QUEUE_CAPACITY. cbn. split_and!; [done | done | done].
  - exists s. by split.
Qed.
