(* ===== verification/IpcServer.v ===== *)
(** * The daemon's socket server ([omachatd/src/ipc_server.rs])

    The responses and events of the line protocol ([omachat-proto/src/ipc.rs]), one client
    connection ([serve_client]) and the accept loop ([run]). A connection is a step function over what its [select!]
    finds ready; the handler is an interface, the [RequestHandler] trait. *)

From Stdlib Require Import Strings.Byte Ascii String.
From S2P Require Import Prelude RustStd BTree Libs Serde Concrete ValueMap Ipc Daemon.
Local Open Scope Z_scope.

(** ** Responses *)

Inductive IpcErrorCode :=
| ICInvalidRequest | ICVersionMismatch | ICNotFound | ICConflict | ICUnavailable | ICInternal.
Record ErrorBody := { eb_code : IpcErrorCode; eb_message : string }.
Inductive ResponseOutcome := OkOutcome (res : Value) | ErrorOutcome (e : ErrorBody).
Record Response := { rs_version : Z; rs_id : string; rs_outcome : ResponseOutcome }.

#[export] Instance IpcErrorCode_eq_dec : EqDecision IpcErrorCode.
Proof. solve_decision. Defined.
#[export] Instance ErrorBody_eq_dec : EqDecision ErrorBody.
Proof. solve_decision. Defined.
#[export] Instance ResponseOutcome_eq_dec : EqDecision ResponseOutcome.
Proof. solve_decision. Defined.

Definition ipc_code_str (c : IpcErrorCode) : string :=
  match c with
  | ICInvalidRequest => "invalid-request" | ICVersionMismatch => "version-mismatch" | ICNotFound => "not-found"
  | ICConflict => "conflict" | ICUnavailable => "unavailable" | ICInternal => "internal"
  end.
Definition ipc_code_of_str (s : string) : option IpcErrorCode :=
  List.find (fun c => String.eqb (ipc_code_str c) s)
    [ICInvalidRequest; ICVersionMismatch; ICNotFound; ICConflict; ICUnavailable; ICInternal].
Definition de_ipc_code (v : Value) : option IpcErrorCode :=
  match v with
  | JString s | JObject [(s, JNull)] => ipc_code_of_str s
  | _ => None
  end.

Definition error_body_value (e : ErrorBody) : Value :=
  JObject [("code", JString (ipc_code_str (eb_code e))); ("message", JString (eb_message e))]%string.
Definition de_error_body (v : Value) : option ErrorBody :=
  '(c, m) ← de_two "code" "message" de_ipc_code de_string v;
  Some {| eb_code := c; eb_message := m |}.

(** [FlatResponseRef]: the tag and the content of the outcome follow version and id. *)
Definition response_value (r : Response) : Value :=
  JObject ([("version", JInt (rs_version r)); ("id", JString (rs_id r))]%string ++
    match rs_outcome r with
    | OkOutcome res => [("status", JString "ok"); ("result", res)]%string
    | ErrorOutcome e => [("status", JString "error"); ("error", error_body_value e)]%string
    end).

(** [StrictResponseWire::deserialize] and [Response::from] *)
Definition response_of_value (v : Value) : option Response :=
  '(status, body) ← untag "status" v;
  if String.eqb status "ok" then
    vs ← de_struct true ["version"; "id"; "result"]%string body;
    match vs with
    | [x; y; z] =>
        ver ← de_uint u16_max x; i ← de_string y;
        Some {| rs_version := ver; rs_id := i; rs_outcome := OkOutcome (value_norm z) |}
    | _ => None
    end
  else if String.eqb status "error" then
    vs ← de_struct true ["version"; "id"; "error"]%string body;
    match vs with
    | [x; y; z] =>
        ver ← de_uint u16_max x; i ← de_string y; e ← de_error_body z;
        Some {| rs_version := ver; rs_id := i; rs_outcome := ErrorOutcome e |}
    | _ => None
    end
  else None.

Definition event_value (e : IpcEvent) : Value :=
  JObject (zip ["version"; "sequence"; "topic"; "payload"]%string
    [JInt (ev_version e); JInt (ev_sequence e); JString (topic_str (ev_topic e)); ev_payload e]).
Definition event_of_value (v : Value) : option IpcEvent :=
  vs ← de_struct true ["version"; "sequence"; "topic"; "payload"]%string v;
  match vs with
  | [a; b; c; d] =>
      a ← de_uint u16_max a; b ← de_uint u64_max b; c ← de_topic c;
      Some {| ev_version := a; ev_sequence := b; ev_topic := c; ev_payload := value_norm d |}
  | _ => None
  end.

(** [HelloResult] *)
Definition hello_value (v : Z) : Value := JObject [("version"%string, JInt v)].

(** [Display for IpcError] *)
Definition ipc_error_display (e : IpcError) : string :=
  match e with
  | LineTooLarge m => "IPC line exceeds " ++ show m ++ " bytes"
  | MalformedJson => "IPC line is malformed JSON"
  | TruncatedLine => "IPC stream ended inside a line"
  | Encoding => "IPC message encoding failed"
  | InvalidCorrelationId => "IPC correlation ID is invalid"
  | UnsupportedVersion v => "unsupported IPC version " ++ show v
  | VersionMismatch a b c =>
      "IPC versions " ++ show a ++ "..=" ++ show b ++ " do not include supported version " ++ show c
  end%string.

Definition protocol_error (c : IpcErrorCode) (e : IpcError) : ResponseOutcome :=
  ErrorOutcome {| eb_code := c; eb_message := ipc_error_display e |}.

(** ** One client *)

Inductive IpcServerError := ISIo | ISProtocol (e : IpcError) | OccupiedPath | AlreadyRunning.

(** The [RequestHandler] trait, over the state all clients share, with the event hub. *)
Class RequestHandler (S : Type) := {
  rh_handle : Request -> S -> ResponseOutcome * S;
  rh_hub : S -> EventHub;
  rh_set_hub : EventHub -> S -> S
}.

(** What a connection wrote: each is one [encode_line]. *)
Inductive Written := WReply (r : Response) | WEvent (e : IpcEvent).
Definition written_value (w : Written) : Value :=
  match w with WReply r => response_value r | WEvent e => event_value e end.

Record Client := {
  cl_decoder : RequestDecoder;
  cl_negotiated : bool;
  cl_topics : list Topic;
  cl_receiver : option nat;   (* the subscription in the hub *)
  cl_written : list Written
}.
Definition Client_new : Client := {|
  cl_decoder := RequestDecoder_new MAX_LINE_BYTES; cl_negotiated := false; cl_topics := []; cl_receiver := None;
  cl_written := [] |}.

Definition set_decoder (d : RequestDecoder) (c : Client) : Client := {|
  cl_decoder := d; cl_negotiated := cl_negotiated c; cl_topics := cl_topics c; cl_receiver := cl_receiver c;
  cl_written := cl_written c |}.
Definition set_negotiated (c : Client) : Client := {|
  cl_decoder := cl_decoder c; cl_negotiated := true; cl_topics := cl_topics c; cl_receiver := cl_receiver c;
  cl_written := cl_written c |}.
Definition set_subscription (topics : list Topic) (r : nat) (c : Client) : Client := {|
  cl_decoder := cl_decoder c; cl_negotiated := cl_negotiated c; cl_topics := topics; cl_receiver := Some r;
  cl_written := cl_written c |}.
Definition add_written (w : Written) (c : Client) : Client := {|
  cl_decoder := cl_decoder c; cl_negotiated := cl_negotiated c; cl_topics := cl_topics c; cl_receiver := cl_receiver c;
  cl_written := cl_written c ++ [w] |}.

Inductive Progress := Running | Finished (r : result IpcServerError unit).

(** While one request is answered: what other tasks do to the shared state first, whether
    the reply is written, and whether the server is stopping afterwards. *)
Record Turn {S : Type} := { meanwhile : S -> S; reply_written : bool; stopping : bool }.
Arguments Turn : clear implicits.
Definition calm_turn {S} : Turn S := {| meanwhile := fun s => s; reply_written := true; stopping := false |}.

(** What the [select!] of a connection finds. A read of no bytes is the end of the stream;
    [None] is an I/O error. *)
Inductive EventWrite := InterruptedBy (stopped : bool) | EventWritten (succeeded : bool).
Inductive ClientInput {S : Type} :=
| CShutdownChanged (stopped : bool)
| CRead (read : option bytes) (turns : list (Turn S))
| CEvent (write : EventWrite)
| COthers (f : S -> S).
Arguments ClientInput : clear implicits.

Section Serve.
Context {json : Json} {S : Type} {handler : RequestHandler S}.

(** Dropping the receiving end of a subscription *)
Definition drop_receiver (c : Client) (s : S) : S :=
  match cl_receiver c with
  | Some i => rh_set_hub (alter close_receiver i (rh_hub s)) s
  | None => s
  end.

(** [topics = requested.clone(); event_receiver = Some(events.subscribe());] *)
Definition subscribe_client (topics : list Topic) (c : Client) (s : S) : Client * S :=
  let i := length (rh_hub s) in
  let s := rh_set_hub (hub_subscribe (rh_hub s)) s in
  (set_subscription topics i c, drop_receiver c s).

(** The outcome of one request *)
Definition request_outcome (r : Request) (c : Client) (s : S) : ResponseOutcome * (Client * S) :=
  match command r with
  | Hello minimum_version maximum_version =>
      match negotiate minimum_version maximum_version with
      | Ok v => (OkOutcome (hello_value v), (set_negotiated c, s))
      | Err error => (protocol_error ICVersionMismatch error, (c, s))
      end
  | command =>
      if negb (cl_negotiated c) then
        (protocol_error ICVersionMismatch (VersionMismatch 0 0 VERSION), (c, s))
      else
        let '(c, s) := match command with
                       | Subscribe topics => subscribe_client topics c s
                       | _ => (c, s)
                       end in
        let '(outcome, s) := rh_handle r s in
        (outcome, (c, s))
  end.

(** The body of the loop over the requests of one read *)
Definition serve_request (t : Turn S) (r : Request) (c : Client) (s : S) : Progress * (Client * S) :=
  let '(outcome, (c, s)) := request_outcome r c (meanwhile t s) in
  let response := {| rs_version := VERSION; rs_id := id r; rs_outcome := outcome |} in
  match encode_line (response_value response) with
  | Err e => (Finished (Err (ISProtocol e)), (c, s))
  | Ok _ =>
      if reply_written t then
        let c := add_written (WReply response) c in
        if negb (cl_negotiated c) || stopping t then (Finished (Ok tt), (c, s)) else (Running, (c, s))
      else (Finished (Err ISIo), (c, s))
  end.

Fixpoint serve_requests (turns : list (Turn S)) (rs : list Request) (c : Client) (s : S) : Progress * (Client * S) :=
  match rs with
  | [] => (Running, (c, s))
  | r :: rs =>
      match serve_request (default calm_turn (head turns)) r c s with
      | (Running, (c, s)) => serve_requests (tail turns) rs c s
      | stop => stop
      end
  end.

(** The event branch, enabled while there is a subscription; [None] waits. *)
Definition next_event (c : Client) (s : S) : option (option IpcEvent * S) :=
  i ← cl_receiver c;
  sub ← rh_hub s !! i;
  match queued sub with
  | e :: _ => Some (Some e, rh_set_hub (alter receive i (rh_hub s)) s)
  | [] => if sender_alive sub then None else Some (None, s)
  end.

Definition forward_event (write : EventWrite) (c : Client) (s : S) : Progress * (Client * S) :=
  match next_event c s with
  | None => (Running, (c, s))
  | Some (None, s) => (Finished (Ok tt), (c, s))
  | Some (Some e, s) =>
      if negb (bool_decide (ev_topic e ∈ cl_topics c)) then (Running, (c, s)) else
      match encode_line (event_value e) with
      | Err error => (Finished (Err (ISProtocol error)), (c, s))
      | Ok _ =>
          match write with
          | InterruptedBy stopped => ((if stopped then Finished (Ok tt) else Running), (c, s))
          | EventWritten true => (Running, (add_written (WEvent e) c, s))
          | EventWritten false => (Finished (Err ISIo), (c, s))
          end
      end
  end.

(** One turn of the loop of [serve_client] *)
Definition client_turn (i : ClientInput S) (c : Client) (s : S) : Progress * (Client * S) :=
  match i with
  | CShutdownChanged stopped => ((if stopped then Finished (Ok tt) else Running), (c, s))
  | CRead None _ => (Finished (Err ISIo), (c, s))
  | CRead (Some []) _ => (Finished (map_err ISProtocol (finish (cl_decoder c))), (c, s))
  | CRead (Some b) turns =>
      match push b (cl_decoder c) with
      | (Err e, d) => (Finished (Err (ISProtocol e)), (set_decoder d c, s))
      | (Ok requests, d) => serve_requests turns requests (set_decoder d c) s
      end
  | CEvent write => forward_event write c s
  | COthers f => (Running, (c, f s))
  end.

(** [serve_client]: when the loop returns its locals are dropped. *)
Fixpoint serve_client (inputs : list (ClientInput S)) (c : Client) (s : S) : Progress * (Client * S) :=
  match inputs with
  | [] => (Running, (c, s))
  | i :: inputs =>
      match client_turn i c s with
      | (Running, (c, s)) => serve_client inputs c s
      | (Finished r, (c, s)) => (Finished r, (c, drop_receiver c s))
      end
  end.
End Serve.

(** ** Encoding and decoding responses and events *)

Definition value_wf (v : Value) : bool := json_wf v && value_sorted v.
Definition outcome_wf (o : ResponseOutcome) : bool :=
  match o with OkOutcome v => value_wf v | ErrorOutcome e => utf8_valid (eb_message e) end.
Definition response_wf (r : Response) : bool :=
  in_range 0 u16_max (rs_version r) && utf8_valid (rs_id r) && outcome_wf (rs_outcome r).
Definition event_wf (e : IpcEvent) : bool :=
  in_range 0 u16_max (ev_version e) && in_range 0 u64_max (ev_sequence e) && value_wf (ev_payload e).

Lemma json_wf_uint m z : in_range 0 m z = true -> m <= u64_max -> json_wf (JInt z) = true.
Proof.
  unfold in_range. intros Hz Hm. split_bools. cbn [json_wf]. unfold_ints.
  by rewrite !(proj2 (Z.leb_le _ _)) by lia.
Qed.

Lemma response_value_roundtrip r : response_wf r = true -> response_of_value (response_value r) = Some r.
Proof.
  destruct r as [v i [res|[c m]]]; unfold response_wf; cbn [rs_version rs_id rs_outcome outcome_wf eb_message];
    unfold value_wf; intros Hw; split_bools; unfold response_of_value, response_value; cbn [rs_version rs_id rs_outcome app].
  - change (untag "status" _) with (Some ("ok", JObject (zip ["version"; "id"; "result"] [JInt v; JString i; res])))%string.
    cbn [mbind option_bind]. rewrite String.eqb_refl, de_struct_zip by (done || by apply (bool_decide_eq_true_1 _)).
    cbn [mbind option_bind de_uint de_string].
    match goal with Hv : in_range _ _ v = true |- _ => rewrite Hv end. cbn. by rewrite value_norm_id.
  - change (untag "status" _) with (Some ("error", JObject (zip ["version"; "id"; "error"]
      [JInt v; JString i; error_body_value {| eb_code := c; eb_message := m |}])))%string.
    cbn [mbind option_bind String.eqb Ascii.eqb Bool.eqb]. rewrite de_struct_zip by (done || by apply (bool_decide_eq_true_1 _)).
    cbn [mbind option_bind de_uint de_string].
    match goal with Hv : in_range _ _ v = true |- _ => rewrite Hv end. cbn [mbind option_bind].
    unfold de_error_body, error_body_value. rewrite de_two_object by done. by destruct c.
Qed.

Lemma response_value_wf r : response_wf r = true -> json_wf (response_value r) = true.
Proof.
  destruct r as [v i [res|[c m]]]; unfold response_wf; cbn [rs_version rs_id rs_outcome outcome_wf eb_message];
    unfold value_wf; intros Hw; split_bools;
    (assert (json_wf (JInt v) = true) as Hv by (by eapply json_wf_uint));
    unfold response_value; cbn [rs_version rs_id rs_outcome app]; cbn [json_wf forallb fst snd] in *; rewrite Hv.
  - repeat (apply andb_true_intro; split); done.
  - repeat (apply andb_true_intro; split); try done. by destruct c.
Qed.

Lemma event_value_roundtrip e : event_wf e = true -> event_of_value (event_value e) = Some e.
Proof.
  destruct e as [v n t p]. unfold event_wf, value_wf. cbn [ev_version ev_sequence ev_payload]. intros Hw. split_bools.
  unfold event_of_value, event_value. rewrite de_struct_zip by (done || by apply (bool_decide_eq_true_1 _)).
  cbn [mbind option_bind de_uint ev_version ev_sequence ev_topic ev_payload].
  repeat match goal with Hv : in_range _ _ _ = true |- _ => rewrite Hv; clear Hv end. cbn [mbind option_bind].
  rewrite value_norm_id by done. by destruct t.
Qed.

Lemma ipc_event_value_wf e : event_wf e = true -> json_wf (event_value e) = true.
Proof.
  destruct e as [v n t p]. unfold event_wf, value_wf. cbn [ev_version ev_sequence ev_payload]. intros Hw. split_bools.
  assert (json_wf (JInt v) = true) as Hv by (by eapply json_wf_uint).
  assert (json_wf (JInt n) = true) as Hn by (by eapply json_wf_uint).
  unfold event_value. cbn [zip zip_with ev_version ev_sequence ev_topic ev_payload]. cbn [json_wf forallb fst snd] in *. rewrite Hv, Hn.
  repeat (apply andb_true_intro; split); try done. by destruct t.
Qed.

(** An event is not a reply: it has no status. *)
Lemma event_not_response e : response_of_value (event_value e) = None.
Proof. reflexivity. Qed.

(** What a client of the protocol makes of one line *)
Definition written_wf (w : Written) : bool := match w with WReply r => response_wf r | WEvent e => event_wf e end.
Definition read_line `{Json} (line : bytes) : option Written :=
  v ← json_from_slice line;
  match response_of_value v with
  | Some r => Some (WReply r)
  | None => WEvent <$> event_of_value v
  end.

Lemma read_written `{JsonLaws} w : written_wf w = true -> read_line (json_to_vec (written_value w)) = Some w.
Proof.
  intros Hw. unfold read_line. destruct w as [r|e]; cbn [written_value written_wf] in *.
  - rewrite json_roundtrip by (by apply response_value_wf). cbn [mbind option_bind]. by rewrite response_value_roundtrip.
  - rewrite json_roundtrip by (by apply ipc_event_value_wf). cbn [mbind option_bind].
    rewrite event_not_response, event_value_roundtrip by done. done.
Qed.

(** The bytes of what a connection wrote *)
Fixpoint written_bytes `{Json} (ws : list Written) : result IpcError bytes :=
  match ws with
  | [] => Ok []
  | w :: ws => let? l := encode_line (written_value w) in let? ls := written_bytes ws in Ok (l ++ ls)
  end.

Lemma written_lines `{JsonLaws} ws b :
  written_bytes ws = Ok b -> Forall (fun w => written_wf w = true) ws ->
  (lines_rest b).2 = [] /\ mapM read_line (lines_rest b).1 = Some ws.
Proof.
  revert b. induction ws as [|w ws IH]; intros b Hb Hf; simpl in Hb; inv_ok; [done|].
  apply Forall_cons in Hf as [Hw Hf]. specialize (IH _ Ha0 Hf) as [Hr Hm].
  unfold encode_line in Ha. inv_ok. rewrite <- app_assoc, lines_rest_partial
    by (apply no_newline_lines, no_control_no_newline, json_to_vec_no_control).
  cbn [app lines_rest]. change (Byte.eqb nl nl) with true. cbn iota.
  destruct (lines_rest a0) as [ls r]. cbn [fst snd] in *. rewrite app_nil_r. split; [done|].
  cbn [mapM]. rewrite read_written, Hm by done. done.
Qed.

(** ** Replies *)

Definition replies (c : Client) : list Response :=
  omap (fun w => match w with WReply r => Some r | WEvent _ => None end) (cl_written c).

Section ServeFacts.
Context {json : Json} {S : Type} {handler : RequestHandler S}.

(** The requests of the reads up to the first the decoder refuses *)
Fixpoint accepted (chunks : list bytes) (d : RequestDecoder) : list Request :=
  match chunks with
  | [] => []
  | b :: chunks =>
      match push b d with
      | (Ok rs, d) => rs ++ accepted chunks d
      | (Err _, _) => []
      end
  end.
Definition reads (inputs : list (ClientInput S)) : list bytes :=
  omap (fun i => match i with CRead r _ => r | _ => None end) inputs.

Definition encodable (w : Written) : Prop := is_ok (encode_line (written_value w)) = true.

(** From [c] to [c'] the requests [rs] were answered, in order. *)
Definition answers (rs : list Request) (c c' : Client) : Prop :=
  map rs_id (replies c') = map rs_id (replies c) ++ map id rs /\
  (Forall encodable (cl_written c) -> Forall encodable (cl_written c')).

Lemma answers_refl c c' : cl_written c' = cl_written c -> answers [] c c'.
Proof using Type. intros E. unfold answers, replies. rewrite E. cbn. by rewrite app_nil_r. Qed.

Lemma answers_trans rs1 rs2 c1 c2 c3 : answers rs1 c1 c2 -> answers rs2 c2 c3 -> answers (rs1 ++ rs2) c1 c3.
Proof using Type. intros [E1 F1] [E2 F2]. split; [by rewrite E2, E1, map_app, app_assoc | auto]. Qed.

Lemma add_written_answers w c rs :
  encodable w -> match w with WReply r => exists q, rs = [q] /\ rs_id r = id q | WEvent _ => rs = [] end ->
  answers rs c (add_written w c).
Proof using Type.
  intros Hw Hr. unfold answers, replies. cbn [cl_written add_written]. rewrite omap_app, map_app. split.
  - destruct w as [r|e]; [destruct Hr as (q & -> & E); cbn; by rewrite E | by subst].
  - intros Hf. apply Forall_app. split; [done | by constructor].
Qed.

Lemma request_outcome_client r c s :
  cl_written (request_outcome r c s).2.1 = cl_written c /\ cl_decoder (request_outcome r c s).2.1 = cl_decoder c.
Proof using Type.
  unfold request_outcome, subscribe_client.
  destruct (command r); try (destruct (negb _); [done|]; cbn; by destruct (rh_handle _ _)).
  by destruct (negotiate _ _).
Qed.

Lemma serve_request_answers t r c s p c' s' :
  serve_request t r c s = (p, (c', s')) ->
  cl_decoder c' = cl_decoder c /\
  (answers [r] c c' \/ answers [] c c' /\ p <> Running).
Proof using Type.
  unfold serve_request. pose proof (request_outcome_client r c (meanwhile t s)) as [Hw Hd].
  destruct (request_outcome r c (meanwhile t s)) as [o [c1 s1]]. cbn [fst snd] in *.
  destruct (encode_line _) as [l|e] eqn:El; [|intros [= <- <- <-]; auto using answers_refl].
  destruct (reply_written t); [|intros [= <- <- <-]; auto using answers_refl].
  set (w := WReply _) in *.
  assert (answers [r] c (add_written w c1)) as Ha.
  { apply (answers_trans [] [r] c c1); [by apply answers_refl|].
    apply add_written_answers; [unfold encodable; subst w; cbn [written_value]; by rewrite El | exists r; done]. }
  destruct (_ || _); intros [= <- <- <-]; auto.
Qed.

Lemma serve_requests_answers rs : forall turns c s p c' s',
  serve_requests turns rs c s = (p, (c', s')) ->
  cl_decoder c' = cl_decoder c /\
  exists rs', rs' `prefix_of` rs /\ answers rs' c c' /\ (p = Running -> rs' = rs).
Proof using Type.
  induction rs as [|r rs IH]; intros turns c s p c' s'; cbn [serve_requests].
  { intros [= <- <- <-]. split; [done|]. exists []. auto using answers_refl. }
  destruct (serve_request _ r c s) as [p1 [c1 s1]] eqn:E1.
  apply serve_request_answers in E1 as [Hd1 Ha1]. destruct p1 as [|res].
  - intros H. apply IH in H as (Hd & rs' & Hp & Ha & Hr). split; [congruence|].
    destruct Ha1 as [Ha1|[_ ?]]; [|done]. exists (r :: rs'). split_and!.
    + by apply prefix_cons.
    + by apply (answers_trans [r] rs' c c1).
    + intros ->. by rewrite Hr.
  - intros [= <- <- <-]. split; [done|]. destruct Ha1 as [Ha1|[Ha1 _]].
    + exists [r]. split_and!; [|done|done]. exists rs. done.
    + exists []. split_and!; [apply prefix_nil | done | done].
Qed.

Lemma forward_event_answers w c s p c' s' :
  forward_event w c s = (p, (c', s')) -> cl_decoder c' = cl_decoder c /\ answers [] c c'.
Proof using Type.
  unfold forward_event. destruct (next_event c s) as [[[e|] s1]|]; [|intros [= <- <- <-]; auto using answers_refl..].
  destruct (negb _); [intros [= <- <- <-]; auto using answers_refl|].
  destruct (encode_line _) as [l|er] eqn:El; [|intros [= <- <- <-]; auto using answers_refl].
  destruct w as [stopped|[]]; intros [= <- <- <-]; auto using answers_refl.
  split; [done|]. apply add_written_answers; [unfold encodable; cbn [written_value]; by rewrite El | done].
Qed.

Lemma serve_client_answers inputs : forall c s p c' s',
  serve_client inputs c s = (p, (c', s')) ->
  exists rs, rs `prefix_of` accepted (reads inputs) (cl_decoder c) /\ answers rs c c' /\
    (p = Running -> feed (reads inputs) (cl_decoder c) = Ok (rs, cl_decoder c')).
Proof using Type.
  induction inputs as [|i inputs IH]; intros c s p c' s'; cbn [serve_client].
  { intros [= <- <- <-]. exists []. auto using answers_refl. }
  destruct (client_turn i c s) as [p1 [c1 s1]] eqn:E1.
  assert (forall rd, cl_decoder c1 = cl_decoder c -> answers [] c c1 -> reads (i :: inputs) = rd ->
    rd = reads inputs \/ p1 <> Running ->
    match p1 with Running => serve_client inputs c1 s1 | Finished r => (Finished r, (c1, drop_receiver c1 s1)) end = (p, (c', s')) ->
    exists rs, rs `prefix_of` accepted rd (cl_decoder c) /\ answers rs c c' /\
      (p = Running -> feed rd (cl_decoder c) = Ok (rs, cl_decoder c'))) as Hquiet.
  { intros rd Hd Ha Er Hrd. destruct p1 as [|r].
    - destruct Hrd as [->|]; [|done]. intros H. apply IH in H as (rs & H1 & H2 & H3). rewrite Hd in *.
      exists rs. split_and!; [done | by apply (answers_trans [] rs c c1) | done].
    - intros [= <- <- <-]. exists []. split_and!; [apply prefix_nil | done | done]. }
  destruct i as [stopped|[[|b bs]|] turns|w|f]; cbn [client_turn] in E1.
  - destruct stopped; injection E1 as <- <- <-; apply (Hquiet (reads inputs)); auto using answers_refl.
  - injection E1 as <- <- <-. apply (Hquiet ([] :: reads inputs)); auto using answers_refl.
  - change (reads _) with ((b :: bs) :: reads inputs). cbn [accepted feed]. clear Hquiet.
    destruct (push (b :: bs) (cl_decoder c)) as [[rs|e] d].
    + apply serve_requests_answers in E1 as (Hd1 & rs1 & Hp1 & Ha1 & Hr1). cbn [cl_decoder set_decoder] in Hd1.
      destruct p1 as [|r].
      * specialize (Hr1 eq_refl). subst rs1. intros H. apply IH in H as (rs2 & H1 & H2 & H3). rewrite Hd1 in *.
        exists (rs ++ rs2). split_and!; [by apply prefix_app| |].
        -- apply (answers_trans rs rs2 c c1); [|done]. apply (answers_trans [] rs c (set_decoder d c)); [by apply answers_refl | done].
        -- intros Hp. by rewrite H3.
      * intros [= <- <- <-]. exists rs1. split_and!; [by apply prefix_app_r| |done].
        apply (answers_trans [] rs1 c (set_decoder d c)); [by apply answers_refl | done].
    + injection E1 as <- <- <-. intros [= <- <- <-]. exists []. split_and!; [apply prefix_nil | by apply answers_refl | done].
  - injection E1 as <- <- <-. apply (Hquiet (reads inputs)); auto using answers_refl.
  - apply forward_event_answers in E1 as [Hd Ha]. apply (Hquiet (reads inputs)); auto.
  - injection E1 as <- <- <-. apply (Hquiet (reads inputs)); auto using answers_refl.
Qed.

Lemma encodable_bytes ws : Forall encodable ws -> exists b, written_bytes ws = Ok b.
Proof using Type.
  induction 1 as [|w ws Hw _ [b IH]]; [by exists []|]. unfold encodable in Hw. cbn [written_bytes].
  destruct (encode_line _) as [l|]; [|done]. exists (l ++ b). cbn. by rewrite IH.
Qed.
(** A property of the shared state that the other tasks keep *)
Definition others_keep (P : S -> Prop) (inputs : list (ClientInput S)) : Prop :=
  Forall (fun i => match i with
    | COthers f => forall s, P s -> P (f s)
    | CRead _ turns => Forall (fun t => forall s, P s -> P (meanwhile t s)) turns
    | _ => True
    end) inputs.

Definition good_hello (r : Request) : Prop :=
  exists lo hi, command r = Hello lo hi /\ lo <= VERSION <= hi.

Definition silent (c : Client) : Prop := cl_negotiated c = false /\ cl_receiver c = None.

Lemma serve_request_silent (P : S -> Prop) t r c s p c' s' :
  (forall s, P s -> P (meanwhile t s)) -> P s -> silent c -> serve_request t r c s = (p, (c', s')) ->
  good_hello r \/ P s' /\ silent c' /\ p <> Running.
Proof using Type.
  intros Ht Hs Hc. unfold serve_request, request_outcome.
  assert (forall o, match encode_line (response_value {| rs_version := VERSION; rs_id := id r; rs_outcome := o |}) with
    | Ok _ => if reply_written t then
        if negb (cl_negotiated (add_written (WReply {| rs_version := VERSION; rs_id := id r; rs_outcome := o |}) c)) || stopping t
        then (Finished (Ok tt), (add_written (WReply {| rs_version := VERSION; rs_id := id r; rs_outcome := o |}) c, meanwhile t s))
        else (Running, (add_written (WReply {| rs_version := VERSION; rs_id := id r; rs_outcome := o |}) c, meanwhile t s))
        else (Finished (Err ISIo), (c, meanwhile t s))
    | Err e => (Finished (Err (ISProtocol e)), (c, meanwhile t s)) end = (p, (c', s')) ->
    P s' /\ silent c' /\ p <> Running) as Hclose.
  { intros o. destruct Hc as [Hn Hr]. destruct (encode_line _); [|intros [= <- <- <-]; split_and!; auto; by split].
    destruct (reply_written t); [|intros [= <- <- <-]; split_and!; auto; by split].
    cbn [cl_negotiated add_written]. rewrite Hn. cbn [negb orb]. intros [= <- <- <-]. split_and!; auto. by split. }
  destruct (command r) as [lo hi| | | | | | | | | | | | | | | | | | | | |] eqn:Er;
    try (rewrite (proj1 Hc); cbn [negb]; intros H; right; by apply Hclose in H).
  destruct (negotiate lo hi) as [v|e] eqn:En; [|intros H; right; by apply Hclose in H].
  intros _. left. exists lo, hi. split; [done|]. unfold negotiate in En.
  destruct ((lo <=? VERSION) && (VERSION <=? hi)) eqn:Eb; [split_bools; lia | done].
Qed.

Lemma serve_client_silent (P : S -> Prop) inputs : others_keep P inputs -> forall c s p c' s',
  P s -> silent c -> serve_client inputs c s = (p, (c', s')) ->
  P s' /\ silent c' \/ exists r rest, accepted (reads inputs) (cl_decoder c) = r :: rest /\ good_hello r.
Proof using Type.
  induction 1 as [|i inputs Hi _ IH]; intros c s p c' s' Hs Hc; cbn [serve_client].
  { intros [= <- <- <-]. auto. }
  assert (forall s0 c1, silent c1 -> drop_receiver c1 s0 = s0) as Hdrop by (intros s0 c1 [_ E]; unfold drop_receiver; by rewrite E).
  destruct i as [stopped|[[|b bs]|] turns|w|f]; cbn [client_turn].
  - destruct stopped; [|by apply IH]. intros [= <- <- <-]. rewrite Hdrop by done. auto.
  - intros [= <- <- <-]. rewrite Hdrop by done. auto.
  - change (reads _) with ((b :: bs) :: reads inputs). cbn [accepted].
    destruct (push (b :: bs) (cl_decoder c)) as [[rs|e] d].
    2: { intros [= <- <- <-]. rewrite Hdrop by exact Hc. auto. }
    destruct rs as [|r rs]; cbn [serve_requests].
    { intros H. apply IH in H; [exact H | done | exact Hc]. }
    destruct (serve_request _ r _ s) as [p1 [c1 s1]] eqn:E1.
    assert (forall s, P s -> P (meanwhile (default calm_turn (head turns)) s)) as Ht
      by (destruct turns as [|t turns]; [done | by apply Forall_inv in Hi]).
    destruct (serve_request_silent P _ _ (set_decoder d c) _ _ _ _ Ht Hs Hc E1) as [Hg | (Hs1 & Hc1 & Hp)].
    + intros _. right. exists r, (rs ++ accepted (reads inputs) d). done.
    + destruct p1 as [|res]; [done|]. intros [= <- <- <-]. rewrite Hdrop by done. auto.
  - intros [= <- <- <-]. rewrite Hdrop by done. auto.
  - unfold forward_event, next_event. rewrite (proj2 Hc). cbn [mbind option_bind]. by apply IH.
  - apply IH; [by apply Hi | done].
Qed.
End ServeFacts.

(** ** The accept loop *)

Definition same_euid (peer_uid daemon_euid : Z) : bool := peer_uid =? daemon_euid.

(** The connections the server spawned, with the peer's uid and where each one is *)
Record Connection := { cn_uid : Z; cn_progress : Progress; cn_client : Client }.
Record IpcServer {S : Type} := { sv_shared : S; sv_connections : list Connection }.
Arguments IpcServer : clear implicits.

(** What [run] finds: the watch changed, a connection ([None] an error of [accept], its
    credentials [None] when they cannot be read), or a turn of a client's task. *)
Inductive ServerInput {S : Type} :=
| SShutdownChanged (stopped : bool)
| SAccepted (peer : option (option Z))
| SClientTurn (i : nat) (input : ClientInput S).
Arguments ServerInput : clear implicits.

Section Run.
Context {json : Json} {S : Type} {handler : RequestHandler S}.

Definition client_task (i : nat) (input : ClientInput S) (v : IpcServer S) : IpcServer S :=
  match sv_connections v !! i with
  | Some {| cn_uid := uid; cn_progress := Running; cn_client := c |} =>
      let '(p, (c, s)) := serve_client [input] c (sv_shared v) in
      {| sv_shared := s; sv_connections := <[i := {| cn_uid := uid; cn_progress := p; cn_client := c |}]> (sv_connections v) |}
  | _ => v
  end.

(** [Some r] ends the accept loop. *)
Definition run_step (daemon_euid : Z) (input : ServerInput S) (v : IpcServer S)
  : option (result IpcServerError unit) * IpcServer S :=
  match input with
  | SShutdownChanged stopped => (if stopped then Some (Ok tt) else None, v)
  | SAccepted None => (Some (Err ISIo), v)
  | SAccepted (Some credentials) =>
      match credentials with
      | Some uid =>
          if same_euid uid daemon_euid then
            (None, {| sv_shared := sv_shared v;
                      sv_connections := sv_connections v ++ [{| cn_uid := uid; cn_progress := Running; cn_client := Client_new |}] |})
          else (None, v)
      | None => (None, v)
      end
  | SClientTurn i input => (None, client_task i input v)
  end.

Fixpoint run (daemon_euid : Z) (inputs : list (ServerInput S)) (v : IpcServer S)
  : option (result IpcServerError unit) * IpcServer S :=
  match inputs with
  | [] => (None, v)
  | input :: inputs =>
      match run_step daemon_euid input v with
      | (None, v) => run daemon_euid inputs v
      | stop => stop
      end
  end.

Lemma serve_client_app i1 : forall i2 c s,
  serve_client (i1 ++ i2) c s =
  match serve_client i1 c s with
  | (Running, (c, s)) => serve_client i2 c s
  | stop => stop
  end.
Proof using Type.
  induction i1 as [|i i1 IH]; intros i2 c s; [done|]. cbn [app serve_client].
  destruct (client_turn i c s) as [[|r] [c1 s1]]; [apply IH | done].
Qed.

(** What connection [i] reads in the course of a run: the reads of its turns from its accept
    to its end. *)
Definition is_open (i : nat) (v : IpcServer S) : bool :=
  match sv_connections v !! i with Some {| cn_progress := Running |} => true | _ => false end.
Definition reads_now (i : nat) (input : ServerInput S) (v : IpcServer S) : list bytes :=
  match input with
  | SClientTurn j turn => if Nat.eqb j i && is_open i v then reads [turn] else []
  | _ => []
  end.
Fixpoint read_by (daemon_euid : Z) (i : nat) (inputs : list (ServerInput S)) (v : IpcServer S) : list bytes :=
  match inputs with
  | [] => []
  | input :: inputs =>
      reads_now i input v ++
      match run_step daemon_euid input v with
      | (None, v) => read_by daemon_euid i inputs v
      | _ => []
      end
  end.

(** Every connection is one of this user's and a run of [serve_client] on what it read. *)
Definition connection_ok (euid : Z) (chunks : list bytes) (k : Connection) : Prop :=
  cn_uid k = euid /\
  exists inputs s s', serve_client inputs Client_new s = (cn_progress k, (cn_client k, s')) /\ reads inputs = chunks.
Definition connections_ok (euid : Z) (v : IpcServer S) (history : nat -> list bytes) : Prop :=
  forall i, match sv_connections v !! i with Some k => connection_ok euid (history i) k | None => history i = [] end.

Lemma client_task_ok euid j turn v history :
  connections_ok euid v history ->
  connections_ok euid (client_task j turn v) (fun i => history i ++ reads_now i (SClientTurn j turn) v).
Proof using Type.
  intros Hv i. unfold client_task, reads_now, is_open. pose proof (Hv i) as Hi. pose proof (Hv j) as Hj.
  destruct (Nat.eqb_spec j i) as [->|Hne]; cbn [andb].
  - destruct (sv_connections v !! i) as [[uid [|r] c]|] eqn:Ei; [|rewrite Ei, app_nil_r; exact Hi..].
    destruct Hi as [Hu (inputs & s & s' & Hr & Hd)]. cbn [cn_uid cn_progress cn_client] in *.
    destruct (serve_client [turn] c (sv_shared v)) as [p [c1 s1]] eqn:E1. cbn [sv_connections].
    rewrite list_lookup_insert_eq by (by eapply lookup_lt_Some). split; [done|]. cbn [cn_progress cn_client].
    set (last := COthers (fun _ => sv_shared v) : ClientInput S).
    exists (inputs ++ [last; turn]), s, s1. rewrite serve_client_app, Hr. split; [exact E1|].
    unfold reads in *. rewrite omap_app, Hd. reflexivity.
  - rewrite app_nil_r. destruct (sv_connections v !! j) as [[uid [|r] c]|]; [|exact Hi..].
    destruct (serve_client [turn] c (sv_shared v)) as [p [c1 s1]]. cbn [sv_connections]. by rewrite list_lookup_insert_ne.
Qed.

Lemma run_connections euid inputs : forall v history, connections_ok euid v history ->
  connections_ok euid (run euid inputs v).2 (fun i => history i ++ read_by euid i inputs v).
Proof using Type.
  assert (forall v h h', connections_ok euid v h -> (forall i, h i = h' i) -> connections_ok euid v h') as Hext.
  { intros v h h' H E i. rewrite <- E. apply H. }
  induction inputs as [|input inputs IH]; intros v history Hv; cbn [run read_by].
  { eapply Hext; [exact Hv|]. intros i. by rewrite app_nil_r. }
  assert (forall v', run_step euid input v = (None, v') ->
    connections_ok euid v' (fun i => history i ++ reads_now i input v)) as Hstep.
  { intros v'. destruct input as [stopped|[[uid|]|]|j turn]; cbn [run_step reads_now].
    - destruct stopped; [done|]. intros [= <-]. eapply Hext; [exact Hv|]. intros i. by rewrite app_nil_r.
    - unfold same_euid. destruct (uid =? euid) eqn:Eu; intros [= <-].
      + intros i. cbn [sv_connections]. rewrite app_nil_r. pose proof (Hv i) as Hi.
        destruct (decide (i < length (sv_connections v))%nat) as [Hlt|Hge].
        * rewrite lookup_app_l by done. exact Hi.
        * rewrite lookup_ge_None_2 in Hi by lia. rewrite lookup_app_r by lia.
          destruct (i - length (sv_connections v))%nat eqn:Ed; cbn [lookup]; [|by rewrite lookup_nil || exact Hi].
          split_bools. split; [done|]. exists [], (sv_shared v), (sv_shared v). by rewrite Hi.
      + eapply Hext; [exact Hv|]. intros i. by rewrite app_nil_r.
    - intros [= <-]. eapply Hext; [exact Hv|]. intros i. by rewrite app_nil_r.
    - done.
    - intros [= <-]. by apply client_task_ok. }
  assert (forall r v', run_step euid input v = (Some r, v') -> v' = v /\ forall i, reads_now i input v = []) as Hstop.
  { intros r v'. destruct input as [stopped|[[uid|]|]|j turn]; cbn [run_step].
    - destruct stopped; [|done]. by intros [= _ <-].
    - by destruct (same_euid uid euid).
    - done.
    - by intros [= _ <-].
    - done. }
  destruct (run_step euid input v) as [[r|] v'] eqn:E.
  - destruct (Hstop r v' eq_refl) as [-> Hn]. eapply Hext; [exact Hv|]. intros i. by rewrite Hn, !app_nil_r.
  - eapply Hext; [apply IH, Hstep; reflexivity|]. intros i. cbn. by rewrite app_assoc.
Qed.
End Run.

(** ** Properties *)

Section Properties.
Context {json : Json} {S : Type} {handler : RequestHandler S}.

(** C25: Each client of the daemon has the daemon's own user id, and is answered in order: the
    replies a connection wrote carry the correlation ids of the first requests among those
    it read, one for each and in the order of their lines, however the stream was cut into
    reads; a connection still open has answered every complete line it read, and all it
    wrote is lines of the protocol. *)
Theorem ipc_replies_in_order euid inputs (s : S) i k :
  let start := {| sv_shared := s; sv_connections := [] |} in
  sv_connections (run euid inputs start).2 !! i = Some k ->
  let chunks := read_by euid i inputs start in
  cn_uid k = euid /\
  exists rs, rs `prefix_of` accepted chunks (RequestDecoder_new MAX_LINE_BYTES) /\
    map rs_id (replies (cn_client k)) = map id rs /\
    (exists b, written_bytes (cl_written (cn_client k)) = Ok b) /\
    (cn_progress k = Running -> decode_lines MAX_LINE_BYTES (lines_rest (concat chunks)).1 = Ok rs).
Proof using Type.
  intros start Hk chunks. pose proof (run_connections euid inputs start (fun _ => []) (fun i => eq_refl) i) as H.
  rewrite Hk in H. destruct H as [Hu (ins & s1 & s2 & Hr & Hd)]. cbn [app] in Hd. fold chunks in Hd. split; [done|].
  apply serve_client_answers in Hr as (rs & Hp & [Hids Henc] & Hrun). cbn in Hids. rewrite Hd in *.
  exists rs. split_and!; [exact Hp | done | apply encodable_bytes, Henc; constructor |].
  intros Hp'. specialize (Hrun Hp'). apply feed_ok in Hrun as [(Hdec & _ & _) _]; [exact Hdec | by apply decoder_new_ok].
Qed.

(** No command runs before a client has said hello: until the first request of a
    connection is a hello whose range holds the protocol version, the shared state is
    touched only by other tasks and the client is subscribed to nothing. *)
Theorem ipc_hello_first (P : S -> Prop) inputs s p c' s' :
  others_keep P inputs -> P s -> serve_client inputs Client_new s = (p, (c', s')) ->
  P s' /\ silent c' \/
  exists r rest, accepted (reads inputs) (RequestDecoder_new MAX_LINE_BYTES) = r :: rest /\ good_hello r.
Proof using Type. intros Ho Hs Hr. by apply (serve_client_silent P inputs Ho Client_new s p). Qed.
End Properties.

(** ** Witnesses *)

(** A handler that answers with its own method and publishes a status event *)
Definition echo_handler : RequestHandler EventHub := {|
  rh_handle r h := (OkOutcome (JString (command_wire (command r)).1),
    hub_publish {| ev_version := VERSION; ev_sequence := 1; ev_topic := TStatus; ev_payload := JNull |} h);
  rh_hub h := h;
  rh_set_hub h _ := h
|}.

Definition sample_line (i : string) (c : Command) : bytes :=
  json_to_vec (request_value {| version := VERSION; id := i; command := c |}) ++ [nl].
Definition sample_stream : bytes :=
  sample_line "a" (Hello 4 4) ++ sample_line "b" (Subscribe [TStatus]) ++ sample_line "c" Status.
Definition sample_run : list (ServerInput EventHub) :=
  [SAccepted (Some (Some 1000)); SAccepted (Some (Some 0));
   SClientTurn 0 (CRead (Some (take 70 sample_stream)) []); SClientTurn 0 (CRead (Some (drop 70 sample_stream)) []);
   SClientTurn 0 (CEvent (EventWritten true))].

Lemma ipc_replies_in_order_witness :
  exists k, sv_connections (run (handler := echo_handler) 1000 sample_run {| sv_shared := []; sv_connections := [] |}).2 = [k] /\
    cn_uid k = 1000 /\ map rs_id (replies (cn_client k)) = ["a"; "b"; "c"]%string /\
    length (cl_written (cn_client k)) = 4%nat /\ exists b, written_bytes (cl_written (cn_client k)) = Ok b.
Proof.
  set (v := (run (handler := echo_handler) 1000 sample_run {| sv_shared := []; sv_connections := [] |}).2).
  assert (length (sv_connections v) = 1%nat) as El by (vm_compute; reflexivity).
  assert (map (fun k => map rs_id (replies (cn_client k))) (sv_connections v) = [["a"; "b"; "c"]%string]) as Ei
    by (vm_compute; reflexivity).
  assert (map (fun k => length (cl_written (cn_client k))) (sv_connections v) = [4%nat]) as Ew by (vm_compute; reflexivity).
  destruct (sv_connections v) as [|k [|]] eqn:Ek; try discriminate El.
  injection Ei as Ei. injection Ew as Ew. exists k. split; [reflexivity|].
  destruct (ipc_replies_in_order (handler := echo_handler) 1000 sample_run [] 0 k) as (Hu & rs & _ & _ & Hb & _).
  { fold v. rewrite Ek. reflexivity. }
  exact (conj Hu (conj Ei (conj Ew Hb))).
Defined.

Lemma ipc_hello_first_witness :
  let r := serve_client (handler := echo_handler)
    [CRead (Some (sample_line "c" Status)) []; CRead (Some (sample_line "d" Status)) []] Client_new [] in
  r.2.2 = [] /\ silent r.2.1 /\ r.1 = Finished (Ok tt) /\ length (replies r.2.1) = 1%nat.
Proof.
  cbv zeta. set (ins := [CRead _ _; _]).
  destruct (serve_client (handler := echo_handler) ins Client_new []) as [p [c' s']] eqn:E.
  destruct (ipc_hello_first (handler := echo_handler) (fun s => s = []) ins [] p c' s') as [[Hs Hc]|(r & rest & Ha & lo & hi & Hr & _)];
    [repeat constructor | reflexivity | exact E | |].
  - assert (E' := E). vm_compute in E'. injection E' as <- <- <-. exact (conj Hs (conj Hc (conj eq_refl eq_refl))).
  - exfalso. assert (map command (accepted (reads ins) (RequestDecoder_new MAX_LINE_BYTES)) = [Status; Status]) as Ec
      by (vm_compute; reflexivity).
    rewrite Ha in Ec. injection Ec as Ec _. rewrite Hr in Ec. discriminate Ec.
Defined.
