(* ===== verification/Instance.v ===== *)
(** * One daemon per socket ([omachatd/src/ipc_server.rs])

    Taking the instance lock ([IpcServer::bind]), publishing the private socket
    ([bind_private_socket]) and giving both up again ([run], [Drop]), for any number of
    processes that start, stop and are killed at any time. Every system call is one step, so
    that the theorems range over all interleavings; a call may also fail. Files are inodes
    under names: a lock belongs to the inode, whatever happens to its name. *)

From Stdlib Require Import Strings.Byte Ascii String.
From S2P Require Import Prelude RustStd Libs Concrete IpcServer.
Local Open Scope Z_scope.

(** ** Names and files *)

(** [error] is the text of the I/O or protocol error the value carries. *)
Definition ipc_server_error_display (error : string) (e : IpcServerError) : string :=
  match e with
  | ISIo => "IPC I/O failed: " +:+ error
  | ISProtocol _ => "IPC protocol failed: " +:+ error
  | OccupiedPath => "IPC path exists and is not a socket"
  | AlreadyRunning => "another daemon owns the IPC endpoint"
  end.

(** The paths a daemon uses, all below the parent of the socket. *)
Inductive Path := PSocket | PLock | PStaging (nonce : bytes) | PStaged (nonce : bytes) | POther (name : string).

#[export] Instance Path_eq_dec : EqDecision Path.
Proof. solve_decision. Defined.
#[export] Instance Path_countable : Countable Path.
Proof.
  refine (inj_countable' (fun p => match p with
    | PSocket => inl (inl tt) | PLock => inl (inr tt)
    | PStaging n => inr (inl (inl n)) | PStaged n => inr (inl (inr n)) | POther s => inr (inr s) end)
    (fun c => match c with
    | inl (inl _) => PSocket | inl (inr _) => PLock
    | inr (inl (inl n)) => PStaging n | inr (inl (inr n)) => PStaged n | inr (inr s) => POther s end) _).
  by intros [].
Defined.

(** [Path::with_extension]: the part of the name before its last dot, unless the dot opens
    the name. *)
Definition file_stem (name : bytes) : bytes :=
  match split_once x2e (reverse name) with
  | Some (_, before) => if decide (before = []) then name else reverse before
  | None => name
  end.

Definition path_name `{Hex} (name : string) (p : Path) : string :=
  match p with
  | PSocket => name
  | PLock => of_bytes (file_stem (as_bytes name)) +:+ ".lock"
  | PStaging n => "." +:+ name +:+ "." +:+ hex_encode n
  | PStaged n => "." +:+ name +:+ "." +:+ hex_encode n +:+ "/socket"
  | POther s => s
  end.

(** The names are apart, unless the socket itself is called [*.lock]: a nonce has sixteen
    bytes, and its digits end in no letter of [lock] or [socket]. *)
Definition ours (p : Path) : Prop := match p with PStaging n | PStaged n => zlen n = 16 | POther _ => False | _ => True end.

Lemma path_name_inj `{HexLaws} name p q : ours p -> ours q -> name <> path_name name PLock ->
  path_name name p = path_name name q -> p = q.
Proof.
  assert (forall n, zlen n = 16 -> slen (hex_encode n) = 32) as Hlen by (intros n Hn; rewrite hex_encode_length; lia).
  assert (forall n a b, zlen n = 16 -> a ++ as_bytes (hex_encode n) <> b ++ [x6b]) as Hlast.
  { intros n a b Hn E. pose proof (hex_encode_lower n) as Hl. unfold is_lower_hex, bytes_all in Hl.
    destruct (as_bytes (hex_encode n)) as [|c l _] eqn:Eh using rev_ind.
    - apply (f_equal zlen) in Eh. rewrite zlen_as_bytes, Hlen in Eh by done. done.
    - rewrite app_assoc in E. apply app_inj_tail in E as [_ ->]. rewrite forallb_app in Hl. cbn in Hl. by rewrite andb_false_r in Hl. }
  assert (forall n, zlen n = 16 -> zlen (as_bytes (path_name name (PStaging n))) = slen name + 34 /\
                                  zlen (as_bytes (path_name name (PStaged n))) = slen name + 41) as Hsize.
  { intros n Hn. cbn [path_name]. rewrite !as_bytes_app, !zlen_app, !zlen_as_bytes, Hlen by done.
    change (slen ".") with 1. change (slen "/socket") with 7. lia. }
  assert (forall n, zlen n = 16 -> path_name name (PStaging n) <> path_name name PLock) as Hlock.
  { intros n Hn E. apply (f_equal as_bytes) in E. cbn [path_name] in E. rewrite !as_bytes_app, !app_assoc in E.
    change (as_bytes ".lock") with (as_bytes ".loc" ++ [x6b]) in E. rewrite app_assoc in E. by apply Hlast in E. }
  assert (forall n, path_name name (PStaged n) <> path_name name PLock) as Hlock'.
  { intros n E. apply (f_equal as_bytes) in E. cbn [path_name] in E. rewrite !as_bytes_app, !app_assoc in E.
    change (as_bytes ".lock") with (as_bytes ".loc" ++ [x6b]) in E. change (as_bytes "/socket") with (as_bytes "/socke" ++ [x74]) in E.
    rewrite !app_assoc in E. by apply app_inj_tail in E as [_ ?]. }
  intros Hp Hq Hne E. pose proof (f_equal (fun s => zlen (as_bytes s)) E) as EL. cbn beta in EL.
  destruct p as [| |n|n|], q as [| |m|m|]; cbn [ours] in *; try done;
    try (by destruct (Hlock _ Hp)); try (by destruct (Hlock _ Hq)); try (by destruct (Hlock' n)); try (by destruct (Hlock' m));
    try destruct (Hsize _ Hp) as [S1 S2]; try destruct (Hsize _ Hq) as [S3 S4]; change (path_name name PSocket) with name in *;
    rewrite ?zlen_as_bytes in EL; rewrite <- ?zlen_as_bytes in *; try lia.
  all: apply (f_equal as_bytes) in E; cbn [path_name] in E; rewrite !as_bytes_app in E;
    repeat apply app_inv_head in E; try apply app_inv_tail in E; by apply as_bytes_inj, hex_encode_inj in E as ->.
Qed.

Inductive Kind := Regular | SocketNode (owner : Z) | Directory | Symlink (target : Path).
Record Node := { kind : Kind; mode : Z }.
Record Fs := { names : gmap Path Z; nodes : gmap Z Node; fresh : Z }.

Definition is_directory (k : Kind) : bool := match k with Directory => true | _ => false end.
Definition is_socket (k : Kind) : bool := match k with SocketNode _ => true | _ => false end.

(** What a path leads to, following at most [n] links. *)
Fixpoint resolve (n : nat) (f : Fs) (p : Path) : option Z :=
  i ← names f !! p;
  match kind <$> nodes f !! i, n with
  | Some (Symlink t), S n => resolve n f t
  | Some (Symlink _), O => None
  | _, _ => Some i
  end.
Definition MAX_LINKS : nat := 40.

Definition node_at (f : Fs) (p : Path) : option Node := names f !! p ≫= fun i => nodes f !! i.
Definition exists_path (f : Fs) (p : Path) : bool := bool_decide (is_Some (resolve MAX_LINKS f p)).

Definition create (p : Path) (n : Node) (f : Fs) : Fs := {|
  names := <[p := fresh f]> (names f); nodes := <[fresh f := n]> (nodes f); fresh := fresh f + 1 |}.
Definition set_mode (i m : Z) (f : Fs) : Fs := {|
  names := names f; nodes := alter (fun n => {| kind := kind n; mode := m |}) i (nodes f); fresh := fresh f |}.
Definition unname (p : Path) (f : Fs) : Fs := {| names := delete p (names f); nodes := nodes f; fresh := fresh f |}.

(** Creation modes are masked by the process. *)
Definition masked (m umask : Z) : Z := Z.ldiff m umask.

(** The system calls; [None] is an error. *)
Definition sys_open_lock (umask : Z) (f : Fs) : option (Z * Fs) :=
  match names f !! PLock with
  | None => Some (fresh f, create PLock {| kind := Regular; mode := masked 0x180 umask |} f)
  | Some i => match kind <$> nodes f !! i with Some Regular => Some (i, f) | _ => None end
  end.
Definition sys_chmod (p : Path) (m : Z) (f : Fs) : option Fs :=
  (fun i => set_mode i m f) <$> resolve MAX_LINKS f p.
Definition sys_unlink (p : Path) (f : Fs) : option Fs :=
  match node_at f p with
  | Some n => if is_directory (kind n) then None else Some (unname p f)
  | None => None
  end.
Definition sys_mkdir (p : Path) (m : Z) (f : Fs) : option Fs :=
  match names f !! p with
  | None => Some (create p {| kind := Directory; mode := m |} f)
  | Some _ => None
  end.
Definition sys_bind (nonce : bytes) (m owner : Z) (f : Fs) : option Fs :=
  match node_at f (PStaging nonce), names f !! PStaged nonce with
  | Some n, None =>
      if is_directory (kind n) then Some (create (PStaged nonce) {| kind := SocketNode owner; mode := m |} f) else None
  | _, _ => None
  end.
Definition sys_publish (nonce : bytes) (f : Fs) : option Fs :=
  match names f !! PStaged nonce with
  | Some i =>
      if match node_at f PSocket with Some n => is_directory (kind n) | None => false end then None
      else Some {| names := <[PSocket := i]> (delete (PStaged nonce) (names f)); nodes := nodes f; fresh := fresh f |}
  | None => None
  end.
Definition sys_rmdir (nonce : bytes) (f : Fs) : option Fs :=
  match node_at f (PStaging nonce), names f !! PStaged nonce with
  | Some n, None => if is_directory (kind n) then Some (unname (PStaging nonce) f) else None
  | _, _ => None
  end.

(** ** Processes *)

(** Where a process that holds the lock stands: the call it makes next. *)
Inductive Stage :=
| ModeLock | TestSocket | ReadKind | RemoveStale
| MakeStaging | ModeStaging (nonce : bytes) | BindStaged (nonce : bytes) | ModeStaged (nonce : bytes)
| Publish (nonce : bytes) | CleanSocket (nonce : bytes) (published : bool) | CleanStaging (nonce : bytes) (published : bool)
| Serving
| EndSocket | DropSocket | DropLock.

#[export] Instance Stage_eq_dec : EqDecision Stage.
Proof. solve_decision. Defined.

Inductive Phase :=
| Starting
| Opened (lock : Z)
| Held (lock : Z) (s : Stage)
| Releasing (lock : Z) (outcome : option IpcServerError)
| Exited (outcome : option IpcServerError)
| Killed.

Record Proc := { umask : Z; phase : Phase }.
Record World := { fs : Fs; holders : gmap Z Z; procs : gmap Z Proc }.

Definition set_phase (ph : Phase) (p : Z) (w : World) : World := {|
  fs := fs w; holders := holders w; procs := alter (fun pr => {| umask := umask pr; phase := ph |}) p (procs w) |}.
Definition set_fs (f : Fs) (w : World) : World := {| fs := f; holders := holders w; procs := procs w |}.
Definition set_holder (h : gmap Z Z) (w : World) : World := {| fs := fs w; holders := h; procs := procs w |}.

(** The call of a stage: the files after it and the stage that follows. [fault] makes the
    call fail, [nonce] is what the random source yields. *)
Definition stage_call (s : Stage) (p mask : Z) (fault : bool) (nonce : bytes) (f : Fs) : Fs * (Stage + IpcServerError) :=
  let attempt (c : option Fs) (next failed : Stage + IpcServerError) :=
    match c with Some f' => if fault then (f, failed) else (f', next) | None => (f, failed) end in
  let or_io (c : option Fs) (next : Stage) := attempt c (inl next) (inr ISIo) in
  let ignored (c : option Fs) (next : Stage + IpcServerError) := attempt c next next in
  match s with
  | ModeLock => or_io (sys_chmod PLock 0x180 f) TestSocket
  | TestSocket => (f, inl (if negb fault && exists_path f PSocket then ReadKind else MakeStaging))
  | ReadKind =>
      match node_at f PSocket with
      | Some n => if fault then (f, inr ISIo)
                  else if is_socket (kind n) then (f, inl RemoveStale) else (f, inr OccupiedPath)
      | None => (f, inr ISIo)
      end
  | RemoveStale => or_io (sys_unlink PSocket f) MakeStaging
  | MakeStaging => or_io (sys_mkdir (PStaging nonce) (masked 0x1c0 mask) f) (ModeStaging nonce)
  | ModeStaging n => or_io (sys_chmod (PStaging n) 0x1c0 f) (BindStaged n)
  | BindStaged n => attempt (sys_bind n (masked 0x1ff mask) p f) (inl (ModeStaged n)) (inl (CleanSocket n false))
  | ModeStaged n => attempt (sys_chmod (PStaged n) 0x180 f) (inl (Publish n)) (inl (CleanSocket n false))
  | Publish n => attempt (sys_publish n f) (inl (CleanSocket n true)) (inl (CleanSocket n false))
  | CleanSocket n ok => ignored (sys_unlink (PStaged n) f) (inl (CleanStaging n ok))
  | CleanStaging n ok => ignored (sys_rmdir n f) (if ok then inl Serving else inr ISIo)
  | Serving => (f, inl Serving)
  | EndSocket => ignored (sys_unlink PSocket f) (inl DropSocket)
  | DropSocket => ignored (sys_unlink PSocket f) (inl DropLock)
  | DropLock => ignored (sys_unlink PLock f) (inl DropLock)
  end.

(** One call of process [p]. *)
Definition proc_step (p : Z) (fault : bool) (nonce : bytes) (w : World) : World :=
  match procs w !! p with
  | None => w
  | Some pr =>
    match phase pr with
    | Starting =>
        match sys_open_lock (umask pr) (fs w) with
        | Some (i, f) => if fault then set_phase (Exited (Some ISIo)) p w else set_phase (Opened i) p (set_fs f w)
        | None => set_phase (Exited (Some ISIo)) p w
        end
    | Opened i =>
        if fault then set_phase (Exited (Some ISIo)) p w
        else match holders w !! i with
             | None => set_phase (Held i ModeLock) p (set_holder (<[i := p]> (holders w)) w)
             | Some _ => set_phase (Exited (Some AlreadyRunning)) p w
             end
    | Held i s =>
        let '(f, next) := stage_call s p (umask pr) fault nonce (fs w) in
        let next := match s with DropLock => Releasing i None | _ =>
                      match next with inl s' => Held i s' | inr e => Releasing i (Some e) end end in
        set_phase next p (set_fs f w)
    | Releasing i o => set_phase (Exited o) p (set_holder (delete i (holders w)) w)
    | Exited _ | Killed => w
    end
  end.

(** What happens: a process makes its next call, is asked to shut down while it serves, is
    killed, or a new one is started. *)
Inductive Happening :=
| Calls (p : Z) (fault : bool) (nonce : bytes) | ShutDown (p : Z) | Kill (p : Z) | Launch (p mask : Z).

Definition happen (h : Happening) (w : World) : World :=
  match h with
  | Calls p fault nonce => proc_step p fault nonce w
  | ShutDown p =>
      match phase <$> procs w !! p with
      | Some (Held i Serving) => set_phase (Held i EndSocket) p w
      | _ => w
      end
  | Kill p =>
      match phase <$> procs w !! p with
      | Some (Held i _ | Releasing i _) => set_phase Killed p (set_holder (delete i (holders w)) w)
      | Some (Starting | Opened _) => set_phase Killed p w
      | _ => w
      end
  | Launch p mask =>
      match procs w !! p with
      | None => {| fs := fs w; holders := holders w; procs := <[p := {| umask := mask; phase := Starting |}]> (procs w) |}
      | Some _ => w
      end
  end.

Definition history (hs : list Happening) (w : World) : World := foldl (fun w h => happen h w) w hs.

(** ** At most one daemon *)

Definition phase_of (w : World) (p : Z) : option Phase := phase <$> procs w !! p.

(** Some process has opened the lock file and not yet tried to lock it. *)
Definition opening (w : World) : bool :=
  existsb (fun e : Z * Proc => match phase e.2 with Opened _ => true | _ => false end) (map_to_list (procs w)).

(** No daemon removes the lock file while another process is about to lock it. *)
Definition quiet (w : World) (h : Happening) : bool :=
  match h with
  | Calls p _ _ => match phase_of w p with Some (Held _ DropLock) => negb (opening w) | _ => true end
  | _ => true
  end.
Fixpoint quiet_history (hs : list Happening) (w : World) : bool :=
  match hs with [] => true | h :: hs => quiet w h && quiet_history hs (happen h w) end.

Definition files_ok (f : Fs) : Prop :=
  map_Forall (fun _ i => i < fresh f /\ is_Some (nodes f !! i)) (names f) /\ map_Forall (fun i _ => i < fresh f) (nodes f).
#[export] Instance files_ok_dec f : Decision (files_ok f).
Proof. unfold files_ok. apply _. Defined.

Definition boot (f : Fs) : World := {| fs := f; holders := ∅; procs := ∅ |}.

Record single_ok (w : World) : Prop := {
  so_files : files_ok (fs w);
  so_held p i s : phase_of w p = Some (Held i s) -> holders w !! i = Some p /\ names (fs w) !! PLock = Some i;
  so_releasing p i o : phase_of w p = Some (Releasing i o) -> holders w !! i = Some p;
  so_opened p i : phase_of w p = Some (Opened i) -> names (fs w) !! PLock = Some i;
  so_holders i p : holders w !! i = Some p -> i < fresh (fs w)
}.

Lemma phase_of_set ph p w q pr : procs w !! p = Some pr ->
  phase_of (set_phase ph p w) q = if decide (q = p) then Some ph else phase_of w q.
Proof.
  intros Hp. unfold phase_of, set_phase. cbn. case_decide; subst.
  - rewrite lookup_alter_eq, Hp. done.
  - rewrite lookup_alter_ne by done. done.
Qed.

Lemma opening_false w p i : opening w = false -> phase_of w p <> Some (Opened i).
Proof.
  intros Ho Hp. unfold phase_of in Hp. apply fmap_Some in Hp as (pr & Hp & E).
  enough (opening w = true) by congruence. unfold opening. apply existsb_exists. exists (p, pr).
  split; [|by cbn; rewrite <- E]. apply list_elem_of_In, elem_of_map_to_list. done.
Qed.

Lemma files_ok_create p n f : files_ok f -> files_ok (create p n f).
Proof.
  intros [Hn Hd]. unfold files_ok, create. cbn. split.
  - intros q i [[<- <-]|[Hq Hi]]%lookup_insert_Some.
    + rewrite lookup_insert_eq. split; [lia|by eexists].
    + apply Hn in Hi as [Hlt Hs]. split; [lia|]. rewrite lookup_insert_ne by lia. done.
  - intros i nd [[<- _]|[_ Hi]]%lookup_insert_Some; [lia|]. apply Hd in Hi. lia.
Qed.
Lemma files_ok_mode i m f : files_ok f -> files_ok (set_mode i m f).
Proof.
  intros [Hn Hd]. unfold files_ok, set_mode. cbn. split.
  - intros q j Hq. apply Hn in Hq as [Hlt Hs]. split; [done|]. by rewrite lookup_alter_is_Some.
  - intros j nd Hj. assert (is_Some (nodes f !! j)) as [nd0 Hj0]
      by (apply (lookup_alter_is_Some (fun n => {| kind := kind n; mode := m |}) _ i); by eexists).
    by apply Hd in Hj0.
Qed.
Lemma files_ok_unname p f : files_ok f -> files_ok (unname p f).
Proof. intros [Hn Hd]. split; [|done]. unfold unname. cbn. intros q i [_ Hi]%lookup_delete_Some. by apply Hn in Hi. Qed.
Lemma sys_publish_inv n f f' : sys_publish n f = Some f' -> exists i,
  names f !! PStaged n = Some i /\
  f' = {| names := <[PSocket := i]> (delete (PStaged n) (names f)); nodes := nodes f; fresh := fresh f |}.
Proof. intros H. unfold sys_publish in H. destruct (names f !! PStaged n) as [i|]; [|done]. exists i. by repeat case_match; simplify_eq. Qed.
Lemma files_ok_publish n i f : files_ok f -> names f !! PStaged n = Some i ->
  files_ok {| names := <[PSocket := i]> (delete (PStaged n) (names f)); nodes := nodes f; fresh := fresh f |}.
Proof.
  intros [Hn Hd] Hi. split; [|done]. cbn.
  intros q j [[<- <-]|[_ Hq]]%lookup_insert_Some; [by eapply Hn|]. apply lookup_delete_Some in Hq as [_ Hq]. by eapply Hn.
Qed.

(** Case analysis on the call a stage makes. *)
Ltac stage_cases H :=
  cbn [stage_call] in H; unfold sys_chmod, sys_mkdir, sys_bind, sys_unlink, sys_rmdir in H;
  repeat case_match; simplify_eq;
  repeat match goal with
  | E : _ <$> _ = Some _ |- _ => apply fmap_Some in E as (? & ? & ->)
  | E : sys_publish _ _ = Some _ |- _ => apply sys_publish_inv in E as (? & ? & ->)
  end.

Lemma stage_call_files s p mask fault nonce f f' r :
  files_ok f -> stage_call s p mask fault nonce f = (f', r) -> files_ok f' /\ fresh f <= fresh f'.
Proof.
  intros Hf H. destruct s; stage_cases H;
    (split; [eauto using files_ok_create, files_ok_mode, files_ok_unname, files_ok_publish|cbn; lia]).
Qed.

(** Only the last call of a daemon touches the name of the lock. *)
Lemma stage_call_lock s p mask fault nonce f f' r :
  stage_call s p mask fault nonce f = (f', r) -> s <> DropLock -> names f' !! PLock = names f !! PLock.
Proof.
  intros H Hs. destruct s; [..|done]; stage_cases H; cbn; rewrite ?lookup_insert_ne, ?lookup_delete_ne by done; done.
Qed.

Lemma single_ok_set w p pr ph : single_ok w -> procs w !! p = Some pr ->
  match ph with Opened _ | Held _ _ | Releasing _ _ => False | _ => True end -> single_ok (set_phase ph p w).
Proof.
  intros H Hp Hph. split; try apply H.
  all: intros q; rewrite (phase_of_set _ _ _ _ _ Hp); case_decide; [intros; by simplify_eq|apply H].
Qed.

(** A process that holds the lock gives it back. *)
Lemma single_ok_release w p pr ph i : single_ok w -> procs w !! p = Some pr -> holders w !! i = Some p ->
  match ph with Opened _ | Held _ _ | Releasing _ _ => False | _ => True end ->
  single_ok (set_phase ph p (set_holder (delete i (holders w)) w)).
Proof.
  intros H Hp Hi Hph. assert (forall q j, holders w !! j = Some q -> q <> p -> delete i (holders w) !! j = Some q) as Hkeep.
  { intros q j Hj Hq. rewrite lookup_delete_ne; [done|]. intros ->. congruence. }
  split.
  - apply H.
  - intros q j s. rewrite (phase_of_set _ _ _ _ pr) by done. case_decide; [intros; by simplify_eq|]. intros Hs.
    destruct (so_held _ H _ _ _ Hs). split; [by apply Hkeep|done].
  - intros q j o. rewrite (phase_of_set _ _ _ _ pr) by done. case_decide; [intros; by simplify_eq|]. intros Hs.
    apply Hkeep; [|done]. by eapply so_releasing.
  - intros q j. rewrite (phase_of_set _ _ _ _ pr) by done. case_decide; [intros; by simplify_eq|]. apply H.
  - cbn. intros j q [_ Hj]%lookup_delete_Some. by eapply so_holders.
Qed.

(** A process moves on, to files that keep the name of the lock. *)
Lemma single_ok_files w p pr ph f : single_ok w -> procs w !! p = Some pr ->
  files_ok f -> fresh (fs w) <= fresh f -> names f !! PLock = names (fs w) !! PLock ->
  match ph with
  | Held i _ => holders w !! i = Some p /\ names (fs w) !! PLock = Some i
  | Releasing i _ => holders w !! i = Some p
  | Opened i => names (fs w) !! PLock = Some i
  | _ => True
  end -> single_ok (set_phase ph p (set_fs f w)).
Proof.
  intros H Hp Hf Hfresh Hname Hph. split; [done|..]; cbn.
  - intros q j s. rewrite (phase_of_set _ _ _ _ pr) by done. rewrite Hname. case_decide; [intros; by simplify_eq|]. apply H.
  - intros q j o. rewrite (phase_of_set _ _ _ _ pr) by done. case_decide; [intros; by simplify_eq|]. apply H.
  - intros q j. rewrite (phase_of_set _ _ _ _ pr) by done. rewrite Hname. case_decide; [intros; by simplify_eq|]. apply H.
  - intros j q Hj. apply (so_holders _ H) in Hj. lia.
Qed.

(** The lock file is created: nobody had it open. *)
Lemma single_ok_create w p pr n : single_ok w -> procs w !! p = Some pr -> names (fs w) !! PLock = None ->
  single_ok (set_phase (Opened (fresh (fs w))) p (set_fs (create PLock n (fs w)) w)).
Proof.
  intros H Hp Hn. split; cbn.
  - by apply files_ok_create, H.
  - intros q j s. rewrite (phase_of_set _ _ _ _ pr) by done. case_decide; [done|]. intros Hs.
    destruct (so_held _ H _ _ _ Hs). congruence.
  - intros q j o. rewrite (phase_of_set _ _ _ _ pr) by done. case_decide; [done|]. apply H.
  - intros q j. rewrite (phase_of_set _ _ _ _ pr) by done. case_decide; [|intros Hs; apply (so_opened _ H) in Hs; congruence].
    intros [= <-]. by rewrite lookup_insert_eq.
  - intros j q Hj. apply (so_holders _ H) in Hj. lia.
Qed.

Lemma single_ok_lock w p pr i s : single_ok w -> procs w !! p = Some pr -> phase_of w p = Some (Opened i) ->
  holders w !! i = None -> single_ok (set_phase (Held i s) p (set_holder (<[i := p]> (holders w)) w)).
Proof.
  intros H Hp Ho Hi. pose proof (so_opened _ H _ _ Ho) as Hn.
  assert (forall q j, holders w !! j = Some q -> <[i := p]> (holders w) !! j = Some q) as Hkeep.
  { intros q j Hj. rewrite lookup_insert_ne; [done|]. intros ->. congruence. }
  split; cbn; [apply H|..].
  - intros q j s'. rewrite (phase_of_set _ _ _ _ pr) by done. case_decide as Hq.
    + intros [= <- <-]. subst. by rewrite lookup_insert_eq.
    + intros Hs. destruct (so_held _ H _ _ _ Hs). eauto.
  - intros q j o. rewrite (phase_of_set _ _ _ _ pr) by done. case_decide; [done|]. intros Hs. eapply Hkeep, so_releasing; eauto.
  - intros q j. rewrite (phase_of_set _ _ _ _ pr) by done. case_decide; [done|]. apply H.
  - intros j q [[<- _]|[_ Hj]]%lookup_insert_Some; [|by eapply so_holders]. by apply (so_files _ H) in Hn as [? _].
Qed.

(** The lock file is removed while nobody is about to lock it. *)
Lemma single_ok_unlink w p pr i fault nonce mask f r : single_ok w -> procs w !! p = Some pr ->
  phase_of w p = Some (Held i DropLock) -> opening w = false -> files_ok f -> fresh (fs w) <= fresh f ->
  stage_call DropLock p mask fault nonce (fs w) = (f, r) -> single_ok (set_phase (Releasing i None) p (set_fs f w)).
Proof.
  intros H Hp Hph Ho Hf Hfresh _. destruct (so_held _ H _ _ _ Hph) as [Hh Hn]. split; [done|..]; cbn.
  - intros q j s. rewrite (phase_of_set _ _ _ _ pr) by done. case_decide; [done|]. intros Hs.
    destruct (so_held _ H _ _ _ Hs). congruence.
  - intros q j o. rewrite (phase_of_set _ _ _ _ pr) by done. case_decide; [intros; by simplify_eq|]. apply H.
  - intros q j. rewrite (phase_of_set _ _ _ _ pr) by done. case_decide; [done|]. intros Hs. by apply opening_false in Hs.
  - intros j q Hj. apply (so_holders _ H) in Hj. lia.
Qed.

Lemma proc_step_single p fault nonce w :
  single_ok w -> quiet w (Calls p fault nonce) = true -> single_ok (proc_step p fault nonce w).
Proof.
  intros H Hq. unfold proc_step. destruct (procs w !! p) as [pr|] eqn:Hp; [|done].
  assert (phase_of w p = Some (phase pr)) as Hph by (unfold phase_of; by rewrite Hp).
  destruct (phase pr) as [|i|i s|i o|o|] eqn:Eph; [..|done|done].
  - destruct (sys_open_lock _ _) as [[i f]|] eqn:Eo; [|by eapply single_ok_set]. destruct fault; [by eapply single_ok_set|].
    unfold sys_open_lock in Eo. destruct (names (fs w) !! PLock) as [j|] eqn:En.
    + repeat case_match; simplify_eq. eapply single_ok_files; try done. apply H.
    + simplify_eq. by eapply single_ok_create.
  - destruct fault; [by eapply single_ok_set|]. destruct (holders w !! i) eqn:Ei; [by eapply single_ok_set|].
    by eapply single_ok_lock.
  - destruct (stage_call _ _ _ _ _ _) as [f next] eqn:Es.
    destruct (stage_call_files _ _ _ _ _ _ _ _ (so_files _ H) Es) as [Hf Hfresh].
    destruct (so_held _ H _ _ _ Hph) as [Hh Hn].
    destruct (decide (s = DropLock)) as [->|Hs].
    + cbn [quiet] in Hq. rewrite Hph in Hq. apply negb_true_iff in Hq. by eapply single_ok_unlink.
    + pose proof (stage_call_lock _ _ _ _ _ _ _ _ Es Hs) as Hl.
      assert (single_ok (set_phase (match next with inl s' => Held i s' | inr e => Releasing i (Some e) end) p (set_fs f w))).
      { eapply single_ok_files; try done. by destruct next. }
      by destruct s.
  - eapply single_ok_release; try done. by eapply so_releasing.
Qed.

Lemma happen_single h w : single_ok w -> quiet w h = true -> single_ok (happen h w).
Proof.
  intros H Hq. destruct h as [p fault nonce|p|p|p mask]; cbn [happen]; [by apply proc_step_single|..].
  - destruct (phase <$> procs w !! p) as [ph|] eqn:Hph; [|done]. pose proof Hph as Hph'.
    apply fmap_Some in Hph' as (pr & Hp & _). destruct ph as [| |i s| | |]; try done. destruct s; try done.
    replace w with (set_fs (fs w) w) at 1 by (by destruct w). eapply single_ok_files; try done; [apply H|by eapply so_held].
  - destruct (phase <$> procs w !! p) as [ph|] eqn:Hph; [|done]. pose proof Hph as Hph'.
    apply fmap_Some in Hph' as (pr & Hp & _). destruct ph; try done; try (by eapply single_ok_set);
      eapply single_ok_release; try done; [by eapply (so_held _ H)|by eapply (so_releasing _ H)].
  - destruct (procs w !! p) eqn:Hp; [done|].
    assert (forall q, phase_of {| fs := fs w; holders := holders w; procs := <[p := {| umask := mask; phase := Starting |}]> (procs w) |} q =
      if decide (q = p) then Some Starting else phase_of w q) as E.
    { intros q. unfold phase_of. cbn. case_decide; subst; [by rewrite lookup_insert_eq|by rewrite lookup_insert_ne]. }
    split; try apply H; intros q; rewrite E; case_decide; try done; apply H.
Qed.

Lemma history_single hs : forall w, single_ok w -> quiet_history hs w = true -> single_ok (history hs w).
Proof.
  induction hs as [|h hs IH]; intros w H Hq; [done|]. cbn in Hq. split_bools.
  apply IH; [by apply happen_single|done].
Qed.

Lemma boot_single f : files_ok f -> single_ok (boot f).
Proof. intros Hf. split; [done|..]; intros; unfold phase_of in *; cbn in *; rewrite ?lookup_empty in *; done. Qed.

(** ** The socket is never open to others *)

Definition nonce_of (s : Stage) : option bytes :=
  match s with
  | ModeStaging n | BindStaged n | ModeStaged n | Publish n | CleanSocket n _ | CleanStaging n _ => Some n
  | _ => None
  end.

Definition staged_ok (f : Fs) (s : Stage) : Prop :=
  match s with
  | ModeStaging n | BindStaged n => names f !! PStaged n = None
  | ModeStaged n => forall nd, node_at f (PStaged n) = Some nd -> is_socket (kind nd) = true
  | Publish n => forall nd, node_at f (PStaged n) = Some nd -> is_socket (kind nd) = true /\ mode nd = 0x180
  | _ => True
  end.
Definition stage_ok (f : Fs) (s : Stage) : Prop :=
  (forall n, nonce_of s = Some n -> exists nd, node_at f (PStaging n) = Some nd /\ kind nd = Directory) /\ staged_ok f s.

Record tree_ok (f : Fs) : Prop := {
  to_files : files_ok f;
  to_nested n : names f !! PStaging n = None -> names f !! PStaged n = None;
  to_socket nd : node_at f PSocket = Some nd -> is_socket (kind nd) = true -> mode nd = 0x180
}.

Lemma node_at_create p n f q : files_ok f ->
  node_at (create p n f) q = if decide (q = p) then Some n else node_at f q.
Proof.
  intros [Hn _]. unfold node_at, create. cbn. case_decide as E.
  - subst. rewrite lookup_insert_eq. cbn. by rewrite lookup_insert_eq.
  - rewrite lookup_insert_ne by done. destruct (names f !! q) as [i|] eqn:Ei; [|done]. cbn.
    apply Hn in Ei as [? _]. rewrite lookup_insert_ne by lia. done.
Qed.
Lemma node_at_unname p f q : node_at (unname p f) q = if decide (q = p) then None else node_at f q.
Proof.
  unfold node_at, unname. cbn. case_decide; subst; [by rewrite lookup_delete_eq|by rewrite lookup_delete_ne].
Qed.
Lemma node_at_mode i m f q : node_at (set_mode i m f) q =
  if decide (names f !! q = Some i) then (fun n => {| kind := kind n; mode := m |}) <$> node_at f q else node_at f q.
Proof.
  unfold node_at, set_mode. cbn. destruct (names f !! q) as [j|]; [|by case_decide]. cbn. case_decide; simplify_eq.
  - by rewrite lookup_alter_eq.
  - rewrite lookup_alter_ne by congruence. done.
Qed.
Lemma node_at_names f q nd : node_at f q = Some nd -> exists i, names f !! q = Some i /\ nodes f !! i = Some nd.
Proof. unfold node_at. intros (i & ? & ?)%bind_Some. eauto. Qed.

(** A mode is set to 0600, or that of a directory changes. *)
Definition mode_fine (i m : Z) (f : Fs) : Prop := m = 0x180 \/ (kind <$> nodes f !! i) = Some Directory.

Lemma mode_fine_socket i m f q nd : mode_fine i m f -> node_at (set_mode i m f) q = Some nd ->
  exists nd0, node_at f q = Some nd0 /\ kind nd0 = kind nd /\ (is_socket (kind nd) = true -> mode nd0 = 0x180 -> mode nd = 0x180).
Proof.
  intros Hm. rewrite node_at_mode. case_decide as E; [|eauto]. intros (nd0 & H0 & ->)%fmap_Some. exists nd0.
  split; [done|]. split; [done|]. cbn. intros Hs _. destruct Hm as [->|Hd]; [done|].
  apply node_at_names in H0 as (j & Hj & Hnd). simplify_eq. rewrite Hnd in Hd. cbn in Hd. injection Hd as Hd. by rewrite Hd in Hs.
Qed.

Lemma tree_ok_mode i m f : tree_ok f -> mode_fine i m f -> tree_ok (set_mode i m f).
Proof.
  intros H Hm. split; [by apply files_ok_mode, H|apply H|].
  intros nd Hnd Hs. destruct (mode_fine_socket _ _ _ _ _ Hm Hnd) as (nd0 & H0 & Hk & Hmode).
  apply Hmode; [done|]. eapply to_socket; eauto. by rewrite Hk.
Qed.
Lemma stage_ok_mode i m f s : stage_ok f s -> mode_fine i m f -> stage_ok (set_mode i m f) s.
Proof.
  intros [Hd Hs] Hm. split.
  - intros n Hn. destruct (Hd n Hn) as (nd & Hnd & Hk). rewrite node_at_mode. case_decide; [|eauto].
    rewrite Hnd. cbn. eauto.
  - destruct s; try done; cbn in *; intros nd Hnd;
      destruct (mode_fine_socket _ _ _ _ _ Hm Hnd) as (nd0 & H0 & Hk & Hmode); apply Hs in H0; rewrite <- Hk in *; [done|].
    destruct H0. eauto.
Qed.

(** Calls under other names do not matter to a stage. *)
Lemma stage_ok_frame f f' s : stage_ok f s ->
  (forall n q, nonce_of s = Some n -> q = PStaging n \/ q = PStaged n ->
     names f' !! q = names f !! q /\ node_at f' q = node_at f q) -> stage_ok f' s.
Proof.
  intros [Hd Hs] Hf. split.
  - intros n Hn. destruct (Hf n (PStaging n) Hn) as [_ ->]; eauto.
  - destruct s; try done; cbn in *;
      match goal with |- context [PStaged ?n] => destruct (Hf n (PStaged n) eq_refl) as [E1 E2]; [by right|] end;
      rewrite ?E1, ?E2; done.
Qed.

Lemma resolve_plain k f q nd : node_at f q = Some nd -> (forall t, kind nd <> Symlink t) -> resolve k f q = names f !! q.
Proof.
  intros Hn Hk. apply node_at_names in Hn as (j & Hj & Hnd).
  destruct k; cbn; rewrite Hj; cbn; rewrite Hnd; cbn; destruct (kind nd); try done; by destruct (Hk target).
Qed.
Lemma resolve_directory k f q nd i : node_at f q = Some nd -> kind nd = Directory -> resolve k f q = Some i ->
  (kind <$> nodes f !! i) = Some Directory.
Proof.
  intros Hn Hk Hr. rewrite (resolve_plain _ _ _ _ Hn) in Hr by congruence.
  apply node_at_names in Hn as (j & Hj & Hnd). simplify_eq. by rewrite Hnd, <- Hk.
Qed.

Lemma tree_ok_create p n f : tree_ok f -> p <> PSocket ->
  (forall m, p = PStaged m -> is_Some (names f !! PStaging m)) -> tree_ok (create p n f).
Proof.
  intros H Hp Hs. split; [by apply files_ok_create, H|..].
  - intros m. unfold create. cbn. rewrite !lookup_insert_None. intros [Hm Hne]. split; [by apply H|].
    intros ->. destruct (Hs m eq_refl). congruence.
  - intros nd. rewrite node_at_create by apply H. case_decide; [done|]. apply H.
Qed.
Lemma tree_ok_unname p f : tree_ok f -> (forall m, p = PStaging m -> names f !! PStaged m = None) -> tree_ok (unname p f).
Proof.
  intros H Hs. split; [by apply files_ok_unname, H|..].
  - intros m. unfold unname. cbn. rewrite !lookup_delete_None. intros [->|Hm]; [right; by apply Hs|right; by apply H].
  - intros nd. rewrite node_at_unname. case_decide; [done|]. apply H.
Qed.
Lemma tree_ok_publish n i f : tree_ok f -> stage_ok f (Publish n) -> names f !! PStaged n = Some i ->
  tree_ok {| names := <[PSocket := i]> (delete (PStaged n) (names f)); nodes := nodes f; fresh := fresh f |}.
Proof.
  intros H [_ Hs] Hi. split; [by apply files_ok_publish, Hi; apply H|..]; cbn.
  - intros m. rewrite !lookup_insert_ne, lookup_delete_ne by done. intros Hm%H. rewrite lookup_delete_None. by right.
  - intros nd. unfold node_at. cbn. rewrite lookup_insert_eq. cbn. intros Hnd _. apply Hs. unfold node_at. by rewrite Hi.
Qed.

(** What a call keeps, for the files and for every other daemon that is staging a socket. *)
Lemma stage_call_tree s p mask fault nonce f f' r :
  tree_ok f -> stage_ok f s -> stage_call s p mask fault nonce f = (f', r) -> tree_ok f'.
Proof.
  intros H [Hd Hs] E. destruct s; stage_cases E; try done;
    try (apply tree_ok_mode; [done|]; by left); try (apply tree_ok_unname; [done|]; intros; simplify_eq; done).
  - apply tree_ok_create; [done|done|]. intros; simplify_eq.
  - apply tree_ok_mode; [done|]. right. destruct (Hd _ eq_refl) as (nd & Hnd & Hk). by eapply resolve_directory.
  - apply tree_ok_create; [done|done|]. intros m [= <-]. destruct (Hd _ eq_refl) as (nd & Hnd & _).
    apply node_at_names in Hnd as (? & -> & _). done.
  - by apply tree_ok_publish.
Qed.

Definition elsewhere (p : Path) (s : Stage) : Prop :=
  forall n, nonce_of s = Some n -> p <> PStaging n /\ p <> PStaged n.

Lemma stage_ok_unname p f s : stage_ok f s -> elsewhere p s -> stage_ok (unname p f) s.
Proof.
  intros H Hp. apply (stage_ok_frame f); [done|]. intros n q Hn Hq. destruct (Hp n Hn).
  assert (q <> p) by (destruct Hq; congruence). rewrite node_at_unname. rewrite decide_False by done.
  unfold unname. cbn. by rewrite lookup_delete_ne.
Qed.
Lemma stage_ok_create p nd f s : files_ok f -> stage_ok f s -> elsewhere p s -> stage_ok (create p nd f) s.
Proof.
  intros Hf H Hp. apply (stage_ok_frame f); [done|]. intros n q Hn Hq. destruct (Hp n Hn).
  assert (q <> p) by (destruct Hq; congruence). rewrite node_at_create by done. rewrite decide_False by done.
  unfold create. cbn. by rewrite lookup_insert_ne.
Qed.
Lemma stage_ok_publish n i f s : stage_ok f s -> elsewhere (PStaged n) s ->
  stage_ok {| names := <[PSocket := i]> (delete (PStaged n) (names f)); nodes := nodes f; fresh := fresh f |} s.
Proof.
  intros H Hp. apply (stage_ok_frame f); [done|]. intros n' q Hn Hq. destruct (Hp n' Hn).
  unfold node_at. cbn. rewrite lookup_insert_ne, lookup_delete_ne by (destruct Hq; congruence). done.
Qed.

Lemma stage_call_others s p mask fault nonce f f' r s2 : tree_ok f -> stage_ok f s ->
  stage_call s p mask fault nonce f = (f', r) -> stage_ok f s2 -> (forall n, nonce_of s2 = Some n -> nonce_of s <> Some n) ->
  stage_ok f' s2.
Proof.
  intros H [Hd Hs] E H2 Hne.
  assert (forall n, nonce_of s = Some n -> elsewhere (PStaging n) s2 /\ elsewhere (PStaged n) s2) as Helse.
  { intros n Hn. split; intros m Hm; apply Hne in Hm; split; congruence. }
  destruct s; stage_cases E; try done; try (apply stage_ok_mode; [done|]; by left);
    try (apply stage_ok_unname; [done|]; done || by apply Helse).
  - apply stage_ok_create; [apply H|done|]. intros m Hm. split; [|done]. intros [= <-].
    destruct (proj1 H2 _ Hm) as (nd & Hnd & _). apply node_at_names in Hnd as (j & Hj & _). congruence.
  - apply stage_ok_mode; [done|]. right. destruct (Hd _ eq_refl) as (nd & Hnd & Hk). by eapply resolve_directory.
  - apply stage_ok_create; [apply H|done|]. by apply Helse.
  - apply stage_ok_publish; [done|]. by apply Helse.
Qed.

Lemma stage_ok_staged_mode n i f : stage_ok f (ModeStaged n) -> resolve MAX_LINKS f (PStaged n) = Some i ->
  stage_ok (set_mode i 0x180 f) (Publish n).
Proof.
  intros [Hd Hs] Hr. destruct (stage_ok_mode i 0x180 f (ModeStaged n)) as [Hd' Hs']; [by split|by left|].
  split; [done|]. cbn [staged_ok] in *. intros nd Hnd. split; [by apply Hs'|]. rewrite node_at_mode in Hnd. case_decide as E.
  - apply fmap_Some in Hnd as (nd0 & _ & ->). done.
  - pose proof (Hs _ Hnd) as Hk. rewrite (resolve_plain _ _ _ _ Hnd) in Hr; [congruence|]. intros t Ht. by rewrite Ht in Hk.
Qed.

(** What a call makes true for the daemon that makes it. *)
Lemma stage_call_next s p mask fault nonce f f' s' : tree_ok f -> stage_ok f s ->
  stage_call s p mask fault nonce f = (f', inl s') -> s <> DropLock -> stage_ok f' s' /\
  (forall n, nonce_of s' = Some n -> nonce_of s = Some n \/ names f !! PStaging n = None).
Proof.
  intros H [Hd Hs] E Hl. destruct s; [..|done]; stage_cases E; cbn [nonce_of] in *;
    (split; [|by intros; simplify_eq; eauto]); try (split; [by intros|done]); try (by split).
  - split; cbn [nonce_of staged_ok].
    + intros m [= <-]. rewrite node_at_create by apply H. rewrite decide_True by done. eauto.
    + unfold create. cbn. rewrite lookup_insert_ne by done. by apply H.
  - apply (stage_ok_mode _ _ _ (BindStaged nonce0)); [by split|]. right.
    destruct (Hd _ eq_refl) as (nd & Hnd & Hk). by eapply resolve_directory.
  - split; cbn [nonce_of staged_ok].
    + intros m [= <-]. rewrite node_at_create by apply H. rewrite decide_False by done. by apply Hd.
    + intros nd. rewrite node_at_create by apply H. rewrite decide_True by done. by intros [= <-].
  - apply stage_ok_staged_mode; [by split|done].
  - split; [|done]. intros m [= <-]. unfold node_at. cbn. rewrite lookup_insert_ne, lookup_delete_ne by done. by apply Hd.
  - split; [|done]. intros m [= <-]. rewrite node_at_unname, decide_False by done. by apply Hd.
Qed.

Record private_ok (w : World) : Prop := {
  pv_tree : tree_ok (fs w);
  pv_stage p i s : phase_of w p = Some (Held i s) -> stage_ok (fs w) s;
  pv_nonces p q i j s s' n : phase_of w p = Some (Held i s) -> phase_of w q = Some (Held j s') ->
    nonce_of s = Some n -> nonce_of s' = Some n -> p = q
}.

(** A process takes a phase in which it stages nothing. *)
Lemma private_ok_set w w' p pr ph : private_ok w -> procs w !! p = Some pr ->
  fs w' = fs w -> procs w' = procs w ->
  match ph with Held _ s => nonce_of s = None /\ staged_ok (fs w) s | _ => True end -> private_ok (set_phase ph p w').
Proof.
  intros H Hp Hf Hpr Hph. assert (forall q, phase_of (set_phase ph p w') q = if decide (q = p) then Some ph else phase_of w q) as E.
  { intros q. rewrite (phase_of_set _ _ _ _ pr) by congruence. unfold phase_of. by rewrite Hpr. }
  split; cbn; rewrite ?Hf; [apply H|..].
  - intros q i s. rewrite E. case_decide; [|apply H]. intros [= ->]. destruct Hph as [Hn Hs]. split; [|done]. congruence.
  - intros q q' i j s s' n. rewrite !E. do 2 case_decide; subst; try done; [..|apply H]; intros; simplify_eq; destruct Hph; congruence.
Qed.

Lemma tree_ok_open mask i f f' : tree_ok f -> sys_open_lock mask f = Some (i, f') ->
  tree_ok f' /\ (forall s, stage_ok f s -> stage_ok f' s).
Proof.
  intros H E. unfold sys_open_lock in E. destruct (names f !! PLock); repeat case_match; simplify_eq; [done|].
  split; [by apply tree_ok_create|]. intros s Hs. apply stage_ok_create; [apply H|done|done].
Qed.

(** A daemon makes a call and moves to the phase that follows. *)
Lemma private_ok_call w p pr i s fault nonce mask f next ph : private_ok w -> procs w !! p = Some pr ->
  phase_of w p = Some (Held i s) -> stage_call s p mask fault nonce (fs w) = (f, next) ->
  (forall j s', ph = Held j s' -> next = inl s' /\ s <> DropLock) -> private_ok (set_phase ph p (set_fs f w)).
Proof.
  intros H Hp Hph E Hnext. pose proof (pv_stage _ H _ _ _ Hph) as Hs. pose proof (pv_tree _ H) as Ht.
  assert (forall q j s2, q <> p -> phase_of w q = Some (Held j s2) -> stage_ok f s2) as Hothers.
  { intros q j s2 Hq H2. eapply stage_call_others; eauto using pv_stage. intros n Hn Hn'. apply Hq. by eapply (pv_nonces _ H). }
  assert (forall j s' n q k s2, ph = Held j s' -> nonce_of s' = Some n -> q <> p ->
            phase_of w q = Some (Held k s2) -> nonce_of s2 <> Some n) as Hfresh.
  { intros j s' n q k s2 Hj Hn Hq H2 Hn2. destruct (Hnext _ _ Hj) as [-> Hdl].
    destruct (stage_call_next _ _ _ _ _ _ _ _ Ht Hs E Hdl) as [_ Hm]. destruct (Hm _ Hn) as [Hm'|Hm'].
    - apply Hq. by eapply (pv_nonces _ H).
    - destruct (proj1 (pv_stage _ H _ _ _ H2) _ Hn2) as (nd & Hnd & _). apply node_at_names in Hnd as (? & ? & _). congruence. }
  split; cbn; [by eapply stage_call_tree|..].
  - intros q j s2. rewrite (phase_of_set _ _ _ _ pr) by done. case_decide; [|by eauto]. intros [= Hj].
    destruct (Hnext _ _ Hj) as [-> Hdl]. by eapply stage_call_next.
  - intros q q' j j' s2 s2' n. rewrite !(phase_of_set _ _ _ _ pr) by done.
    do 2 case_decide; subst; [done|..|apply H]; intros; simplify_eq; exfalso; eapply Hfresh; eauto.
Qed.

Lemma proc_step_private p fault nonce w : private_ok w -> private_ok (proc_step p fault nonce w).
Proof.
  intros H. unfold proc_step. destruct (procs w !! p) as [pr|] eqn:Hp; [|done].
  assert (phase_of w p = Some (phase pr)) as Hph by (unfold phase_of; by rewrite Hp).
  destruct (phase pr) as [|i|i s|i o|o|] eqn:Eph; [..|done|done].
  - destruct (sys_open_lock _ _) as [[i f]|] eqn:Eo; [|by eapply private_ok_set].
    destruct fault; [by eapply private_ok_set|]. destruct (tree_ok_open _ _ _ _ (pv_tree _ H) Eo) as [Ht Hs].
    split; cbn; [done|..].
    + intros q j s. rewrite (phase_of_set _ _ _ _ pr) by done. case_decide; [done|]. intros Hq. by eapply Hs, pv_stage.
    + intros q q' j j' s s' n. rewrite !(phase_of_set _ _ _ _ pr) by done. do 2 case_decide; try done. apply H.
  - destruct fault; [by eapply private_ok_set|]. destruct (holders w !! i); by eapply private_ok_set.
  - destruct (stage_call _ _ _ _ _ _) as [f next] eqn:Es. eapply private_ok_call; eauto.
    intros j s' Hn. destruct (decide (s = DropLock)) as [->|Hs]; [done|]. destruct s, next; by simplify_eq.
  - by eapply private_ok_set.
Qed.

Lemma happen_private h w : private_ok w -> private_ok (happen h w).
Proof.
  intros H. destruct h as [p fault nonce|p|p|p mask]; cbn [happen]; [by apply proc_step_private|..].
  - destruct (phase <$> procs w !! p) as [ph|] eqn:Hph; [|done]. apply fmap_Some in Hph as (pr & Hp & ->).
    destruct (phase pr) as [| |i s| | |]; try done. destruct s; try done. by eapply private_ok_set.
  - destruct (phase <$> procs w !! p) as [ph|] eqn:Hph; [|done]. apply fmap_Some in Hph as (pr & Hp & ->).
    destruct (phase pr); try done; by eapply private_ok_set.
  - destruct (procs w !! p) eqn:Hp; [done|]. split; cbn; [apply H|..]; unfold phase_of; cbn.
    + intros q i s. rewrite fmap_Some. intros (pr & [[-> <-]|[_ Hq]]%lookup_insert_Some & E); [done|].
      eapply (pv_stage _ H q i). unfold phase_of. by rewrite Hq, E.
    + intros q q' i j s s' n. rewrite !fmap_Some.
      intros (pr & [[-> <-]|[_ Hq]]%lookup_insert_Some & E) (pr' & [[-> <-]|[_ Hq']]%lookup_insert_Some & E'); try done.
      apply (pv_nonces _ H q q' i j); unfold phase_of; by rewrite ?Hq, ?Hq', ?E, ?E'.
Qed.

Lemma history_private hs : forall w, private_ok w -> private_ok (history hs w).
Proof. induction hs as [|h hs IH]; intros w H; [done|]. by apply IH, happen_private. Qed.

Lemma boot_private f : tree_ok f -> private_ok (boot f).
Proof. intros Hf. split; [done|..]; unfold phase_of; cbn; intros *; by rewrite lookup_empty. Qed.

(** ** A daemon can always be started again *)

Record kinds_ok (f : Fs) : Prop := {
  ki_lock nd : node_at f PLock = Some nd -> kind nd = Regular;
  ki_socket nd : node_at f PSocket = Some nd -> is_socket (kind nd) = true;
  ki_staged n nd : node_at f (PStaged n) = Some nd -> is_socket (kind nd) = true
}.

Lemma kinds_ok_mode i m f : kinds_ok f -> kinds_ok (set_mode i m f).
Proof.
  intros H. split; intros *; rewrite node_at_mode; case_decide; try apply H; intros (nd0 & Hnd & ->)%fmap_Some; by eapply H in Hnd.
Qed.
Lemma kinds_ok_create p nd f : kinds_ok f -> files_ok f ->
  match p with PLock => kind nd = Regular | PSocket | PStaged _ => is_socket (kind nd) = true | _ => True end ->
  kinds_ok (create p nd f).
Proof.
  intros H Hf Hp. split; intros *; rewrite node_at_create by done; case_decide; subst; try apply H; by intros [= <-].
Qed.
Lemma kinds_ok_unname p f : kinds_ok f -> kinds_ok (unname p f).
Proof. intros H. split; intros *; rewrite node_at_unname; case_decide; try done; apply H. Qed.
Lemma kinds_ok_publish n i f : kinds_ok f -> names f !! PStaged n = Some i ->
  kinds_ok {| names := <[PSocket := i]> (delete (PStaged n) (names f)); nodes := nodes f; fresh := fresh f |}.
Proof.
  intros H Hi. split; unfold node_at; cbn.
  - intros nd. rewrite lookup_insert_ne, lookup_delete_ne by done. apply H.
  - intros nd. rewrite lookup_insert_eq. cbn. intros Hnd. apply (ki_staged _ H n). unfold node_at. by rewrite Hi.
  - intros m nd. rewrite lookup_insert_ne by done. destruct (decide (m = n)) as [->|]; [by rewrite lookup_delete_eq|].
    rewrite lookup_delete_ne by congruence. apply H.
Qed.
Lemma stage_call_kinds s p mask fault nonce f f' r :
  kinds_ok f -> files_ok f -> stage_call s p mask fault nonce f = (f', r) -> kinds_ok f'.
Proof.
  intros H Hf E. destruct s; stage_cases E;
    first [done|by apply kinds_ok_mode|by apply kinds_ok_create|by apply kinds_ok_unname|by apply kinds_ok_publish].
Qed.

(** Every lock belongs to a process that is still there. *)
Definition owned (w : World) : Prop := forall i p, holders w !! i = Some p ->
  exists s o, phase_of w p = Some (Held i s) \/ phase_of w p = Some (Releasing i o).

Lemma owned_keep w w' p pr ph : owned w -> procs w !! p = Some pr -> holders w' = holders w -> procs w' = procs w ->
  (forall i, (exists s, phase_of w p = Some (Held i s)) \/ (exists o, phase_of w p = Some (Releasing i o)) ->
     (exists s, ph = Held i s) \/ exists o, ph = Releasing i o) -> owned (set_phase ph p w').
Proof.
  intros H Hp Hh Hpr Hph i q. cbn. rewrite Hh. intros Hi. destruct (H _ _ Hi) as (s & o & Hq).
  rewrite (phase_of_set _ _ _ _ pr) by congruence. case_decide; subst.
  - destruct (Hph i) as [[s' ->]|[o' ->]]; [destruct Hq; eauto|exists s', o; by left|exists s, o'; by right].
  - exists s, o. unfold phase_of in *. by rewrite Hpr.
Qed.
Lemma owned_release w p pr ph i : owned w -> procs w !! p = Some pr ->
  (exists s, phase_of w p = Some (Held i s)) \/ (exists o, phase_of w p = Some (Releasing i o)) ->
  owned (set_phase ph p (set_holder (delete i (holders w)) w)).
Proof.
  intros H Hp Hph j q. cbn. intros [Hij Hj]%lookup_delete_Some. destruct (H _ _ Hj) as (s & o & Hq).
  rewrite (phase_of_set _ _ _ _ pr) by done. case_decide; [|by exists s, o]. subst.
  destruct Hph as [[? E]|[? E]], Hq; congruence.
Qed.

Definition live_ok (w : World) : Prop := files_ok (fs w) /\ kinds_ok (fs w) /\ owned w.

Lemma proc_step_live p fault nonce w : live_ok w -> live_ok (proc_step p fault nonce w).
Proof.
  intros (Hf & Hk & Ho). unfold proc_step. destruct (procs w !! p) as [pr|] eqn:Hp; [|by split_and!].
  assert (phase_of w p = Some (phase pr)) as Hph by (unfold phase_of; by rewrite Hp).
  destruct (phase pr) as [|i|i s|i o|o|] eqn:Eph; [..|by split_and!|by split_and!].
  - assert (forall ph w', holders w' = holders w -> procs w' = procs w -> owned (set_phase ph p w')) as Hset.
    { intros ph w' ? ?. eapply owned_keep; eauto. intros i. rewrite Hph. naive_solver. }
    destruct (sys_open_lock _ _) as [[i f]|] eqn:Eo; [|by split_and!; [| |apply Hset]].
    destruct fault; [by split_and!; [| |apply Hset]|]. unfold sys_open_lock in Eo.
    destruct (names (fs w) !! PLock); repeat case_match; simplify_eq; (split_and!; cbn; [..|by apply Hset]); try done.
    + by apply files_ok_create.
    + by apply kinds_ok_create.
  - assert (forall ph w', holders w' = holders w -> procs w' = procs w -> owned (set_phase ph p w')) as Hset.
    { intros ph w' ? ?. eapply owned_keep; eauto. intros j. rewrite Hph. naive_solver. }
    destruct fault; [by split_and!; [| |apply Hset]|]. destruct (holders w !! i) eqn:Ei; [by split_and!; [| |apply Hset]|].
    split_and!; cbn; [done|done|]. intros j q. cbn. rewrite (phase_of_set _ _ _ _ pr) by done.
    intros [[<- <-]|[Hij Hj]]%lookup_insert_Some.
    + rewrite decide_True by done. exists ModeLock, None. by left.
    + destruct (Ho _ _ Hj) as (s & o & Hq). case_decide; [|eauto]. subst. rewrite Hph in Hq. naive_solver.
  - destruct (stage_call _ _ _ _ _ _) as [f next] eqn:Es.
    destruct (stage_call_files _ _ _ _ _ _ _ _ Hf Es) as [Hf' _]. split_and!; cbn; [done|by eapply stage_call_kinds|].
    eapply owned_keep; eauto. intros j. rewrite Hph. intros [[s' [= <- <-]]|[o E]]; [|done].
    destruct s, next; eauto.
  - split_and!; cbn; [done|done|]. eapply owned_release; eauto.
Qed.

Lemma happen_live h w : live_ok w -> live_ok (happen h w).
Proof.
  intros H. pose proof H as (Hf & Hk & Ho). destruct h as [p fault nonce|p|p|p mask]; cbn [happen]; [by apply proc_step_live|..].
  - destruct (phase <$> procs w !! p) as [ph|] eqn:Hph; [|done]. pose proof Hph as (pr & Hp & _)%fmap_Some.
    destruct ph as [| |i s| | |]; try done. destruct s; try done. split_and!; [done|done|].
    eapply owned_keep; eauto. intros j. unfold phase_of. rewrite Hph. naive_solver.
  - destruct (phase <$> procs w !! p) as [ph|] eqn:Hph; [|done]. pose proof Hph as (pr & Hp & _)%fmap_Some.
    destruct ph; try done; (split_and!; [done|done|]);
      try (eapply owned_release; eauto; unfold phase_of; rewrite Hph; eauto; fail);
      eapply owned_keep; eauto; intros j; unfold phase_of; rewrite Hph; naive_solver.
  - destruct (procs w !! p) eqn:Hp; [done|]. split_and!; [done|done|]. intros i q Hi. destruct (Ho _ _ Hi) as (s & o & Hq).
    exists s, o. unfold phase_of in *. cbn. rewrite lookup_insert_ne; [done|]. intros <-. rewrite Hp in Hq. naive_solver.
Qed.

Lemma history_live hs : forall w, live_ok w -> live_ok (history hs w).
Proof. induction hs as [|h hs IH]; intros w H; [done|]. by apply IH, happen_live. Qed.

(** A daemon that holds lock [i] stands before the call [s] with the files [f]. *)
Definition stands (w : World) (p mask i : Z) (s : Stage) (f : Fs) : Prop :=
  procs w !! p = Some {| umask := mask; phase := Held i s |} /\ fs w = f /\ holders w !! i = Some p.

Lemma stands_call p mask i s s' f f' nonce w : stands w p mask i s f ->
  stage_call s p mask false nonce f = (f', inl s') -> s <> DropLock ->
  stands (happen (Calls p false nonce) w) p mask i s' f'.
Proof.
  intros (Hp & <- & Hh) E Hs. cbn [happen]. unfold proc_step. rewrite Hp. cbn [phase umask]. rewrite E.
  split_and!; [|done|done]. cbn. rewrite lookup_alter_eq, Hp. cbn. by destruct s.
Qed.

Lemma chmod_named p m f nd i : node_at f p = Some nd -> (forall t, kind nd <> Symlink t) -> names f !! p = Some i ->
  sys_chmod p m f = Some (set_mode i m f).
Proof. intros Hn Hk Hi. unfold sys_chmod. by rewrite (resolve_plain _ _ _ _ Hn Hk), Hi. Qed.

(** The name of the socket is free: it is published in seven calls. *)
Lemma publishes w p mask i f n : stands w p mask i MakeStaging f -> files_ok f ->
  names f !! PSocket = None -> names f !! PStaging n = None -> names f !! PStaged n = None ->
  exists f', stands (history (repeat (Calls p false n) 7) w) p mask i Serving f' /\
    node_at f' PSocket = Some {| kind := SocketNode p; mode := 0x180 |} /\ names f' !! PStaging n = None.
Proof.
  intros Hw Hf Hsock Hdir Hstaged. set (d := fresh f).
  set (f1 := create (PStaging n) {| kind := Directory; mode := masked 0x1c0 mask |} f).
  set (f2 := set_mode d 0x1c0 f1).
  set (f3 := create (PStaged n) {| kind := SocketNode p; mode := masked 0x1ff mask |} f2).
  set (f4 := set_mode (d + 1) 0x180 f3).
  set (f5 := {| names := <[PSocket := d + 1]> (delete (PStaged n) (names f4)); nodes := nodes f4; fresh := fresh f4 |}).
  assert (files_ok f1) as Hf1 by by apply files_ok_create. assert (files_ok f2) as Hf2 by by apply files_ok_mode.
  assert (node_at f1 (PStaging n) = Some {| kind := Directory; mode := masked 0x1c0 mask |}) as Hd1
    by (unfold f1; rewrite node_at_create, decide_True by done; done).
  assert (names f2 !! PStaging n = Some d) as Hn2 by apply lookup_insert_eq.
  assert (node_at f2 (PStaging n) = Some {| kind := Directory; mode := 0x1c0 |}) as Hd2.
  { unfold f2. rewrite node_at_mode, Hd1, decide_True by apply lookup_insert_eq. done. }
  assert (node_at f3 (PStaged n) = Some {| kind := SocketNode p; mode := masked 0x1ff mask |}) as Hs3
    by (unfold f3; rewrite node_at_create, decide_True by done; done).
  assert (names f4 !! PStaged n = Some (d + 1)) as Hs4 by apply lookup_insert_eq.
  assert (nodes f4 !! (d + 1) = Some {| kind := SocketNode p; mode := 0x180 |}) as Hn4
    by (unfold f4, f3; cbn; rewrite lookup_alter_eq, lookup_insert_eq; done).
  assert (node_at f4 PSocket = None) as Hk4.
  { unfold node_at, f4, f3, f2, f1. cbn. rewrite !lookup_insert_ne by done. by rewrite Hsock. }
  assert (node_at f5 (PStaged n) = None /\ names f5 !! PStaged n = None) as [Hs5 Hs5'].
  { unfold node_at, f5. cbn. by rewrite lookup_insert_ne, lookup_delete_eq by done. }
  assert (node_at f5 (PStaging n) = Some {| kind := Directory; mode := 0x1c0 |}) as Hd5.
  { unfold f5. unfold node_at. cbn [names nodes]. rewrite lookup_insert_ne, lookup_delete_ne by done.
    change (node_at f4 (PStaging n) = Some {| kind := Directory; mode := 0x1c0 |}). unfold f4. rewrite node_at_mode.
    assert (names f3 !! PStaging n = Some d) as -> by (unfold f3; cbn; by rewrite lookup_insert_ne).
    rewrite decide_False by (intros [= ?]; lia). unfold f3. rewrite node_at_create, decide_False by done. done. }
  assert (stage_call MakeStaging p mask false n f = (f1, inl (ModeStaging n))) as E1
    by (cbn [stage_call]; unfold sys_mkdir; by rewrite Hdir).
  assert (stage_call (ModeStaging n) p mask false n f1 = (f2, inl (BindStaged n))) as E2
    by (cbn [stage_call]; by rewrite (chmod_named _ _ _ _ d Hd1) by (done || apply lookup_insert_eq)).
  assert (stage_call (BindStaged n) p mask false n f2 = (f3, inl (ModeStaged n))) as E3.
  { cbn [stage_call]. unfold sys_bind. rewrite Hd2. cbn [kind is_directory].
    assert (names f2 !! PStaged n = None) as -> by (cbn; by rewrite lookup_insert_ne). done. }
  assert (stage_call (ModeStaged n) p mask false n f3 = (f4, inl (Publish n))) as E4
    by (cbn [stage_call]; by rewrite (chmod_named _ _ _ _ (d + 1) Hs3) by (done || apply lookup_insert_eq)).
  assert (stage_call (Publish n) p mask false n f4 = (f5, inl (CleanSocket n true))) as E5
    by (cbn [stage_call]; unfold sys_publish; by rewrite Hs4, Hk4).
  assert (stage_call (CleanSocket n true) p mask false n f5 = (f5, inl (CleanStaging n true))) as E6
    by (cbn [stage_call]; unfold sys_unlink; by rewrite Hs5).
  assert (stage_call (CleanStaging n true) p mask false n f5 = (unname (PStaging n) f5, inl Serving)) as E7
    by (cbn [stage_call]; unfold sys_rmdir; by rewrite Hd5, Hs5').
  exists (unname (PStaging n) f5). split_and!.
  - cbn [repeat history foldl]. eauto 10 using stands_call.
  - rewrite node_at_unname, decide_False by done. unfold node_at, f5. cbn [names nodes]. by rewrite lookup_insert_eq.
  - apply lookup_delete_eq.
Qed.

Lemma history_app a b w : history (a ++ b) w = history b (history a w).
Proof. apply foldl_app. Qed.

Lemma history_cons h l w : history (h :: l) w = history l (happen h w).
Proof. done. Qed.

Lemma serving_stays w p mask i f n k : stands w p mask i Serving f ->
  stands (history (repeat (Calls p false n) k) w) p mask i Serving f.
Proof. revert w. induction k as [|k IH]; intros w H; [done|]. apply IH. by eapply stands_call. Qed.

(** From the lock to the socket: a stale socket is removed first. *)
Lemma locked_serves w p mask i f n : stands w p mask i ModeLock f -> files_ok f -> kinds_ok f ->
  names f !! PLock = Some i -> names f !! PStaging n = None -> names f !! PStaged n = None ->
  exists f', stands (history (repeat (Calls p false n) 11) w) p mask i Serving f' /\
    node_at f' PSocket = Some {| kind := SocketNode p; mode := 0x180 |}.
Proof.
  intros Hw Hf Hk Hl Hdir Hstaged. destruct (proj1 Hf _ _ Hl) as [_ [nd Hnd]].
  assert (node_at f PLock = Some nd) as Hln by (unfold node_at; by rewrite Hl).
  pose proof (ki_lock _ Hk _ Hln) as Hreg. set (f1 := set_mode i 0x180 f).
  assert (files_ok f1) as Hf1 by by apply files_ok_mode. assert (kinds_ok f1) as Hk1 by by apply kinds_ok_mode.
  assert (stage_call ModeLock p mask false n f = (f1, inl TestSocket)) as E1
    by (cbn [stage_call]; by rewrite (chmod_named _ _ _ _ i Hln) by congruence).
  pose proof (stands_call _ _ _ _ _ _ _ _ _ Hw E1 ltac:(done)) as Hw1.
  destruct (node_at f1 PSocket) as [sd|] eqn:Es.
  - pose proof (ki_socket _ Hk1 _ Es) as Hs. pose proof Es as (j & Hj & _)%node_at_names.
    assert (stage_call TestSocket p mask false n f1 = (f1, inl ReadKind)) as E2.
    { cbn [stage_call negb andb]. unfold exists_path. rewrite (resolve_plain _ _ _ _ Es), Hj by (intros ? E; by rewrite E in Hs). done. }
    assert (stage_call ReadKind p mask false n f1 = (f1, inl RemoveStale)) as E3 by (cbn [stage_call]; by rewrite Es, Hs).
    assert (stage_call RemoveStale p mask false n f1 = (unname PSocket f1, inl MakeStaging)) as E4.
    { cbn [stage_call]. unfold sys_unlink. rewrite Es. by destruct (kind sd). }
    destruct (publishes (history (repeat (Calls p false n) 4) w) p mask i (unname PSocket f1) n) as (f' & H1 & H2 & _);
      [cbn [repeat history foldl]; eauto 10 using stands_call|by apply files_ok_unname|apply lookup_delete_eq| | |].
    1,2: unfold unname, f1; cbn; by rewrite lookup_delete_ne.
    exists f'. split; [|done]. rewrite (repeat_app _ 4 7), history_app. done.
  - assert (names f1 !! PSocket = None) as Hno.
    { destruct (names f1 !! PSocket) as [j|] eqn:Hj; [|done]. destruct (proj1 Hf1 _ _ Hj) as [_ [? Hx]].
      unfold node_at in Es. rewrite Hj in Es. change (nodes f1 !! j = None) in Es. congruence. }
    assert (stage_call TestSocket p mask false n f1 = (f1, inl MakeStaging)) as E2.
    { cbn [stage_call negb andb]. unfold exists_path, MAX_LINKS. cbn [resolve]. by rewrite Hno. }
    destruct (publishes (history (repeat (Calls p false n) 2) w) p mask i f1 n) as (f' & H1 & H2 & _);
      [cbn [repeat history foldl]; eauto 10 using stands_call|done..|].
    exists f'. split; [|done]. rewrite (repeat_app _ 9 2), history_app. apply serving_stays.
    by rewrite (repeat_app _ 2 7), history_app.
Qed.

Definition has_ended (ph : Phase) : bool := match ph with Exited _ | Killed => true | _ => false end.
Definition finished (w : World) : Prop := map_Forall (fun _ pr => has_ended (phase pr) = true) (procs w).

Lemma finished_unlocked w : owned w -> finished w -> holders w = ∅.
Proof.
  intros Ho Hw. apply map_empty. intros i. destruct (holders w !! i) as [p|] eqn:Hi; [|done].
  destruct (Ho _ _ Hi) as (s & o & Hp). unfold phase_of in Hp.
  destruct (procs w !! p) as [pr|] eqn:E; [|by destruct Hp]. apply Hw in E. cbn in Hp. destruct (phase pr); naive_solver.
Qed.

(** The same from the launch, when no lock is held. *)
Lemma locked_serves_start w p mask n : files_ok (fs w) -> kinds_ok (fs w) -> phase_of w p = None -> holders w = ∅ ->
  names (fs w) !! PStaging n = None -> names (fs w) !! PStaged n = None ->
  exists i f', stands (history (Launch p mask :: repeat (Calls p false n) 13) w) p mask i Serving f' /\
    node_at f' PSocket = Some {| kind := SocketNode p; mode := 0x180 |}.
Proof.
  intros Hf Hk Hp Hh Hdir Hstaged. unfold phase_of in Hp. apply fmap_None in Hp.
  assert (exists i f1, sys_open_lock mask (fs w) = Some (i, f1) /\ files_ok f1 /\ kinds_ok f1 /\ names f1 !! PLock = Some i /\
    names f1 !! PStaging n = None /\ names f1 !! PStaged n = None) as (i & f1 & Eo & Hf1 & Hk1 & Hl & Hd1 & Hs1).
  { unfold sys_open_lock. destruct (names (fs w) !! PLock) as [i|] eqn:E.
    - destruct (proj1 Hf _ _ E) as [_ [nd Hnd]]. rewrite Hnd. cbn.
      rewrite (ki_lock _ Hk nd) by (unfold node_at; by rewrite E). by exists i, (fs w).
    - eexists _, _. split; [done|]. split; [by apply files_ok_create|]. split; [by apply kinds_ok_create|].
      unfold create. cbn. by rewrite lookup_insert_eq, !lookup_insert_ne by done. }
  rewrite history_cons. cbn [happen]. rewrite Hp.
  set (w1 := {| fs := fs w; holders := holders w; procs := <[p := {| umask := mask; phase := Starting |}]> (procs w) |}).
  rewrite (repeat_app _ 2 11), history_app. destruct (locked_serves (history (repeat (Calls p false n) 2) w1) p mask i f1 n) as (f' & H); [|done..|by exists i, f'].
  assert (proc_step p false n w1 = set_phase (Opened i) p (set_fs f1 w1)) as E1.
  { unfold proc_step. cbn. rewrite lookup_insert_eq. cbn. by rewrite Eo. }
  cbn [repeat history foldl happen]. rewrite E1. unfold proc_step. cbn. rewrite lookup_alter_eq, lookup_insert_eq. cbn.
  rewrite Hh, lookup_empty. split_and!; cbn; [|done|apply lookup_insert_eq].
  rewrite lookup_alter_eq, lookup_alter_eq, lookup_insert_eq. done.
Qed.

(** ** Theorems *)

(** C12: However processes start, call, fail, stop and are killed, at most one of them holds the
    instance lock at a time, and with it the socket, provided that no daemon removes its
    lock file at the moment between another's opening it and locking it. *)
Theorem single_instance hs f p q i j s s' :
  files_ok f -> quiet_history hs (boot f) = true ->
  phase_of (history hs (boot f)) p = Some (Held i s) -> phase_of (history hs (boot f)) q = Some (Held j s') -> p = q.
Proof.
  intros Hf Hq Hp Hq'. pose proof (history_single hs _ (boot_single _ Hf) Hq) as H.
  destruct (so_held _ H _ _ _ Hp), (so_held _ H _ _ _ Hq'). congruence.
Qed.

(** The socket is never reachable with another mode than 0600: whatever the interleaving of
    any number of daemons, their umasks and the calls that fail, a socket under the socket's
    name is private. *)
Theorem socket_private hs f nd :
  tree_ok f -> node_at (fs (history hs (boot f))) PSocket = Some nd -> is_socket (kind nd) = true -> mode nd = 0x180.
Proof. intros Hf. apply to_socket, pv_tree, history_private, boot_private, Hf. Qed.

(** C35: When every earlier daemon has exited or was killed, at any point of its start or its
    end, a new one gets to serve: it takes the lock, removes a stale socket and publishes
    its own. *)
Theorem daemon_restarts hs f p mask nonce :
  tree_ok f -> kinds_ok f -> finished (history hs (boot f)) -> phase_of (history hs (boot f)) p = None ->
  names (fs (history hs (boot f))) !! PStaging nonce = None ->
  exists i, let w := history (Launch p mask :: repeat (Calls p false nonce) 13) (history hs (boot f)) in
    phase_of w p = Some (Held i Serving) /\ node_at (fs w) PSocket = Some {| kind := SocketNode p; mode := 0x180 |}.
Proof.
  intros Hf Hk Hfin Hp Hdir. destruct (history_live hs (boot f)) as (Hf' & Hk' & Ho).
  { split_and!; [apply Hf|done|]. intros i q. cbn. by rewrite lookup_empty. }
  pose proof (to_nested _ (pv_tree _ (history_private hs _ (boot_private _ Hf))) _ Hdir) as Hstaged.
  destruct (locked_serves_start (history hs (boot f)) p mask nonce) as (i & f' & (H1 & <- & _) & H2);
    [done..|by apply finished_unlocked|done|done|].
  exists i. cbv zeta. unfold phase_of. by rewrite H1.
Qed.

(** Three processes suffice for two daemons: one that has opened the lock file just before
    the last daemon removed it locks a file without a name, and serves beside the daemon
    that created the lock file anew, whose socket it removes. *)
Theorem two_daemons_race : exists hs i j,
  let w := history hs (boot {| names := ∅; nodes := ∅; fresh := 0 |}) in
  phase_of w 2 = Some (Held i Serving) /\ phase_of w 3 = Some (Held j Serving) /\ kind <$> node_at (fs w) PSocket = Some (SocketNode 2).
Proof.
  exists ([Launch 1 18] ++ repeat (Calls 1 false [x01]) 13 ++ [Launch 2 18; Calls 2 false [x02]; ShutDown 1] ++
          repeat (Calls 1 false []) 4 ++ [Launch 3 18] ++ repeat (Calls 3 false [x03]) 13 ++ repeat (Calls 2 false [x02]) 12), 0, 3.
  by vm_compute.
Qed.

(** ** Witnesses *)

Definition fresh_disk : Fs := {| names := ∅; nodes := ∅; fresh := 0 |}.
(** A daemon serves and is killed; the next one finds its socket; two more give up. *)
Definition eventful : list Happening :=
  [Launch 1 18] ++ repeat (Calls 1 false [x01]) 13 ++ [Kill 1; Launch 2 0] ++ repeat (Calls 2 false [x02]) 13 ++
  [Launch 3 0] ++ repeat (Calls 3 false [x03]) 2 ++ [Launch 4 0; Calls 4 true []].

Lemma fresh_disk_ok : tree_ok fresh_disk /\ kinds_ok fresh_disk.
Proof. split; split; try done; by split. Qed.

Lemma single_instance_witness :
  quiet_history eventful (boot fresh_disk) = true /\ phase_of (history eventful (boot fresh_disk)) 2 = Some (Held 0 Serving) /\
  2 = 2.
Proof.
  split; [by vm_compute|]. split; [by vm_compute|].
  apply (single_instance eventful fresh_disk 2 2 0 0 Serving Serving); [apply fresh_disk_ok|by vm_compute..].
Defined.

Lemma socket_private_witness :
  is_Some (node_at (fs (history eventful (boot fresh_disk))) PSocket) /\
  mode {| kind := SocketNode 2; mode := 0x180 |} = 0x180.
Proof.
  split; [by vm_compute; eexists|].
  apply (socket_private eventful fresh_disk {| kind := SocketNode 2; mode := 0x180 |}); [apply fresh_disk_ok|by vm_compute|done].
Defined.

Lemma daemon_restarts_witness :
  exists i, phase_of (history (Launch 5 18 :: repeat (Calls 5 false [x05]) 13) (history (eventful ++ [Kill 2]) (boot fresh_disk))) 5 = Some (Held i Serving).
Proof.
  destruct (daemon_restarts (eventful ++ [Kill 2]) fresh_disk 5 18 [x05]) as (i & H & _);
    [apply fresh_disk_ok|apply fresh_disk_ok| |by vm_compute|by vm_compute|by exists i].
  unfold finished. apply (bool_decide_unpack (map_Forall _ _)). by vm_compute.
Defined.
