(* ===== verification/HostedClient.v ===== *)
(** * The daemon's connection to the handle server ([omachatd/src/hosted_service.rs])

    The handshake with the pinned server, the session that correlates requests with
    replies, and the transport that reconnects. The socket is the messages still to arrive
    and the frames sent, with a plan of failing sends; a oneshot reply channel is a token,
    and what its receiver is told is logged. *)

From Stdlib Require Import Strings.Byte Ascii String.
From stdpp Require Import pretty.
From S2P Require Import Prelude RustStd BTree Libs Serde Concrete Event ValueMap Keys Account Hosted ServerAuth Storage Daemon Service Session.
Local Open Scope Z_scope.

Definition REQUEST_QUEUE : Z := 64.
Definition STABLE_SESSION : Z := from_secs 30.

(** Durations in nanoseconds *)
Record HostedTimeouts := {
  ht_connect : Z; ht_request : Z; ht_send : Z; initial_backoff : Z; max_backoff : Z; keepalive : Z
}.
Definition HostedTimeouts_default : HostedTimeouts := {|
  ht_connect := from_secs 20; ht_request := from_secs 20; ht_send := from_secs 25; initial_backoff := from_secs 1;
  max_backoff := from_secs 30; keepalive := from_secs 60 |}.

Abbreviation DeviceSigner := (bytes -> option bytes).

Record HostedServiceConfig := {
  hs_url : string;
  hs_pinned_server_public_key : bytes;
  hs_device_public_key : bytes;
  hs_display_name : option string;
  hs_timeouts : HostedTimeouts
}.
Record HostedAccount := {
  ha_account_id : string;
  ha_handle : option string;
  ha_display_name : option string;
  ha_new_account : bool
}.
Inductive HostedState := HConnecting | HConnected (a : HostedAccount) | HDisconnected (reason : string) | HStopped.
Inductive HostedEvent := EState (s : HostedState) | EServer (kind : string) (data : Value).
Inductive HostedError :=
| HEDisconnected | HETimeout | HEStopped | HEServer (e : ServerError) | HEProtocol (reason : string).

Definition HostedState_label (s : HostedState) : string :=
  match s with
  | HConnecting => "connecting" | HConnected _ => "connected" | HDisconnected _ => "disconnected" | HStopped => "stopped"
  end.
Definition HostedState_account (s : HostedState) : option HostedAccount :=
  match s with HConnected a => Some a | _ => None end.

(** [Display for HostedError] *)
Definition hosted_error_display (e : HostedError) : string :=
  match e with
  | HEDisconnected => "hosted server connection dropped"
  | HETimeout => "hosted server did not answer in time"
  | HEStopped => "hosted transport is stopped"
  | HEServer e => "hosted server refused: " ++ message e
  | HEProtocol reason => "hosted server protocol failure: " ++ reason
  end%string.

(** ** The socket *)

Inductive ClientFrame := CText (t : string) | CPong (payload : bytes) | CPing.

(** [None] is a transport error; when nothing is left the stream has ended. *)
Record ClientSocket := {
  cs_incoming : list (option Message);
  cs_sent : list ClientFrame;
  cs_faults : list bool
}.
Abbreviation HM A := (SE ClientSocket HostedError A).

Definition set_incoming (l : list (option Message)) (s : ClientSocket) : ClientSocket :=
  {| cs_incoming := l; cs_sent := cs_sent s; cs_faults := cs_faults s |}.

(** [socket.send(...).map_err(|_| HostedError::Disconnected)] *)
Definition client_send (f : ClientFrame) : HM unit := fun s =>
  match cs_faults s with
  | true :: rest => (Err HEDisconnected, {| cs_incoming := cs_incoming s; cs_sent := cs_sent s; cs_faults := rest |})
  | _ => (Ok tt, {| cs_incoming := cs_incoming s; cs_sent := cs_sent s ++ [f]; cs_faults := tail (cs_faults s) |})
  end.

(** [serde_json::from_value::<ServerError>] *)
Definition error_code_of_str (s : string) : option ErrorCode :=
  List.find (fun c => String.eqb (error_code_str c) s)
    [UnsupportedVersion; InvalidRequest; NotAuthenticated; AlreadyAuthenticated; InvalidSignature; CInvalidHandle;
     CHandleTaken; CHandleAlreadySet; InvalidName; CNostrPubkeyTaken; CReplayedProof; CNotFound; TooLarge; RateLimited;
     CStorage; Internal].
Definition de_server_error (v : Value) : option ServerError :=
  vs ← de_struct false ["code"; "message"]%string v;
  match vs with
  | [c; m] => c ← de_variant c; c ← error_code_of_str c; m ← de_string m; Some (mkServerError c m)
  | _ => None
  end.

Definition response_outcome (v : Value) : result HostedError Value :=
  match get_bool "ok" v with
  | Some true => Ok (default JNull (value_get "result" v))
  | Some false =>
      match de_server_error (default JNull (value_get "error" v)) with
      | Some e => Err (HEServer e)
      | None => Err (HEProtocol "server sent a malformed error")
      end
  | None => Err (HEProtocol "server response lacks an ok field")
  end.

Section Client.
Context {hex : Hex} {json : Json} {ed : Ed25519}.

(** [send_frame] *)
Definition send_json (frame : Value) : HM unit := client_send (CText (value_to_string frame)).

(** [expect_response]: a loop over the messages that arrive *)
Fixpoint expect_from (messages : list (option Message)) (rid : string) : HM Value :=
  match messages with
  | [] => let! _ := fun s => (Ok tt, set_incoming [] s) in se_ret (Err HEDisconnected)
  | m :: rest =>
      let! _ := fun s => (Ok tt, set_incoming rest s) in
      match m with
      | None | Some Close => se_ret (Err HEDisconnected)
      | Some (Text text) =>
          let! v := se_ret (ok_or (HEProtocol "server sent malformed JSON") (value_from_str text)) in
          if bool_decide (get_str "id" v = Some rid) then se_ret (response_outcome v)
          else se_ret (Err (HEProtocol "server answered out of order during the handshake"))
      | Some (Ping payload) => let! _ := client_send (CPong payload) in expect_from rest rid
      | Some Pong => expect_from rest rid
      | Some Binary => se_ret (Err (HEProtocol "server sent a binary frame"))
      end
  end.
Definition expect_response (rid : string) : HM Value := fun s => expect_from (cs_incoming s) rid s.

Definition decode_fixed (n : Z) (v : Value) (field : string) : result HostedError bytes :=
  let? encoded := ok_or (HEProtocol ("hello reply lacks " ++ field)) (get_str field v) in
  let? b := ok_or (HEProtocol ("hello reply field " ++ field ++ " is not hex")) (hex_decode encoded) in
  fail_if negb (zlen b =? n) with HEProtocol ("hello reply field " ++ field ++ " has the wrong length") ;;
  Ok b.

Definition opt_value (o : option string) : Value := match o with Some s => JString s | None => JNull end.

(** The frames of the handshake *)
Definition hello_frame (device_public_key : bytes) : Value :=
  JObject [("id", JString "hello"); ("method", JString "hello");
           ("params", JObject [("device_public_key", JString (hex_encode device_public_key));
                               ("maximum_version", JInt PROTOCOL_VERSION); ("minimum_version", JInt PROTOCOL_VERSION)]);
           ("version", JInt PROTOCOL_VERSION)]%string.
Definition authenticate_frame (signature : bytes) (display_name : option string) : Value :=
  JObject [("id", JString "authenticate"); ("method", JString "authenticate");
           ("params", JObject [("display_name", opt_value display_name); ("signature", JString (hex_encode signature))]);
           ("version", JInt PROTOCOL_VERSION)]%string.

(** The part of [handshake] between the hello reply and the device's signature *)
Definition check_hello (config : HostedServiceConfig) (hello : Value) : result HostedError (bytes * bytes) :=
  let? challenge := decode_fixed KEY_BYTES hello "challenge" in
  let? server_public_key := decode_fixed KEY_BYTES hello "server_public_key" in
  fail_if negb (bool_decide (server_public_key = hs_pinned_server_public_key config))
    with HEProtocol "server public key does not match the pinned key" ;;
  let? server_signature := decode_fixed SIGNATURE_BYTES hello "server_signature" in
  fail_if negb (ed25519_key_ok server_public_key) with HEProtocol "pinned key is not a valid Ed25519 key" ;;
  fail_if negb (ed25519_verify_strict server_public_key (hello_transcript challenge (hs_device_public_key config)) server_signature)
    with HEProtocol "server hello signature did not verify" ;;
  Ok (server_public_key, challenge).

Definition account_of (registered : Value) : result HostedError HostedAccount :=
  let? account_id := ok_or (HEProtocol "authenticate reply lacks account_id") (get_str "account_id" registered) in
  Ok {| ha_account_id := account_id; ha_handle := get_str "handle" registered;
        ha_display_name := get_str "display_name" registered; ha_new_account := default false (get_bool "new_account" registered) |}.

(** [handshake], on the socket [connect_async_with_config] opened *)
Definition handshake_on (config : HostedServiceConfig) (signer : DeviceSigner) : HM HostedAccount :=
  let! _ := send_json (hello_frame (hs_device_public_key config)) in
  let! hello := expect_response "hello" in
  let! keys := se_ret (check_hello config hello) in
  let transcript := auth_transcript keys.1 keys.2 (hs_device_public_key config) in
  let! device_signature := se_ret (ok_or HEStopped (signer transcript)) in
  let! _ := send_json (authenticate_frame device_signature (hs_display_name config)) in
  let! registered := expect_response "authenticate" in
  se_ret (account_of registered).

(** What opening a connection meets: the socket or the error of the connection attempt,
    and whether the time allowed for the handshake runs out first. *)
Record Dial := { dialed : result string ClientSocket; timed_out : bool }.

(** [connect] *)
Definition connect (config : HostedServiceConfig) (signer : DeviceSigner) (d : Dial)
  : result HostedError (ClientSocket * HostedAccount) :=
  let handshake :=
    let? socket := map_err (fun e => HEProtocol ("connect failed: " +:+ e)) (dialed d) in
    match handshake_on config signer socket with
    | (Ok account, socket) => Ok (socket, account)
    | (Err e, _) => Err e
    end in
  if timed_out d then Err HETimeout else handshake.

(** ** The session *)

Record HostedRequest := { hr_method : string; hr_params : Value; hr_reply : nat }.

Record HostedSession := {
  ss_socket : ClientSocket;
  ss_pending : gmap string nat;
  ss_next_id : Z;
  (** what each reply channel was told, and the events passed on *)
  ss_answers : list (nat * result HostedError Value);
  ss_events : list HostedEvent
}.

(** What the [select!] of [session] finds: [events_open] says whether the daemon still
    consumes events; a failing [next] carries its error text. *)
Inductive Next := NextEnd | NextError (e : string) | NextMessage (m : Message).
Inductive SessionInput :=
| IStop
| IRequest (request : option HostedRequest)
| INext (n : Next) (events_open : bool)
| IKeepalive.

Definition request_frame (rid : string) (r : HostedRequest) : Value :=
  let frame := JObject [("id", JString rid); ("method", JString (hr_method r)); ("version", JInt PROTOCOL_VERSION)]%string in
  match hr_params r with JNull => frame | params => value_set "params" params frame end.

Definition with_socket (k : ClientSocket) (s : HostedSession) : HostedSession := {|
  ss_socket := k; ss_pending := ss_pending s; ss_next_id := ss_next_id s; ss_answers := ss_answers s; ss_events := ss_events s |}.
Definition tell (reply : nat) (r : result HostedError Value) (s : HostedSession) : HostedSession := {|
  ss_socket := ss_socket s; ss_pending := ss_pending s; ss_next_id := ss_next_id s; ss_answers := ss_answers s ++ [(reply, r)];
  ss_events := ss_events s |}.
Definition with_pending (p : gmap string nat) (s : HostedSession) : HostedSession := {|
  ss_socket := ss_socket s; ss_pending := p; ss_next_id := ss_next_id s; ss_answers := ss_answers s; ss_events := ss_events s |}.
Definition add_event (e : HostedEvent) (s : HostedSession) : HostedSession := {|
  ss_socket := ss_socket s; ss_pending := ss_pending s; ss_next_id := ss_next_id s; ss_answers := ss_answers s;
  ss_events := ss_events s ++ [e] |}.
Definition bump_id (s : HostedSession) : HostedSession := {|
  ss_socket := ss_socket s; ss_pending := ss_pending s; ss_next_id := ss_next_id s + 1; ss_answers := ss_answers s;
  ss_events := ss_events s |}.

(** A send on the session's socket *)
Definition session_send (f : ClientFrame) (s : HostedSession) : bool * HostedSession :=
  let '(r, k) := client_send f (ss_socket s) in (is_ok r, with_socket k s).

Definition take_text (text : string) (events_open : bool) (s : HostedSession) : option string * HostedSession :=
  match value_from_str text with
  | None => (Some "server sent malformed JSON"%string, s)
  | Some v =>
      match get_str "event" v with
      | Some kind =>
          if events_open then (None, add_event (EServer kind (default JNull (value_get "data" v))) s)
          else (Some "daemon stopped consuming events"%string, s)
      | None =>
          match get_str "id" v with
          | Some rid =>
              match ss_pending s !! rid with
              | Some reply => (None, tell reply (response_outcome v) (with_pending (delete rid (ss_pending s)) s))
              | None => (None, s)
              end
          | None => (Some "server sent an uncorrelated frame"%string, s)
          end
      end
  end.

(** One turn of the loop of [session]; [Some reason] leaves it. *)
Definition session_turn (i : SessionInput) (s : HostedSession) : option string * HostedSession :=
  match i with
  | IStop => (Some "stopped"%string, s)
  | IRequest None => (Some "daemon closed the transport"%string, s)
  | IRequest (Some r) =>
      let rid := show (ss_next_id s) in
      let '(sent, s) := session_send (CText (value_to_string (request_frame rid r))) (bump_id s) in
      if sent then (None, with_pending (<[rid := hr_reply r]> (ss_pending s)) s)
      else (Some "send failed"%string, tell (hr_reply r) (Err HEDisconnected) s)
  | INext NextEnd _ | INext (NextMessage Close) _ => (Some "server closed the connection"%string, s)
  | INext (NextError e) _ => (Some ("connection failed: " +:+ e)%string, s)
  | INext (NextMessage (Text text)) events_open => take_text text events_open s
  | INext (NextMessage (Ping payload)) _ =>
      let '(sent, s) := session_send (CPong payload) s in (if sent then None else Some "pong failed"%string, s)
  | INext (NextMessage Pong) _ => (None, s)
  | INext (NextMessage Binary) _ => (Some "server sent a binary frame"%string, s)
  | IKeepalive =>
      let '(sent, s) := session_send CPing s in (if sent then None else Some "keepalive failed"%string, s)
  end.

Definition session_new (k : ClientSocket) : HostedSession := {|
  ss_socket := k; ss_pending := ∅; ss_next_id := 1; ss_answers := []; ss_events := [] |}.

(** [drop(pending)]: the receiver of a dropped channel reports a lost connection. *)
Definition drop_pending (s : HostedSession) : HostedSession :=
  with_pending ∅ (fold_left (fun s p => tell p.2 (Err HEDisconnected) s) (map_to_list (ss_pending s)) s).

(** [session]: [None] while the loop goes on *)
Fixpoint session (inputs : list SessionInput) (s : HostedSession) : option string * HostedSession :=
  match inputs with
  | [] => (None, s)
  | i :: inputs =>
      match session_turn i s with
      | (None, s) => session inputs s
      | (Some reason, s) => (Some reason, drop_pending s)
      end
  end.
(** ** The transport *)

(** While the transport waits before the next attempt *)
Inductive WaitInput := WStop | WRequest (reply : option nat).

(** One turn of the loop of [run]: where the stop signal is seen, what dialing meets, what
    the session finds, how long connecting and the session took, and the wait. *)
Record Attempt := {
  stop_first : bool;
  stop_connecting : bool;
  dial : Dial;
  traffic : list SessionInput;
  stop_after : bool;
  elapsed : Z;
  waiting : list WaitInput
}.

Record Transport := {
  backoff : Z;
  published_states : list HostedState;
  waits : list Z;
  answered : list (nat * result HostedError Value)
}.
Definition Transport_new (config : HostedServiceConfig) : Transport := {|
  backoff := initial_backoff (hs_timeouts config); published_states := []; waits := []; answered := [] |}.

Definition publish_state (v : HostedState) (t : Transport) : Transport := {|
  backoff := backoff t; published_states := published_states t ++ [v]; waits := waits t; answered := answered t |}.
Definition set_backoff (b : Z) (t : Transport) : Transport := {|
  backoff := b; published_states := published_states t; waits := waits t; answered := answered t |}.
Definition add_answers (l : list (nat * result HostedError Value)) (t : Transport) : Transport := {|
  backoff := backoff t; published_states := published_states t; waits := waits t; answered := answered t ++ l |}.
Definition add_wait (d : Z) (t : Transport) : Transport := {|
  backoff := backoff t; published_states := published_states t; waits := waits t ++ [d]; answered := answered t |}.

Inductive Turned := TStopped | TAgain | TConnectedStill.

(** The inner loop of the wait: [true] leaves the transport. *)
Fixpoint wait_loop (inputs : list WaitInput) (t : Transport) : bool * Transport :=
  match inputs with
  | [] => (false, t)
  | WStop :: _ | WRequest None :: _ => (true, t)
  | WRequest (Some reply) :: inputs => wait_loop inputs (add_answers [(reply, Err HEDisconnected)] t)
  end.

Definition wait_before_retry (config : HostedServiceConfig) (inputs : list WaitInput) (t : Transport) : Turned * Transport :=
  let t := add_wait (backoff t) t in
  let t := set_backoff (Z.min (backoff t * 2) (max_backoff (hs_timeouts config))) t in
  let '(stop, t) := wait_loop inputs t in
  (if stop then TStopped else TAgain, t).

Definition transport_turn (config : HostedServiceConfig) (signer : DeviceSigner) (a : Attempt) (t : Transport)
  : Turned * Transport :=
  if stop_first a then (TStopped, t) else
  let t := publish_state HConnecting t in
  if stop_connecting a then (TStopped, t) else
  match connect config signer (dial a) with
  | Ok (socket, account) =>
      let t := publish_state (HConnected account) t in
      match session (traffic a) (session_new socket) with
      | (None, s) => (TConnectedStill, add_answers (ss_answers s) t)
      | (Some reason, s) =>
          let t := add_answers (ss_answers s) t in
          if stop_after a then (TStopped, t) else
          let t := publish_state (HDisconnected reason) t in
          let t := if STABLE_SESSION <=? elapsed a then set_backoff (initial_backoff (hs_timeouts config)) t else t in
          wait_before_retry config (waiting a) t
      end
  | Err HEStopped => (TStopped, t)
  | Err e => wait_before_retry config (waiting a) (publish_state (HDisconnected (hosted_error_display e)) t)
  end.

(** [run]: once stopped, the requests still queued are refused. *)
Fixpoint transport (config : HostedServiceConfig) (signer : DeviceSigner) (attempts : list Attempt) (queue : list nat)
  (t : Transport) : Turned * Transport :=
  match attempts with
  | [] => (TAgain, t)
  | a :: attempts =>
      match transport_turn config signer a t with
      | (TAgain, t) => transport config signer attempts queue t
      | (TConnectedStill, t) => (TConnectedStill, t)
      | (TStopped, t) => (TStopped, add_answers (map (fun reply => (reply, Err HEStopped)) queue) (publish_state HStopped t))
      end
  end.

(** [HostedHandle::call], given what becomes of the request *)
Inductive Delivery := QueueClosed | Answered (r : result HostedError Value) | ReplyDropped | NoAnswerInTime.
Definition call_outcome (d : Delivery) : result HostedError Value :=
  match d with
  | QueueClosed => Err HEStopped
  | Answered r => r
  | ReplyDropped => Err HEDisconnected
  | NoAnswerInTime => Err HETimeout
  end.
End Client.

(** [HostedService::spawn]: only [wss], or [ws] to a numeric loopback address *)
Definition spawn_allowed {url : UrlLib} (config : HostedServiceConfig) : bool :=
  match url_parse (hs_url config) with
  | None => false
  | Some u =>
      let loopback :=
        (String.eqb (url_scheme u) "ws" && match url_host u with Some (HostIpv4 a) => is_loopback (V4 a) | _ => false end)
        || (String.eqb (url_scheme u) "ws" && match url_host u with Some (HostIpv6 a) => is_loopback (V6 a) | _ => false end) in
      String.eqb (url_scheme u) "wss" || loopback
  end.

(** ** Requests and replies *)

Section SessionFacts.
Context {hex : Hex} {json : Json} {ed : Ed25519}.

(** The reply channels of the requests made *)
Definition made (inputs : list SessionInput) : list nat :=
  omap (fun i => match i with IRequest (Some r) => Some (hr_reply r) | _ => None end) inputs.

Lemma made_app i1 i2 : made (i1 ++ i2) = made i1 ++ made i2.
Proof using Type. apply omap_app. Qed.

Lemma show_inj a b : show a = show b -> a = b.
Proof using Type. apply (inj pretty). Qed.

(** After the inputs [used], before the session ends: each channel was told something or
    waits under the number its request was sent with, and what it was told came with that
    number. *)
Record session_ok (used : list SessionInput) (s : HostedSession) : Prop := {
  so_partition : map fst (ss_answers s) ++ map snd (map_to_list (ss_pending s)) ≡ₚ made used;
  so_next : ss_next_id s = zlen (made used) + 1;
  so_pending rid k : ss_pending s !! rid = Some k ->
    exists i, made used !! i = Some k /\ rid = show (Z.of_nat i + 1);
  so_answers k r : (k, r) ∈ ss_answers s ->
    r = Err HEDisconnected \/
    exists i text open v, made used !! i = Some k /\ INext (NextMessage (Text text)) open ∈ used /\
      value_from_str text = Some v /\ get_str "id" v = Some (show (Z.of_nat i + 1)) /\ r = response_outcome v
}.

Lemma session_send_same f s b s' :
  session_send f s = (b, s') ->
  ss_pending s' = ss_pending s /\ ss_next_id s' = ss_next_id s /\ ss_answers s' = ss_answers s.
Proof using Type.
  unfold session_send. destruct (client_send f (ss_socket s)) as [r k]. intros [= <- <-]. done.
Qed.

(** An input that makes no request keeps what it does not touch. *)
Lemma session_ok_weaken used s i s' :
  session_ok used s -> made [i] = [] ->
  ss_pending s' = ss_pending s -> ss_next_id s' = ss_next_id s -> ss_answers s' = ss_answers s ->
  session_ok (used ++ [i]) s'.
Proof using Type.
  intros [H1 H2 H3 H4] Hi E1 E2 E3. split; rewrite ?E1, ?E2, ?E3, ?made_app, ?Hi, ?app_nil_r; try done.
  intros k r Hk. destruct (H4 k r Hk) as [->|(n & t & o & v & A & B & C)]; [by left|]. right.
  exists n, t, o, v. split; [done|]. split; [by apply elem_of_app; left | done].
Qed.

(** A request makes the next number, which no waiting channel has. *)
Lemma next_id_fresh used s : session_ok used s -> ss_pending s !! show (ss_next_id s) = None.
Proof using Type.
  intros [_ H2 H3 _]. destruct (ss_pending s !! show (ss_next_id s)) as [k|] eqn:E; [|done]. exfalso.
  apply H3 in E as (i & Hi & E). apply show_inj in E. apply lookup_lt_Some in Hi. unfold zlen in *. lia.
Qed.

Lemma session_ok_request used r s b s1 :
  session_ok used s -> session_send (CText (value_to_string (request_frame (show (ss_next_id s)) r))) (bump_id s) = (b, s1) ->
  session_ok (used ++ [IRequest (Some r)])
    (if b then with_pending (<[show (ss_next_id s) := hr_reply r]> (ss_pending s1)) s1
     else tell (hr_reply r) (Err HEDisconnected) s1).
Proof using Type.
  intros Hok Hs. pose proof (next_id_fresh used s Hok) as Hf. destruct Hok as [H1 H2 H3 H4].
  apply session_send_same in Hs as (E1 & E2 & E3). cbn [ss_pending ss_next_id ss_answers bump_id] in *.
  assert (made (used ++ [IRequest (Some r)]) = made used ++ [hr_reply r]) as Em by apply made_app.
  assert (forall i k, made used !! i = Some k -> (made used ++ [hr_reply r]) !! i = Some k) as Hl
    by (intros i k Hi; by apply lookup_app_l_Some).
  assert (forall k res, (k, res) ∈ ss_answers s -> res = Err HEDisconnected \/
    exists i text open v, (made used ++ [hr_reply r]) !! i = Some k /\
      INext (NextMessage (Text text)) open ∈ used ++ [IRequest (Some r)] /\
      value_from_str text = Some v /\ get_str "id" v = Some (show (Z.of_nat i + 1)) /\ res = response_outcome v) as Ha.
  { intros k res Hk. destruct (H4 k res Hk) as [->|(i & t & o & v & A & B & C)]; [by left|]. right. exists i, t, o, v.
    split; [auto|]. split; [by apply elem_of_app; left | done]. }
  destruct b; split; cbn [ss_pending ss_next_id ss_answers with_pending tell]; rewrite ?Em, ?E1, ?E2, ?E3.
  - rewrite map_to_list_insert by done. cbn [map snd]. rewrite <- H1, <- app_assoc.
    apply Permutation_app_head. by rewrite <- Permutation_cons_append.
  - rewrite zlen_app, H2. unfold zlen. cbn. lia.
  - intros rid k. destruct (decide (rid = show (ss_next_id s))) as [->|Hne].
    + rewrite lookup_insert_eq. intros [= <-]. exists (length (made used)).
      rewrite lookup_app_r, Nat.sub_diag by lia. split; [done|]. rewrite H2. done.
    + rewrite lookup_insert_ne by done. intros Hk. apply H3 in Hk as (i & Hi & ->). eauto.
  - exact Ha.
  - rewrite map_app. cbn [map fst]. rewrite <- H1, <- !app_assoc. apply Permutation_app_head.
    by rewrite Permutation_app_comm.
  - rewrite zlen_app, H2. unfold zlen. cbn. lia.
  - intros rid k Hk. apply H3 in Hk as (i & Hi & ->). eauto.
  - intros k res. rewrite elem_of_app. intros [Hk|Hk]; [by apply Ha|]. apply list_elem_of_singleton in Hk. injection Hk as -> ->. by left.
Qed.

Lemma session_ok_text used text open s o s' :
  session_ok used s -> take_text text open s = (o, s') -> session_ok (used ++ [INext (NextMessage (Text text)) open]) s'.
Proof using Type.
  intros Hok. unfold take_text.
  assert (forall s2, ss_pending s2 = ss_pending s -> ss_next_id s2 = ss_next_id s -> ss_answers s2 = ss_answers s ->
    session_ok (used ++ [INext (NextMessage (Text text)) open]) s2) as Hsame by (intros; by eapply session_ok_weaken).
  destruct (value_from_str text) as [v|] eqn:Ev; [|intros [= <- <-]; by apply Hsame].
  destruct (get_str "event" v); [destruct open; intros [= <- <-]; by apply Hsame|].
  destruct (get_str "id" v) as [rid|] eqn:Ei; [|intros [= <- <-]; by apply Hsame].
  destruct (ss_pending s !! rid) as [reply|] eqn:Ep; intros [= <- <-]; [|by apply Hsame].
  destruct Hok as [H1 H2 H3 H4]. assert (Hp := Ep). apply H3 in Hp as (i & Hi & ->).
  assert (made (used ++ [INext (NextMessage (Text text)) open]) = made used) as Em by (rewrite made_app; apply app_nil_r).
  split; cbn [ss_pending ss_next_id ss_answers with_pending tell]; rewrite ?Em; try done.
  - rewrite map_app. cbn [map fst]. rewrite <- H1, <- app_assoc. apply Permutation_app_head.
    rewrite <- (map_to_list_delete _ _ _ Ep). done.
  - intros rid k. rewrite lookup_delete_Some. intros [_ Hk]. by apply H3.
  - intros k r. rewrite elem_of_app. intros [Hk|Hk].
    + destruct (H4 k r Hk) as [->|(n & t & o & w & A & B & C)]; [by left|]. right. exists n, t, o, w.
      split; [done|]. split; [by apply elem_of_app; left | done].
    + apply list_elem_of_singleton in Hk. injection Hk as -> ->. right. exists i, text, open, v.
      split_and!; try done. apply elem_of_app. right. apply list_elem_of_here.
Qed.

Lemma session_turn_ok used i s o s' :
  session_ok used s -> session_turn i s = (o, s') -> session_ok (used ++ [i]) s'.
Proof using Type.
  intros Hok. assert (forall f b s1, session_send f s = (b, s1) -> made [i] = [] -> session_ok (used ++ [i]) s1) as Hsend.
  { intros f b s1 Hs Hi. apply session_send_same in Hs as (E1 & E2 & E3). by eapply session_ok_weaken. }
  destruct i as [|[r|]|n open|]; cbn [session_turn].
  - intros [= <- <-]. by eapply session_ok_weaken.
  - destruct (session_send _ (bump_id s)) as [b s1] eqn:E. pose proof (session_ok_request used r s b s1 Hok E) as H.
    destruct b; intros [= <- <-]; exact H.
  - intros [= <- <-]. by eapply session_ok_weaken.
  - destruct n as [|e|[text|payload| | |]]; try (intros [= <- <-]; by eapply session_ok_weaken).
    + intros H. by eapply session_ok_text.
    + destruct (session_send _ s) as [b s1] eqn:E. intros [= <- <-]. by eapply Hsend.
  - destruct (session_send _ s) as [b s1] eqn:E. intros [= <- <-]. by eapply Hsend.
Qed.

Lemma drop_pending_answers s :
  ss_answers (drop_pending s) = ss_answers s ++ map (fun k => (k, Err HEDisconnected)) (map snd (map_to_list (ss_pending s))).
Proof using Type.
  unfold drop_pending. cbn [ss_answers with_pending]. generalize (map_to_list (ss_pending s)). intros l. revert s.
  induction l as [|p l IH]; intros s; cbn [fold_left map]; [by rewrite app_nil_r|].
  rewrite IH. cbn [ss_answers tell]. by rewrite <- app_assoc.
Qed.

Lemma session_correlates inputs : forall used s reason s',
  session_ok used s -> session inputs s = (reason, s') ->
  exists done_inputs, done_inputs `prefix_of` inputs /\
    match reason with
    | None => session_ok (used ++ done_inputs) s' /\ done_inputs = inputs
    | Some _ => exists s1, session_ok (used ++ done_inputs) s1 /\ s' = drop_pending s1
    end.
Proof using Type.
  induction inputs as [|i inputs IH]; intros used s reason s' Hok; cbn [session].
  { intros [= <- <-]. exists []. by rewrite app_nil_r. }
  destruct (session_turn i s) as [[r|] s1] eqn:E1; pose proof (session_turn_ok used i s _ s1 Hok E1) as Hok1.
  - intros [= <- <-]. exists [i]. split; [by exists inputs|]. eauto.
  - intros H. destruct (IH _ _ _ _ Hok1 H) as (d & Hp & Hd). exists (i :: d). split; [by apply prefix_cons|].
    rewrite <- app_assoc in Hd. cbn [app] in Hd. destruct reason; [done|]. destruct Hd as [Hd ->]. done.
Qed.

Lemma session_new_ok k : session_ok [] (session_new k).
Proof using Type. split; cbn; [by rewrite map_to_list_empty | done | done |]. intros ? ? []%elem_of_nil. Qed.
End SessionFacts.

(** ** The handshake *)

Section HandshakeFacts.
Context {hex : Hex} {json : Json} {ed : Ed25519}.

(** What the handshake may send: the hello, answers to pings, and the device's signature
    over a challenge for which the pinned server has signed this device's hello. *)
Definition vouched_frame (config : HostedServiceConfig) (signer : DeviceSigner) (f : ClientFrame) : Prop :=
  (exists payload, f = CPong payload) \/
  f = CText (value_to_string (hello_frame (hs_device_public_key config))) \/
  exists challenge server_signature signature,
    f = CText (value_to_string (authenticate_frame signature (hs_display_name config))) /\
    zlen challenge = KEY_BYTES /\
    verify_hello_signature (hs_pinned_server_public_key config) challenge (hs_device_public_key config) server_signature = Ok tt /\
    signer (auth_transcript (hs_pinned_server_public_key config) challenge (hs_device_public_key config)) = Some signature.

(** [c] sends only frames in [P], whatever it returns. *)
Definition sends {A} (P : ClientFrame -> Prop) (c : HM A) : Prop :=
  forall s, exists frames, cs_sent (c s).2 = cs_sent s ++ frames /\ Forall P frames.

Lemma sends_ret {A} P (r : result HostedError A) : sends P (se_ret r).
Proof using Type. intros s. exists []. by rewrite app_nil_r. Qed.
Lemma sends_bind {A B} P (c : HM A) (k : A -> HM B) :
  sends P c -> (forall a, sends P (k a)) -> sends P (se_bind c k).
Proof using Type.
  intros Hc Hk s. unfold se_bind. destruct (Hc s) as (f1 & E1 & F1). destruct (c s) as [[a|e] s1]; [|by exists f1].
  destruct (Hk a s1) as (f2 & E2 & F2). exists (f1 ++ f2). cbn [snd] in E1. rewrite E2, E1, app_assoc.
  split; [done | by apply Forall_app].
Qed.
Lemma sends_bind_ret {A B} P (r : result HostedError A) (k : A -> HM B) :
  (forall a, r = Ok a -> sends P (k a)) -> sends P (se_bind (se_ret r) k).
Proof using Type. intros Hk s. unfold se_bind, se_ret. destruct r; [by apply Hk|]. exists []. by rewrite app_nil_r. Qed.
Lemma sends_send (P : ClientFrame -> Prop) f : P f -> sends P (client_send f).
Proof using Type.
  intros Hf s. unfold client_send. destruct (cs_faults s) as [|[]]; cbn; [exists [f]|exists []|exists [f]];
    rewrite ?app_nil_r; (split; [done|]); repeat constructor; done.
Qed.
Lemma sends_incoming P l : sends P (fun s => (Ok tt, set_incoming l s)).
Proof using Type. intros s. exists []. by rewrite app_nil_r. Qed.

Lemma sends_expect P rid : (forall p, P (CPong p)) -> sends P (expect_response rid).
Proof using Type.
  intros HP s. unfold expect_response. generalize (cs_incoming s) as l. intros l. revert s. change (sends P (expect_from l rid)).
  induction l as [|m l IH]; cbn [expect_from]; apply sends_bind; try apply sends_incoming; intros _; [apply sends_ret|].
  destruct m as [[text|p| | |]|]; try apply sends_ret; [| |exact IH].
  - apply sends_bind_ret. intros v _. destruct (bool_decide _); apply sends_ret.
  - apply sends_bind; [by apply sends_send | intros _; exact IH].
Qed.

Lemma decode_fixed_length n v field b : decode_fixed n v field = Ok b -> zlen b = n.
Proof using Type. unfold decode_fixed. intros H. inv_ok. by split_bools. Qed.

Lemma check_hello_ok config v keys :
  check_hello config v = Ok keys ->
  keys.1 = hs_pinned_server_public_key config /\ zlen keys.2 = KEY_BYTES /\
  exists server_signature,
    verify_hello_signature (hs_pinned_server_public_key config) keys.2 (hs_device_public_key config) server_signature = Ok tt.
Proof using Type.
  unfold check_hello. intros H. inv_ok. split_bools. subst. cbn [fst snd]. split; [done|].
  split; [by eapply decode_fixed_length|]. exists a1. unfold verify_hello_signature.
  repeat match goal with E : _ = true |- _ => rewrite E; clear E end. done.
Qed.

Lemma handshake_sends config signer : sends (vouched_frame config signer) (handshake_on config signer).
Proof using Type.
  unfold handshake_on.
  apply sends_bind; [apply sends_send; right; by left | intros _].
  apply sends_bind; [apply sends_expect; intros p; left; by exists p | intros hello].
  apply sends_bind_ret. intros keys Hk. apply check_hello_ok in Hk as (E1 & Hl & sig & Hv).
  apply sends_bind_ret. intros signature Hs. apply ok_or_ok_inv in Hs. rewrite E1 in Hs.
  apply sends_bind.
  { apply sends_send. right. right. by exists keys.2, sig, signature. }
  intros _. apply sends_bind; [apply sends_expect; intros p; left; by exists p | intros; apply sends_ret].
Qed.

Lemma client_send_ok f s s' : client_send f s = (Ok tt, s') -> cs_sent s' = cs_sent s ++ [f].
Proof using Type. unfold client_send. destruct (cs_faults s) as [|[]]; [|done|]; by intros [= <-]. Qed.

Lemma expect_keeps_sent rid s r s' f :
  expect_response rid s = (r, s') -> f ∈ cs_sent s -> f ∈ cs_sent s'.
Proof using Type.
  intros H Hf. destruct (sends_expect (fun _ => True) rid (fun _ => I) s) as (l & E & _). rewrite H in E.
  cbn [snd] in E. rewrite E. apply elem_of_app. by left.
Qed.

(** A completed handshake sent the signature. *)
Lemma handshake_signed config signer s a s' :
  handshake_on config signer s = (Ok a, s') ->
  exists challenge server_signature signature,
    CText (value_to_string (authenticate_frame signature (hs_display_name config))) ∈ cs_sent s' /\
    zlen challenge = KEY_BYTES /\
    verify_hello_signature (hs_pinned_server_public_key config) challenge (hs_device_public_key config) server_signature = Ok tt /\
    signer (auth_transcript (hs_pinned_server_public_key config) challenge (hs_device_public_key config)) = Some signature.
Proof using Type.
  unfold handshake_on. intros H. inv_ok.
  match goal with K : check_hello _ _ = Ok _ |- _ => apply check_hello_ok in K as (E1 & Hl & sig & Hv) end.
  match goal with E : signer _ = Some _ |- _ => rewrite E1 in E end.
  eexists _, sig, _. split; [|split; [exact Hl | split; [exact Hv | eassumption]]].
  match goal with X : expect_response "authenticate" _ = _ |- _ => eapply (expect_keeps_sent _ _ _ _ _ X) end.
  match goal with X : send_json (authenticate_frame _ _) _ = (Ok ?u, _) |- _ => destruct u; unfold send_json in X;
    apply client_send_ok in X; rewrite X end.
  apply elem_of_app. right. apply list_elem_of_here.
Qed.
End HandshakeFacts.

(** ** The transport *)

Section TransportFacts.
Context {hex : Hex} {json : Json} {ed : Ed25519}.
Context (config : HostedServiceConfig) (signer : DeviceSigner).
Abbreviation first_delay := (initial_backoff (hs_timeouts config)).
Abbreviation max_delay := (max_backoff (hs_timeouts config)).

(** Every published account was vouched for, and the delays stay within their bounds. *)
Definition transport_ok (t : Transport) : Prop :=
  Forall (fun v => match v with
    | HConnected a => exists d k, connect config signer d = Ok (k, a)
    | _ => True
    end) (published_states t) /\
  (Z.min first_delay max_delay <= backoff t <= Z.max first_delay max_delay) /\
  Forall (fun d => Z.min first_delay max_delay <= d <= Z.max first_delay max_delay) (waits t).

Lemma wait_loop_same l : forall t, backoff (wait_loop l t).2 = backoff t /\
  published_states (wait_loop l t).2 = published_states t /\ waits (wait_loop l t).2 = waits t.
Proof using Type. induction l as [|[|[k|]] l IH]; intros t; cbn [wait_loop]; try done. destruct (IH (add_answers [(k, Err HEDisconnected)] t)) as (-> & -> & ->). done. Qed.

Lemma wait_before_retry_ok l t : 0 <= first_delay -> 0 <= max_delay ->
  transport_ok t -> transport_ok (wait_before_retry config l t).2.
Proof using Type.
  intros H0 H1 (Hp & Hb & Hw). unfold wait_before_retry. cbv zeta.
  set (t1 := set_backoff _ _). destruct (wait_loop l t1) as [stop t2] eqn:E. cbn [snd].
  destruct (wait_loop_same l t1) as (E1 & E2 & E3). rewrite E in *. cbn [snd] in *.
  unfold transport_ok. rewrite E1, E2, E3. subst t1. cbn. split_and!; [done | lia | lia |].
  apply Forall_app. split; [done|]. constructor; [done | constructor].
Qed.

Lemma publish_state_ok v t : transport_ok t ->
  match v with HConnected a => exists d k, connect config signer d = Ok (k, a) | _ => True end ->
  transport_ok (publish_state v t).
Proof using Type.
  intros (Hp & Hb & Hw) Hv. refine (conj _ (conj Hb Hw)). cbn [published_states publish_state]. apply Forall_app.
  split; [done|]. constructor; [done | constructor].
Qed.

Lemma transport_turn_ok a t : 0 <= first_delay -> 0 <= max_delay ->
  transport_ok t -> transport_ok (transport_turn config signer a t).2.
Proof using Type.
  intros H0 H1 Ht. unfold transport_turn. destruct (stop_first a); [done|].
  pose proof (publish_state_ok HConnecting t Ht I) as Ht1. destruct (stop_connecting a); [done|].
  destruct (connect config signer (dial a)) as [[k account]|e] eqn:Ec.
  - pose proof (publish_state_ok (HConnected account) _ Ht1 (ex_intro _ (dial a) (ex_intro _ k Ec))) as Ht2.
    destruct (session (traffic a) (session_new k)) as [[reason|] s]; [|exact Ht2].
    destruct (stop_after a); [exact Ht2|]. apply wait_before_retry_ok; try done.
    assert (transport_ok (publish_state (HDisconnected reason) (add_answers (ss_answers s) (publish_state (HConnected account)
      (publish_state HConnecting t))))) as Ht3 by (apply publish_state_ok; [exact Ht2 | done]).
    destruct (STABLE_SESSION <=? elapsed a); [|exact Ht3]. destruct Ht3 as (Hp & Hb & Hw). split_and!; try done; cbn; lia.
  - destruct e; [| |exact Ht1| |]; apply wait_before_retry_ok; try done; by apply publish_state_ok.
Qed.

Lemma transport_run_ok attempts queue : 0 <= first_delay -> 0 <= max_delay -> forall t,
  transport_ok t -> transport_ok (transport config signer attempts queue t).2.
Proof using Type.
  intros H0 H1. induction attempts as [|a attempts IH]; intros t Ht; cbn [transport]; [done|].
  pose proof (transport_turn_ok a t H0 H1 Ht) as Ht1. destruct (transport_turn config signer a t) as [[| |] t1]; cbn [snd] in *.
  - exact (publish_state_ok HStopped t1 Ht1 I).
  - by apply IH.
  - done.
Qed.

Lemma connect_ok_inv d k a : connect config signer d = Ok (k, a) ->
  exists k0, handshake_on config signer k0 = (Ok a, k).
Proof using Type.
  unfold connect. destruct (timed_out d); [done|]. intros H. inv_ok.
  destruct (handshake_on config signer a0) as [[x|e] k1] eqn:E; [|done]. injection H as <- <-. eauto.
Qed.
End TransportFacts.

(** ** The two ends of a handshake *)

Section Agreement.
Context {hex : Hex} {json : Json} {schnorr : Schnorr} {bech : Bech32} {ed : Ed25519}.
Context {hex_laws : HexLaws} {json_laws : JsonLaws} {ed_laws : Ed25519Laws}.
Context (sconfig : ServiceConfig) (identity : ServerIdentity) (json_error : string -> string).

Lemma hello_frame_wf dev : json_wf (hello_frame dev) = true.
Proof using hex_laws. unfold hello_frame. cbn [json_wf forallb fst snd]. rewrite hex_utf8. reflexivity. Qed.
Lemma authenticate_frame_wf sig name :
  json_wf (opt_value name) = true -> json_wf (authenticate_frame sig name) = true.
Proof using hex_laws.
  intros Hn. unfold authenticate_frame. cbn [json_wf forallb fst snd]. rewrite hex_utf8, Hn. reflexivity.
Qed.

Lemma parse_hello dev :
  parse_request json_error (value_to_string (hello_frame dev))
  = Ok {| rq_version := PROTOCOL_VERSION; rq_id := "hello"; rq_command := Hello PROTOCOL_VERSION PROTOCOL_VERSION (hex_encode dev) |}.
Proof using hex_laws json_laws.
  unfold parse_request, value_to_string. rewrite as_bytes_of_bytes, json_roundtrip by apply hello_frame_wf. reflexivity.
Qed.
Lemma parse_authenticate sig name :
  json_wf (opt_value name) = true ->
  parse_request json_error (value_to_string (authenticate_frame sig name))
  = Ok {| rq_version := PROTOCOL_VERSION; rq_id := "authenticate"; rq_command := Authenticate (hex_encode sig) name |}.
Proof using hex_laws json_laws.
  intros Hn. unfold parse_request, value_to_string. rewrite as_bytes_of_bytes, json_roundtrip by (by apply authenticate_frame_wf).
  by destruct name.
Qed.

(** A text that parses, next on the server's socket *)
Lemma next_request_text text rest r s :
  incoming s = Some (Text text) :: rest -> parse_request json_error text = Ok r -> rq_version r = PROTOCOL_VERSION ->
  next_request json_error s = (Ok (Some (rq_id r, rq_command r)), count_request (with_incoming rest s)).
Proof using Type.
  intros Hi Hp Hv. unfold next_request. rewrite Hi. cbn [next_request_from]. unfold se_bind, modify. rewrite Hp, Hv. done.
Qed.

Lemma hosted_send_text_ok frame s :
  slen frame <= MAX_FRAME_BYTES -> send_faults s = [] ->
  send_text frame s = (Ok tt, {| incoming := incoming s; sent := sent s ++ [Frame frame]; send_faults := []; report := report s;
    shared := shared s; others := others s; challenges := challenges s |}).
Proof using Type. intros Hl Hf. unfold send_text. rewrite (proj2 (Z.ltb_ge _ _)) by done. unfold socket_send. by rewrite Hf. Qed.

(** A success frame, next on the client's socket *)
Lemma expect_success rid v rest sent faults :
  json_wf v = true -> value_sorted v = true -> utf8_valid rid = true ->
  expect_response rid {| cs_incoming := Some (Text (success_frame rid v)) :: rest; cs_sent := sent; cs_faults := faults |}
  = (Ok v, {| cs_incoming := rest; cs_sent := sent; cs_faults := faults |}).
Proof using json_laws.
  intros Hw Hs Hu. unfold expect_response. cbn [cs_incoming expect_from]. unfold se_bind, se_ret.
  unfold success_frame. fold (value_to_string (success_value rid v)).
  rewrite value_string_roundtrip.
  - cbn [ok_or]. rewrite bool_decide_true by done. done.
  - unfold success_value. cbn [json_wf forallb fst snd]. rewrite Hw, Hu. done.
  - unfold success_value. cbn [value_sorted forallb fst snd]. rewrite Hs. done.
Qed.

Lemma decode_fixed_hex n v field b :
  get_str field v = Some (hex_encode b) -> zlen b = n -> decode_fixed n v field = Ok b.
Proof using hex_laws.
  intros Hg Hl. unfold decode_fixed. rewrite Hg. cbn [ok_or rbind]. rewrite hex_decode_encode. cbn [ok_or rbind].
  by rewrite (proj2 (Z.eqb_eq _ _) Hl).
Qed.

Lemma decode_hex n b : zlen b = n -> (let? x := ok_or AInvalidEncoding (hex_decode (hex_encode b)) in
  fail_if negb (zlen x =? n) with AInvalidEncoding ;; Ok x) = Ok b.
Proof using hex_laws. intros Hl. rewrite hex_decode_encode. cbn. by rewrite (proj2 (Z.eqb_eq _ _) Hl). Qed.

Lemma hello_result_wf challenge dev :
  json_wf (hello_result identity challenge dev) = true /\ value_sorted (hello_result identity challenge dev) = true.
Proof using hex_laws. split; [|reflexivity]. unfold hello_result. cbn [json_wf forallb fst snd]. by rewrite !hex_utf8. Qed.

Lemma check_hello_server cfg challenge :
  zlen (signing_key identity) = 32 -> zlen challenge = KEY_BYTES ->
  hs_pinned_server_public_key cfg = ServerIdentity_public_key identity ->
  check_hello cfg (hello_result identity challenge (hs_device_public_key cfg)) = Ok (ServerIdentity_public_key identity, challenge).
Proof using hex_laws ed_laws.
  intros Hk Hc Hp. unfold check_hello.
  rewrite (decode_fixed_hex _ _ "challenge" challenge) by done. cbn [rbind].
  rewrite (decode_fixed_hex _ _ "server_public_key" (ServerIdentity_public_key identity)) by (done || apply ed25519_public_key_length).
  cbn [rbind]. rewrite bool_decide_true by done. cbn [negb].
  rewrite (decode_fixed_hex _ _ "server_signature" (sign_hello identity challenge (hs_device_public_key cfg)))
    by (done || apply ed25519_sign_length).
  cbn [rbind]. destruct (ed25519_sign_correct (signing_key identity) (hello_transcript challenge (hs_device_public_key cfg)) Hk) as [H1 H2].
  unfold ServerIdentity_public_key, sign_hello. by rewrite H1, H2.
Qed.

Lemma registration_sorted acc dev new : value_sorted (registration_json acc dev new) = true.
Proof using Type. unfold registration_json, json_opt. by destruct (ar_handle acc). Qed.

Lemma account_of_registration acc dev new :
  account_of (registration_json acc dev new) =
  Ok {| ha_account_id := ar_id acc; ha_handle := ar_handle acc; ha_display_name := Some (ar_display_name acc); ha_new_account := new |}.
Proof using Type. unfold account_of, registration_json, json_opt. by destruct (ar_handle acc). Qed.

(** The client's side, given the two replies *)
Lemma client_handshake cfg seed challenge acc new :
  zlen (signing_key identity) = 32 -> zlen challenge = KEY_BYTES ->
  hs_pinned_server_public_key cfg = ServerIdentity_public_key identity ->
  let dev := hs_device_public_key cfg in
  json_wf (registration_json acc dev new) = true ->
  let signature := ed25519_sign seed (auth_transcript (ServerIdentity_public_key identity) challenge dev) in
  handshake_on cfg (fun m => Some (ed25519_sign seed m))
    {| cs_incoming := [Some (Text (success_frame "hello" (hello_result identity challenge dev)));
                       Some (Text (success_frame "authenticate" (registration_json acc dev new)))];
       cs_sent := []; cs_faults := [] |} =
  (Ok {| ha_account_id := ar_id acc; ha_handle := ar_handle acc; ha_display_name := Some (ar_display_name acc); ha_new_account := new |},
   {| cs_incoming := []; cs_sent := [CText (value_to_string (hello_frame dev));
        CText (value_to_string (authenticate_frame signature (hs_display_name cfg)))]; cs_faults := [] |}).
Proof using hex_laws json_laws ed_laws.
  intros Hk Hc Hp dev Hw signature. unfold handshake_on. unfold se_bind at 1. unfold send_json at 1, client_send at 1.
  cbn [cs_faults cs_incoming cs_sent app tail]. unfold se_bind at 1.
  destruct (hello_result_wf challenge dev) as [W1 W2]. rewrite expect_success by done.
  unfold se_bind at 1, se_ret at 1. fold dev. rewrite check_hello_server by done. cbn [fst snd ok_or].
  unfold se_bind at 1, se_ret at 1. unfold se_bind at 1. unfold send_json at 1, client_send at 1.
  cbn [cs_faults cs_incoming cs_sent app tail]. unfold se_bind at 1.
  rewrite expect_success by (done || apply registration_sorted). unfold se_ret. by rewrite account_of_registration.
Qed.

(** The server's side, given the two requests, whoever wrote them *)
Lemma server_handshake_on seed name challenge tape now acc new after t1 t2 r1 r2 rest s :
  let dev := ed25519_public_key seed in
  let pk := ServerIdentity_public_key identity in
  let f1 := success_frame r1 (hello_result identity challenge dev) in
  let f2 := success_frame r2 (registration_json acc dev new) in
  zlen seed = 32 -> zlen challenge = KEY_BYTES ->
  slen f1 <= MAX_FRAME_BYTES -> slen f2 <= MAX_FRAME_BYTES ->
  parse_request json_error t1 =
    Ok {| rq_version := PROTOCOL_VERSION; rq_id := r1; rq_command := Hello PROTOCOL_VERSION PROTOCOL_VERSION (hex_encode dev) |} ->
  parse_request json_error t2 =
    Ok {| rq_version := PROTOCOL_VERSION; rq_id := r2;
          rq_command := Authenticate (hex_encode (sign_device_challenge seed pk challenge)) name |} ->
  incoming s = Some (Text t1) :: Some (Text t2) :: rest ->
  send_faults s = [] -> challenges s = Some challenge :: tape ->
  handle sconfig (Register dev name now) (serve sconfig (default [] (head (others s))) (shared s)) = (Ok (registration_json acc dev new), after) ->
  exists s', authenticate sconfig identity json_error now s =
    (Ok (HandshakeDone {| au_account_id := ar_id acc; au_device_public_key := dev |}), s') /\
    sent s' = sent s ++ [Frame f1; Frame f2] /\ shared s' = after /\ others s' = tail (others s) /\ send_faults s' = [].
Proof using hex_laws json_laws ed_laws.
  intros dev pk f1 f2 Hseed Hc Hf1 Hf2 Hp1 Hp2 Hi Hf Ht Hh. unfold authenticate. unfold se_bind at 1.
  rewrite (next_request_text _ _ _ _ Hi Hp1 eq_refl). cbn [rq_id rq_command].
  change ((PROTOCOL_VERSION <? PROTOCOL_VERSION) || (PROTOCOL_VERSION <? PROTOCOL_VERSION)) with false. cbn iota.
  unfold decode_key. rewrite (decode_hex KEY_BYTES dev) by apply ed25519_public_key_length.
  unfold authenticate_device. unfold se_bind at 1. unfold random_session_challenge at 1, se_zoom, se_map_err, random_challenge, getrandom_fill.
  cbn [challenges count_request with_incoming]. rewrite Ht. cbn [fst snd]. rewrite (proj2 (Z.eqb_eq _ _) Hc). cbn [map_err].
  unfold se_bind at 1. rewrite hosted_send_text_ok by (exact Hf1 || exact Hf).
  cbn [incoming sent send_faults report shared others challenges count_request with_incoming]. unfold se_bind at 1.
  erewrite next_request_text; [|reflexivity | exact Hp2 | reflexivity]. cbn [rq_id rq_command].
  unfold decode_signature. rewrite (decode_hex SIGNATURE_BYTES) by apply ed25519_sign_length.
  destruct (ed25519_sign_correct seed (auth_transcript pk challenge dev) Hseed) as [V1 V2].
  unfold verify_device_signature, sign_device_challenge. fold dev pk in V1, V2 |- *. rewrite V1, V2. cbn [negb is_ok].
  unfold service_call. cbn [incoming sent send_faults report shared others challenges count_request with_incoming].
  rewrite Hh. unfold se_bind at 1, se_ret at 1. change (account_id_of (registration_json acc dev new)) with (Some (ar_id acc)).
  cbn [ok_or]. unfold se_bind at 1. rewrite hosted_send_text_ok by (exact Hf2 || done). unfold se_ret.
  eexists. split; [reflexivity|]. cbn [sent shared others send_faults]. by rewrite <- app_assoc.
Qed.

(** The server's side, given the two frames of the daemon *)
Lemma server_handshake seed name challenge tape now acc new after s :
  let dev := ed25519_public_key seed in
  let pk := ServerIdentity_public_key identity in
  let f1 := success_frame "hello" (hello_result identity challenge dev) in
  let f2 := success_frame "authenticate" (registration_json acc dev new) in
  zlen seed = 32 -> zlen challenge = KEY_BYTES -> json_wf (opt_value name) = true ->
  slen f1 <= MAX_FRAME_BYTES -> slen f2 <= MAX_FRAME_BYTES ->
  incoming s = [Some (Text (value_to_string (hello_frame dev)));
                Some (Text (value_to_string (authenticate_frame (sign_device_challenge seed pk challenge) name)))] ->
  send_faults s = [] -> challenges s = Some challenge :: tape ->
  handle sconfig (Register dev name now) (serve sconfig (default [] (head (others s))) (shared s)) = (Ok (registration_json acc dev new), after) ->
  exists s', authenticate sconfig identity json_error now s =
    (Ok (HandshakeDone {| au_account_id := ar_id acc; au_device_public_key := dev |}), s') /\
    sent s' = sent s ++ [Frame f1; Frame f2] /\ shared s' = after.
Proof using hex_laws json_laws ed_laws.
  intros dev pk f1 f2 Hseed Hc Hn Hf1 Hf2 Hi Hf Ht Hh.
  destruct (server_handshake_on seed name challenge tape now acc new after _ _ "hello" "authenticate" [] s
    Hseed Hc Hf1 Hf2 (parse_hello dev) (parse_authenticate _ _ Hn) Hi Hf Ht Hh) as (s' & H1 & H2 & H3 & _). by exists s'.
Qed.
End Agreement.

(** ** Properties *)

Section Properties.
Context {hex : Hex} {json : Json} {ed : Ed25519}.

(** In a session every request is told one thing: the reply frame that carries the number
    it was sent with, or that the connection dropped. While the session lasts, each
    request has been told or is pending; when it ends, none is left without an answer. *)
Theorem hosted_requests_answered inputs socket reason s :
  session inputs (session_new socket) = (reason, s) ->
  exists used, used `prefix_of` inputs /\
    map fst (ss_answers s) ++ map snd (map_to_list (ss_pending s)) ≡ₚ made used /\
    (reason = None -> used = inputs) /\ (reason <> None -> ss_pending s = ∅) /\
    forall k r, (k, r) ∈ ss_answers s ->
      r = Err HEDisconnected \/
      exists i text open v, made used !! i = Some k /\ INext (NextMessage (Text text)) open ∈ used /\
        value_from_str text = Some v /\ get_str "id" v = Some (show (Z.of_nat i + 1)) /\ r = response_outcome v.
Proof using Type.
  intros H. apply (session_correlates inputs []) in H as (used & Hp & Hd); [|apply session_new_ok].
  exists used. split; [done|]. destruct reason as [reason|].
  - destruct Hd as (s1 & [H1 _ _ H4] & ->). rewrite drop_pending_answers. cbn [app] in *.
    split_and!; [|done|done|].
    + unfold drop_pending. cbn [ss_pending with_pending]. rewrite map_to_list_empty, app_nil_r, map_app, map_map.
      cbn [fst]. by rewrite map_id.
    + intros k r. rewrite elem_of_app. intros [Hk|Hk]; [by apply H4|]. left.
      apply list_elem_of_fmap in Hk as (y & [= -> ->] & _). done.
  - destruct Hd as [[H1 _ _ H4] ->]. split_and!; try done.
Qed.

(** C14: The transport reports an account only after a handshake in which the server signed
    this device's challenge with the pinned key; whatever a handshake meets, all it
    sends is its hello, answers to pings, and the device's signature over a challenge that
    the pinned server vouched for. Each delay before a new attempt lies between the
    smaller and the larger of the first and the longest delay. *)
Theorem hosted_transport_authentic config signer attempts queue :
  0 <= initial_backoff (hs_timeouts config) -> 0 <= max_backoff (hs_timeouts config) ->
  let t := (transport config signer attempts queue (Transport_new config)).2 in
  (forall a, HConnected a ∈ published_states t ->
     exists k k' challenge server_signature signature,
       handshake_on config signer k = (Ok a, k') /\
       CText (value_to_string (authenticate_frame signature (hs_display_name config))) ∈ cs_sent k' /\
       verify_hello_signature (hs_pinned_server_public_key config) challenge (hs_device_public_key config)
         server_signature = Ok tt) /\
  (forall k, exists frames, cs_sent (handshake_on config signer k).2 = cs_sent k ++ frames /\
     Forall (vouched_frame config signer) frames) /\
  Forall (fun d => Z.min (initial_backoff (hs_timeouts config)) (max_backoff (hs_timeouts config)) <= d <=
                   Z.max (initial_backoff (hs_timeouts config)) (max_backoff (hs_timeouts config))) (waits t).
Proof using Type.
  intros H0 H1 t. assert (transport_ok config signer t) as (Hp & _ & Hw).
  { apply transport_run_ok; try done. unfold transport_ok, Transport_new. cbn. split_and!; [constructor | lia | lia | constructor]. }
  split_and!; [|apply handshake_sends | exact Hw].
  intros a Ha. eapply Forall_forall in Hp; [|exact Ha]. destruct Hp as (d & k' & Hc).
  apply connect_ok_inv in Hc as (k & Hk). apply handshake_signed in Hk as Hs.
  destruct Hs as (challenge & ssig & sig & Hin & _ & Hv & _). by exists k, k', challenge, ssig, sig.
Qed.
End Properties.

(** C13: The two ends of a handshake agree: when a client that pins a server's key exchanges its
    frames with that server's session, and the service registers the device, both sides
    finish, with the same account, having sent exactly what the other received. *)
Theorem hosted_handshake_agrees
  `{HexLaws} `{JsonLaws} `{Ed25519Laws} `{Schnorr} `{Bech32}
  sconfig identity json_error cfg seed challenge tape now acc new after s :
  let dev := ed25519_public_key seed in
  let f1 := success_frame "hello" (hello_result identity challenge dev) in
  let f2 := success_frame "authenticate" (registration_json acc dev new) in
  let h := value_to_string (hello_frame dev) in
  let a := value_to_string (authenticate_frame
             (sign_device_challenge seed (ServerIdentity_public_key identity) challenge) (hs_display_name cfg)) in
  zlen (signing_key identity) = 32 -> zlen seed = 32 -> zlen challenge = KEY_BYTES ->
  hs_device_public_key cfg = dev -> hs_pinned_server_public_key cfg = ServerIdentity_public_key identity ->
  json_wf (opt_value (hs_display_name cfg)) = true -> json_wf (registration_json acc dev new) = true ->
  slen f1 <= MAX_FRAME_BYTES -> slen f2 <= MAX_FRAME_BYTES ->
  incoming s = [Some (Text h); Some (Text a)] -> sent s = [] -> send_faults s = [] -> challenges s = Some challenge :: tape ->
  handle sconfig (Register dev (hs_display_name cfg) now) (serve sconfig (default [] (head (others s))) (shared s))
    = (Ok (registration_json acc dev new), after) ->
  exists s' account,
    authenticate sconfig identity json_error now s =
      (Ok (HandshakeDone {| au_account_id := ha_account_id account; au_device_public_key := dev |}), s') /\
    sent s' = [Frame f1; Frame f2] /\ shared s' = after /\
    handshake_on cfg (fun m => Some (ed25519_sign seed m))
      {| cs_incoming := [Some (Text f1); Some (Text f2)]; cs_sent := []; cs_faults := [] |} =
    (Ok account, {| cs_incoming := []; cs_sent := [CText h; CText a]; cs_faults := [] |}) /\
    ha_handle account = ar_handle acc.
Proof.
  intros dev f1 f2 h a Hk Hseed Hc Hdev Hp Hn Hw Hf1 Hf2 Hi Hs Hf Ht Hh.
  destruct (server_handshake sconfig identity json_error seed (hs_display_name cfg) challenge tape now acc new after s
    Hseed Hc Hn Hf1 Hf2 Hi Hf Ht Hh) as (s' & Ha & Hsent & Hsh).
  exists s', {| ha_account_id := ar_id acc; ha_handle := ar_handle acc; ha_display_name := Some (ar_display_name acc); ha_new_account := new |}.
  rewrite Hs in Hsent. split; [exact Ha|]. split; [exact Hsent|]. split; [exact Hsh|]. split; [|done].
  pose proof (client_handshake identity cfg seed challenge acc new Hk Hc Hp) as Hcl. cbv zeta in Hcl.
  rewrite Hdev in Hcl. apply (Hcl Hw).
Qed.

(** ** Witnesses *)

Definition sample_client : HostedServiceConfig := {|
  hs_url := "wss://chat.example/ws"; hs_pinned_server_public_key := ServerIdentity_public_key sample_identity;
  hs_device_public_key := sample_device; hs_display_name := Some "Al"%string; hs_timeouts := HostedTimeouts_default |}.
Definition sample_signer : DeviceSigner := fun m => Some (ed25519_sign (key_of 1) m).
Definition sample_meeting : Session := {|
  incoming := [Some (Text (value_to_string (hello_frame sample_device)));
    Some (Text (value_to_string (authenticate_frame
      (sign_device_challenge (key_of 1) (ServerIdentity_public_key sample_identity) (key_of 9)) (Some "Al"%string))))];
  sent := []; send_faults := []; report := report sample_session; shared := shared sample_session;
  others := others sample_session; challenges := challenges sample_session |}.
Definition sample_replies : list string :=
  omap (fun o => match o with Frame t => Some t | PongFrame _ => None end)
    (sent (authenticate sample_config sample_identity (fun _ => ""%string) 500 sample_meeting).2).
Definition sample_dial : Dial := {|
  dialed := Ok {| cs_incoming := map (fun t => Some (Text t)) sample_replies; cs_sent := []; cs_faults := [] |};
  timed_out := false |}.
Definition sample_traffic : list SessionInput :=
  [IRequest (Some {| hr_method := "status"; hr_params := JNull; hr_reply := 10 |});
   IRequest (Some {| hr_method := "resolve-handle"; hr_params := JObject [("handle", JString "bob")]; hr_reply := 20 |});
   INext (NextMessage (Text (failure_frame "2" (mkServerError CNotFound "gone")))) true;
   INext NextEnd true]%string.
Definition sample_attempts : list Attempt := [
  {| stop_first := false; stop_connecting := false; dial := sample_dial; traffic := sample_traffic; stop_after := false;
     elapsed := 0; waiting := [WRequest (Some 30%nat)] |};
  {| stop_first := true; stop_connecting := false; dial := sample_dial; traffic := []; stop_after := false;
     elapsed := 0; waiting := [] |}].

Lemma hosted_requests_answered_witness :
  exists s, session sample_traffic (session_new {| cs_incoming := []; cs_sent := []; cs_faults := [] |}) =
      (Some "server closed the connection"%string, s) /\
    map fst (ss_answers s) ≡ₚ [10; 20]%nat.
Proof.
  destruct (session sample_traffic (session_new {| cs_incoming := []; cs_sent := []; cs_faults := [] |})) as [reason s] eqn:E.
  assert (reason = Some "server closed the connection"%string) as ->
    by (pose proof (f_equal fst E) as E'; vm_compute in E'; congruence).
  exists s. split; [reflexivity|].
  destruct (hosted_requests_answered sample_traffic _ _ s E) as (used & Hp & Hperm & _ & Hnone & _).
  rewrite (Hnone ltac:(discriminate)), map_to_list_empty, app_nil_r in Hperm.
  assert (length (ss_answers (session sample_traffic (session_new {| cs_incoming := []; cs_sent := []; cs_faults := [] |})).2) = 2%nat) as El
    by (vm_compute; reflexivity).
  rewrite E in El. cbn [snd] in El.
  rewrite Hperm. destruct Hp as [rest Hrest].
  assert (made used ++ made rest = [10; 20]%nat) as Em by (rewrite <- made_app, <- Hrest; reflexivity).
  apply Permutation_length in Hperm. rewrite length_map, El in Hperm.
  apply (f_equal (take 2)) in Em. rewrite take_app_le, take_ge in Em by lia. rewrite Em. done.
Defined.

Lemma hosted_transport_authentic_witness :
  exists a, HConnected a ∈ published_states (transport sample_client sample_signer sample_attempts [40%nat] (Transport_new sample_client)).2 /\
    ha_new_account a = true /\
    exists challenge server_signature,
      verify_hello_signature (ServerIdentity_public_key sample_identity) challenge sample_device server_signature = Ok tt.
Proof.
  destruct (hosted_transport_authentic sample_client sample_signer sample_attempts [40%nat]) as (Ha & _ & _); [discriminate | discriminate|].
  assert (omap HostedState_account (published_states (transport sample_client sample_signer sample_attempts [40%nat] (Transport_new sample_client)).2)
    = [{| ha_account_id := "0000000000000000000000000000004d"; ha_handle := None; ha_display_name := Some "Al"%string; ha_new_account := true |}]%string) as Ho
    by (vm_compute; reflexivity).
  set (t := (transport sample_client sample_signer sample_attempts [40%nat] (Transport_new sample_client)).2) in *.
  match type of Ho with _ = [?a] => set (acc := a) in *; exists acc end.
  assert (HConnected acc ∈ published_states t) as Hin.
  { assert (acc ∈ omap HostedState_account (published_states t)) as Hx by (rewrite Ho; apply list_elem_of_here).
    apply list_elem_of_omap in Hx as (v & Hv & E). destruct v; try discriminate E. injection E as ->. exact Hv. }
  split; [exact Hin|]. split; [reflexivity|].
  destruct (Ha acc Hin) as (k & k' & challenge & ssig & sig & _ & _ & Hv). exists challenge, ssig. exact Hv.
Defined.

Lemma hosted_handshake_agrees_witness :
  exists s' account,
    authenticate sample_config sample_identity (fun _ => ""%string) 500 sample_meeting =
      (Ok (HandshakeDone {| au_account_id := ha_account_id account; au_device_public_key := sample_device |}), s') /\
    (exists k, handshake_on sample_client sample_signer
      {| cs_incoming := map (fun t => Some (Text t)) sample_replies; cs_sent := []; cs_faults := [] |} = (Ok account, k)).
Proof.
  set (acc := {| ar_id := "0000000000000000000000000000004d"; ar_handle := None; ar_display_name := "Al"; ar_created_at := 500 |}%string).
  set (after := (handle sample_config (Register sample_device (Some "Al"%string) 500)
       (serve sample_config (default [] (head (others sample_session))) (shared sample_session))).2).
  assert (handle sample_config (Register sample_device (Some "Al"%string) 500)
    (serve sample_config (default [] (head (others sample_session))) (shared sample_session))
    = (Ok (registration_json acc sample_device true), after)) as Hh.
  { apply injective_projections; [vm_compute; reflexivity | reflexivity]. }
  destruct (hosted_handshake_agrees sample_config sample_identity (fun _ => ""%string) sample_client (key_of 1) (key_of 9)
    (tail (challenges sample_session)) 500 acc true after sample_meeting)
    as (s' & account & Ha & Hsent & _ & Hc & _);
    [reflexivity | reflexivity | reflexivity | reflexivity | reflexivity | vm_compute; reflexivity | vm_compute; reflexivity
    | vm_compute; discriminate | vm_compute; discriminate | reflexivity | reflexivity | reflexivity | reflexivity | exact Hh |].
  exists s', account. split; [exact Ha|]. eexists.
  enough (map (fun t => Some (Text t)) sample_replies = _) as -> by exact Hc.
  unfold sample_replies. rewrite Ha. cbn [snd]. rewrite Hsent. reflexivity.
Defined.
