(* ===== verification/HostedHandle.v ===== *)
(** * The handle of the hosted transport ([HostedHandle] of [omachatd/src/hosted_service.rs])

    What the core holds of the transport of [HostedClient]: it follows the transport's state
    through a [watch] channel, which shows a receiver the latest state whenever it looks, so
    that states in between may go unseen. *)

From Stdlib Require Import Strings.Byte Ascii String.
From S2P Require Import Prelude RustStd Libs Serde Concrete Keys Account Hosted ServerAuth Service Session HostedClient.
Local Open Scope Z_scope.

(** What ends the wait for the next state: the sender is dropped, the deadline passes, or
    nothing yet. *)
Inductive WatchEnd := SenderDropped | DeadlinePassed | StillOpen.

(** [quiesce] after its stop signal: whether it returns, given the states it sees. *)
Fixpoint quiesce (seen : list HostedState) (e : WatchEnd) : bool :=
  match seen with
  | [] => match e with SenderDropped => true | _ => false end
  | HStopped :: _ => true
  | _ :: seen => quiesce seen e
  end.

(** [wait_connected]: [None] while it waits. *)
Fixpoint handle_wait_connected (seen : list HostedState) (e : WatchEnd) : option (result HostedError unit) :=
  match seen with
  | [] =>
      match e with
      | SenderDropped => Some (Err HEStopped)
      | DeadlinePassed => Some (Err HEDisconnected)
      | StillOpen => None
      end
  | HConnected _ :: _ => Some (Ok tt)
  | HStopped :: _ => Some (Err HEStopped)
  | _ :: seen => handle_wait_connected seen e
  end.

(** A receiver made when the channel was new sees its first value and some of the states
    published since, the last one of them when it has caught up. *)
Definition watches (seen : list HostedState) (t : Transport) : Prop :=
  seen `sublist_of` HConnecting :: published_states t.
Definition caught_up (seen : list HostedState) (t : Transport) : Prop :=
  last seen = last (HConnecting :: published_states t).

(** ** Facts *)

Lemma quiesce_open seen : quiesce seen StillOpen = true <-> HStopped ∈ seen.
Proof.
  induction seen as [|v seen IH]; cbn; [split; [done | by intros ?%not_elem_of_nil]|].
  rewrite elem_of_cons. destruct v; rewrite ?IH; naive_solver.
Qed.

Lemma wait_connected_open seen e : handle_wait_connected seen e = Some (Ok tt) -> exists a, HConnected a ∈ seen.
Proof.
  induction seen as [|v seen IH]; cbn; [by destruct e|]. destruct v as [|a| |]; try done.
  - intros (a & Ha)%IH. exists a. by right.
  - intros _. exists a. by left.
  - intros (a & Ha)%IH. exists a. by right.
Qed.

Section Handle.
Context {hex : Hex} {json : Json} {ed : Ed25519}.
Context (config : HostedServiceConfig) (signer : DeviceSigner).

(** No turn of the transport publishes that it has stopped, only its end does. *)
Lemma turn_not_stopped a t :
  HStopped ∉ published_states t -> HStopped ∉ published_states (transport_turn config signer a t).2.
Proof using Type.
  assert (forall v t, v <> HStopped -> HStopped ∉ published_states t -> HStopped ∉ published_states (publish_state v t)) as Hp.
  { intros v t' Hv Ht. cbn. rewrite elem_of_app, list_elem_of_singleton. naive_solver. }
  assert (forall l t, HStopped ∉ published_states t -> HStopped ∉ published_states (wait_before_retry config l t).2) as Hw.
  { intros l t' Ht. unfold wait_before_retry. cbv zeta. match goal with |- context [wait_loop l ?u] => pose proof (wait_loop_same l u) as (_ & E & _);
      destruct (wait_loop l u) end. cbn [snd] in *. by rewrite E. }
  intros Ht. unfold transport_turn. destruct (stop_first a); [done|]. destruct (stop_connecting a); [by apply Hp|].
  destruct (connect config signer (dial a)) as [[k account]|e].
  - destruct (session (traffic a) (session_new k)) as [[reason|] s]; cbn [snd].
    + destruct (stop_after a); cbn [snd]; [by apply (Hp (HConnected account)); [|apply Hp]|]. apply Hw.
      destruct (_ <=? _); apply (Hp (HDisconnected reason)); try done; by apply (Hp (HConnected account)); [|apply Hp].
    + by apply (Hp (HConnected account)); [|apply Hp].
  - destruct e; cbn [snd]; try (apply Hw, Hp; [done | by apply Hp]). by apply Hp.
Qed.

Lemma transport_stopped_last attempts queue : forall t, HStopped ∉ published_states t ->
  let '(turned, t') := transport config signer attempts queue t in
  match turned with
  | TStopped => exists before, published_states t' = before ++ [HStopped] /\ HStopped ∉ before /\
                  forall n, n ∈ queue -> (n, Err HEStopped) ∈ answered t'
  | _ => HStopped ∉ published_states t'
  end.
Proof using Type.
  induction attempts as [|a attempts IH]; intros t Ht; cbn [transport]; [done|].
  pose proof (turn_not_stopped a t Ht) as H1. destruct (transport_turn config signer a t) as [[| |] t1]; cbn [snd] in *; [|by apply IH|done].
  exists (published_states t1). split_and!; [done | done |]. intros n Hn. cbn. rewrite elem_of_app. right.
  apply list_elem_of_fmap. by exists n.
Qed.

(** Waiting for the transport to stop is exact. However the states that [quiesce] sees are
    picked, it does not return before the transport has ended; once it has ended, a receiver
    that has caught up returns; and then every request that was still queued has been told
    that the transport stopped. *)
Theorem quiesce_exact attempts queue seen :
  let '(turned, t) := transport config signer attempts queue (Transport_new config) in
  watches seen t ->
  (quiesce seen StillOpen = true -> turned = TStopped) /\
  (turned = TStopped -> caught_up seen t ->
     quiesce seen StillOpen = true /\ forall n, n ∈ queue -> (n, Err HEStopped) ∈ answered t).
Proof using Type.
  pose proof (transport_stopped_last attempts queue (Transport_new config) (not_elem_of_nil _)) as H.
  destruct (transport config signer attempts queue (Transport_new config)) as [turned t]. intros Hsub. rewrite quiesce_open. split.
  - intros Hin. assert (HStopped ∈ HConnecting :: published_states t) as Hin2 by (eapply elem_of_sublist; done).
    rewrite elem_of_cons in Hin2. destruct Hin2 as [|Hin2]; [done|]. by destruct turned.
  - intros ->. destruct H as (before & E & _ & Ha). unfold caught_up. rewrite E, app_comm_cons, last_snoc. intros Hl.
    split; [|done]. by apply last_Some_elem_of.
Qed.

(** A handle that reports a connection saw one whose account the pinned server vouched for. *)
Theorem wait_connected_authentic attempts queue seen e :
  0 <= initial_backoff (hs_timeouts config) -> 0 <= max_backoff (hs_timeouts config) ->
  let t := (transport config signer attempts queue (Transport_new config)).2 in
  watches seen t -> handle_wait_connected seen e = Some (Ok tt) ->
  exists a k k', HConnected a ∈ seen /\ handshake_on config signer k = (Ok a, k').
Proof using Type.
  intros H0 H1 t Hsub (a & Ha)%wait_connected_open. assert (transport_ok config signer t) as (Hp & _).
  { apply transport_run_ok; try done. unfold transport_ok, Transport_new. cbn. split_and!; [constructor | lia | lia | constructor]. }
  assert (HConnected a ∈ HConnecting :: published_states t) as Hin by (eapply elem_of_sublist; done).
  rewrite elem_of_cons in Hin. destruct Hin as [|Hin]; [done|]. eapply Forall_forall in Hp; [|exact Hin].
  destruct Hp as (d & k' & Hc). apply connect_ok_inv in Hc as (k & Hk). by exists a, k, k'.
Qed.
End Handle.

(** ** Witnesses *)

Lemma quiesce_exact_witness :
  quiesce [HConnecting; HStopped] StillOpen = true /\
  (40%nat, Err HEStopped) ∈ answered (transport sample_client sample_signer sample_attempts [40%nat] (Transport_new sample_client)).2.
Proof.
  pose proof (quiesce_exact sample_client sample_signer sample_attempts [40%nat] [HConnecting; HStopped]) as H.
  destruct (transport sample_client sample_signer sample_attempts [40%nat] (Transport_new sample_client)) as [turned t] eqn:E.
  assert (turned = TStopped) as -> by (apply (f_equal fst) in E; vm_compute in E; congruence).
  assert (last (published_states t) = Some HStopped) as El by (apply (f_equal snd) in E; cbn [snd] in E; rewrite <- E; vm_compute; reflexivity).
  apply last_Some in El as (before & El). destruct H as [_ H].
  - unfold watches. rewrite El. apply sublist_skip. apply sublist_inserts_l. reflexivity.
  - destruct H as [Hq Ha]; [reflexivity | unfold caught_up; rewrite El, app_comm_cons, last_snoc; reflexivity |].
    split; [exact Hq | apply Ha; apply list_elem_of_here].
Defined.
