(* ===== verification/ServerCli.v ===== *)
(** * The administration client of the server ([omachat-server/src/bin/omachat-server-cli.rs])

    Its arguments, the handshake it runs by hand and the one request it sends. An error is
    its message. *)

From Stdlib Require Import Strings.Byte Ascii String.
From S2P Require Import Prelude RustStd BTree Libs Serde Concrete ValueMap Account Hosted ServerAuth Storage Service Session HostedClient.
Local Open Scope Z_scope.

(** ** Arguments *)

Record CliOptions := {
  c_url : string; c_device_key_file : string; c_server_public_key : option bytes; c_display_name : option string;
  c_command : list string
}.

(** The local variables of [parse] *)
Record Collected := {
  k_url : option string; k_key : option string; k_pinned : option bytes; k_name : option string; k_command : list string
}.

(** What the arguments ask for: the help, a new device key, or a request. *)
Inductive Asked := AskHelp | AskKey (path : string) | AskRun (o : CliOptions).

Section Arguments.
Context {hex : Hex}.

Definition finish_options (k : Collected) : result string Asked :=
  fail_if bool_decide (k_command k = []) with "a command is required; see --help"%string ;;
  let? u := ok_or "--url is required"%string (k_url k) in
  let? f := ok_or "--device-key-file is required"%string (k_key k) in
  Ok (AskRun {| c_url := u; c_device_key_file := f; c_server_public_key := k_pinned k; c_display_name := k_name k;
                c_command := k_command k |}).

(** The loop; each turn takes one argument or two. *)
Fixpoint parse_arguments (arguments : list string) (k : Collected) : result string Asked :=
  match arguments with
  | [] => finish_options k
  | argument :: rest =>
      fail_if negb (utf8_valid argument) with "arguments must be UTF-8"%string ;;
      if negb (bool_decide (k_command k = [])) then
        parse_arguments rest {| k_url := k_url k; k_key := k_key k; k_pinned := k_pinned k; k_name := k_name k;
                                k_command := k_command k ++ [argument] |}
      else if String.eqb argument "--help" then Ok AskHelp
      else if starts_with "--" argument then
        let taken (k' : string -> result string (Asked + Collected)) :=
          match rest with
          | [] => Err (argument +:+ " needs a value")
          | v :: rest =>
              fail_if negb (utf8_valid v) with (argument +:+ " must be UTF-8") ;;
              let? next := k' v in
              match next with inl asked => Ok asked | inr k => parse_arguments rest k end
          end in
        if String.eqb argument "--generate-device-key" then taken (fun v => Ok (inl (AskKey v)))
        else if String.eqb argument "--url" then taken (fun v => Ok (inr
          {| k_url := Some v; k_key := k_key k; k_pinned := k_pinned k; k_name := k_name k; k_command := k_command k |}))
        else if String.eqb argument "--device-key-file" then taken (fun v => Ok (inr
          {| k_url := k_url k; k_key := Some v; k_pinned := k_pinned k; k_name := k_name k; k_command := k_command k |}))
        else if String.eqb argument "--server-public-key" then taken (fun v =>
          let? b := map_err (fun _ => "--server-public-key must be 64 hex characters"%string) (decode_key v) in
          Ok (inr {| k_url := k_url k; k_key := k_key k; k_pinned := Some b; k_name := k_name k; k_command := k_command k |}))
        else if String.eqb argument "--display-name" then taken (fun v => Ok (inr
          {| k_url := k_url k; k_key := k_key k; k_pinned := k_pinned k; k_name := Some v; k_command := k_command k |}))
        else Err ("unknown option " +:+ argument)
      else parse_arguments rest {| k_url := k_url k; k_key := k_key k; k_pinned := k_pinned k; k_name := k_name k;
                                   k_command := k_command k ++ [argument] |}
  end.

Definition parse_cli (args : list string) : result string Asked :=
  parse_arguments (tail args) {| k_url := None; k_key := None; k_pinned := None; k_name := None; k_command := [] |}.
End Arguments.

(** The request of a command; [json_error] is how [serde_json] describes a malformed text. *)
Definition build_request {json : Json} (json_error : string -> string) (command : list string) : result string (string * Value) :=
  let name := default ""%string (head command) in
  let argument (index : nat) (what : string) := ok_or (name +:+ " needs " +:+ what) (command !! index) in
  if String.eqb name "status" then Ok ("status"%string, JNull)
  else if String.eqb name "claim-handle" || String.eqb name "resolve-handle" then
    let? h := argument 1%nat "HANDLE"%string in Ok (name, JObject [("handle"%string, JString h)])
  else if String.eqb name "raw" then
    let? params := match command !! 2%nat with
                   | Some text => ok_or (json_error text) (value_from_str text)
                   | None => Ok JNull
                   end in
    let? m := argument 1%nat "METHOD"%string in Ok (m, params)
  else Err ("unknown command " +:+ name +:+ "; see --help").

(** ** The exchange *)

Record Cli := { cli_socket : ClientSocket; cli_printed : list Value; cli_next_id : Z }.
Abbreviation CLI A := (SE Cli string A).

Definition on_socket {A} (m : HM A) : CLI A := fun c =>
  let '(r, k) := m (cli_socket c) in
  (map_err (fun _ => "connection failed"%string) r, {| cli_socket := k; cli_printed := cli_printed c; cli_next_id := cli_next_id c |}).
Definition print_line (v : Value) : CLI unit := fun c =>
  (Ok tt, {| cli_socket := cli_socket c; cli_printed := cli_printed c ++ [v]; cli_next_id := cli_next_id c |}).
Definition closed_early : string := "connection closed before a response arrived".

Section Run.
Context {hex : Hex} {json : Json} {ed : Ed25519}.
Context (json_error : string -> string).

(** [exchange]: events are printed, the first other object is the answer. *)
Fixpoint await (messages : list (option Message)) : CLI Value :=
  match messages with
  | [] => let! _ := on_socket (fun k => (Ok tt, set_incoming [] k)) in se_ret (Err closed_early)
  | m :: rest =>
      let! _ := on_socket (fun k => (Ok tt, set_incoming rest k)) in
      match m with
      | None => se_ret (Err "connection failed"%string)
      | Some (Text text) =>
          let! v := se_ret (ok_or (json_error text) (value_from_str text)) in
          match value_get "event" v with
          | Some _ => let! _ := print_line v in await rest
          | None => se_ret (Ok v)
          end
      | Some Close => se_ret (Err closed_early)
      | Some _ => await rest
      end
  end.
Definition exchange (frame : string) : CLI Value :=
  let! _ := on_socket (client_send (CText frame)) in
  fun c => await (cs_incoming (cli_socket c)) c.

Definition cli_frame (rid m : string) (params : Value) : Value :=
  JObject (match params with
           | JNull => [("id", JString rid); ("method", JString m); ("version", JInt 1)]
           | _ => [("id", JString rid); ("method", JString m); ("params", params); ("version", JInt 1)]
           end)%string.

Definition call (m : string) (params : Value) : CLI Value := fun c =>
  let rid := show (cli_next_id c) in
  exchange (value_to_string (cli_frame rid m params))
    {| cli_socket := cli_socket c; cli_printed := cli_printed c; cli_next_id := cli_next_id c + 1 |}.

Definition text_field (v : Value) (field : string) : string := default ""%string (get_str field v).

(** The checks on the reply to the hello: the server's key and its challenge *)
Definition check_server (o : CliOptions) (device_public_key : bytes) (res : Value) : result string (bytes * bytes) :=
  let? challenge := map_err (fun _ => "server sent a malformed challenge"%string) (decode_key (text_field res "challenge")) in
  let? observed := map_err (fun _ => "server sent a malformed public key"%string) (decode_key (text_field res "server_public_key")) in
  let? signature := map_err (fun _ => "server sent a malformed signature"%string) (decode_signature (text_field res "server_signature")) in
  let? _ := map_err (fun _ => "server signature did not verify"%string)
              (verify_hello_signature observed challenge device_public_key signature) in
  fail_if match c_server_public_key o with Some pinned => negb (bool_decide (pinned = observed)) | None => false end
    with ("server public key " +:+ hex_encode observed +:+ " does not match the pinned key") ;;
  Ok (observed, challenge).

Definition hello_params (device_public_key : bytes) : Value :=
  JObject [("device_public_key", JString (hex_encode device_public_key)); ("maximum_version", JInt 1); ("minimum_version", JInt 1)]%string.
Definition authenticate_params (signature : bytes) (name : option string) : Value :=
  JObject (match name with
           | Some n => [("display_name", JString n); ("signature", JString (hex_encode signature))]
           | None => [("signature", JString (hex_encode signature))]
           end)%string.

Definition says_ok (v : Value) : bool := bool_decide (value_get "ok" v = Some (JBool true)).

(** [run], once the arguments are read, the seed is loaded and the socket is open; [true]
    is exit code 0, [false] is 1, an error is 2. *)
Definition run_session (o : CliOptions) (m : string) (params : Value) (seed : bytes) : CLI bool :=
  let device_public_key := ed25519_public_key seed in
  let! hello := call "hello" (hello_params device_public_key) in
  match value_get "result" hello with
  | None => let! _ := print_line hello in se_ret (Ok false)
  | Some res =>
      let! keys := se_ret (check_server o device_public_key res) in
      let device_signature := sign_device_challenge seed keys.1 keys.2 in
      let! authenticated := call "authenticate" (authenticate_params device_signature (c_display_name o)) in
      if negb (says_ok authenticated) then let! _ := print_line authenticated in se_ret (Ok false)
      else
        let! response := call m params in
        let! _ := print_line response in
        se_ret (Ok (says_ok response))
  end.

(** [run]: [files] opens a file, [dial] opens the socket of a URL. *)
Definition run_cli (files : string -> option File) (tape : Entropy)
    (dial : string -> result string ClientSocket) (args : list string) : result string bool * list ClientFrame :=
  match (let? asked := parse_cli args in
         match asked with
         | AskHelp => Ok None
         | AskKey path => let? _ := map_err (fun _ => "device key file"%string) (generate_seed_file (files path) tape).1 in Ok None
         | AskRun o =>
             let? request := build_request json_error (c_command o) in
             let? seed := map_err (fun _ => "device key file"%string) (load_seed_file (files (c_device_key_file o))) in
             let? socket := dial (c_url o) in
             Ok (Some (o, request, seed, socket))
         end) with
  | Err e => (Err e, [])
  | Ok None => (Ok true, [])
  | Ok (Some (o, request, seed, socket)) =>
      let '(r, c) := run_session o request.1 request.2 seed {| cli_socket := socket; cli_printed := []; cli_next_id := 1 |} in
      (r, cs_sent (cli_socket c))
  end.
End Run.

(** ** What is sent *)

Section SendFacts.
Context {hex : Hex} {json : Json} {ed : Ed25519}.
Context (json_error : string -> string).

Lemma await_sent messages : forall c r c', await json_error messages c = (r, c') ->
  cs_sent (cli_socket c') = cs_sent (cli_socket c) /\ cli_next_id c' = cli_next_id c.
Proof using Type.
  induction messages as [|m rest IH]; intros c r c'; cbn [await]; unfold se_bind, on_socket, se_ret; cbn [map_err]; [by intros [= _ <-]|].
  destruct m as [[text| | | |]|]; try (by intros [= _ <-]); try (by intros H%IH).
  destruct (value_from_str text) as [v|]; cbn [ok_or]; [|by intros [= _ <-]].
  destruct (value_get "event" v); [|by intros [= _ <-]]. unfold print_line. by intros H%IH.
Qed.

Definition call_frame (id : Z) (m : string) (params : Value) : ClientFrame := CText (value_to_string (cli_frame (show id) m params)).

(** A call sends its frame, or nothing when sending fails. *)
Lemma call_sent m params c r c' : call json_error m params c = (r, c') -> cli_next_id c' = cli_next_id c + 1 /\
  (cs_sent (cli_socket c') = cs_sent (cli_socket c) ++ [call_frame (cli_next_id c) m params] \/
   cs_sent (cli_socket c') = cs_sent (cli_socket c) /\ exists e, r = Err e).
Proof using Type.
  unfold call, exchange, se_bind, on_socket, client_send. cbn [cli_socket].
  destruct (cs_faults (cli_socket c)) as [|[] faults]; cbn [map_err]; intros E; [|injection E as <- <-; split; [done|]; right; eauto|];
    apply await_sent in E as [-> ->]; split; try done; by left.
Qed.
End SendFacts.

Lemma check_server_ok {hex : Hex} {ed : Ed25519} o pinned dev res keys : c_server_public_key o = Some pinned ->
  check_server o dev res = Ok keys -> exists signature, keys.1 = pinned /\ verify_hello_signature pinned keys.2 dev signature = Ok tt.
Proof.
  intros Hp H. unfold check_server in H. rewrite Hp in H.
  apply rbind_ok_inv in H as (challenge & _ & H). apply rbind_ok_inv in H as (observed & _ & H).
  apply rbind_ok_inv in H as (signature & _ & H). apply rbind_ok_inv in H as ([] & Hv%map_err_ok_inv & H).
  destruct (bool_decide_reflect (pinned = observed)) as [->|]; [|done]. injection H as <-. by exists signature.
Qed.

(** ** Theorems *)

Section Properties.
Context {hex : Hex} {json : Json} {ed : Ed25519}.
Context (json_error : string -> string).

(** With a pinned key, whatever a server answers, the client sends at most three frames in
    this order: its hello, the device's signature, the request. It signs only the challenge
    of a server that proved, for this device, to hold the pinned key, and sends the request
    only after that. *)
Theorem server_cli_pins o pinned m params seed c r c' :
  c_server_public_key o = Some pinned -> cli_next_id c = 1 -> run_session json_error o m params seed c = (r, c') ->
  exists n challenge signature,
    cs_sent (cli_socket c') = cs_sent (cli_socket c) ++
      take n [call_frame 1 "hello" (hello_params (ed25519_public_key seed));
              call_frame 2 "authenticate" (authenticate_params (sign_device_challenge seed pinned challenge) (c_display_name o));
              call_frame 3 m params] /\
    ((1 < n)%nat -> verify_hello_signature pinned challenge (ed25519_public_key seed) signature = Ok tt).
Proof using Type.
  intros Hpin Hid H. unfold run_session in H.
  apply se_bind_cases in H as [(e & E1 & ->)|(hello & c1 & E1 & H)]; apply call_sent in E1 as [I1 S1]; rewrite Hid in I1, S1.
  { destruct S1 as [S1|[S1 _]]; [exists 1%nat, [], []|exists 0%nat, [], []]; rewrite S1; (split; [by rewrite ?app_nil_r|lia]). }
  destruct S1 as [S1|[_ [e E]]]; [|done]. destruct (value_get "result" hello) as [res|].
  2: { injection H as _ <-. exists 1%nat, [], []. split; [exact S1|lia]. }
  apply se_bind_cases in H as [(e & E2 & ->)|(keys & c2 & E2 & H)].
  { injection E2 as _ <-. exists 1%nat, [], []. split; [exact S1|lia]. }
  injection E2 as Ek <-. apply (check_server_ok _ _ _ _ _ Hpin) in Ek as (signature & Ekey & Hv). cbv zeta in H. rewrite Ekey in H.
  apply se_bind_cases in H as [(e & E3 & ->)|(authenticated & c3 & E3 & H)]; apply call_sent in E3 as [I3 S3]; rewrite I1 in I3, S3.
  { destruct S3 as [S3|[S3 _]]; rewrite S3, S1; [exists 2%nat, keys.2, signature|exists 1%nat, keys.2, signature];
      (split; [by rewrite ?app_nil_r, <- ?app_assoc|done]). }
  destruct S3 as [S3|[_ [e E]]]; [|done]. destruct (says_ok authenticated); cbn [negb] in H.
  2: { injection H as _ <-. exists 2%nat, keys.2, signature. cbn [cli_socket]. rewrite S3, S1, <- app_assoc. done. }
  apply se_bind_cases in H as [(e & E4 & ->)|(response & c4 & E4 & H)]; apply call_sent in E4 as [_ S4]; rewrite I3 in S4.
  { destruct S4 as [S4|[S4 _]]; rewrite S4, S3, S1, <- !app_assoc; [exists 3%nat, keys.2, signature|exists 2%nat, keys.2, signature]; done. }
  destruct S4 as [S4|[_ [e E]]]; [|done]. injection H as _ <-. exists 3%nat, keys.2, signature. cbn [cli_socket].
  by rewrite S4, S3, S1, <- !app_assoc.
Qed.
End Properties.

(** ** Witness *)

(** The client of a registered device asks for its status and is told to slow down. *)
Definition sample_cli : CliOptions := {|
  c_url := "wss://chat.example/ws"; c_device_key_file := "/k";
  c_server_public_key := Some (ServerIdentity_public_key sample_identity); c_display_name := Some "Al"%string;
  c_command := ["status"%string] |}.
Definition sample_connection : Cli := {|
  cli_socket := {| cs_incoming := map (fun t => Some (Text t))
                     (sample_replies ++ [failure_frame "3" (mkServerError RateLimited "slow down and retry")]);
                   cs_sent := []; cs_faults := [] |};
  cli_printed := []; cli_next_id := 1 |}.

Lemma server_cli_pins_witness :
  exists r c' challenge signature,
    run_session (fun _ => ""%string) sample_cli "status" JNull (key_of 1) sample_connection = (r, c') /\ r = Ok false /\
    length (cs_sent (cli_socket c')) = 3%nat /\
    verify_hello_signature (ServerIdentity_public_key sample_identity) challenge (ed25519_public_key (key_of 1)) signature = Ok tt.
Proof.
  destruct (run_session (fun _ => ""%string) sample_cli "status" JNull (key_of 1) sample_connection) as [r c'] eqn:E.
  assert (match run_session (fun _ => ""%string) sample_cli "status" JNull (key_of 1) sample_connection with
          | (Ok false, c) => length (cs_sent (cli_socket c)) = 3%nat | _ => False end) as H by (vm_compute; reflexivity).
  rewrite E in H. destruct r as [[]|]; [contradiction H| |contradiction H].
  destruct (server_cli_pins (fun _ => ""%string) sample_cli _ "status" JNull (key_of 1) sample_connection (Ok false) c' eq_refl eq_refl E)
    as (n & challenge & signature & Hs & Hv).
  exists (Ok false), c', challenge, signature. split; [reflexivity|]. split; [reflexivity|]. split; [exact H|]. apply Hv.
  assert (cs_sent (cli_socket sample_connection) = []) as H0 by reflexivity.
  rewrite Hs, H0, length_app, length_take in H. clear -H. change (Nat.min n 3 = 3%nat) in H. lia.
Defined.
