(* ===== verification/Chat.v ===== *)
(** * Direct messages in the daemon ([omachatd/src/nostr_chat.rs])

    The actor that owns the contacts, the stored messages and the relay pool. Its world is
    the sealed store, the clock, the operating system's randomness, the connections of the
    pool and the event hub: what each of them answers is part of the state, so that a run
    is a function. *)

From Stdlib Require Import Strings.Byte Ascii String.
From S2P Require Import Prelude RustStd BTree Libs Serde Concrete Nip44 Event Frame Relay GiftWrap Keys Dedup RelayList Pool Nip11 Nip05 Store Ipc Daemon.
Local Open Scope Z_scope.

Definition CONTACTS_RECORD : string := "nostr-contacts-v1".
Definition MESSAGES_RECORD : string := "nostr-messages-v1".
Definition RELAYS_RECORD : string := "nostr-relays-v1".
Definition MAX_CONTACTS : Z := 128.
Definition MAX_MESSAGES : Z := 128.
Definition MAX_TEXT_BYTES : Z := 4096.
Definition MAX_RELAYS : Z := 4.
Definition LOOKBACK_SECONDS : Z := 30 * 24 * 60 * 60.
Definition CONNECT_WAIT : Duration := from_secs 8.

Record Contact := {
  ct_pubkey : string;
  ct_npub : string;
  ct_nip05 : option string;
  ct_display : string
}.

Record StoredMessage := {
  sm_id : string;
  sm_conversation : string;
  sm_peer : string;
  sm_sender : string;
  sm_text : string;
  sm_outgoing : bool;
  sm_delivery : string;
  sm_created_at : Z
}.

(** [ChatError::Send] carries the text of the error that caused it. *)
Inductive SendFailure := SendGiftWrap (e : GiftWrapError) | SendPool (e : RelayPoolError).
Inductive ChatError :=
| CStore (e : VaultError) | CSealed (e : StoreError) | CIdentity (e : NostrIdentityError) | CNip05 (e : Nip05Error)
| CInvalidPeer | CInvalidRelay | CInvalidText | CSelfContact | CNoRelays | CNotConnected | CNotFound | CTooLarge
| CSend (e : SendFailure) | CCorrupt | CClock | CStopped.

(** ** Records *)

Definition contact_value (c : Contact) : Value := JObject
  ([("pubkey", JString (ct_pubkey c)); ("npub", JString (ct_npub c))]%string
   ++ match ct_nip05 c with Some n => [("nip05", JString n)]%string | None => [] end
   ++ [("display", JString (ct_display c))]%string).
Definition contact_of_value (v : Value) : option Contact :=
  vs ← de_fields false ["pubkey"; "npub"; "nip05"; "display"]%string v;
  match vs with
  | [Some p; Some n; m; Some d] =>
      p ← de_string p; n ← de_string n; m ← de_default None (de_option de_string) m; d ← de_string d;
      Some {| ct_pubkey := p; ct_npub := n; ct_nip05 := m; ct_display := d |}
  | _ => None
  end.

Definition message_fields : list string :=
  ["id"; "conversation"; "peer"; "sender"; "text"; "outgoing"; "delivery"; "created_at"]%string.
Definition message_values (m : StoredMessage) : list Value :=
  [JString (sm_id m); JString (sm_conversation m); JString (sm_peer m); JString (sm_sender m); JString (sm_text m);
   JBool (sm_outgoing m); JString (sm_delivery m); JInt (sm_created_at m)].
Definition message_value (m : StoredMessage) : Value := JObject (zip message_fields (message_values m)).
Definition message_of_value (v : Value) : option StoredMessage :=
  vs ← de_struct false message_fields v;
  match vs with
  | [i; c; p; s; t; o; d; at_] =>
      i ← de_string i; c ← de_string c; p ← de_string p; s ← de_string s; t ← de_string t; o ← de_bool o;
      d ← de_string d; at_ ← de_uint u64_max at_;
      Some {| sm_id := i; sm_conversation := c; sm_peer := p; sm_sender := s; sm_text := t; sm_outgoing := o;
              sm_delivery := d; sm_created_at := at_ |}
  | _ => None
  end.

(** Inside [json!] an object is a map in key order. *)
Definition contact_json (c : Contact) : Value := JObject
  ([("display", JString (ct_display c))]%string
   ++ match ct_nip05 c with Some n => [("nip05", JString n)]%string | None => [] end
   ++ [("npub", JString (ct_npub c)); ("pubkey", JString (ct_pubkey c))]%string).
Definition message_json (m : StoredMessage) : Value := JObject
  [("conversation", JString (sm_conversation m)); ("created_at", JInt (sm_created_at m));
   ("delivery", JString (sm_delivery m)); ("id", JString (sm_id m)); ("outgoing", JBool (sm_outgoing m));
   ("peer", JString (sm_peer m)); ("sender", JString (sm_sender m)); ("text", JString (sm_text m))]%string.

(** ** State *)

(** What one use of the pool meets: the health seen by each poll of [wait_connected] and
    the answers of the connections. *)
Record Link := { polls : list (nat -> RelayHealth); link_env : Connections }.
Definition dead_link : Link := {|
  polls := [];
  link_env := {| conn_health _ := HStopped; conn_publish _ _ := Err REStopped;
                 conn_subscribe _ _ _ := Err REStopped; conn_close _ _ := Err REStopped |} |}.

(** An event to be published, with the connections it was sent on, none when no relay came
    up in time, and those whose relay acknowledged it *)
Record Outgoing := { og_event : SignedEvent; og_relays : list nat; og_accepted : list nat }.

Record World {W : Type} := {
  disk : Disk W;
  readings : list (option Z);   (* the system clock: [None] is before the epoch *)
  links : list Link;
  outbox : list Outgoing;
  hub : EventHub;
  sequence : Z
}.
Arguments World : clear implicits.

Record PoolState := {
  pool : option RelayPool;
  pool_relays : list string;
  pool_pubkey : option string;
  subscribed_for : option string
}.

Record Actor {W : Type} := {
  store : SealedStore;
  world : World W;
  relays : list string;
  contacts : list Contact;
  messages : list StoredMessage;
  pooled : PoolState;
  loopback_nip05 : option string
}.
Arguments Actor : clear implicits.

Section Setters.
Context {W : Type}.

Definition set_world (w : World W) (a : Actor W) : Actor W := {|
  store := store a; world := w; relays := relays a; contacts := contacts a; messages := messages a;
  pooled := pooled a; loopback_nip05 := loopback_nip05 a |}.
Definition set_relays (r : list string) (a : Actor W) : Actor W := {|
  store := store a; world := world a; relays := r; contacts := contacts a; messages := messages a;
  pooled := pooled a; loopback_nip05 := loopback_nip05 a |}.
Definition set_contacts (c : list Contact) (a : Actor W) : Actor W := {|
  store := store a; world := world a; relays := relays a; contacts := c; messages := messages a;
  pooled := pooled a; loopback_nip05 := loopback_nip05 a |}.
Definition set_messages (m : list StoredMessage) (a : Actor W) : Actor W := {|
  store := store a; world := world a; relays := relays a; contacts := contacts a; messages := m;
  pooled := pooled a; loopback_nip05 := loopback_nip05 a |}.
Definition set_pooled (p : PoolState) (a : Actor W) : Actor W := {|
  store := store a; world := world a; relays := relays a; contacts := contacts a; messages := messages a;
  pooled := p; loopback_nip05 := loopback_nip05 a |}.
Definition set_loopback (base : option string) (a : Actor W) : Actor W := {|
  store := store a; world := world a; relays := relays a; contacts := contacts a; messages := messages a;
  pooled := pooled a; loopback_nip05 := base |}.
Definition set_pool (p : option RelayPool) (a : Actor W) : Actor W :=
  set_pooled {| pool := p; pool_relays := pool_relays (pooled a); pool_pubkey := pool_pubkey (pooled a);
                subscribed_for := subscribed_for (pooled a) |} a.
Definition set_subscribed (s : option string) (a : Actor W) : Actor W :=
  set_pooled {| pool := pool (pooled a); pool_relays := pool_relays (pooled a);
                pool_pubkey := pool_pubkey (pooled a); subscribed_for := s |} a.

Definition set_disk (d : Disk W) (a : Actor W) : Actor W :=
  set_world {| disk := d; readings := readings (world a); links := links (world a); outbox := outbox (world a);
               hub := hub (world a); sequence := sequence (world a) |} a.
Definition on_disk {E A} (c : SE (Disk W) E A) : SE (Actor W) E A := se_zoom (fun a => disk (world a)) set_disk c.

Definition set_rng (t : Entropy) (a : Actor W) : Actor W :=
  let d := disk (world a) in
  set_disk {| files := files d; keyring := keyring d; crashed := crashed d; tape := tape d; rng := t; pid := pid d |} a.
Definition random {E A} (c : SE Entropy E A) : SE (Actor W) E A := se_zoom (fun a => rng (disk (world a))) set_rng c.

Definition unix_time : SE (Actor W) ChatError Z := fun a =>
  let w := world a in
  (ok_or CClock (default None (head (readings w))),
   set_world {| disk := disk w; readings := tail (readings w); links := links w; outbox := outbox w; hub := hub w;
                sequence := sequence w |} a).

Definition next_link (a : Actor W) : Link * Actor W :=
  let w := world a in
  (default dead_link (head (links w)),
   set_world {| disk := disk w; readings := readings w; links := tail (links w); outbox := outbox w; hub := hub w;
                sequence := sequence w |} a).

Definition put_outgoing (o : Outgoing) (a : Actor W) : Actor W :=
  let w := world a in
  set_world {| disk := disk w; readings := readings w; links := links w; outbox := outbox w ++ [o]; hub := hub w;
               sequence := sequence w |} a.

(** [Actor::publish]: [fetch_add] wraps. *)
Definition publish (topic : Topic) (payload : Value) (a : Actor W) : Actor W :=
  let w := world a in
  let e := {| ev_version := VERSION; ev_sequence := sequence w; ev_topic := topic; ev_payload := payload |} in
  set_world {| disk := disk w; readings := readings w; links := links w; outbox := outbox w;
               hub := hub_publish e (hub w); sequence := (sequence w + 1) mod 2 ^ 64 |} a.
End Setters.

(** ** The pool *)

Definition wait_connected (p : RelayPool) (l : Link) : bool :=
  existsb (fun health => existsb (fun i => is_connected (health i)) (seq 0 (connections p))) (polls l).

(** Publishing on a pool that is connected, with what goes out on the wire *)
Definition send_on {W : Type} (p : RelayPool) (l : Link) (event : SignedEvent)
  : SE (Actor W) ChatError unit := fun a =>
  let outcomes := attempts (link_env l) event (fun _ => true) (connections p) in
  (map_err (fun e => CSend (SendPool e)) (let? _ := pool_publish (link_env l) event p in Ok tt),
   put_outgoing {| og_event := event; og_relays := map rpo_relay_index outcomes;
     og_accepted := map rpo_relay_index (List.filter (fun o => is_ok (rpo_result o)) outcomes) |} a).

Definition publish_to_relays {W : Type} (event : SignedEvent) : SE (Actor W) ChatError unit := fun a =>
  match pool (pooled a) with
  | None => (Err CNoRelays, a)
  | Some p =>
      let '(l, a) := next_link a in
      if wait_connected p l then send_on p l event a
      else (Err CNotConnected, put_outgoing {| og_event := event; og_relays := []; og_accepted := [] |} a)
  end.

Definition publish_self_copy_for_other_devices {W : Type} (event : SignedEvent) (a : Actor W) : Actor W :=
  (publish_to_relays event a).2.

Section Canonical.
Context {url : UrlLib}.

Fixpoint canonical_relays_loop (relays canonical : list string) : result ChatError (list string) :=
  match relays with
  | [] => Ok canonical
  | relay :: relays =>
      let? u := map_err (fun _ => CInvalidRelay) (canonical_publication_url relay) in
      fail_if bool_decide (u ∈ canonical) with CInvalidRelay ;;
      canonical_relays_loop relays (canonical ++ [u])
  end.
Definition canonical_relays (relays : list string) : result ChatError (list string) :=
  fail_if (zlen relays =? 0) || (MAX_RELAYS <? zlen relays) with CInvalidRelay ;;
  canonical_relays_loop relays [].
End Canonical.

(** [RelayConfig] of a chat relay *)
Definition chat_relay_config (signer : option RelayAuthSigner) (u : string) : RelayConfig :=
  let c := RelayConfig_new u Direct in
  {| rcf_url := rcf_url c; rcf_route := rcf_route c; rcf_auth := signer;
     rcf_authentication_policy := AuthenticateWhenChallenged; command_capacity := command_capacity c;
     notification_capacity := notification_capacity c; connect_timeout := CONNECT_WAIT;
     ping_interval := ping_interval c; idle_timeout := idle_timeout c; response_timeout := from_secs 10;
     shutdown_timeout := shutdown_timeout c; reconnect_initial_delay := reconnect_initial_delay c;
     reconnect_max_delay := reconnect_max_delay c; rcf_event_limits := rcf_event_limits c;
     rcf_frame_limits := rcf_frame_limits c |}.

Definition chat_pool_config : RelayPoolConfig := {|
  acknowledgement_threshold := 1; dedup_capacity := dedup_capacity RelayPoolConfig_default;
  dedup_ttl := dedup_ttl RelayPoolConfig_default |}.

Section Chat.
Context {W : Type} {aead : Aead} {hex : Hex} {json : Json} {sha : Sha256} {schnorr : Schnorr} {bech : Bech32}.
Context {crypto : Nip44Crypto} {b64 : Base64} {url : UrlLib}.

Abbreviation limits := EventLimits_default.

(** ** Stored state *)

Definition load_vec {A} (st : SealedStore) (name : string) (f : Value -> option A) (d : Disk W)
  : option (list A) * Disk W :=
  let '(r, d) := read st name d in
  (b ← result_ok r; v ← json_from_slice b; de_vec f v, d).
Definition load_contacts (st : SealedStore) : Disk W -> option (list Contact) * Disk W :=
  load_vec st CONTACTS_RECORD contact_of_value.
Definition load_messages (st : SealedStore) : Disk W -> option (list StoredMessage) * Disk W :=
  load_vec st MESSAGES_RECORD message_of_value.
Definition load_relays (st : SealedStore) (d : Disk W) : option (list string) * Disk W :=
  let '(r, d) := read st RELAYS_RECORD d in
  (b ← result_ok r; v ← json_from_slice b;
   match v with JObject m => rs ← bt_get "relays"%string (object_map m); de_vec de_string rs | _ => None end, d).

Definition save_record (name : string) (v : Value) : SE (Actor W) ChatError unit := fun a =>
  se_map_err CSealed (on_disk (write (store a) name (json_to_vec v))) a.
Definition save_contacts (cs : list Contact) : SE (Actor W) ChatError unit :=
  save_record CONTACTS_RECORD (JArray (map contact_value cs)).
Definition save_messages (ms : list StoredMessage) : SE (Actor W) ChatError unit :=
  save_record MESSAGES_RECORD (JArray (map message_value ms)).

Definition load_secret : SE (Actor W) ChatError (option NostrSecret) := fun a =>
  se_map_err CStore (on_disk (nostr_load (store a))) a.
(** [load_secret().ok().flatten()] *)
Definition secret_if_any (a : Actor W) : option NostrSecret * Actor W :=
  let '(r, a) := load_secret a in (result_ok r ≫= (fun o => o), a).

(** [NostrSecret::public_key] and [npub]: a loaded secret has both. *)
Definition own_key (s : NostrSecret) : bytes := default [] (NostrSecret_public_key s).
Definition own_npub (s : NostrSecret) : string := default ""%string (NostrSecret_npub s).

Definition ensure_identity : SE (Actor W) ChatError (NostrSecret * bool) :=
  let! found := load_secret in
  match found with
  | Some s => se_ret (Ok (s, false))
  | None =>
      let! s := se_map_err CIdentity (random NostrSecret_generate) in
      fun a =>
        match on_disk (save_new (store a) s) a with
        | (Ok _, a) => (Ok (s, true), a)
        | (Err AlreadyPresent, a) =>
            (let! found := load_secret in
             let! s := se_ret (ok_or CStopped found) in
             se_ret (Ok (s, false))) a
        | (Err e, a) => (Err (CStore e), a)
        end
  end.

(** ** Relays *)

Definition signer (a : Actor W) : option RelayAuthSigner * Actor W :=
  let '(s, a) := secret_if_any a in
  (s ← s; result_ok (RelayAuthSigner_from_secret_key (secret s)), a).

Definition publish_inbox_list (s : NostrSecret) (a : Actor W) : Actor W :=
  let advertised := take 3 (List.filter (starts_with "wss://") (relays a)) in
  if zlen advertised =? 0 then a else
  match unix_time a with
  | (Err _, a) => a
  | (Ok now, a) =>
      match random (create_dm_relay_list (secret s) now advertised limits) a with
      | (Err _, a) => a
      | (Ok event, a) => (publish_to_relays event a).2
      end
  end.

Definition dm_filter (pk : string) (since : Z) : Value := JObject
  [("#p", JArray [JString pk]); ("kinds", JArray [JInt 1059]); ("limit", JInt 200); ("since", JInt since)]%string.

Definition ensure_subscription (a : Actor W) : Actor W :=
  let '(s, a) := secret_if_any a in
  match s with
  | None => a
  | Some s =>
      let pk := hex_encode (own_key s) in
      if bool_decide (subscribed_for (pooled a) = Some pk) then a else
      let '(now, a) := unix_time a in
      let since := saturating_sub (default 0 (result_ok now)) LOOKBACK_SECONDS in
      let a := match pool (pooled a) with
               | Some p =>
                   let '(l, a) := next_link a in
                   set_pool (Some (pool_subscribe (link_env l) "omachat-dm" [dm_filter pk since] p).2) a
               | None => a
               end in
      publish_inbox_list s (set_subscribed (Some pk) a)
  end.

Definition restart_pool (a : Actor W) : Actor W :=
  let relays := relays a in
  let '(s, a) := secret_if_any a in
  let a := set_pooled {| pool := None; pool_relays := relays; pool_pubkey := hex_encode ∘ own_key <$> s;
                         subscribed_for := None |} a in
  if zlen relays =? 0 then a else
  let '(sg, a) := signer a in
  match RelayPool_spawn (map (chat_relay_config sg) relays) chat_pool_config with
  | Ok p => ensure_subscription (set_pool (Some p) a)
  | Err _ => a
  end.

Definition ensure_pool (a : Actor W) : Actor W :=
  let '(s, a) := secret_if_any a in
  if is_some (pool (pooled a)) && bool_decide (pool_relays (pooled a) = relays a)
     && bool_decide (pool_pubkey (pooled a) = (hex_encode ∘ own_key <$> s))
  then ensure_subscription a else restart_pool a.

(** ** Contacts *)

Definition find_contact (pk : string) (cs : list Contact) : option Contact :=
  find (fun c => String.eqb (ct_pubkey c) pk) cs.

Definition resolve_peer (net : Network) (peer : string) (a : Actor W) : result ChatError (bytes * option string) :=
  let peer := of_bytes (trim (as_bytes peer)) in
  if contains [x40] (as_bytes peer) then
    let? r := map_err CNip05 (resolve_handle net peer (loopback_nip05 a)) in
    Ok (rn_public_key r, Some (rn_name r +:+ "@" +:+ rn_domain r)%string)
  else
  match public_key_from_npub peer with
  | Ok pk => Ok (pk, None)
  | Err _ =>
      if (slen peer =? 64) && bytes_all is_ascii_hexdigit peer then
        let? pk := ok_or CInvalidPeer (hex_decode_to_slice 32 peer) in
        fail_if negb (schnorr_key_ok pk) with CInvalidPeer ;;
        Ok (pk, None)
      else
      match find (fun c => eq_ignore_ascii_case (as_bytes (ct_display c)) (as_bytes peer)
                           || String.eqb (ct_npub c) peer) (contacts a) with
      | Some c =>
          let? pk := ok_or CInvalidPeer (hex_decode_to_slice 32 (ct_pubkey c)) in
          Ok (pk, ct_nip05 c)
      | None => Err CInvalidPeer
      end
  end.

(** A new contact, once there is room for it *)
Definition new_contact (pk : bytes) (nip05 : option string) (cs : list Contact) : result ChatError Contact :=
  fail_if MAX_CONTACTS <=? zlen cs with CTooLarge ;;
  let? npub := map_err CIdentity (npub_from_public_key pk) in
  Ok {| ct_pubkey := hex_encode pk; ct_npub := npub; ct_nip05 := nip05; ct_display := default npub nip05 |}.

Definition push_contact (c : Contact) : SE (Actor W) ChatError unit := fun a =>
  let a := set_contacts (contacts a ++ [c]) a in save_contacts (contacts a) a.

Definition add_contact (net : Network) (peer : string) : SE (Actor W) ChatError Value :=
  let! _ := ensure_identity in
  let! pn := fun a => (resolve_peer net peer a, a) in
  let '(pk, nip05) := pn in
  let! mine := load_secret in
  let! mine := se_ret (ok_or CStopped mine) in
  let! _ := se_ret (fail_if bool_decide (pk = own_key mine) with CSelfContact ;; Ok tt) in
  fun a =>
    match find_contact (hex_encode pk) (contacts a) with
    | Some existing => (Ok (JObject [("contact", contact_json existing); ("created", JBool false)]%string), a)
    | None =>
        (let! contact := se_ret (new_contact pk nip05 (contacts a)) in
         let! _ := push_contact contact in
         fun a =>
           let a := publish TConversations
             (JObject [("conversation", JString ("dm:" +:+ ct_pubkey contact)); ("name", JString (ct_display contact))]%string) a in
           (Ok (JObject [("contact", contact_json contact); ("created", JBool true)]%string), ensure_pool a)) a
    end.

Definition remember_contact (pk : bytes) (nip05 : option string) : SE (Actor W) ChatError unit := fun a =>
  if existsb (fun c => String.eqb (ct_pubkey c) (hex_encode pk)) (contacts a) then (Ok tt, a)
  else (let! contact := se_ret (new_contact pk nip05 (contacts a)) in push_contact contact) a.

Definition remove_contact (npub : string) : SE (Actor W) ChatError Value :=
  let! pk := se_ret (map_err CIdentity (public_key_from_npub npub)) in
  fun a =>
    let kept := List.filter (fun c => negb (String.eqb (ct_pubkey c) (hex_encode pk))) (contacts a) in
    if (length kept =? length (contacts a))%nat then (Err CNotFound, set_contacts kept a)
    else (let! _ := save_contacts kept in se_ret (Ok (JObject [("removed", JBool true)]%string))) (set_contacts kept a).

(** ** Messages *)

Definition store_message (m : StoredMessage) : SE (Actor W) ChatError StoredMessage := fun a =>
  let kept := if zlen (messages a) =? MAX_MESSAGES then tail (messages a) else messages a in
  let a := set_messages (kept ++ [m]) a in
  (let! _ := save_messages (messages a) in
   fun a => (Ok m, publish TMessages (message_json m) a)) a.

Definition bad_text (text : string) : bool :=
  (slen text =? 0) || (MAX_TEXT_BYTES <? slen text)
  || existsb (fun c => is_control c && negb (c =? 10) && negb (c =? 9)) (chars text).

Definition wrap_for (r : Rumor) (s : NostrSecret) (pk : bytes) (now : Z) : SE (Actor W) ChatError SignedEvent :=
  se_map_err (fun e => CSend (SendGiftWrap e)) (random (create_gift_wrap r (secret s) pk now Persistent limits)).

Definition send (net : Network) (peer text : string) : SE (Actor W) ChatError Value :=
  let! _ := se_ret (fail_if bad_text text with CInvalidText ;; Ok tt) in
  let! id := ensure_identity in
  let s := id.1 in
  let! pn := fun a => let a := ensure_pool a in (resolve_peer net peer a, a) in
  let '(recipient, nip05) := pn in
  let! _ := se_ret (fail_if bool_decide (recipient = own_key s) with CSelfContact ;; Ok tt) in
  let! _ := remember_contact recipient nip05 in
  let! now := unix_time in
  let! rumor := se_ret (map_err (fun e => CSend (SendGiftWrap e))
    (create_chat_rumor (secret s) now [{| public_key := recipient; relay_hint := None |}] text None None limits)) in
  let! recipient_wrap := wrap_for rumor s recipient now in
  let! self_wrap := wrap_for rumor s (own_key s) now in
  let! _ := publish_to_relays recipient_wrap in
  fun a =>
    let a := publish_self_copy_for_other_devices self_wrap a in
    (let! m := store_message {|
       sm_id := r_id rumor; sm_conversation := ("dm:" +:+ hex_encode recipient)%string; sm_peer := hex_encode recipient;
       sm_sender := "you"; sm_text := text; sm_outgoing := true; sm_delivery := "stored";
       sm_created_at := r_created_at rumor |} in
     se_ret (Ok (JObject [("message"%string, message_json m)]))) a.

Definition display_for (cs : list Contact) (pk : string) : string :=
  match find_contact pk cs with
  | Some c => ct_display c
  | None =>
      match hex_decode_to_slice 32 pk with
      | Some raw => match npub_from_public_key raw with Ok npub => npub | Err _ => "peer"%string end
      | None => "peer"%string
      end
  end.

(** What an opened rumor is stored as *)
Definition message_of_rumor (r : Rumor) (mine : string) (cs : list Contact) : option StoredMessage :=
  let outgoing := String.eqb (r_pubkey r) mine in
  peer ← (if outgoing then tag ← find (fun tag => bool_decide (head tag = Some "p"%string)) (r_tags r); tag !! 1%nat
          else Some (r_pubkey r));
  if String.eqb peer mine then None else
  Some {| sm_id := r_id r; sm_conversation := ("dm:" +:+ peer)%string; sm_peer := peer;
          sm_sender := if outgoing then "you" else display_for cs peer; sm_text := r_content r;
          sm_outgoing := outgoing; sm_delivery := if outgoing then "stored" else "received";
          sm_created_at := r_created_at r |}.

Definition on_notification (n : RelayNotification) (a : Actor W) : Actor W :=
  match n with
  | NEvent _ event =>
      if negb (kind event =? 1059) then a else
      let '(s, a) := secret_if_any a in
      match s with
      | None => a
      | Some s =>
          let '(now, a) := unix_time a in
          match now with
          | Err _ => a
          | Ok now =>
              match open_gift_wrap event (secret s) now limits with
              | Err _ => a
              | Ok opened =>
                  let r := o_rumor opened in
                  if negb (r_kind r =? CHAT_MESSAGE_KIND) then a
                  else if MAX_TEXT_BYTES <? slen (r_content r) then a
                  else
                  match message_of_rumor r (hex_encode (own_key s)) (contacts a) with
                  | None => a
                  | Some m =>
                      if existsb (fun old => String.eqb (sm_id old) (r_id r)) (messages a) then a
                      else (store_message m a).2
                  end
              end
          end
      end
  | _ => a
  end.

(** ** Replies *)

Definition identity_value (generated : bool) : SE (Actor W) ChatError Value :=
  let! s := load_secret in
  let! s := se_ret (ok_or CStopped s) in
  se_ret (Ok (JObject [("generated", JBool generated); ("npub", JString (own_npub s));
                       ("pubkey", JString (hex_encode (own_key s)))]%string)).
Definition relay_value (a : Actor W) : Value := JObject [("relays"%string, ser_strings (relays a))].
Definition snapshot_value (a : Actor W) : Value * Actor W :=
  let '(s, a) := secret_if_any a in
  let identity :=
    match s with
    | Some s => JObject [("npub", JString (own_npub s)); ("present", JBool true);
                         ("pubkey", JString (hex_encode (own_key s)))]%string
    | None => JObject [("present"%string, JBool false)]
    end in
  (JObject [("contacts", JArray (map contact_json (contacts a))); ("identity", identity);
            ("messages", JArray (map message_json (messages a))); ("relays", ser_strings (relays a))]%string, a).

Definition prepare : SE (Actor W) ChatError Value :=
  let! id := ensure_identity in
  fun a => identity_value id.2 (restart_pool (set_subscribed None a)).

Definition change_relays (rs : list string) : SE (Actor W) ChatError Value :=
  let! canonical := se_ret (if zlen rs =? 0 then Ok [] else canonical_relays rs) in
  let! _ := save_record RELAYS_RECORD (JObject [("relays"%string, ser_strings canonical)]) in
  fun a =>
    let a := restart_pool (set_subscribed None (set_relays canonical a)) in
    (Ok (relay_value a), a).

(** ** The actor *)

Inductive ChatRequest :=
| Prepare | AddContact (peer : string) | RemoveContact (npub : string) | ListContacts | ShowRelays
| SetRelays (relays : list string) | Send (peer text : string) | Messages | Reload | Snapshot
| Loopback (base : option string) | ChatShutdown.

Definition ok_reply (c : Value * Actor W) : result ChatError Value * Actor W := (Ok c.1, c.2).

(** The answer, with the new state; [Shutdown] ends the loop. *)
Definition handle (net : Network) (request : ChatRequest) (a : Actor W) : result ChatError Value * Actor W :=
  match request with
  | Prepare => prepare a
  | AddContact peer => add_contact net peer a
  | RemoveContact npub => remove_contact npub a
  | ListContacts => (Ok (JObject [("contacts"%string, JArray (map contact_json (contacts a)))]), a)
  | ShowRelays => (Ok (relay_value a), a)
  | SetRelays rs => change_relays rs a
  | Send peer text => send net peer text a
  | Messages => (Ok (JObject [("messages"%string, JArray (map message_json (messages a)))]), a)
  | Reload => identity_value false (restart_pool (set_subscribed None a))
  | Snapshot => ok_reply (snapshot_value a)
  | Loopback base => (Ok (JObject [("ok"%string, JBool true)]), set_loopback base a)
  | ChatShutdown => (Ok JNull, a)
  end.

(** [NostrChat::spawn] and the start of [run] *)
Definition spawn (st : SealedStore) (configured_relays : list string) (w : World W) : Actor W :=
  let set_d d := {| disk := d; readings := readings w; links := links w; outbox := outbox w; hub := hub w;
                    sequence := sequence w |} in
  let '(rs, d) := load_relays st (disk w) in
  let '(cs, d) := load_contacts st d in
  let '(ms, d) := load_messages st d in
  restart_pool {| store := st; world := set_d d; relays := default configured_relays rs; contacts := default [] cs;
    messages := default [] ms;
    pooled := {| pool := None; pool_relays := []; pool_pubkey := None; subscribed_for := None |};
    loopback_nip05 := None |}.

(** One turn of [run]: a request, or what arrives on the connections. Every notification
    of the pool is handled in turn. *)
Inductive ChatInput := InRequest (net : Network) (request : ChatRequest) | InArrivals (arrivals : list Arrival).

Fixpoint deliver (fuel : nat) (arrivals : list Arrival) (a : Actor W) : Actor W :=
  match fuel, pool (pooled a) with
  | S fuel, Some p =>
      match next_notification arrivals p with
      | (NextNotification n, p, rest) => deliver fuel rest (on_notification (pn_notification n) (set_pool (Some p) a))
      | (_, p, _) => set_pool (Some p) a
      end
  | _, _ => a
  end.

Definition chat_step (i : ChatInput) (a : Actor W) : Actor W :=
  match i with
  | InRequest net r => (handle net r a).2
  | InArrivals l => deliver (S (length l)) l a
  end.

(** The loop, until a shutdown *)
Fixpoint chat_run (inputs : list ChatInput) (a : Actor W) : Actor W :=
  match inputs with
  | [] => a
  | InRequest _ ChatShutdown :: _ => set_pool None a
  | i :: inputs => chat_run inputs (chat_step i a)
  end.
End Chat.

(** ** What an operation touches *)

(** A running pool has the chat's configuration: one acknowledgement is enough. *)
Definition pool_fine {W : Type} (a : Actor W) : Prop :=
  forall p, pool (pooled a) = Some p -> pool_config p = chat_pool_config.

(** The records in [names], and the parts of the state they hold, may have changed. *)
Record touches {W : Type} (names : list string) (a a' : Actor W) : Prop := {
  t_store : store a' = store a;
  t_contacts : CONTACTS_RECORD ∉ names -> contacts a' = contacts a;
  t_messages : MESSAGES_RECORD ∉ names -> messages a' = messages a;
  t_relays : RELAYS_RECORD ∉ names -> relays a' = relays a;
  t_readings : readings (world a') `suffix_of` readings (world a);
  t_outbox : outbox (world a) `prefix_of` outbox (world a');
  t_pool : pool_fine a -> pool_fine a';
  t_files n : n ∉ names -> is_temporary n = false ->
    files (disk (world a')) !! (RecordsDir, n) = files (disk (world a)) !! (RecordsDir, n)
}.
Definition within {W E A : Type} (names : list string) (c : SE (Actor W) E A) : Prop :=
  forall a, touches names a (c a).2.

(** Which of the closed record names are in a closed list *)
Ltac decide_names := refine (bool_decide_unpack _ _); vm_compute; exact I.

Lemma in_singleton {A} (x : A) : x ∈ [x].
Proof. apply list_elem_of_here. Qed.

Lemma suffix_tail {A} (l : list A) : tail l `suffix_of` l.
Proof. destruct l as [|x l]; [done|]. by exists [x]. Qed.

Section Touches.
Context {W : Type} {aead : Aead} {hex : Hex} {json : Json} {sha : Sha256} {schnorr : Schnorr} {bech : Bech32}.
Context {crypto : Nip44Crypto} {b64 : Base64} {url : UrlLib} {aead_laws : AeadLaws}.
Implicit Types (a : Actor W) (names : list string).

Lemma touches_refl names a : touches names a a.
Proof using Type. by split. Qed.

Lemma touches_trans names a1 a2 a3 : touches names a1 a2 -> touches names a2 a3 -> touches names a1 a3.
Proof using Type.
  intros [S1 C1 M1 R1 L1 O1 P1 F1] [S2 C2 M2 R2 L2 O2 P2 F2].
  split; intros; [rewrite S2 | rewrite C2 | rewrite M2 | rewrite R2 | by trans (readings (world a2))
    | by trans (outbox (world a2)) | | rewrite F2]; auto.
Qed.

Lemma touches_mono names names' a1 a2 :
  (forall n, n ∈ names -> n ∈ names') -> touches names a1 a2 -> touches names' a1 a2.
Proof using Type. intros Hn [S1 C1 M1 R1 L1 O1 P1 F1]. split; eauto. Qed.

Lemma touches_nil names a1 a2 : touches [] a1 a2 -> touches names a1 a2.
Proof using Type. apply touches_mono. intros n Hn. by apply not_elem_of_nil in Hn. Qed.

Lemma within_ret {E A} names (r : result E A) : within (W := W) names (se_ret r).
Proof using Type. intros a. apply touches_refl. Qed.

Lemma within_bind {E A B} names (c : SE (Actor W) E A) (k : A -> SE (Actor W) E B) :
  within names c -> (forall x, within names (k x)) -> within names (se_bind c k).
Proof using Type.
  intros Hc Hk a. specialize (Hc a). unfold se_bind. destruct (c a) as [[x|e] a1]; [|done].
  eapply touches_trans; [exact Hc | apply Hk].
Qed.

Lemma within_map_err {E F A} names (f : E -> F) (c : SE (Actor W) E A) :
  within names c -> within names (se_map_err f c).
Proof using Type. intros Hc a. apply Hc. Qed.

Lemma within_mono {E A} names names' (c : SE (Actor W) E A) :
  (forall n, n ∈ names -> n ∈ names') -> within names c -> within names' c.
Proof using Type. intros Hn Hc a. by eapply touches_mono. Qed.

Lemma within_result {E A} names (f : Actor W -> result E A) : within names (fun a => (f a, a)).
Proof using Type. intros a. apply touches_refl. Qed.

(** A change of the world that keeps the records, or of the pool *)
Lemma touches_world names a w : files (disk w) = files (disk (world a)) ->
  readings w `suffix_of` readings (world a) -> outbox (world a) `prefix_of` outbox w -> touches names a (set_world w a).
Proof using Type. intros E Hr Ho. split; try done. intros n _ _. cbn. by rewrite E. Qed.
Lemma touches_pooled names a p :
  (forall q, pool p = Some q -> (exists q0, pool (pooled a) = Some q0 /\ pool_config q = pool_config q0)
                               \/ pool_config q = chat_pool_config) ->
  touches names a (set_pooled p a).
Proof using Type.
  intros Hp. split; try done. intros Ha q Hq. destruct (Hp q Hq) as [(q0 & H0 & ->)|]; auto.
Qed.
Lemma touches_subscribed names a s : touches names a (set_subscribed s a).
Proof using Type. apply touches_pooled. eauto. Qed.
Lemma touches_set_pool names a p q : pool (pooled a) = Some p -> pool_config q = pool_config p ->
  touches names a (set_pool (Some q) a).
Proof using Type. intros Hp Hq. apply touches_pooled. intros r [= <-]. eauto. Qed.

Lemma subscribe_config env i fs p : pool_config (pool_subscribe env i fs p).2 = pool_config p.
Proof using Type. unfold pool_subscribe. by case_match. Qed.

Lemma next_notification_config l : forall p, pool_config (next_notification l p).1.2 = pool_config p.
Proof using Type.
  induction l as [|x l IH]; intros p; cbn [next_notification]; [by case_match|].
  repeat (case_match; cbn [fst snd]; try done; try (by rewrite IH)).
Qed.

Lemma spawn_config configs config p : RelayPool_spawn configs config = Ok p -> pool_config p = config.
Proof using Type. unfold RelayPool_spawn. intros H. by inv_ok. Qed.

Lemma within_random {E A} names (c : SE Entropy E A) : within (W := W) names (random c).
Proof using Type. intros a. unfold random, se_zoom, set_rng, set_disk. cbn. by apply touches_world. Qed.
Lemma within_unix_time names : within (W := W) names unix_time.
Proof using Type. intros a. apply touches_world; [done | apply suffix_tail | done]. Qed.
Lemma touches_next_link names a : touches names a (next_link a).2.
Proof using Type. by apply touches_world. Qed.

Lemma read_files st n (d : Disk W) : files (read st n d).2 = files d.
Proof using Type.
  unfold read, se_bind, se_ret, se_map_err, sys_read, syscall.
  destruct (validate_record_name n) as [[]|]; [|done]. destruct (key_of_store st); [|done].
  destruct (crashed d); [done|].
  destruct (tape d) as [|[] t]; try done; destruct (files d !! (RecordsDir, n)); done.
Qed.

Lemma within_load_secret names : within (W := W) names load_secret.
Proof using Type.
  intros a. unfold load_secret, se_map_err, on_disk, se_zoom, nostr_load. cbn [snd].
  apply touches_world; [|done|done]. cbn [disk]. pose proof (read_files (store a) NOSTR_RECORD (disk (world a))) as Hf.
  destruct (read (store a) NOSTR_RECORD (disk (world a))) as [[b|e] d]; cbn [snd] in Hf |- *; [done|].
  by destruct e.
Qed.

Lemma touches_secret_if_any names a : touches names a (secret_if_any a).2.
Proof using Type.
  unfold secret_if_any. pose proof (within_load_secret names a) as H. by destruct (load_secret a).
Qed.

Lemma write_record_files st name pt (d : Disk W) n :
  n <> name -> is_temporary n = false ->
  files (write st name pt d).2 !! (RecordsDir, n) = files d !! (RecordsDir, n).
Proof using aead_laws.
  intros Hn Ht. destruct (erased st) eqn:He.
  - by rewrite (proj2 (erased_write st name pt d He)).
  - destruct (write st name pt d) as [r d1] eqn:E. destruct (write_files _ _ _ _ _ _ He E) as [H _].
    apply H; [congruence|]. unfold record_temporary. cbn [fst snd]. by rewrite Ht, andb_false_r.
Qed.

Lemma within_on_disk {E A} names (c : SE (Disk W) E A) :
  (forall d n, n ∉ names -> is_temporary n = false -> files (c d).2 !! (RecordsDir, n) = files d !! (RecordsDir, n)) ->
  within names (on_disk c).
Proof using Type. intros Hc a. split; try done. intros n Hn Ht. cbn. by apply Hc. Qed.

Lemma within_save_record names name v : name ∈ names -> within (W := W) names (save_record name v).
Proof using aead_laws.
  intros Hin a. unfold save_record. apply within_map_err, within_on_disk. intros d n Hn Ht.
  apply write_record_files; [by intros -> | done].
Qed.

Lemma within_save_new names st s : NOSTR_RECORD ∈ names -> within (W := W) names (on_disk (save_new st s)).
Proof using aead_laws.
  intros Hin. apply within_on_disk. intros d n Hn Ht. unfold save_new.
  pose proof (read_files st NOSTR_RECORD d) as Hr.
  destruct (read st NOSTR_RECORD d) as [[b|e] d1]; cbn [snd] in Hr |- *; [by rewrite Hr|].
  unfold se_map_err. cbn [snd]. rewrite write_record_files, Hr; [done | by intros -> | done].
Qed.

Lemma within_ensure_identity names : NOSTR_RECORD ∈ names -> within (W := W) names ensure_identity.
Proof using aead_laws.
  intros Hin. unfold ensure_identity. apply within_bind; [apply within_load_secret|].
  intros [s|]; [apply within_ret|]. apply within_bind; [apply within_map_err, within_random|].
  intros s a. pose proof (within_save_new names (store a) s Hin a) as H.
  destruct (on_disk (save_new (store a) s) a) as [[u|e] a1]; [done|].
  destruct e; try done. eapply touches_trans; [exact H|].
  apply within_bind; [apply within_load_secret|]. intros found. apply within_bind; intros; apply within_ret.
Qed.

Lemma within_publish_to_relays names event : within (W := W) names (publish_to_relays event).
Proof using Type.
  intros a. unfold publish_to_relays. destruct (pool (pooled a)) as [p|]; [|apply touches_refl].
  pose proof (touches_next_link names a) as H. destruct (next_link a) as [l a1].
  destruct (wait_connected p l); (eapply touches_trans; [exact H|]);
    apply touches_world; [done | done | by apply prefix_app_r | done | done | by apply prefix_app_r].
Qed.

Lemma touches_publish_inbox_list names s a : touches names a (publish_inbox_list s a).
Proof using Type.
  unfold publish_inbox_list. case_match; [apply touches_refl|].
  pose proof (within_unix_time names a) as H1. destruct (unix_time a) as [[now|e] a1]; [|done].
  eapply touches_trans; [exact H1|].
  match goal with |- context [random ?c a1] => pose proof (within_random names c a1) as H2; destruct (random c a1) as [[ev|e] a2] end;
    [|done]. eapply touches_trans; [exact H2 | apply within_publish_to_relays].
Qed.

Lemma touches_ensure_subscription names a : touches names a (ensure_subscription a).
Proof using Type.
  unfold ensure_subscription. pose proof (touches_secret_if_any names a) as H.
  destruct (secret_if_any a) as [[s|] a1]; [|done]. case_match; [done|].
  eapply touches_trans; [exact H|]. pose proof (within_unix_time names a1) as H1.
  destruct (unix_time a1) as [now a2]. eapply touches_trans; [exact H1|].
  destruct (pool (pooled a2)) as [p|] eqn:Ep.
  - pose proof (touches_next_link names a2) as H2. pose proof (eq_refl : pooled (next_link a2).2 = pooled a2) as E2.
    destruct (next_link a2) as [l a3]. cbn [snd] in E2.
    eapply touches_trans; [|apply touches_publish_inbox_list]. eapply touches_trans; [|apply touches_subscribed].
    eapply touches_trans; [exact H2|]. eapply touches_set_pool; [|apply subscribe_config]. congruence.
  - eapply touches_trans; [|apply touches_publish_inbox_list]. apply touches_subscribed.
Qed.

Lemma touches_restart_pool names a : touches names a (restart_pool a).
Proof using Type.
  unfold restart_pool. pose proof (touches_secret_if_any names a) as H. destruct (secret_if_any a) as [s a1].
  case_match; [eapply touches_trans; [exact H | by apply touches_pooled]|].
  eapply touches_trans; [exact H|].
  match goal with |- context [signer ?x] => set (a2 := x) end.
  apply (touches_trans _ a1 a2); [by apply touches_pooled|]. unfold signer.
  pose proof (touches_secret_if_any names a2) as H2. destruct (secret_if_any a2) as [s2 a3].
  eapply touches_trans; [exact H2|]. case_match eqn:Ep; [|apply touches_refl]. apply spawn_config in Ep.
  eapply touches_trans; [|apply touches_ensure_subscription]. apply touches_pooled. intros q [= <-]. auto.
Qed.

Lemma touches_ensure_pool names a : touches names a (ensure_pool a).
Proof using Type.
  unfold ensure_pool. pose proof (touches_secret_if_any names a) as H. destruct (secret_if_any a) as [s a1].
  eapply touches_trans; [exact H|]. case_match; [apply touches_ensure_subscription | apply touches_restart_pool].
Qed.

Lemma within_identity_value names g : within (W := W) names (identity_value g).
Proof using Type.
  unfold identity_value. apply within_bind; [apply within_load_secret|]. intros s. apply within_bind; intros; apply within_ret.
Qed.

Lemma touches_publish names t v a : touches names a (publish t v a).
Proof using Type. by apply touches_world. Qed.

Lemma within_push_contact c : within (W := W) [CONTACTS_RECORD] (push_contact c).
Proof using aead_laws.
  intros a. unfold push_contact. eapply touches_trans; [|apply within_save_record; set_solver].
  split; try done. intros H. exfalso. set_solver.
Qed.

Lemma within_remember_contact pk nip05 : within (W := W) [CONTACTS_RECORD] (remember_contact pk nip05).
Proof using aead_laws.
  intros a. unfold remember_contact. case_match; [apply touches_refl|].
  apply within_bind; [apply within_ret | intros; apply within_push_contact].
Qed.

Lemma within_store_message m : within (W := W) [MESSAGES_RECORD] (store_message m).
Proof using aead_laws.
  intros a. unfold store_message.
  match goal with |- touches _ _ (se_bind _ _ (set_messages ?ms a)).2 =>
    apply (touches_trans _ _ (set_messages ms a)); [split; try done; intros; exfalso; set_solver|] end.
  apply within_bind; [apply within_save_record; set_solver|]. intros u a1. apply touches_publish.
Qed.

Lemma touches_on_notification n a : touches [MESSAGES_RECORD] a (on_notification n a).
Proof using aead_laws.
  unfold on_notification. destruct n; try apply touches_refl. case_match; [apply touches_refl|].
  pose proof (touches_secret_if_any [MESSAGES_RECORD] a) as H0. destruct (secret_if_any a) as [[s|] a1]; [|done].
  pose proof (within_unix_time [MESSAGES_RECORD] a1) as H1. destruct (unix_time a1) as [[now|e] a2];
    eapply touches_trans; try exact H0; [|exact H1].
  eapply touches_trans; [exact H1|].
  repeat (case_match; try apply touches_refl). apply within_store_message.
Qed.
End Touches.

(** ** The invariant *)

Section Invariant.
Context {W : Type} {aead : Aead} {hex : Hex} {json : Json} {sha : Sha256} {schnorr : Schnorr} {bech : Bech32}.
Context {crypto : Nip44Crypto} {b64 : Base64} {url : UrlLib} {aead_laws : AeadLaws}.
Implicit Types (a : Actor W).

Definition contact_ok (c : Contact) : Prop :=
  exists pk, zlen pk = 32 /\ ct_pubkey c = hex_encode pk /\ npub_from_public_key pk = Ok (ct_npub c) /\
    ct_display c = default (ct_npub c) (ct_nip05 c).
Definition contacts_ok (cs : list Contact) : Prop :=
  Forall contact_ok cs /\ NoDup (map ct_pubkey cs) /\ zlen cs <= MAX_CONTACTS.
Definition message_ok (m : StoredMessage) : Prop :=
  sm_conversation m = ("dm:" +:+ sm_peer m)%string /\ slen (sm_text m) <= MAX_TEXT_BYTES.
Definition messages_ok (ms : list StoredMessage) : Prop := Forall message_ok ms /\ zlen ms <= MAX_MESSAGES.
Definition relays_ok (rs : list string) : Prop := NoDup rs /\ zlen rs <= MAX_RELAYS.
Definition chat_ok (a : Actor W) : Prop :=
  contacts_ok (contacts a) /\ messages_ok (messages a) /\ relays_ok (relays a) /\ pool_fine a.

Lemma chat_ok_same names a a' : touches names a a' ->
  CONTACTS_RECORD ∉ names -> MESSAGES_RECORD ∉ names -> RELAYS_RECORD ∉ names -> chat_ok a -> chat_ok a'.
Proof using Type. intros [_ C M R _ _ P _] Hc Hm Hr (? & ? & ? & ?). unfold chat_ok. rewrite C, M, R by done. auto. Qed.

Lemma chat_ok_quiet a a' : touches [NOSTR_RECORD] a a' -> chat_ok a -> chat_ok a'.
Proof using Type. intros H. apply (chat_ok_same _ _ _ H); decide_names. Qed.

Lemma keeps_quiet {E A} (c : SE (Actor W) E A) : within [NOSTR_RECORD] c -> keeps chat_ok c.
Proof using Type. intros H a. apply chat_ok_quiet, H. Qed.

Lemma keeps_ensure_identity : keeps (S := Actor W) chat_ok ensure_identity.
Proof using aead_laws. apply keeps_quiet, within_ensure_identity, in_singleton. Qed.

Lemma canonical_relays_loop_ok rs : forall canonical out,
  canonical_relays_loop rs canonical = Ok out -> NoDup canonical ->
  NoDup out /\ zlen out = zlen canonical + zlen rs.
Proof using Type.
  induction rs as [|r rs IH]; intros canonical out; cbn [canonical_relays_loop].
  - intros [= <-] Hn. split; [done|]. change (zlen (A := string) []) with 0. lia.
  - intros H Hn. inv_ok. split_bools. apply IH in H as [H1 H2]; [|by apply NoDup_snoc].
    split; [done|]. rewrite H2, zlen_app, !zlen_cons. change (zlen (A := string) []) with 0. lia.
Qed.

Lemma canonical_relays_ok rs out : canonical_relays rs = Ok out -> relays_ok out.
Proof using Type.
  unfold canonical_relays. intros H. inv_ok. split_bools.
  apply canonical_relays_loop_ok in H as [Hn Hz]; [|constructor]. split; [done|].
  change (zlen (A := string) []) with 0 in Hz. lia.
Qed.

Lemma decode_slice_length n s b : hex_decode_to_slice n s = Some b -> zlen b = n.
Proof using Type.
  unfold hex_decode_to_slice. destruct (hex_decode s); [|done]. case_match; [|done]. intros [= <-]. by split_bools.
Qed.

Lemma resolve_peer_length net peer a pk nip05 : resolve_peer net peer a = Ok (pk, nip05) -> zlen pk = 32.
Proof using Type.
  unfold resolve_peer. case_match.
  - intros Hr. inv_ok.
    unfold resolve_handle in Ha. apply rbind_ok_inv in Ha as ([name domain] & _ & Ha). inv_ok.
    cbn [rn_public_key]. unfold public_key_from_document in *. inv_ok.
    eapply decode_slice_length; eassumption.
  - destruct (public_key_from_npub _) as [k|] eqn:Ek.
    + intros [= <- _]. unfold public_key_from_npub, decode_bech32_key in Ek.
      apply fail_if_ok_inv in Ek as [_ Ek]. apply rbind_ok_inv in Ek as ([hrp payload] & _ & Ek).
      inv_ok. by split_bools.
    + case_match; [|case_match; [|done]]; intros Hr; inv_ok;
        eapply decode_slice_length; eassumption.
Qed.

Lemma find_contact_none pk cs : find_contact pk cs = None -> pk ∉ map ct_pubkey cs.
Proof using Type.
  intros H (c & -> & Hc)%list_elem_of_fmap. unfold find_contact in H.
  apply list_elem_of_In in Hc. apply (find_none _ _ H) in Hc. by rewrite String.eqb_refl in Hc.
Qed.

Lemma existsb_contact_false pk cs :
  existsb (fun c => String.eqb (ct_pubkey c) pk) cs = false -> pk ∉ map ct_pubkey cs.
Proof using Type.
  intros H (c & -> & Hc)%list_elem_of_fmap. apply list_elem_of_In in Hc.
  enough (existsb (fun c' => String.eqb (ct_pubkey c') (ct_pubkey c)) cs = true) as E by (by rewrite E in H).
  apply existsb_exists. exists c. split; [done | apply String.eqb_refl].
Qed.

Lemma new_contact_ok pk nip05 cs c : zlen pk = 32 -> hex_encode pk ∉ map ct_pubkey cs ->
  new_contact pk nip05 cs = Ok c -> contacts_ok cs -> contacts_ok (cs ++ [c]).
Proof using Type.
  unfold new_contact. intros Hl Hn H (Hf & Hd & Hz). inv_ok. split_bools. unfold contacts_ok. split_and!.
  - apply Forall_app. split; [done|]. constructor; [|constructor]. by exists pk.
  - rewrite map_app. by apply NoDup_snoc.
  - rewrite zlen_app, zlen_cons. change (zlen (A := Contact) []) with 0. lia.
Qed.

Lemma push_contact_ok c a : contacts_ok (contacts a ++ [c]) -> chat_ok a -> chat_ok (push_contact c a).2.
Proof using aead_laws.
  by intros Hc (_ & Hm & Hr & Hp).
Qed.

Lemma keeps_remember_contact pk nip05 : zlen pk = 32 -> keeps (S := Actor W) chat_ok (remember_contact pk nip05).
Proof using aead_laws.
  intros Hl a Ha. unfold remember_contact. destruct (existsb _ _) eqn:E; [done|]. apply existsb_contact_false in E.
  unfold se_bind, se_ret. destruct (new_contact pk nip05 (contacts a)) as [c|] eqn:En; [|done].
  apply push_contact_ok; [|done]. destruct Ha as [Hc _]. eauto using new_contact_ok.
Qed.

Lemma keeps_add_contact net peer : keeps (S := Actor W) chat_ok (add_contact net peer).
Proof using aead_laws.
  unfold add_contact. apply keeps_bind; [apply keeps_ensure_identity|]. intros _ a Ha.
  unfold se_bind at 1. destruct (resolve_peer net peer a) as [[pk nip05]|] eqn:Er; [|done].
  apply resolve_peer_length in Er. revert a Ha. apply keeps_bind; [apply keeps_quiet, within_load_secret|].
  intros mine. apply keeps_bind; [apply keeps_ret|]. intros s. apply keeps_bind; [apply keeps_ret|]. intros _ a Ha.
  destruct (find_contact _ _) eqn:E; [done|]. apply find_contact_none in E.
  unfold se_bind at 1, se_ret. destruct (new_contact pk nip05 (contacts a)) as [c|] eqn:En; [|done].
  assert (chat_ok (push_contact c a).2) as Hp.
  { apply push_contact_ok; [|done]. destruct Ha as [Hc _]. eauto using new_contact_ok. }
  unfold se_bind. destruct (push_contact c a) as [[u|e] a1]; [|done]. cbn [snd] in *.
  eapply chat_ok_quiet; [apply touches_nil, touches_ensure_pool | done].
Qed.

Lemma keeps_remove_contact npub : keeps (S := Actor W) chat_ok (remove_contact npub).
Proof using aead_laws.
  unfold remove_contact. apply keeps_bind; [apply keeps_ret|]. intros pk a ((Hf & Hn & Hz) & Hm & Hr & Hp).
  set (kept := List.filter _ (contacts a)).
  assert (chat_ok (set_contacts kept a)) as Hk.
  { split_and!; [split_and!|done|done|done]; cbn.
    - apply Forall_forall. intros c Hc. apply list_elem_of_In, filter_In in Hc as [Hc _].
      rewrite Forall_forall in Hf. apply Hf. by apply list_elem_of_In.
    - by apply NoDup_map_filter.
    - unfold zlen in *. pose proof (filter_length_le (fun c => negb (String.eqb (ct_pubkey c) (hex_encode pk))) (contacts a)).
      unfold kept. lia. }
  case_match; [done|]. unfold se_bind, save_contacts, save_record, se_map_err, on_disk, se_zoom. cbn [fst snd].
  by destruct (map_err CSealed _).
Qed.

Lemma store_message_ok m a : message_ok m -> chat_ok a -> chat_ok (store_message m a).2.
Proof using aead_laws.
  intros Hm (Hc & (Hf & Hz) & Hr & Hp). unfold store_message.
  set (kept := if zlen (messages a) =? MAX_MESSAGES then tail (messages a) else messages a).
  assert (messages_ok (kept ++ [m])) as Hk.
  { split.
    - apply Forall_app. split; [|by constructor]. unfold kept. case_match; [|done]. destruct (messages a); [done|].
      by inversion Hf.
    - rewrite zlen_app, zlen_cons. change (zlen (A := StoredMessage) []) with 0. unfold kept, MAX_MESSAGES in *.
      case_match; split_bools; [|lia]. destruct (messages a); [done|]. rewrite zlen_cons in *. cbn [tail]. lia. }
  unfold se_bind, save_messages, save_record, se_map_err, on_disk, se_zoom. cbn [fst snd].
  by destruct (map_err CSealed _).
Qed.

Lemma message_of_rumor_ok r mine cs m :
  slen (r_content r) <= MAX_TEXT_BYTES -> message_of_rumor r mine cs = Some m -> message_ok m.
Proof using Type.
  unfold message_of_rumor. intros Ht H. apply bind_Some in H as (peer & _ & H).
  destruct (String.eqb peer mine); [done|]. injection H as <-. by split.
Qed.

Lemma on_notification_ok n a : chat_ok a -> chat_ok (on_notification n a).
Proof using aead_laws.
  intros Ha. unfold on_notification. destruct n as [| |sid event| | | | | |]; try done. case_match; [done|].
  pose proof (chat_ok_quiet _ _ (touches_secret_if_any _ a) Ha) as Ha1. destruct (secret_if_any a) as [[s|] a1]; [|done].
  pose proof (chat_ok_quiet _ _ (within_unix_time _ a1) Ha1) as Ha2. destruct (unix_time a1) as [[now|e] a2]; [|done].
  destruct (open_gift_wrap _ _ _ _) as [o|]; [|done]. case_match; [done|]. case_match eqn:Et; [done|].
  split_bools. destruct (message_of_rumor _ _ _) as [m|] eqn:Em; [|done]. case_match; [done|].
  apply store_message_ok; [|done]. by eapply message_of_rumor_ok.
Qed.

Lemma keeps_send net peer text : keeps (S := Actor W) chat_ok (send net peer text).
Proof using aead_laws.
  unfold send. apply keeps_bind_ret. intros u Ht. apply fail_if_ok_inv in Ht as [Ht _].
  unfold bad_text in Ht. split_bools. apply keeps_bind; [apply keeps_ensure_identity|]. intros id a Ha.
  unfold se_bind at 1. destruct (resolve_peer net peer (ensure_pool a)) as [[pk nip05]|] eqn:Er; cbn [fst snd].
  2: { eapply chat_ok_quiet; [apply touches_nil, touches_ensure_pool | done]. }
  apply resolve_peer_length in Er.
  assert (chat_ok (ensure_pool a)) as Hp by (eapply chat_ok_quiet; [apply touches_nil, touches_ensure_pool | done]).
  revert Hp. generalize (ensure_pool a). clear a Ha. apply keeps_bind; [apply keeps_ret|]. intros _.
  apply keeps_bind; [by apply keeps_remember_contact|]. intros _.
  apply keeps_bind; [apply keeps_quiet, within_unix_time|]. intros now.
  apply keeps_bind; [apply keeps_ret|]. intros rumor.
  apply keeps_bind; [apply keeps_quiet, within_map_err, within_random|]. intros wrap.
  apply keeps_bind; [apply keeps_quiet, within_map_err, within_random|]. intros self.
  apply keeps_bind; [apply keeps_quiet, within_publish_to_relays|]. intros _ a Ha.
  assert (chat_ok (publish_self_copy_for_other_devices self a)) as Hs
    by (eapply chat_ok_quiet; [apply within_publish_to_relays | done]).
  revert Hs. apply keeps_bind; [|intros; apply keeps_ret]. intros a' Ha'. apply store_message_ok; [by split | done].
Qed.

Lemma keeps_change_relays rs : keeps (S := Actor W) chat_ok (change_relays rs).
Proof using aead_laws.
  unfold change_relays. apply keeps_bind_ret. intros out Hout.
  assert (relays_ok out) as Hr.
  { destruct (zlen rs =? 0); [|by eapply canonical_relays_ok]. injection Hout as <-. by repeat constructor. }
  apply keeps_bind; [by intros a Ha|]. intros _ a (Hc & Hm & _ & Hp).
  eapply chat_ok_quiet; [apply touches_nil, touches_restart_pool|]. eapply chat_ok_quiet; [apply touches_subscribed | by split].
Qed.

Lemma restart_reply_ok g a : chat_ok a -> chat_ok (identity_value g (restart_pool (set_subscribed None a))).2.
Proof using aead_laws.
  intros Ha. eapply chat_ok_quiet; [apply within_identity_value|].
  eapply chat_ok_quiet; [apply touches_nil, touches_restart_pool|].
  eapply chat_ok_quiet; [apply touches_subscribed | done].
Qed.

Lemma handle_ok net r a : chat_ok a -> chat_ok (handle net r a).2.
Proof using aead_laws.
  intros Ha. destruct r; try done; cbn [handle].
  - revert a Ha. apply keeps_bind; [apply keeps_ensure_identity|]. intros id a Ha. by apply restart_reply_ok.
  - by apply keeps_add_contact.
  - by apply keeps_remove_contact.
  - by apply keeps_change_relays.
  - by apply keeps_send.
  - by apply restart_reply_ok.
Qed.

Lemma deliver_ok fuel : forall l a, chat_ok a -> chat_ok (deliver fuel l a).
Proof using aead_laws.
  induction fuel as [|fuel IH]; intros l a Ha; cbn [deliver]; [done|].
  destruct (pool (pooled a)) as [p|] eqn:Ep; [|done].
  pose proof (next_notification_config l p) as Hc. destruct (next_notification l p) as [[o p'] rest]. cbn [fst snd] in Hc.
  assert (chat_ok (set_pool (Some p') a)) as Hs by (eapply chat_ok_quiet; [by eapply touches_set_pool | done]).
  destruct o; [done | done |]. by apply IH, on_notification_ok.
Qed.

Lemma chat_run_ok inputs : forall a, chat_ok a -> chat_ok (chat_run inputs a).
Proof using aead_laws.
  induction inputs as [|i inputs IH]; intros a Ha; [done|].
  assert (chat_ok (chat_step i a)) as Hs by (destruct i; [by apply handle_ok | by apply deliver_ok]).
  destruct i as [net []|l]; cbn [chat_run]; try (by apply IH).
  destruct Ha as (? & ? & ? & _). by split_and!.
Qed.
End Invariant.

(** ** What survives a restart *)

Definition reboot_world {W : Type} (w : World W) : World W := {|
  disk := reboot (disk w); readings := readings w; links := links w; outbox := outbox w; hub := hub w;
  sequence := sequence w |}.

(** The strings of Rust are valid UTF-8 and a [u64] is in range. *)
Definition contact_wf (c : Contact) : bool :=
  utf8_valid (ct_pubkey c) && utf8_valid (ct_npub c) && utf8_valid (ct_display c)
  && match ct_nip05 c with Some n => utf8_valid n | None => true end.
Definition message_wf (m : StoredMessage) : bool :=
  forallb utf8_valid [sm_id m; sm_conversation m; sm_peer m; sm_sender m; sm_text m; sm_delivery m]
  && in_range 0 u64_max (sm_created_at m).
Definition book_wf {W : Type} (a : Actor W) : bool :=
  forallb contact_wf (contacts a) && forallb message_wf (messages a) && forallb utf8_valid (relays a).

Section Durable.
Context {W : Type} {aead : Aead} {hex : Hex} {json : Json} {sha : Sha256} {schnorr : Schnorr} {bech : Bech32}.
Context {crypto : Nip44Crypto} {b64 : Base64} {url : UrlLib} {aead_laws : AeadLaws} {json_laws : JsonLaws}.
Implicit Types (a : Actor W).

Lemma contact_roundtrip c : contact_of_value (contact_value c) = Some c.
Proof using Type. destruct c as [p n [m|] d]; vm_compute; reflexivity. Qed.

Lemma message_roundtrip m : in_range 0 u64_max (sm_created_at m) = true ->
  message_of_value (message_value m) = Some m.
Proof using Type.
  intros Ht. unfold message_of_value, message_value. rewrite de_struct_zip; [|decide_names | done].
  unfold message_values. cbn [mbind option_bind de_string de_bool]. unfold de_uint. rewrite Ht. by destruct m.
Qed.

Lemma contact_value_wf c : contact_wf c = true -> json_wf (contact_value c) = true.
Proof using Type.
  unfold contact_wf. intros H. split_bools. unfold contact_value. cbn [json_wf].
  destruct (ct_nip05 c) as [n|]; cbn [app forallb fst snd json_wf];
    repeat match goal with E : utf8_valid _ = true |- _ => rewrite E; clear E end; reflexivity.
Qed.

Lemma message_value_wf m : message_wf m = true -> json_wf (message_value m) = true.
Proof using Type.
  unfold message_wf. cbn [forallb]. intros H. split_bools. unfold message_value, message_values, message_fields.
  cbn [zip zip_with json_wf forallb fst snd].
  repeat match goal with E : utf8_valid _ = true |- _ => rewrite E; clear E end.
  assert ((- i64_max - 1 <=? sm_created_at m) && (sm_created_at m <=? u64_max) = true) as ->; [|reflexivity].
  unfold in_range in *. split_bools. unfold_ints. lia.
Qed.

(** A list that was saved is loaded again. *)
Lemma load_saved {A} st name (f : Value -> option A) (g : A -> Value) l (d d1 : Disk W) :
  (forall x, x ∈ l -> f (g x) = Some x /\ json_wf (g x) = true) ->
  write st name (json_to_vec (JArray (map g l))) d = (Ok tt, d1) ->
  (load_vec st name f (reboot d1)).1 = Some l.
Proof using aead_laws json_laws.
  intros Hl Hw. unfold load_vec. rewrite (write_then_read _ _ _ _ _ Hw). cbn [fst result_ok mbind option_bind].
  rewrite json_roundtrip.
  - cbn [mbind option_bind]. apply de_vec_map, Forall_forall. intros x Hx. by apply Hl.
  - cbn [json_wf]. apply forallb_forall. intros v (x & <- & Hx)%in_map_iff. apply Hl. by apply list_elem_of_In.
Qed.

Lemma read_calm st n (d : Disk W) : calm d -> (read st n d).2 = d.
Proof using Type.
  intros Hd. unfold read, se_bind, se_ret, se_map_err, sys_read. destruct (validate_record_name n) as [[]|]; [|done].
  destruct (key_of_store st); [|done]. rewrite syscall_calm by done.
  destruct (files d !! (RecordsDir, n)); cbn; [apply set_files_same | done].
Qed.

(** What the records say, for the next process *)
Definition contacts_saved a : Prop :=
  default [] (load_contacts (store a) (reboot (disk (world a)))).1 = contacts a.
Definition messages_saved a : Prop :=
  default [] (load_messages (store a) (reboot (disk (world a)))).1 = messages a.
Definition relays_saved (configured : list string) a : Prop :=
  default configured (load_relays (store a) (reboot (disk (world a)))).1 = relays a.
Lemma loads_same st n (d1 d2 : Disk W) : is_temporary n = false ->
  files d1 !! (RecordsDir, n) = files d2 !! (RecordsDir, n) ->
  (read st n (reboot d1)).1 = (read st n (reboot d2)).1.
Proof using Type. intros _ E. by apply read_same. Qed.

Lemma load_vec_same {A} st n (f : Value -> option A) (d1 d2 : Disk W) :
  (read st n d1).1 = (read st n d2).1 -> (load_vec st n f d1).1 = (load_vec st n f d2).1.
Proof using Type.
  unfold load_vec. intros E. destruct (read st n d1), (read st n d2). cbn in E. by subst.
Qed.
Lemma load_relays_same st (d1 d2 : Disk W) :
  (read st RELAYS_RECORD d1).1 = (read st RELAYS_RECORD d2).1 -> (load_relays st d1).1 = (load_relays st d2).1.
Proof using Type.
  unfold load_relays. intros E. destruct (read st RELAYS_RECORD d1), (read st RELAYS_RECORD d2). cbn in E. by subst.
Qed.

Lemma save_record_inv name v a u a1 : save_record name v a = (Ok u, a1) ->
  write (store a) name (json_to_vec v) (disk (world a)) = (Ok tt, disk (world a1)) /\
  a1 = set_disk (disk (world a1)) a.
Proof using Type.
  unfold save_record, se_map_err, on_disk, se_zoom. cbn [fst snd].
  destruct (write _ _ _ _) as [[[]|] d] eqn:E; [|done]. intros [= _ <-]. done.
Qed.

(** What was written is what the next process reads. *)
Lemma save_contacts_written cs a u a1 : save_contacts cs (set_contacts cs a) = (Ok u, a1) ->
  forallb contact_wf (contacts a1) = true -> contacts_saved a1.
Proof using aead_laws json_laws.
  intros [Hw E]%save_record_inv Hf. unfold contacts_saved. rewrite E in Hf |- *. cbn in Hf |- *. unfold load_contacts.
  erewrite load_saved; [done | | exact Hw]. intros c Hin. split; [apply contact_roundtrip|].
  apply contact_value_wf. eapply forallb_forall in Hf; [exact Hf | by apply list_elem_of_In].
Qed.
Lemma save_messages_written ms a u a1 : save_messages ms (set_messages ms a) = (Ok u, a1) ->
  forallb message_wf (messages a1) = true -> messages_saved a1.
Proof using aead_laws json_laws.
  intros [Hw E]%save_record_inv Hf. unfold messages_saved. rewrite E in Hf |- *. cbn in Hf |- *. unfold load_messages.
  erewrite load_saved; [done | | exact Hw]. intros m Hin.
  eapply forallb_forall in Hf; [|apply list_elem_of_In, Hin]. split; [|by apply message_value_wf].
  apply message_roundtrip. unfold message_wf in Hf. by split_bools.
Qed.
Lemma save_relays_written configured rs a u a1 :
  save_record RELAYS_RECORD (JObject [("relays"%string, ser_strings rs)]) a = (Ok u, a1) ->
  forallb utf8_valid rs = true -> relays_saved configured (set_relays rs a1).
Proof using aead_laws json_laws.
  intros Hs Hf. pose proof (within_save_record [RELAYS_RECORD] RELAYS_RECORD (JObject [("relays"%string, ser_strings rs)])
    (in_singleton _) a) as [S _ _ _ _ _ _ _]. rewrite Hs in S. cbn [snd] in S.
  apply save_record_inv in Hs as [Hw E]. unfold relays_saved. cbn [store set_relays]. rewrite S. unfold load_relays.
  cbn [world set_relays relays] in *.
  rewrite (write_then_read _ _ _ _ _ Hw). cbn [fst result_ok mbind option_bind].
  rewrite json_roundtrip.
  - cbn [mbind option_bind]. change (bt_get _ _) with (Some (ser_strings rs)). cbn [mbind option_bind].
    by rewrite de_vec_strings.
  - cbn [json_wf forallb fst snd]. change (utf8_valid "relays") with true. cbn [andb]. rewrite andb_true_r.
    rewrite json_wf_strings. done.
Qed.

(** *** Since an earlier state

    Each part of the book is either as it was, in memory and on disk, or on disk as it is
    in memory. *)
Section Since.
Context (a0 : Actor W).

Definition record_kept (name : string) a : Prop :=
  store a = store a0 /\ files (disk (world a)) !! (RecordsDir, name) = files (disk (world a0)) !! (RecordsDir, name).
Definition contacts_safe a : Prop := contacts a = contacts a0 /\ record_kept CONTACTS_RECORD a \/ contacts_saved a.
Definition messages_safe a : Prop := messages a = messages a0 /\ record_kept MESSAGES_RECORD a \/ messages_saved a.
Definition relays_safe (configured : list string) a : Prop :=
  relays a = relays a0 /\ record_kept RELAYS_RECORD a \/ relays_saved configured a.
Definition saved (configured : list string) a : Prop :=
  (forallb contact_wf (contacts a) = true -> contacts_safe a) /\
  (forallb message_wf (messages a) = true -> messages_safe a) /\
  (forallb utf8_valid (relays a) = true -> relays_safe configured a).

Lemma contacts_safe_touches names a a' : touches names a a' -> CONTACTS_RECORD ∉ names ->
  contacts_safe a -> contacts_safe a'.
Proof using Type.
  intros [S C _ _ _ _ _ F] Hn [[H [K1 K2]]|H].
  - left. unfold record_kept. rewrite S, C, F by done. auto.
  - right. unfold contacts_saved in *. rewrite S, C, <- H by done. f_equal. apply load_vec_same, loads_same; [done|]. by apply F.
Qed.
Lemma messages_safe_touches names a a' : touches names a a' -> MESSAGES_RECORD ∉ names ->
  messages_safe a -> messages_safe a'.
Proof using Type.
  intros [S _ M _ _ _ _ F] Hn [[H [K1 K2]]|H].
  - left. unfold record_kept. rewrite S, M, F by done. auto.
  - right. unfold messages_saved in *. rewrite S, M, <- H by done. f_equal. apply load_vec_same, loads_same; [done|]. by apply F.
Qed.
Lemma relays_safe_touches names configured a a' : touches names a a' -> RELAYS_RECORD ∉ names ->
  relays_safe configured a -> relays_safe configured a'.
Proof using Type.
  intros [S _ _ R _ _ _ F] Hn [[H [K1 K2]]|H].
  - left. unfold record_kept. rewrite S, R, F by done. auto.
  - right. unfold relays_saved in *. rewrite S, R, <- H by done. f_equal. apply load_relays_same, loads_same; [done|]. by apply F.
Qed.

Lemma saved_quiet configured a a' : touches [NOSTR_RECORD] a a' -> saved configured a -> saved configured a'.
Proof using Type.
  intros Ht (Hc & Hm & Hr). pose proof Ht as [S C M R _ _ _ F]. split_and!.
  - rewrite C by decide_names. intros Hw. eapply contacts_safe_touches; [exact Ht | decide_names | auto].
  - rewrite M by decide_names. intros Hw. eapply messages_safe_touches; [exact Ht | decide_names | auto].
  - rewrite R by decide_names. intros Hw. eapply relays_safe_touches; [exact Ht | decide_names | auto].
Qed.

Lemma save_contacts_saved configured cs a u a1 :
  saved configured a -> save_contacts cs (set_contacts cs a) = (Ok u, a1) -> saved configured a1.
Proof using aead_laws json_laws.
  intros (Hc & Hm & Hr) Hs.
  pose proof (within_save_record [CONTACTS_RECORD] CONTACTS_RECORD (JArray (map contact_value cs))
    (in_singleton _) (set_contacts cs a)) as Ht. fold (save_contacts (W := W) cs) in Ht. rewrite Hs in Ht. cbn [snd] in Ht.
  assert (touches [CONTACTS_RECORD] a a1) as Ht'.
  { eapply touches_trans; [|exact Ht]. split; try done. intros H. exfalso. apply H. apply in_singleton. }
  pose proof Ht' as [S _ M R _ _ _ F]. split_and!.
  - intros Hf. right. by eapply save_contacts_written.
  - rewrite M by decide_names. intros Hf. eapply messages_safe_touches; [exact Ht' | decide_names | auto].
  - rewrite R by decide_names. intros Hf. eapply relays_safe_touches; [exact Ht' | decide_names | auto].
Qed.

Lemma save_messages_saved configured ms a u a1 :
  saved configured a -> save_messages ms (set_messages ms a) = (Ok u, a1) -> saved configured a1.
Proof using aead_laws json_laws.
  intros (Hc & Hm & Hr) Hs.
  pose proof (within_save_record [MESSAGES_RECORD] MESSAGES_RECORD (JArray (map message_value ms))
    (in_singleton _) (set_messages ms a)) as Ht. fold (save_messages (W := W) ms) in Ht. rewrite Hs in Ht. cbn [snd] in Ht.
  assert (touches [MESSAGES_RECORD] a a1) as Ht'.
  { eapply touches_trans; [|exact Ht]. split; try done. intros H. exfalso. apply H. apply in_singleton. }
  pose proof Ht' as [S C _ R _ _ _ F]. split_and!.
  - rewrite C by decide_names. intros Hf. eapply contacts_safe_touches; [exact Ht' | decide_names | auto].
  - intros Hf. right. by eapply save_messages_written.
  - rewrite R by decide_names. intros Hf. eapply relays_safe_touches; [exact Ht' | decide_names | auto].
Qed.

Lemma save_relays_saved configured rs a u a1 :
  saved configured a -> save_record RELAYS_RECORD (JObject [("relays"%string, ser_strings rs)]) a = (Ok u, a1) ->
  saved configured (set_relays rs a1).
Proof using aead_laws json_laws.
  intros (Hc & Hm & Hr) Hs.
  pose proof (within_save_record [RELAYS_RECORD] RELAYS_RECORD (JObject [("relays"%string, ser_strings rs)])
    (in_singleton _) a) as Ht. rewrite Hs in Ht. cbn [snd] in Ht.
  assert (touches [RELAYS_RECORD] a (set_relays rs a1)) as Ht'.
  { eapply touches_trans; [exact Ht|]. split; try done. intros H. exfalso. apply H. apply in_singleton. }
  pose proof Ht' as [S C M _ _ _ _ F]. split_and!.
  - rewrite C by decide_names. intros Hf. eapply contacts_safe_touches; [exact Ht' | decide_names | auto].
  - rewrite M by decide_names. intros Hf. eapply messages_safe_touches; [exact Ht' | decide_names | auto].
  - intros Hf. right. by eapply save_relays_written.
Qed.

(** A successful operation of the actor leaves its state saved. *)
Abbreviation saves configured c := (hoare (S := Actor W) (saved configured) c (fun _ a => saved configured a) (fun _ => True)).

Lemma saves_quiet {E A} configured (c : SE (Actor W) E A) : within [NOSTR_RECORD] c -> saves configured c.
Proof using Type.
  intros Hc a Ha. specialize (Hc a). destruct (c a) as [[x|] a1]; [|done]. by eapply saved_quiet.
Qed.
Lemma saves_bind {E A B} configured (c : SE (Actor W) E A) (k : A -> SE (Actor W) E B) :
  saves configured c -> (forall x, saves configured (k x)) -> saves configured (se_bind c k).
Proof using Type. intros Hc Hk. eapply hoare_bind; [exact Hc|]. intros x. apply Hk. Qed.
Lemma saves_ret {E A} configured (r : result E A) : saves configured (se_ret r).
Proof using Type. intros a Ha. unfold se_ret. by destruct r. Qed.

Lemma saves_push_contact configured c : saves configured (push_contact c).
Proof using aead_laws json_laws.
  intros a Ha. unfold push_contact. destruct (save_contacts _ _) as [[u|] a1] eqn:E; [|done].
  by eapply save_contacts_saved.
Qed.

Lemma saves_store_message configured m : saves configured (store_message m).
Proof using aead_laws json_laws.
  intros a Ha. unfold store_message.
  match goal with |- context [set_messages ?ms a] => set (ms' := ms) end. cbn [messages set_messages].
  unfold se_bind. destruct (save_messages ms' (set_messages ms' a)) as [[u|] a1] eqn:E; [|done].
  eapply saved_quiet; [apply touches_publish|]. by eapply save_messages_saved.
Qed.

Lemma saves_ensure_identity configured : saves configured ensure_identity.
Proof using aead_laws. apply saves_quiet, within_ensure_identity, in_singleton. Qed.

Lemma saves_add_contact configured net peer : saves configured (add_contact net peer).
Proof using aead_laws json_laws.
  unfold add_contact. apply saves_bind; [apply saves_ensure_identity|]. intros _.
  apply saves_bind; [apply saves_quiet, within_result|]. intros [pk nip05].
  apply saves_bind; [apply saves_quiet, within_load_secret|]. intros mine.
  apply saves_bind; [apply saves_ret|]. intros s. apply saves_bind; [apply saves_ret|]. intros _ a Ha.
  destruct (find_contact _ _); [done|]. generalize (new_contact pk nip05 (contacts a)). intros r. revert a Ha.
  apply saves_bind; [apply saves_ret|]. intros c. apply saves_bind; [apply saves_push_contact|]. intros _ a Ha.
  eapply saved_quiet; [apply touches_nil, touches_ensure_pool|]. eapply saved_quiet; [apply touches_publish | done].
Qed.

Lemma saves_remember_contact configured pk nip05 : saves configured (remember_contact pk nip05).
Proof using aead_laws json_laws.
  intros a Ha. unfold remember_contact. destruct (existsb _ _); [done|].
  generalize (new_contact pk nip05 (contacts a)). intros r. revert a Ha.
  apply saves_bind; [apply saves_ret|]. intros c. apply saves_push_contact.
Qed.

Lemma saves_remove_contact configured npub : saves configured (remove_contact npub).
Proof using aead_laws json_laws.
  unfold remove_contact. apply saves_bind; [apply saves_ret|]. intros pk a Ha.
  set (kept := List.filter _ (contacts a)). destruct (_ =? _)%nat; [done|].
  unfold se_bind. destruct (save_contacts kept (set_contacts kept a)) as [[u|] a1] eqn:E; [|done].
  by eapply save_contacts_saved.
Qed.

Lemma saves_change_relays configured rs : saves configured (change_relays rs).
Proof using aead_laws json_laws.
  unfold change_relays. apply saves_bind; [apply saves_ret|]. intros canonical a Ha.
  unfold se_bind. destruct (save_record _ _ a) as [[u|] a1] eqn:E; [|done].
  eapply saved_quiet; [apply touches_nil, touches_restart_pool|]. by eapply save_relays_saved.
Qed.

Lemma saves_send configured net peer text : saves configured (send net peer text).
Proof using aead_laws json_laws.
  unfold send. apply saves_bind; [apply saves_ret|]. intros _.
  apply saves_bind; [apply saves_ensure_identity|]. intros id.
  apply saves_bind; [apply saves_quiet; intros a; apply touches_ensure_pool|]. intros [pk nip05].
  apply saves_bind; [apply saves_ret|]. intros _. apply saves_bind; [apply saves_remember_contact|]. intros _.
  apply saves_bind; [apply saves_quiet, within_unix_time|]. intros now.
  apply saves_bind; [apply saves_ret|]. intros rumor.
  apply saves_bind; [apply saves_quiet, within_map_err, within_random|]. intros wrap.
  apply saves_bind; [apply saves_quiet, within_map_err, within_random|]. intros self.
  apply saves_bind; [apply saves_quiet, within_publish_to_relays|]. intros _ a Ha.
  pose proof (saved_quiet _ _ _ (within_publish_to_relays _ self a) Ha) as Hs. revert Hs.
  apply saves_bind; [apply saves_store_message | intros; apply saves_ret].
Qed.

Lemma saves_restart configured g :
  saves configured (fun a => identity_value g (restart_pool (set_subscribed None a))).
Proof using Type.
  apply saves_quiet. intros a. eapply touches_trans; [|apply within_identity_value].
  eapply touches_trans; [apply touches_subscribed | apply touches_restart_pool].
Qed.

Lemma saves_handle configured net r : saves configured (handle net r).
Proof using aead_laws json_laws.
  destruct r; cbn [handle]; try (by intros a Ha).
  - apply saves_bind; [apply saves_ensure_identity|]. intros id. apply saves_restart.
  - apply saves_add_contact.
  - apply saves_remove_contact.
  - apply saves_change_relays.
  - apply saves_send.
  - apply saves_restart.
  - apply saves_quiet. intros a. cbn [handle]. unfold ok_reply, snapshot_value.
    pose proof (touches_secret_if_any [NOSTR_RECORD] a) as H. destruct (secret_if_any a) as [s a1]. exact H.
Qed.

Lemma saved_start configured : saved configured a0.
Proof using Type. split_and!; intros _; left; done. Qed.
End Since.

(** *** What a request writes *)

(** After success *)
Definition ends {E A : Type} (Q : Actor W -> Prop) (c : SE (Actor W) E A) : Prop :=
  forall a x a', c a = (Ok x, a') -> Q a'.
Lemma ends_bind {E A B} Q (c : SE (Actor W) E A) (k : A -> SE (Actor W) E B) : (forall x, ends Q (k x)) -> ends Q (se_bind c k).
Proof using Type. intros H a y a'. unfold se_bind. destruct (c a) as [[x|] a1]; [|done]. apply H. Qed.
Lemma ends_ret {E A B} Q (c : SE (Actor W) E A) (r : A -> result E B) : ends Q c -> ends Q (se_bind c (fun x => se_ret (r x))).
Proof using Type. intros H a y a'. unfold se_bind. destruct (c a) as [[x|] a1] eqn:Ec; [|done]. intros [= _ <-]. by eapply H. Qed.

Definition messages_written a : Prop := forallb message_wf (messages a) = true -> messages_saved a.
Definition contacts_written a : Prop := forallb contact_wf (contacts a) = true -> contacts_saved a.
Definition relays_written (configured : list string) a : Prop := forallb utf8_valid (relays a) = true -> relays_saved configured a.

Lemma store_message_writes m : ends messages_written (store_message m).
Proof using aead_laws json_laws.
  intros a x a'. unfold store_message. match goal with |- context [set_messages ?ms a] => set (ms' := ms) end.
  cbn [messages set_messages]. unfold se_bind. destruct (save_messages ms' (set_messages ms' a)) as [[u|] a1] eqn:E; [|done].
  intros [= _ <-] Hf.
  destruct (touches_publish [] TMessages (message_json m) a1) as [S _ M _ _ _ _ F].
  pose proof (save_messages_written _ _ _ _ E) as Hs. unfold messages_saved in *. rewrite S, M in * by apply not_elem_of_nil.
  rewrite <- (Hs Hf). done.
Qed.
Lemma send_writes net peer text : ends messages_written (send net peer text).
Proof using aead_laws json_laws.
  unfold send. do 3 (apply ends_bind; intros ?). destruct x1 as [pk nip05]. do 7 (apply ends_bind; intros ?).
  intros c1 y c2. apply (ends_ret messages_written (store_message _)). apply store_message_writes.
Qed.
Lemma remove_contact_writes npub : ends contacts_written (remove_contact npub).
Proof using aead_laws json_laws.
  unfold remove_contact. apply ends_bind. intros pk a y a'. set (kept := List.filter _ (contacts a)). destruct (_ =? _)%nat; [done|].
  unfold se_bind. destruct (save_contacts kept (set_contacts kept a)) as [[u|] a1] eqn:E; [|done].
  intros [= _ <-] Hf. by eapply save_contacts_written.
Qed.
Lemma change_relays_writes configured rs : ends (relays_written configured) (change_relays rs).
Proof using aead_laws json_laws.
  unfold change_relays. apply ends_bind. intros canonical a y a'. unfold se_bind.
  destruct (save_record _ _ a) as [[u|] a1] eqn:E; [|done]. intros [= _ <-] Hf.
  destruct (touches_restart_pool [] (set_subscribed None (set_relays canonical a1))) as [S _ _ R _ _ _ F].
  rewrite R in Hf by apply not_elem_of_nil. pose proof (save_relays_written configured _ _ _ _ E Hf) as Hs.
  unfold relays_saved in *. rewrite S, R by apply not_elem_of_nil. etrans; [|exact Hs]. f_equal.
  apply load_relays_same, loads_same; [done|]. apply F; [apply not_elem_of_nil | done].
Qed.

(** What the next process starts with *)
Lemma spawn_book st configured (w : World W) :
  let b := spawn st configured (reboot_world w) in
  contacts b = default [] (load_contacts st (reboot (disk w))).1 /\
  messages b = default [] (load_messages st (reboot (disk w))).1 /\
  relays b = default configured (load_relays st (reboot (disk w))).1.
Proof using Type.
  cbn zeta. unfold spawn, reboot_world, load_relays, load_contacts, load_messages, load_vec. cbn [disk].
  pose proof (fun n => read_calm st n (reboot (disk w)) ltac:(done)) as Hr.
  pose proof (Hr RELAYS_RECORD) as H1. pose proof (Hr CONTACTS_RECORD) as H2. pose proof (Hr MESSAGES_RECORD) as H3.
  destruct (read st RELAYS_RECORD (reboot (disk w))) as [r1 d1]. cbn [snd] in H1. subst d1.
  destruct (read st CONTACTS_RECORD (reboot (disk w))) as [r2 d2]. cbn [snd] in H2. subst d2.
  destruct (read st MESSAGES_RECORD (reboot (disk w))) as [r3 d3]. cbn [snd] in H3. subst d3.
  match goal with |- context [restart_pool ?x] => pose proof (touches_restart_pool [] x) as [_ C M R _ _ _ _] end.
  rewrite C, M, R by apply not_elem_of_nil. done.
Qed.

(** A process that starts now would have the actor's contacts, messages and relays. *)
Definition restarts (configured : list string) a : Prop :=
  let b := spawn (store a) configured (reboot_world (world a)) in
  contacts b = contacts a /\ messages b = messages a /\ relays b = relays a.

Lemma restarts_saved configured a :
  restarts configured a <-> contacts_saved a /\ messages_saved a /\ relays_saved configured a.
Proof using Type.
  unfold restarts. pose proof (spawn_book (store a) configured (world a)) as (-> & -> & ->). done.
Qed.

(** C7: What a request that is answered with success has changed survives a restart, whatever
    failed before it: a process that starts on the same disk, at once or after a crash, has
    the contacts, the messages or the relays as the actor then holds them, whichever of them
    the request changed; after a [send] that is the messages, after the removal of a contact
    the contacts, and after a change of the relays the relays, in any case. When everything
    would have survived before the request, everything does after it. What an earlier
    request changed in memory but failed to save is not covered. The texts and numbers held
    are those of Rust's types ([book_wf]). *)
Theorem chat_durable configured net r a v a' :
  handle net r a = (Ok v, a') -> book_wf a' = true ->
  let b := spawn (store a') configured (reboot_world (world a')) in
  (contacts a' <> contacts a -> contacts b = contacts a') /\
  (messages a' <> messages a -> messages b = messages a') /\
  (relays a' <> relays a -> relays b = relays a') /\
  match r with
  | Send _ _ => messages b = messages a'
  | RemoveContact _ => contacts b = contacts a'
  | SetRelays _ => relays b = relays a'
  | _ => True
  end /\
  (restarts configured a -> restarts configured a').
Proof using aead_laws json_laws.
  intros Hh Hw. cbv zeta. pose proof (spawn_book (store a') configured (world a')) as (-> & -> & ->).
  unfold book_wf in Hw. split_bools. pose proof (saves_handle a configured net r a (saved_start a configured)) as Hsaved. rewrite Hh in Hsaved.
  destruct Hsaved as (Hc & Hm & Hr). specialize (Hc ltac:(done)). specialize (Hm ltac:(done)). specialize (Hr ltac:(done)).
  split_and!.
  - intros Hne. by destruct Hc as [[? _]|?].
  - intros Hne. by destruct Hm as [[? _]|?].
  - intros Hne. by destruct Hr as [[? _]|?].
  - destruct r; try done; cbn [handle] in Hh;
      [by apply remove_contact_writes in Hh; apply Hh | by apply (change_relays_writes configured) in Hh; apply Hh
      | by apply send_writes in Hh; apply Hh].
  - rewrite !restarts_saved. intros (Hc0 & Hm0 & Hr0). split_and!.
    + destruct Hc as [[E [K1 K2]]|?]; [|done]. unfold contacts_saved in *. rewrite E, K1, <- Hc0. f_equal.
      apply load_vec_same, loads_same; done.
    + destruct Hm as [[E [K1 K2]]|?]; [|done]. unfold messages_saved in *. rewrite E, K1, <- Hm0. f_equal.
      apply load_vec_same, loads_same; done.
    + destruct Hr as [[E [K1 K2]]|?]; [|done]. unfold relays_saved in *. rewrite E, K1, <- Hr0. f_equal.
      apply load_relays_same, loads_same; done.
Qed.

(** C27: Whatever requests and relay traffic the actor handles, it keeps at most 128 contacts
    with distinct keys, each named by its verified handle or its npub, at most 128
    messages, each filed under its peer and of at most 4096 bytes, and at most four
    distinct relays. *)
Theorem chat_invariant inputs a : chat_ok a -> chat_ok (chat_run inputs a).
Proof using aead_laws. apply chat_run_ok. Qed.
End Durable.

(** ** Sending and receiving *)

Section Delivery.
Context {W : Type} {aead : Aead} {hex : Hex} {json : Json} {sha : Sha256} {schnorr : Schnorr} {bech : Bech32}.
Context {crypto : Nip44Crypto} {b64 : Base64} {url : UrlLib}.
Context {aead_laws : AeadLaws} {hex_laws : HexLaws} {json_laws : JsonLaws} {sha_laws : Sha256Laws}
        {schnorr_laws : SchnorrLaws} {crypto_laws : Nip44CryptoLaws} {b64_laws : Base64Laws}.
Implicit Types (a b : Actor W).
Abbreviation limits := EventLimits_default.

(** The messages once room is made for one more *)
Definition evict (ms : list StoredMessage) : list StoredMessage :=
  if zlen ms =? MAX_MESSAGES then tail ms else ms.

Definition fresh (id : string) (a : Actor W) : Prop := id ∉ map sm_id (messages a).

(** The actor holds an identity and its clock can be read. *)
Definition ready (a : Actor W) (s : NostrSecret) (now : Z) : Prop :=
  (secret_if_any a).1 = Some s /\ (unix_time (secret_if_any a).2).1 = Ok now.

(** What [store_message] keeps in memory does not depend on whether the save succeeds. *)
Lemma store_message_messages m a : messages (store_message m a).2 = evict (messages a) ++ [m].
Proof using Type.
  unfold store_message, se_bind, save_messages, save_record, se_map_err, on_disk, se_zoom. cbn [fst snd].
  by destruct (map_err CSealed _).
Qed.

Lemma existsb_id_false id ms :
  id ∉ map sm_id ms -> existsb (fun old => String.eqb (sm_id old) id) ms = false.
Proof using Type.
  intros Hn. apply not_true_is_false. intros (m & Hm & E)%existsb_exists. apply String.eqb_eq in E as <-.
  apply Hn, list_elem_of_fmap_2. by apply list_elem_of_In.
Qed.

Lemma existsb_id_true id ms :
  existsb (fun old => String.eqb (sm_id old) id) ms = false -> id ∉ map sm_id ms.
Proof using Type.
  intros H (m & -> & Hm)%list_elem_of_fmap. apply list_elem_of_In in Hm.
  enough (existsb (fun old => String.eqb (sm_id old) (sm_id m)) ms = true) as E by (by rewrite E in H).
  apply existsb_exists. exists m. split; [done | apply String.eqb_refl].
Qed.

(** Receiving a gift wrap that opens to a chat message *)
Lemma receive_rumor b s now sid wrap o m :
  ready b s now -> kind wrap = 1059 -> open_gift_wrap wrap (secret s) now limits = Ok o ->
  r_kind (o_rumor o) = CHAT_MESSAGE_KIND -> slen (r_content (o_rumor o)) <= MAX_TEXT_BYTES ->
  message_of_rumor (o_rumor o) (hex_encode (own_key s)) (contacts b) = Some m -> fresh (r_id (o_rumor o)) b ->
  messages (on_notification (NEvent sid wrap) b) = evict (messages b) ++ [m].
Proof using Type.
  intros [Hs Ht] Hk Ho Hr Hl Hm Hf. unfold on_notification. rewrite Hk. cbn [negb Z.eqb Pos.eqb].
  pose proof (touches_secret_if_any [] b) as T1. destruct (secret_if_any b) as [s0 b1]. cbn [fst snd] in *. subst s0.
  pose proof (within_unix_time [] b1) as T2. destruct (unix_time b1) as [r b2]. cbn [fst snd] in *. subst r.
  rewrite Ho, Hr. cbn [negb Z.eqb Pos.eqb CHAT_MESSAGE_KIND]. rewrite (proj2 (Z.ltb_ge _ _)) by done.
  pose proof (touches_trans _ _ _ _ T1 T2) as [_ C M _ _ _ _ _].
  rewrite C, Hm, existsb_id_false, store_message_messages, M by (try apply not_elem_of_nil; by rewrite M by apply not_elem_of_nil).
  done.
Qed.

(** The message a rumor of another author is stored as *)
Lemma message_of_incoming r mine cs :
  r_pubkey r <> mine ->
  message_of_rumor r mine cs = Some {|
    sm_id := r_id r; sm_conversation := ("dm:" +:+ r_pubkey r)%string; sm_peer := r_pubkey r;
    sm_sender := display_for cs (r_pubkey r); sm_text := r_content r; sm_outgoing := false;
    sm_delivery := "received"; sm_created_at := r_created_at r |}.
Proof using Type.
  intros Hn. unfold message_of_rumor. rewrite (proj2 (String.eqb_neq _ _)) by done. cbn [mbind option_bind].
  by rewrite (proj2 (String.eqb_neq _ _)) by done.
Qed.

(** The message one's own rumor to a peer is stored as *)
Lemma message_of_outgoing r mine cs peer rest :
  r_pubkey r = mine -> r_tags r = ["p"%string; peer] :: rest -> peer <> mine ->
  message_of_rumor r mine cs = Some {|
    sm_id := r_id r; sm_conversation := ("dm:" +:+ peer)%string; sm_peer := peer; sm_sender := "you";
    sm_text := r_content r; sm_outgoing := true; sm_delivery := "stored"; sm_created_at := r_created_at r |}.
Proof using Type.
  intros <- Ht Hn. unfold message_of_rumor. rewrite String.eqb_refl, Ht. cbn [find head].
  rewrite bool_decide_true by done. cbn. by rewrite (proj2 (String.eqb_neq _ _)) by done.
Qed.

Lemma chat_rumor_wf sk time pk text rumor :
  create_chat_rumor sk time [{| public_key := pk; relay_hint := None |}] text None None limits = Ok rumor ->
  in_u64 time -> utf8_valid text = true -> event_wf (rumor_unsigned rumor) = true.
Proof using hex_laws.
  intros Hc Ht Hu. apply create_chat_rumor_inv in Hc as (_ & _ & (own & _ & Hp & _) & Hk & Hx & Hat & Hg & _).
  unfold event_wf, rumor_unsigned. cbn [ue_pubkey ue_created_at ue_kind ue_tags ue_content].
  rewrite Hp, Hk, Hx, Hat, Hg, hex_utf8, Hu. cbn [map recipient_tag app public_key relay_hint forallb].
  rewrite hex_utf8. unfold in_range. change (utf8_valid "p") with true.
  rewrite !(proj2 (Z.leb_le _ _)) by (unfold CHAT_MESSAGE_KIND; unfold_ints; lia). done.
Qed.

(** A publication is one more event that goes out; when it succeeds a relay took it. *)
Lemma publish_to_relays_out event a p : pool (pooled a) = Some p ->
  exists o, outbox (world (publish_to_relays event a).2) = outbox (world a) ++ [o] /\ og_event o = event /\
    pool (pooled (publish_to_relays event a).2) = Some p.
Proof using Type.
  intros Ep. unfold publish_to_relays. rewrite Ep. unfold next_link, send_on, put_outgoing.
  destruct (wait_connected p _); eexists; (split; [reflexivity|]); (split; [reflexivity | exact Ep]).
Qed.
Lemma publish_to_relays_ok event a u a1 : publish_to_relays event a = (Ok u, a1) ->
  (forall p, pool (pooled a) = Some p -> 1 <= acknowledgement_threshold (pool_config p)) ->
  exists o, outbox (world a1) = outbox (world a) ++ [o] /\ og_event o = event /\ og_accepted o <> [] /\ is_Some (pool (pooled a1)).
Proof using Type.
  unfold publish_to_relays. destruct (pool (pooled a)) as [p|] eqn:Ep; [|done]. intros H Ht. specialize (Ht p eq_refl).
  destruct (publish_to_relays_out event a p Ep) as (o & Eo & He & Hp). unfold publish_to_relays in Eo, Hp. rewrite Ep, H in Eo, Hp.
  cbn [snd] in Eo, Hp. exists o. split_and!; [done | done | | by eexists].
  destruct (next_link a) as [l a2] eqn:El. destruct (wait_connected p l); [|done].
  unfold send_on in H. injection H as Hr <-. inv_ok.
  assert (outbox (world a2) = outbox (world a)) as Ea.
  { unfold next_link in El. by injection El as _ <-. }
  cbn in Eo. rewrite Ea in Eo. apply app_inv_head in Eo. injection Eo as <-. cbn.
  unfold pool_publish, settle, count_accepted in *. inv_ok. split_bools. intros E. apply map_eq_nil in E.
  rewrite E in *. unfold zlen in *. cbn in *. lia.
Qed.

Definition clock_ok (r : option Z) : Prop := match r with Some t => in_u64 t | None => True end.

Lemma unix_time_reading a now a1 : unix_time a = (Ok now, a1) -> Some now ∈ readings (world a).
Proof using Type.
  unfold unix_time. intros [= H _]. destruct (readings (world a)) as [|[t|] l]; [done | | done].
  injection H as <-. apply list_elem_of_here.
Qed.

(** The entry of one's own message *)
Definition sent_message (r : Rumor) (pk : bytes) : StoredMessage := {|
  sm_id := r_id r; sm_conversation := ("dm:" +:+ hex_encode pk)%string; sm_peer := hex_encode pk; sm_sender := "you";
  sm_text := r_content r; sm_outgoing := true; sm_delivery := "stored"; sm_created_at := r_created_at r |}.

Lemma wrap_for_inv r s pk now a wrap a1 : wrap_for r s pk now a = (Ok wrap, a1) ->
  exists t t', create_gift_wrap r (secret s) pk now Persistent limits t = (Ok wrap, t').
Proof using Type.
  unfold wrap_for, se_map_err, random, se_zoom. cbn [fst snd].
  destruct (create_gift_wrap _ _ _ _ _ _ _) as [r0 t'] eqn:E. intros [= H _]. apply map_err_ok_inv in H. cbn in H. subst. eauto.
Qed.

(** What a successful [send] did *)
Lemma send_inv net peer text a v a' :
  send net peer text a = (Ok v, a') ->
  exists s pk now rumor t1 t1' wrap t2 t2' self a0 a1,
    bad_text text = false /\ Some now ∈ readings (world a) /\
    create_chat_rumor (secret s) now [{| public_key := pk; relay_hint := None |}] text None None limits = Ok rumor /\
    create_gift_wrap rumor (secret s) pk now Persistent limits t1 = (Ok wrap, t1') /\
    create_gift_wrap rumor (secret s) (own_key s) now Persistent limits t2 = (Ok self, t2') /\
    touches [NOSTR_RECORD; CONTACTS_RECORD] a a0 /\ publish_to_relays wrap a0 = (Ok tt, a1) /\
    store_message (sent_message rumor pk) (publish_self_copy_for_other_devices self a1) = (Ok (sent_message rumor pk), a') /\
    v = JObject [("message"%string, message_json (sent_message rumor pk))].
Proof using aead_laws.
  set (names := [NOSTR_RECORD; CONTACTS_RECORD]). unfold send. intros H.
  apply se_bind_ok_inv in H as (u & s0 & Hb & H). injection Hb as Hb <-. apply fail_if_ok_inv in Hb as [Hb _].
  apply se_bind_ok_inv in H as ([s g] & a2 & H2 & H). cbn [fst] in H.
  assert (touches names a a2) as T2 by (pose proof (within_ensure_identity names ltac:(decide_names) a) as T; by rewrite H2 in T).
  apply se_bind_ok_inv in H as ([pk nip05] & a3 & H3 & H). injection H3 as Hr <-.
  assert (touches names a (ensure_pool a2)) as T3 by (eapply touches_trans; [exact T2 | apply touches_ensure_pool]).
  apply se_bind_ok_inv in H as (u2 & a4 & H4 & H). injection H4 as _ <-.
  apply se_bind_ok_inv in H as (u3 & a5 & H5 & H).
  assert (touches names a a5) as T5.
  { eapply touches_trans; [exact T3|]. pose proof (within_remember_contact pk nip05 (ensure_pool a2)) as T.
    rewrite H5 in T. eapply touches_mono; [|exact T]. intros n Hn. by apply list_elem_of_further. }
  apply se_bind_ok_inv in H as (now & a6 & H6 & H).
  assert (touches names a a6) as T6
    by (eapply touches_trans; [exact T5|]; pose proof (within_unix_time names a5) as T; by rewrite H6 in T).
  apply se_bind_ok_inv in H as (rumor & a7 & H7 & H). injection H7 as Hru <-. apply map_err_ok_inv in Hru.
  apply se_bind_ok_inv in H as (wrap & a8 & H8 & H).
  assert (touches names a a8) as T8
    by (eapply touches_trans; [exact T6|]; pose proof (within_map_err names (fun e => CSend (SendGiftWrap e)) _ (within_random names
          (create_gift_wrap rumor (secret s) pk now Persistent limits)) a6) as T; unfold wrap_for in H8; by rewrite H8 in T).
  apply se_bind_ok_inv in H as (self & a9 & H9 & H).
  assert (touches names a a9) as T9
    by (eapply touches_trans; [exact T8|]; pose proof (within_map_err names (fun e => CSend (SendGiftWrap e)) _ (within_random names
          (create_gift_wrap rumor (secret s) (own_key s) now Persistent limits)) a8) as T; unfold wrap_for in H9; by rewrite H9 in T).
  apply se_bind_ok_inv in H as ([] & a10 & H10 & H). apply se_bind_ok_inv in H as (m & a11 & H11 & H).
  injection H as <- <-. apply wrap_for_inv in H8 as (t1 & t1' & H8), H9 as (t2 & t2' & H9).
  pose proof (create_chat_rumor_inv _ _ _ _ _ _ _ _ Hru) as (_ & _ & _ & _ & Hx & _).
  assert (m = sent_message rumor pk) as ->.
  { unfold store_message in H11. apply se_bind_ok_inv in H11 as (u11 & s11 & _ & [= <- _]). unfold sent_message. by rewrite Hx. }
  exists s, pk, now, rumor, t1, t1', wrap, t2, t2', self, a9, a10. unfold sent_message in *. rewrite !Hx in *.
  split_and!; try done.
  apply unix_time_reading in H6. destruct T5 as [_ _ _ _ [l Hl] _ _ _]. rewrite Hl. apply elem_of_app. by right.
Qed.

Lemma store_message_outbox m a : outbox (world (store_message m a).2) = outbox (world a).
Proof using Type.
  unfold store_message, se_bind, save_messages, save_record, se_map_err, on_disk, se_zoom.
  by destruct (write _ _ _ _) as [[]].
Qed.

(** The entry the other side makes of it *)
Definition received_message (m : StoredMessage) (author : string) (cs : list Contact) : StoredMessage := {|
  sm_id := sm_id m; sm_conversation := ("dm:" +:+ author)%string; sm_peer := author; sm_sender := display_for cs author;
  sm_text := sm_text m; sm_outgoing := false; sm_delivery := "received"; sm_created_at := sm_created_at m |}.


(** A notification changes the stored messages only by adding one: a chat rumor of at most
    4096 bytes that was not stored yet, sealed by the key it is filed under and opened with
    this identity's key, or one's own message sealed by this identity itself. *)
Theorem chat_received_authentic n a :
  messages (on_notification n a) = messages a \/
  exists sid event s now o m,
    n = NEvent sid event /\ (secret_if_any a).1 = Some s /\
    messages (on_notification n a) = evict (messages a) ++ [m] /\ fresh (sm_id m) a /\
    verify event now limits = Ok tt /\ verify (o_seal o) now limits = Ok tt /\
    open_gift_wrap event (secret s) now limits = Ok o /\
    sm_id m = r_id (o_rumor o) /\ sm_text m = r_content (o_rumor o) /\ r_kind (o_rumor o) = CHAT_MESSAGE_KIND /\
    (if sm_outgoing m then pubkey (o_seal o) = hex_encode (own_key s)
     else sm_peer m = pubkey (o_seal o) /\ sm_peer m <> hex_encode (own_key s)).
Proof using hex_laws.
  unfold on_notification. destruct n as [| |sid event| | | | | |]; try (by left).
  destruct (negb (kind event =? 1059)); [by left|].
  pose proof (touches_secret_if_any [] a) as T1. destruct (secret_if_any a) as [[s|] a1]; cbn [fst snd] in *;
    [|left; destruct T1 as [_ _ M _ _ _ _ _]; apply M, not_elem_of_nil].
  pose proof (touches_trans _ _ _ _ T1 (within_unix_time [] a1)) as T2.
  assert (messages (unix_time a1).2 = messages a) as M by (destruct T2 as [_ _ M _ _ _ _ _]; apply M, not_elem_of_nil).
  destruct (unix_time a1) as [[now|e] a2]; cbn [snd] in M; [|by left].
  destruct (open_gift_wrap event (secret s) now limits) as [o|] eqn:Ho; [|by left].
  destruct (negb (r_kind (o_rumor o) =? CHAT_MESSAGE_KIND)) eqn:Ek; [by left|].
  destruct (MAX_TEXT_BYTES <? slen (r_content (o_rumor o))) eqn:El; [by left|].
  destruct (message_of_rumor (o_rumor o) (hex_encode (own_key s)) (contacts a2)) as [m|] eqn:Em; [|by left].
  destruct (existsb _ (messages a2)) eqn:Ex; [by left|]. right. split_bools.
  apply existsb_id_true in Ex. rewrite store_message_messages, M in *.
  apply open_inv in Ho as Hi. destruct Hi as (Hv & Hvs & _ & _ & _ & _ & _ & Hauthor).
  exists sid, event, s, now, o, m. unfold message_of_rumor in Em. apply bind_Some in Em as (peer & Hpeer & Em).
  destruct (String.eqb peer (hex_encode (own_key s))) eqn:Ep; [done|]. apply String.eqb_neq in Ep.
  injection Em as <-. cbn. split_and!; try done.
  destruct (String.eqb (r_pubkey (o_rumor o)) (hex_encode (own_key s))) eqn:Eo.
  - apply String.eqb_eq in Eo. by rewrite <- Hauthor.
  - injection Hpeer as <-. by rewrite <- Hauthor.
Qed.

(** Only the messages still held are compared with: one that was evicted is stored again,
    as if it were new, when a relay sends its gift wrap once more. *)
Theorem evicted_message_returns b s now sid wrap o old rest m' m :
  messages b = old :: rest -> zlen (messages b) = MAX_MESSAGES ->
  sm_id old ∉ map sm_id rest -> sm_id m' <> sm_id old ->
  kind wrap = 1059 -> open_gift_wrap wrap (secret s) now limits = Ok o -> r_id (o_rumor o) = sm_id old ->
  r_kind (o_rumor o) = CHAT_MESSAGE_KIND -> slen (r_content (o_rumor o)) <= MAX_TEXT_BYTES ->
  let b' := (store_message m' b).2 in
  ready b' s now -> message_of_rumor (o_rumor o) (hex_encode (own_key s)) (contacts b) = Some m ->
  messages (on_notification (NEvent sid wrap) b') = tail rest ++ [m'; m].
Proof using aead_laws.
  intros Hm Hz Hr Hne Hk Ho Hid Hkind Hlen b' Hready Hmsg.
  assert (messages b' = rest ++ [m']) as Hb by (unfold b'; by rewrite store_message_messages, Hm; unfold evict; rewrite <- Hm, Hz, Hm).
  assert (contacts b' = contacts b) as Hc.
  { destruct (within_store_message m' b) as [_ C _ _ _ _ _ _]. apply C. decide_names. }
  rewrite (receive_rumor b' s now sid wrap o m); try done.
  - rewrite Hb. unfold evict. assert (zlen (rest ++ [m']) = MAX_MESSAGES) as ->.
    { rewrite Hm, zlen_cons in Hz. rewrite zlen_app. change (zlen [m']) with 1. lia. }
    rewrite Z.eqb_refl. rewrite Hm, zlen_cons in Hz. destruct rest as [|x rest]; [done|]. cbn. by rewrite <- app_assoc.
  - by rewrite Hc.
  - unfold fresh. rewrite Hb, Hid, map_app. intros [H|H]%elem_of_app; [done|].
    apply list_elem_of_singleton in H. by symmetry in H.
Qed.
End Delivery.

(** ** Witnesses *)

Definition up_link : Link := {| polls := [fun _ => HConnected]; link_env := good_connections |}.
Definition no_network : Network := fun _ _ _ _ _ => Err (NIIo "unreachable").

(** A disk that holds an identity, and the world of a daemon on it *)
Definition identity_disk (k : Z) (e : Entropy) : Disk unit :=
  (save_new sample_store {| secret := key_of k |} (sample_disk [] (Some (be_bytes 24 1) :: Some (be_bytes 8 2) :: e))).2.
Definition sample_world (k now : Z) (e : Entropy) : World unit := {|
  disk := identity_disk k e; readings := replicate 9 (Some now); links := replicate 9 up_link; outbox := [];
  hub := []; sequence := 1 |}.
Definition wrap_tape (k : Z) : Entropy :=
  [Some (be_bytes 8 12345); Some (key_of (k + 1)); Some (key_of (k + 2)); Some (key_of (k + 3)); Some (be_bytes 8 99999);
   Some (key_of (k + 4)); Some (key_of (k + 5))].
Definition save_tape (k : Z) : Entropy := [Some (be_bytes 24 k); Some (be_bytes 8 k)].

Definition sample_chat : Actor unit :=
  spawn sample_store ["wss://relay/"%string]
    (sample_world 5 300000 (Some (key_of 30) :: save_tape 3 ++ wrap_tape 40 ++ wrap_tape 50 ++ save_tape 4)).
Definition sample_send : result ChatError Value * Actor unit :=
  handle no_network (Send (hex_encode (key_of 7)) "hi") sample_chat.

Lemma sample_chat_ok : chat_ok sample_chat.
Proof.
  unfold chat_ok. assert (contacts sample_chat = [] /\ messages sample_chat = [] /\ relays sample_chat = ["wss://relay/"%string]) as (-> & -> & ->)
    by (vm_compute; auto).
  assert (pool_config <$> pool (pooled sample_chat) = Some chat_pool_config) as Hp by (vm_compute; reflexivity).
  refine (conj _ (conj _ (conj _ _))).
  - split_and!; [constructor | constructor | done].
  - split; [constructor | done].
  - split; [apply NoDup_singleton | done].
  - intros p E. rewrite E in Hp. injection Hp as Hp. exact Hp.
Qed.

Lemma sample_restarts : restarts ["wss://relay/"%string] sample_chat.
Proof. split_and!; vm_compute; reflexivity. Qed.

Definition sample_bob : Actor unit := spawn sample_store [] (sample_world 7 300100 []).
Definition sample_inputs : list ChatInput :=
  [InRequest no_network (Send (hex_encode (key_of 7)) "hi"); InArrivals [arrival 0 (NEvent "omachat-dm" sample_wrap)]].

Lemma chat_invariant_witness :
  chat_ok (chat_run sample_inputs sample_chat) /\ length (messages (chat_run sample_inputs sample_chat)) = 1%nat.
Proof.
  split; [apply (chat_invariant sample_inputs sample_chat sample_chat_ok) | vm_compute; reflexivity].
Defined.

(** *** A save that fails

    The third call on the disk, the one that begins the write of the contacts, fails. *)
Definition sample_full_disk : Actor unit :=
  let a := spawn sample_store ["wss://relay/"%string] (sample_world 5 300000 (Some (key_of 30) :: save_tape 3)) in
  set_disk (set_tape false [Runs; Runs; Fails 0] (disk (world a))) a.
Definition sample_add : ChatRequest := AddContact (hex_encode (key_of 7)).

(** A contact whose save failed stays in memory: the request is answered with an error, but
    asking again is answered with success, as if the contact had been there before, although
    it was never written and is gone after a restart. *)
Theorem unsaved_contact_reported :
  let first := handle no_network sample_add sample_full_disk in
  let second := handle no_network sample_add first.2 in
  is_ok first.1 = false /\ is_ok second.1 = true /\ length (contacts second.2) = 1%nat /\
  contacts (spawn sample_store [] (reboot_world (world second.2))) = [].
Proof. vm_compute. auto. Qed.

Lemma chat_durable_witness :
  restarts ["wss://relay/"%string] sample_send.2 /\
  map sm_text (messages (spawn sample_store [] (reboot_world (world sample_send.2)))) = ["hi"%string].
Proof.
  split; [|vm_compute; reflexivity].
  destruct sample_send as [[v|e] a'] eqn:E.
  - pose proof E as E'. unfold sample_send in E'.
    refine (proj2 (proj2 (proj2 (proj2 (chat_durable _ no_network (Send (hex_encode (key_of 7)) "hi") sample_chat v a' E' _)))) sample_restarts).
    assert (book_wf sample_send.2 = true) as H by (vm_compute; reflexivity). rewrite E in H. exact H.
  - exfalso. assert (is_ok sample_send.1 = true) as H by (vm_compute; reflexivity). rewrite E in H. discriminate H.
Defined.

Lemma sample_clock : Forall clock_ok (readings (world sample_chat)).
Proof.
  assert (readings (world sample_chat) = replicate 7 (Some 300000)) as -> by (vm_compute; reflexivity).
  cbn [replicate]. repeat constructor; unfold_ints; lia.
Qed.

Lemma sample_wraps_fit :
  forallb (fun o => zlen (event_to_json (og_event o)) <=? max_serialized_bytes EventLimits_default) (outbox (world sample_send.2)) = true.
Proof. vm_compute. reflexivity. Qed.


Lemma chat_received_authentic_witness :
  exists s now o m, messages (on_notification (NEvent "omachat-dm" sample_wrap) sample_bob) = [m] /\
    open_gift_wrap sample_wrap (secret s) now EventLimits_default = Ok o /\ sm_text m = r_content (o_rumor o).
Proof.
  assert (messages sample_bob = []) as E0 by (vm_compute; reflexivity).
  assert (length (messages (on_notification (NEvent "omachat-dm" sample_wrap) sample_bob)) = 1%nat) as E1 by (vm_compute; reflexivity).
  destruct (chat_received_authentic (NEvent "omachat-dm" sample_wrap) sample_bob)
    as [H | (sid & event & s & now & o & m & En & _ & Hm & _ & _ & _ & Ho & _ & Ht & _)].
  - exfalso. rewrite H, E0 in E1. discriminate E1.
  - injection En as <- <-. exists s, now, o, m. rewrite Hm, E0. exact (conj eq_refl (conj Ho Ht)).
Defined.

(** A daemon whose store of messages is full, its oldest message being the one of [sample_wrap] *)
Definition filler (k : nat) : StoredMessage := {|
  sm_id := show (Z.of_nat k); sm_conversation := "dm:"; sm_peer := ""; sm_sender := ""; sm_text := ""; sm_outgoing := false;
  sm_delivery := "received"; sm_created_at := 0 |}.
Definition full_bob : Actor unit :=
  set_messages ({| sm_id := r_id sample_rumor; sm_conversation := "dm:"; sm_peer := ""; sm_sender := ""; sm_text := "hi";
    sm_outgoing := false; sm_delivery := "received"; sm_created_at := 100 |} :: map filler (seq 0 127)) sample_bob.

Lemma evicted_message_returns_witness :
  exists m, messages (on_notification (NEvent "omachat-dm" sample_wrap) (store_message (filler 127) full_bob).2) =
    tail (map filler (seq 0 127)) ++ [filler 127; m] /\ sm_text m = "hi"%string.
Proof.
  destruct (open_gift_wrap sample_wrap (key_of 7) 300100 EventLimits_default) as [o|] eqn:Eo.
  2: { exfalso. assert (is_ok (open_gift_wrap sample_wrap (key_of 7) 300100 EventLimits_default) = true) as H
         by (vm_compute; reflexivity). rewrite Eo in H. discriminate H. }
  assert (result_ok (open_gift_wrap sample_wrap (key_of 7) 300100 EventLimits_default) = Some o) as Er by (by rewrite Eo).
  assert (o_rumor <$> result_ok (open_gift_wrap sample_wrap (key_of 7) 300100 EventLimits_default) = Some sample_rumor) as Hr
    by (vm_compute; reflexivity).
  rewrite Er in Hr. injection Hr as Hr.
  destruct (message_of_rumor sample_rumor (hex_encode (key_of 7)) (contacts full_bob)) as [m|] eqn:Em.
  2: { exfalso. assert (is_some (message_of_rumor sample_rumor (hex_encode (key_of 7)) (contacts full_bob)) = true) as H
         by (vm_compute; reflexivity). rewrite Em in H. discriminate H. }
  exists m. split.
  - apply (evicted_message_returns full_bob {| secret := key_of 7 |} 300100 "omachat-dm" sample_wrap o
      {| sm_id := r_id sample_rumor; sm_conversation := "dm:"; sm_peer := ""; sm_sender := ""; sm_text := "hi";
         sm_outgoing := false; sm_delivery := "received"; sm_created_at := 100 |} (map filler (seq 0 127)));
      try (rewrite Hr); try (vm_compute; reflexivity); try exact Eo.
    + refine (bool_decide_unpack _ _). vm_compute. exact I.
    + vm_compute. discriminate.
    + vm_compute. discriminate.
    + split; vm_compute; reflexivity.
    + exact Em.
  - assert (sm_text <$> message_of_rumor sample_rumor (hex_encode (key_of 7)) (contacts full_bob) = Some "hi"%string) as H
      by (vm_compute; reflexivity). rewrite Em in H. by injection H.
Defined.
