(* ===== verification/Core.v ===== *)
(** * The daemon's core ([omachatd/src/core.rs], [core_error.rs])

    The commands of the local protocol over the chat actor, the sealed store, the hosted
    connection and the confirmations, and the panic lifecycle. The state is that of one
    daemon: the actor's world holds the disk, the clock, the randomness and the event hub
    that all parts share. Operations in flight hold the read side of the operations lock;
    the panic cleanup takes its write side. *)

From Stdlib Require Import Strings.Byte Ascii String.
From S2P Require Import Prelude RustStd BTree Libs Serde Concrete ValueMap Nip44 Keys Account Hosted Nip11 Nip05 Confirmation Store Ipc Daemon IpcServer HostedClient Pool Chat.
Local Open Scope Z_scope.

(** ** The panic lifecycle *)

Inductive PanicState := Active | Erasing | CleanupComplete | CleanupFailed | Stopping.
#[export] Instance PanicState_eq_dec : EqDecision PanicState.
Proof. solve_decision. Defined.

Definition is_terminal (s : PanicState) : bool :=
  match s with CleanupComplete | CleanupFailed => true | _ => false end.
(** [#[repr(u8)]] and [from_u8]; [None] is the panic of [unreachable!]. *)
Definition panic_state_u8 (s : PanicState) : Z :=
  match s with Active => 0 | Erasing => 1 | CleanupComplete => 2 | CleanupFailed => 3 | Stopping => 4 end.
Definition panic_state_from_u8 (v : Z) : option PanicState :=
  List.find (fun s => panic_state_u8 s =? v) [Active; Erasing; CleanupComplete; CleanupFailed; Stopping].

(** The atomic state and the value of the watch that waiters subscribe to *)
Record PanicLifecycle := { pl_state : PanicState; pl_watch : PanicState }.
Definition PanicLifecycle_default : PanicLifecycle := {| pl_state := Active; pl_watch := Active |}.

Inductive ProcessShutdown := WaitForPanicCleanup | ContinueShutdown.

(** Each of these holds the transition mutex. *)
Definition begin (p : PanicLifecycle) : bool * PanicLifecycle :=
  match pl_state p with
  | Active => (true, {| pl_state := Erasing; pl_watch := pl_watch p |})
  | _ => (false, p)
  end.
Definition begin_process_shutdown (p : PanicLifecycle) : ProcessShutdown * PanicLifecycle :=
  match pl_state p with
  | Active => (ContinueShutdown, {| pl_state := Stopping; pl_watch := pl_watch p |})
  | Erasing => (WaitForPanicCleanup, p)
  | CleanupComplete | CleanupFailed | Stopping => (ContinueShutdown, p)
  end.
Definition finish (succeeded : bool) (p : PanicLifecycle) : PanicLifecycle :=
  let terminal := if succeeded then CleanupComplete else CleanupFailed in
  {| pl_state := terminal; pl_watch := terminal |}.
(** One turn of the loop of [wait_for_terminal]; [None] waits for a change. *)
Definition wait_for_terminal (p : PanicLifecycle) : option PanicState :=
  if is_terminal (pl_state p) then Some (pl_state p) else None.

(** ** Errors *)

Inductive CoreError :=
| CEClock | CEConfirmationExpired | CEConfirmationRequired | CEHosted (e : ServerError) | CEHostedService
| CEHostedUnavailable | CEHostedUnconfigured | CEChat (e : ChatError) | CEIdentityStore (e : VaultError) | CENostrMissing
| CENostrStore (e : VaultError) | CEInvalidCommand | CEInvalidConfig | CEIo | CEPanicErase | CEPanicked | CERandom
| CERestartRequired | CEStore (e : StoreError).

Definition hosted_code (c : ErrorCode) : IpcErrorCode :=
  match c with
  | InvalidRequest | CInvalidHandle | InvalidName | TooLarge | Hosted.UnsupportedVersion => ICInvalidRequest
  | CHandleTaken | CHandleAlreadySet | CNostrPubkeyTaken | CReplayedProof | AlreadyAuthenticated => ICConflict
  | Hosted.CNotFound => ICNotFound
  | RateLimited | CStorage | InvalidSignature | NotAuthenticated => ICUnavailable
  | Internal => ICInternal
  end.
Definition chat_code (e : ChatError) : IpcErrorCode :=
  match e with
  | CInvalidPeer | CInvalidRelay | CInvalidText | CSelfContact => ICInvalidRequest
  | Chat.CNotFound | CNip05 N5NotFound => ICNotFound
  | CNoRelays | CNotConnected | CStopped => ICUnavailable
  | CTooLarge => ICConflict
  | _ => ICInternal
  end.
(** [CoreError::code] *)
Definition core_error_code (e : CoreError) : IpcErrorCode :=
  match e with
  | CEHosted e => hosted_code (code e)
  | CEChat e => chat_code e
  | CENostrMissing => ICNotFound
  | CENostrStore AlreadyPresent => ICConflict
  | CEInvalidConfig | CEInvalidCommand => ICInvalidRequest
  | CEHostedUnavailable | CEHostedUnconfigured | CEPanicked => ICUnavailable
  | CEConfirmationRequired | CEConfirmationExpired | CERestartRequired => ICConflict
  | _ => ICInternal
  end.

(** The variant names [{:?}] writes *)
Definition error_code_debug (c : ErrorCode) : string :=
  match c with
  | Hosted.UnsupportedVersion => "UnsupportedVersion" | InvalidRequest => "InvalidRequest" | NotAuthenticated => "NotAuthenticated"
  | AlreadyAuthenticated => "AlreadyAuthenticated" | InvalidSignature => "InvalidSignature" | CInvalidHandle => "InvalidHandle"
  | CHandleTaken => "HandleTaken" | CHandleAlreadySet => "HandleAlreadySet" | InvalidName => "InvalidName"
  | CNostrPubkeyTaken => "NostrPubkeyTaken" | CReplayedProof => "ReplayedProof" | Hosted.CNotFound => "NotFound"
  | TooLarge => "TooLarge" | RateLimited => "RateLimited" | CStorage => "Storage" | Internal => "Internal"
  end.

(** The texts of the errors of other components *)
Record Displays := {
  display_chat : ChatError -> string;
  display_store : StoreError -> string;
  display_identity_store : VaultError -> string;
  display_nostr_store : VaultError -> string;
  display_io : string
}.

(** [Display for CoreError] *)
Definition core_error_display (d : Displays) (e : CoreError) : string :=
  match e with
  | CEClock => "system clock invalid"
  | CEConfirmationExpired => "confirmation expired"
  | CEConfirmationRequired => "confirmation required"
  | CEHosted e => "Hosted: " ++ error_code_debug (code e) ++ ": " ++ message e
  | CEHostedService => "HostedService: hosted server URL must be wss:// or a loopback ws://"
  | CEHostedUnavailable =>
      "hosted server is unreachable; the request was not confirmed and may be repeated safely"
  | CEHostedUnconfigured => "hosted server is not configured"
  | CEChat e => display_chat d e
  | CEIdentityStore e => "IdentityStore: " ++ display_identity_store d e
  | CENostrMissing => "no nostr identity is stored"
  | CENostrStore e => "NostrStore: " ++ display_nostr_store d e
  | CEInvalidCommand => "invalid command"
  | CEInvalidConfig => "invalid configuration; use storage_provider, hosted, and dm_relays settings only"
  | CEIo => "Io: " ++ display_io d
  | CEPanicErase => "panic cleanup failed"
  | CEPanicked => "daemon is shutting down"
  | CERandom => "random generation failed"
  | CERestartRequired => "configuration change requires restart"
  | CEStore e => "Store: " ++ display_store d e
  end%string.

Definition config_error (e : ConfigError) : CoreError :=
  match e with InvalidConfig => CEInvalidConfig | ConfigIo => CEIo end.
Definition issue_error (e : IssueError) : CoreError :=
  match e with IssueRandom => CERandom | IssueIo => CEIo end.
Definition confirmation_error (e : ConfirmationError) : CoreError :=
  match e with Expired => CEConfirmationExpired | Missing | Mismatch => CEConfirmationRequired end.
(** [hosted_error] *)
Definition hosted_error (e : HostedError) : CoreError :=
  match e with
  | HEServer e => CEHosted e
  | HEDisconnected | HETimeout | HEStopped | HEProtocol _ => CEHostedUnavailable
  end.

#[export] Instance StorageProviderConfig_eq_dec : EqDecision StorageProviderConfig.
Proof. solve_decision. Defined.
#[export] Instance HostedConfig_eq_dec : EqDecision HostedConfig.
Proof. solve_decision. Defined.

(** ** State *)

(** What one command meets outside the daemon: the network of NIP-05, what becomes of its
    hosted calls, and what the file system answers to the confirmation's removal and the
    test of the directory to erase. *)
Record Oracle := { or_network : Network; or_deliveries : list Delivery; or_removed : bool; or_safe : bool }.

(** How far a panic cleanup has come: before [chat.shutdown()], before the hosted handle
    is quiesced, and waiting for the operations in flight. *)
Inductive Cleanup := CleanChat | CleanHosted | CleanLocked.

Record Core {W : Type} := {
  co_actor : Actor W;
  co_chat_alive : bool;
  co_identity : option IdentitySecrets;
  co_panic : PanicLifecycle;
  co_cleanup : option Cleanup;
  (** the value of the hosted handle's watch *)
  co_hosted : option HostedState;
  co_account : option HostedAccount;
  co_config : DaemonConfig;
  co_confirmations : Confirmations;
  co_inflight : list Command;
  co_calls : list (string * Value);
  co_oracle : Oracle
}.
Arguments Core : clear implicits.

Section Setters.
Context {W : Type}.

Definition set_actor (a : Actor W) (c : Core W) : Core W := {|
  co_actor := a; co_chat_alive := co_chat_alive c; co_identity := co_identity c; co_panic := co_panic c; co_cleanup := co_cleanup c;
  co_hosted := co_hosted c; co_account := co_account c; co_config := co_config c; co_confirmations := co_confirmations c;
  co_inflight := co_inflight c; co_calls := co_calls c; co_oracle := co_oracle c |}.
Definition stop_chat (c : Core W) : Core W := {|
  co_actor := co_actor c; co_chat_alive := false; co_identity := co_identity c; co_panic := co_panic c; co_cleanup := co_cleanup c;
  co_hosted := co_hosted c; co_account := co_account c; co_config := co_config c; co_confirmations := co_confirmations c;
  co_inflight := co_inflight c; co_calls := co_calls c; co_oracle := co_oracle c |}.
Definition set_identity (i : option IdentitySecrets) (c : Core W) : Core W := {|
  co_actor := co_actor c; co_chat_alive := co_chat_alive c; co_identity := i; co_panic := co_panic c; co_cleanup := co_cleanup c;
  co_hosted := co_hosted c; co_account := co_account c; co_config := co_config c; co_confirmations := co_confirmations c;
  co_inflight := co_inflight c; co_calls := co_calls c; co_oracle := co_oracle c |}.
Definition set_panic (p : PanicLifecycle) (k : option Cleanup) (c : Core W) : Core W := {|
  co_actor := co_actor c; co_chat_alive := co_chat_alive c; co_identity := co_identity c; co_panic := p; co_cleanup := k;
  co_hosted := co_hosted c; co_account := co_account c; co_config := co_config c; co_confirmations := co_confirmations c;
  co_inflight := co_inflight c; co_calls := co_calls c; co_oracle := co_oracle c |}.
Definition set_hosted (h : option HostedState) (c : Core W) : Core W := {|
  co_actor := co_actor c; co_chat_alive := co_chat_alive c; co_identity := co_identity c; co_panic := co_panic c; co_cleanup := co_cleanup c;
  co_hosted := h; co_account := co_account c; co_config := co_config c; co_confirmations := co_confirmations c;
  co_inflight := co_inflight c; co_calls := co_calls c; co_oracle := co_oracle c |}.
Definition set_account (h : option HostedAccount) (c : Core W) : Core W := {|
  co_actor := co_actor c; co_chat_alive := co_chat_alive c; co_identity := co_identity c; co_panic := co_panic c; co_cleanup := co_cleanup c;
  co_hosted := co_hosted c; co_account := h; co_config := co_config c; co_confirmations := co_confirmations c;
  co_inflight := co_inflight c; co_calls := co_calls c; co_oracle := co_oracle c |}.
Definition set_config (g : DaemonConfig) (c : Core W) : Core W := {|
  co_actor := co_actor c; co_chat_alive := co_chat_alive c; co_identity := co_identity c; co_panic := co_panic c; co_cleanup := co_cleanup c;
  co_hosted := co_hosted c; co_account := co_account c; co_config := g; co_confirmations := co_confirmations c;
  co_inflight := co_inflight c; co_calls := co_calls c; co_oracle := co_oracle c |}.
Definition set_confirmations (f : Confirmations) (c : Core W) : Core W := {|
  co_actor := co_actor c; co_chat_alive := co_chat_alive c; co_identity := co_identity c; co_panic := co_panic c; co_cleanup := co_cleanup c;
  co_hosted := co_hosted c; co_account := co_account c; co_config := co_config c; co_confirmations := f;
  co_inflight := co_inflight c; co_calls := co_calls c; co_oracle := co_oracle c |}.
Definition set_inflight (l : list Command) (c : Core W) : Core W := {|
  co_actor := co_actor c; co_chat_alive := co_chat_alive c; co_identity := co_identity c; co_panic := co_panic c; co_cleanup := co_cleanup c;
  co_hosted := co_hosted c; co_account := co_account c; co_config := co_config c; co_confirmations := co_confirmations c;
  co_inflight := l; co_calls := co_calls c; co_oracle := co_oracle c |}.
Definition add_call (m : string) (params : Value) (c : Core W) : Core W := {|
  co_actor := co_actor c; co_chat_alive := co_chat_alive c; co_identity := co_identity c; co_panic := co_panic c; co_cleanup := co_cleanup c;
  co_hosted := co_hosted c; co_account := co_account c; co_config := co_config c; co_confirmations := co_confirmations c;
  co_inflight := co_inflight c; co_calls := co_calls c ++ [(m, params)];
  co_oracle := {| or_network := or_network (co_oracle c); or_deliveries := tail (or_deliveries (co_oracle c));
                  or_removed := or_removed (co_oracle c); or_safe := or_safe (co_oracle c) |} |}.
Definition set_oracle (o : Oracle) (c : Core W) : Core W := {|
  co_actor := co_actor c; co_chat_alive := co_chat_alive c; co_identity := co_identity c; co_panic := co_panic c; co_cleanup := co_cleanup c;
  co_hosted := co_hosted c; co_account := co_account c; co_config := co_config c; co_confirmations := co_confirmations c;
  co_inflight := co_inflight c; co_calls := co_calls c; co_oracle := o |}.

Definition on_actor {E A} (c : SE (Actor W) E A) : SE (Core W) E A := se_zoom co_actor set_actor c.
End Setters.

Abbreviation CM W A := (SE (Core W) CoreError A).

Section Core.
Context {W : Type} {aead : Aead} {hex : Hex} {json : Json} {sha : Sha256} {schnorr : Schnorr} {bech : Bech32}.
Context {crypto : Nip44Crypto} {b64 : Base64} {url : UrlLib} {ed : Ed25519} {api : SecretApi W}.
(** where the confirmations are written *)
Context (confirmation_directory : string).

Definition unix_time_core : CM W Z := on_actor (se_map_err (fun _ => CEClock) unix_time).
Definition random_bytes : CM W bytes := on_actor (random (getrandom_fill CERandom 32)).

Definition is_active (c : Core W) : bool := bool_decide (pl_state (co_panic c) = Active).
Definition ensure_active : CM W unit := fun c => (if is_active c then Ok tt else Err CEPanicked, c).
Definition identity : CM W IdentitySecrets := fun c => (ok_or CEPanicked (co_identity c), c).

(** [NostrChat::roundtrip] *)
Definition chat (r : ChatRequest) : CM W Value := fun c =>
  if co_chat_alive c then on_actor (se_map_err CEChat (Chat.handle (or_network (co_oracle c)) r)) c
  else (Err (CEChat CStopped), c).

Definition load_nostr : CM W (option NostrSecret) := fun c =>
  on_actor (se_map_err CENostrStore (on_disk (nostr_load (store (co_actor c))))) c.

Definition public_nostr_json (s : NostrSecret) : Value :=
  JObject [("npub", JString (own_npub s)); ("pubkey", JString (hex_encode (own_key s)))]%string.

(** ** Hosted status *)

Record HostedStatus := {
  st_state : string;
  st_url : option string;
  st_server_public_key : option string;
  st_account_id : option string;
  st_handle : option string;
  st_display_name : option string;
  st_reason : option string
}.
Definition hosted_status (c : Core W) : HostedStatus :=
  match hosted (co_config c) with
  | None => {| st_state := "disabled"; st_url := None; st_server_public_key := None; st_account_id := None; st_handle := None;
               st_display_name := None; st_reason := None |}
  | Some h =>
      let '(state, reason) :=
        match co_hosted c with
        | None => ("starting"%string, None)
        | Some (HDisconnected reason) => ("disconnected"%string, Some reason)
        | Some other => (HostedState_label other, None)
        end in
      {| st_state := state; st_url := Some (hc_url h); st_server_public_key := Some (hc_pinned_server_public_key h);
         st_account_id := ha_account_id <$> co_account c; st_handle := co_account c ≫= ha_handle;
         st_display_name := co_account c ≫= ha_display_name; st_reason := reason |}
  end.
Definition hosted_status_value (s : HostedStatus) : Value :=
  JObject [("account_id", opt_value (st_account_id s)); ("display_name", opt_value (st_display_name s));
           ("handle", opt_value (st_handle s)); ("reason", opt_value (st_reason s));
           ("server_public_key", opt_value (st_server_public_key s)); ("state", JString (st_state s));
           ("url", opt_value (st_url s))]%string.

Definition status_value : CM W Value :=
  let! _ := ensure_active in
  let! i := identity in
  let public := public_identity i in
  let! secret := load_nostr in
  let nostr :=
    match secret with
    | Some s => JObject [("npub", JString (own_npub s)); ("present", JBool true); ("pubkey", JString (hex_encode (own_key s)))]%string
    | None => JObject [("present"%string, JBool false)]
    end in
  fun c =>
    (Ok (JObject [("device_public_key", JString (hex_encode (signing_public_key public)));
                  ("dm_relays", ser_strings (relays (co_actor c))); ("fingerprint", JString (fingerprint_hex public));
                  ("hosted", hosted_status_value (hosted_status c)); ("nostr", nostr);
                  ("storage_provider", JString (provider_name (provider (store (co_actor c)))))]%string), c).

Definition fingerprint_value : CM W Value :=
  let! i := identity in se_ret (Ok (JString (fingerprint_hex (public_identity i)))).

Definition publish_status_event (c : Core W) : Core W :=
  match status_value c with
  | (Ok payload, c) => set_actor (publish TStatus payload (co_actor c)) c
  | (Err _, c) => c
  end.

(** ** Identity *)

Definition identity_show : CM W Value :=
  let! s := load_nostr in
  let! s := se_ret (ok_or CENostrMissing s) in
  se_ret (Ok (public_nostr_json s)).
Definition identity_export : CM W Value :=
  let! s := load_nostr in
  let! s := se_ret (ok_or CENostrMissing s) in
  se_ret (Ok (JObject [("nsec"%string, JString (default ""%string (NostrSecret_nsec s)))])).
Definition save_identity (s : NostrSecret) : CM W Value := fun c =>
  (let! _ := on_actor (se_map_err CENostrStore (on_disk (save_new (store (co_actor c)) s))) in
   se_ret (Ok (public_nostr_json s))) c.
Definition identity_generate : CM W Value :=
  let! s := on_actor (se_map_err (fun _ => CENostrStore VIdentity) (random NostrSecret_generate)) in
  save_identity s.
Definition identity_import (nsec : string) : CM W Value :=
  let! s := se_ret (map_err (fun _ => CENostrStore VIdentity) (NostrSecret_from_nsec nsec)) in
  save_identity s.

(** ** Hosted commands *)

Definition sign_with_device_key (transcript : bytes) (c : Core W) : option bytes :=
  (fun i => identity_sign i transcript) <$> co_identity c.

(** [hosted_call] with [HostedHandle::call] *)
Definition hosted_call (m : string) (params : Value) : CM W Value := fun c =>
  match co_hosted c with
  | None => (Err CEHostedUnconfigured, c)
  | Some _ =>
      (map_err hosted_error (call_outcome (default NoAnswerInTime (head (or_deliveries (co_oracle c))))),
       add_call m params c)
  end.

Definition hosted_binding_context : CM W (string * string * bytes) := fun c =>
  let status := hosted_status c in
  (fail_if negb (String.eqb (st_state status) "connected") with CEHostedUnavailable ;;
   let? account_id := ok_or CEHostedUnavailable (st_account_id status) in
   let? handle := ok_or (CEHosted (mkServerError CInvalidHandle "claim a handle before binding a nostr key")) (st_handle status) in
   let? encoded := ok_or CEHostedUnavailable (st_server_public_key status) in
   let? key := ok_or CEInvalidConfig (hex_decode_to_slice 32 encoded) in
   Ok (account_id, handle, key), c).

Definition bind_params (key nonce : bytes) (timestamp : Z) (device_signature nostr_signature : bytes) : Value :=
  JObject [("device_signature", JString (hex_encode device_signature)); ("nonce", JString (hex_encode nonce));
           ("nostr_public_key", JString (hex_encode key)); ("nostr_signature", JString (hex_encode nostr_signature));
           ("timestamp", JInt timestamp)]%string.
Definition unbind_params (nonce : bytes) (timestamp : Z) (device_signature : bytes) : Value :=
  JObject [("device_signature", JString (hex_encode device_signature)); ("nonce", JString (hex_encode nonce));
           ("timestamp", JInt timestamp)]%string.

Definition hosted_bind_nostr : CM W Value :=
  let! s := load_nostr in
  let! s := se_ret (ok_or CENostrMissing s) in
  let! context := hosted_binding_context in
  let '(account_id, handle, server_public_key) := context in
  let! nonce := random_bytes in
  let! timestamp := unix_time_core in
  let transcript := nostr_bind_transcript server_public_key account_id handle (own_key s) nonce timestamp in
  let! device_signature := fun c => (ok_or CEPanicked (sign_with_device_key transcript c), c) in
  let! nostr_signature := on_actor (se_map_err (fun _ => CENostrStore VIdentity) (random (NostrSecret_sign s transcript))) in
  hosted_call "bind-nostr" (bind_params (own_key s) nonce timestamp device_signature nostr_signature).

Definition hosted_unbind_nostr : CM W Value :=
  let! context := hosted_binding_context in
  let '(account_id, handle, server_public_key) := context in
  let! status := hosted_call "status" JNull in
  let! bound := se_ret (ok_or (CEHosted (mkServerError Hosted.CNotFound "no nostr key is bound")) (get_str "nostr_public_key" status)) in
  let! nostr_public_key := se_ret (ok_or CEInvalidConfig (hex_decode_to_slice 32 bound)) in
  let! nonce := random_bytes in
  let! timestamp := unix_time_core in
  let transcript := nostr_unbind_transcript server_public_key account_id handle nostr_public_key nonce timestamp in
  let! device_signature := fun c => (ok_or CEPanicked (sign_with_device_key transcript c), c) in
  hosted_call "unbind-nostr" (unbind_params nonce timestamp device_signature).

Definition hosted_claim_handle (handle : string) : CM W Value :=
  let! res := hosted_call "claim-handle" (JObject [("handle"%string, JString handle)]) in
  fun c =>
    let c :=
      match get_str "handle" res, co_account c with
      | Some claimed, Some a =>
          set_account (Some {| ha_account_id := ha_account_id a; ha_handle := Some claimed; ha_display_name := ha_display_name a;
                               ha_new_account := ha_new_account a |}) c
      | _, _ => c
      end in
    (Ok res, publish_status_event c).

(** ** Commands *)

Definition confirmation_issue_value (i : IssuedConfirmation) : Value :=
  JObject [("expires_at", JInt (expires_at i)); ("token_path", JString (confirmation_directory +:+ "/" +:+ token_path i));
           ("ttl_seconds", JInt CONFIRMATION_TTL_SECONDS)]%string.

Definition subscribe_value (topics : list Topic) : CM W Value :=
  let! snapshot := chat Snapshot in
  let snapshot := value_set "topics" (ser_strings (map topic_str topics)) snapshot in
  let! status := status_value in
  se_ret (Ok (value_set "status" status snapshot)).

Definition dispatch_active (c : Command) : CM W Value :=
  match c with
  | Status => status_value
  | Fingerprint => fingerprint_value
  | RequestPanicConfirmation =>
      let! now := unix_time_core in
      let! issued := se_map_err issue_error (se_zoom co_confirmations set_confirmations (issue PanicErase now)) in
      se_ret (Ok (confirmation_issue_value issued))
  | IdentityShow => identity_show
  | IdentityExport => identity_export
  | IdentityGenerate => let! v := identity_generate in let! _ := chat Reload in se_ret (Ok v)
  | IdentityImport nsec => let! v := identity_import nsec in let! _ := chat Reload in se_ret (Ok v)
  | ChatPrepare => chat Prepare
  | ContactsAdd peer => chat (AddContact peer)
  | ContactsRemove npub => chat (RemoveContact npub)
  | ContactsList => chat ListContacts
  | RelaysShow => chat ShowRelays
  | RelaysSet rs => chat (SetRelays rs)
  | Ipc.Send peer text => chat (Chat.Send peer text)
  | Ipc.Messages => chat Chat.Messages
  | HostedBindNostr => hosted_bind_nostr
  | HostedUnbindNostr => hosted_unbind_nostr
  | HostedClaimHandle handle => hosted_claim_handle handle
  | HostedResolveHandle handle => hosted_call "resolve-handle" (JObject [("handle"%string, JString handle)])
  | Subscribe topics => subscribe_value topics
  | Panic _ | Hello _ _ => se_ret (Err CEInvalidCommand)
  end.

(** ** Panic *)

(** The start of [panic_erase]: the confirmation is spent and the lifecycle begins. *)
Definition panic_begin (confirmation : string) : CM W unit :=
  let! now := unix_time_core in
  let! _ := fun c => se_map_err confirmation_error (se_zoom co_confirmations set_confirmations
              (redeem (or_removed (co_oracle c)) PanicErase confirmation now)) c in
  fun c =>
    let '(began, p) := begin (co_panic c) in
    if began then (Ok tt, set_panic p (Some CleanChat) c) else (Err CEPanicked, c).

Definition set_store (st : SealedStore) (a : Actor W) : Actor W := {|
  store := st; world := world a; relays := relays a; contacts := contacts a; messages := messages a; pooled := pooled a;
  loopback_nip05 := loopback_nip05 a |}.

(** What [perform_panic_cleanup] does once it holds the operations lock, with [finish]:
    erasing the store removes the whole state directory, the confirmations with it. *)
Definition cleanup_locked (c : Core W) : result CoreError Value * Core W :=
  let c := set_account None (set_identity None c) in
  let a := co_actor c in
  let '(r, (st, d)) := panic_erase (or_safe (co_oracle c)) (store a) (disk (world a)) in
  let c := set_actor (set_disk d (set_store st a)) c in
  let c := if is_ok r then set_confirmations (with_files ∅ (co_confirmations c)) c else c in
  let c := set_panic (finish (is_ok r) (co_panic c)) None c in
  (let? _ := map_err CEStore r in
   Ok (JObject [("erased", JBool true); ("restart_required", JBool true)]%string), c).

(** One step of the cleanup, when it is not blocked; [Some] is its result. *)
Definition cleanup_step (c : Core W) : option (result CoreError Value) * Core W :=
  match co_cleanup c with
  | None => (None, c)
  | Some CleanChat => (None, set_panic (co_panic c) (Some CleanHosted) (stop_chat (set_actor (set_pool None (co_actor c)) c)))
  | Some CleanHosted => (None, set_panic (co_panic c) (Some CleanLocked) (set_hosted None c))
  | Some CleanLocked =>
      match co_inflight c with
      | [] => let '(r, c) := cleanup_locked c in (Some r, c)
      | _ => (None, c)
      end
  end.

(** The whole of [panic_erase], with no other operation in flight *)
Definition panic_erase_all (confirmation : string) : CM W Value :=
  let! _ := panic_begin confirmation in
  fun c =>
    let c := (cleanup_step (cleanup_step c).2).2 in
    match cleanup_step c with
    | (Some r, c) => (r, c)
    | (None, c) => (Err CEPanicErase, c)
    end.

(** ** Dispatch *)

Definition panic_unavailable : ResponseOutcome :=
  ErrorOutcome {| eb_code := ICUnavailable; eb_message := "daemon is shutting down and unavailable" |}.
Definition outcome_of (d : Displays) (r : result CoreError Value) : ResponseOutcome :=
  match r with
  | Ok v => OkOutcome v
  | Err e => ErrorOutcome {| eb_code := core_error_code e; eb_message := core_error_display d e |}
  end.

(** [dispatch] of a command that runs alone *)
Definition dispatch (d : Displays) (command : Command) (c : Core W) : ResponseOutcome * Core W :=
  if negb (is_active c) then (panic_unavailable, c)
  else
    let '(r, c) := match command with
                   | Panic confirmation => panic_erase_all confirmation c
                   | command => dispatch_active command c
                   end in
    (outcome_of d r, c).

(** ** The rest of the daemon's life *)

Definition reload (file : option bytes) : CM W unit :=
  let! replacement := se_ret (map_err config_error (DaemonConfig_load file)) in
  let! _ := ensure_active in
  fun c =>
    let config := co_config c in
    if negb (bool_decide (hosted config = hosted replacement))
       || negb (bool_decide (storage_provider config = storage_provider replacement))
    then (Err CERestartRequired, c)
    else (Ok tt, set_config replacement c).

(** [start_hosted_with]: the configuration of the transport it spawns *)
Definition start_hosted_with (timeouts : HostedTimeouts) : CM W (option HostedServiceConfig) :=
  let! _ := ensure_active in
  fun c =>
    match hosted (co_config c) with
    | None => (Ok None, c)
    | Some h =>
        (let! i := identity in
         let! u := se_ret (map_err config_error (canonical_publication_url (hc_url h))) in
         let! pinned := se_ret (map_err config_error (pinned_server_public_key_bytes h)) in
         let config := {|
           hs_url := u; hs_pinned_server_public_key := pinned; hs_device_public_key := signing_public_key (public_identity i);
           hs_display_name := match hc_display_name h with
                              | Some n => if is_ok (validate_name n) then Some n else None
                              | None => None
                              end;
           hs_timeouts := timeouts |} in
         if negb (spawn_allowed config) then se_ret (Err CEHostedService)
         else fun c => (Ok (Some config), set_hosted (Some HConnecting) c)) c
    end.

Definition receive_hosted_event (e : HostedEvent) (c : Core W) : Core W :=
  if negb (is_active c) then c else
  match e with
  | EState state =>
      let c := match HostedState_account state with Some a => set_account (Some a) c | None => c end in
      publish_status_event c
  | EServer _ _ => c
  end.

Definition prepare_for_shutdown (c : Core W) : option PanicState * Core W :=
  match begin_process_shutdown (co_panic c) with
  | (WaitForPanicCleanup, p) => (wait_for_terminal p, set_panic p (co_cleanup c) c)
  | (ContinueShutdown, p) => (Some (pl_state p), set_panic p (co_cleanup c) c)
  end.

(** [DaemonCore::open] *)
Definition core_open (config : DaemonConfig) (f : Confirmations) (o : Oracle) (w : World W) : result CoreError (Core W) :=
  let? _ := map_err config_error (DaemonConfig_validate config) in
  let set_d d := {| disk := d; readings := readings w; links := links w; outbox := outbox w; hub := hub w; sequence := 1 |} in
  match open (requested_provider (storage_provider config)) (disk w) with
  | (Err e, _) => Err (CEStore e)
  | (Ok st, d) =>
      match load_or_create st d with
      | (Err e, _) => Err (CEIdentityStore e)
      | (Ok i, d) =>
          Ok {| co_actor := spawn st (dm_relays config) (set_d d); co_chat_alive := true; co_identity := Some i;
                co_panic := PanicLifecycle_default; co_cleanup := None; co_hosted := None; co_account := None; co_config := config;
                co_confirmations := f; co_inflight := []; co_calls := []; co_oracle := o |}
      end
  end.

(** What happens to a running daemon, in any order: a client's command is admitted under
    the operations lock or runs to its end, a panic begins, its cleanup advances or dies,
    relays and the hosted transport deliver, the configuration is reloaded, the hosted
    service starts, the process is told to stop. *)
Inductive CoreInput :=
| InAdmit (command : Command)
| InRun (i : nat) (o : Oracle)
| InPanic (confirmation : string) (o : Oracle)
| InCleanup (o : Oracle)
| InCleanupDies
| InRelays (arrivals : list Arrival)
| InHostedState (s : HostedState)
| InHostedEvent (e : HostedEvent)
| InReload (file : option bytes)
| InStartHosted (timeouts : HostedTimeouts)
| InStop.

Definition core_step (i : CoreInput) (c : Core W) : Core W :=
  match i with
  | InAdmit command =>
      match command with
      | Panic _ => c
      | _ => if is_active c then set_inflight (co_inflight c ++ [command]) c else c
      end
  | InRun i o =>
      match co_inflight c !! i with
      | Some command =>
          (dispatch_active command (set_oracle o (set_inflight (delete i (co_inflight c)) c))).2
      | None => c
      end
  | InPanic confirmation o => if is_active c then (panic_begin confirmation (set_oracle o c)).2 else c
  | InCleanup o => (cleanup_step (set_oracle o c)).2
  | InCleanupDies => match co_cleanup c with Some _ => set_panic (finish false (co_panic c)) None c | None => c end
  | InRelays arrivals =>
      if co_chat_alive c then set_actor (chat_step (InArrivals arrivals) (co_actor c)) c else c
  | InHostedState s => match co_hosted c with Some _ => set_hosted (Some s) c | None => c end
  | InHostedEvent e => receive_hosted_event e c
  | InReload file => (reload file c).2
  | InStartHosted timeouts => (start_hosted_with timeouts c).2
  | InStop => (prepare_for_shutdown c).2
  end.
Definition core_run (inputs : list CoreInput) (c : Core W) : Core W := fold_left (fun c i => core_step i c) inputs c.
End Core.

(** The daemon as the handler of the socket server *)
Section Handler.
Context {W : Type} {aead : Aead} {hex : Hex} {json : Json} {sha : Sha256} {schnorr : Schnorr} {bech : Bech32}.
Context {crypto : Nip44Crypto} {b64 : Base64} {url : UrlLib} {ed : Ed25519} {api : SecretApi W}.

Definition core_handler (confirmation_directory : string) (d : Displays) : RequestHandler (Core W) := {|
  rh_handle r c := dispatch confirmation_directory d (command r) c;
  rh_hub c := hub (world (co_actor c));
  rh_set_hub h c :=
    let a := co_actor c in let w := world a in
    set_actor (set_world {| disk := disk w; readings := readings w; links := links w; outbox := outbox w; hub := h;
                            sequence := sequence w |} a) c
|}.
End Handler.
