(* ===== verification/Lifecycle.v ===== *)
(** * The life of the daemon: panic, confirmations and shutdown

    Which parts of the core a command leaves alone, the invariant of the panic lifecycle
    over every interleaving of commands, cleanup, relays, the hosted transport, reloads
    and shutdown, and what it gives: an erasure needs a confirmed token, ends, and is for
    good. *)

From Stdlib Require Import Strings.Byte Ascii String.
From S2P Require Import Prelude RustStd BTree Libs Serde Concrete ValueMap Nip44 Keys Account Hosted Nip11 Nip05 Confirmation Store Ipc Daemon IpcServer HostedClient Pool Chat Core.
Local Open Scope Z_scope.

(** ** What a command leaves alone *)

(** The parts of the core that no command touches *)
Record frame {W : Type} (c c' : Core W) : Prop := {
  fr_panic : co_panic c' = co_panic c;
  fr_cleanup : co_cleanup c' = co_cleanup c;
  fr_alive : co_chat_alive c' = co_chat_alive c;
  fr_inflight : co_inflight c' = co_inflight c;
  fr_identity : co_identity c' = co_identity c;
  fr_hosted : co_hosted c' = co_hosted c;
  fr_config : co_config c' = co_config c;
  fr_confirmations : co_confirmations c' = co_confirmations c
}.
Definition framed {W A : Type} (m : CM W A) : Prop := forall c, frame c (m c).2.

Section Frame.
Context {W : Type}.

Lemma frame_refl (c : Core W) : frame c c.
Proof using Type. by split. Qed.
Lemma frame_trans (c1 c2 c3 : Core W) : frame c1 c2 -> frame c2 c3 -> frame c1 c3.
Proof using Type. intros [] []. split; congruence. Qed.
Lemma frame_actor a (c : Core W) : frame c (set_actor a c).
Proof using Type. by split. Qed.
Lemma frame_account h (c : Core W) : frame c (set_account h c).
Proof using Type. by split. Qed.

Lemma framed_ret {A} (r : result CoreError A) : framed (W := W) (se_ret r).
Proof using Type. intros c. apply frame_refl. Qed.
Lemma framed_read {A} (f : Core W -> result CoreError A) : framed (fun c => (f c, c)).
Proof using Type. intros c. apply frame_refl. Qed.
Lemma framed_bind {A B} (m : CM W A) (k : A -> CM W B) : framed m -> (forall a, framed (k a)) -> framed (se_bind m k).
Proof using Type.
  intros Hm Hk c. unfold se_bind. specialize (Hm c). destruct (m c) as [[a|e] c1]; [|exact Hm].
  eapply frame_trans; [exact Hm | apply Hk].
Qed.
Lemma framed_on_actor {A} (m : SE (Actor W) CoreError A) : framed (on_actor m).
Proof using Type. intros c. apply frame_actor. Qed.
End Frame.

Create HintDb frame.
#[export] Hint Resolve framed_ret framed_read framed_on_actor frame_refl frame_actor frame_account : frame.
#[export] Hint Extern 4 (framed (se_bind _ _)) => apply framed_bind; [|intros] : frame.
#[export] Hint Extern 5 (framed (let '(_, _) := ?x in _)) => destruct x : frame.

Section FrameCommands.
Context {W : Type} {aead : Aead} {hex : Hex} {json : Json} {sha : Sha256} {schnorr : Schnorr} {bech : Bech32}.
Context {crypto : Nip44Crypto} {b64 : Base64} {url : UrlLib} {ed : Ed25519} {api : SecretApi W}.
Context (confirmation_directory : string).

Lemma framed_chat r : framed (W := W) (chat r).
Proof using Type. intros c. unfold chat. destruct (co_chat_alive c); [apply framed_on_actor | apply frame_refl]. Qed.
Lemma framed_load_nostr : framed (W := W) load_nostr.
Proof using Type. intros c. apply (framed_on_actor (W := W)). Qed.
Lemma framed_hosted_call m v : framed (W := W) (hosted_call m v).
Proof using Type. intros c. unfold hosted_call. destruct (co_hosted c); by split. Qed.
Hint Resolve framed_chat framed_load_nostr framed_hosted_call : frame.

Lemma framed_status : framed (W := W) status_value.
Proof using Type. unfold status_value, ensure_active, identity. eauto 10 with frame. Qed.
Hint Resolve framed_status : frame.

Lemma frame_publish_status (c : Core W) : frame c (publish_status_event c).
Proof using Type.
  unfold publish_status_event. pose proof (framed_status c) as Hf.
  destruct (status_value c) as [[v|e] c1]; cbn [snd] in Hf; [|exact Hf]. eapply frame_trans; [exact Hf | apply frame_actor].
Qed.

Lemma framed_save_identity s : framed (W := W) (save_identity s).
Proof using Type.
  intros c. unfold save_identity. apply (framed_bind (W := W)); [apply framed_on_actor | intros; apply framed_ret].
Qed.
Hint Resolve framed_save_identity : frame.

Lemma framed_claim handle : framed (W := W) (hosted_claim_handle handle).
Proof using Type.
  unfold hosted_claim_handle. apply framed_bind; [apply framed_hosted_call|]. intros v c.
  destruct (get_str "handle" v) as [claimed|]; cbn [snd]; [|apply frame_publish_status].
  destruct (co_account c); [|apply frame_publish_status]. eapply frame_trans; [|apply frame_publish_status]. apply frame_account.
Qed.

Lemma framed_bind_nostr : framed (W := W) hosted_bind_nostr.
Proof using Type.
  unfold hosted_bind_nostr, random_bytes, unix_time_core, hosted_binding_context.
  apply framed_bind; [eauto with frame | intros s0]. apply framed_bind; [eauto with frame | intros s].
  apply framed_bind; [eauto with frame | intros [[i h] k]]. eauto 12 with frame.
Qed.

Lemma framed_unbind_nostr : framed (W := W) hosted_unbind_nostr.
Proof using Type.
  unfold hosted_unbind_nostr, random_bytes, unix_time_core, hosted_binding_context.
  apply framed_bind; [eauto with frame | intros [[i h] k]]. eauto 16 with frame.
Qed.

(** Every command but the request for a confirmation *)
Lemma framed_command command : command <> RequestPanicConfirmation ->
  framed (W := W) (dispatch_active confirmation_directory command).
Proof using Type.
  destruct command; intros Hne; cbn [dispatch_active]; try done;
    unfold fingerprint_value, identity_show, identity_export, identity_generate, identity_import, subscribe_value, identity;
    eauto 10 using framed_claim, framed_bind_nostr, framed_unbind_nostr with frame.
Qed.

(** A request for a confirmation changes the confirmations only. *)
Lemma request_confirmation_frame (c : Core W) :
  exists f, frame c (set_confirmations f (dispatch_active confirmation_directory RequestPanicConfirmation c).2).
Proof using Type.
  exists (co_confirmations c). cbn [dispatch_active]. unfold unix_time_core, se_bind, se_map_err, on_actor, se_zoom. cbn [fst snd].
  destruct (map_err _ _) as [now|e]; [|by split]. cbn [fst snd].
  destruct (map_err issue_error _); by split.
Qed.
End FrameCommands.

(** ** The invariant *)

(** What is left when an erasure succeeded *)
Record wiped {W : Type} (c : Core W) : Prop := {
  wi_files : files (disk (world (co_actor c))) = ∅;
  wi_confirmations : Confirmation.files (co_confirmations c) = ∅;
  wi_store : erased (store (co_actor c)) = true;
  wi_identity : co_identity c = None;
  wi_account : co_account c = None;
  wi_hosted : co_hosted c = None;
  wi_inflight : co_inflight c = [];
  wi_chat : co_chat_alive c = false
}.

Record core_ok {W : Type} (c : Core W) : Prop := {
  ok_erasing : pl_state (co_panic c) = Erasing <-> co_cleanup c <> None;
  ok_chat : co_cleanup c = Some CleanHosted \/ co_cleanup c = Some CleanLocked -> co_chat_alive c = false;
  ok_hosted : co_cleanup c = Some CleanLocked -> co_hosted c = None;
  ok_identity : co_identity c = None -> is_terminal (pl_state (co_panic c)) = true;
  ok_watch : is_terminal (pl_state (co_panic c)) = true -> pl_watch (co_panic c) = pl_state (co_panic c);
  ok_wiped : pl_state (co_panic c) = CleanupComplete -> wiped c
}.

Section Invariant.
Context {W : Type} {aead : Aead} {hex : Hex} {json : Json} {sha : Sha256} {schnorr : Schnorr} {bech : Bech32}.
Context {crypto : Nip44Crypto} {b64 : Base64} {url : UrlLib} {ed : Ed25519} {api : SecretApi W}.
Context (confirmation_directory : string).
Implicit Types c : Core W.

Lemma is_active_spec c : is_active c = true <-> pl_state (co_panic c) = Active.
Proof using Type. unfold is_active. by rewrite bool_decide_eq_true. Qed.

(** Nothing changes once the erasure is complete, and no step reaches it but the cleanup. *)
Lemma frame_ok c c' : frame c c' -> pl_state (co_panic c) <> CleanupComplete -> core_ok c -> core_ok c'.
Proof using Type.
  intros [F1 F2 F3 F4 F5 F6 F7 F8] Hne [H1 H2 H3 H4 H5 H6]. split; rewrite ?F1, ?F2, ?F3, ?F4, ?F5, ?F6; try done.
Qed.
Lemma oracle_ok o c : core_ok c -> core_ok (set_oracle o c).
Proof using Type. intros [H1 H2 H3 H4 H5 H6]. split; try done. intros Hc. destruct (H6 Hc). by split. Qed.

Lemma run_command_ok command c :
  pl_state (co_panic c) <> CleanupComplete -> core_ok c -> core_ok (dispatch_active confirmation_directory command c).2.
Proof using Type.
  intros Hne Hok. destruct (decide (command = RequestPanicConfirmation)) as [->|Hc].
  - destruct (request_confirmation_frame confirmation_directory c) as [f Hf].
    pose proof (frame_ok _ _ Hf Hne Hok) as [H1 H2 H3 H4 H5 H6]. split; try done.
    intros E. exfalso. apply Hne. destruct Hf as [F1 _ _ _ _ _ _ _]. cbn in F1. by rewrite <- F1.
  - apply (frame_ok c); [by apply framed_command | done | done].
Qed.

Lemma cleanup_locked_ok c :
  co_cleanup c = Some CleanLocked -> co_inflight c = [] -> core_ok c -> core_ok (cleanup_locked c).2.
Proof using Type.
  intros Hk Hi [H1 H2 H3 H4 H5 H6]. unfold cleanup_locked.
  destruct (panic_erase _ _ _) as [r [st d]] eqn:Ep. cbn [snd].
  assert (forall x : Core W, pl_state (co_panic (set_panic (finish (is_ok r) (co_panic x)) None x)) =
    if is_ok r then CleanupComplete else CleanupFailed) as Hs by (intros x; by destruct r).
  split; cbn [co_cleanup set_panic]; rewrite ?Hs.
  - split; [by destruct r | done].
  - by intros [|].
  - done.
  - intros _. by destruct r.
  - intros _. by destruct r.
  - destruct r as [k|e]; [intros _|done]. pose proof (panic_erase_files _ _ _ _ _ _ Ep) as Hf.
    apply panic_erase_erased in Ep. split; try done; [by apply H3 | by apply H2; right].
Qed.

Lemma cleanup_step_ok c : core_ok c -> core_ok (cleanup_step c).2.
Proof using Type.
  intros Hok. pose proof Hok as [H1 H2 H3 H4 H5 H6]. unfold cleanup_step. destruct (co_cleanup c) as [[| |]|] eqn:Ek; [| | |exact Hok].
  - assert (pl_state (co_panic c) = Erasing) as Ee by (by apply H1). cbn [snd].
    split; cbn; rewrite ?Ee in *; try done.
  - assert (pl_state (co_panic c) = Erasing) as Ee by (by apply H1). cbn [snd].
    split; cbn; rewrite ?Ee in *; try done. intros _. apply H2. by left.
  - destruct (co_inflight c) eqn:Ei; [|exact Hok]. pose proof (cleanup_locked_ok c Ek Ei Hok) as Hl.
    destruct (cleanup_locked c). exact Hl.
Qed.

(** What beginning a panic does: the token is spent, and the lifecycle starts only if it
    was the one pending. *)
Lemma panic_begin_cases confirmation c r c' :
  panic_begin confirmation c = (r, c') ->
  exists a f, (pending (co_confirmations c) = ∅ -> pending f = ∅) /\ ((c' = set_confirmations f (set_actor a c) /\ r <> Ok tt) \/
    (c' = set_panic {| pl_state := Erasing; pl_watch := pl_watch (co_panic c) |} (Some CleanChat) (set_confirmations f (set_actor a c)) /\
     pl_state (co_panic c) = Active /\
     exists now p, head (readings (world (co_actor c))) = Some (Some now) /\
       pending (co_confirmations c) !! file_name PanicErase = Some p /\ p_token p = confirmation /\ now < p_expires_at p)).
Proof using Type.
  assert (forall b t n g, pending g = ∅ -> pending (redeem b PanicErase t n g).2 = ∅) as Hempty.
  { intros b t n g Hg. unfold redeem, consume_pending_token. rewrite Hg, lookup_empty, delete_empty. by destruct b. }
  unfold panic_begin. intros H. apply se_bind_cases in H as [(e & H & ->) | (now & c1 & Ht & H)].
  { unfold unix_time_core, on_actor, se_zoom in H. injection H as _ <-. exists (unix_time (co_actor c)).2, (co_confirmations c).
    split; [done|]. left. split; [|done]. by destruct c. }
  unfold unix_time_core, on_actor, se_zoom, se_map_err in Ht. injection Ht as Hr Hc.
  unfold unix_time in Hr, Hc. cbn [fst snd] in Hr, Hc. inv_ok.
  assert (head (readings (world (co_actor c))) = Some (Some now)) as Hn
    by (destruct (head _) as [[]|]; cbn in Hr; congruence).
  apply se_bind_cases in H as [(e & H & ->) | (u & c2 & Hd & H)].
  { unfold se_map_err, se_zoom in H. injection H as _ <-. subst c1. eexists _, _. split; [|left; split; [reflexivity | done]]. apply Hempty. }
  unfold se_map_err, se_zoom in Hd. injection Hd as Hu Hc2.
  eexists _, (co_confirmations c2). destruct (begin (co_panic c2)) as [began pl] eqn:Eb.
  subst c1. split; [rewrite <- Hc2; apply Hempty|]. cbn [co_confirmations set_actor co_oracle] in *.
  assert (co_panic c2 = co_panic c) as Ep by (by rewrite <- Hc2). rewrite Ep in Eb. unfold begin in Eb.
  destruct began; injection H as <- <-.
  - right. destruct (pl_state (co_panic c)) eqn:Es; try discriminate Eb. injection Eb as <-.
    split; [rewrite <- Hc2; reflexivity|]. split; [done|].
    exists now. unfold redeem, consume_pending_token in Hu. cbn [fst] in Hu.
    destruct (pending (co_confirmations c) !! file_name PanicErase) as [p|]; [|done]. exists p.
    destruct (p_expires_at p <=? now) eqn:E1; [done|]. rewrite bool_decide_true in Hu by (by destruct (p_action p)).
    cbn [negb orb] in Hu. destruct (String.eqb (p_token p) confirmation) eqn:E2; [|done]. apply String.eqb_eq in E2. split_bools.
    split_and!; done.
  - left. split; [|done]. by rewrite <- Hc2.
Qed.

Lemma core_step_ok i c : core_ok c -> core_ok (core_step confirmation_directory i c).
Proof using Type.
  intros Hok. pose proof Hok as [H1 H2 H3 H4 H5 H6].
  assert (forall c', frame c c' -> pl_state (co_panic c) <> CleanupComplete -> core_ok c') as Hframe
    by (intros c' Hf Hne; by apply (frame_ok c)).
  destruct i as [command|n o|confirmation o|o| |arrivals|s|e|file|timeouts|]; cbn [core_step].
  - destruct command; try exact Hok; (destruct (is_active c) eqn:Ea; [|exact Hok]); apply is_active_spec in Ea;
      split; cbn; rewrite ?Ea in *; try done.
  - destruct (co_inflight c !! n) as [command|] eqn:En; [|exact Hok].
    assert (pl_state (co_panic c) <> CleanupComplete) as Hne by (intros E; destruct (H6 E); by rewrite wi_inflight0 in En).
    apply run_command_ok; [done|]. apply oracle_ok. split; try done.
  - destruct (is_active c) eqn:Ea; [|exact Hok]. apply is_active_spec in Ea.
    destruct (panic_begin confirmation (set_oracle o c)) as [r c'] eqn:Eb. cbn [snd].
    apply panic_begin_cases in Eb as (a & f & _ & [[-> _] | (-> & _)]); split; cbn; rewrite ?Ea in *; try done.
    all: try (by intros [|]).
  - by apply cleanup_step_ok, oracle_ok.
  - destruct (co_cleanup c) as [k|] eqn:Ek; [|exact Hok]. split; cbn; try done. by intros [|].
  - destruct (co_chat_alive c) eqn:Ec; [|exact Hok]. apply Hframe; [apply frame_actor|]. intros E. destruct (H6 E). congruence.
  - destruct (co_hosted c) eqn:Eh; [|exact Hok]. split; cbn; try done.
    + by intros E%H3.
    + intros E. destruct (H6 E). congruence.
  - unfold receive_hosted_event. destruct (is_active c) eqn:Ea; [|exact Hok]. apply is_active_spec in Ea. cbn [negb].
    destruct e as [s|]; [|exact Hok]. apply Hframe; [|by rewrite Ea].
    eapply frame_trans; [|apply frame_publish_status]. destruct (HostedState_account s); [apply frame_account | apply frame_refl].
  - unfold reload, se_bind, se_ret, ensure_active. destruct (map_err _ _) as [g|]; [|exact Hok].
    destruct (is_active c) eqn:Ea; [|exact Hok]. apply is_active_spec in Ea. destruct (_ || _); [exact Hok|].
    split; cbn; rewrite ?Ea in *; try done.
  - unfold start_hosted_with. unfold se_bind at 1, ensure_active. destruct (is_active c) eqn:Ea; [|exact Hok].
    apply is_active_spec in Ea. destruct (hosted (co_config c)); [|exact Hok].
    unfold se_bind, identity, se_ret. destruct (co_identity c) eqn:Ei; [|exact Hok]. cbn [ok_or].
    destruct (map_err config_error (canonical_publication_url _)); [|exact Hok].
    destruct (map_err config_error (pinned_server_public_key_bytes _)); [|exact Hok].
    destruct (negb _); [exact Hok|]. assert (co_cleanup c = None) as Ek.
    { destruct (co_cleanup c); [|done]. rewrite Ea in H1. destruct H1 as [_ H1]. discriminate H1. done. }
    split; cbn; rewrite ?Ea, ?Ek in *; try done. by rewrite Ei.
  - unfold prepare_for_shutdown, begin_process_shutdown. destruct (pl_state (co_panic c)) eqn:Es; cbn [snd]; try (by destruct c).
    assert (co_cleanup c = None) as Ek.
    { destruct (co_cleanup c); [|done]. destruct H1 as [_ H1]. discriminate H1. done. }
    split; cbn; rewrite ?Ek; try done; try (by intros [|]); by intros Hi%H4.
Qed.

Lemma core_run_ok inputs c : core_ok c -> core_ok (core_run confirmation_directory inputs c).
Proof using Type. revert c. induction inputs as [|i inputs IH]; intros c Hc; [done|]. cbn. by apply IH, core_step_ok. Qed.

Lemma core_open_ok config f o w c : core_open config f o w = Ok c -> core_ok c /\ is_active c = true /\ co_confirmations c = f /\ co_inflight c = [].
Proof using Type.
  unfold core_open. intros H. inv_ok. destruct (open _ _) as [[st|] d]; [|done]. destruct (load_or_create st d) as [[i|] d2]; [|done].
  injection H as <-. split; [|by split_and!]. split; cbn; try done. by intros [|].
Qed.

(** A wiped daemon stays as it is. *)
Lemma wiped_step i c : core_ok c -> pl_state (co_panic c) = CleanupComplete ->
  exists o, core_step confirmation_directory i c = set_oracle o c.
Proof using Type.
  intros [H1 H2 H3 H4 H5 H6] Es. destruct (H6 Es) as [W1 W2 W3 W4 W5 W6 W7 W8].
  assert (is_active c = false) as Ea by (unfold is_active; rewrite Es; done).
  assert (co_cleanup c = None) as Ek by (destruct (co_cleanup c); [|done]; rewrite Es in H1; destruct H1 as [_ H1]; discriminate H1; done).
  assert (c = set_oracle (co_oracle c) c) as Eself by (by destruct c).
  destruct i as [command|n o|confirmation o|o| |arrivals|s|e|file|timeouts|]; cbn [core_step];
    rewrite ?Ea, ?W6, ?W7, ?W8, ?Ek; try (exists (co_oracle c); exact Eself).
  - exists (co_oracle c). by destruct command.
  - exists o. unfold cleanup_step. cbn [co_cleanup set_oracle]. by rewrite Ek.
  - exists (co_oracle c). unfold receive_hosted_event. by rewrite Ea.
  - exists (co_oracle c). unfold reload, se_bind, se_ret, ensure_active. destruct (map_err _ _); [|exact Eself]. by rewrite Ea.
  - exists (co_oracle c). unfold start_hosted_with, se_bind at 1, ensure_active. by rewrite Ea.
  - exists (co_oracle c). unfold prepare_for_shutdown, begin_process_shutdown. rewrite Es. cbn. by destruct c.
Qed.
End Invariant.

(** ** Runs *)

Section Runs.
Context {W : Type} {aead : Aead} {hex : Hex} {json : Json} {sha : Sha256} {schnorr : Schnorr} {bech : Bech32}.
Context {crypto : Nip44Crypto} {b64 : Base64} {url : UrlLib} {ed : Ed25519} {api : SecretApi W}.
Context (dir : string).
Implicit Types c : Core W.

Lemma core_run_app i1 i2 c : core_run dir (i1 ++ i2) c = core_run dir i2 (core_run dir i1 c).
Proof using Type. apply fold_left_app. Qed.

Lemma wiped_run inputs c : core_ok c -> pl_state (co_panic c) = CleanupComplete ->
  exists o, core_run dir inputs c = set_oracle o c.
Proof using Type.
  revert c. induction inputs as [|i inputs IH]; intros c Hok Hs; cbn.
  { exists (co_oracle c). by destruct c. }
  destruct (wiped_step dir i c Hok Hs) as [o ->]. destruct (IH (set_oracle o c)) as [o' E]; [by apply oracle_ok | done|].
  exists o'. exact E.
Qed.

(** The states an erasure has started in *)
Definition erasing_or_done (s : PanicState) : bool :=
  match s with Erasing | CleanupComplete | CleanupFailed => true | _ => false end.

(** A command leaves the lifecycle and the queue alone. *)
Lemma command_lifecycle command c :
  co_panic (dispatch_active dir command c).2 = co_panic c /\ co_cleanup (dispatch_active dir command c).2 = co_cleanup c /\
  co_inflight (dispatch_active dir command c).2 = co_inflight c /\
  (command <> RequestPanicConfirmation -> co_confirmations (dispatch_active dir command c).2 = co_confirmations c).
Proof using Type.
  destruct (decide (command = RequestPanicConfirmation)) as [->|Hne].
  - destruct (request_confirmation_frame dir c) as [f [F1 F2 F3 F4 F5 F6 F7 F8]]. by split_and!.
  - by destruct (framed_command (W := W) dir command Hne c).
Qed.

(** The step did not move the lifecycle. *)
Ltac unchanged :=
  match goal with
  | Hs : erasing_or_done (pl_state (co_panic ?c)) = false |- _ =>
      let Hx := fresh in intros Hx; exfalso; change (erasing_or_done (pl_state (co_panic c)) = true) in Hx; congruence
  end.

(** Only a panic with the pending token starts an erasure. *)
Lemma erasure_starts i c : core_ok c -> erasing_or_done (pl_state (co_panic c)) = false ->
  erasing_or_done (pl_state (co_panic (core_step dir i c))) = true ->
  exists token o now p, i = InPanic token o /\ head (readings (world (co_actor c))) = Some (Some now) /\
    pending (co_confirmations c) !! file_name PanicErase = Some p /\ p_token p = token /\ now < p_expires_at p.
Proof using Type.
  intros Hok Hs.
  assert (co_cleanup c = None) as Ek.
  { destruct Hok as [[_ H1] _ _ _ _ _]. destruct (co_cleanup c); [|done]. by rewrite H1 in Hs. }
  destruct i as [command|n o|token o|o| |arrivals|s|e|file|timeouts|]; cbn [core_step].
  - destruct command; try (destruct (is_active c)); unchanged.
  - destruct (co_inflight c !! n) as [command|]; [|unchanged].
    destruct (command_lifecycle command (set_oracle o (set_inflight (delete n (co_inflight c)) c))) as (-> & _). unchanged.
  - destruct (is_active c); [|unchanged]. destruct (panic_begin token (set_oracle o c)) as [r c'] eqn:Eb. cbn [snd].
    apply panic_begin_cases in Eb as (a & f & _ & [[-> _] | (-> & _ & now & p & H)]); [unchanged|].
    intros _. exists token, o, now, p. done.
  - unfold cleanup_step. cbn [co_cleanup set_oracle]. rewrite Ek. unchanged.
  - rewrite Ek. unchanged.
  - destruct (co_chat_alive c); unchanged.
  - destruct (co_hosted c); unchanged.
  - unfold receive_hosted_event. destruct (negb _); [unchanged|]. destruct e as [s|]; [|unchanged].
    destruct (frame_publish_status (match HostedState_account s with Some a => set_account (Some a) c | None => c end)) as [-> _ _ _ _ _ _ _].
    destruct (HostedState_account s); unchanged.
  - unfold reload, se_bind, se_ret, ensure_active. destruct (map_err _ _); [|unchanged].
    destruct (is_active c); [|unchanged]. destruct (_ || _); unchanged.
  - unfold start_hosted_with, se_bind, se_ret, ensure_active, identity. destruct (is_active c); [|unchanged].
    destruct (hosted (co_config c)); [|unchanged]. destruct (ok_or _ _); [|unchanged].
    repeat (destruct (map_err _ _); [|unchanged]). destruct (negb _); unchanged.
  - unfold prepare_for_shutdown, begin_process_shutdown. destruct (pl_state (co_panic c)) eqn:E; try done; cbn; by rewrite ?E.
Qed.

(** What was admitted: the commands in flight, and the request behind a pending token. *)
Definition admitted (inputs : list CoreInput) c : Prop :=
  (forall command, command ∈ co_inflight c -> InAdmit command ∈ inputs) /\
  (pending (co_confirmations c) = ∅ \/ InAdmit RequestPanicConfirmation ∈ inputs).

Lemma admitted_same inputs i c c' :
  admitted inputs c -> co_inflight c' = co_inflight c -> co_confirmations c' = co_confirmations c -> admitted (inputs ++ [i]) c'.
Proof using Type.
  intros [H1 H2] E1 E2. unfold admitted. rewrite E1, E2. split; [intros; apply elem_of_app; left; auto|].
  destruct H2; [by left | right; apply elem_of_app; by left].
Qed.

Lemma cleanup_confirmations c : pending (co_confirmations (cleanup_step c).2) = pending (co_confirmations c) /\
  co_inflight (cleanup_step c).2 = co_inflight c.
Proof using Type.
  unfold cleanup_step. destruct (co_cleanup c) as [[| |]|]; try done. destruct (co_inflight c) eqn:Ei; [|done].
  unfold cleanup_locked. destruct (panic_erase _ _ _) as [r [st d]]. by destruct r.
Qed.

Lemma admitted_step inputs i c : admitted inputs c -> admitted (inputs ++ [i]) (core_step dir i c).
Proof using Type.
  intros Had. pose proof (admitted_same inputs i c c Had eq_refl eq_refl) as Hsame. pose proof Had as [H1 H2].
  destruct i as [command|n o|token o|o| |arrivals|s|e|file|timeouts|]; cbn [core_step].
  - destruct Hsame as [S1 S2].
    assert (admitted (inputs ++ [InAdmit command]) (set_inflight (co_inflight c ++ [command]) c)) as Hnew.
    { split; [|exact S2]. intros x. cbn [co_inflight set_inflight]. rewrite !elem_of_app. intros [Hx|Hx]; [left; auto|].
      apply list_elem_of_singleton in Hx as ->. right. apply list_elem_of_here. }
    destruct command; try (destruct (is_active c)); first [exact Hnew | by split].
  - destruct (co_inflight c !! n) as [command|] eqn:En; [|exact Hsame].
    set (c1 := set_oracle o _). destruct (command_lifecycle command c1) as (_ & _ & Ei & Ec). destruct Hsame as [S1 S2]. split.
    + intros x. rewrite Ei. cbn [co_inflight set_oracle set_inflight c1]. intros Hx. apply S1.
      rewrite <- (take_drop_middle _ _ _ En). rewrite delete_take_drop in Hx. rewrite elem_of_app in *. destruct Hx; [by left | by right; right].
    + destruct (decide (command = RequestPanicConfirmation)) as [->|Hne]; [right; apply elem_of_app; left; apply H1; by eapply list_elem_of_lookup_2|].
      by rewrite Ec.
  - destruct (is_active c); [|exact Hsame]. destruct (panic_begin token (set_oracle o c)) as [r c'] eqn:Eb. cbn [snd].
    apply panic_begin_cases in Eb as (a & f & Hf & [[-> _] | (-> & _)]); destruct Hsame as [S1 S2]; (split; [exact S1|]);
      cbn; (destruct S2 as [S2|]; [left; by apply Hf | by right]).
  - destruct (cleanup_confirmations (set_oracle o c)) as [E1 E2]. destruct Hsame as [S1 S2]. split; [rewrite E2; exact S1 | rewrite E1; exact S2].
  - destruct (co_cleanup c); exact Hsame.
  - destruct (co_chat_alive c); exact Hsame.
  - destruct (co_hosted c); exact Hsame.
  - unfold receive_hosted_event. destruct (negb _); [exact Hsame|]. destruct e as [s|]; [|exact Hsame].
    destruct (frame_publish_status (match HostedState_account s with Some a => set_account (Some a) c | None => c end))
      as [_ _ _ Ei _ _ _ Ec]. apply (admitted_same inputs _ c); [done | |]; destruct (HostedState_account s); exact Ei || exact Ec.
  - unfold reload, se_bind, se_ret, ensure_active. destruct (map_err _ _); [|exact Hsame].
    destruct (is_active c); [|exact Hsame]. destruct (_ || _); exact Hsame.
  - unfold start_hosted_with, se_bind, se_ret, ensure_active, identity. destruct (is_active c); [|exact Hsame].
    destruct (hosted (co_config c)); [|exact Hsame]. destruct (ok_or _ _); [|exact Hsame].
    repeat (destruct (map_err _ _); [|exact Hsame]). destruct (negb _); exact Hsame.
  - unfold prepare_for_shutdown. destruct (begin_process_shutdown (co_panic c)) as [[] p]; exact Hsame.
Qed.

Lemma admitted_run inputs c : co_inflight c = [] -> pending (co_confirmations c) = ∅ -> admitted inputs (core_run dir inputs c).
Proof using Type.
  intros Hi Hp. induction inputs as [|i inputs IH] using rev_ind.
  - change (core_run dir [] c) with c. split; [rewrite Hi; by intros ? ?%elem_of_nil | by left].
  - rewrite core_run_app. by apply admitted_step.
Qed.

(** Running what is in flight, then the cleanup *)
Lemma drain_inflight o : forall l c, co_inflight c = l ->
  let c' := core_run dir (replicate (length l) (InRun 0 o)) c in
  co_inflight c' = [] /\ co_cleanup c' = co_cleanup c /\ co_panic c' = co_panic c.
Proof using Type.
  induction l as [|command l IH]; intros c Hl; [done|]. cbn [length replicate core_run fold_left core_step].
  rewrite Hl. cbn [lookup list_lookup]. set (c1 := set_oracle o _).
  destruct (command_lifecycle command c1) as (Ep & Ek & Ei & _).
  destruct (IH (dispatch_active dir command c1).2) as (H1 & H2 & H3); [rewrite Ei; reflexivity|].
  unfold core_run in *. split; [exact H1|]. split; [by rewrite H2, Ek | by rewrite H3, Ep].
Qed.

Lemma cleanup_finishes o c k : co_cleanup c = Some k -> co_inflight c = [] ->
  is_terminal (pl_state (co_panic (core_run dir (replicate 3 (InCleanup o)) c))) = true.
Proof using Type.
  assert (forall x : Core W, co_cleanup x = Some CleanLocked -> co_inflight x = [] ->
    let y := core_step dir (InCleanup o) x in co_cleanup y = None /\ is_terminal (pl_state (co_panic y)) = true) as Hlast.
  { intros x Hx Hi. cbn [core_step]. unfold cleanup_step. cbn [co_cleanup set_oracle co_inflight]. rewrite Hx, Hi.
    unfold cleanup_locked. destruct (panic_erase _ _ _) as [r [st d]]. cbn. by destruct r. }
  assert (forall x : Core W, co_cleanup x = None -> core_step dir (InCleanup o) x = set_oracle o x) as Hidle.
  { intros x Hx. cbn [core_step]. unfold cleanup_step. cbn [co_cleanup set_oracle]. by rewrite Hx. }
  intros Hk Hi. cbn [replicate core_run fold_left]. destruct k.
  - set (c1 := core_step dir (InCleanup o) c). set (c2 := core_step dir (InCleanup o) c1).
    assert (co_cleanup c1 = Some CleanHosted /\ co_inflight c1 = []) as [K1 I1].
    { unfold c1. cbn [core_step]. unfold cleanup_step. cbn [co_cleanup set_oracle]. rewrite Hk. by cbn. }
    assert (co_cleanup c2 = Some CleanLocked /\ co_inflight c2 = []) as [K2 I2].
    { unfold c2. cbn [core_step]. unfold cleanup_step. cbn [co_cleanup set_oracle]. rewrite K1. by cbn. }
    by apply Hlast.
  - set (c1 := core_step dir (InCleanup o) c).
    assert (co_cleanup c1 = Some CleanLocked /\ co_inflight c1 = []) as [K1 I1].
    { unfold c1. cbn [core_step]. unfold cleanup_step. cbn [co_cleanup set_oracle]. rewrite Hk. by cbn. }
    destruct (Hlast c1 K1 I1) as [K2 T2]. rewrite (Hidle _ K2). exact T2.
  - destruct (Hlast c Hk Hi) as [K1 T1]. rewrite (Hidle _ K1), Hidle by exact K1. exact T1.
Qed.
End Runs.

(** ** Properties *)

Section Properties.
Context {W : Type} {aead : Aead} {hex : Hex} {json : Json} {sha : Sha256} {schnorr : Schnorr} {bech : Bech32}.
Context {crypto : Nip44Crypto} {b64 : Base64} {url : UrlLib} {ed : Ed25519} {api : SecretApi W}.
Context (dir : string).

(** C10: A panic erasure that completed is for good: whatever happens to the daemon
    afterwards (commands already admitted, relay events, the hosted transport, reloads,
    further panics, shutdown), no file is left or written again, the store refuses, the
    device key, the account and the confirmations are gone, nothing is in flight, and
    every command is refused without effect. *)
Theorem panic_erase_final config f o (w : World W) c0 before after :
  core_open config f o w = Ok c0 ->
  pl_state (co_panic (core_run dir before c0)) = CleanupComplete ->
  let c := core_run dir (before ++ after) c0 in
  pl_state (co_panic c) = CleanupComplete /\ wait_for_terminal (co_panic c) = Some CleanupComplete /\ wiped c /\
  forall d command, dispatch dir d command c = (panic_unavailable, c).
Proof using Type.
  intros (Hok & _)%core_open_ok Hs. cbv zeta. rewrite core_run_app.
  pose proof (core_run_ok dir before c0 Hok) as Hok1.
  destruct (wiped_run dir after _ Hok1 Hs) as [o' ->]. cbn [co_panic set_oracle].
  split; [done|]. split; [unfold wait_for_terminal; by rewrite Hs|]. split.
  - destruct Hok1 as [_ _ _ _ _ H6]. destruct (H6 Hs). by split.
  - intros d command. unfold dispatch, is_active. cbn [co_panic set_oracle]. by rewrite Hs.
Qed.

(** C20: An erasure starts only from a panic command that presented the token pending at that
    moment, before it expired, and only after a client had asked for one. *)
Theorem erase_needs_confirmation config f o (w : World W) c0 inputs :
  core_open config f o w = Ok c0 -> pending f = ∅ ->
  erasing_or_done (pl_state (co_panic (core_run dir inputs c0))) = true ->
  exists before token o' after now p,
    inputs = before ++ InPanic token o' :: after /\
    let c := core_run dir before c0 in
    head (readings (world (co_actor c))) = Some (Some now) /\
    pending (co_confirmations c) !! file_name PanicErase = Some p /\ p_token p = token /\ now < p_expires_at p /\
    InAdmit RequestPanicConfirmation ∈ before.
Proof using Type.
  intros (Hok & Ha & Ef & Ei)%core_open_ok Hf. subst f. apply is_active_spec in Ha.
  induction inputs as [|i inputs IH] using rev_ind; [cbn; by rewrite Ha|].
  destruct (erasing_or_done (pl_state (co_panic (core_run dir inputs c0)))) eqn:Es.
  - intros _. destruct (IH eq_refl) as (before & token & o' & after & now & p & -> & H).
    exists before, token, o', (after ++ [i]), now, p. split; [by rewrite <- app_assoc | exact H].
  - rewrite core_run_app. cbn [core_run fold_left]. intros Hs.
    apply erasure_starts in Hs as (token & o' & now & p & -> & Hr & Hp & Ht & Hn); [|by apply core_run_ok | exact Es].
    exists inputs, token, o', [], now, p. split; [done|]. split_and!; try done.
    destruct (admitted_run dir inputs c0 Ei Hf) as [_ [He|?]]; [|done]. by rewrite He, lookup_empty in Hp.
Qed.

(** The operations in flight run to their end, then the cleanup. *)
Definition to_the_end (o : Oracle) (c : Core W) : list CoreInput :=
  replicate (length (co_inflight c)) (InRun 0 o) ++ replicate 3 (InCleanup o).

Lemma cleanup_reaches_end o' (c : Core W) :
  core_ok c -> pl_state (co_panic c) = Erasing ->
  let c' := core_run dir (to_the_end o' c) c in
  is_terminal (pl_state (co_panic c')) = true /\ wait_for_terminal (co_panic c') = Some (pl_watch (co_panic c')).
Proof using Type.
  intros Hok1 Hs. cbv zeta. unfold to_the_end. rewrite core_run_app.
  destruct (drain_inflight dir o' (co_inflight c) c eq_refl) as (Hi & Hk & _). cbv zeta in *.
  set (c1 := core_run dir (replicate _ _) c) in *.
  assert (core_ok c1) as Hok2 by (by apply core_run_ok).
  destruct (co_cleanup c1) as [k|] eqn:Ek.
  2: { exfalso. destruct Hok1 as [[H1 _] _ _ _ _ _]. by apply H1 in Hs. }
  pose proof (cleanup_finishes dir o' c1 k Ek Hi) as Ht. split; [exact Ht|].
  destruct (core_run_ok dir (replicate 3 (InCleanup o')) c1 Hok2) as [_ _ _ _ Hw _].
  unfold wait_for_terminal. rewrite Ht. by rewrite Hw.
Qed.

(** C36: A panic that has begun ends: once the operations in flight have run to their end,
    three steps of the cleanup bring the lifecycle to a terminal state, which its waiters
    see. *)
Theorem panic_cleanup_terminates config f o (w : World W) c0 inputs o' :
  core_open config f o w = Ok c0 ->
  pl_state (co_panic (core_run dir inputs c0)) = Erasing ->
  let c := core_run dir inputs c0 in
  let c' := core_run dir (to_the_end o' c) c in
  is_terminal (pl_state (co_panic c')) = true /\ wait_for_terminal (co_panic c') = Some (pl_watch (co_panic c')).
Proof using Type.
  intros (Hok & _)%core_open_ok Hs. by apply cleanup_reaches_end; [apply core_run_ok|].
Qed.
End Properties.

(** ** Witnesses *)

#[local] Existing Instance no_secrets.

Definition sample_oracle : Oracle := {| or_network := no_network; or_deliveries := []; or_removed := true; or_safe := true |}.
Definition file_config : DaemonConfig := {| storage_provider := SFile; hosted := None; dm_relays := [] |}.
Definition daemon_world : World unit := sample_world 5 1000 [Some (key_of 20); Some (be_bytes 24 7); Some (be_bytes 8 8)].
Definition opened := core_open file_config sample_confirmations sample_oracle daemon_world.
Definition panic_inputs : list CoreInput :=
  [InAdmit RequestPanicConfirmation; InRun 0 sample_oracle; InAdmit Status;
   InPanic (hex_encode (key_of 5)) sample_oracle].
Definition erase_inputs : list CoreInput :=
  panic_inputs ++ [InCleanup sample_oracle; InCleanup sample_oracle; InCleanup sample_oracle; InRun 0 sample_oracle;
    InCleanup sample_oracle].

Lemma panic_erase_final_witness :
  exists c0, opened = Ok c0 /\ files (disk (world (co_actor c0))) <> ∅ /\
    wiped (core_run "d" (erase_inputs ++ [InAdmit IdentityGenerate; InRun 0 sample_oracle; InStop]) c0).
Proof.
  destruct opened as [c0|] eqn:E.
  2: { exfalso. assert (is_ok opened = true) as H by (vm_compute; reflexivity). rewrite E in H. discriminate H. }
  pose proof E as E'. unfold opened in E'. exists c0. split; [reflexivity|]. split.
  - assert (match opened with Ok c => bool_decide (files (disk (world (co_actor c))) = ∅) = false | Err _ => False end) as H
      by (vm_compute; reflexivity).
    rewrite E in H. lazy beta iota in H. exact (bool_decide_eq_false_1 _ H).
  - assert (match opened with Ok c => pl_state (co_panic (core_run "d" erase_inputs c)) = CleanupComplete | Err _ => False end) as H
      by (vm_compute; reflexivity).
    rewrite E in H. lazy beta iota in H.
    destruct (panic_erase_final "d" file_config sample_confirmations sample_oracle daemon_world c0 erase_inputs [InAdmit IdentityGenerate; InRun 0 sample_oracle; InStop] E' H) as (_ & _ & Hw & _).
    exact Hw.
Defined.

Lemma erase_needs_confirmation_witness :
  exists c0 before token o' after, opened = Ok c0 /\ erase_inputs = before ++ InPanic token o' :: after /\
    InAdmit RequestPanicConfirmation ∈ before.
Proof.
  destruct opened as [c0|] eqn:E.
  2: { exfalso. assert (is_ok opened = true) as H by (vm_compute; reflexivity). rewrite E in H. discriminate H. }
  assert (match opened with Ok c => erasing_or_done (pl_state (co_panic (core_run "d" erase_inputs c))) = true | Err _ => False end) as H
    by (vm_compute; reflexivity).
  rewrite E in H. lazy beta iota in H.
  pose proof E as E'. unfold opened in E'.
  destruct (erase_needs_confirmation "d" file_config sample_confirmations sample_oracle daemon_world c0 erase_inputs E' eq_refl H) as (before & token & o' & after & now & p & Hi & _ & _ & _ & _ & Ha).
  exists c0, before, token, o', after. exact (conj eq_refl (conj Hi Ha)).
Defined.

Lemma panic_cleanup_terminates_witness :
  exists c0, opened = Ok c0 /\ length (co_inflight (core_run "d" panic_inputs c0)) = 1%nat /\
    is_terminal (pl_state (co_panic (core_run "d"
      (to_the_end sample_oracle (core_run "d" panic_inputs c0))
      (core_run "d" panic_inputs c0)))) = true.
Proof.
  destruct opened as [c0|] eqn:E.
  2: { exfalso. assert (is_ok opened = true) as H by (vm_compute; reflexivity). rewrite E in H. discriminate H. }
  assert (match opened with
          | Ok c => pl_state (co_panic (core_run "d" panic_inputs c)) = Erasing /\ length (co_inflight (core_run "d" panic_inputs c)) = 1%nat
          | Err _ => False
          end) as H by (vm_compute; split; reflexivity).
  rewrite E in H. lazy beta iota in H. destruct H as [Hs Hl]. pose proof E as E'. unfold opened in E'. exists c0. split; [reflexivity|]. split; [exact Hl|].
  exact (proj1 (panic_cleanup_terminates "d" file_config sample_confirmations sample_oracle daemon_world c0 panic_inputs sample_oracle E' Hs)).
Defined.
