(* ===== verification/Pairing.v ===== *)
(** * The daemon and the handle server together

    The proof the daemon's core builds to bind its Nostr key, as the server reads and
    checks it. *)

From Stdlib Require Import Strings.Byte Ascii String.
From S2P Require Import Prelude RustStd BTree Libs Serde Concrete ValueMap Nip44 Keys Account Hosted ServerAuth Store Confirmation Daemon Chat Core Storage Service Event Session HostedClient.
Local Open Scope Z_scope.

Section Pairing.
Context {W : Type} {aead : Aead} {hex : Hex} {json : Json} {sha : Sha256} {schnorr : Schnorr} {bech : Bech32} {ed : Ed25519}.
Context {hex_laws : HexLaws} {json_laws : JsonLaws} {schnorr_laws : SchnorrLaws} {ed_laws : Ed25519Laws}.
Implicit Types c : Core W.

(** The stored secret has a public key. *)
Lemma nostr_load_key st (d d' : Disk W) s :
  nostr_load st d = (Ok (Some s), d') -> exists pk, schnorr_public_key (secret s) = Some pk.
Proof using Type.
  unfold nostr_load. destruct (read st NOSTR_RECORD d) as [[b|e] d1].
  - intros [= H <-]. destruct (json_from_slice b ≫= stored_of_value "secret") as [key|]; [|done].
    unfold NostrSecret_from_bytes in H. destruct (schnorr_public_key key) as [pk|] eqn:E; [|done].
    cbn in H. injection H as <-. by exists pk.
  - by destruct e.
Qed.

(** A call that was made is the last one logged. *)
Lemma hosted_call_logged m v c r c' : hosted_call m v c = (r, c') ->
  co_calls c' = co_calls c \/ co_calls c' = co_calls c ++ [(m, v)].
Proof using Type. unfold hosted_call. destruct (co_hosted c); intros [= <- <-]; auto. Qed.

Lemma on_actor_calls {A} (m : SE (Actor W) CoreError A) c r c' : on_actor m c = (r, c') ->
  co_calls c' = co_calls c /\ co_identity c' = co_identity c /\ co_config c' = co_config c /\ co_account c' = co_account c /\
  co_hosted c' = co_hosted c.
Proof using Type. unfold on_actor, se_zoom. intros [= <- <-]. done. Qed.

(** What each step of the command gives *)
Lemma load_nostr_inv c s c' : load_nostr c = (Ok (Some s), c') -> exists pk, schnorr_public_key (secret s) = Some pk.
Proof using Type.
  unfold load_nostr, on_actor, se_zoom, se_map_err, on_disk. intros [= H _]. cbn [fst] in H.
  apply map_err_ok_inv in H. unfold se_zoom in H. cbn [fst] in H. destruct (nostr_load _ _) as [x d1] eqn:El. cbn in H. subst x.
  by eapply nostr_load_key.
Qed.

Lemma binding_context_inv c account_id handle key c' :
  hosted_binding_context c = (Ok (account_id, handle, key), c') ->
  c' = c /\ exists a h, co_account c = Some a /\ hosted (co_config c) = Some h /\ account_id = ha_account_id a /\
    ha_handle a = Some handle /\ hex_decode_to_slice 32 (hc_pinned_server_public_key h) = Some key.
Proof using Type.
  unfold hosted_binding_context, hosted_status. intros [= H <-]. split; [done|].
  destruct (hosted (co_config c)) as [h|]; [|done].
  destruct (match co_hosted c with Some _ => _ | None => _ end) as [state reason]. cbn [st_state st_account_id st_handle st_server_public_key] in H.
  inv_ok. destruct (co_account c) as [a|]; [|done]. exists a, h. cbn in *. split_and!; congruence.
Qed.

Lemma random_bytes_inv c b c' : random_bytes c = (Ok b, c') -> zlen b = 32.
Proof using Type.
  unfold random_bytes, on_actor, random, se_zoom. intros [= H _]. cbn [fst] in H.
  destruct (getrandom_fill CERandom 32 _) as [x t] eqn:Eg. cbn in H. subst x. by eapply getrandom_fill_ok.
Qed.

Lemma unix_time_core_inv c t c' : unix_time_core c = (Ok t, c') -> head (readings (world (co_actor c))) = Some (Some t).
Proof using Type.
  unfold unix_time_core, on_actor, se_zoom, se_map_err, unix_time. intros [= H _]. cbn [fst] in H. inv_ok.
  destruct (head _) as [[]|]; cbn in H; congruence.
Qed.

Lemma nostr_sign_inv (f : NostrIdentityError -> CoreError) s msg c sig c' :
  on_actor (se_map_err f (random (NostrSecret_sign s msg))) c = (Ok sig, c') ->
  exists aux, schnorr_sign (secret s) msg aux = Some sig.
Proof using Type.
  unfold on_actor, random, se_zoom, se_map_err. intros [= H _]. cbn [fst] in H.
  apply map_err_ok_inv in H. destruct (NostrSecret_sign s _ _) as [x t] eqn:Es. cbn in H. subst x.
  unfold NostrSecret_sign in Es. inv_ok. eauto.
Qed.

(** The request of [hosted_bind_nostr], once it makes one *)
Lemma bind_request c r c' : hosted_bind_nostr c = (r, c') -> co_calls c' <> co_calls c ->
  exists s pk i a h handle key nonce timestamp nostr_signature,
    schnorr_public_key (secret s) = Some pk /\ co_identity c = Some i /\ co_account c = Some a /\ hosted (co_config c) = Some h /\
    ha_handle a = Some handle /\ hex_decode_to_slice 32 (hc_pinned_server_public_key h) = Some key /\ zlen nonce = 32 /\
    Some timestamp ∈ readings (world (co_actor c)) /\
    let transcript := nostr_bind_transcript key (ha_account_id a) handle pk nonce timestamp in
    (exists aux, schnorr_sign (secret s) transcript aux = Some nostr_signature) /\
    co_calls c' = co_calls c ++
      [("bind-nostr"%string, bind_params pk nonce timestamp (ed25519_sign (signing_seed i) transcript) nostr_signature)].
Proof using Type.
  unfold hosted_bind_nostr. intros H Hne.
  apply se_bind_cases in H as [(e & H & ->) | (found & c1 & H1 & H)]; [apply on_actor_calls in H as (E & _); congruence|].
  pose proof H1 as (K1 & I1 & G1 & A1 & _)%on_actor_calls.
  apply se_bind_cases in H as [(e & H & ->) | (s & c2 & H2 & H)]; [injection H as _ <-; congruence|].
  unfold se_ret in H2. injection H2 as H2 <-. apply ok_or_ok_inv in H2. subst found.
  assert (readings (world (co_actor c1)) = readings (world (co_actor c))) as R1
    by (unfold load_nostr, on_actor, se_zoom in H1; by injection H1 as _ <-).
  apply load_nostr_inv in H1 as [pk Hpk].
  apply se_bind_cases in H as [(e & H & ->) | ([[account_id handle] key] & c3 & H3 & H)]; [injection H as _ <-; congruence|].
  apply binding_context_inv in H3 as (-> & a & h & Ha & Hh & -> & Hhandle & Hkey).
  apply se_bind_cases in H as [(e & H & ->) | (nonce & c4 & H4 & H)]; [apply on_actor_calls in H as (E & _); congruence|].
  pose proof H4 as (K4 & I4 & _)%on_actor_calls.
  assert (readings (world (co_actor c4)) = readings (world (co_actor c1))) as R4
    by (unfold random_bytes, on_actor, se_zoom in H4; by injection H4 as _ <-).
  apply random_bytes_inv in H4.
  apply se_bind_cases in H as [(e & H & ->) | (timestamp & c5 & H5 & H)]; [apply on_actor_calls in H as (E & _); congruence|].
  pose proof H5 as (K5 & I5 & _)%on_actor_calls. apply unix_time_core_inv in H5. rewrite R4, R1 in H5.
  apply se_bind_cases in H as [(e & H & ->) | (dsig & c6 & H6 & H)]; [injection H as _ <-; congruence|].
  injection H6 as H6 <-. apply ok_or_ok_inv in H6. unfold sign_with_device_key in H6. apply fmap_Some in H6 as (i & Hi & ->).
  apply se_bind_cases in H as [(e & H & ->) | (nsig & c7 & H7 & H)]; [apply on_actor_calls in H as (E & _); congruence|].
  pose proof H7 as (K7 & _)%on_actor_calls. apply nostr_sign_inv in H7.
  assert (own_key s = pk) as Ek by (unfold own_key, NostrSecret_public_key; by rewrite Hpk). rewrite Ek in *.
  apply hosted_call_logged in H as [E|E]; [congruence|].
  exists s, pk, i, a, h, handle, key, nonce, timestamp, nsig. cbv zeta. split_and!; try done; try congruence.
  - destruct (readings (world (co_actor c))); [done|]. injection H5 as ->. apply list_elem_of_here.
  - by rewrite E, K7, K5, K4, K1.
Qed.

(** ** The server's side *)

Lemma decode_nostr_key_hex b : zlen b = 32 -> decode_nostr_key (hex_encode b) = Ok b.
Proof using hex_laws. intros Hl. unfold decode_nostr_key, ServerAuth.decode_key. by rewrite (decode_hex Hosted.KEY_BYTES). Qed.
Lemma decode_signature_hex field b : zlen b = 64 -> decode_signature_field field (hex_encode b) = Ok b.
Proof using hex_laws. intros Hl. unfold decode_signature_field, decode_signature. by rewrite (decode_hex SIGNATURE_BYTES). Qed.

(** A bind request as the server reads it *)
Lemma parse_bind json_error rid key nonce timestamp dsig nsig reply :
  utf8_valid rid = true -> 1 <= slen rid <= MAX_REQUEST_ID_BYTES -> in_u64 timestamp ->
  parse_request json_error (value_to_string (request_frame rid {| hr_method := "bind-nostr";
    hr_params := bind_params key nonce timestamp dsig nsig; hr_reply := reply |})) =
  Ok {| rq_version := PROTOCOL_VERSION; rq_id := rid;
        rq_command := BindNostr (hex_encode key) (hex_encode nonce) timestamp (hex_encode dsig) (hex_encode nsig) |}.
Proof using hex_laws json_laws.
  intros Hu Hr Ht. unfold parse_request, value_to_string. rewrite as_bytes_of_bytes.
  assert (in_range 0 u64_max timestamp = true) as Hz by (unfold in_range; unfold_ints; rewrite !(proj2 (Z.leb_le _ _)) by lia; done).
  assert (json_wf (JInt timestamp) = true) as Hw by (cbn [json_wf]; unfold_ints; rewrite !(proj2 (Z.leb_le _ _)) by lia; done).
  rewrite json_roundtrip.
  2: { unfold request_frame, bind_params. cbn [value_set hr_params hr_method].
       change (bt_insert _ _ _) with [("id", JString rid); ("method", JString "bind-nostr");
         ("params", bind_params key nonce timestamp dsig nsig); ("version", JInt PROTOCOL_VERSION)]%string.
       unfold bind_params. cbn [json_wf forallb fst snd] in *. rewrite Hw, !hex_utf8, Hu. done. }
  cbn [mbind option_bind].
  assert (request_of_value (request_frame rid {| hr_method := "bind-nostr"; hr_params := bind_params key nonce timestamp dsig nsig; hr_reply := reply |})
    = Some {| rq_version := PROTOCOL_VERSION; rq_id := rid;
        rq_command := BindNostr (hex_encode key) (hex_encode nonce) timestamp (hex_encode dsig) (hex_encode nsig) |}) as ->.
  { change (request_of_value _) with (c ← command_of "bind-nostr" (Some (bind_params key nonce timestamp dsig nsig));
      Some {| rq_version := PROTOCOL_VERSION; rq_id := rid; rq_command := c |}).
    change (command_of "bind-nostr" _) with (t ← de_uint u64_max (JInt timestamp);
      Some (BindNostr (hex_encode key) (hex_encode nonce) t (hex_encode dsig) (hex_encode nsig))).
    cbn [de_uint]. by rewrite Hz. }
  cbn [ok_or rbind rq_id]. rewrite (proj2 (Z.eqb_neq _ _)), (proj2 (Z.ltb_ge _ _)) by lia. done.
Qed.

(** Of the checks of [bind_nostr] only those of the storage are left. *)
Lemma bind_checks_pass sconfig account_id handle seed pk sk nonce timestamp nsig aux now row conn conn1 :
  service_account account_id conn = (Ok row, conn1) -> ar_handle row = Some handle ->
  schnorr_public_key sk = Some pk -> zlen seed = 32 -> zlen nonce = 32 -> fresh_timestamp timestamp now = Ok tt ->
  let transcript := nostr_bind_transcript (server_public_key sconfig) account_id handle pk nonce timestamp in
  schnorr_sign sk transcript aux = Some nsig ->
  run_command sconfig account_id (ed25519_public_key seed)
    (BindNostr (hex_encode pk) (hex_encode nonce) timestamp (hex_encode (ed25519_sign seed transcript)) (hex_encode nsig)) now conn =
  (let! _ := se_map_err storage_error (remember_proof_nonce nonce account_id now NOSTR_PROOF_SKEW_SECONDS) in
   let! _ := se_map_err storage_error (bind_nostr account_id pk) in
   se_ret (binding_json handle pk)) conn1.
Proof using hex_laws schnorr_laws ed_laws.
  intros Hacc Hh Hpk Hseed Hn Hf transcript Hsig. cbn [run_command]. unfold service_bind_nostr.
  destruct (schnorr_sign_correct sk pk transcript aux nsig Hpk Hsig) as (Hl & Hs1 & Hs2).
  destruct (ed25519_sign_correct seed transcript Hseed) as [V1 V2].
  unfold se_bind at 1. rewrite Hacc. unfold se_bind at 1, se_ret at 1. rewrite Hh. cbn [ok_or].
  unfold se_bind at 1, se_ret at 1. rewrite decode_nostr_key_hex by (by eapply schnorr_public_key_length).
  unfold se_bind at 1, se_ret at 1. rewrite decode_nostr_key_hex by done.
  unfold se_bind at 1, se_ret at 1. rewrite decode_signature_hex by apply ed25519_sign_length.
  unfold se_bind at 1, se_ret at 1. rewrite decode_signature_hex by done.
  unfold se_bind at 1, se_ret at 1. rewrite Hf. fold transcript.
  unfold se_bind at 1, se_ret at 1, verify_device. rewrite V1, V2. cbn [negb].
  unfold se_bind at 1, se_ret at 1, verify_nostr. rewrite (schnorr_public_key_ok sk pk Hpk), Hs1, Hs2. cbn [negb map_err].
  reflexivity.
Qed.

(** ** Properties *)

(** What the server does with a proof once all of it is checked. *)
Definition store_binding (account_id handle : string) (pk nonce : bytes) (now : Z) : SE Connection Failure Value :=
  let! _ := se_map_err storage_error (remember_proof_nonce nonce account_id now NOSTR_PROOF_SKEW_SECONDS) in
  let! _ := se_map_err storage_error (bind_nostr account_id pk) in
  se_ret (binding_json handle pk).

(** C19: The proof a daemon sends to bind its Nostr key passes every check of the server it is
    connected to: sent as any request of the session, it is read back as the same bind
    command, and when the server knows the account under the handle the daemon claimed and
    its clock is within the freshness window, both signatures verify and only the storage
    (a nonce or a key already used) can still refuse it. *)
Theorem bind_proof_accepted c r c' :
  hosted_bind_nostr c = (r, c') -> co_calls c' <> co_calls c -> Forall clock_ok (readings (world (co_actor c))) ->
  exists pk nonce timestamp params,
    co_calls c' = co_calls c ++ [("bind-nostr"%string, params)] /\ Some timestamp ∈ readings (world (co_actor c)) /\
    forall sconfig json_error rid reply now i a h row conn conn1,
      co_identity c = Some i -> zlen (signing_seed i) = 32 -> co_account c = Some a -> hosted (co_config c) = Some h ->
      hex_decode_to_slice 32 (hc_pinned_server_public_key h) = Some (server_public_key sconfig) ->
      service_account (ha_account_id a) conn = (Ok row, conn1) -> ar_handle row = ha_handle a ->
      fresh_timestamp timestamp now = Ok tt -> utf8_valid rid = true -> 1 <= slen rid <= MAX_REQUEST_ID_BYTES ->
      exists command handle, ar_handle row = Some handle /\
        parse_request json_error
          (value_to_string (request_frame rid {| hr_method := "bind-nostr"; hr_params := params; hr_reply := reply |})) =
          Ok {| rq_version := PROTOCOL_VERSION; rq_id := rid; rq_command := command |} /\
        run_command sconfig (ha_account_id a) (ed25519_public_key (signing_seed i)) command now conn =
          store_binding (ha_account_id a) handle pk nonce now conn1.
Proof using Type*.
  intros H Hne Hclock.
  apply bind_request in H as (s & pk & i & a & h & handle & key & nonce & timestamp & nsig & Hpk & Hi & Ha & Hh & Hhandle & Hkey & Hn & Ht & (aux & Hsig) & E);
    [|done]. cbv zeta in *.
  exists pk, nonce, timestamp, (bind_params pk nonce timestamp
    (ed25519_sign (signing_seed i) (nostr_bind_transcript key (ha_account_id a) handle pk nonce timestamp)) nsig).
  split; [done|]. split; [done|]. intros sconfig json_error rid reply now i' a' h' row conn conn1 Hi' Hseed Ha' Hh' Hk' Hacc Hr Hf Hu Hl.
  rewrite Hi in Hi'. injection Hi' as <-. rewrite Ha in Ha'. injection Ha' as <-. rewrite Hh in Hh'. injection Hh' as <-.
  rewrite Hkey in Hk'. injection Hk' as ->. rewrite Hhandle in Hr.
  eexists _, handle. split; [done|]. split.
  - apply parse_bind; [done | done|]. eapply Forall_forall in Hclock; [|exact Ht]. exact Hclock.
  - by eapply bind_checks_pass.
Qed.
End Pairing.

(** ** Witnesses *)

Definition paired_config : DaemonConfig := {|
  storage_provider := SFile;
  hosted := Some {| hc_url := "wss://chat.example/ws"; hc_pinned_server_public_key := hex_encode (server_public_key sample_config);
                    hc_display_name := None |};
  dm_relays := [] |}.
Definition paired_account : HostedAccount := {|
  ha_account_id := "a"; ha_handle := Some "alice"%string; ha_display_name := None; ha_new_account := false |}.
Definition paired_core : Core unit := {|
  co_actor := spawn sample_store [] (sample_world 7 1000 [Some (key_of 60); Some (key_of 61)]);
  co_chat_alive := true; co_identity := Some {| signing_seed := key_of 1 |}; co_panic := PanicLifecycle_default; co_cleanup := None;
  co_hosted := Some (HConnected paired_account); co_account := Some paired_account; co_config := paired_config;
  co_confirmations := sample_confirmations; co_inflight := []; co_calls := [];
  co_oracle := {| or_network := no_network; or_deliveries := []; or_removed := true; or_safe := true |} |}.

Lemma bind_proof_accepted_witness :
  exists command pk nonce conn, run_command sample_config "a" sample_device command 1100 (quiet sample_accounts []) =
    store_binding "a" "alice" pk nonce 1100 conn.
Proof.
  destruct (hosted_bind_nostr paired_core) as [r c'] eqn:E.
  assert (length (co_calls (hosted_bind_nostr paired_core).2) = 1%nat) as El by (vm_compute; reflexivity). rewrite E in El. cbn [snd] in El.
  assert (readings (world (co_actor paired_core)) = replicate 9 (Some 1000)) as Er by (vm_compute; reflexivity).
  destruct (bind_proof_accepted paired_core r c' E) as (pk & nonce & timestamp & params & _ & Ht & Hserver).
  { intros E'. rewrite E' in El. discriminate El. }
  { rewrite Er. cbn [replicate]. repeat constructor; unfold_ints; lia. }
  rewrite Er in Ht. cbn [replicate] in Ht. rewrite !elem_of_cons, elem_of_nil in Ht. assert (timestamp = 1000) as ->
    by (repeat destruct Ht as [[= ->]|Ht]; try reflexivity; destruct Ht).
  assert (exists row, service_account "a" (quiet sample_accounts []) = (Ok row, (service_account "a" (quiet sample_accounts [])).2) /\ ar_handle row = Some "alice"%string)
    as (row & Hrow & Hh).
  { assert (match (service_account "a" (quiet sample_accounts [])).1 with Ok row => ar_handle row = Some "alice"%string | Err _ => False end) as H
      by (vm_compute; reflexivity).
    destruct (service_account "a" (quiet sample_accounts [])) as [[row|] conn]; [|destruct H]. exists row. split; [reflexivity | exact H]. }
  destruct (Hserver sample_config (fun _ => ""%string) "1"%string 0%nat 1100 {| signing_seed := key_of 1 |} paired_account
    {| hc_url := "wss://chat.example/ws"; hc_pinned_server_public_key := hex_encode (server_public_key sample_config); hc_display_name := None |}
    row (quiet sample_accounts []) _ eq_refl eq_refl eq_refl eq_refl ltac:(vm_compute; reflexivity) Hrow Hh ltac:(vm_compute; reflexivity)
    ltac:(vm_compute; reflexivity) ltac:(split; vm_compute; discriminate)) as (command & handle & Hhandle & Hparse & Hrun).
  rewrite Hh in Hhandle. injection Hhandle as <-.
  exists command, pk, nonce, (service_account "a" (quiet sample_accounts [])).2. exact Hrun.
Defined.
