(* ===== verification/Ctl.v ===== *)
(** * The control client ([omachat-ctl/src/lib.rs])

    The connection a terminal client keeps to the daemon: a reader task that sorts the
    daemon's lines into responses and events, numbered requests, and the confirmation
    dance of a panic. At the end the client and the socket server of the daemon
    ([IpcServer]) are put together. *)

From Stdlib Require Import Strings.Byte Ascii String.
From S2P Require Import Prelude RustStd BTree Libs Serde Concrete ValueMap Ipc Daemon IpcServer.
Local Open Scope Z_scope.

Definition RESPONSE_QUEUE : Z := 1.
Definition CLIENT_EVENT_QUEUE : Z := 64.
Definition CONFIRMATION_TOKEN_BYTES : Z := 64.

Inductive ClientError :=
| CtlIo (error : string)
| CtlProtocol (e : IpcError)
| CtlTimeout
| CtlEventOverflow
| CtlAlreadySubscribed
| CtlDisconnected
| CtlLineTooLarge
| CtlMalformedResponse
| CtlVersionMismatch (version : Z)
| CtlCorrelationMismatch
| CtlRemote (code message : string)
| CtlConfirmationRefused (message : string)
| CtlConfirmationProtocol (message : string).

#[export] Instance IpcError_eq_dec : EqDecision IpcError.
Proof. solve_decision. Defined.
#[export] Instance ClientError_eq_dec : EqDecision ClientError.
Proof. solve_decision. Defined.

(** [Display for ClientError] *)
Definition client_error_display (e : ClientError) : string :=
  match e with
  | CtlIo error => "daemon connection failed: " ++ error
  | CtlProtocol error => "IPC request failed: " ++ ipc_error_display error
  | CtlEventOverflow => "daemon events exceeded client capacity; reconnect"
  | CtlAlreadySubscribed => "client is already subscribed"
  | CtlTimeout => "daemon request timed out"
  | CtlDisconnected => "daemon disconnected"
  | CtlLineTooLarge => "daemon response exceeds the size limit"
  | CtlMalformedResponse => "daemon response is malformed"
  | CtlVersionMismatch version => "daemon uses incompatible IPC version " ++ show version
  | CtlCorrelationMismatch => "daemon response ID does not match"
  | CtlRemote code message => "daemon error " ++ code ++ ": " ++ message
  | CtlConfirmationRefused message => "refused: " ++ message
  | CtlConfirmationProtocol message => "confirmation protocol failed: " ++ message
  end%string.

(** [format!("{:?}", code)] *)
Definition ipc_code_debug (c : IpcErrorCode) : string :=
  match c with
  | ICInvalidRequest => "InvalidRequest" | ICVersionMismatch => "VersionMismatch" | ICNotFound => "NotFound"
  | ICConflict => "Conflict" | ICUnavailable => "Unavailable" | ICInternal => "Internal"
  end.

(** The client with its reader task: the line being read, the bytes that have arrived and
    are not read, the two channels from the task (the one of responses holds one), whether
    the events' receiver is still with the client, and whether the task runs. *)
Record CtlClient := {
  cc_line : bytes;
  cc_unread : bytes;
  cc_response : option (result ClientError Response);
  cc_events : list IpcEvent;
  cc_unclaimed : bool;
  cc_reading : bool;
  cc_next_id : Z
}.
Definition CtlClient_new : CtlClient := {|
  cc_line := []; cc_unread := []; cc_response := None; cc_events := []; cc_unclaimed := true; cc_reading := true;
  cc_next_id := 1 |}.

Definition set_line (l : bytes) (c : CtlClient) : CtlClient := {|
  cc_line := l; cc_unread := cc_unread c; cc_response := cc_response c; cc_events := cc_events c;
  cc_unclaimed := cc_unclaimed c; cc_reading := cc_reading c; cc_next_id := cc_next_id c |}.
Definition set_unread (l : bytes) (c : CtlClient) : CtlClient := {|
  cc_line := cc_line c; cc_unread := l; cc_response := cc_response c; cc_events := cc_events c;
  cc_unclaimed := cc_unclaimed c; cc_reading := cc_reading c; cc_next_id := cc_next_id c |}.
Definition set_response (r : option (result ClientError Response)) (reading : bool) (c : CtlClient) : CtlClient := {|
  cc_line := cc_line c; cc_unread := cc_unread c; cc_response := r; cc_events := cc_events c;
  cc_unclaimed := cc_unclaimed c; cc_reading := reading; cc_next_id := cc_next_id c |}.
Definition set_events (es : list IpcEvent) (unclaimed : bool) (c : CtlClient) : CtlClient := {|
  cc_line := cc_line c; cc_unread := cc_unread c; cc_response := cc_response c; cc_events := es;
  cc_unclaimed := unclaimed; cc_reading := cc_reading c; cc_next_id := cc_next_id c |}.
Definition set_next_id (n : Z) (c : CtlClient) : CtlClient := {|
  cc_line := cc_line c; cc_unread := cc_unread c; cc_response := cc_response c; cc_events := cc_events c;
  cc_unclaimed := cc_unclaimed c; cc_reading := cc_reading c; cc_next_id := n |}.

(** The other end of the socket: what it answers to the bytes written, and, once it has
    closed the connection or broken it, how that shows. A write may fail. *)
Class Peer (S : Type) := {
  exchange : bytes -> S -> result ClientError (bytes * option ClientError) * S
}.

(** A file as [File::open], [is_file] and [take(65)] see it *)
Inductive TokenFile := OpenFails (error : string) | NotRegular | Contents (b : bytes).

Section Client.
Context {json : Json}.

(** ** The reader task *)

(** What a line is: an event when it has a topic, else a response. *)
Definition classify (v : Value) : result ClientError (IpcEvent + Response) :=
  match value_get "topic" v with
  | Some _ =>
      match event_of_value v with
      | Some e => if ev_version e =? VERSION then Ok (inl e) else Err (CtlVersionMismatch (ev_version e))
      | None => Err CtlMalformedResponse
      end
  | None =>
      match response_of_value v with
      | Some r => if rs_version r =? VERSION then Ok (inr r) else Err (CtlVersionMismatch (rs_version r))
      | None => Err CtlMalformedResponse
      end
  end.

(** [response_tx.try_send(result)]: the task ends when the channel is full, and after an error. *)
Definition offer_response (r : result ClientError Response) (c : CtlClient) : CtlClient :=
  match cc_response c with
  | Some held => set_response (Some held) false c
  | None => set_response (Some r) (is_ok r) c
  end.

(** A whole line has been read. *)
Definition finish_line (c : CtlClient) : CtlClient :=
  let parsed := match value_from_slice (cc_line c) with Some v => classify v | None => Err CtlMalformedResponse end in
  let c := set_line [] c in
  match parsed with
  | Ok (inl e) =>
      if zlen (cc_events c) <? CLIENT_EVENT_QUEUE then set_events (cc_events c ++ [e]) (cc_unclaimed c) c
      else offer_response (Err CtlEventOverflow) c
  | Ok (inr r) => offer_response (Ok r) c
  | Err e => offer_response (Err e) c
  end.

(** [read_line] reads byte by byte. *)
Definition reader_byte (b : byte) (c : CtlClient) : CtlClient :=
  if Byte.eqb b nl then finish_line c
  else if zlen (cc_line c) =? MAX_LINE_BYTES then offer_response (Err CtlLineTooLarge) c
  else set_line (cc_line c ++ [b]) c.

(** The task reads on until it ends or a response waits to be taken; the caller takes it
    before the task reads the next byte. *)
Fixpoint read_bytes (bs : bytes) (c : CtlClient) : CtlClient :=
  if negb (cc_reading c) || bool_decide (is_Some (cc_response c)) then set_unread bs c else
  match bs with
  | [] => set_unread [] c
  | b :: bs => read_bytes bs (reader_byte b c)
  end.

(** The stream ended after these bytes. *)
Definition read_end (e : option ClientError) (c : CtlClient) : CtlClient :=
  match e with
  | Some e => if cc_reading c && negb (bool_decide (is_Some (cc_response c))) then offer_response (Err e) c else c
  | None => c
  end.

(** ** Requests *)

Section Requests.
Context {S : Type} {peer : Peer S}.
Abbreviation CM := (SE (CtlClient * S) ClientError).

Definition request_inner (command : Command) : CM Response := fun '(c, s) =>
  let id := show (cc_next_id c) in
  let c := set_next_id (saturating_add u64_max (cc_next_id c) 1) c in
  let request := {| version := VERSION; id := id; command := command |} in
  match encode_line (request_value request) with
  | Err e => (Err (CtlProtocol e), (c, s))
  | Ok encoded =>
      match exchange encoded s with
      | (Err e, s) => (Err e, (c, s))
      | (Ok (arrived, ending), s) =>
          let c := read_end ending (read_bytes (cc_unread c ++ arrived) c) in
          match cc_response c with
          | Some r =>
              let c := set_response None (cc_reading c) c in
              (let? response := r in
               fail_if negb (rs_version response =? VERSION) with CtlVersionMismatch (rs_version response) ;;
               fail_if negb (String.eqb (rs_id response) id) with CtlCorrelationMismatch ;;
               Ok response, (c, s))
          | None => if cc_reading c then (Err CtlTimeout, (c, s)) else (Err CtlDisconnected, (c, s))
          end
      end
  end.

(** A request that failed ends the reader. *)
Definition request (command : Command) : CM Response := fun cs =>
  match request_inner command cs with
  | (Ok r, cs) => (Ok r, cs)
  | (Err e, (c, s)) => (Err e, (set_response (cc_response c) false c, s))
  end.

Definition remote_error (e : ErrorBody) : ClientError := CtlRemote (ipc_code_debug (eb_code e)) (eb_message e).

(** [connect], on a stream that is open *)
Definition ctl_connect (s : S) : result ClientError CtlClient * S :=
  match request (Hello VERSION VERSION) (CtlClient_new, s) with
  | (Err e, (_, s)) => (Err e, s)
  | (Ok response, (c, s)) =>
      match rs_outcome response with
      | OkOutcome _ => (Ok c, s)
      | ErrorOutcome e => (Err (remote_error e), s)
      end
  end.

Definition subscribe (topics : list Topic) : CM Value := fun '(c, s) =>
  if negb (cc_unclaimed c) then (Err CtlAlreadySubscribed, (c, s)) else
  match request (Subscribe topics) (c, s) with
  | (Err e, cs) => (Err e, cs)
  | (Ok response, (c, s)) =>
      match rs_outcome response with
      | OkOutcome res => (Ok res, (set_events (cc_events c) false c, s))
      | ErrorOutcome e => (Err (remote_error e), (c, s))
      end
  end.

(** ** Confirmation *)

Definition read_confirmation_token (files : string -> TokenFile) (res : Value) : result ClientError string :=
  let? path := ok_or (CtlConfirmationProtocol "daemon response lacked token_path") (get_str "token_path" res) in
  let? contents := match files path with
                   | OpenFails error => Err (CtlConfirmationProtocol error)
                   | NotRegular => Err (CtlConfirmationProtocol "token is not a regular file")
                   | Contents b => Ok (take 65 b)
                   end in
  let? token := ok_or (CtlConfirmationProtocol "token file unreadable: stream did not contain valid UTF-8") (from_utf8 contents) in
  fail_if negb (slen token =? CONFIRMATION_TOKEN_BYTES) || negb (bytes_all is_ascii_hexdigit token)
    with CtlConfirmationProtocol "token must be 32 hex-encoded bytes" ;;
  Ok token.

Definition request_with_confirmation (files : S -> string -> TokenFile) (command : Command) : CM Response :=
  match command with
  | Panic confirmation =>
      if negb (String.eqb confirmation "ERASE")
      then se_ret (Err (CtlConfirmationRefused "panic requires --confirm ERASE"))
      else
        let! issued := request RequestPanicConfirmation in
        match rs_outcome issued with
        | OkOutcome res =>
            let! token := fun cs => (read_confirmation_token (files cs.2) res, cs) in
            request (Panic token)
        | ErrorOutcome _ => se_ret (Ok issued)
        end
  | other => request other
  end.
End Requests.
End Client.

(** ** Reading what a daemon writes *)

Lemma norm_event e : value_norm (ev_payload e) = ev_payload e -> value_norm (event_value e) =
  JObject [("payload", ev_payload e); ("sequence", JInt (ev_sequence e)); ("topic", JString (topic_str (ev_topic e)));
           ("version", JInt (ev_version e))]%string.
Proof. intros E. unfold event_value. cbn -[topic_str]. by rewrite E. Qed.

Lemma classify_event e :
  event_wf e = true -> ev_version e = VERSION -> classify (value_norm (event_value e)) = Ok (inl e).
Proof.
  destruct e as [v n t p]. unfold event_wf, value_wf. cbn [ev_version ev_sequence ev_payload]. intros Hw ->. split_bools.
  rewrite norm_event by (by apply value_norm_id). unfold classify, event_of_value.
  change (value_get "topic" _) with (Some (JString (topic_str t))).
  change (de_struct _ _ _) with (Some [JInt VERSION; JInt n; JString (topic_str t); p]).
  cbn [mbind option_bind de_uint].
  repeat match goal with Hv : in_range _ _ _ = true |- _ => rewrite Hv; clear Hv end. cbn [mbind option_bind].
  rewrite value_norm_id by done. by destruct t.
Qed.

Lemma norm_ok_response v i res : value_norm res = res ->
  value_norm (response_value {| rs_version := v; rs_id := i; rs_outcome := OkOutcome res |}) =
  JObject [("id", JString i); ("result", res); ("status", JString "ok"); ("version", JInt v)]%string.
Proof. intros E. unfold response_value. cbn. by rewrite E. Qed.

Lemma classify_response r :
  response_wf r = true -> rs_version r = VERSION -> classify (value_norm (response_value r)) = Ok (inr r).
Proof.
  destruct r as [v i o]. unfold response_wf. cbn [rs_version rs_id rs_outcome]. intros Hw ->. split_bools.
  destruct o as [res|[c m]]; cbn [outcome_wf eb_message] in *; unfold value_wf in *; split_bools.
  - rewrite norm_ok_response by (by apply value_norm_id). unfold classify, response_of_value.
    change (value_get "topic" _) with (None : option Value).
    change (untag "status" _) with
      (Some ("ok", JObject [("id", JString i); ("result", res); ("version", JInt VERSION)]))%string.
    cbn [mbind option_bind]. rewrite String.eqb_refl.
    change (de_struct _ _ _) with (Some [JInt VERSION; JString i; res]). cbn [mbind option_bind de_uint de_string].
    match goal with Hv : in_range _ _ VERSION = true |- _ => rewrite Hv end. cbn [mbind option_bind].
    rewrite value_norm_id by done. done.
  - unfold classify. change (value_get "topic" _) with (None : option Value). by destruct c.
Qed.

Section ReadingFacts.
Context {json : Json} {json_laws : JsonLaws}.

(** A client that waits for a response: nothing is buffered anywhere. *)
Definition idle (c : CtlClient) : Prop :=
  cc_line c = [] /\ cc_unread c = [] /\ cc_response c = None /\ cc_reading c = true /\
  zlen (cc_events c) <= CLIENT_EVENT_QUEUE.

Lemma read_partial l rest c :
  cc_reading c = true -> cc_response c = None -> existsb (Byte.eqb nl) l = false ->
  zlen (cc_line c ++ l) <= MAX_LINE_BYTES ->
  read_bytes (l ++ rest) c = read_bytes rest (set_line (cc_line c ++ l) c).
Proof using Type.
  revert c. induction l as [|b l IH]; intros c Hr Hn Hl Hlen.
  { rewrite app_nil_r. by destruct c. }
  cbn [app read_bytes existsb] in *. apply orb_false_iff in Hl as [Hb Hl]. rewrite Hr, Hn. cbn [negb orb bool_decide].
  rewrite bool_decide_false by (intros []; done). unfold reader_byte.
  replace (Byte.eqb b nl) with false
    by (symmetry; apply Bool.not_true_iff_false; intros E; apply Byte.byte_dec_bl in E as ->; done).
  unfold zlen in *. rewrite length_app in Hlen. cbn [length] in Hlen.
  rewrite (proj2 (Z.eqb_neq _ _)) by lia. rewrite IH; cbn [cc_line cc_reading cc_response set_line]; try done.
  - by rewrite <- app_assoc.
  - rewrite !length_app. cbn [length]. lia.
Qed.

Lemma read_written_line v l rest c :
  idle c -> json_wf v = true -> encode_line v = Ok l ->
  read_bytes (l ++ rest) c = read_bytes rest (match classify (value_norm v) with
    | Ok (inl e) => if zlen (cc_events c) <? CLIENT_EVENT_QUEUE then set_events (cc_events c ++ [e]) (cc_unclaimed c) c
                    else offer_response (Err CtlEventOverflow) c
    | Ok (inr r) => offer_response (Ok r) c
    | Err e => offer_response (Err e) c
    end).
Proof using json_laws.
  intros (Hl & Hu & Hn & Hr & _) Hv He. unfold encode_line in He. inv_ok. rewrite <- app_assoc. cbn [app].
  rewrite read_partial; [|done|done| |]; cycle 1.
  { apply no_control_no_newline, json_to_vec_no_control. }
  { rewrite Hl. cbn [app]. split_bools. lia. }
  cbn [read_bytes set_line cc_reading cc_response]. rewrite Hr, Hn, Hl. cbn [negb orb].
  rewrite bool_decide_false by (intros []; done). unfold reader_byte. change (Byte.eqb nl nl) with true. cbn iota.
  unfold finish_line, value_from_slice. cbn [cc_line set_line app]. rewrite json_roundtrip by done. cbn [fmap option_fmap option_map].
  destruct c. cbn in *. subst. done.
Qed.

(** Events and then a reply, as a daemon writes them while it answers a request *)
Lemma read_stream es r b c :
  idle c -> Forall (fun e => event_wf e = true /\ ev_version e = VERSION) es ->
  response_wf r = true -> rs_version r = VERSION ->
  zlen (cc_events c) + zlen es <= CLIENT_EVENT_QUEUE ->
  written_bytes (map WEvent es ++ [WReply r]) = Ok b ->
  read_bytes b c = set_response (Some (Ok r)) true (set_events (cc_events c ++ es) (cc_unclaimed c) c).
Proof using json_laws.
  intros Hi He Hr Hv. revert b c Hi. induction He as [|e es [We Ve] _ IH]; intros b c Hi Hlen Hb; cbn [map app written_bytes] in Hb.
  - cbn [written_value] in Hb. inv_ok. rewrite (read_written_line (response_value r)) by (done || by apply response_value_wf).
    rewrite classify_response by done. destruct Hi as (Hl & Hu & Hn & Hrd & _). unfold offer_response. rewrite Hn. cbn [is_ok read_bytes].
    cbn [cc_reading set_response negb orb cc_response]. rewrite bool_decide_true by (by eexists). destruct c. cbn in *. subst.
    by rewrite app_nil_r.
  - cbn [written_value] in Hb. inv_ok. unfold zlen in Hlen. cbn [length] in Hlen.
    rewrite (read_written_line (event_value e)) by (done || by apply ipc_event_value_wf). rewrite classify_event by done.
    rewrite (proj2 (Z.ltb_lt _ _)) by (unfold zlen; lia).
    rewrite (IH _ (set_events (cc_events c ++ [e]) (cc_unclaimed c) c)).
    + cbn [cc_events cc_unclaimed set_events]. rewrite <- app_assoc. done.
    + destruct Hi as (? & ? & ? & ? & _). split_and!; try done. cbn [cc_events set_events]. unfold zlen. rewrite length_app. cbn [length]. lia.
    + cbn [cc_events set_events]. unfold zlen. rewrite length_app. cbn [length]. lia.
    + done.
Qed.
End ReadingFacts.

(** ** The daemon at the other end *)

Section Daemon.
Context {json : Json} {S : Type} {handler : RequestHandler S}.

(** What was written while a request was served; a connection that ends shows as the end
    of the stream. *)
Definition daemon_exchange (b : bytes) (d : Client * S) : result ClientError (bytes * option ClientError) * (Client * S) :=
  let '(p, (cl, s)) := client_turn (CRead (Some b) []) d.1 d.2 in
  let fresh := drop (length (cl_written d.1)) (cl_written cl) in
  let out := match written_bytes fresh with Ok out => out | Err _ => [] end in
  match p with
  | Running => (Ok (out, None), (cl, s))
  | Finished _ => (Ok (out, Some CtlDisconnected), (cl, drop_receiver cl s))
  end.
#[export] Instance daemon_peer : Peer (Client * S) := {| exchange := daemon_exchange |}.

(** A connection past its hello, with no half-read line *)
Definition attached (cl : Client) : Prop :=
  cl_decoder cl = RequestDecoder_new MAX_LINE_BYTES /\ cl_negotiated cl = true.

Context {json_laws : JsonLaws}.

Lemma set_decoder_same (cl : Client) : set_decoder (cl_decoder cl) cl = cl.
Proof using Type. by destruct cl. Qed.

Lemma push_request r l :
  request_wf r = true -> validate_request r = Ok tt -> encode_line (request_value r) = Ok l ->
  l <> [] /\ push l (RequestDecoder_new MAX_LINE_BYTES) = (Ok [r], RequestDecoder_new MAX_LINE_BYTES).
Proof using json_laws.
  intros Hw Hv He. split.
  { unfold encode_line in He. inv_ok. by destruct (json_to_vec _). }
  assert (feed [l] (RequestDecoder_new MAX_LINE_BYTES) = Ok ([r], RequestDecoder_new MAX_LINE_BYTES)) as Hf.
  { apply feed_ok; [by apply decoder_new_ok|]. split; [|done]. cbn [maximum RequestDecoder_new buffer app concat].
    apply (encoded_stream MAX_LINE_BYTES [r]); [done|by repeat constructor|]. cbn [encode_lines]. rewrite He. cbn. by rewrite app_nil_r. }
  cbn [feed] in Hf. destruct (push l _) as [[rs|] d]; [|done]. cbn in Hf. rewrite app_nil_r in Hf. by injection Hf as -> ->.
Qed.

(** A connection stays negotiated, and becomes so with a hello for the version. *)
Lemma negotiated_after r cl (s : S) o cl1 s1 : request_outcome r cl s = (o, (cl1, s1)) ->
  attached cl /\ (forall a b, command r <> Hello a b) \/ command r = Hello VERSION VERSION -> cl_negotiated cl1 = true.
Proof using Type.
  unfold request_outcome. intros Ho [[[_ Hn] Hh]|E].
  - revert Ho. destruct (command r) eqn:Ec; try (by exfalso; eapply Hh);
      rewrite Hn; cbn [negb]; try (destruct (rh_handle r s); by intros [= _ <- _]).
    unfold subscribe_client. destruct (rh_handle r _); by intros [= _ <- _].
  - rewrite E in Ho. change (negotiate VERSION VERSION) with (Ok VERSION : result IpcError Z) in Ho. by injection Ho as _ <- _.
Qed.

(** What the daemon answers to one request on a connection that is up to date *)
Lemma daemon_answers cl (s : S) r l o cl1 s1 :
  cl_decoder cl = RequestDecoder_new MAX_LINE_BYTES -> cl_negotiated cl1 = true ->
  request_wf r = true -> validate_request r = Ok tt -> encode_line (request_value r) = Ok l ->
  request_outcome r cl s = (o, (cl1, s1)) ->
  let response := {| rs_version := VERSION; rs_id := id r; rs_outcome := o |} in
  exists cl2 s2, exchange l (cl, s) =
    (Ok (match encode_line (response_value response) with Ok b => (b, None) | Err _ => ([], Some CtlDisconnected) end), (cl2, s2)) /\
    (is_ok (encode_line (response_value response)) = true -> cl2 = add_written (WReply response) cl1 /\ s2 = s1 /\ attached cl2) /\
    (s2 = s1 \/ s2 = drop_receiver cl1 s1).
Proof using json_laws.
  intros Hd Hn1 Hw Hv He Ho response. destruct (push_request r l Hw Hv He) as [Hne Hp].
  unfold exchange, daemon_peer, daemon_exchange, client_turn. cbn [fst snd]. destruct l as [|b l]; [done|].
  rewrite Hd, Hp. cbn [serve_requests head default tail].
  assert (request_outcome r (set_decoder (RequestDecoder_new MAX_LINE_BYTES) cl) s = (o, (cl1, s1))) as Ho'
    by (rewrite <- Hd, set_decoder_same; exact Ho).
  unfold serve_request. cbn [meanwhile calm_turn reply_written stopping]. rewrite Ho'. fold response.
  pose proof (request_outcome_client r cl s) as [Hcw Hcd]. rewrite Ho in Hcw, Hcd. cbn [fst snd] in Hcw, Hcd.
  destruct (encode_line (response_value response)) as [out|] eqn:Eo.
  - cbn [cl_negotiated add_written]. rewrite Hn1. cbn [negb orb cl_written add_written]. rewrite Hcw.
    rewrite drop_app_length. cbn [written_bytes written_value]. rewrite Eo. cbn [rbind]. rewrite app_nil_r.
    eexists _, _. split; [reflexivity|]. split; [|by left]. intros _. split; [done|]. split; [done|]. split; [cbn; congruence | done].
  - rewrite Hcw, drop_all. eexists _, _. split; [reflexivity|]. split; [done|by right].
Qed.
End Daemon.

(** Numbers make good correlation ids. *)
Lemma show_chars n : 0 <= n -> chars (show n) = map byte_val (as_bytes (show n)) /\ utf8_valid (show n) = true.
Proof.
  intros Hn. destruct (show_digits n Hn) as [Hd _]. unfold chars, utf8_valid.
  rewrite utf8_decode_ascii; [done|]. apply (forallb_impl is_ascii_digit); [|done].
  intros b. unfold is_ascii_digit, in_range. intros. split_bools. lia.
Qed.

Lemma numbered_request_ok n cmd :
  0 <= n <= u64_max -> command_wf cmd = true ->
  request_wf {| version := VERSION; id := show n; command := cmd |} = true /\
  validate_request {| version := VERSION; id := show n; command := cmd |} = Ok tt.
Proof.
  intros Hn Hc. destruct (show_digits n) as [Hd Hne]; [lia|]. destruct (show_chars n) as [Hch Hu]; [lia|].
  unfold request_wf, validate_request. cbn [version id command]. rewrite Hu, Hc. split; [done|].
  assert (slen (show n) <= 20) as Hlen.
  { assert (u64_max < 10 ^ Z.of_nat 20) by reflexivity. apply (show_length 20); lia. }
  assert (0 < slen (show n)) as Hpos.
  { rewrite <- zlen_as_bytes. destruct (as_bytes (show n)); [done|]. unfold zlen. cbn [length]. lia. }
  rewrite Hch. unfold MAX_CORRELATION_ID_BYTES. rewrite Z.eqb_refl. cbn [negb].
  rewrite (proj2 (Z.eqb_neq _ _)), (proj2 (Z.ltb_ge _ _)) by lia. cbn [orb].
  replace (existsb is_control (map byte_val (as_bytes (show n)))) with false; [done|]. symmetry.
  apply Bool.not_true_iff_false. intros E. apply existsb_exists in E as (x & Hx & Hctl).
  apply in_map_iff in Hx as (b & <- & Hb). rewrite forallb_forall in Hd. apply Hd in Hb.
  unfold is_ascii_digit, is_control, in_range in *. split_bools; lia.
Qed.

Section Agreement.
Context {json : Json} {S : Type} {handler : RequestHandler S} {json_laws : JsonLaws}.

Lemma request_answered_on cmd c cl (s : S) o cl1 s1 :
  idle c -> cl_decoder cl = RequestDecoder_new MAX_LINE_BYTES -> cl_negotiated cl1 = true ->
  0 <= cc_next_id c <= u64_max -> command_wf cmd = true ->
  let r := {| version := VERSION; id := show (cc_next_id c); command := cmd |} in
  request_outcome r cl s = (o, (cl1, s1)) -> outcome_wf o = true ->
  let response := {| rs_version := VERSION; rs_id := id r; rs_outcome := o |} in
  match encode_line (request_value r), encode_line (response_value response) with
  | Ok _, Ok _ => exists c' cl', request cmd (c, (cl, s)) = (Ok response, (c', (cl', s1))) /\ idle c' /\ attached cl' /\
      cc_next_id c' = saturating_add u64_max (cc_next_id c) 1 /\ cc_events c' = cc_events c
  | Err e, _ => (request cmd (c, (cl, s))).1 = Err (CtlProtocol e) /\ cc_reading (request cmd (c, (cl, s))).2.1 = false
  | _, Err _ => (request cmd (c, (cl, s))).1 = Err CtlDisconnected /\ cc_reading (request cmd (c, (cl, s))).2.1 = false
  end.
Proof using json_laws.
  intros Hi Ha Hneg Hn Hw r Ho Hwf response. destruct (numbered_request_ok _ _ Hn Hw) as [Hrw Hrv]. fold r in Hrw, Hrv.
  unfold request, request_inner. fold r. destruct (encode_line (request_value r)) as [l|e] eqn:El; [|done].
  destruct (daemon_answers cl s r l o cl1 s1 Ha Hneg Hrw Hrv El Ho) as (cl2 & s2 & Hx & Hok & Hs2). fold response in Hx, Hok.
  rewrite Hx. set (c1 := set_next_id _ c).
  assert (idle c1) as Hi1 by exact Hi.
  destruct (encode_line (response_value response)) as [b|e] eqn:Eb.
  - assert (response_wf response = true) as Hresp.
    { unfold response_wf, response, r. cbn [rs_version rs_id rs_outcome id]. rewrite Hwf, (proj2 (show_chars _ (proj1 Hn))). done. }
    destruct (Hok eq_refl) as (-> & -> & Hatt).
    assert (cc_unread c1 = []) as Hu by (by destruct Hi1 as (_ & ? & _)). rewrite Hu. cbn [app].
    replace (read_bytes b c1) with (set_response (Some (Ok response)) true c1); cycle 1.
    { symmetry. rewrite (read_stream [] response b c1); [destruct c1; cbn; by rewrite app_nil_r|done|constructor|done|done| |].
      - destruct Hi1 as (_ & _ & _ & _ & H5). unfold zlen at 2. cbn [length]. lia.
      - cbn [map app written_bytes written_value]. rewrite Eb. cbn. by rewrite app_nil_r. }
    cbn [read_end cc_response set_response rbind rs_version rs_id response]. rewrite Z.eqb_refl, String.eqb_refl. cbn [negb].
    eexists _, _. split; [reflexivity|]. split; [|done]. destruct Hi1 as (H1 & H2 & _ & _ & H5). done.
  - assert (cc_unread c1 = []) as Hu by (by destruct Hi1 as (_ & ? & _)). rewrite Hu. cbn [app].
    destruct Hi1 as (H1 & H2 & H3 & H4 & _). cbn [read_bytes]. rewrite H4, H3. cbn [negb orb]. rewrite bool_decide_false by (intros []; done).
    unfold read_end. cbn [cc_reading set_unread cc_response]. rewrite H4, H3, bool_decide_false by (intros []; done).
    cbn [andb negb]. unfold offer_response. cbn [cc_response set_unread]. rewrite H3. cbn [is_ok cc_response set_response]. done.
Qed.

Lemma request_answered cmd c cl (s : S) o cl1 s1 :
  idle c -> attached cl -> 0 <= cc_next_id c <= u64_max -> command_wf cmd = true -> (forall a b, cmd <> Hello a b) ->
  let r := {| version := VERSION; id := show (cc_next_id c); command := cmd |} in
  request_outcome r cl s = (o, (cl1, s1)) -> outcome_wf o = true ->
  let response := {| rs_version := VERSION; rs_id := id r; rs_outcome := o |} in
  match encode_line (request_value r), encode_line (response_value response) with
  | Ok _, Ok _ => exists c' cl', request cmd (c, (cl, s)) = (Ok response, (c', (cl', s1))) /\ idle c' /\ attached cl' /\
      cc_next_id c' = saturating_add u64_max (cc_next_id c) 1 /\ cc_events c' = cc_events c
  | Err e, _ => (request cmd (c, (cl, s))).1 = Err (CtlProtocol e) /\ cc_reading (request cmd (c, (cl, s))).2.1 = false
  | _, Err _ => (request cmd (c, (cl, s))).1 = Err CtlDisconnected /\ cc_reading (request cmd (c, (cl, s))).2.1 = false
  end.
Proof using json_laws.
  intros Hi Ha Hn Hw Hh r Ho Hwf. apply (request_answered_on cmd c cl s o cl1 s1); try done; [apply Ha|].
  eapply negotiated_after; [exact Ho|]. by left.
Qed.

(** Whatever becomes of the reply, the daemon has served the request. *)
Lemma request_served cmd c cl (s : S) o cl1 s1 :
  idle c -> attached cl -> 0 <= cc_next_id c <= u64_max -> command_wf cmd = true -> (forall a b, cmd <> Hello a b) ->
  let r := {| version := VERSION; id := show (cc_next_id c); command := cmd |} in
  request_outcome r cl s = (o, (cl1, s1)) -> is_ok (encode_line (request_value r)) = true ->
  (request cmd (c, (cl, s))).2.2.2 = s1 \/ (request cmd (c, (cl, s))).2.2.2 = drop_receiver cl1 s1.
Proof using json_laws.
  intros Hi Ha Hn Hw Hh r Ho Hfit. destruct (numbered_request_ok _ _ Hn Hw) as [Hrw Hrv]. fold r in Hrw, Hrv.
  unfold request, request_inner. fold r. destruct (encode_line (request_value r)) as [l|e] eqn:El; [|done].
  assert (cl_negotiated cl1 = true) as Hneg by (eapply negotiated_after; [exact Ho|]; by left).
  destruct (daemon_answers cl s r l o cl1 s1 (proj1 Ha) Hneg Hrw Hrv El Ho) as (cl2 & s2 & Hx & _ & Hs2). rewrite Hx.
  destruct (encode_line (response_value _)); repeat case_match; cbn in *; by simplify_eq.
Qed.

(** Connecting to a daemon: the hello is answered and both ends are ready. *)
Lemma connect_answered (s : S) : let hello := {| version := VERSION; id := "1"; command := Hello VERSION VERSION |} in
  is_ok (encode_line (request_value hello)) = true ->
  is_ok (encode_line (response_value {| rs_version := VERSION; rs_id := "1"; rs_outcome := OkOutcome (hello_value VERSION) |})) = true ->
  exists c cl, ctl_connect (Client_new, s) = (Ok c, (cl, s)) /\ idle c /\ attached cl /\ cc_next_id c = 2 /\ cc_events c = [].
Proof using json_laws.
  intros hello H1 H2. assert (idle CtlClient_new) as Hi by (repeat split; discriminate).
  pose proof (request_answered_on (Hello VERSION VERSION) CtlClient_new Client_new s (OkOutcome (hello_value VERSION))
    (set_negotiated Client_new) s Hi eq_refl eq_refl ltac:(split; discriminate) eq_refl eq_refl eq_refl) as H. cbv zeta in H.
  change (show (cc_next_id CtlClient_new)) with "1"%string in H. fold hello in H.
  destruct (encode_line (request_value hello)); [|done]. cbn [id hello] in H.
  destruct (encode_line (response_value _)); [|done]. destruct H as (c & cl & E & Hc & Hcl & Hid & Hev).
  exists c, cl. unfold ctl_connect. rewrite E. cbn [rs_outcome]. by split_and!.
Qed.
End Agreement.

(** ** Properties *)

Section Properties.
Context {json : Json} {S : Type} {handler : RequestHandler S} {json_laws : JsonLaws}.

(** A terminal client and the daemon agree on every request. When the client is idle and
    its connection is attached, a command is answered with exactly the outcome the
    daemon's handler gave it, under the client's own number, and both ends are ready for
    the next command; only a request or a reply longer than a line fails, with an error of
    its own, and the client then stops reading. *)
Theorem ctl_request_answered cmd c cl (s : S) o cl1 s1 :
  idle c -> attached cl -> 0 <= cc_next_id c <= u64_max -> command_wf cmd = true -> (forall a b, cmd <> Hello a b) ->
  let r := {| version := VERSION; id := show (cc_next_id c); command := cmd |} in
  request_outcome r cl s = (o, (cl1, s1)) -> outcome_wf o = true ->
  let response := {| rs_version := VERSION; rs_id := id r; rs_outcome := o |} in
  match encode_line (request_value r), encode_line (response_value response) with
  | Ok _, Ok _ => exists c' cl', request cmd (c, (cl, s)) = (Ok response, (c', (cl', s1))) /\ idle c' /\ attached cl' /\
      cc_next_id c' = saturating_add u64_max (cc_next_id c) 1 /\ cc_events c' = cc_events c
  | Err e, _ => (request cmd (c, (cl, s))).1 = Err (CtlProtocol e) /\ cc_reading (request cmd (c, (cl, s))).2.1 = false
  | _, Err _ => (request cmd (c, (cl, s))).1 = Err CtlDisconnected /\ cc_reading (request cmd (c, (cl, s))).2.1 = false
  end.
Proof using json_laws. apply request_answered. Qed.
End Properties.

(** ** Witnesses *)

(** A client that has connected to the echo daemon asks for its status. *)
Definition greeted_connection : Client := set_negotiated Client_new.

Lemma ctl_request_answered_witness :
  exists c' cl' hub, request (peer := daemon_peer (handler := echo_handler)) Status (CtlClient_new, (greeted_connection, [])) =
    (Ok {| rs_version := VERSION; rs_id := "1"; rs_outcome := OkOutcome (JString "status") |}, (c', (cl', hub))) /\
    idle c' /\ attached cl' /\ cc_next_id c' = 2.
Proof.
  assert (idle CtlClient_new) as Hi by (repeat split; discriminate).
  assert (attached greeted_connection) as Ha by (split; reflexivity).
  set (ask := {| version := VERSION; id := show (cc_next_id CtlClient_new); command := Status |}).
  assert (0 <= cc_next_id CtlClient_new <= u64_max) as Hn by (split; discriminate).
  assert (request_outcome (handler := echo_handler) ask greeted_connection [] = (OkOutcome (JString "status"), (greeted_connection, [])))
    as Ho by (vm_compute; reflexivity).
  assert (outcome_wf (OkOutcome (JString "status")) = true) as Hw by (vm_compute; reflexivity).
  pose proof (ctl_request_answered (handler := echo_handler) Status CtlClient_new greeted_connection []
    (OkOutcome (JString "status")) greeted_connection [] Hi Ha Hn eq_refl ltac:(discriminate) Ho Hw) as H.
  cbv zeta in H. change (show (cc_next_id CtlClient_new)) with "1"%string in H.
  destruct (encode_line (request_value _)) as [l|e] eqn:E1; [|vm_compute in E1; discriminate E1].
  destruct (encode_line (response_value _)) as [l2|e] eqn:E2; [|vm_compute in E2; discriminate E2].
  destruct H as (c' & cl' & H1 & H2 & H3 & H4 & _). exists c', cl', [].
  split; [exact H1|]. split; [exact H2|]. split; [exact H3|exact H4].
Defined.
