(* ===== verification/CommandLine.v ===== *)
(** * The command lines of the daemon and its clients
    ([omachat-ctl/src/main.rs], [omachatd/src/main.rs], [socket_path] of [omachat-tui/src/main.rs])

    How [omachat-ctl] reads its arguments, talks to the daemon and reports, how the daemon
    chooses its paths and configuration and starts, and where all three look for the socket.
    Arguments and environment variables are byte strings. *)

From Stdlib Require Import Strings.Byte Ascii String.
From S2P Require Import Prelude RustStd BTree Libs Serde Concrete ValueMap Daemon IpcServer HostedClient Confirmation Store Chat Core Lifecycle ServerProcess Ctl Ipc.
Local Open Scope Z_scope.

(** ** The arguments of [omachat-ctl] *)

Inductive OutputMode := Human | JsonOutput | Qr.
Inductive CliError := Usage (message : string) | CliClient (e : ClientError).
#[export] Instance OutputMode_eq_dec : EqDecision OutputMode.
Proof. solve_decision. Defined.

(** The commands without a parameter *)
Definition FIXED : list (list string * (Command * OutputMode)) := [
  (["status"], (Status, Human)); (["status"; "--json"], (Status, JsonOutput));
  (["fingerprint"], (Fingerprint, Human)); (["fingerprint"; "--qr"], (Fingerprint, Qr));
  (["identity"; "show"], (IdentityShow, Human)); (["identity"; "show"; "--json"], (IdentityShow, JsonOutput));
  (["identity"; "generate"], (IdentityGenerate, Human)); (["identity"; "generate"; "--json"], (IdentityGenerate, JsonOutput));
  (["identity"; "export"], (IdentityExport, Human));
  (["identity"; "bind"], (HostedBindNostr, Human)); (["identity"; "bind"; "--json"], (HostedBindNostr, JsonOutput));
  (["identity"; "unbind"], (HostedUnbindNostr, Human));
  (["chat-prepare"], (ChatPrepare, Human)); (["chat-prepare"; "--json"], (ChatPrepare, JsonOutput));
  (["contacts-list"], (ContactsList, Human)); (["contacts-list"; "--json"], (ContactsList, JsonOutput));
  (["relays-show"], (RelaysShow, Human)); (["relays-show"; "--json"], (RelaysShow, JsonOutput));
  (["messages"], (Messages, Human)); (["messages"; "--json"], (Messages, JsonOutput))]%string.

Definition find_fixed (words : list string) : option (Command * OutputMode) :=
  snd <$> List.find (fun e => bool_decide (words = e.1)) FIXED.

Definition is_json (s : string) : bool := String.eqb s "--json".
Definition ends_in_json (l : list string) : bool := (1 <? length l)%nat && match last l with Some s => is_json s | None => false end.

(** A command that takes a list, with or without [--json] at its end *)
Definition with_list (make : list string -> Command) (rest : list string) : option (Command * OutputMode) :=
  if negb (bool_decide (rest = [])) && negb (existsb is_json rest) then Some (make rest, Human)
  else if ends_in_json rest then Some (make (removelast rest), JsonOutput)
  else None.

Definition parse_hosted_command (name : string) (rest : list string) : option (Command * OutputMode) :=
  let '(rest, mode) := if match last rest with Some s => is_json s | None => false end
                       then (removelast rest, JsonOutput) else (rest, Human) in
  match rest with
  | [handle] =>
      if String.eqb name "hosted-claim-handle" then Some (HostedClaimHandle handle, mode)
      else if String.eqb name "hosted-resolve-handle" then Some (HostedResolveHandle handle, mode)
      else None
  | _ => None
  end.

(** The commands with parameters *)
Definition find_parametric (words : list string) : option (Command * OutputMode) :=
  match words with
  | [] => None
  | name :: rest =>
      let named n := String.eqb name n in
      if named "identity" then match rest with
        | [w; nsec] => if String.eqb w "import" then Some (IdentityImport nsec, Human) else None | _ => None end
      else if named "contacts-add" then match rest with
        | [peer] => Some (ContactsAdd peer, Human)
        | [peer; w] => if is_json w then Some (ContactsAdd peer, JsonOutput) else None
        | _ => None end
      else if named "contacts-remove" then match rest with [npub] => Some (ContactsRemove npub, Human) | _ => None end
      else if named "relays-set" then with_list RelaysSet rest
      else if named "send" then match rest with
        | peer :: rest => with_list (fun words => Send peer (String.concat " " words)) rest | [] => None end
      else if named "panic" then match rest with
        | [w; confirmation] => if String.eqb w "--confirm" then Some (Panic confirmation, Human) else None | _ => None end
      else if starts_with "hosted-" name then parse_hosted_command name rest
      else None
  end%string.

Definition ctl_parse_command (arguments : list string) : result CliError (Command * OutputMode) :=
  fail_if negb (forallb utf8_valid arguments) with Usage "arguments must be UTF-8" ;;
  ok_or (Usage "invalid command") (match find_fixed arguments with Some c => Some c | None => find_parametric arguments end).

(** ** Where the socket is *)

(** The environment: [env::var_os] *)
Record Environment := { var_os : string -> option string; file_exists : string -> bool }.

Definition SOCKET : string := "omachat/omachat.sock".

Definition default_socket (env : Environment) : result CliError string :=
  let? runtime := ok_or (Usage "XDG_RUNTIME_DIR is not set; pass --socket") (var_os env "XDG_RUNTIME_DIR") in
  Ok (path_join runtime SOCKET).

(** [socket_path] of the terminal interface *)
Definition tui_socket_path (env : Environment) (arguments : list string) : result string string :=
  match arguments with
  | [] => ok_or "XDG_RUNTIME_DIR is not set; pass --socket PATH"%string ((fun d => path_join d SOCKET) <$> var_os env "XDG_RUNTIME_DIR")
  | [flag; path] => if String.eqb flag "--socket" then Ok path else Err "usage: omachat [--socket PATH]"%string
  | _ => Err "usage: omachat [--socket PATH]"%string
  end.

(** ** Running [omachat-ctl] *)

(** What is printed: one line of JSON, the text of a string, indented JSON, or a QR code. *)
Inductive Output := OutJson (v : Value) | OutText (s : string) | OutPretty (v : Value) | OutQr (s : string).
Inductive QrProgram := QrMissing | QrFailed | QrDone.

Definition print_result (qrencode : string -> QrProgram) (mode : OutputMode) (res : Value) : result CliError Output :=
  match mode with
  | JsonOutput => Ok (OutJson res)
  | Qr =>
      let? fingerprint := ok_or (Usage "daemon returned a non-text fingerprint") (de_string res) in
      match qrencode fingerprint with
      | QrMissing => Err (Usage "qrencode is required for --qr output")
      | QrFailed => Err (Usage "qrencode failed")
      | QrDone => Ok (OutQr fingerprint)
      end
  | Human => Ok (match de_string res with Some s => OutText s | None => OutPretty res end)
  end.

(** The socket and the words after it *)
Definition split_socket (env : Environment) (arguments : list string) : result CliError (string * list string) :=
  match arguments with
  | flag :: rest =>
      if String.eqb flag "--socket" then
        match rest with
        | [] => Err (Usage "--socket requires a path")
        | path :: rest => Ok (path, rest)
        end
      else let? path := default_socket env in Ok (path, arguments)
  | [] => let? path := default_socket env in Ok (path, arguments)
  end.

Section Run.
Context {json : Json} {S : Type} {peer : Peer S}.
Context (env : Environment) (open_socket : string -> S -> result ClientError unit * S).
Context (files : S -> string -> TokenFile) (qrencode : string -> QrProgram).

Definition ctl_run (arguments : list string) (s : S) : result CliError Output * S :=
  match (let? parts := split_socket env arguments in
         let? parsed := ctl_parse_command parts.2 in Ok (parts.1, parsed)) with
  | Err e => (Err e, s)
  | Ok (socket, (command, mode)) =>
      match open_socket socket s with
      | (Err e, s) => (Err (CliClient e), s)
      | (Ok _, s) =>
          match ctl_connect s with
          | (Err e, s) => (Err (CliClient e), s)
          | (Ok client, s) =>
              match request_with_confirmation files command (client, s) with
              | (Err e, (_, s)) => (Err (CliClient e), s)
              | (Ok response, (_, s)) =>
                  match rs_outcome response with
                  | OkOutcome res => (print_result qrencode mode res, s)
                  | ErrorOutcome e => (Err (CliClient (remote_error e)), s)
                  end
              end
          end
      end
  end.

Definition exit_code (r : result CliError Output) : Z :=
  match r with
  | Ok _ => 0
  | Err (Usage _) => 2
  | Err (CliClient (CtlVersionMismatch _ | CtlRemote _ _)) => 4
  | Err (CliClient CtlTimeout) => 5
  | Err (CliClient _) => 3
  end.
End Run.

(** ** The daemon *)

Record Options := { o_config : option string; o_state : string; o_socket : string; o_file_key : bool }.

Definition or_home (env : Environment) (variable below : string) : option string :=
  match var_os env variable with
  | Some d => Some d
  | None => (fun home => path_join home below) <$> var_os env "HOME"
  end.

(** The loop over the arguments *)
Fixpoint parse_flags (arguments : list string) (o : Options) : result string Options :=
  match arguments with
  | [] => Ok o
  | flag :: rest =>
      let path_flag (set : string -> Options) :=
        match rest with
        | [] => Err (flag +:+ " requires a path")
        | value :: rest => parse_flags rest (set value)
        end in
      if String.eqb flag "--config" then path_flag (fun v =>
        {| o_config := Some v; o_state := o_state o; o_socket := o_socket o; o_file_key := o_file_key o |})
      else if String.eqb flag "--state" then path_flag (fun v =>
        {| o_config := o_config o; o_state := v; o_socket := o_socket o; o_file_key := o_file_key o |})
      else if String.eqb flag "--socket" then path_flag (fun v =>
        {| o_config := o_config o; o_state := o_state o; o_socket := v; o_file_key := o_file_key o |})
      else if String.eqb flag "--file-key" then parse_flags rest
        {| o_config := o_config o; o_state := o_state o; o_socket := o_socket o; o_file_key := true |}
      else Err "unknown or non-UTF-8 argument"%string
  end.

Definition Options_parse (env : Environment) (arguments : list string) : result string Options :=
  let? state := ok_or "XDG_STATE_HOME and HOME are unset"%string (or_home env "XDG_STATE_HOME" ".local/state") in
  let? runtime := ok_or "XDG_RUNTIME_DIR is unset"%string (var_os env "XDG_RUNTIME_DIR") in
  let config := root ← or_home env "XDG_CONFIG_HOME" ".config";
                let path := path_join root "omachat/config.json" in
                if file_exists env path then Some path else None in
  parse_flags arguments {|
    o_config := config; o_state := path_join state "omachat"; o_socket := path_join runtime SOCKET; o_file_key := false |}.

Section Start.
Context {W : Type} {aead : Aead} {hex : Hex} {json : Json} {sha : Sha256} {schnorr : Schnorr} {bech : Bech32}.
Context {crypto : Nip44Crypto} {b64 : Base64} {url : UrlLib} {ed : Ed25519} {api : SecretApi W}.

(** The configuration the daemon runs with; [read] reads a file. *)
Definition effective_config (read : string -> option bytes) (o : Options) : result ConfigError DaemonConfig :=
  let? config := match o_config o with
                 | Some path => DaemonConfig_load (read path)
                 | None => Ok DaemonConfig_default
                 end in
  Ok (if o_file_key o
      then {| storage_provider := SFile; hosted := hosted config; dm_relays := dm_relays config |}
      else config).

(** [run] up to the socket: the core on the state directory, and the hosted service *)
Definition daemon_start (read : string -> option bytes) (o : Options) (f : Confirmations) (oracle : Oracle) (w : World W)
    : result CoreError (Core W * option HostedServiceConfig) :=
  let? config := map_err config_error (effective_config read o) in
  let? core := core_open config f oracle w in
  match start_hosted_with HostedTimeouts_default core with
  | (Err e, _) => Err e
  | (Ok h, core) => Ok (core, h)
  end.
End Start.

(** ** The grammar of [omachat-ctl] *)

(** The words of each command, as the usage text gives them but for [contacts-remove], which
    takes no [--json]; the message of [send] is its words with a space between. *)
Inductive spelled : list string -> Command -> OutputMode -> Prop :=
| SpStatus : spelled ["status"]%string Status Human
| SpStatusJson : spelled ["status"; "--json"]%string Status JsonOutput
| SpFingerprint : spelled ["fingerprint"]%string Fingerprint Human
| SpFingerprintQr : spelled ["fingerprint"; "--qr"]%string Fingerprint Qr
| SpShow : spelled ["identity"; "show"]%string IdentityShow Human
| SpShowJson : spelled ["identity"; "show"; "--json"]%string IdentityShow JsonOutput
| SpGenerate : spelled ["identity"; "generate"]%string IdentityGenerate Human
| SpGenerateJson : spelled ["identity"; "generate"; "--json"]%string IdentityGenerate JsonOutput
| SpExport : spelled ["identity"; "export"]%string IdentityExport Human
| SpBind : spelled ["identity"; "bind"]%string HostedBindNostr Human
| SpBindJson : spelled ["identity"; "bind"; "--json"]%string HostedBindNostr JsonOutput
| SpUnbind : spelled ["identity"; "unbind"]%string HostedUnbindNostr Human
| SpPrepare : spelled ["chat-prepare"]%string ChatPrepare Human
| SpPrepareJson : spelled ["chat-prepare"; "--json"]%string ChatPrepare JsonOutput
| SpList : spelled ["contacts-list"]%string ContactsList Human
| SpListJson : spelled ["contacts-list"; "--json"]%string ContactsList JsonOutput
| SpShowRelays : spelled ["relays-show"]%string RelaysShow Human
| SpShowRelaysJson : spelled ["relays-show"; "--json"]%string RelaysShow JsonOutput
| SpMessages : spelled ["messages"]%string Messages Human
| SpMessagesJson : spelled ["messages"; "--json"]%string Messages JsonOutput
| SpImport nsec : spelled ["identity"; "import"; nsec]%string (IdentityImport nsec) Human
| SpAdd peer : spelled ["contacts-add"; peer]%string (ContactsAdd peer) Human
| SpAddJson peer : spelled ["contacts-add"; peer; "--json"]%string (ContactsAdd peer) JsonOutput
| SpRemove npub : spelled ["contacts-remove"; npub]%string (ContactsRemove npub) Human
| SpRelays rs : rs <> [] -> "--json"%string ∉ rs -> spelled ("relays-set"%string :: rs) (RelaysSet rs) Human
| SpRelaysJson rs : rs <> [] -> spelled ("relays-set"%string :: rs ++ ["--json"%string]) (RelaysSet rs) JsonOutput
| SpSend peer ws : ws <> [] -> "--json"%string ∉ ws -> spelled ("send"%string :: peer :: ws) (Send peer (String.concat " " ws)) Human
| SpSendJson peer ws : ws <> [] ->
    spelled ("send"%string :: peer :: ws ++ ["--json"%string]) (Send peer (String.concat " " ws)) JsonOutput
| SpPanic confirmation : spelled ["panic"; "--confirm"; confirmation]%string (Panic confirmation) Human
| SpClaim h : h <> "--json"%string -> spelled ["hosted-claim-handle"; h]%string (HostedClaimHandle h) Human
| SpClaimJson h : spelled ["hosted-claim-handle"; h; "--json"]%string (HostedClaimHandle h) JsonOutput
| SpResolve h : h <> "--json"%string -> spelled ["hosted-resolve-handle"; h]%string (HostedResolveHandle h) Human
| SpResolveJson h : spelled ["hosted-resolve-handle"; h; "--json"]%string (HostedResolveHandle h) JsonOutput.

Lemma find_fixed_spelled words c m : find_fixed words = Some (c, m) -> spelled words c m.
Proof.
  assert (Forall (fun e => spelled e.1 e.2.1 e.2.2) FIXED) as F by (repeat constructor).
  unfold find_fixed. intros ([w c'] & Hf & E')%fmap_Some. apply List.find_some in Hf as [Hin E].
  apply bool_decide_eq_true in E. cbn in E, E'. subst. rewrite Forall_forall in F. by apply (F (w, (c, m))), list_elem_of_In.
Qed.

Lemma is_json_true s : is_json s = true <-> s = "--json"%string.
Proof. apply String.eqb_eq. Qed.
Lemma existsb_json l : existsb is_json l = true <-> "--json"%string ∈ l.
Proof.
  rewrite existsb_exists. split.
  - intros (x & Hx & ->%is_json_true). by apply list_elem_of_In.
  - intros H%list_elem_of_In. eexists. split; [done|]. by apply is_json_true.
Qed.

(** [with_list], whatever is made of the list *)
Lemma with_list_spec make rest c m : with_list make rest = Some (c, m) <->
  exists l, l <> [] /\ c = make l /\
    (m = Human /\ rest = l /\ "--json"%string ∉ l \/ m = JsonOutput /\ rest = l ++ ["--json"%string]).
Proof.
  unfold with_list, ends_in_json. destruct (decide (rest = [])) as [->|Hr].
  { cbn. split; [done|]. intros (l & Hl & _ & [(_ & <- & _)|(_ & E)]); [done|by destruct l]. }
  rewrite bool_decide_false by done. cbn [negb andb]. destruct (existsb is_json rest) eqn:Ej; cbn [negb].
  - apply existsb_json in Ej. split.
    + destruct rest as [|x l _] using rev_ind; [done|]. rewrite last_snoc, removelast_last, length_app. cbn [length].
      destruct (is_json x) eqn:Ex; [|by rewrite andb_false_r]. apply is_json_true in Ex as ->.
      destruct l as [|y l]; [by cbn|]. rewrite (proj2 (Nat.ltb_lt _ _)) by (cbn; lia). intros [= <- <-].
      exists (y :: l). split; [done|]. split; [done|]. by right.
    + intros (l & Hl & -> & [(_ & -> & Hn)|(-> & ->)]); [done|]. rewrite last_snoc, removelast_last, length_app. cbn [length].
      destruct l as [|y l]; [done|]. rewrite (proj2 (Nat.ltb_lt _ _)) by (cbn; lia). done.
  - assert ("--json"%string ∉ rest) as Hn by (rewrite <- existsb_json; congruence). split.
    + intros [= <- <-]. exists rest. split; [done|]. split; [done|]. by left.
    + intros (l & Hl & -> & [(-> & -> & _)|(_ & ->)]); [done|]. destruct Hn. apply elem_of_app. right. by apply list_elem_of_singleton.
Qed.

Lemma hosted_spec name rest c m : parse_hosted_command name rest = Some (c, m) ->
  exists h, (m = Human /\ rest = [h] /\ h <> "--json"%string \/ m = JsonOutput /\ rest = [h; "--json"%string]) /\
    (name = "hosted-claim-handle"%string /\ c = HostedClaimHandle h \/ name = "hosted-resolve-handle"%string /\ c = HostedResolveHandle h).
Proof.
  unfold parse_hosted_command. destruct rest as [|x l _] using rev_ind; [done|]. rewrite last_snoc, removelast_last.
  assert (forall h m', (if String.eqb name "hosted-claim-handle" then Some (HostedClaimHandle h, m')
      else if String.eqb name "hosted-resolve-handle" then Some (HostedResolveHandle h, m') else None) = Some (c, m) ->
    m = m' /\ (name = "hosted-claim-handle"%string /\ c = HostedClaimHandle h \/ name = "hosted-resolve-handle"%string /\ c = HostedResolveHandle h)) as Hname.
  { intros h m'. destruct (String.eqb_spec name "hosted-claim-handle"); [intros [= <- <-]; auto|].
    destruct (String.eqb_spec name "hosted-resolve-handle"); [intros [= <- <-]; auto|done]. }
  destruct (is_json x) eqn:Ex.
  - apply is_json_true in Ex as ->. destruct l as [|h [|]]; try done. intros [-> H]%Hname. exists h. split; [by right|done].
  - assert (x <> "--json"%string) by (rewrite <- is_json_true; congruence).
    destruct l as [|h l]; cbn [app]; [|intros Hc; by destruct l]. intros [-> Hc]%Hname. exists x. split; [by left|done].
Qed.

Lemma find_parametric_spelled words c m : find_parametric words = Some (c, m) -> spelled words c m.
Proof.
  unfold find_parametric. destruct words as [|name rest]; [done|]. intros H.
  destruct (String.eqb_spec name "identity") as [->|].
  { destruct rest as [|w [|nsec [|]]]; try done. destruct (String.eqb_spec w "import") as [->|]; [|done]. simplify_eq. apply SpImport. }
  destruct (String.eqb_spec name "contacts-add") as [->|].
  { destruct rest as [|peer [|w [|]]]; try done; simplify_eq; [apply SpAdd|].
    destruct (is_json w) eqn:Ew; [|done]. apply is_json_true in Ew as ->. simplify_eq. apply SpAddJson. }
  destruct (String.eqb_spec name "contacts-remove") as [->|].
  { destruct rest as [|npub [|]]; try done. simplify_eq. apply SpRemove. }
  destruct (String.eqb_spec name "relays-set") as [->|].
  { apply with_list_spec in H as (l & Hl & -> & [(-> & -> & Hn)|(-> & ->)]); [by apply SpRelays|by apply SpRelaysJson]. }
  destruct (String.eqb_spec name "send") as [->|].
  { destruct rest as [|peer rest]; [done|]. apply with_list_spec in H as (l & Hl & -> & [(-> & -> & Hn)|(-> & ->)]); [by apply SpSend|by apply SpSendJson]. }
  destruct (String.eqb_spec name "panic") as [->|].
  { destruct rest as [|w [|x [|]]]; try done. destruct (String.eqb_spec w "--confirm") as [->|]; [|done]. simplify_eq. apply SpPanic. }
  destruct (starts_with "hosted-" name); [|done].
  apply hosted_spec in H as (h & [(-> & -> & Hh)|(-> & ->)] & [[-> ->]|[-> ->]]);
    [by apply SpClaim|by apply SpResolve|apply SpClaimJson|apply SpResolveJson].
Qed.

(** The commands with a parameter are none of the fixed ones. *)
Lemma not_fixed words : Forall (fun e => words <> e.1) FIXED -> find_fixed words = None.
Proof.
  intros F. unfold find_fixed. destruct (List.find _ FIXED) as [e|] eqn:E; [|done]. apply List.find_some in E as [Hin E].
  apply bool_decide_eq_true in E. rewrite Forall_forall in F. by destruct (F e); [apply list_elem_of_In|].
Qed.

Lemma spelled_found words c m : spelled words c m ->
  match find_fixed words with Some r => Some r | None => find_parametric words end = Some (c, m).
Proof.
  intros []; try (vm_compute; reflexivity);
    (rewrite not_fixed by (unfold FIXED; repeat constructor; cbn; congruence)); unfold find_parametric; try done.
  - by apply (with_list_spec RelaysSet); exists rs; split_and!; [..|left].
  - by apply (with_list_spec RelaysSet); exists rs; split_and!; [..|right].
  - by apply (with_list_spec (fun ws => Send peer (String.concat " " ws))); exists ws; split_and!; [..|left].
  - by apply (with_list_spec (fun ws => Send peer (String.concat " " ws))); exists ws; split_and!; [..|right].
  - change (parse_hosted_command "hosted-claim-handle" [h] = Some (HostedClaimHandle h, Human)). unfold parse_hosted_command.
    cbn [last]. destruct (is_json h) eqn:E; [by apply is_json_true in E|]. done.
  - change (parse_hosted_command "hosted-resolve-handle" [h] = Some (HostedResolveHandle h, Human)). unfold parse_hosted_command.
    cbn [last]. destruct (is_json h) eqn:E; [by apply is_json_true in E|]. done.
Qed.

(** ** A command reaches the daemon *)

Lemma utf8_decode_app n : forall a x b, (length a <= n)%nat -> utf8_decode a = Some x -> utf8_decode (a ++ b) = app x <$> utf8_decode b.
Proof.
  induction n as [|n IH]; intros a x b Hn Ha.
  { destruct a; [|cbn in Hn; lia]. injection Ha as <-. cbn. by destruct (utf8_decode b). }
  destruct a as [|b0 l1]; [injection Ha as <-; cbn; by destruct (utf8_decode b)|]. cbn [utf8_decode app] in *.
  repeat match type of Ha with
  | (if ?c then _ else _) = _ => destruct c
  | match ?l with [] => _ | _ :: _ => _ end = _ => destruct l; [done|]; cbn [app]
  | None = _ => done
  end; apply fmap_Some in Ha as (y & Hy & ->); (erewrite (IH _ _ b); [|cbn in Hn|exact Hy]; [by destruct (utf8_decode b)|lia]).
Qed.
Lemma utf8_valid_app a b : utf8_valid a = true -> utf8_valid b = true -> utf8_valid (a +:+ b) = true.
Proof.
  unfold utf8_valid. rewrite as_bytes_app. destruct (utf8_decode (as_bytes a)) as [x|] eqn:Ea; [|done].
  rewrite (utf8_decode_app _ _ _ _ (le_n _) Ea). by destruct (utf8_decode (as_bytes b)).
Qed.
Lemma utf8_valid_concat ws : forallb utf8_valid ws = true -> utf8_valid (String.concat " " ws) = true.
Proof.
  induction ws as [|w [|w' ws] IH]; [done| |]; cbn [forallb String.concat] in *; intros H.
  - by destruct (utf8_valid w).
  - apply andb_true_iff in H as [Hw H]. apply utf8_valid_app; [done|]. apply utf8_valid_app; [done|]. by apply IH.
Qed.

Lemma spelled_wf words c m : spelled words c m -> forallb utf8_valid words = true -> command_wf c = true.
Proof.
  intros []; cbn [forallb command_wf]; try (by rewrite ?andb_true_r; intros; split_bools).
  - rewrite forallb_app. intros. split_bools. assumption.
  - intros. split_bools. apply andb_true_iff. split; [done|by apply utf8_valid_concat].
  - rewrite forallb_app. intros. split_bools. apply andb_true_iff. split; [done|by apply utf8_valid_concat].
Qed.

(** The commands of the grammar, but for the panic, go to the handler as they are. *)
Definition plain (c : Command) : Prop := match c with Hello _ _ | Subscribe _ | RequestPanicConfirmation | Panic _ => False | _ => True end.

Lemma spelled_plain words c m : spelled words c m -> plain c \/ exists w, c = Panic w.
Proof.
  intros []; try (by left). by right; eexists.
Qed.

Section Reaches.
Context {json : Json} {S : Type} {handler : RequestHandler S} {json_laws : JsonLaws}.

Lemma plain_outcome r cl (s : S) : plain (command r) -> attached cl ->
  request_outcome r cl s = let '(o, s1) := rh_handle r s in (o, (cl, s1)).
Proof using Type. intros Hp [_ Hn]. unfold request_outcome. destruct (command r); try done; rewrite Hn; cbn [negb]; by destruct (rh_handle r s). Qed.

(** Every connection to the socket is a new one. *)
Definition new_connection (path : string) (d : Client * S) : result ClientError unit * (Client * S) := (Ok tt, (Client_new, d.2)).

Definition line_fits (v : Value) : Prop := is_ok (encode_line v) = true.
Definition greeting_fits : Prop :=
  line_fits (request_value {| version := VERSION; id := "1"; command := Hello VERSION VERSION |}) /\
  line_fits (response_value {| rs_version := VERSION; rs_id := "1"; rs_outcome := OkOutcome (hello_value VERSION) |}).

Lemma ctl_run_daemon env arguments socket words cmd mode files qr cl0 (s : S) o s1 :
  split_socket env arguments = Ok (socket, words) -> ctl_parse_command words = Ok (cmd, mode) -> plain cmd ->
  forallb utf8_valid words = true -> spelled words cmd mode -> greeting_fits ->
  let r := {| version := VERSION; id := "2"; command := cmd |} in
  rh_handle r s = (o, s1) -> outcome_wf o = true -> line_fits (request_value r) ->
  line_fits (response_value {| rs_version := VERSION; rs_id := "2"; rs_outcome := o |}) ->
  exists cl, ctl_run env new_connection files qr arguments (cl0, s) =
    (match o with OkOutcome res => print_result qr mode res | ErrorOutcome e => Err (CliClient (remote_error e)) end, (cl, s1)).
Proof using json_laws.
  intros Hsp Hpc Hpl Hu Hw [G1 G2] r Hr Hwf F1 F2.
  unfold ctl_run. rewrite Hsp. cbn [rbind snd fst]. rewrite Hpc. cbn [rbind]. unfold new_connection at 1. cbn [snd].
  destruct (connect_answered s G1 G2) as (c & cl & Ec & Hi & Ha & Hid & Hev). rewrite Ec. clear G1 G2.
  assert (request_outcome r cl s = (o, (cl, s1))) as Ho by (rewrite plain_outcome by done; by rewrite Hr).
  assert (show (cc_next_id c) = "2"%string) as Hshow by (by rewrite Hid).
  pose proof (request_answered cmd c cl s o cl s1 Hi Ha ltac:(rewrite Hid; split; discriminate)
    (spelled_wf _ _ _ Hw Hu) ltac:(intros a b ->; exact Hpl)) as H. cbv zeta in H. rewrite Hshow in H. fold r in H.
  specialize (H Ho Hwf). unfold line_fits in *. destruct (encode_line (request_value r)) as [?|]; [|done]. cbn [id r] in H.
  destruct (encode_line (response_value _)) as [?|]; [|done]. destruct H as (c' & cl' & E & _).
  exists cl'. assert (request_with_confirmation files cmd (c, (cl, s)) = request cmd (c, (cl, s))) as -> by (by destruct cmd).
  rewrite E. cbn [rs_outcome]. by destruct o.
Qed.
End Reaches.

(** ** Theorems *)

Lemma ctl_words words c m : ctl_parse_command words = Ok (c, m) -> forallb utf8_valid words = true /\ spelled words c m.
Proof.
  unfold ctl_parse_command. destruct (forallb utf8_valid words); [|done]. cbn [negb]. intros H%ok_or_ok_inv. split; [done|].
  destruct (find_fixed words) as [r|] eqn:Ef.
  - simplify_eq. by apply find_fixed_spelled.
  - by apply find_parametric_spelled.
Qed.


(** The usage text offers [contacts-remove NPUB --json]; the command is refused. *)
Theorem contacts_remove_json_refused npub :
  utf8_valid npub = true -> ctl_parse_command ["contacts-remove"; npub; "--json"]%string = Err (Usage "invalid command").
Proof. intros H. unfold ctl_parse_command. cbn [forallb]. rewrite H. done. Qed.

(** With no [--socket], the daemon listens where its clients connect. *)
Theorem default_sockets_agree env o words :
  Options_parse env [] = Ok o ->
  match words with flag :: _ => flag <> "--socket"%string | [] => True end ->
  tui_socket_path env [] = Ok (o_socket o) /\ split_socket env words = Ok (o_socket o, words).
Proof.
  unfold Options_parse. intros H Hw. apply rbind_ok_inv in H as (state & _ & H). apply rbind_ok_inv in H as (runtime & Hr & H).
  apply ok_or_ok_inv in Hr. injection H as <-. cbn [o_socket]. unfold tui_socket_path, split_socket, default_socket. rewrite Hr.
  split; [done|]. destruct words as [|flag words]; [done|]. by destruct (String.eqb_spec flag "--socket").
Qed.

Section Properties.
Context {json : Json} {S : Type} {handler : RequestHandler S} {json_laws : JsonLaws}.

(** [omachat-ctl] on a daemon: every command but the panic that its grammar spells is put to
    the daemon's handler once, and what is printed is what the handler answered, in the form
    asked for, with exit code 0; when the handler refuses, its message is reported with exit
    code 4. *)
Theorem ctl_prints_answer env arguments socket words cmd mode files qr cl0 (s : S) o s1 :
  split_socket env arguments = Ok (socket, words) -> ctl_parse_command words = Ok (cmd, mode) ->
  (forall w, cmd <> Panic w) -> greeting_fits ->
  let r := {| version := VERSION; id := "2"; command := cmd |} in
  rh_handle r s = (o, s1) -> outcome_wf o = true -> line_fits (request_value r) ->
  line_fits (response_value {| rs_version := VERSION; rs_id := "2"; rs_outcome := o |}) ->
  exists cl, ctl_run env new_connection files qr arguments (cl0, s) =
    (match o with OkOutcome res => print_result qr mode res | ErrorOutcome e => Err (CliClient (remote_error e)) end, (cl, s1)) /\
    match o with ErrorOutcome e => exit_code (Err (CliClient (remote_error e))) = 4 | _ => True end.
Proof using json_laws.
  intros Hsp Hpc Hnp Hg r Hr Hwf F1 F2. pose proof Hpc as [Hu Hw]%ctl_words.
  destruct (spelled_plain _ _ _ Hw) as [Hpl|[w ->]]; [|by destruct (Hnp w)].
  destruct (ctl_run_daemon env arguments socket words cmd mode files qr cl0 s o s1 Hsp Hpc Hpl Hu Hw Hg Hr Hwf F1 F2) as [cl E].
  exists cl. split; [exact E|by destruct o].
Qed.
End Properties.

Section Start.
Context {W : Type} {aead : Aead} {hex : Hex} {json : Json} {sha : Sha256} {schnorr : Schnorr} {bech : Bech32}.
Context {crypto : Nip44Crypto} {b64 : Base64} {url : UrlLib} {ed : Ed25519} {api : SecretApi W}.

Lemma start_hosted_keeps timeouts (c : Core W) r c' : start_hosted_with timeouts c = (r, c') ->
  co_config c' = co_config c /\ co_panic c' = co_panic c.
Proof using Type.
  unfold start_hosted_with, ensure_active, se_bind, se_ret, identity. destruct (is_active c); [|by intros [= _ <-]].
  destruct (hosted (co_config c)); [|by intros [= _ <-]]. repeat case_match; intros; by simplify_eq.
Qed.

Lemma daemon_start_inv read o f oracle (w : World W) c h : daemon_start read o f oracle w = Ok (c, h) ->
  exists config, effective_config read o = Ok config /\ co_config c = config /\ is_active c = true.
Proof using Type.
  unfold daemon_start. intros (config & Hc & H)%rbind_ok_inv. apply map_err_ok_inv in Hc. exists config. split; [done|].
  apply rbind_ok_inv in H as (c0 & Hopen & H). destruct (start_hosted_with _ c0) as [[h'|] c'] eqn:Eh; [|done]. injection H as -> ->.
  destruct (start_hosted_keeps _ _ _ _ Eh) as [-> Hp].
  unfold core_open in Hopen. apply rbind_ok_inv in Hopen as (? & _ & Hopen). repeat case_match; simplify_eq.
  split; [done|]. unfold is_active. by rewrite Hp.
Qed.

(** A daemon started with [--file-key] beside a configuration that names no provider, or
    another one, refuses every reload of that same configuration: the reload compares the
    provider of the file with the one the option put in its place. *)
Theorem file_key_blocks_reload read o path config f oracle (w : World W) c h :
  o_config o = Some path -> o_file_key o = true -> DaemonConfig_load (read path) = Ok config ->
  storage_provider config <> SFile -> daemon_start read o f oracle w = Ok (c, h) ->
  (reload (read path) c).1 = Err CERestartRequired.
Proof using Type.
  intros Hp Hk Hl Hs H. apply daemon_start_inv in H as (config' & He & Hc & Ha).
  unfold effective_config in He. rewrite Hp, Hl, Hk in He. injection He as <-.
  unfold reload, se_bind, se_ret, ensure_active. rewrite Hl. cbn [map_err]. rewrite Ha, Hc. cbn [hosted storage_provider].
  rewrite (bool_decide_false (SFile = storage_provider config)) by congruence. by rewrite orb_true_r.
Qed.
End Start.

(** ** Witnesses *)

#[local] Existing Instance no_secrets.

Definition sample_env : Environment := {|
  var_os := fun v => if String.eqb v "XDG_RUNTIME_DIR" then Some "/run/user/1000"%string
                     else if String.eqb v "HOME" then Some "/home/al/"%string else None;
  file_exists := fun _ => false |}.

Lemma contacts_remove_json_refused_witness :
  ctl_parse_command ["contacts-remove"; "npub1x"; "--json"]%string = Err (Usage "invalid command").
Proof. apply (contacts_remove_json_refused "npub1x"). reflexivity. Defined.

Lemma default_sockets_agree_witness :
  split_socket sample_env ["status"%string] = Ok ("/run/user/1000/omachat/omachat.sock"%string, ["status"%string]).
Proof.
  assert (exists o, Options_parse sample_env [] = Ok o /\ o_socket o = "/run/user/1000/omachat/omachat.sock"%string) as (o & E & Es)
    by (eexists; vm_compute; split; reflexivity).
  rewrite <- Es. apply (default_sockets_agree sample_env o ["status"%string] E). discriminate.
Defined.

Lemma ctl_prints_answer_witness :
  exists cl, ctl_run (peer := daemon_peer (handler := echo_handler)) sample_env new_connection (fun _ _ => NotRegular) (fun _ => QrDone)
    ["--socket"; "/s"; "status"; "--json"]%string (Client_new, []) = (Ok (OutJson (JString "status")), (cl, [])).
Proof.
  assert (split_socket sample_env ["--socket"; "/s"; "status"; "--json"]%string = Ok ("/s", ["status"; "--json"])%string) as H1 by reflexivity.
  assert (ctl_parse_command ["status"; "--json"]%string = Ok (Status, JsonOutput)) as H2 by (vm_compute; reflexivity).
  assert (greeting_fits) as H3 by (split; vm_compute; reflexivity).
  assert (rh_handle (RequestHandler := echo_handler) {| version := VERSION; id := "2"; command := Status |} [] = (OkOutcome (JString "status"), []))
    as H4 by (vm_compute; reflexivity).
  assert (line_fits (request_value {| version := VERSION; id := "2"; command := Status |})) as H5 by (vm_compute; reflexivity).
  assert (line_fits (response_value {| rs_version := VERSION; rs_id := "2"; rs_outcome := OkOutcome (JString "status") |})) as H6
    by (vm_compute; reflexivity).
  destruct (ctl_prints_answer (handler := echo_handler) sample_env _ _ _ Status JsonOutput (fun _ _ => NotRegular) (fun _ => QrDone) Client_new []
    (OkOutcome (JString "status")) [] H1 H2 ltac:(discriminate) H3 H4 eq_refl H5 H6) as (cl & E & _).
  exists cl. exact E.
Defined.

Lemma file_key_blocks_reload_witness :
  let read := fun _ : string => Some (as_bytes (value_to_string (JObject []))) in
  let o := {| o_config := Some "/c"%string; o_state := "/s"; o_socket := "/r"; o_file_key := true |} in
  exists c h, daemon_start read o sample_confirmations sample_oracle daemon_world = Ok (c, h) /\
    (reload (read "/c"%string) c).1 = Err CERestartRequired.
Proof.
  intros read o.
  assert (is_ok (daemon_start read o sample_confirmations sample_oracle daemon_world) = true) as Hok by (vm_compute; reflexivity).
  destruct (daemon_start read o sample_confirmations sample_oracle daemon_world) as [[c h]|] eqn:E; [|discriminate Hok].
  exists c, h. split; [reflexivity|].
  assert (DaemonConfig_load (read "/c"%string) = Ok DaemonConfig_default) as Hl by (vm_compute; reflexivity).
  refine (file_key_blocks_reload read o "/c" DaemonConfig_default sample_confirmations sample_oracle daemon_world c h eq_refl eq_refl Hl _ E).
  discriminate.
Defined.
