(* ===== verification/ChatHandle.v ===== *)
(** * The handle of the chat ([NostrChat] of [omachatd/src/nostr_chat.rs])

    What the core holds of the chat: every operation puts a request with a reply channel into
    a bounded queue, waits for room in it and then for the reply, while the actor of [Chat]
    takes one request at a time. The calls of the clients, those that give up, the turns of
    the actor and the relays interleave in any way; the theorems show that the calls still
    behave like a sequence of [Chat.handle], the way [Core] runs them. *)

From Stdlib Require Import Strings.Byte Ascii String.
From S2P Require Import Prelude RustStd BTree Libs Serde Concrete Nip44 Event Frame Relay GiftWrap Keys Dedup RelayList Pool Nip11 Nip05 Store Ipc Daemon Chat.
Local Open Scope Z_scope.

(** [mpsc::channel(32)] *)
Definition CHAT_QUEUE : nat := 32.

(** What the actor did, oldest first: a request it handled, with its reply channel and the
    reply, or what arrived from the relays. *)
Inductive ChatEntry :=
| Handled (n : nat) (net : Network) (r : ChatRequest) (reply : result ChatError Value)
| Arrived (arrivals : list Arrival).

Record NostrChat {W : Type} := {
  nc_queue : list (nat * ChatRequest);
  nc_waiting : list (nat * ChatRequest);   (* callers that wait for room in the queue *)
  nc_actor : Actor W;
  nc_running : bool;                       (* the loop of [run] goes on *)
  nc_open : bool;                          (* [run] has not returned, so the receiver exists *)
  nc_next : nat;
  nc_gone : list nat;                      (* callers that were dropped while they waited *)
  nc_log : list ChatEntry
}.
Arguments NostrChat : clear implicits.

Inductive ChatHappening :=
| Asks (r : ChatRequest)
| GivesUp (n : nat)
| TakesRequest (net : Network)
| RelaysDeliver (arrivals : list Arrival)
| LosesHandles
| Returns.

Definition is_shutdown (r : ChatRequest) : bool := match r with ChatShutdown => true | _ => false end.

Fixpoint reply_of (n : nat) (l : list ChatEntry) : option (result ChatError Value) :=
  match l with
  | [] => None
  | Handled m _ _ r :: l => if Nat.eqb m n then Some r else reply_of n l
  | _ :: l => reply_of n l
  end.

Section Handle.
Context {W : Type} {aead : Aead} {hex : Hex} {json : Json} {sha : Sha256} {schnorr : Schnorr} {bech : Bech32}.
Context {crypto : Nip44Crypto} {b64 : Base64} {url : UrlLib}.

(** [NostrChat::spawn], with the actor as it is when its loop starts. *)
Definition chat_spawn (a : Actor W) : NostrChat W := {|
  nc_queue := []; nc_waiting := []; nc_actor := a; nc_running := true; nc_open := true; nc_next := 0; nc_gone := []; nc_log := [] |}.

(** The first half of [roundtrip] and [shutdown]: the request enters the queue, waits for
    room behind the others, or fails because the actor has returned. *)
Definition ask (r : ChatRequest) (h : NostrChat W) : NostrChat W :=
  let full := negb (bool_decide (length (nc_queue h) < CHAT_QUEUE)%nat) || negb (bool_decide (nc_waiting h = [])) in
  {| nc_queue := if nc_open h && negb full then nc_queue h ++ [(nc_next h, r)] else nc_queue h;
     nc_waiting := if nc_open h && full then nc_waiting h ++ [(nc_next h, r)] else nc_waiting h;
     nc_actor := nc_actor h; nc_running := nc_running h; nc_open := nc_open h; nc_next := S (nc_next h); nc_gone := nc_gone h; nc_log := nc_log h |}.

(** The second half: the reply, or [Stopped] when its sender was dropped; [None] while it
    waits. *)
Definition roundtrip_result (n : nat) (h : NostrChat W) : option (result ChatError Value) :=
  if bool_decide (n ∈ nc_gone h) || negb (bool_decide (n < nc_next h)%nat) then None
  else match reply_of n (nc_log h) with
       | Some r => Some r
       | None => if bool_decide (n ∈ map fst (nc_queue h ++ nc_waiting h)) then None else Some (Err CStopped)
       end.

(** A dropped caller leaves the line for the queue, but not the queue. *)
Definition drop_caller (n : nat) (h : NostrChat W) : NostrChat W := {|
  nc_queue := nc_queue h; nc_waiting := List.filter (fun x => negb (Nat.eqb x.1 n)) (nc_waiting h); nc_actor := nc_actor h;
  nc_running := nc_running h; nc_open := nc_open h; nc_next := nc_next h; nc_gone := n :: nc_gone h; nc_log := nc_log h |}.

(** The loop is left; the queue still takes requests that no one will take out. *)
Definition leave_loop (h : NostrChat W) : NostrChat W := {|
  nc_queue := nc_queue h; nc_waiting := nc_waiting h; nc_actor := nc_actor h; nc_running := false; nc_open := nc_open h;
  nc_next := nc_next h; nc_gone := nc_gone h; nc_log := nc_log h |}.

(** The end of [run]: the pool is shut down, and the receiver dropped with what it holds. *)
Definition end_actor (h : NostrChat W) : NostrChat W := {|
  nc_queue := []; nc_waiting := []; nc_actor := set_pool None (nc_actor h); nc_running := false; nc_open := false;
  nc_next := nc_next h; nc_gone := nc_gone h; nc_log := nc_log h |}.

(** One request: its place in the queue goes to the first caller in line, it is handled and
    answered, and the shutdown leaves the loop. *)
Definition take_request (net : Network) (h : NostrChat W) : NostrChat W :=
  match nc_queue h with
  | [] => h
  | (n, r) :: q =>
      let '(reply, a) := Chat.handle net r (nc_actor h) in
      let h := {| nc_queue := q ++ take 1 (nc_waiting h); nc_waiting := drop 1 (nc_waiting h); nc_actor := a;
                  nc_running := nc_running h; nc_open := nc_open h; nc_next := nc_next h; nc_gone := nc_gone h;
                  nc_log := nc_log h ++ [Handled n net r reply] |} in
      if is_shutdown r then leave_loop h else h
  end.

Definition chat_happens (x : ChatHappening) (h : NostrChat W) : NostrChat W :=
  match x with
  | Asks r => ask r h
  | GivesUp n => drop_caller n h
  | TakesRequest net => if nc_running h then take_request net h else h
  | RelaysDeliver l =>
      if nc_running h then
        {| nc_queue := nc_queue h; nc_waiting := nc_waiting h; nc_actor := chat_step (InArrivals l) (nc_actor h);
           nc_running := true; nc_open := nc_open h; nc_next := nc_next h; nc_gone := nc_gone h; nc_log := nc_log h ++ [Arrived l] |}
      else h
  | LosesHandles =>
      match nc_queue h, nc_waiting h, nc_running h with
      | [], [], true => leave_loop h
      | _, _, _ => h
      end
  | Returns => if nc_open h && negb (nc_running h) then end_actor h else h
  end.
Definition chat_handle_run (xs : list ChatHappening) (h : NostrChat W) : NostrChat W :=
  fold_left (fun h x => chat_happens x h) xs h.

(** ** The sequential chat *)

Definition entry_input (e : ChatEntry) : ChatInput :=
  match e with Handled _ net r _ => InRequest net r | Arrived l => InArrivals l end.
Definition replay (l : list ChatEntry) (a : Actor W) : Actor W := fold_left (fun a e => chat_step (entry_input e) a) l a.

(** The calls of a run, in order: the one with number [n] has reply channel [n]. *)
Definition calls_of (xs : list ChatHappening) : list ChatRequest :=
  omap (fun x => match x with Asks r => Some r | _ => None end) xs.
Definition handled (l : list ChatEntry) : list (nat * ChatRequest) :=
  omap (fun e => match e with Handled n _ r _ => Some (n, r) | _ => None end) l.
End Handle.

(** ** The invariant of every interleaving *)

Section Invariant.
Context {W : Type} {aead : Aead} {hex : Hex} {json : Json} {sha : Sha256} {schnorr : Schnorr} {bech : Bech32}.
Context {crypto : Nip44Crypto} {b64 : Base64} {url : UrlLib}.
Implicit Types (h : NostrChat W) (l : list ChatEntry).

(** Every reply of a history is the one of the sequential chat at that point. *)
Fixpoint replies_right l (a : Actor W) : Prop :=
  match l with
  | [] => True
  | e :: l =>
      match e with Handled _ net r reply => reply = (Chat.handle net r a).1 | Arrived _ => True end /\
      replies_right l (chat_step (entry_input e) a)
  end.

(** The calls in the actor's history, then in its queue, then in line. *)
Definition in_order h : list (nat * ChatRequest) := handled (nc_log h) ++ nc_queue h ++ nc_waiting h.

Record chat_handle_ok (a0 : Actor W) (cs : list ChatRequest) h : Prop := {
  ch_next : nc_next h = length cs;
  ch_order : map fst (in_order h) `sublist_of` seq 0 (nc_next h);
  ch_asked : Forall (fun x => cs !! x.1 = Some x.2) (in_order h);
  ch_bound : (length (nc_queue h) <= CHAT_QUEUE)%nat;
  ch_state : nc_actor h = (if nc_open h then replay (nc_log h) a0 else set_pool None (replay (nc_log h) a0));
  ch_replies : replies_right (nc_log h) a0;
  ch_alive : if nc_open h then forall n, (n < nc_next h)%nat -> n ∈ nc_gone h \/ n ∈ map fst (in_order h)
             else nc_queue h = [] /\ nc_waiting h = [];
  ch_running : nc_running h = true -> nc_open h = true
}.

(** A running actor has not handled a shutdown. *)
Definition chat_quiet h : Prop :=
  nc_running h = true -> Forall (fun x => is_shutdown x.2 = false) (handled (nc_log h)).

Lemma replay_snoc l e (a : Actor W) : replay (l ++ [e]) a = chat_step (entry_input e) (replay l a).
Proof using Type. unfold replay. by rewrite fold_left_app. Qed.

Lemma replies_right_snoc l e : forall a : Actor W, replies_right l a ->
  match e with Handled _ net r reply => reply = (Chat.handle net r (replay l a)).1 | Arrived _ => True end ->
  replies_right (l ++ [e]) a.
Proof using Type. induction l as [|x l IH]; cbn [app replies_right]; intros a; [done|]. intros [? ?] ?. split; [done|]. by apply IH. Qed.

Lemma handled_app l1 l2 : handled (l1 ++ l2) = handled l1 ++ handled l2.
Proof using Type. apply omap_app. Qed.

Lemma chat_spawn_ok a : chat_handle_ok a [] (chat_spawn a).
Proof using Type. split; cbn; try done; [lia | intros n; lia]. Qed.

Lemma lookup_weaken_snoc (cs cs' : list ChatRequest) (k : list (nat * ChatRequest)) :
  Forall (fun x => cs !! x.1 = Some x.2) k -> Forall (fun x => (cs ++ cs') !! x.1 = Some x.2) k.
Proof using Type. intros H. eapply Forall_impl; [exact H|]. intros [n r] E. by apply lookup_app_l_Some. Qed.

Lemma sublist_Forall {A} (P : A -> Prop) (k1 k2 : list A) : k1 `sublist_of` k2 -> Forall P k2 -> Forall P k1.
Proof using Type. induction 1; [done | |]; rewrite !Forall_cons; intuition. Qed.

Lemma ask_ok a cs r h : chat_handle_ok a cs h -> chat_handle_ok a (cs ++ [r]) (ask r h).
Proof using Type.
  intros [Hn Ho Ha Hb Hs Hr Hl Hop].
  assert (in_order (ask r h) = in_order h ++ if nc_open h then [(nc_next h, r)] else []) as E.
  { unfold in_order, ask. cbn. destruct (nc_open h); cbn [andb]; [|by rewrite app_nil_r].
    case_bool_decide; cbn [negb orb]; [|by rewrite !app_assoc].
    case_bool_decide as Ew; cbn [negb]; [|by rewrite !app_assoc]. by rewrite Ew, !app_nil_r, app_assoc. }
  split; rewrite ?E; cbn [nc_next nc_running nc_open nc_actor nc_log nc_queue nc_waiting nc_gone ask]; try done.
  - rewrite length_app. cbn. lia.
  - rewrite map_app, seq_S. apply sublist_app; [done|]. destruct (nc_open h); cbn; [reflexivity | apply sublist_nil_l].
  - apply Forall_app. split; [by apply lookup_weaken_snoc|]. destruct (nc_open h); [|done]. constructor; [|done].
    cbn. rewrite Hn. by apply list_lookup_middle.
  - destruct (nc_open h); cbn [andb]; [|done]. case_bool_decide; cbn; [|done]. case_bool_decide; cbn; [|done].
    rewrite length_app. cbn. lia.
  - destruct (nc_open h); cbn [andb]; [|done]. intros n Hlt. rewrite map_app, elem_of_app. cbn. rewrite list_elem_of_singleton.
    destruct (decide (n = nc_next h)); [auto|]. destruct (Hl n) as [|]; [lia | auto | auto].
Qed.

Lemma drop_caller_ok a cs n h : chat_handle_ok a cs h -> chat_handle_ok a cs (drop_caller n h).
Proof using Type.
  intros [Hn Ho Ha Hb Hs Hr Hl Hop].
  assert (forall k : list (nat * ChatRequest), List.filter (fun x => negb (Nat.eqb x.1 n)) k `sublist_of` k) as Hf.
  { induction k as [|x k IH]; cbn; [constructor|]. destruct (negb _); by constructor. }
  assert (in_order (drop_caller n h) `sublist_of` in_order h) as Hsub
    by (apply sublist_app; [reflexivity | apply sublist_app; [reflexivity | apply Hf]]).
  split; cbn [nc_next nc_running nc_open nc_actor nc_log nc_queue nc_waiting nc_gone drop_caller]; try done.
  - etrans; [|exact Ho]. by apply (fmap_sublist fst).
  - by eapply sublist_Forall.
  - destruct (nc_open h).
    + intros m Hm. destruct (Hl m Hm) as [|Hin]; [left; by right|]. destruct (decide (m = n)) as [->|]; [left; by left|].
      right. unfold in_order in *. cbn. rewrite !map_app, !elem_of_app in *. destruct Hin as [|[|Hin]]; auto. right; right.
      apply list_elem_of_fmap in Hin as ([m' r] & -> & Hin). cbn in *. apply list_elem_of_fmap. exists (m', r). split; [done|].
      apply list_elem_of_In, filter_In. split; [by apply list_elem_of_In|]. cbn. by apply negb_true_iff, Nat.eqb_neq.
    + destruct Hl as [? ->]. done.
Qed.

Lemma leave_loop_ok a cs h : chat_handle_ok a cs h -> chat_handle_ok a cs (leave_loop h).
Proof using Type. by intros []. Qed.

Lemma end_actor_ok a cs h : nc_open h = true -> chat_handle_ok a cs h -> chat_handle_ok a cs (end_actor h).
Proof using Type.
  intros E [Hn Ho Ha Hb Hs Hr Hl Hop]. rewrite E in *.
  assert (in_order (end_actor h) `sublist_of` in_order h) as Hsub
    by (unfold in_order, end_actor; cbn; apply sublist_app; [reflexivity | apply sublist_nil_l]).
  split; cbn [nc_next nc_running nc_open nc_actor nc_log nc_queue nc_waiting nc_gone end_actor]; try done.
  - etrans; [|exact Ho]. by apply (fmap_sublist fst).
  - by eapply sublist_Forall.
  - cbn. lia.
  - by rewrite Hs.
Qed.

Lemma take_request_ok a cs net h :
  nc_running h = true -> chat_handle_ok a cs h -> chat_handle_ok a cs (take_request net h).
Proof using Type.
  intros Er H. unfold take_request. destruct (nc_queue h) as [|[n r] q] eqn:Eq; [done|].
  destruct (Chat.handle net r (nc_actor h)) as [reply b] eqn:Eh. set (h' := Build_NostrChat _ _ _ _ _ _ _ _ _).
  assert (chat_handle_ok a cs h') as Hok.
  { destruct H as [Hn Ho Ha Hb Hs Hr Hl Hop]. rewrite (Hop Er) in *.
    assert (in_order h' = in_order h) as E.
    { unfold in_order, h'. cbn. rewrite Eq, handled_app, <- !app_assoc, take_drop. done. }
    split; rewrite ?E; subst h'; cbn [nc_next nc_running nc_open nc_actor nc_log nc_queue nc_waiting nc_gone]; rewrite ?(Hop Er); try done.
    - rewrite Eq in Hb. rewrite length_app, length_take. cbn [length] in Hb. lia.
    - rewrite replay_snoc. cbn. by rewrite <- Hs, Eh.
    - apply replies_right_snoc; [done|]. by rewrite <- Hs, Eh. }
  destruct (is_shutdown r); [|done]. by apply leave_loop_ok.
Qed.

Lemma chat_happens_ok a cs x h :
  chat_handle_ok a cs h -> chat_handle_ok a (cs ++ calls_of [x]) (chat_happens x h).
Proof using Type.
  intros H. destruct x as [r|n|net|l| |]; cbn [chat_happens calls_of omap list_omap]; rewrite ?app_nil_r.
  - by apply ask_ok.
  - by apply drop_caller_ok.
  - destruct (nc_running h) eqn:E; [by apply take_request_ok | done].
  - destruct (nc_running h) eqn:E; [|done]. destruct H as [Hn Ho Ha Hb Hs Hr Hl Hop]. rewrite (Hop E) in *.
    split; cbn [nc_next nc_running nc_open nc_actor nc_log nc_queue nc_waiting nc_gone]; unfold in_order in *; cbn;
      rewrite ?handled_app, ?app_nil_r; try done.
    + by rewrite replay_snoc, Hs.
    + by apply replies_right_snoc.
  - destruct (nc_queue h), (nc_waiting h), (nc_running h) eqn:E; try done. by apply leave_loop_ok.
  - destruct (nc_open h) eqn:E; [|done]. destruct (nc_running h); [done|]. by apply end_actor_ok.
Qed.

Lemma chat_happens_quiet x h : chat_quiet h -> chat_quiet (chat_happens x h).
Proof using Type.
  intros H. destruct x as [r|n|net|l| |]; cbn [chat_happens]; try done.
  - destruct (nc_running h) eqn:E; [|done]. unfold take_request. destruct (nc_queue h) as [|[n r] q]; [done|].
    destruct (Chat.handle net r (nc_actor h)) as [reply b]. destruct (is_shutdown r) eqn:Es; [done|].
    intros _. cbn. rewrite handled_app. apply Forall_app. split; [by apply H | by repeat constructor].
  - destruct (nc_running h) eqn:E; [|done]. intros _. cbn. rewrite handled_app, app_nil_r. by apply H.
  - by destruct (nc_queue h), (nc_waiting h), (nc_running h) eqn:E.
  - by destruct (nc_open h && negb (nc_running h)).
Qed.

Lemma chat_handle_run_app xs ys h : chat_handle_run (xs ++ ys) h = chat_handle_run ys (chat_handle_run xs h).
Proof using Type. apply fold_left_app. Qed.

Lemma chat_handle_run_ok a xs : forall cs h, chat_handle_ok a cs h -> chat_quiet h ->
  chat_handle_ok a (cs ++ calls_of xs) (chat_handle_run xs h) /\ chat_quiet (chat_handle_run xs h).
Proof using Type.
  induction xs as [|x xs IH]; intros cs h H Hq; [by rewrite app_nil_r|].
  change (x :: xs) with ([x] ++ xs). unfold calls_of. rewrite omap_app, app_assoc.
  apply IH; [by apply chat_happens_ok | by apply chat_happens_quiet].
Qed.

Lemma spawned_run_ok a xs :
  chat_handle_ok a (calls_of xs) (chat_handle_run xs (chat_spawn a)) /\ chat_quiet (chat_handle_run xs (chat_spawn a)).
Proof using Type. apply (chat_handle_run_ok a xs []); [apply chat_spawn_ok | intros _; constructor]. Qed.

(** ** Replies and histories *)

Lemma reply_of_some n l r : reply_of n l = Some r -> exists pre net q post, l = pre ++ Handled n net q r :: post.
Proof using Type.
  induction l as [|[m net q r'|k] l IH]; cbn; [done| |].
  - destruct (Nat.eqb m n) eqn:E; [intros [= ->]; apply Nat.eqb_eq in E as ->; by exists [], net, q, l|].
    intros (pre & net' & q' & post & ->)%IH. by exists (Handled m net q r' :: pre), net', q', post.
  - intros (pre & net' & q' & post & ->)%IH. by exists (Arrived k :: pre), net', q', post.
Qed.

Lemma reply_of_none n l : reply_of n l = None <-> n ∉ map fst (handled l).
Proof using Type.
  induction l as [|[m net q r'|k] l IH]; cbn; [split; [intros _; apply not_elem_of_nil | done] | |done].
  rewrite not_elem_of_cons. destruct (Nat.eqb_spec m n); [|naive_solver]. split; [done|]. intros []. congruence.
Qed.

Lemma replies_right_at pre : forall (a : Actor W) n net q r post,
  replies_right (pre ++ Handled n net q r :: post) a -> r = (Chat.handle net q (replay pre a)).1.
Proof using Type. induction pre as [|e pre IH]; cbn [app replies_right]; intros a n net q r post; [by intros [-> _]|]. intros [_ H]. by apply IH in H. Qed.

(** Once the loop is left, only the connections go. *)
Lemma left_stays xs : forall h, nc_running h = false ->
  nc_running (chat_handle_run xs h) = false /\ nc_log (chat_handle_run xs h) = nc_log h /\
  set_pool None (nc_actor (chat_handle_run xs h)) = set_pool None (nc_actor h).
Proof using Type.
  induction xs as [|x xs IH]; intros h Hr; [done|]. cbn [chat_handle_run fold_left].
  assert (nc_running (chat_happens x h) = false /\ nc_log (chat_happens x h) = nc_log h /\
    set_pool None (nc_actor (chat_happens x h)) = set_pool None (nc_actor h)) as (H1 & <- & <-); [|by apply IH].
  destruct x; unfold chat_happens; rewrite ?Hr; try done.
  - by destruct (nc_queue h), (nc_waiting h).
  - destruct (nc_open h && negb false); [|done]. by destruct h as [? ? [? ? ? ? ? [] ?] ? ? ? ? ?].
Qed.
End Invariant.

(** ** Every caller is answered *)

Section Progress.
Context {W : Type} {aead : Aead} {hex : Hex} {json : Json} {sha : Sha256} {schnorr : Schnorr} {bech : Bech32}.
Context {crypto : Nip44Crypto} {b64 : Base64} {url : UrlLib}.
Implicit Types (h : NostrChat W).

(** No one waits for room in an empty queue. *)
Definition line_ok h : Prop := nc_queue h = [] -> nc_waiting h = [].

Lemma take_request_line net h : line_ok h -> line_ok (take_request net h).
Proof using Type.
  intros H. unfold take_request. destruct (nc_queue h) as [|[n r] q] eqn:Eq; [done|].
  destruct (Chat.handle net r (nc_actor h)) as [reply b].
  destruct (is_shutdown r); unfold line_ok; cbn; intros [_ Hw]%app_eq_nil; by destruct (nc_waiting h).
Qed.

Lemma chat_happens_line x h : line_ok h -> line_ok (chat_happens x h).
Proof using Type.
  intros H. destruct x as [r|n|net|l| |]; unfold chat_happens.
  - unfold line_ok, ask. cbn. destruct (nc_open h); [|done]. cbn [andb].
    case_bool_decide as Hlt; cbn [negb orb]; [case_bool_decide as Hw; cbn [negb]|].
    + intros [_ E]%app_eq_nil. discriminate E.
    + intros Hq. by destruct Hw, (H Hq).
    + intros Hq. rewrite Hq in Hlt. destruct Hlt. unfold CHAT_QUEUE. cbn. lia.
  - intros Hq. unfold drop_caller in *. cbn in *. by rewrite (H Hq).
  - destruct (nc_running h); [by apply take_request_line | done].
  - by destruct (nc_running h).
  - by destruct (nc_queue h) eqn:?, (nc_waiting h) eqn:?, (nc_running h).
  - by destruct (nc_open h && negb (nc_running h)).
Qed.

Lemma chat_handle_run_line xs : forall h, line_ok h -> line_ok (chat_handle_run xs h).
Proof using Type. induction xs as [|x xs IH]; intros h H; [done|]. by apply IH, chat_happens_line. Qed.

Lemma take_shortens net h : line_ok h ->
  let h' := take_request net h in
  (length (nc_queue h' ++ nc_waiting h') <= pred (length (nc_queue h ++ nc_waiting h)))%nat /\
  nc_next h' = nc_next h /\ nc_gone h' = nc_gone h.
Proof using Type.
  intros H. cbv zeta. unfold take_request. destruct (nc_queue h) as [|[n r] q] eqn:Eq; [rewrite (H Eq), Eq; done|].
  destruct (Chat.handle net r (nc_actor h)) as [reply b]. by destruct (is_shutdown r); cbn; rewrite <- app_assoc, take_drop.
Qed.

(** The requests left are taken, or the loop is left on the way. *)
Lemma takes_drain nets : forall h, line_ok h -> (length (nc_queue h ++ nc_waiting h) <= length nets)%nat ->
  let h' := chat_handle_run (map TakesRequest nets) h in
  (nc_running h' = true -> nc_queue h' ++ nc_waiting h' = []) /\ nc_next h' = nc_next h /\ nc_gone h' = nc_gone h.
Proof using Type.
  induction nets as [|net nets IH]; intros h Hl Hn; cbv zeta.
  - cbn in *. by destruct (nc_queue h ++ nc_waiting h); [|cbn in Hn; lia].
  - change (chat_handle_run (map TakesRequest (net :: nets)) h)
      with (chat_handle_run (map TakesRequest nets) (chat_happens (TakesRequest net) h)). cbn [chat_happens].
    destruct (nc_running h) eqn:Er.
    + destruct (take_shortens net h Hl) as (Hlen & <- & <-). cbn [length] in Hn. apply IH; [by apply take_request_line | lia].
    + assert (forall k, chat_handle_run (map TakesRequest k) h = h) as ->; [|by rewrite Er].
      induction k as [|x k IHk]; [done|]. cbn [map chat_handle_run fold_left chat_happens]. by rewrite Er.
Qed.

Lemma returns_result h n : (n < nc_next h)%nat -> n ∉ nc_gone h -> (nc_running h = true -> nc_queue h ++ nc_waiting h = []) ->
  (nc_open h = false -> nc_queue h = [] /\ nc_waiting h = []) ->
  exists r, roundtrip_result n (chat_happens Returns h) = Some r.
Proof using Type.
  intros Hn Hg Hr Ho. set (h' := chat_happens Returns h).
  assert (nc_next h' = nc_next h /\ nc_gone h' = nc_gone h /\ nc_queue h' ++ nc_waiting h' = []) as (E1 & E2 & E3).
  { subst h'. unfold chat_happens. destruct (nc_open h) eqn:Eo; cbn [andb].
    - destruct (nc_running h) eqn:Er; cbn [negb]; [|done]. by rewrite Hr.
    - destruct (Ho eq_refl) as [-> ->]. done. }
  unfold roundtrip_result. rewrite E1, E2, E3, bool_decide_eq_false_2, bool_decide_eq_true_2 by done. cbn [orb negb].
  destruct (reply_of n (nc_log h')); [by eexists|]. rewrite bool_decide_eq_false_2 by apply not_elem_of_nil. by eexists.
Qed.
End Progress.

(** ** Properties *)

Section Properties.
Context {W : Type} {aead : Aead} {hex : Hex} {json : Json} {sha : Sha256} {schnorr : Schnorr} {bech : Bech32}.
Context {crypto : Nip44Crypto} {b64 : Base64} {url : UrlLib}.

(** C28: The chat behaves as one sequence of operations. Whatever calls, given-up calls, turns of
    the actor and deliveries interleave, the actor's state is the one of running its history
    in order; the history takes the calls in the order they were made, each at most once and
    with the request it was made with; a caller gets the reply of its own request in that
    history, or [Stopped] without its request having been carried out, and that only after
    the actor has returned; and the queue never holds more than its capacity. *)
Theorem chat_calls_linearized (a : Actor W) xs :
  let h := chat_handle_run xs (chat_spawn a) in
  nc_actor h = (if nc_open h then replay (nc_log h) a else set_pool None (replay (nc_log h) a)) /\
  map fst (handled (nc_log h)) `sublist_of` seq 0 (length (calls_of xs)) /\
  Forall (fun x => calls_of xs !! x.1 = Some x.2) (handled (nc_log h)) /\
  (forall n r, roundtrip_result n h = Some r ->
    (exists pre net q post, nc_log h = pre ++ Handled n net q r :: post /\ calls_of xs !! n = Some q /\
       r = (Chat.handle net q (replay pre a)).1) \/
    (r = Err CStopped /\ nc_open h = false /\ n ∉ map fst (handled (nc_log h)))) /\
  (length (nc_queue h) <= CHAT_QUEUE)%nat.
Proof using Type.
  intros h. destruct (spawned_run_ok a xs) as [[Hn Ho Ha Hb Hs Hr Hl _] _]. fold h in Hn, Ho, Ha, Hb, Hs, Hr, Hl.
  unfold in_order in *. rewrite map_app in Ho. apply Forall_app in Ha as [Ha Ha']. split_and!; [done | | done | | done].
  - rewrite <- Hn. etrans; [|exact Ho]. apply sublist_inserts_r. reflexivity.
  - intros n r. unfold roundtrip_result. case_bool_decide; [done|]. case_bool_decide as Hlt; [|done]. cbn [orb negb].
    destruct (reply_of n (nc_log h)) as [r'|] eqn:E.
    + intros [= <-]. left. apply reply_of_some in E as (pre & net & q & post & E). exists pre, net, q, post. split_and!; [done| |].
      * rewrite E, handled_app in Ha. apply Forall_app in Ha as [_ Ha]. by apply Forall_cons in Ha as [Ha _].
      * rewrite E in Hr. by eapply replies_right_at.
    + case_bool_decide as Hin; [done|]. intros [= <-]. right. apply reply_of_none in E. split_and!; try done.
      destruct (nc_open h); [|done]. destruct (Hl n Hlt) as [|Hin2]; [done|].
      rewrite map_app, elem_of_app in Hin2. by destruct Hin2.
Qed.

(** Nothing is done after the shutdown of the chat: once a caller of [shutdown] is released,
    the actor has left its loop, and no call, delivery or turn adds to what it did or changes
    its state, its store included; only its connections are still to be dropped. *)
Theorem chat_shutdown_final (a : Actor W) xs n r more :
  let h := chat_handle_run xs (chat_spawn a) in
  let h' := chat_handle_run (xs ++ more) (chat_spawn a) in
  calls_of xs !! n = Some ChatShutdown -> roundtrip_result n h = Some r ->
  nc_running h = false /\ nc_running h' = false /\ nc_log h' = nc_log h /\
  set_pool None (nc_actor h') = set_pool None (nc_actor h).
Proof using Type.
  intros h h' Hc Hres. destruct (spawned_run_ok a xs) as [[Hn Ho Ha Hb Hs Hr Hl Hop] Hquiet].
  fold h in Hn, Ho, Ha, Hb, Hs, Hr, Hl, Hop, Hquiet.
  assert (nc_running h = false) as Hrun.
  { apply not_true_iff_false. intros Hrun. unfold roundtrip_result in Hres. case_bool_decide; [done|]. case_bool_decide as Hlt; [|done].
    cbn [orb negb] in Hres. unfold chat_quiet in Hquiet. specialize (Hquiet Hrun). unfold in_order in *.
    destruct (reply_of n (nc_log h)) as [r'|] eqn:E.
    - apply reply_of_some in E as (pre & net & q & post & E). apply Forall_app in Ha as [Ha _]. rewrite E, handled_app in *.
      apply Forall_app in Ha as [_ [Ha _]%Forall_cons]. apply Forall_app in Hquiet as [_ [Hq _]%Forall_cons]. cbn in *.
      rewrite Hc in Ha. by injection Ha as <-.
    - apply reply_of_none in E. rewrite (Hop Hrun) in Hl. destruct (Hl n Hlt) as [|Hin]; [done|].
      rewrite map_app, elem_of_app in Hin. destruct Hin as [|Hin]; [done|]. by rewrite bool_decide_eq_true_2 in Hres. }
  split; [done|]. subst h'. rewrite chat_handle_run_app. by apply left_stays.
Qed.

(** Every caller is answered: once the actor has taken as many requests as there are calls in
    its queue and in line, and has returned if it left its loop on the way, each caller that
    still waits has its result. *)
Theorem chat_callers_answered (a : Actor W) xs nets :
  let h := chat_handle_run xs (chat_spawn a) in
  (length (nc_queue h ++ nc_waiting h) <= length nets)%nat ->
  forall n, (n < length (calls_of xs))%nat -> n ∉ nc_gone h ->
  exists r, roundtrip_result n (chat_handle_run (map TakesRequest nets ++ [Returns]) h) = Some r.
Proof using Type.
  intros h Hlen n Hn Hgone. destruct (spawned_run_ok a xs) as [H1 _]. fold h in H1.
  assert (line_ok h) as Hline by (by apply chat_handle_run_line).
  destruct (takes_drain nets h Hline Hlen) as (Hq & Hnext & Hg).
  destruct (spawned_run_ok a (xs ++ map TakesRequest nets)) as [[_ _ _ _ _ _ Hl _] _].
  rewrite chat_handle_run_app in Hl. fold h in Hl. rewrite chat_handle_run_app. set (h' := chat_handle_run _ h) in *.
  apply returns_result; [by rewrite Hnext, (ch_next _ _ _ H1) | by rewrite Hg | done |]. intros E. by rewrite E in Hl.
Qed.
End Properties.

(** ** Witnesses *)

(** Two calls, the second a shutdown; a third arrives too late. *)
Definition sample_calls : list ChatHappening :=
  [Asks Messages; Asks ChatShutdown; TakesRequest no_network; TakesRequest no_network].

Lemma chat_shutdown_final_witness :
  nc_running (chat_handle_run sample_calls (chat_spawn sample_chat)) = false /\
  set_pool None (nc_actor (chat_handle_run (sample_calls ++ [Asks Prepare; TakesRequest no_network]) (chat_spawn sample_chat))) =
    set_pool None (nc_actor (chat_handle_run sample_calls (chat_spawn sample_chat))).
Proof.
  destruct (chat_shutdown_final sample_chat sample_calls 1 (Ok JNull) [Asks Prepare; TakesRequest no_network]) as (H1 & _ & _ & H2);
    [reflexivity | vm_compute; reflexivity | split; [exact H1 | exact H2]].
Defined.

Lemma chat_callers_answered_witness :
  exists r, roundtrip_result 1 (chat_handle_run (map TakesRequest [no_network; no_network] ++ [Returns])
    (chat_handle_run [Asks Messages; Asks ListContacts; RelaysDeliver []] (chat_spawn sample_chat))) = Some r.
Proof.
  apply (chat_callers_answered sample_chat [Asks Messages; Asks ListContacts; RelaysDeliver []] [no_network; no_network]);
    [vm_compute; lia | vm_compute; lia | intros H; vm_compute in H; by apply not_elem_of_nil in H].
Defined.
