(* ===== verification/DaemonRun.v ===== *)
(** * The daemon's process ([run] of [omachatd/src/main.rs])

    From the bound socket to the exit: the socket server, the task that reloads on SIGHUP,
    the one that waits for a termination signal, the one that waits for the end of a panic
    erasure, and the main task, which stops the rest in order. *)

From Stdlib Require Import Strings.Byte Ascii String.
From S2P Require Import Prelude RustStd Libs Serde Concrete Account Keys Store Confirmation Daemon HostedClient Chat Core Lifecycle IpcServer CommandLine.
Local Open Scope Z_scope.

(** Where the main task is: serving, after [server.run], waiting in [prepare_for_shutdown]
    for an erasure, and after the return of [run]. *)
Inductive Stage :=
| Serving
| Leaving (server_result : result IpcServerError unit)
| AwaitingErasure (server_result : result IpcServerError unit)
| Exited (server_result : result IpcServerError unit).

Record Process {W : Type} := {
  pr_core : Core W;
  pr_reloads : bool;      (* a configuration file was given, so SIGHUP is handled *)
  pr_shutdown : bool;     (* the value of the shutdown channel *)
  pr_stage : Stage
}.
Arguments Process : clear implicits.

Inductive DaemonInput :=
| DCore (i : CoreInput)                (* clients, relays, the hosted transport, the cleanup *)
| DHangup (file : option bytes)        (* SIGHUP, with the configuration file as it is then *)
| DTerminate                           (* SIGINT or SIGTERM *)
| DPanicTask                           (* the task that waits for the end of an erasure runs *)
| DServer (accept_fails : bool)        (* the server's loop runs *)
| DMain.                               (* the main task runs *)

Section Process.
Context {W : Type} {aead : Aead} {hex : Hex} {json : Json} {sha : Sha256} {schnorr : Schnorr} {bech : Bech32}.
Context {crypto : Nip44Crypto} {b64 : Base64} {url : UrlLib} {ed : Ed25519} {api : SecretApi W}.
Context (dir : string).

Definition with_core (c : Core W) (p : Process W) : Process W :=
  {| pr_core := c; pr_reloads := pr_reloads p; pr_shutdown := pr_shutdown p; pr_stage := pr_stage p |}.
Definition with_shutdown (p : Process W) : Process W :=
  {| pr_core := pr_core p; pr_reloads := pr_reloads p; pr_shutdown := true; pr_stage := pr_stage p |}.
Definition with_stage (s : Stage) (p : Process W) : Process W :=
  {| pr_core := pr_core p; pr_reloads := pr_reloads p; pr_shutdown := pr_shutdown p; pr_stage := s |}.

Definition is_serving (s : Stage) : bool := match s with Serving => true | _ => false end.
Definition has_exited (s : Stage) : bool := match s with Exited _ => true | _ => false end.

(** The hosted service is shut down, if there is one, and [run] returns. *)
Definition leave (r : result IpcServerError unit) (p : Process W) : Process W :=
  with_stage (Exited r) (with_core (core_step dir (InHostedState HStopped) (pr_core p)) p).

(** The signal and reload tasks live as long as the server; a process that has exited does
    nothing. *)
Definition daemon_step (i : DaemonInput) (p : Process W) : Process W :=
  if has_exited (pr_stage p) then p else
  match i with
  | DCore i =>
      match i with
      | InReload _ | InStop => p
      | i => with_core (core_step dir i (pr_core p)) p
      end
  | DHangup file =>
      if is_serving (pr_stage p) && pr_reloads p then with_core (core_step dir (InReload file) (pr_core p)) p else p
  | DTerminate => if is_serving (pr_stage p) then with_shutdown p else p
  | DPanicTask =>
      match wait_for_terminal (co_panic (pr_core p)) with
      | Some _ => with_shutdown p
      | None => p
      end
  | DServer accept_fails =>
      if is_serving (pr_stage p) then
        if pr_shutdown p then with_stage (Leaving (Ok tt)) p
        else if accept_fails then with_stage (Leaving (Err ISIo)) p
        else p
      else p
  | DMain =>
      match pr_stage p with
      | Leaving r =>
          match prepare_for_shutdown (pr_core p) with
          | (Some _, c) => leave r (with_core c p)
          | (None, c) => with_stage (AwaitingErasure r) (with_core c p)
          end
      | AwaitingErasure r =>
          match wait_for_terminal (co_panic (pr_core p)) with
          | Some _ => leave r p
          | None => p
          end
      | _ => p
      end
  end.
Definition daemon_run (inputs : list DaemonInput) (p : Process W) : Process W := fold_left (fun p i => daemon_step i p) inputs p.

(** The process once its socket is bound. *)
Definition daemon_process (o : Options) (c : Core W) : Process W := {|
  pr_core := c; pr_reloads := match o_config o with Some _ => true | None => false end; pr_shutdown := false; pr_stage := Serving |}.

(** ** Facts *)

Lemma daemon_run_app i1 i2 p : daemon_run (i1 ++ i2) p = daemon_run i2 (daemon_run i1 p).
Proof using Type. apply fold_left_app. Qed.

(** A step is none or one of the core, and the exit needs an ended or refused erasure. *)
Record process_ok (p : Process W) : Prop := {
  po_core : core_ok (pr_core p);
  po_exited : has_exited (pr_stage p) = true ->
    pl_state (co_panic (pr_core p)) = Stopping \/ is_terminal (pl_state (co_panic (pr_core p))) = true
}.

Lemma hosted_state_panic s (c : Core W) : co_panic (core_step dir (InHostedState s) c) = co_panic c.
Proof using Type. cbn. by destruct (co_hosted c). Qed.

Lemma prepare_step (c : Core W) : core_ok c -> core_ok (prepare_for_shutdown c).2.
Proof using All. intros H. exact (core_step_ok dir InStop c H). Qed.

Lemma prepared (c c' : Core W) s : prepare_for_shutdown c = (Some s, c') ->
  pl_state (co_panic c') = Stopping \/ is_terminal (pl_state (co_panic c')) = true.
Proof using Type.
  unfold prepare_for_shutdown, begin_process_shutdown, wait_for_terminal.
  destruct (pl_state (co_panic c)) eqn:E; rewrite ?E; cbn; intros H; simplify_eq/=; rewrite ?E; auto.
Qed.

Lemma leave_ok r p : core_ok (pr_core p) ->
  pl_state (co_panic (pr_core p)) = Stopping \/ is_terminal (pl_state (co_panic (pr_core p))) = true -> process_ok (leave r p).
Proof using Type.
  intros Hc Hs. split; cbn [leave pr_core pr_stage with_stage with_core]; [by apply core_step_ok|].
  intros _. by rewrite hosted_state_panic.
Qed.

Lemma daemon_step_ok i p : process_ok p -> process_ok (daemon_step i p).
Proof using Type.
  intros Hp. unfold daemon_step. destruct (has_exited (pr_stage p)) eqn:Ex; [done|]. destruct Hp as [H1 H2].
  assert (forall q, core_ok (pr_core q) -> has_exited (pr_stage q) = false -> process_ok q) as Hgoes
    by (intros q Hq Hs; split; [exact Hq | by rewrite Hs]).
  assert (forall i, process_ok (with_core (core_step dir i (pr_core p)) p)) as Hcore
    by (intros i0; apply Hgoes; [by apply core_step_ok | exact Ex]).
  destruct i as [i|file| | |fails|].
  - destruct i; auto.
  - destruct (_ && _); auto.
  - destruct (is_serving _); auto.
  - destruct (wait_for_terminal _); auto.
  - destruct (is_serving _); [|auto]. destruct (pr_shutdown p); [auto|]. destruct fails; auto.
  - destruct (pr_stage p) as [|r|r|r] eqn:Es; try (apply Hgoes; [exact H1 | by rewrite Es]).
    + pose proof (prepare_step (pr_core p) H1) as Hp. destruct (prepare_for_shutdown (pr_core p)) as [[s|] c] eqn:E; cbn [snd] in Hp.
      * apply leave_ok; [exact Hp|]. by eapply prepared.
      * by apply Hgoes.
    + unfold wait_for_terminal. destruct (is_terminal _) eqn:Et; [apply leave_ok; [exact H1 | by right]|].
      apply Hgoes; [exact H1 | by rewrite Es].
Qed.

Lemma daemon_run_ok inputs p : process_ok p -> process_ok (daemon_run inputs p).
Proof using Type. revert p. induction inputs as [|i inputs IH]; intros p H; [done|]. by apply IH, daemon_step_ok. Qed.

(** Steps of the core alone, while the process serves. *)
Lemma daemon_core_steps (inputs : list CoreInput) : forall p,
  has_exited (pr_stage p) = false -> Forall (fun i => match i with InReload _ | InStop => False | _ => True end) inputs ->
  daemon_run (map DCore inputs) p = with_core (core_run dir inputs (pr_core p)) p.
Proof using Type.
  induction inputs as [|i inputs IH]; intros p Hs Hi; [by destruct p|]. apply Forall_cons in Hi as [Hi Hall].
  cbn [map daemon_run fold_left core_run]. unfold daemon_step at 2. rewrite Hs.
  assert (match i with InReload _ | InStop => p | i => with_core (core_step dir i (pr_core p)) p end =
          with_core (core_step dir i (pr_core p)) p) as -> by (by destruct i).
  fold (daemon_run (map DCore inputs) (with_core (core_step dir i (pr_core p)) p)). by rewrite IH.
Qed.
End Process.

(** ** Properties *)

Section Properties.
Context {W : Type} {aead : Aead} {hex : Hex} {json : Json} {sha : Sha256} {schnorr : Schnorr} {bech : Bech32}.
Context {crypto : Nip44Crypto} {b64 : Base64} {url : UrlLib} {ed : Ed25519} {api : SecretApi W}.
Context (dir : string).

Lemma opened_process config f o (w : World W) c0 opts inputs :
  core_open config f o w = Ok c0 -> process_ok (daemon_run dir inputs (daemon_process opts c0)).
Proof using Type. intros (Hok & _)%core_open_ok. apply daemon_run_ok. by split. Qed.

(** C21: A termination signal does not cut an erasure short: however signals, reloads, clients,
    relays, failures of the socket and the tasks of the daemon interleave, the process has
    exited only when no erasure is running, and none can start any more; if one had
    completed, everything is wiped. *)
Theorem exit_waits_for_erasure config f o (w : World W) c0 opts inputs r :
  core_open config f o w = Ok c0 ->
  let p := daemon_run dir inputs (daemon_process opts c0) in
  pr_stage p = Exited r ->
  co_cleanup (pr_core p) = None /\ is_active (pr_core p) = false /\
  (pl_state (co_panic (pr_core p)) = CleanupComplete -> wiped (pr_core p)) /\
  forall more, daemon_run dir more p = p.
Proof using Type.
  intros H p Hs. pose proof (opened_process config f o w c0 opts inputs H) as [[Hc _ _ _ _ Hw] Hex]. fold p in Hc, Hw, Hex.
  rewrite Hs in Hex. specialize (Hex eq_refl). split_and!.
  - destruct (co_cleanup (pr_core p)) eqn:E; [|done]. destruct Hc as [_ Hc]. rewrite Hc in Hex by done. by destruct Hex.
  - apply not_true_iff_false. rewrite is_active_spec. intros E. rewrite E in Hex. by destruct Hex.
  - exact Hw.
  - assert (forall more q, has_exited (pr_stage q) = true -> daemon_run dir more q = q) as Hstay.
    { induction more as [|i more IH]; intros q Hq; [done|]. cbn. unfold daemon_step at 2. rewrite Hq. by apply IH. }
    intros more. apply Hstay. by rewrite Hs.
Qed.

(** An erasure ends the process: wherever the main task is when one is running, once the
    operations in flight and the cleanup have run, one turn of each task brings the process
    to its exit with the erasure in a terminal state. *)
Theorem erasure_ends_process config f o (w : World W) c0 opts inputs o' :
  core_open config f o w = Ok c0 ->
  let p := daemon_run dir inputs (daemon_process opts c0) in
  pl_state (co_panic (pr_core p)) = Erasing -> has_exited (pr_stage p) = false ->
  let p' := daemon_run dir (map DCore (to_the_end o' (pr_core p)) ++ [DPanicTask; DServer false; DMain]) p in
  has_exited (pr_stage p') = true /\ is_terminal (pl_state (co_panic (pr_core p'))) = true.
Proof using Type.
  intros H p Hs Hx. cbv zeta. pose proof (opened_process config f o w c0 opts inputs H) as [Hc _]. fold p in Hc.
  rewrite daemon_run_app, daemon_core_steps; [|exact Hx|].
  2: { unfold to_the_end. apply Forall_app. split; apply Forall_replicate; done. }
  destruct (cleanup_reaches_end dir o' (pr_core p) Hc Hs) as [Ht _]. cbv zeta in Ht. set (c := core_run dir _ (pr_core p)) in *.
  destruct p as [core reloads shutdown stage]. cbn [with_core pr_reloads pr_shutdown pr_stage] in *. clearbody c.
  assert (forall s, co_panic (core_step dir (InHostedState s) c) = co_panic c) as Hh by (intros; apply hosted_state_panic).
  assert (prepare_for_shutdown c = (Some (pl_state (co_panic c)), c)) as Hprep.
  { unfold prepare_for_shutdown, begin_process_shutdown. destruct (pl_state (co_panic c)) eqn:E; try done; rewrite E; by destruct c. }
  assert (wait_for_terminal (co_panic c) = Some (pl_state (co_panic c))) as Hwait by (unfold wait_for_terminal; by rewrite Ht).
  assert (forall r q, pr_core q = c -> pr_stage q = Leaving r \/ pr_stage q = AwaitingErasure r ->
    has_exited (pr_stage (daemon_step dir DMain q)) = true /\
    is_terminal (pl_state (co_panic (pr_core (daemon_step dir DMain q)))) = true) as Hmain.
  { intros r q Eq Hst. unfold daemon_step. destruct Hst as [-> | ->]; cbn [has_exited]; rewrite Eq, ?Hprep, ?Hwait;
      unfold leave; cbn [with_stage with_core pr_stage pr_core]; rewrite ?Eq, Hh; done. }
  assert (forall q, has_exited (pr_stage q) = false -> pr_core q = c -> daemon_step dir DPanicTask q = with_shutdown q) as Hpanic
    by (intros q Hq Eq; unfold daemon_step; by rewrite Hq, Eq, Hwait).
  cbn [daemon_run fold_left]. rewrite Hpanic by done. destruct stage as [|r|r|r]; [| | |done];
    (eapply Hmain; [reflexivity|]); [left; reflexivity | left; reflexivity | right; reflexivity].
Qed.
End Properties.

(** ** Witnesses *)

#[local] Existing Instance no_secrets.

Definition plain_options : Options := {| o_config := None; o_state := "s"; o_socket := "d/omachat.sock"; o_file_key := false |}.

Lemma opened_ok : exists c0, opened = Ok c0.
Proof.
  destruct opened as [c0|] eqn:E; [by exists c0|].
  exfalso. assert (is_ok opened = true) as H by (vm_compute; reflexivity). rewrite E in H. discriminate H.
Qed.

(** A termination signal while an erasure runs: the main task waits for it. *)
Definition interrupted_inputs : list DaemonInput :=
  map DCore panic_inputs ++ [DTerminate; DServer false; DMain; DMain].

Lemma erasure_ends_process_witness :
  exists c0, opened = Ok c0 /\
    let p := daemon_run "d" interrupted_inputs (daemon_process plain_options c0) in
    (exists r, pr_stage p = AwaitingErasure r) /\
    has_exited (pr_stage (daemon_run "d" (map DCore (to_the_end sample_oracle (pr_core p)) ++ [DPanicTask; DServer false; DMain]) p)) = true.
Proof.
  destruct opened_ok as [c0 E]. exists c0. split; [exact E|]. cbv zeta.
  assert (match opened with
          | Ok c => let p := daemon_run "d" interrupted_inputs (daemon_process plain_options c) in
              match pr_stage p with AwaitingErasure _ => True | _ => False end /\ pl_state (co_panic (pr_core p)) = Erasing
          | Err _ => False
          end) as H by (vm_compute; split; [exact I | reflexivity]).
  rewrite E in H. cbv zeta in H. destruct H as [Hst Hs]. set (p := daemon_run "d" interrupted_inputs (daemon_process plain_options c0)) in *.
  destruct (pr_stage p) as [| |r|] eqn:Es; try contradiction Hst. split; [exists r; reflexivity|].
  pose proof E as E'. unfold opened in E'.
  refine (proj1 (erasure_ends_process "d" file_config sample_confirmations sample_oracle daemon_world c0 plain_options
    interrupted_inputs sample_oracle E' Hs _)).
  change (has_exited (pr_stage p) = false). rewrite Es. reflexivity.
Defined.

Lemma exit_waits_for_erasure_witness :
  exists c0, opened = Ok c0 /\
    let p := daemon_run "d" [DTerminate; DServer false; DMain] (daemon_process plain_options c0) in
    is_active (pr_core p) = false /\ forall more, daemon_run "d" more p = p.
Proof.
  destruct opened_ok as [c0 E]. exists c0. split; [exact E|]. cbv zeta.
  assert (match opened with
          | Ok c => pr_stage (daemon_run "d" [DTerminate; DServer false; DMain] (daemon_process plain_options c)) = Exited (Ok tt)
          | Err _ => False
          end) as H by (vm_compute; reflexivity).
  rewrite E in H. pose proof E as E'. unfold opened in E'.
  destruct (exit_waits_for_erasure "d" file_config sample_confirmations sample_oracle daemon_world c0 plain_options
    [DTerminate; DServer false; DMain] (Ok tt) E' H) as (_ & Ha & _ & Hm). split; [exact Ha | exact Hm].
Defined.
