(* ===== verification/Tui.v ===== *)
(** * The terminal interface ([omachat-tui/src/lib.rs], [main.rs])

    The model behind the screen: conversations filled from the daemon's snapshot and
    events, the line the user types, the commands it becomes, and what is drawn. The
    terminal itself and ratatui's layout are parameters. *)

From Stdlib Require Import Strings.Byte Ascii String.
From S2P Require Import Prelude RustStd BTree Libs Serde Concrete ValueMap Ipc Daemon IpcServer Ctl.
Local Open Scope Z_scope.

(** ** [char]s to [String] *)

(** A Unicode scalar value *)
Definition is_scalar (c : Z) : bool := in_range 0 55295 c || in_range 57344 1114111 c.

Definition encode_char (c : Z) : bytes :=
  if c <? 128 then [byte_of_Z c]
  else if c <? 2048 then [byte_of_Z (192 + c / 64); byte_of_Z (128 + c mod 64)]
  else if c <? 65536 then [byte_of_Z (224 + c / 4096); byte_of_Z (128 + c / 64 mod 64); byte_of_Z (128 + c mod 64)]
  else [byte_of_Z (240 + c / 262144); byte_of_Z (128 + c / 4096 mod 64); byte_of_Z (128 + c / 64 mod 64); byte_of_Z (128 + c mod 64)].
(** [collect::<String>()] *)
Definition collect_chars (cs : list Z) : string := of_bytes (concat (map encode_char cs)).

(** [Value::index] by a name: [Null] where there is none *)
Definition value_index (v : Value) (k : string) : Value := default JNull (value_get k v).
Definition as_array (v : Value) : option (list Value) := match v with JArray l => Some l | _ => None end.
Definition index_str (v : Value) (k : string) : option string := de_string (value_index v k).

(** ** The model *)

Definition NARROW_WIDTH : Z := 40.
Definition MAX_ROW_MESSAGES : Z := 128.
Definition MAX_INPUT_BYTES : Z := 4096.

Record MessageRow := { mr_id : string; mr_sender : string; mr_text : string; mr_outgoing : bool; mr_delivery : string }.
Record ContactRow := { cr_peer : string; cr_title : string; cr_messages : list MessageRow }.
Inductive Action := ACommand (c : Command) | ASelect (peer : string) | AHelp | AQuit.

Record UiModel := {
  ui_contacts : list ContactRow;
  ui_selected : nat;
  ui_npub : string;
  ui_relays : list string;
  ui_input : string;
  ui_status : string;
  ui_connected : bool;
  ui_scroll : nat
}.
Definition UiModel_default : UiModel := {|
  ui_contacts := []; ui_selected := 0; ui_npub := ""; ui_relays := []; ui_input := ""; ui_status := "connecting | /help";
  ui_connected := false; ui_scroll := 0 |}.

Definition set_contacts (cs : list ContactRow) (m : UiModel) : UiModel := {|
  ui_contacts := cs; ui_selected := ui_selected m; ui_npub := ui_npub m; ui_relays := ui_relays m; ui_input := ui_input m;
  ui_status := ui_status m; ui_connected := ui_connected m; ui_scroll := ui_scroll m |}.
Definition set_selected (i scroll : nat) (m : UiModel) : UiModel := {|
  ui_contacts := ui_contacts m; ui_selected := i; ui_npub := ui_npub m; ui_relays := ui_relays m; ui_input := ui_input m;
  ui_status := ui_status m; ui_connected := ui_connected m; ui_scroll := scroll |}.
Definition set_npub (n : option string) (m : UiModel) : UiModel := {|
  ui_contacts := ui_contacts m; ui_selected := ui_selected m; ui_npub := default (ui_npub m) n; ui_relays := ui_relays m;
  ui_input := ui_input m; ui_status := ui_status m; ui_connected := ui_connected m; ui_scroll := ui_scroll m |}.
Definition set_ui_relays (rs : list string) (m : UiModel) : UiModel := {|
  ui_contacts := ui_contacts m; ui_selected := ui_selected m; ui_npub := ui_npub m; ui_relays := rs; ui_input := ui_input m;
  ui_status := ui_status m; ui_connected := ui_connected m; ui_scroll := ui_scroll m |}.
Definition set_input (i : string) (m : UiModel) : UiModel := {|
  ui_contacts := ui_contacts m; ui_selected := ui_selected m; ui_npub := ui_npub m; ui_relays := ui_relays m; ui_input := i;
  ui_status := ui_status m; ui_connected := ui_connected m; ui_scroll := ui_scroll m |}.
Definition set_status (s : string) (connected : bool) (m : UiModel) : UiModel := {|
  ui_contacts := ui_contacts m; ui_selected := ui_selected m; ui_npub := ui_npub m; ui_relays := ui_relays m; ui_input := ui_input m;
  ui_status := s; ui_connected := connected; ui_scroll := ui_scroll m |}.

(** [clean]: control characters but the newline become spaces, and 4096 characters are kept. *)
Definition clean_char (c : Z) : Z := if is_control c && negb (c =? 10) then 32 else c.
Definition clean (text : string) : string := collect_chars (take 4096 (map clean_char (chars text))).

(** [Iterator::position] *)
Fixpoint position {A} (p : A -> bool) (l : list A) : option nat :=
  match l with
  | [] => None
  | x :: l => if p x then Some O else S <$> position p l
  end.

(** [ensure_contact]: the index of the conversation *)
Definition ensure_contact (id title : string) (m : UiModel) : nat * UiModel :=
  match position (fun c => String.eqb (cr_peer c) id) (ui_contacts m) with
  | Some i =>
      (i, if negb (slen title =? 0) && negb (starts_with "dm:" title)
          then set_contacts (alter (fun c => {| cr_peer := cr_peer c; cr_title := clean title; cr_messages := cr_messages c |}) i
                 (ui_contacts m)) m
          else m)
  | None =>
      (length (ui_contacts m),
       set_contacts (ui_contacts m ++ [{| cr_peer := id; cr_title := clean title; cr_messages := [] |}]) m)
  end.

Definition new_row (id : string) (payload : Value) : MessageRow := {|
  mr_id := id;
  mr_sender := clean (default "peer"%string (index_str payload "sender"));
  mr_text := clean (default ""%string (index_str payload "text"));
  mr_outgoing := default false (de_bool (value_index payload "outgoing"));
  mr_delivery := default "received"%string (index_str payload "delivery") |}.

(** The messages of a conversation after [payload] about message [id] *)
Definition apply_row (id : string) (payload : Value) (rows : list MessageRow) : list MessageRow :=
  match position (fun r => String.eqb (mr_id r) id) rows with
  | Some i =>
      match index_str payload "delivery" with
      | Some delivery => alter (fun r => {| mr_id := mr_id r; mr_sender := mr_sender r; mr_text := mr_text r;
                                            mr_outgoing := mr_outgoing r; mr_delivery := delivery |}) i rows
      | None => rows
      end
  | None => (if zlen rows =? MAX_ROW_MESSAGES then tail rows else rows) ++ [new_row id payload]
  end.

Definition apply_message (payload : Value) (m : UiModel) : UiModel :=
  match index_str payload "id", index_str payload "conversation" with
  | Some id, Some conversation =>
      let '(i, m) := ensure_contact conversation conversation m in
      set_contacts (alter (fun c => {| cr_peer := cr_peer c; cr_title := cr_title c;
                                       cr_messages := apply_row id payload (cr_messages c) |}) i (ui_contacts m)) m
  | _, _ => m
  end.

Definition string_list (v : Value) : list string := default [] (option_map (omap de_string) (as_array v)).

Definition apply_contact (contact : Value) (m : UiModel) : UiModel :=
  match index_str contact "pubkey" with
  | None => m
  | Some pubkey =>
      let title := match index_str contact "display" with
                   | Some t => t
                   | None => default pubkey (index_str contact "npub")
                   end in
      (ensure_contact ("dm:" +:+ pubkey) title m).2
  end.

Definition apply_snapshot (snapshot : Value) (m : UiModel) : UiModel :=
  let m := set_npub (index_str (value_index snapshot "identity") "npub") m in
  let m := set_ui_relays (string_list (value_index snapshot "relays")) m in
  let m := fold_left (fun m v => apply_message v m) (default [] (as_array (value_index snapshot "messages"))) m in
  let m := fold_left (fun m v => apply_contact v m) (default [] (as_array (value_index snapshot "contacts"))) m in
  set_status "connected | Tab: contacts | /help" true m.

Definition apply_event (e : IpcEvent) (m : UiModel) : UiModel :=
  match ev_topic e with
  | TMessages | TDelivery => apply_message (ev_payload e) m
  | TConversations =>
      match index_str (ev_payload e) "conversation" with
      | Some id => (ensure_contact id (default id (index_str (ev_payload e) "name")) m).2
      | None => m
      end
  | TStatus => set_npub (index_str (value_index (ev_payload e) "nostr") "npub") m
  | TPresence => m
  end.

Definition select_next (reverse : bool) (m : UiModel) : UiModel :=
  match ui_contacts m with
  | [] => m
  | _ =>
      let n := length (ui_contacts m) in
      set_selected (if reverse then match ui_selected m with O => n - 1 | S i => i end
                    else (ui_selected m + 1) mod n)%nat 0 m
  end.
Definition selected_peer (m : UiModel) : option string := cr_peer <$> ui_contacts m !! ui_selected m.

(** ** The line the user types *)

(** [split_whitespace] *)
Fixpoint split_whitespace (fuel : nat) (word l : bytes) : list bytes :=
  let close rest := match word with [] => rest | _ => word :: rest end in
  match l, fuel with
  | b :: t, S fuel =>
      match ws_len l with
      | O => split_whitespace fuel (word ++ [b]) t
      | n => close (split_whitespace fuel [] (drop n l))
      end
  | _, _ => close []
  end.

(** [trim_start_matches("dm:")] *)
Fixpoint trim_dm (fuel : nat) (s : string) : string :=
  match strip_prefix "dm:" s, fuel with
  | Some t, S fuel => trim_dm fuel t
  | _, _ => s
  end.

(** The commands, by their name and the words after it *)
Definition parse_command (command : string) (rest : list string) : option Action :=
  let named name := String.eqb command name in
  match rest with
  | [] =>
      if named "help" then Some AHelp
      else if named "quit" || named "detach" then Some AQuit
      else if named "npub" then Some (ACommand IdentityShow)
      else if named "prepare" then Some (ACommand ChatPrepare)
      else if named "contacts" then Some (ACommand ContactsList)
      else if named "relays" then Some (ACommand RelaysShow)
      else None
  | word :: words =>
      let says name := String.eqb word name in
      if named "relays" && says "set" then match words with [] => None | _ => Some (ACommand (RelaysSet words)) end
      else match words with
      | [] =>
          if named "handle" && says "bind" then Some (ACommand HostedBindNostr)
          else if named "handle" && says "unbind" then Some (ACommand HostedUnbindNostr)
          else if named "open" then Some (ASelect word)
          else if named "panic" then Some (ACommand (Panic word))
          else None
      | [x] =>
          if named "contact" && says "add" then Some (ACommand (ContactsAdd x))
          else if named "contact" && says "remove" then Some (ACommand (ContactsRemove x))
          else if named "handle" && says "claim" then Some (ACommand (HostedClaimHandle x))
          else None
      | _ => None
      end
  end%string.

Definition parse_input (input : string) (peer : option string) : result string (option Action) :=
  let input := of_bytes (trim (as_bytes input)) in
  if slen input =? 0 then Ok None else
  match strip_prefix "/" input with
  | Some arguments =>
      let parts := map of_bytes (split_whitespace (S (String.length arguments)) [] (as_bytes arguments)) in
      match parse_command (default ""%string (head parts)) (tail parts) with
      | Some action => Ok (Some action)
      | None => Err "unknown command; /help lists them"%string
      end
  | None =>
      match peer with
      | None => Err "add a contact with /contact add npub1... or name@domain"%string
      | Some peer => Ok (Some (ACommand (Send (trim_dm (String.length peer) peer) input)))
      end
  end.

Definition HELP : string :=
  "/npub /prepare /contact add PEER /contact remove NPUB /contacts /open PEER /relays /relays set URL... /handle claim NAME /handle bind /handle unbind /panic ERASE /quit".

(** ** The program ([main.rs]) *)

Definition FALLBACK_WIDTH : Z := 80.
Definition FALLBACK_HEIGHT : Z := 24.

(** [summarize] *)
Definition summarize `{Json} (res : Value) : string :=
  match index_str res "npub" with
  | Some npub => "npub " +:+ npub
  | None =>
      match index_str (value_index res "message") "text" with
      | Some text => "accepted by relay: " +:+ text
      | None =>
          match as_array (value_index res "contacts") with
          | Some l => show (zlen l) +:+ " contacts"
          | None => value_to_string res
          end
      end
  end.

(** [str::ends_with] *)
Definition ends_with (suffix s : string) : bool :=
  let n := String.length suffix in
  (n <=? String.length s)%nat && String.eqb (String.substring (String.length s - n) n s) suffix.

Definition matches_peer (peer : string) (c : ContactRow) : bool :=
  String.eqb (cr_peer c) peer || String.eqb (cr_title c) peer || ends_with peer (cr_peer c).

(** What the attached program keeps: the connection, the receiver of its events once the
    client is gone, and the model. *)
Record Attached := { at_client : option CtlClient; at_events : option (list IpcEvent); at_model : UiModel }.

Definition with_model (m : UiModel) (a : Attached) : Attached :=
  {| at_client := at_client a; at_events := at_events a; at_model := m |}.
Definition lose_client (c : CtlClient) (a : Attached) : Attached :=
  {| at_client := None; at_events := Some (cc_events c); at_model := at_model a |}.

(** Opening the socket *)
Class Dialer (S : Type) := { dial : S -> result ClientError unit * S }.

Section Program.
Context {json : Json} {S : Type} {peer : Peer S} {dialer : Dialer S}.
Context (files : S -> string -> TokenFile).

(** The draft is cleared when the line was accepted. *)
Definition settle_input (accepted : bool) (line : string) (m : UiModel) : UiModel :=
  if accepted && String.eqb (ui_input m) line then set_input "" m else m.

(** The answer to a command *)
Definition apply_result (res : Value) (m : UiModel) : UiModel :=
  let m := set_npub (index_str res "npub") m in
  let m := match as_array (value_index res "relays") with
           | Some l => set_ui_relays (omap de_string l) m
           | None => m
           end in
  set_status (summarize res) (ui_connected m) m.

(** [handle_line]: [false] ends the program. *)
Definition handle_line (line : string) (a : Attached) (s : S) : bool * (Attached * S) :=
  let m := at_model a in
  let say text m := set_status text (ui_connected m) m in
  match parse_input line (selected_peer m) with
  | Ok (Some AQuit) => (false, (a, s))
  | Ok (Some AHelp) => (true, (with_model (settle_input true line (say HELP m)) a, s))
  | Ok (Some (ASelect peer)) =>
      match position (matches_peer peer) (ui_contacts m) with
      | Some i =>
          let title := default ""%string (cr_title <$> ui_contacts m !! i) in
          (true, (with_model (settle_input true line (say ("selected " +:+ title) (set_selected i (ui_scroll m) m))) a, s))
      | None => (true, (with_model (settle_input false line (say "no matching contact" m)) a, s))
      end
  | Ok (Some (ACommand command)) =>
      match at_client a with
      | None => (true, (with_model (say "disconnected; waiting to reconnect" m) a, s))
      | Some client =>
          match request_with_confirmation files command (client, s) with
          | (Ok response, (client, s)) =>
              let a := {| at_client := Some client; at_events := at_events a; at_model := m |} in
              match rs_outcome response with
              | OkOutcome res => (true, (with_model (settle_input true line (apply_result res m)) a, s))
              | ErrorOutcome e => (true, (with_model (settle_input false line (say (eb_message e) m)) a, s))
              end
          | (Err e, (client, s)) =>
              (true, (with_model (settle_input false line (set_status ("request failed: " +:+ client_error_display e) false m))
                        (lose_client client a), s))
          end
      end
  | Ok None => (true, (with_model (settle_input false line m) a, s))
  | Err error => (true, (with_model (settle_input false line (say error m)) a, s))
  end.

(** [connect]: the client with its snapshot *)
Definition connect (s : S) : result ClientError (CtlClient * Value) * S :=
  match dial s with
  | (Err e, s) => (Err e, s)
  | (Ok _, s) =>
      match ctl_connect s with
      | (Err e, s) => (Err e, s)
      | (Ok client, s) =>
          match subscribe [TStatus; TConversations; TMessages; TDelivery] (client, s) with
          | (Ok snapshot, (client, s)) => (Ok (client, snapshot), s)
          | (Err e, (_, s)) => (Err e, s)
          end
      end
  end.

(** The retry branch, when its time has come *)
Definition retry (a : Attached) (s : S) : Attached * S :=
  match at_client a with
  | Some _ => (a, s)
  | None =>
      match connect s with
      | (Ok (client, snapshot), s) =>
          let m := apply_snapshot snapshot (at_model a) in
          let '(r, (client, s)) := request ChatPrepare (client, s) in
          let m := match r with
                   | Ok {| rs_outcome := OkOutcome res |} =>
                       match index_str res "npub" with
                       | Some npub => set_status ("npub " +:+ npub +:+ " | /help") (ui_connected m) (set_npub (Some npub) m)
                       | None => m
                       end
                   | _ => m
                   end in
          ({| at_client := Some client; at_events := None; at_model := m |}, s)
      | (Err e, s) =>
          (with_model (set_status ("reconnecting: " +:+ client_error_display e) (ui_connected (at_model a)) (at_model a)) a, s)
      end
  end.

(** The daemon-event branch, enabled while there is a receiver: an event, or the end once
    the reader has ended and the queue is empty. *)
Definition daemon_event (a : Attached) : Attached :=
  let gone := {| at_client := None; at_events := None;
                 at_model := set_status "disconnected; reconnecting" false (at_model a) |} in
  match at_client a, at_events a with
  | Some client, _ =>
      match cc_events client with
      | e :: es => {| at_client := Some (set_events es false client); at_events := at_events a;
                      at_model := apply_event e (at_model a) |}
      | [] => if cc_reading client then a else gone
      end
  | None, Some (e :: es) => {| at_client := None; at_events := Some es; at_model := apply_event e (at_model a) |}
  | None, Some [] => gone
  | None, None => a
  end.

Inductive Key := KChar (bytes : string) (control : bool) | KTab | KBackTab | KBackspace | KEnter | KOther.
Inductive UiInput :=
| URetry
| UDaemon
| UArrived (b : bytes) (ending : option ClientError)
| UKey (k : Key)
| ULine (line : string)
| UClosed.

(** [String::pop]: the continuation bytes at the end go with the first byte of their character. *)
Fixpoint drop_cont (rev_bytes : bytes) : bytes :=
  match rev_bytes with
  | [] => []
  | b :: l => if is_cont b then drop_cont l else l
  end.
Definition pop_char (s : string) : string := of_bytes (reverse (drop_cont (reverse (as_bytes s)))).

(** One turn of the loop of [attached]; what the daemon sends unasked is read by the
    client's task as it arrives. *)
Definition attached_step (i : UiInput) (a : Attached) (s : S) : bool * (Attached * S) :=
  let m := at_model a in
  match i with
  | URetry => (true, retry a s)
  | UDaemon => (true, (daemon_event a, s))
  | UArrived b ending =>
      match at_client a with
      | Some c => (true, ({| at_client := Some (read_end ending (read_bytes (cc_unread c ++ b) c)); at_events := at_events a;
                             at_model := m |}, s))
      | None => (true, (a, s))
      end
  | ULine line => handle_line line a s
  | UClosed => (false, (a, s))
  | UKey k =>
      match k with
      | KChar c true => (negb (String.eqb c "c" || String.eqb c "d"), (a, s))
      | KChar c false =>
          (true, (if slen (ui_input m) + slen c <=? MAX_INPUT_BYTES then with_model (set_input (ui_input m +:+ c) m) a else a, s))
      | KTab => (true, (with_model (select_next false m) a, s))
      | KBackTab => (true, (with_model (select_next true m) a, s))
      | KBackspace => (true, (with_model (set_input (pop_char (ui_input m)) m) a, s))
      | KEnter => handle_line (ui_input m) a s
      | KOther => (true, (a, s))
      end
  end.

Fixpoint attached_loop (inputs : list UiInput) (a : Attached) (s : S) : bool * (Attached * S) :=
  match inputs with
  | [] => (true, (a, s))
  | i :: inputs =>
      match attached_step i a s with
      | (true, (a, s)) => attached_loop inputs a s
      | stop => stop
      end
  end.
End Program.

(** ** Drawing *)

Record Rect := { rx : Z; ry : Z; rwidth : Z; rheight : Z }.
Definition u16_sat (a b : Z) : Z := saturating_add u16_max a b.
(** [Rect::bottom] *)
Definition bottom (r : Rect) : Z := u16_sat (ry r) (rheight r).

Inductive Style := STitle | SPlain | SBar | SInput.
(** One [set_stringn] *)
Record Draw := { dr_x : Z; dr_y : Z; dr_text : string; dr_width : Z; dr_style : Style }.

Definition row (area : Rect) (y : Z) : Rect :=
  if (rheight area =? 0) || (y <? ry area) || (bottom area <=? y)
  then {| rx := rx area; ry := ry area; rwidth := rwidth area; rheight := 0 |}
  else {| rx := rx area; ry := y; rwidth := rwidth area; rheight := 1 |}.

(** [write]; an empty area has no width or no height. *)
Definition write (area : Rect) (text : string) (style : Style) : list Draw :=
  if (rwidth area =? 0) || (rheight area =? 0) then []
  else [{| dr_x := rx area; dr_y := ry area; dr_text := clean text; dr_width := rwidth area; dr_style := style |}].

Definition sender_label (sender : string) : string :=
  let cs := chars sender in
  collect_chars (take 16 cs ++ (if (16 <? length cs)%nat then [8230] else [])).

Section Render.
(** [Layout::horizontal([Length(28), Fill(1)]).split(area)] *)
Context (split_columns : Rect -> Rect * Rect).

Definition contact_lines (column : Rect) (m : UiModel) : list Draw :=
  concat (imap (fun i c => write (row column (u16_sat (u16_sat (ry column) 5) (Z.of_nat i mod 65536)))
                             ((if (i =? ui_selected m)%nat then ">" else " ") +:+ " " +:+ cr_title c) SPlain)
            (ui_contacts m)).

Definition message_line (r : MessageRow) : string :=
  if mr_outgoing r then "you: " +:+ mr_text r +:+ " " +:+ mr_delivery r
  else sender_label (mr_sender r) +:+ ": " +:+ mr_text r.

Definition message_lines (column : Rect) (m : UiModel) : list Draw :=
  let messages := default [] (cr_messages <$> ui_contacts m !! ui_selected m) in
  let visible := Z.to_nat (saturating_sub (rheight column) 3) in
  let start := (length messages - (visible + ui_scroll m))%nat in
  concat (imap (fun i r => write (row column (u16_sat (u16_sat (ry column) 1) (Z.of_nat i mod 65536))) (message_line r) SPlain)
            (take visible (drop start messages))).

Definition render (m : UiModel) (area : Rect) : list Draw :=
  if (rwidth area <? NARROW_WIDTH) || (rheight area <? 8) then
    write (row area (ry area)) "OmaChat" STitle ++
    write (row area (u16_sat (ry area) 1)) (ui_npub m) SPlain ++
    write (row area (saturating_sub (bottom area) 1)) (ui_status m) SBar
  else
    let '(contacts, messages) := split_columns area in
    write (row contacts (ry contacts)) "OmaChat" STitle ++
    write (row contacts (u16_sat (ry contacts) 1)) "npub" STitle ++
    write (row contacts (u16_sat (ry contacts) 2)) (ui_npub m) SPlain ++
    write (row contacts (u16_sat (ry contacts) 4)) "contacts" STitle ++
    contact_lines contacts m ++
    write (row messages (ry messages)) (default "no contact selected"%string (cr_title <$> ui_contacts m !! ui_selected m)) STitle ++
    message_lines messages m ++
    write (row area (saturating_sub (bottom area) 2)) (ui_status m) SBar ++
    write (row area (saturating_sub (bottom area) 1)) ("> " +:+ ui_input m) SInput.
End Render.

(** ** Characters *)

Lemma byte_val_small z : 0 <= z < 256 -> byte_val (byte_of_Z z) = z.
Proof. intros Hz. rewrite byte_val_of_Z. by apply Z.mod_small. Qed.

Lemma leb_true a b : a <= b -> (a <=? b) = true.
Proof. apply Z.leb_le. Qed.
Lemma leb_false a b : b < a -> (a <=? b) = false.
Proof. apply Z.leb_gt. Qed.
(** Decide every comparison in the goal. *)
Ltac settle_comparisons :=
  repeat match goal with
         | |- context [?a <=? ?b] => first [rewrite (leb_true a b) by lia | rewrite (leb_false a b) by lia]
         | |- context [?a <? ?b] => first [rewrite (proj2 (Z.ltb_lt a b)) by lia | rewrite (proj2 (Z.ltb_ge a b)) by lia]
         end; cbn [andb orb negb].

Lemma decode_encode_char c l : is_scalar c = true -> utf8_decode (encode_char c ++ l) = cons c <$> utf8_decode l.
Proof.
  intros Hc. unfold is_scalar, in_range in Hc. unfold encode_char.
  assert (0 <= c <= 1114111 /\ ~ (55296 <= c <= 57343)) as [Hr Hs] by (split_bools; lia). clear Hc.
  destruct (Z.ltb_spec c 128); [|destruct (Z.ltb_spec c 2048); [|destruct (Z.ltb_spec c 65536)]]; cbn [app utf8_decode];
    unfold is_cont, cont_bits, in_range.
  - rewrite byte_val_small by lia. by settle_comparisons.
  - assert (c = c / 64 * 64 + c mod 64 /\ 0 <= c mod 64 < 64) as [Ec Hd] by (Z.to_euclidean_division_equations; lia).
    rewrite !byte_val_small by lia. settle_comparisons. do 2 f_equal. lia.
  - assert (c = c / 4096 * 4096 + c / 64 mod 64 * 64 + c mod 64 /\ 0 <= c mod 64 < 64 /\ 0 <= c / 64 mod 64 < 64) as (Ec & Hd & Hb)
      by (Z.to_euclidean_division_equations; lia).
    rewrite !byte_val_small by lia. settle_comparisons.
    destruct (Z.eqb_spec (224 + c / 4096) 224), (Z.eqb_spec (224 + c / 4096) 237); settle_comparisons; do 2 f_equal; lia.
  - assert (c = c / 262144 * 262144 + c / 4096 mod 64 * 4096 + c / 64 mod 64 * 64 + c mod 64 /\ 0 <= c mod 64 < 64 /\
      0 <= c / 64 mod 64 < 64 /\ 0 <= c / 4096 mod 64 < 64) as (Ec & Hd & Hb & Ha)
      by (Z.to_euclidean_division_equations; lia).
    rewrite !byte_val_small by lia. settle_comparisons.
    destruct (Z.eqb_spec (240 + c / 262144) 240), (Z.eqb_spec (240 + c / 262144) 244); settle_comparisons; do 2 f_equal; lia.
Qed.

Lemma chars_collect cs : forallb is_scalar cs = true -> chars (collect_chars cs) = cs /\ utf8_valid (collect_chars cs) = true.
Proof.
  intros Hc. unfold chars, utf8_valid, collect_chars. rewrite as_bytes_of_bytes.
  assert (utf8_decode (concat (map encode_char cs)) = Some cs) as ->; [|done].
  induction cs as [|c cs IH]; [done|]. cbn [map concat forallb] in *. apply andb_true_iff in Hc as [Hc Hcs].
  by rewrite decode_encode_char, IH.
Qed.

Lemma decode_scalar n : forall l cs, (length l <= n)%nat -> utf8_decode l = Some cs -> forallb is_scalar cs = true.
Proof.
  assert (forall c l cs, is_scalar c = true -> (forall cs', utf8_decode l = Some cs' -> forallb is_scalar cs' = true) ->
    cons c <$> utf8_decode l = Some cs -> forallb is_scalar cs = true) as Hcons.
  { intros c l cs Hc IH. destruct (utf8_decode l) as [cs'|]; [|done]. intros [= <-]. cbn. by rewrite Hc, IH. }
  induction n as [|n IH]; intros [|b0 l] cs Hn; cbn [length] in Hn; try lia; cbn [utf8_decode]; try by intros [= <-].
  pose proof (byte_val_range b0) as H0. destruct (Z.ltb_spec (byte_val b0) 128).
  { apply Hcons; [unfold is_scalar, in_range; settle_comparisons; done|]. intros cs'. apply IH. lia. }
  destruct (in_range 194 223 (byte_val b0)) eqn:E2.
  { destruct l as [|b1 l]; [done|]. destruct (is_cont b1) eqn:E1; [|done]. cbn [length] in Hn.
    unfold is_cont, cont_bits, in_range in *. split_bools.
    apply Hcons; [unfold is_scalar, in_range; settle_comparisons; done|]. intros cs'. apply IH. lia. }
  destruct (in_range 224 239 (byte_val b0)) eqn:E3.
  { destruct l as [|b1 [|b2 l]]; [done|done|]. cbn [length] in Hn.
    destruct (in_range _ _ (byte_val b1) && _) eqn:E1; [|done]. apply andb_true_iff in E1 as [E1 E4].
    unfold is_cont, cont_bits, in_range in *.
    apply Hcons; [|intros cs'; apply IH; lia]. unfold is_scalar, in_range.
    destruct (Z.eqb_spec (byte_val b0) 224), (Z.eqb_spec (byte_val b0) 237); split_bools;
      first [lia | by settle_comparisons]. }
  destruct (in_range 240 244 (byte_val b0)) eqn:E5; [|done].
  destruct l as [|b1 [|b2 [|b3 l]]]; [done|done|done|]. cbn [length] in Hn.
  destruct (in_range _ _ (byte_val b1) && _ && _) eqn:E1; [|done]. apply andb_true_iff in E1 as [E1 E7]. apply andb_true_iff in E1 as [E1 E6].
  unfold is_cont, cont_bits, in_range in *.
  apply Hcons; [|intros cs'; apply IH; lia]. unfold is_scalar, in_range.
  destruct (Z.eqb_spec (byte_val b0) 240), (Z.eqb_spec (byte_val b0) 244); split_bools; first [lia | by settle_comparisons].
Qed.

Lemma chars_scalar s : forallb is_scalar (chars s) = true.
Proof.
  unfold chars. destruct (utf8_decode (as_bytes s)) as [cs|] eqn:E; [|done]. cbn. by eapply decode_scalar.
Qed.

(** ** What may be shown *)

(** No control character but newlines, and a bounded length *)
Definition shown (s : string) : Prop :=
  Forall (fun c => is_control c = true -> c = 10) (chars s) /\ (length (chars s) <= 4096)%nat /\ utf8_valid s = true.

Lemma clean_chars t : chars (clean t) = take 4096 (map clean_char (chars t)) /\ utf8_valid (clean t) = true.
Proof.
  unfold clean. apply chars_collect. apply forallb_forall. intros c Hc.
  assert (c ∈ map clean_char (chars t)) as Hin by (apply list_elem_of_In in Hc; by apply elem_of_take in Hc as (i & Hc & _); apply list_elem_of_lookup_2 in Hc).
  apply list_elem_of_fmap in Hin as (x & -> & Hx). unfold clean_char. destruct (_ && _); [done|].
  pose proof (chars_scalar t) as Hs. rewrite forallb_forall in Hs. by apply Hs, list_elem_of_In.
Qed.

Lemma clean_shown t : shown (clean t).
Proof.
  destruct (clean_chars t) as [E Hu]. unfold shown. rewrite E. split; [|split; [rewrite length_take; lia|done]].
  apply Forall_take, Forall_fmap, Forall_forall. intros c _. cbn. unfold clean_char.
  destruct (is_control c) eqn:Ec; cbn [andb]; [|by rewrite Ec]. by destruct (Z.eqb_spec c 10).
Qed.

(** ** The invariant of the model *)

Definition row_fine (r : MessageRow) : Prop := shown (mr_sender r) /\ shown (mr_text r).
Record contact_fine (c : ContactRow) : Prop := {
  cf_title : shown (cr_title c);
  cf_rows : Forall row_fine (cr_messages c);
  cf_ids : NoDup (map mr_id (cr_messages c));
  cf_length : zlen (cr_messages c) <= MAX_ROW_MESSAGES
}.
Record ui_ok (m : UiModel) : Prop := {
  uo_peers : NoDup (map cr_peer (ui_contacts m));
  uo_contacts : Forall contact_fine (ui_contacts m);
  uo_selected : ui_selected m = O \/ (ui_selected m < length (ui_contacts m))%nat;
  uo_input : slen (ui_input m) <= MAX_INPUT_BYTES
}.

Lemma position_some {A} (p : A -> bool) l i : position p l = Some i -> exists x, l !! i = Some x /\ p x = true.
Proof.
  revert i. induction l as [|x l IH]; intros i; cbn [position]; [done|]. destruct (p x) eqn:E.
  - intros [= <-]. by exists x.
  - destruct (position p l) as [j|]; [|done]. intros [= <-]. apply (IH j). done.
Qed.
Lemma position_none {A} (p : A -> bool) l x : position p l = None -> x ∈ l -> p x = false.
Proof.
  induction l as [|y l IH]; cbn [position]; intros Hp Hx; [by apply elem_of_nil in Hx|].
  destruct (p y) eqn:E; [done|]. destruct (position p l) eqn:Ep; [done|].
  apply elem_of_cons in Hx as [->|Hx]; [done | by apply IH].
Qed.

Lemma map_alter_same {A B} (f : A -> B) (g : A -> A) i l : (forall x, f (g x) = f x) -> map f (alter g i l) = map f l.
Proof. intros Hg. revert i. induction l as [|x l IH]; intros [|i]; cbn; [done|done|by rewrite Hg|]. f_equal. apply IH. Qed.

Lemma ensure_contact_ok id title m i m' :
  ui_ok m -> ensure_contact id title m = (i, m') ->
  ui_ok m' /\ exists c, ui_contacts m' !! i = Some c /\ cr_peer c = id.
Proof.
  intros [H1 H2 H3 H4]. unfold ensure_contact. destruct (position _ (ui_contacts m)) as [j|] eqn:Ej.
  - apply position_some in Ej as (c & Hc & Ep). apply String.eqb_eq in Ep. destruct (_ && _); intros [= <- <-].
    + split.
      * split; cbn.
        -- by rewrite map_alter_same.
        -- apply Forall_alter; [done|]. intros x _ []. split; try done. apply clean_shown.
        -- by rewrite length_alter.
        -- done.
      * cbn. rewrite list_lookup_alter_eq, Hc. cbn. eexists. split; [done|]. done.
    + split; [by split|]. by exists c.
  - intros [= <- <-]. split.
    + split; cbn.
      * rewrite map_app. apply NoDup_app. split; [done|]. split; [|apply NoDup_singleton].
        intros x Hx Hid. apply list_elem_of_singleton in Hid as ->. apply list_elem_of_fmap in Hx as (c & Hc & Hin).
        apply (position_none _ _ _ Ej) in Hin. cbn in Hin. rewrite <- Hc, String.eqb_refl in Hin. done.
      * apply Forall_app. split; [done|]. apply Forall_singleton. split; cbn [cr_title cr_messages]; [apply clean_shown|constructor|constructor|done].
      * rewrite length_app. cbn. lia.
      * done.
    + cbn. eexists. split; [by apply list_lookup_middle|done].
Qed.

Lemma apply_row_ok id payload rows :
  Forall row_fine rows -> NoDup (map mr_id rows) -> zlen rows <= MAX_ROW_MESSAGES ->
  Forall row_fine (apply_row id payload rows) /\ NoDup (map mr_id (apply_row id payload rows)) /\
  zlen (apply_row id payload rows) <= MAX_ROW_MESSAGES.
Proof.
  intros Hf Hn Hl. unfold apply_row. destruct (position _ rows) as [i|] eqn:Ei.
  - destruct (index_str payload "delivery"); [|done]. split_and!.
    + apply Forall_alter; [done|]. by intros x _ [].
    + by rewrite map_alter_same.
    + unfold zlen in *. by rewrite length_alter.
  - assert (row_fine (new_row id payload)) as Hnew by (split; apply clean_shown).
    assert (forall kept, kept = rows \/ kept = tail rows -> zlen kept + 1 <= MAX_ROW_MESSAGES ->
      Forall row_fine (kept ++ [new_row id payload]) /\ NoDup (map mr_id (kept ++ [new_row id payload])) /\
      zlen (kept ++ [new_row id payload]) <= MAX_ROW_MESSAGES) as Hk.
    { intros kept Hkept Hlen. assert (kept ⊆ rows) as Hsub by (destruct Hkept as [->| ->]; [done|]; destruct rows; [done|]; by right).
      split_and!.
      - apply Forall_app. split; [|by apply Forall_singleton]. destruct Hkept as [->| ->]; [done|]. by apply Forall_tail.
      - rewrite map_app. apply NoDup_app. split; [destruct Hkept as [->| ->]; [done|]; by destruct rows; [|apply NoDup_cons in Hn as []]|].
        split; [|apply NoDup_singleton]. intros x Hx Hid. cbn in Hid. apply list_elem_of_singleton in Hid as ->.
        apply list_elem_of_fmap in Hx as (r & Hr & Hin). apply Hsub in Hin. apply (position_none _ _ _ Ei) in Hin.
        cbn in Hin. rewrite <- Hr, String.eqb_refl in Hin. done.
      - unfold zlen in *. rewrite length_app. cbn. lia. }
    destruct (Z.eqb_spec (zlen rows) MAX_ROW_MESSAGES) as [E|E].
    + apply Hk; [by right|]. unfold zlen in *. destruct rows; cbn [length tail] in *; [done|lia].
    + apply Hk; [by left|]. lia.
Qed.

Lemma apply_message_ok payload m : ui_ok m -> ui_ok (apply_message payload m).
Proof.
  intros Hok. unfold apply_message. destruct (index_str payload "id") as [id|]; [|done].
  destruct (index_str payload "conversation") as [conv|]; [|done].
  destruct (ensure_contact conv conv m) as [i m'] eqn:E. destruct (ensure_contact_ok _ _ _ _ _ Hok E) as [[H1 H2 H3 H4] _].
  split; cbn; [by rewrite map_alter_same| |by rewrite length_alter|done].
  apply Forall_alter; [done|]. intros x _ [F1 F2 F3 F4]. destruct (apply_row_ok id payload _ F2 F3 F4) as (G1 & G2 & G3).
  by split.
Qed.

Lemma ensure_contact_keeps id title m : ui_ok m -> ui_ok (ensure_contact id title m).2.
Proof. intros Hok. destruct (ensure_contact id title m) as [i m'] eqn:E. by apply (ensure_contact_ok _ _ _ _ _ Hok) in E as []. Qed.

(** The setters of the other fields *)
Lemma ui_ok_same m m' : ui_contacts m' = ui_contacts m -> ui_selected m' = ui_selected m -> ui_input m' = ui_input m ->
  ui_ok m -> ui_ok m'.
Proof. intros E1 E2 E3 []. split; by rewrite ?E1, ?E2, ?E3. Qed.
Lemma set_npub_ok n m : ui_ok m -> ui_ok (set_npub n m).
Proof. by apply ui_ok_same. Qed.
Lemma set_ui_relays_ok rs m : ui_ok m -> ui_ok (set_ui_relays rs m).
Proof. by apply ui_ok_same. Qed.
Lemma set_status_ok s b m : ui_ok m -> ui_ok (set_status s b m).
Proof. by apply ui_ok_same. Qed.
Lemma fold_ok {A} (f : UiModel -> A -> UiModel) l m : (forall m x, ui_ok m -> ui_ok (f m x)) -> ui_ok m -> ui_ok (fold_left f l m).
Proof. intros Hf. revert m. induction l; intros m Hm; [done|]. cbn. by apply IHl, Hf. Qed.
#[local] Hint Resolve set_npub_ok set_ui_relays_ok set_status_ok apply_message_ok ensure_contact_keeps : core.

Lemma apply_contact_ok v m : ui_ok m -> ui_ok (apply_contact v m).
Proof. unfold apply_contact. destruct (index_str v "pubkey"); auto. Qed.
Lemma apply_snapshot_ok v m : ui_ok m -> ui_ok (apply_snapshot v m).
Proof. intros Hok. unfold apply_snapshot. apply set_status_ok, fold_ok; [auto using apply_contact_ok|]. apply fold_ok; auto. Qed.
Lemma apply_event_ok e m : ui_ok m -> ui_ok (apply_event e m).
Proof. intros Hok. unfold apply_event. destruct (ev_topic e); auto. destruct (index_str _ _); auto. Qed.
Lemma select_next_ok reverse m : ui_ok m -> ui_ok (select_next reverse m).
Proof.
  intros [H1 H2 H3 H4]. unfold select_next. destruct (ui_contacts m) as [|c cs] eqn:E; [by split; rewrite ?E|].
  split; cbn [ui_contacts ui_selected ui_input set_selected]; rewrite ?E; try done. right. cbn [length] in *.
  destruct reverse; [destruct (ui_selected m); lia|]. apply Nat.mod_upper_bound. lia.
Qed.

(** ** The rows of a conversation *)

Definition rows_of (conv : string) (m : UiModel) : list MessageRow :=
  match List.find (fun c => String.eqb (cr_peer c) conv) (ui_contacts m) with Some c => cr_messages c | None => [] end.

Lemma find_alter (g : ContactRow -> ContactRow) i l c x :
  (forall d, cr_peer (g d) = cr_peer d) -> NoDup (map cr_peer l) -> l !! i = Some c ->
  List.find (fun d => String.eqb (cr_peer d) x) (alter g i l) =
  if String.eqb (cr_peer c) x then Some (g c) else List.find (fun d => String.eqb (cr_peer d) x) l.
Proof.
  intros Hg. revert i. induction l as [|d l IH]; intros [|i]; cbn [map]; intros Hn Hc; [done|done|..]; apply NoDup_cons in Hn as [Hd Hn].
  - injection Hc as ->. cbn. rewrite Hg. by destruct (String.eqb _ _).
  - change (alter g (S i) (d :: l)) with (d :: alter g i l). cbn [List.find]. rewrite (IH i) by done.
    destruct (String.eqb_spec (cr_peer d) x) as [E|]; [|done].
    destruct (String.eqb_spec (cr_peer c) x) as [E'|]; [|done]. exfalso. apply Hd. apply list_elem_of_fmap. exists c.
    split; [congruence | by eapply list_elem_of_lookup_2].
Qed.

Lemma find_app_new l c x :
  List.find (fun d => String.eqb (cr_peer d) x) (l ++ [c]) =
  match List.find (fun d => String.eqb (cr_peer d) x) l with
  | Some d => Some d
  | None => if String.eqb (cr_peer c) x then Some c else None
  end.
Proof. induction l as [|d l IH]; [done|]. cbn [app List.find]. destruct (String.eqb (cr_peer d) x); [done|apply IH]. Qed.

Lemma ensure_contact_rows id title m x : ui_ok m -> rows_of x (ensure_contact id title m).2 = rows_of x m.
Proof.
  intros [H1 _ _ _]. unfold ensure_contact, rows_of. destruct (position _ (ui_contacts m)) as [j|] eqn:Ej; cbn [snd].
  - destruct (_ && _); [|done]. apply position_some in Ej as (c & Hc & Ep). cbn [ui_contacts set_contacts].
    rewrite (find_alter _ _ _ c) by done. destruct (String.eqb_spec (cr_peer c) x) as [E|]; [|done].
    rewrite <- (list_alter_id (fun d => d) (ui_contacts m) j) by done. rewrite (find_alter (fun d => d) _ _ c) by done.
    by rewrite (proj2 (String.eqb_eq _ _) E).
  - cbn [ui_contacts set_contacts]. rewrite find_app_new. destruct (List.find _ (ui_contacts m)); [done|]. by destruct (String.eqb _ _).
Qed.

Lemma apply_message_rows payload id conv m x :
  ui_ok m -> index_str payload "id" = Some id -> index_str payload "conversation" = Some conv ->
  rows_of x (apply_message payload m) = if String.eqb conv x then apply_row id payload (rows_of x m) else rows_of x m.
Proof.
  intros Hok Hid Hconv. unfold apply_message. rewrite Hid, Hconv. pose proof (ensure_contact_rows conv conv m x Hok) as Hrows.
  destruct (ensure_contact conv conv m) as [i m'] eqn:E. cbn [snd] in Hrows.
  destruct (ensure_contact_ok _ _ _ _ _ Hok E) as [[H1 _ _ _] (c & Hc & <-)].
  rewrite <- Hrows. unfold rows_of. cbn [ui_contacts set_contacts]. rewrite (find_alter _ _ _ c) by done.
  destruct (String.eqb_spec (cr_peer c) x) as [E'|]; [|done]. cbn [cr_messages]. f_equal.
  rewrite <- (list_alter_id (fun d => d) (ui_contacts m') i) by done. rewrite (find_alter (fun d => d) _ _ c) by done.
  by rewrite (proj2 (String.eqb_eq _ _) E').
Qed.

Lemma ensure_contact_peers id title m p :
  p ∈ map cr_peer (ui_contacts m) \/ p = id -> p ∈ map cr_peer (ui_contacts (ensure_contact id title m).2).
Proof.
  intros Hp. unfold ensure_contact. destruct (position _ (ui_contacts m)) as [j|] eqn:Ej; cbn [snd].
  - assert (map cr_peer (ui_contacts (if negb (slen title =? 0) && negb (starts_with "dm:" title)
      then set_contacts (alter (fun c => {| cr_peer := cr_peer c; cr_title := clean title; cr_messages := cr_messages c |}) j
             (ui_contacts m)) m else m)) = map cr_peer (ui_contacts m)) as -> by (destruct (_ && _); [apply map_alter_same|]; done).
    destruct Hp as [Hp | ->]; [done|]. apply position_some in Ej as (c & Hc & <-%String.eqb_eq).
    apply list_elem_of_fmap. exists c. split; [done|]. by eapply list_elem_of_lookup_2.
  - cbn [ui_contacts set_contacts]. rewrite map_app. apply elem_of_app. destruct Hp as [Hp | ->]; [by left|]. right. cbn. by left.
Qed.

Section ProgramFacts.
Context {json : Json} {S : Type} {peer : Peer S} {dialer : Dialer S}.
Context (files : S -> string -> TokenFile).

Lemma settle_input_ok accepted line m : ui_ok m -> ui_ok (settle_input accepted line m).
Proof using Type. intros [H1 H2 H3 H4]. unfold settle_input. destruct (_ && _); by split. Qed.

Lemma apply_result_ok res m : ui_ok m -> ui_ok (apply_result res m).
Proof using Type. intros Hok. unfold apply_result. destruct (as_array _); auto. Qed.

Lemma handle_line_ok line a s : ui_ok (at_model a) -> ui_ok (at_model (handle_line files line a s).2.1).
Proof using Type.
  intros Hok. unfold handle_line. destruct (parse_input line _) as [[[cmd|p| |]|]|e]; cbn [fst snd at_model with_model];
    auto using settle_input_ok.
  - destruct (at_client a) as [client|]; [|by apply set_status_ok].
    destruct (request_with_confirmation files cmd (client, s)) as [[response|e] [client' s']]; [|by apply settle_input_ok, set_status_ok].
    destruct (rs_outcome response); cbn; auto using settle_input_ok, apply_result_ok.
  - destruct (position _ _) as [i|] eqn:Ei; cbn [fst snd at_model with_model]; [|by apply settle_input_ok, set_status_ok].
    apply settle_input_ok, set_status_ok. apply position_some in Ei as (c & Hc & _). apply lookup_lt_Some in Hc.
    destruct Hok. split; try done. by right.
Qed.

Lemma retry_ok a s : ui_ok (at_model a) -> ui_ok (at_model (retry a s).1).
Proof using Type.
  intros Hok. unfold retry. destruct (at_client a); [done|]. destruct (connect s) as [[[client snapshot]|e] s1]; [|by apply set_status_ok].
  destruct (request ChatPrepare (client, s1)) as [r [client' s2]]. cbn [fst at_model].
  pose proof (apply_snapshot_ok snapshot _ Hok) as H. destruct r as [[v i [res|e]]|]; try done. destruct (index_str res "npub"); auto.
Qed.

Lemma daemon_event_ok a : ui_ok (at_model a) -> ui_ok (at_model (daemon_event a)).
Proof using Type.
  intros Hok. unfold daemon_event. repeat (case_match; cbn [at_model]); auto using apply_event_ok.
Qed.

Lemma slen_reverse_drop l : zlen (reverse (drop_cont (reverse l))) <= zlen l.
Proof using Type.
  unfold zlen. rewrite length_reverse. rewrite <- (length_reverse l). generalize (reverse l) as r.
  induction r as [|b r IH]; cbn [drop_cont length]; [lia|]. destruct (is_cont b); lia.
Qed.

Lemma slen_app (a b : string) : slen (a +:+ b) = slen a + slen b.
Proof using Type. unfold slen. induction a as [|x a IH]; [done|]. cbn [String.length] in *. change (String x a +:+ b) with (String x (a +:+ b)). cbn [String.length]. lia. Qed.

Lemma attached_step_ok i a s : ui_ok (at_model a) -> ui_ok (at_model (attached_step files i a s).2.1).
Proof using Type.
  intros Hok. destruct i as [| |b e|k|line|]; cbn [attached_step snd fst]; auto using handle_line_ok, daemon_event_ok.
  - by apply retry_ok.
  - by destruct (at_client a).
  - destruct k as [c [] | | | | |]; cbn [snd fst at_model with_model]; auto using select_next_ok, handle_line_ok.
    + destruct (Z.leb_spec (slen (ui_input (at_model a)) + slen c) MAX_INPUT_BYTES); [|done]. destruct Hok. split; try done. cbn.
      rewrite slen_app. lia.
    + destruct Hok as [H1 H2 H3 H4]. split; try done. cbn. unfold pop_char. rewrite slen_of_bytes.
      pose proof (slen_reverse_drop (as_bytes (ui_input (at_model a)))) as Hle. rewrite zlen_as_bytes in Hle. lia.
Qed.
End ProgramFacts.

(** ** Properties *)

Section Properties.
Context {json : Json} {S : Type} {peer : Peer S} {dialer : Dialer S}.
Context (files : S -> string -> TokenFile).

(** C37: Whatever the daemon and the user do, the terminal's model stays well formed:
    conversations have distinct peers, each holds at most 128 messages with distinct ids,
    the selection points at a conversation, the draft stays within 4096 bytes, and no
    title, sender or text that is kept has a control character that could drive the
    terminal. *)
Theorem ui_invariant inputs s :
  ui_ok (at_model (attached_loop files inputs {| at_client := None; at_events := None; at_model := UiModel_default |} s).2.1).
Proof using Type.
  assert (forall inputs a s, ui_ok (at_model a) -> ui_ok (at_model (attached_loop files inputs a s).2.1)) as H.
  { induction inputs0 as [|i inputs0 IH]; intros a s0 Hok; [done|]. cbn [attached_loop].
    pose proof (attached_step_ok files i a s0 Hok) as Hstep. destruct (attached_step files i a s0) as [[] [a' s']]; [by apply IH|done]. }
  apply H. split; cbn; [constructor | constructor | by left | done].
Qed.

(** The line the user typed is not lost: after it has been handled the draft is as it
    was, or it was that line, is empty now, and the line did what it said: it was help, it
    selected a conversation, or the daemon answered its command with a result. *)
Theorem draft_kept line a s go a' s' :
  handle_line files line a s = (go, (a', s')) ->
  ui_input (at_model a') = ui_input (at_model a) \/
  ui_input (at_model a') = ""%string /\ ui_input (at_model a) = line /\
  match parse_input line (selected_peer (at_model a)) with
  | Ok (Some AHelp) => ui_status (at_model a') = HELP
  | Ok (Some (ASelect p)) => exists c, ui_contacts (at_model a') !! ui_selected (at_model a') = Some c /\ matches_peer p c = true
  | Ok (Some (ACommand command)) => exists client client' response res, at_client a = Some client /\
      request_with_confirmation files command (client, s) = (Ok response, (client', s')) /\ rs_outcome response = OkOutcome res
  | _ => False
  end.
Proof using Type.
  unfold handle_line. destruct (parse_input line _) as [[[cmd|p| |]|]|e]; try (by intros [= <- <- <-]; left).
  - destruct (at_client a) as [client|]; [|by intros [= <- <- <-]; left].
    destruct (request_with_confirmation files cmd (client, s)) as [[response|e] [client' s1]] eqn:Er; [|by intros [= <- <- <-]; left].
    destruct (rs_outcome response) as [res|e] eqn:Eo; intros [= <- <- <-]; [|by left].
    cbn [at_model with_model]. unfold settle_input.
    assert (ui_input (apply_result res (at_model a)) = ui_input (at_model a)) as Ei
      by (unfold apply_result; by destruct (as_array _)).
    rewrite Ei. cbn [andb]. destruct (String.eqb_spec (ui_input (at_model a)) line) as [E|]; [|by left].
    right. split; [done|]. split; [done|]. by exists client, client', response, res.
  - destruct (position _ _) as [i|] eqn:Ei; intros [= <- <- <-]; [|by left].
    cbn [at_model with_model]. unfold settle_input. cbn [ui_input set_status set_selected andb].
    destruct (String.eqb_spec (ui_input (at_model a)) line) as [E|]; [|by left]. right. split; [done|]. split; [done|].
    apply position_some in Ei as (c & Hc & Hp). by exists c.
  - intros [= <- <- <-]. cbn [at_model with_model]. unfold settle_input. cbn [ui_input set_status andb].
    destruct (String.eqb_spec (ui_input (at_model a)) line) as [E|]; [|by left]. by right.
Qed.
End Properties.

(** A rectangle within another *)
Definition rect_within (inner outer : Rect) : Prop :=
  rx outer <= rx inner /\ rx inner + rwidth inner <= rx outer + rwidth outer /\
  ry outer <= ry inner /\ bottom inner <= bottom outer /\ 0 <= rwidth inner /\ 0 <= rheight inner.
Definition drawn_within (area : Rect) (d : Draw) : Prop :=
  rx area <= dr_x d /\ dr_x d + dr_width d <= rx area + rwidth area /\ ry area <= dr_y d < bottom area /\ shown (dr_text d).

Lemma write_row_within inner area y text style :
  rect_within inner area -> Forall (drawn_within area) (write (row inner y) text style).
Proof.
  intros (H1 & H2 & H3 & H4 & H5 & H6). unfold write, row. destruct (rheight inner =? 0) eqn:E; cbn [orb].
  { cbn. rewrite orb_true_r. constructor. }
  destruct (Z.ltb_spec y (ry inner)); cbn [orb]; [cbn; rewrite orb_true_r; constructor|].
  destruct (Z.leb_spec (bottom inner) y); cbn [orb]; [cbn; rewrite orb_true_r; constructor|].
  cbn [rwidth rheight]. destruct (_ || _); [constructor|]. apply Forall_singleton. split; cbn; [lia|]. split; [lia|]. split; [lia|].
  apply clean_shown.
Qed.

Lemma concat_imap_within {A} area (f : nat -> A -> list Draw) (l : list A) :
  (forall i x, Forall (drawn_within area) (f i x)) -> Forall (drawn_within area) (concat (imap f l)).
Proof.
  revert f. induction l as [|x l IH]; intros f Hf; cbn; [constructor|]. apply Forall_app. split; [apply Hf|].
  apply IH. intros i y. apply Hf.
Qed.

(** C38: Everything is drawn inside the area the terminal gave, whatever its size and however
    long the lists are, and nothing drawn has a control character that could drive the
    terminal; the layout must only split the area into rectangles within it. *)
Theorem render_within split_columns m area :
  0 <= rwidth area -> 0 <= rheight area ->
  (rect_within (split_columns area).1 area /\ rect_within (split_columns area).2 area) ->
  Forall (drawn_within area) (render split_columns m area).
Proof.
  intros Hw Hh [Hl Hr]. assert (rect_within area area) as Ha by (unfold rect_within; lia). unfold render.
  destruct (_ || _); [|destruct (split_columns area) as [l r]; cbn [fst snd] in *]; rewrite ?Forall_app; split_and!;
    auto using write_row_within; apply concat_imap_within; intros; by apply write_row_within.
Qed.

(** ** Witnesses *)

(** Nobody answers. *)
#[local] Instance silent_peer : Peer unit := {| exchange _ s := (Ok ([], None), s) |}.

(** A user who types while disconnected keeps the draft, and loses it to a command that works. *)
Definition drafting (text : string) : Attached :=
  {| at_client := None; at_events := None; at_model := set_input text UiModel_default |}.

Lemma draft_kept_witness :
  ui_input (at_model (handle_line (fun _ _ => NotRegular) "/help" (drafting "/help") tt).2.1) = ""%string /\
  ui_status (at_model (handle_line (fun _ _ => NotRegular) "/help" (drafting "/help") tt).2.1) = HELP.
Proof.
  assert (handle_line (fun _ _ => NotRegular) "/help" (drafting "/help") tt =
    (true, ((handle_line (fun _ _ => NotRegular) "/help" (drafting "/help") tt).2.1, tt))) as E by (vm_compute; reflexivity).
  destruct (draft_kept (fun _ _ => NotRegular) "/help" (drafting "/help") tt true _ tt E) as [H|(H1 & _ & H3)].
  - vm_compute in H. discriminate H.
  - split; [exact H1|]. exact H3.
Defined.

(** A layout of two columns *)
Definition two_columns (area : Rect) : Rect * Rect :=
  ({| rx := rx area; ry := ry area; rwidth := 28; rheight := rheight area |},
   {| rx := rx area + 28; ry := ry area; rwidth := rwidth area - 28; rheight := rheight area |}).
Definition screen : Rect := {| rx := 0; ry := 0; rwidth := 80; rheight := 24 |}.

Lemma render_within_witness :
  length (render two_columns UiModel_default screen) = 7%nat /\
  Forall (drawn_within screen) (render two_columns UiModel_default screen).
Proof.
  split; [vm_compute; reflexivity|].
  apply (render_within two_columns UiModel_default screen); [discriminate | discriminate |].
  split; repeat split; discriminate.
Defined.
