(* ===== verification/Terminal.v ===== *)
(** * The terminal and the daemon

    The control client ([Ctl]), the socket server ([IpcServer]) and the daemon's core
    ([Core]) together: what [omachat-ctl panic --confirm ERASE] leads to, and what the
    terminal interface ([Tui]) shows of the daemon's messages. *)

From Stdlib Require Import Strings.Byte Ascii String.
From S2P Require Import Prelude RustStd BTree Libs Serde Concrete ValueMap Nip44 Event GiftWrap Keys Nip05 Confirmation Store Ipc Daemon IpcServer Chat Core Lifecycle Ctl Tui.
Local Open Scope Z_scope.

Section Terminal.
Context {W : Type} {aead : Aead} {hex : Hex} {json : Json} {sha : Sha256} {schnorr : Schnorr} {bech : Bech32}.
Context {crypto : Nip44Crypto} {b64 : Base64} {url : UrlLib} {ed : Ed25519} {api : SecretApi W}.
Context {json_laws : JsonLaws} {hex_laws : HexLaws}.
Context (dir : string) (displays : Displays).
#[local] Instance the_handler : RequestHandler (Core W) := core_handler dir displays.

(** The confirmation tokens where the daemon writes them *)
Definition token_files (d : Client * Core W) (path : string) : TokenFile :=
  if String.eqb path (dir +:+ "/" +:+ file_name PanicErase) then
    match Confirmation.files (co_confirmations d.2) !! file_name PanicErase with
    | Some token => Contents (as_bytes token)
    | None => OpenFails "No such file or directory (os error 2)"
    end
  else OpenFails "No such file or directory (os error 2)".

Definition tick (k : Core W) : Core W := set_actor (unix_time (co_actor k)).2 k.

(** The daemon mints a token. *)
Lemma confirmation_outcome now rest (k : Core W) i f :
  is_active k = true -> readings (world (co_actor k)) = Some now :: rest ->
  issue PanicErase now (co_confirmations k) = (Ok i, f) ->
  dispatch dir displays RequestPanicConfirmation k = (OkOutcome (confirmation_issue_value dir i), set_confirmations f (tick k)).
Proof using Type.
  intros Ha Hr Hi. unfold dispatch. rewrite Ha. cbn [negb dispatch_active]. unfold se_bind at 1.
  unfold unix_time_core, on_actor, se_zoom, se_map_err, unix_time. rewrite Hr. cbn [head default ok_or map_err fst snd].
  unfold se_bind. cbn [co_confirmations set_actor Datatypes.id ok_or map_err]. rewrite Hi. cbn [map_err fst snd se_ret outcome_of].
  unfold tick, unix_time. by rewrite Hr.
Qed.

(** The client reads it from the file. *)
Lemma token_read cl (k : Core W) i token :
  zlen token = 32 -> token_path i = file_name PanicErase ->
  Confirmation.files (co_confirmations k) !! file_name PanicErase = Some (hex_encode token) ->
  read_confirmation_token (token_files (cl, k)) (confirmation_issue_value dir i) = Ok (hex_encode token).
Proof using hex_laws.
  intros Hlen Hp Hf. unfold read_confirmation_token.
  change (get_str "token_path" (confirmation_issue_value dir i)) with (Some (dir +:+ "/" +:+ token_path i)).
  cbn [ok_or rbind]. rewrite Hp. unfold token_files. cbn [snd]. rewrite String.eqb_refl, Hf. cbn [rbind].
  pose proof (hex_encode_length token) as Hl. pose proof (hex_encode_lower token) as Hlow.
  rewrite firstn_all2 by (rewrite <- zlen_as_bytes in Hl; unfold zlen in *; lia).
  assert (forallb is_lower_hex_byte (as_bytes (hex_encode token)) = true) as Hb by exact Hlow.
  assert (forallb is_ascii_hexdigit (as_bytes (hex_encode token)) = true) as Hx.
  { apply (forallb_impl is_lower_hex_byte); [|done]. intros b. unfold is_lower_hex_byte, is_ascii_hexdigit, is_ascii_digit, in_range.
    intros H. by rewrite H. }
  assert (forallb (fun b => byte_val b <? 128) (as_bytes (hex_encode token)) = true) as Ha.
  { apply (forallb_impl is_lower_hex_byte); [|done]. intros b. unfold is_lower_hex_byte, is_ascii_digit, in_range. intros. split_bools; lia. }
  unfold from_utf8. rewrite utf8_decode_ascii by done. rewrite of_bytes_as_bytes. cbn [ok_or rbind].
  unfold CONFIRMATION_TOKEN_BYTES, bytes_all. rewrite Hx, Hl, Hlen. done.
Qed.

(** The daemon erases on the token it minted. *)
Lemma panic_begins token later rest (k : Core W) p :
  is_active k = true -> readings (world (co_actor k)) = Some later :: rest ->
  pending (co_confirmations k) !! file_name PanicErase = Some p -> p_action p = PanicErase -> p_token p = token ->
  later < p_expires_at p ->
  exists f, panic_begin token k =
    (Ok tt, set_panic {| pl_state := Erasing; pl_watch := pl_watch (co_panic k) |} (Some CleanChat) (set_confirmations f (tick k))).
Proof using Type.
  intros Ha Hr Hp Hact Ht Hl. apply is_active_spec in Ha.
  exists (redeem (or_removed (co_oracle k)) PanicErase token later (co_confirmations k)).2.
  unfold panic_begin, se_bind at 1, unix_time_core, on_actor, se_zoom, se_map_err, tick, unix_time. rewrite Hr.
  cbn [head default ok_or map_err fst snd Datatypes.id]. unfold se_bind. cbn [co_confirmations set_actor co_oracle].
  assert ((redeem (or_removed (co_oracle k)) PanicErase token later (co_confirmations k)).1 = Ok tt) as Hred.
  { unfold redeem, consume_pending_token. rewrite Hp. rewrite (proj2 (Z.leb_gt _ _)) by done. rewrite bool_decide_true by done.
    by rewrite Ht, String.eqb_refl. }
  rewrite Hred. cbn [map_err]. cbn [co_panic set_confirmations set_actor]. unfold begin. rewrite Ha. reflexivity.
Qed.

Lemma cleanup_in_three (k : Core W) : co_cleanup k = Some CleanChat -> co_inflight k = [] ->
  is_terminal (pl_state (co_panic (cleanup_step (cleanup_step (cleanup_step k).2).2).2)) = true.
Proof using Type.
  intros Hk Hi. set (k1 := (cleanup_step k).2). set (k2 := (cleanup_step k1).2).
  assert (co_cleanup k1 = Some CleanHosted /\ co_inflight k1 = []) as [K1 I1] by (unfold k1, cleanup_step; rewrite Hk; done).
  assert (co_cleanup k2 = Some CleanLocked /\ co_inflight k2 = []) as [K2 I2] by (unfold k2, cleanup_step; rewrite K1; done).
  unfold cleanup_step. rewrite K2, I2. unfold cleanup_locked. destruct (panic_erase _ _ _) as [r [st d]]. cbn. by destruct r.
Qed.

Lemma panic_outcome token later rest (k : Core W) p :
  core_ok k -> is_active k = true -> co_inflight k = [] -> readings (world (co_actor k)) = Some later :: rest ->
  pending (co_confirmations k) !! file_name PanicErase = Some p -> p_action p = PanicErase -> p_token p = token ->
  later < p_expires_at p ->
  let k' := (dispatch dir displays (Panic token) k).2 in core_ok k' /\ is_terminal (pl_state (co_panic k')) = true.
Proof using Type.
  intros Hok Ha Hi Hr Hp Hact Ht Hl. destruct (panic_begins token later rest k p) as [f Hb]; try done.
  pose proof (core_step_ok dir (InPanic token (co_oracle k)) k Hok) as Hok1. cbn [core_step] in Hok1. rewrite Ha in Hok1.
  replace (set_oracle (co_oracle k) k) with k in Hok1 by (by destruct k). rewrite Hb in Hok1. cbn [snd] in Hok1.
  unfold dispatch. rewrite Ha. cbn [negb]. unfold panic_erase_all, se_bind. rewrite Hb.
  set (k1 := set_panic _ _ _) in *.
  pose proof (cleanup_in_three k1 eq_refl) as Hterm. specialize (Hterm ltac:(exact Hi)).
  pose proof (cleanup_step_ok _ (cleanup_step_ok _ (cleanup_step_ok _ Hok1))) as Hok4.
  destruct (cleanup_step (cleanup_step (cleanup_step k1).2).2) as [[r|] k4]; cbn in *; done.
Qed.

(** Dropping a subscription leaves the lifecycle as it is. *)
Lemma drop_receiver_panic cl (k : Core W) : co_panic (drop_receiver cl k) = co_panic k.
Proof using Type. unfold drop_receiver. by destruct (cl_receiver cl). Qed.
Lemma drop_receiver_wiped cl (k : Core W) : wiped k -> wiped (drop_receiver cl k).
Proof using Type. intros [H1 H2 H3 H4 H5 H6 H7 H8]. unfold drop_receiver. destruct (cl_receiver cl); by split. Qed.

(** A panic typed at a terminal erases. When the daemon is active and nothing is in
    flight, the client asks for a token, reads the file the daemon names, presents what it
    read, and by the time the command returns the daemon's erasure has come to an end; if it
    ended well everything is wiped. Without the word ERASE nothing is sent at all. *)
Theorem panic_from_terminal c cl (k : Core W) now later rest i f token :
  idle c -> attached cl -> 0 <= cc_next_id c < u64_max -> utf8_valid (dir +:+ "/" +:+ file_name PanicErase) = true ->
  core_ok k -> is_active k = true -> co_inflight k = [] -> readings (world (co_actor k)) = Some now :: Some later :: rest ->
  issue PanicErase now (co_confirmations k) = (Ok i, f) -> Confirmation.files f !! file_name PanicErase = Some token ->
  0 <= now -> later < saturating_add u64_max now CONFIRMATION_TTL_SECONDS ->
  let ask := {| version := VERSION; id := show (cc_next_id c); command := RequestPanicConfirmation |} in
  is_ok (encode_line (request_value ask)) = true ->
  is_ok (encode_line (response_value {| rs_version := VERSION; rs_id := id ask;
           rs_outcome := OkOutcome (confirmation_issue_value dir i) |})) = true ->
  is_ok (encode_line (request_value {| version := VERSION; id := show (cc_next_id c + 1); command := Panic token |})) = true ->
  (forall word, word <> "ERASE"%string ->
     request_with_confirmation token_files (Panic word) (c, (cl, k)) =
       (Err (CtlConfirmationRefused "panic requires --confirm ERASE"), (c, (cl, k)))) /\
  let k' := (request_with_confirmation token_files (Panic "ERASE") (c, (cl, k))).2.2.2 in
  is_terminal (pl_state (co_panic k')) = true /\ (pl_state (co_panic k') = CleanupComplete -> wiped k').
Proof using json_laws hex_laws.
  intros Hi Hatt Hn Hdir Hok Ha Hfl Hr Hiss Htok Hnow Hlater ask Hf1 Hf2 Hf3. split.
  { intros word Hw. cbn [request_with_confirmation]. by rewrite (proj2 (String.eqb_neq _ _) Hw). }
  destruct (issue_inv _ _ _ _ _ Hiss) as (tk & Hlen & Hfile & Hexp & Hpend).
  rewrite Hfile in Htok. injection Htok as <-.
  assert (token_path i = file_name PanicErase) as Hpath by (unfold issue in Hiss; inv_ok; by injection Hiss as <- _).
  pose proof (confirmation_outcome now (Some later :: rest) k i f Ha Hr Hiss) as Hout.
  set (k1 := set_confirmations f (tick k)) in *.
  assert (request_outcome ask cl k = (OkOutcome (confirmation_issue_value dir i), (cl, k1))) as Ho.
  { unfold request_outcome. cbn [command ask]. destruct Hatt as [_ ->]. cbn [negb rh_handle the_handler core_handler command ask].
    by rewrite Hout. }
  assert (outcome_wf (OkOutcome (confirmation_issue_value dir i)) = true) as Hwf.
  { cbn [outcome_wf]. unfold value_wf, confirmation_issue_value. apply andb_true_intro. split; [|vm_compute; reflexivity].
    cbn [json_wf forallb fst snd]. rewrite Hpath, Hdir, Hexp. unfold saturating_add, CONFIRMATION_TTL_SECONDS. unfold_ints.
    rewrite !(proj2 (Z.leb_le _ _)) by lia. done. }
  pose proof (request_answered RequestPanicConfirmation c cl k _ _ _ Hi Hatt ltac:(lia) eq_refl ltac:(done) Ho Hwf) as Hans.
  cbv zeta in Hans. fold ask in Hans. destruct (encode_line (request_value ask)); [|done]. destruct (encode_line (response_value _)); [|done].
  destruct Hans as (c' & cl' & Hreq & Hi' & Hatt' & Hn' & _).
  destruct (panic_outcome (hex_encode tk) later rest k1 {| p_action := PanicErase; p_token := hex_encode tk; p_expires_at := expires_at i |})
    as [Hok2 Hterm]; try done.
  { pose proof (run_command_ok dir RequestPanicConfirmation k) as Hrun. unfold dispatch in Hout. rewrite Ha in Hout. cbn [negb] in Hout.
    destruct (dispatch_active dir RequestPanicConfirmation k) as [r0 k0]. injection Hout as _ ->. apply Hrun; [|done].
    apply is_active_spec in Ha. by rewrite Ha. }
  { unfold k1, tick, unix_time. cbn. by rewrite Hr. }
  { unfold k1. cbn [co_confirmations set_confirmations]. rewrite Hpend. apply lookup_insert_eq. }
  { cbn [p_expires_at]. by rewrite Hexp. }
  assert (saturating_add u64_max (cc_next_id c) 1 = cc_next_id c + 1) as Hplus by (unfold saturating_add; lia).
  rewrite Hplus in Hn'. destruct (dispatch dir displays (Panic (hex_encode tk)) k1) as [o k2] eqn:Ed.
  assert (forall x, request (Panic (hex_encode tk)) (c', (cl', k1)) = x ->
    request_with_confirmation token_files (Panic "ERASE") (c, (cl, k)) = x) as Hflow.
  { intros x <-. cbn [request_with_confirmation]. rewrite String.eqb_refl. cbn [negb]. unfold se_bind at 1. rewrite Hreq. cbn [rs_outcome].
    unfold se_bind. cbn [snd]. by rewrite (token_read cl' k1 i tk Hlen Hpath Hfile). }
  rewrite (Hflow _ eq_refl). cbv zeta. cbn [snd] in Hok2, Hterm.
  destruct (request_served (Panic (hex_encode tk)) c' cl' k1 o cl' k2 Hi' Hatt') as [-> | ->]; try done.
  { rewrite Hn'. lia. }
  { cbn [command_wf]. apply hex_utf8. }
  { unfold request_outcome. cbn [command]. destruct Hatt' as [_ ->]. cbn [negb rh_handle the_handler core_handler command].
    by rewrite Ed. }
  { by rewrite Hn'. }
  { split; [done|]. apply (ok_wiped _ Hok2). }
  { rewrite drop_receiver_panic. split; [done|]. intros Hc. apply drop_receiver_wiped, (ok_wiped _ Hok2), Hc. }
Qed.
End Terminal.

(** ** What the terminal shows *)

Section View.
Context {W : Type} {aead : Aead} {hex : Hex} {json : Json} {sha : Sha256} {schnorr : Schnorr} {bech : Bech32}.
Context {crypto : Nip44Crypto} {b64 : Base64} {url : UrlLib} {ed : Ed25519} {api : SecretApi W}.

(** The row of a stored message *)
Definition row_of (m : StoredMessage) : MessageRow := {|
  mr_id := sm_id m; mr_sender := clean (sm_sender m); mr_text := clean (sm_text m); mr_outgoing := sm_outgoing m;
  mr_delivery := sm_delivery m |}.
Definition of_conversation (conv : string) (ms : list StoredMessage) : list StoredMessage :=
  List.filter (fun m => String.eqb (sm_conversation m) conv) ms.

(** A history as it is meant to be shown: one row for each message id, where the id first
    occurs, with the delivery state its last occurrence has. *)
Fixpoint firsts (seen : list string) (ms : list StoredMessage) : list StoredMessage :=
  match ms with
  | [] => []
  | m :: ms => if bool_decide (sm_id m ∈ seen) then firsts seen ms else m :: firsts (sm_id m :: seen) ms
  end.
Definition latest (m : StoredMessage) (ms : list StoredMessage) : string :=
  List.last (map sm_delivery (List.filter (fun x => String.eqb (sm_id x) (sm_id m)) ms)) (sm_delivery m).
Definition with_delivery (d : string) (r : MessageRow) : MessageRow := {|
  mr_id := mr_id r; mr_sender := mr_sender r; mr_text := mr_text r; mr_outgoing := mr_outgoing r; mr_delivery := d |}.
Definition shown_rows (ms : list StoredMessage) : list MessageRow :=
  map (fun m => with_delivery (latest m ms) (row_of m)) (firsts [] ms).

(** One more message changes a shown history in one place. *)
Definition redeliver (x : StoredMessage) (r : MessageRow) : MessageRow :=
  if String.eqb (mr_id r) (sm_id x) then with_delivery (sm_delivery x) r else r.
Definition show_more (rows : list MessageRow) (x : StoredMessage) : list MessageRow :=
  map (redeliver x) rows ++ (if bool_decide (sm_id x ∈ map mr_id rows) then [] else [row_of x]).

Lemma firsts_snoc seen ms x :
  firsts seen (ms ++ [x]) = firsts seen ms ++ (if bool_decide (sm_id x ∈ seen ++ map sm_id ms) then [] else [x]).
Proof using Type.
  revert seen. induction ms as [|m ms IH]; intros seen; cbn [app firsts map].
  { rewrite app_nil_r. by case_bool_decide. }
  assert (forall l : list string, (sm_id x ∈ l <-> sm_id x ∈ seen ++ sm_id m :: map sm_id ms) ->
    bool_decide (sm_id x ∈ l) = bool_decide (sm_id x ∈ seen ++ sm_id m :: map sm_id ms)) as Hl by (intros l; apply bool_decide_ext).
  destruct (bool_decide_reflect (sm_id m ∈ seen)) as [Hm|Hm]; rewrite IH; [|cbn [app]; f_equal]; f_equal; rewrite Hl; try done;
    rewrite ?elem_of_app, ?elem_of_cons, ?elem_of_app; [|tauto].
  split; [tauto|]. intros [H|[H|H]]; [by left | left; by rewrite H | by right].
Qed.
Lemma firsts_ids id ms : id ∈ map sm_id (firsts [] ms) <-> id ∈ map sm_id ms.
Proof using Type.
  induction ms as [|x ms IH] using rev_ind; [reflexivity|]. rewrite firsts_snoc, !map_app. cbn [app].
  case_bool_decide as Hx; cbn [map]; rewrite !elem_of_app, IH, list_elem_of_singleton; [|reflexivity]. split.
  - intros [H | H%elem_of_nil]; [by left | done].
  - intros [H | ->]; by left.
Qed.
Lemma firsts_nodup ms : NoDup (map sm_id (firsts [] ms)).
Proof using Type.
  induction ms as [|x ms IH] using rev_ind; [constructor|]. rewrite firsts_snoc, map_app. cbn [app].
  case_bool_decide as Hx; [by rewrite app_nil_r|]. apply NoDup_app. split; [done|]. split; [|apply NoDup_singleton].
  intros id Hid Hin. apply list_elem_of_singleton in Hin as ->. by apply Hx, firsts_ids.
Qed.
Lemma history_ids ms : map mr_id (shown_rows ms) = map sm_id (firsts [] ms).
Proof using Type. unfold shown_rows. by rewrite map_map. Qed.
Lemma history_length ms : (length (shown_rows ms) <= length ms)%nat.
Proof using Type.
  unfold shown_rows. rewrite length_map. generalize (@nil string). induction ms as [|m ms IH]; intros seen; [done|]. cbn [firsts].
  case_bool_decide; cbn [length]; [specialize (IH seen) | specialize (IH (sm_id m :: seen))]; lia.
Qed.

Lemma latest_snoc m ms x : latest m (ms ++ [x]) = if String.eqb (sm_id m) (sm_id x) then sm_delivery x else latest m ms.
Proof using Type.
  unfold latest. rewrite List.filter_app, map_app. cbn [List.filter]. rewrite (String.eqb_sym (sm_id x)).
  destruct (String.eqb (sm_id m) (sm_id x)); cbn [map]; [apply last_last | by rewrite app_nil_r].
Qed.
Lemma latest_again m l1 l2 : latest m ((l1 ++ l2) ++ l2) = latest m (l1 ++ l2).
Proof using Type.
  induction l2 as [|x l2 IH] using rev_ind; [by rewrite !app_nil_r|].
  rewrite app_assoc, latest_snoc, (app_assoc l1), latest_snoc. destruct (String.eqb _ _) eqn:E; [done|].
  unfold latest in *. rewrite !List.filter_app, !map_app in *. cbn [List.filter]. rewrite (String.eqb_sym (sm_id x)), E. cbn [map].
  by rewrite app_nil_r.
Qed.

Lemma history_snoc ms x : shown_rows (ms ++ [x]) = show_more (shown_rows ms) x.
Proof using Type.
  unfold show_more. rewrite history_ids. unfold shown_rows. rewrite firsts_snoc, map_app. cbn [app]. f_equal.
  - rewrite map_map. apply map_ext. intros m. unfold redeliver. cbn [mr_id with_delivery row_of]. rewrite latest_snoc.
    by destruct (String.eqb _ _).
  - rewrite (bool_decide_ext (sm_id x ∈ map sm_id (firsts [] ms)) (sm_id x ∈ map sm_id ms)) by apply firsts_ids. case_bool_decide; [done|]. cbn [map].
    rewrite latest_snoc, String.eqb_refl. done.
Qed.
Lemma history_extend ms ms' : shown_rows (ms ++ ms') = fold_left show_more ms' (shown_rows ms).
Proof using Type.
  induction ms' as [|x ms' IH] using rev_ind; [by rewrite app_nil_r|]. by rewrite app_assoc, history_snoc, IH, fold_left_app.
Qed.
Lemma history_grows ms ms' : (length (shown_rows ms) <= length (shown_rows (ms ++ ms')))%nat.
Proof using Type.
  induction ms' as [|x ms' IH] using rev_ind; [by rewrite app_nil_r|]. rewrite app_assoc, history_snoc. unfold show_more.
  rewrite length_app, length_map. lia.
Qed.

(** A history told again, whole or its end, shows nothing more. *)
Lemma history_again l1 l2 new : shown_rows ((l1 ++ l2) ++ l2 ++ new) = shown_rows ((l1 ++ l2) ++ new).
Proof using Type.
  rewrite app_assoc, !(history_extend _ new). f_equal. unfold shown_rows.
  assert (firsts [] ((l1 ++ l2) ++ l2) = firsts [] (l1 ++ l2)) as ->.
  { assert (forall ms, (forall x, x ∈ ms -> sm_id x ∈ map sm_id (l1 ++ l2)) -> firsts [] ((l1 ++ l2) ++ ms) = firsts [] (l1 ++ l2)) as H.
    - induction ms as [|x ms IH] using rev_ind; intros Hin; [by rewrite app_nil_r|]. rewrite app_assoc, firsts_snoc, IH by set_solver.
      rewrite bool_decide_true; [by rewrite app_nil_r|]. cbn [app]. rewrite map_app. apply elem_of_app. left. apply Hin. set_solver.
    - apply H. intros x Hx. apply list_elem_of_fmap_2. set_solver. }
  apply map_ext. intros m. by rewrite latest_again.
Qed.

(** Messages with distinct ids are all shown. *)
Lemma history_distinct ms : NoDup (map sm_id ms) -> shown_rows ms = map row_of ms.
Proof using Type.
  induction ms as [|x ms IH] using rev_ind; [done|]. rewrite map_app. intros Hn. apply NoDup_app in Hn as (Hn & Hx & _).
  rewrite history_snoc, IH by done. unfold show_more. rewrite !map_app, !map_map.
  assert (sm_id x ∉ map sm_id ms) as Hnew by (intros Hin; apply (Hx _ Hin); by left). cbn [mr_id row_of].
  change (map (fun m => sm_id m) ms) with (map sm_id ms). rewrite bool_decide_false by done. f_equal.
  apply map_ext_in. intros m Hm. unfold redeliver. cbn [mr_id row_of]. destruct (String.eqb_spec (sm_id m) (sm_id x)) as [E|]; [|done].
  exfalso. apply Hnew. rewrite <- E. by apply list_elem_of_In, in_map.
Qed.

(** The terminal's rows follow the history. *)
Lemma redeliver_alter x rows i :
  NoDup (map mr_id rows) -> position (fun r => String.eqb (mr_id r) (sm_id x)) rows = Some i ->
  alter (with_delivery (sm_delivery x)) i rows = map (redeliver x) rows.
Proof using Type.
  revert i. induction rows as [|r rows IH]; intros i; [done|]. cbn [map position]. intros [Hr Hn]%NoDup_cons.
  unfold redeliver at 1. destruct (String.eqb_spec (mr_id r) (sm_id x)) as [E|E].
  - intros [= <-]. cbn. f_equal. symmetry. rewrite <- (map_id rows) at 2. apply map_ext_in. intros y Hy. unfold redeliver.
    destruct (String.eqb_spec (mr_id y) (sm_id x)) as [Ey|]; [|done]. exfalso. apply Hr. rewrite E, <- Ey.
    by apply list_elem_of_In, in_map.
  - destruct (position _ rows) as [j|] eqn:Ej; [|done]. intros [= <-]. cbn. f_equal. by apply IH.
Qed.
Lemma apply_stored x rows :
  NoDup (map mr_id rows) -> zlen (show_more rows x) <= MAX_ROW_MESSAGES -> apply_row (sm_id x) (message_json x) rows = show_more rows x.
Proof using Type.
  intros Hn Hl. unfold apply_row. destruct (position _ rows) as [i|] eqn:Ei.
  - change (index_str (message_json x) "delivery") with (Some (sm_delivery x)).
    change (alter (with_delivery (sm_delivery x)) i rows = show_more rows x). rewrite redeliver_alter by done. unfold show_more.
    rewrite bool_decide_true; [by rewrite app_nil_r|]. apply position_some in Ei as (r & Hr & E). apply String.eqb_eq in E.
    rewrite <- E. by apply list_elem_of_fmap_2, (list_elem_of_lookup_2 _ i).
  - assert (forall r, r ∈ rows -> String.eqb (mr_id r) (sm_id x) = false) as Hno by (intros r; exact (position_none _ _ r Ei)).
    assert (sm_id x ∉ map mr_id rows) as Hnew.
    { intros Hin. apply list_elem_of_fmap in Hin as (r & Hr & Hin). apply Hno in Hin. by rewrite <- Hr, String.eqb_refl in Hin. }
    unfold show_more in *. rewrite bool_decide_false in * by done. unfold zlen in Hl. rewrite length_app, length_map in Hl. cbn [length] in Hl.
    rewrite (proj2 (Z.eqb_neq _ _)) by (unfold zlen; lia). f_equal. symmetry. rewrite <- (map_id rows) at 2. apply map_ext_in.
    intros r Hr. unfold redeliver. by rewrite Hno by (by apply list_elem_of_In).
Qed.

Lemma of_conversation_app conv l1 l2 : of_conversation conv (l1 ++ l2) = of_conversation conv l1 ++ of_conversation conv l2.
Proof using Type. apply List.filter_app. Qed.

Lemma shown_messages ms seen m0 :
  ui_ok m0 ->
  let m := fold_left (fun m v => apply_message v m) (map message_json ms) m0 in
  ui_ok m /\ forall conv, rows_of conv m0 = shown_rows (of_conversation conv seen) ->
    zlen (shown_rows (of_conversation conv (seen ++ ms))) <= MAX_ROW_MESSAGES ->
    rows_of conv m = shown_rows (of_conversation conv (seen ++ ms)).
Proof using Type.
  intros Hok. induction ms as [|x ms IH] using rev_ind; cbn zeta.
  { cbn [map fold_left]. split; [done|]. intros conv Hr _. by rewrite app_nil_r. }
  destruct IH as [Hok' IH]. rewrite map_app, fold_left_app. cbn [map fold_left]. split; [by apply apply_message_ok|].
  intros conv Hr Hl. rewrite (apply_message_rows _ (sm_id x) (sm_conversation x)) by done.
  rewrite app_assoc, of_conversation_app in Hl |- *.
  rewrite IH; [|done|unfold zlen in *; pose proof (history_grows (of_conversation conv (seen ++ ms)) (of_conversation conv [x])); lia].
  unfold of_conversation at 2 4. unfold of_conversation at 2 in Hl. cbn [List.filter] in *. destruct (String.eqb (sm_conversation x) conv); [|by rewrite app_nil_r].
  rewrite history_snoc in *. apply apply_stored; [|done]. rewrite history_ids. apply firsts_nodup.
Qed.

Lemma string_list_ser rs : string_list (ser_strings rs) = rs.
Proof using Type.
  unfold string_list, ser_strings. cbn [as_array option_map default Datatypes.id]. induction rs as [|r rs IH]; [done|].
  cbn [map]. change (r :: omap de_string (map JString rs) = r :: rs). by rewrite IH.
Qed.

Lemma messages_keep_relays vs m : ui_relays (fold_left (fun m v => apply_message v m) vs m) = ui_relays m.
Proof using Type.
  revert m. induction vs as [|v vs IH]; intros m; [done|]. cbn [fold_left]. rewrite IH. unfold apply_message.
  destruct (index_str v "id"); [|done]. destruct (index_str v "conversation"); [|done].
  unfold ensure_contact. destruct (position _ _); [destruct (_ && _)|]; done.
Qed.

Lemma shown_contacts cs m :
  ui_ok m -> let m' := fold_left (fun m v => apply_contact v m) (map contact_json cs) m in
  ui_ok m' /\ (forall conv, rows_of conv m' = rows_of conv m) /\
  (forall c, c ∈ cs -> ("dm:" +:+ ct_pubkey c)%string ∈ map cr_peer (ui_contacts m')) /\ ui_relays m' = ui_relays m.
Proof using Type.
  intros Hok. cbn zeta. induction cs as [|c cs IH] using rev_ind.
  { split; [done|]. split; [done|]. split; [|done]. intros c Hc. by apply elem_of_nil in Hc. }
  destruct IH as (H1 & H2 & H3 & H4). rewrite map_app, fold_left_app. cbn [map fold_left].
  set (m1 := fold_left _ (map contact_json cs) m) in *.
  assert (apply_contact (contact_json c) m1 = (ensure_contact ("dm:" +:+ ct_pubkey c) (ct_display c) m1).2) as ->
    by (unfold apply_contact, contact_json; by destruct (ct_nip05 c)).
  split; [by apply ensure_contact_keeps|]. split; [intros conv; rewrite ensure_contact_rows by done; apply H2|]. split.
  - intros d Hd. apply ensure_contact_peers. apply elem_of_app in Hd as [Hd|Hd]; [left; by apply H3|].
    apply list_elem_of_singleton in Hd as ->. by right.
  - rewrite <- H4. unfold ensure_contact. destruct (position _ _); [destruct (_ && _)|]; done.
Qed.

Lemma ui_default_ok : ui_ok UiModel_default.
Proof using Type. split; cbn; [constructor | constructor | by left | done]. Qed.

(** What a snapshot does to a model that has shown [seen] so far *)
Lemma shown_snapshot (a : Actor W) m0 :
  ui_ok m0 -> let m := apply_snapshot (snapshot_value a).1 m0 in
  (forall seen conv, rows_of conv m0 = shown_rows (of_conversation conv seen) ->
     zlen (shown_rows (of_conversation conv (seen ++ messages a))) <= MAX_ROW_MESSAGES ->
     rows_of conv m = shown_rows (of_conversation conv (seen ++ messages a))) /\
  (forall c, c ∈ contacts a -> ("dm:" +:+ ct_pubkey c)%string ∈ map cr_peer (ui_contacts m)) /\
  ui_relays m = relays a /\ ui_connected m = true.
Proof using Type.
  intros Hok m. pose proof (touches_secret_if_any [] a) as Ht. unfold m, apply_snapshot, snapshot_value.
  destruct (secret_if_any a) as [s a'] eqn:Es. cbn [snd] in Ht.
  assert (messages a' = messages a /\ contacts a' = contacts a /\ relays a' = relays a) as (Em & Ec & Er)
    by (destruct Ht; split_and!; auto using not_elem_of_nil).
  cbn [fst]. rewrite Em, Ec, Er. set (snap := JObject _).
  change (as_array (value_index snap "messages")) with (Some (map message_json (messages a))).
  change (as_array (value_index snap "contacts")) with (Some (map contact_json (contacts a))).
  change (value_index snap "relays") with (ser_strings (relays a)). cbn [default Datatypes.id].
  set (m1 := set_ui_relays _ _). assert (ui_ok m1) as H1 by (unfold m1; by apply set_ui_relays_ok, set_npub_ok).
  set (m2 := fold_left _ (map message_json _) m1).
  assert (ui_ok m2) as H2 by apply (shown_messages (messages a) [] m1 H1).
  destruct (shown_contacts (contacts a) m2 H2) as (_ & Hrows2 & Hpeers & Hrel).
  split_and!.
  - intros seen conv Hr Hl. unfold rows_of in *. cbn [ui_contacts set_status]. rewrite Hrows2.
    by apply (shown_messages (messages a) seen m1 H1).
  - intros c Hc. cbn [ui_contacts set_status]. by apply Hpeers.
  - cbn [ui_relays set_status]. rewrite Hrel. unfold m2. rewrite messages_keep_relays. apply string_list_ser.
  - done.
Qed.

(** C23: A terminal shows the daemon's history. After the first snapshot each conversation
    has one row for every message id stored in it (the chat keeps at most [MAX_MESSAGES]
    messages), in the order in which the ids first occur, with the direction of that
    message, its sender and text cleaned of control characters, and the delivery state of
    the id's last occurrence; messages with distinct ids are all shown ([history_distinct]),
    two stored under one id are one row. A terminal that attaches again, its model well
    formed ([ui_ok], which every step keeps), keeps what it has shown: if its rows are the
    history of [seen] and the daemon now stores what is left of it ([drop k seen]) and some
    more, then the rows are the history of [seen] and the new messages, each once, as long
    as a conversation has no more ids than the 128 rows a terminal keeps; a live message
    event adds its message the same way. At either attach every contact has its
    conversation, and the relays are the daemon's. *)
Theorem terminal_shows_history (a : Actor W) :
  zlen (messages a) <= MAX_MESSAGES ->
  let attach := apply_snapshot (snapshot_value a).1 in
  (forall conv, rows_of conv (attach UiModel_default) = shown_rows (of_conversation conv (messages a))) /\
  (forall m seen conv, ui_ok m -> rows_of conv m = shown_rows (of_conversation conv seen) ->
     (forall k new, messages a = drop k seen ++ new ->
        zlen (shown_rows (of_conversation conv (seen ++ new))) <= MAX_ROW_MESSAGES ->
        rows_of conv (attach m) = shown_rows (of_conversation conv (seen ++ new))) /\
     (forall x n, zlen (shown_rows (of_conversation conv (seen ++ [x]))) <= MAX_ROW_MESSAGES ->
        rows_of conv (apply_event {| ev_version := VERSION; ev_sequence := n; ev_topic := TMessages; ev_payload := message_json x |} m) =
          shown_rows (of_conversation conv (seen ++ [x])))) /\
  (forall m, ui_ok m ->
     (forall c, c ∈ contacts a -> ("dm:" +:+ ct_pubkey c)%string ∈ map cr_peer (ui_contacts (attach m))) /\
     ui_relays (attach m) = relays a /\ ui_connected (attach m) = true).
Proof using Type.
  intros Hl attach. unfold attach. split; [|split].
  - intros conv. apply (shown_snapshot a UiModel_default ui_default_ok) with (seen := []); [done|].
    cbn [app]. assert (length (of_conversation conv (messages a)) <= length (messages a))%nat as Hf by apply List.filter_length_le.
    pose proof (history_length (of_conversation conv (messages a))). unfold zlen, MAX_MESSAGES, MAX_ROW_MESSAGES in *. lia.
  - intros m seen conv Hok Hr. split.
    + intros k new Ha Hb. assert (shown_rows (of_conversation conv (seen ++ messages a)) = shown_rows (of_conversation conv (seen ++ new))) as Heq.
      { rewrite Ha, <- (take_drop k seen) at 1. rewrite !of_conversation_app, history_again, <- of_conversation_app, take_drop. done. }
      rewrite <- Heq in *. by apply (shown_snapshot a m Hok).
    + intros x n Hb. by apply (shown_messages [x] seen m Hok).
  - intros m Hok. apply (shown_snapshot a m Hok).
Qed.
End View.

(** ** Witnesses *)

#[local] Existing Instance no_secrets.

Definition quiet_displays : Displays := {|
  display_chat := fun _ => ""; display_store := fun _ => ""; display_identity_store := fun _ => "";
  display_nostr_store := fun _ => ""; display_io := "" |}%string.
Definition typed_panic (c0 : Core unit) :=
  request_with_confirmation (peer := daemon_peer (handler := the_handler "d" quiet_displays)) (token_files "d") (Panic "ERASE")
    (CtlClient_new, (greeted_connection, c0)).

Lemma panic_from_terminal_witness :
  exists c0, opened = Ok c0 /\ files (disk (world (co_actor c0))) <> ∅ /\
    is_terminal (pl_state (co_panic (typed_panic c0).2.2.2)) = true /\
    pl_state (co_panic (typed_panic c0).2.2.2) = CleanupComplete /\ wiped (typed_panic c0).2.2.2.
Proof.
  destruct opened as [c0|] eqn:E.
  2: { exfalso. assert (is_ok opened = true) as H by (vm_compute; reflexivity). rewrite E in H. discriminate H. }
  exists c0. split; [reflexivity|].
  assert (match opened with Ok c => bool_decide (files (disk (world (co_actor c))) = ∅) = false /\
      pl_state (co_panic (typed_panic c).2.2.2) = CleanupComplete /\
      readings (world (co_actor c)) = replicate 9 (Some 1000) /\
      is_active c = true /\ co_inflight c = [] /\
      co_confirmations c = sample_confirmations | Err _ => False end) as H
    by (vm_compute; repeat split; reflexivity).
  rewrite E in H. lazy beta iota in H. destruct H as (H1 & H2 & H3 & H4 & H5 & H6).
  split; [exact (bool_decide_eq_false_1 _ H1)|].
  destruct (issue PanicErase 1000 sample_confirmations) as [[i|] f] eqn:Ei; [|vm_compute in Ei; discriminate Ei].
  assert (match issue PanicErase 1000 sample_confirmations with
    | (Ok i, f) => Confirmation.files f !! file_name PanicErase = Some (hex_encode (key_of 5)) /\
       is_ok (encode_line (response_value {| rs_version := VERSION; rs_id := "1";
         rs_outcome := OkOutcome (confirmation_issue_value "d" i) |})) = true
    | _ => False end) as Hi by (vm_compute; split; reflexivity).
  rewrite Ei in Hi. lazy beta iota in Hi. destruct Hi as [Hf Hr].
  pose proof E as E'. unfold opened in E'. destruct (core_open_ok _ _ _ _ _ E') as (Hok & _).
  rewrite <- H6 in Ei.
  destruct (panic_from_terminal "d" quiet_displays CtlClient_new greeted_connection c0 1000 1000 (replicate 7 (Some 1000)) i f
    (hex_encode (key_of 5))) as [_ [Ht Hw]].
  - repeat split; discriminate.
  - split; reflexivity.
  - split; [discriminate | reflexivity].
  - vm_compute. reflexivity.
  - exact Hok.
  - exact H4.
  - exact H5.
  - exact H3.
  - exact Ei.
  - exact Hf.
  - discriminate.
  - vm_compute. reflexivity.
  - vm_compute. reflexivity.
  - exact Hr.
  - vm_compute. reflexivity.
  - exact (conj Ht (conj H2 (Hw H2))).
Defined.

(** A daemon with a short exchange; one message of it was sent twice within a second. *)
Definition chat_line (n conv text : string) (mine : bool) : StoredMessage := {|
  sm_id := n; sm_conversation := "dm:" +:+ conv; sm_peer := conv; sm_sender := if mine then "you" else "peer"; sm_text := text;
  sm_outgoing := mine; sm_delivery := if mine then "stored" else "received"; sm_created_at := 5 |}.
Definition chatty (ms : list StoredMessage) : Actor unit := set_messages ms (spawn sample_store [] (sample_world 7 1000 [])).
Definition morning : list StoredMessage :=
  [chat_line "1" "aa" "hi" true; chat_line "2" "bb" "lunch?" false; chat_line "1" "aa" "hi" true; chat_line "3" "aa" "yo" false].
Definition noon : list StoredMessage := drop 2 morning ++ [chat_line "4" "aa" "bye" true].

(** The terminal attaches in the morning and again at noon, when the daemon has dropped two
    messages and stored another. *)
Lemma terminal_shows_history_witness :
  let m := apply_snapshot (snapshot_value (chatty morning)).1 UiModel_default in
  map mr_text (rows_of "dm:aa" m) = ["hi"; "yo"]%string /\
  map mr_text (rows_of "dm:aa" (apply_snapshot (snapshot_value (chatty noon)).1 m)) = ["hi"; "yo"; "bye"]%string.
Proof.
  assert (zlen (messages (chatty morning)) <= MAX_MESSAGES) as Hl by (vm_compute; discriminate).
  assert (zlen (messages (chatty noon)) <= MAX_MESSAGES) as Hl' by (vm_compute; discriminate).
  destruct (terminal_shows_history (chatty morning) Hl) as [H _].
  assert (ui_ok (apply_snapshot (snapshot_value (chatty morning)).1 UiModel_default)) as Hok
    by (apply apply_snapshot_ok, ui_default_ok).
  destruct (terminal_shows_history (chatty noon) Hl') as (_ & Hagain & _).
  destruct (Hagain _ morning "dm:aa"%string Hok (H _)) as [Hn _].
  cbn zeta. split.
  - rewrite H. vm_compute. reflexivity.
  - rewrite (Hn 2%nat [chat_line "4" "aa" "bye" true] eq_refl); [vm_compute; reflexivity | vm_compute; discriminate].
Defined.
