(* ===== verification/TerminalGuard.v ===== *)
(** * The terminal's modes ([main] and [TerminalGuard] of [omachat-tui/src/main.rs])

    The user interface puts the terminal into raw mode and on its alternate screen, and has
    to undo both however it ends: normally, by a signal, by an error of any call, or by a
    panic, whose hook runs before the process aborts. *)

From Stdlib Require Import Strings.Byte Ascii String.
From S2P Require Import Prelude RustStd Libs Serde CommandLine.
Local Open Scope Z_scope.

(** The terminal and the process: [TERMINAL_ACTIVE], whether the hook is set, what the next
    calls of the terminal answer ([false] fails), and the calls that were made. *)
Inductive TerminalCall := CEnableRaw | CEnterScreen | CLeaveScreen | CDisableRaw.

Record Tty := {
  raw_mode : bool;
  alternate_screen : bool;
  terminal_active : bool;
  hook_set : bool;
  answers : list bool;
  calls : list TerminalCall
}.

Definition effect (c : TerminalCall) (t : Tty) : Tty := {|
  raw_mode := match c with CEnableRaw => true | CDisableRaw => false | _ => raw_mode t end;
  alternate_screen := match c with CEnterScreen => true | CLeaveScreen => false | _ => alternate_screen t end;
  terminal_active := terminal_active t; hook_set := hook_set t; answers := answers t; calls := calls t |}.

(** One call: it is recorded, and has its effect when it succeeds. *)
Definition terminal_call (c : TerminalCall) : SE Tty unit unit := fun t =>
  let t' := {| raw_mode := raw_mode t; alternate_screen := alternate_screen t; terminal_active := terminal_active t;
               hook_set := hook_set t; answers := tail (answers t); calls := calls t ++ [c] |} in
  match answers t with
  | false :: _ => (Err tt, t')
  | _ => (Ok tt, effect c t')
  end.
Definition set_active (b : bool) (t : Tty) : Tty := {|
  raw_mode := raw_mode t; alternate_screen := alternate_screen t; terminal_active := b; hook_set := hook_set t;
  answers := answers t; calls := calls t |}.
Definition set_hook (t : Tty) : Tty := {|
  raw_mode := raw_mode t; alternate_screen := alternate_screen t; terminal_active := terminal_active t; hook_set := true;
  answers := answers t; calls := calls t |}.

(** [execute!(stdout, Show, LeaveAlternateScreen)] is one write, [CLeaveScreen]. *)
Definition restore_terminal (t : Tty) : Tty :=
  if terminal_active t then (terminal_call CDisableRaw (terminal_call CLeaveScreen (set_active false t)).2).2 else t.

(** [TerminalGuard::enter]; the guard is its [active]. *)
Definition enter (active : bool) (t : Tty) : result unit bool * Tty :=
  if active then
    match terminal_call CEnableRaw (set_hook t) with
    | (Err e, t) => (Err e, t)
    | (Ok _, t) =>
        match terminal_call CEnterScreen (set_active true t) with
        | (Err e, t) => (Err e, restore_terminal t)
        | (Ok _, t) => (Ok active, t)
        end
    end
  else (Ok active, t).
Definition drop_guard (active : bool) (t : Tty) : Tty := if active then restore_terminal t else t.

(** How the work between [enter] and the end of [main] goes. *)
Inductive Ending := BuildFails | Ends | Panics.

Inductive Exit := ExitWith (code : Z) | Aborted.

(** [main] from [is_terminal] on; a panic runs the hook and then aborts the process. *)
Definition ui_main (interactive : bool) (ending : Ending) (t : Tty) : Exit * Tty :=
  match enter interactive t with
  | (Err _, t) => (ExitWith 4, t)
  | (Ok guard, t) =>
      match ending with
      | BuildFails => (ExitWith 4, drop_guard guard t)
      | Ends => (ExitWith 0, drop_guard guard t)
      | Panics => (Aborted, if hook_set t then restore_terminal t else t)
      end
  end.

(** ** Properties *)

Definition fresh_tty (oks : list bool) : Tty :=
  {| raw_mode := false; alternate_screen := false; terminal_active := false; hook_set := false; answers := oks; calls := [] |}.

Definition count_calls (c : TerminalCall) (t : Tty) : nat :=
  length (List.filter (fun x => match x, c with
    CEnableRaw, CEnableRaw | CEnterScreen, CEnterScreen | CLeaveScreen, CLeaveScreen | CDisableRaw, CDisableRaw => true | _, _ => false end) (calls t)).

(** The terminal is given back. Whichever calls fail and however the program ends, a panic
    included, the undoing of raw mode and of the alternate screen is tried exactly once if
    raw mode was entered and never otherwise, one of the two failing does not prevent the
    other, and when they succeed the terminal is as it was; without a terminal nothing is
    touched. *)
Theorem terminal_restored interactive ending oks :
  let t := (ui_main interactive ending (fresh_tty oks)).2 in
  let entered := interactive && negb (bool_decide (head oks = Some false)) in
  terminal_active t = false /\
  count_calls CDisableRaw t = (if entered then 1 else 0)%nat /\ count_calls CLeaveScreen t = (if entered then 1 else 0)%nat /\
  (oks !! 2%nat <> Some false -> alternate_screen t = false) /\ (oks !! 3%nat <> Some false -> raw_mode t = false) /\
  (interactive = false -> t = fresh_tty oks).
Proof.
  destruct interactive; [|by destruct ending].
  destruct oks as [|[] [|[] [|[] [|[] oks]]]], ending; cbn; split_and!; intros; done.
Qed.
