(* ===== verification/LocalClients.v ===== *)
(** * The daemon as its local clients see it

    The socket server over the core: what a request for the stored messages is answered
    with, how a reload of the configuration acts, and the display name a daemon offers to
    the server. *)

From Stdlib Require Import Strings.Byte Ascii String.
From S2P Require Import Prelude RustStd BTree Libs Serde Concrete ValueMap Nip44 Event GiftWrap Keys Account Hosted Nip11 Nip05 Confirmation Storage Service Store Ipc Daemon IpcServer HostedClient Chat Core.
Local Open Scope Z_scope.

Section LocalClients.
Context {W : Type} {aead : Aead} {hex : Hex} {json : Json} {sha : Sha256} {schnorr : Schnorr} {bech : Bech32}.
Context {crypto : Nip44Crypto} {b64 : Base64} {url : UrlLib} {ed : Ed25519} {api : SecretApi W}.
Context (dir : string) (displays : Displays).

(** The reply to [Command::Messages] *)
Definition messages_response (r : Request) (c : Core W) : Response := {|
  rs_version := VERSION; rs_id := id r;
  rs_outcome := OkOutcome (JObject [("messages"%string, JArray (map message_json (messages (co_actor c))))]) |}.

(** C40: A client that asks for the stored messages gets them all in one line, or no answer
    at all: when the line would exceed 64 KiB the daemon drops the connection, and the
    daemon's state is as before, so that asking again ends the same way. *)
Theorem history_must_fit_line r (cl : Client) (c : Core W) :
  command r = Ipc.Messages -> cl_negotiated cl = true -> is_active c = true -> co_chat_alive c = true ->
  let '(p, (cl', c')) := serve_request (handler := core_handler dir displays) calm_turn r cl c in
  c' = c /\
  if MAX_LINE_BYTES <? zlen (json_to_vec (response_value (messages_response r c)))
  then p = Finished (Err (ISProtocol (LineTooLarge MAX_LINE_BYTES))) /\ cl' = cl
  else p = Running /\ cl_written cl' = cl_written cl ++ [WReply (messages_response r c)].
Proof using Type.
  intros Hr Hn Ha Hc. unfold serve_request, request_outcome, calm_turn. cbn [meanwhile reply_written stopping].
  rewrite Hr, Hn. cbn [negb rh_handle core_handler]. rewrite Hr. unfold dispatch. rewrite Ha. cbn [negb dispatch_active].
  unfold chat. rewrite Hc. unfold on_actor, se_zoom, se_map_err. cbn [fst snd Chat.handle map_err outcome_of].
  fold (messages_response r c). unfold encode_line. destruct (_ <? _).
  - split; [by destruct c | done].
  - cbn [cl_negotiated add_written]. rewrite Hn. cbn. split; [by destruct c | done].
Qed.

(** A reload that is accepted changes nothing the daemon acts on: the chat keeps the
    relays it has, whatever relays the new configuration names. *)
Theorem reload_keeps_relays file (c c' : Core W) :
  reload file c = (Ok tt, c') ->
  co_actor c' = co_actor c /\ hosted (co_config c') = hosted (co_config c) /\
  exists config, DaemonConfig_load file = Ok config /\ co_config c' = config.
Proof using Type.
  unfold reload. intros H. inv_ok. unfold ensure_active in Ha0. injection Ha0 as _ <-.
  destruct (_ || _) eqn:E; [done|]. injection H as <-. apply orb_false_iff in E as [E1 E2]. split_bools.
  split; [done|]. split; [cbn; congruence|]. exists a. done.
Qed.
End LocalClients.

(** A display name may pass the client's checks ([validate_name]) and never the server's
    ([DisplayName::parse]): with an invisible formatting character in it, every attempt to
    register the device is refused. *)
Theorem display_name_refused `{Hex} `{Schnorr} `{Bech32} name dev now conn :
  validate_name name = Ok name -> existsb is_unsafe_display_format (chars name) = true ->
  (account_for_device dev conn).1 = Ok None ->
  (register dev (Some name) now conn).1 =
    Err (Refused (mkServerError InvalidName "display names are 1 to 80 printable characters")).
Proof.
  intros _ Hu Hd. unfold register, se_bind at 1, se_map_err at 1.
  destruct (account_for_device dev conn) as [r conn1]. cbn [fst snd] in *. subst r. cbn [map_err].
  unfold se_bind at 1, se_ret at 1.
  assert (DisplayName_parse name = Err InvalidDisplayName) as ->; [|done].
  unfold DisplayName_parse. apply existsb_exists in Hu as (ch & Hin & Hch).
  assert (existsb (fun c => is_control c || is_unsafe_display_format c) (chars name) = true) as ->.
  { apply existsb_exists. exists ch. rewrite Hch, orb_true_r. done. }
  by rewrite !orb_true_r.
Qed.

(** ** Witnesses *)

#[local] Existing Instance no_secrets.

Definition no_displays : Displays := {|
  display_chat := fun _ => ""; display_store := fun _ => ""; display_identity_store := fun _ => "";
  display_nostr_store := fun _ => ""; display_io := "" |}%string.
Definition long_message (k : nat) : StoredMessage := {|
  sm_id := show (Z.of_nat k); sm_conversation := "dm:"; sm_peer := ""; sm_sender := "you"; sm_text := of_bytes (replicate 4096 "a"%byte);
  sm_outgoing := true; sm_delivery := "stored"; sm_created_at := 0 |}.
(** A daemon that stores sixteen messages of the longest length a client can send *)
Definition talkative : Core unit := {|
  co_actor := set_messages (map long_message (seq 0 16)) (spawn sample_store [] (sample_world 7 1000 []));
  co_chat_alive := true; co_identity := None; co_panic := PanicLifecycle_default; co_cleanup := None; co_hosted := None;
  co_account := None; co_config := DaemonConfig_default; co_confirmations := sample_confirmations; co_inflight := []; co_calls := [];
  co_oracle := {| or_network := no_network; or_deliveries := []; or_removed := true; or_safe := true |} |}.
Definition greeted : Client := set_negotiated Client_new.
Definition ask : Request := {| version := VERSION; id := "1"; command := Ipc.Messages |}.

Lemma history_must_fit_line_witness :
  zlen (messages (co_actor talkative)) < MAX_MESSAGES /\
  (forall m, m ∈ messages (co_actor talkative) -> slen (sm_text m) <= MAX_TEXT_BYTES) /\
  (serve_request (handler := core_handler "d" no_displays) calm_turn ask greeted talkative).1 =
    Finished (Err (ISProtocol (LineTooLarge MAX_LINE_BYTES))).
Proof.
  split; [vm_compute; reflexivity|]. split.
  { intros m Hm. unfold talkative in Hm. cbn [co_actor messages set_messages] in Hm.
    apply list_elem_of_fmap in Hm as (k & -> & _). cbn [sm_text long_message]. vm_compute. discriminate. }
  pose proof (history_must_fit_line "d" no_displays ask greeted talkative eq_refl eq_refl eq_refl eq_refl) as H.
  assert ((MAX_LINE_BYTES <? zlen (json_to_vec (response_value (messages_response ask talkative)))) = true) as El by (vm_compute; reflexivity).
  rewrite El in H. destruct (serve_request calm_turn ask greeted talkative) as [p [cl' c']]. exact (proj1 (proj2 H)).
Defined.

Lemma reload_keeps_relays_witness :
  exists c', reload (Some (as_bytes (value_to_string (JObject [("dm_relays", ser_strings ["wss://new/"])]%string)))) talkative = (Ok tt, c') /\
    dm_relays (co_config c') = ["wss://new/"%string] /\ relays (co_actor c') = relays (co_actor talkative).
Proof.
  destruct (reload (Some (as_bytes (value_to_string (JObject [("dm_relays", ser_strings ["wss://new/"])]%string)))) talkative) as [r c'] eqn:E.
  assert (match reload (Some (as_bytes (value_to_string (JObject [("dm_relays", ser_strings ["wss://new/"])]%string)))) talkative with
    | (Ok tt, c) => dm_relays (co_config c) = ["wss://new/"%string] | _ => False end) as H by (vm_compute; reflexivity).
  rewrite E in H. destruct r as [[]|]; [|destruct H]. exists c'. split; [reflexivity|]. split; [exact H|].
  destruct (reload_keeps_relays _ _ _ E) as [Ha _]. by rewrite Ha.
Defined.

Definition ghost_name : string := of_bytes [x41; xe2; x80; x8b; x42].
Lemma display_name_refused_witness :
  validate_name ghost_name = Ok ghost_name /\
  (register sample_device (Some ghost_name) 500 (quiet migrated [])).1 =
    Err (Refused (mkServerError InvalidName "display names are 1 to 80 printable characters")).
Proof.
  split; [vm_compute; reflexivity|]. apply display_name_refused; vm_compute; reflexivity.
Defined.
